(* ===== verification/_CoqProject ===== *)
-Q . S2P
Prelude.v
MoshProto.v
MoshFragment.v
MoshCrypto.v
MoshRtt.v
MoshConn.v
MoshSender.v
MoshClient.v
Telnet.v
Text.v
Envelope.v
Authz.v
VaultAccess.v
SyncTypes.v
SyncServer.v
ClientStore.v
Hosts.v
ClientSync.v
Replica.v
LiveRelay.v
LiveShare.v
Fido.v
Net.v
Conv.v
Proxy.v
X11.v
Import.v
Csv.v
SshConfig.v
Backend.v
Server.v
Sessions.v
Codes.v
Trust.v
SignIn.v
Factors.v
Mfa.v
Register.v
Teams.v
Roles.v
TeamRights.v
TeamSafety.v
HostKeys.v
PinStore.v
HostKeySafety.v
Zmodem.v
Rotation.v
History.v
HistoryRoutes.v
HistorySync.v
HistorySafety.v
Vaults.v
TempAccess.v
VaultSteps.v
VaultSafety.v
