(* ===== verification/Prelude.v ===== *)
(** * Termoso: a verification development

    Termoso is a terminal workstation: SSH, Mosh and Telnet clients over a vault
    of hosts and keys that its own server synchronises end-to-end encrypted
    between devices and teams. This library models the parts that are
    Termoso's own protocols and rules and proves them correct. Paths below are
    under [src/].

    ** The parts and how they interact

    - The Mosh client ([crates/termoso-core/src/mosh/]): keystrokes are pushed on
      a log ([Sender]), cut into fragments, sealed into datagrams and sent over
      hopping UDP ports; the server's fragments are reassembled, opened and
      applied to the terminal in order.
        [MoshProto]     wire format: varints, transport instruction, user and
                        host messages ([proto.rs]).
        [MoshFragment]  fragment header, [Fragmenter::make], [Assembly::add]
                        ([fragment.rs]).
        [MoshCrypto]    key, nonce counter, datagrams ([crypto.rs]).
        [MoshRtt]       [Rtt] of [transport.rs], in binary64 ([SpecFloat]).
        [MoshConn]      [Connection]: ports, MTU, timestamps, sealing, acceptance.
        [MoshSender]    [Sender]: log, states the server may hold, timers,
                        acknowledgements, shutdown.
        [MoshClient]    [Client], the terminal handle and the rounds of
                        [connect] and [run].
    - The Telnet client ([telnet.rs]): [Telnet].
    - The vault data: [SyncTypes] (messages and kinds,
      [crates/termoso-proto/src/sync.rs], [entities.rs]), [Envelope]
      (authenticated envelopes and live frames, [crates/termoso-crypto/src/aead.rs],
      [live.rs]), [Text] (strings as UTF-8 bytes: decoding, trimming, splitting,
      numbers).
    - The server: [Authz] (roles, permissions, directory groups, [authz.rs]),
      [VaultAccess] (rights in a vault, entity rules, team policies,
      [routes/vaults.rs], [acl.rs], [policy.rs]), [SyncServer] (push and pull,
      [routes/sync.rs], which asks [VaultAccess] for the rights).
    - The server's sign-in side ([crates/termoso-server/src/]): [Backend] (the
      Redis operations of [cache.rs], [ratelimit.rs], the errors of [error.rs]),
      [Server] (the tables, the bodies of flows, the class [External] of
      cryptography, mail and randomness, and the handlers' monad with its frame
      lemmas), [Sessions] (bearer sessions and their Redis copies, [session.rs],
      [extract.rs], and a machine that interleaves validations with
      revocations), [Codes] (mailed codes and flow tokens, [codes.rs],
      [util.rs]), [Trust] (network allow-lists, device approval, single sign-on
      only: [trust.rs], [enterprise.rs], [policy.rs]), [SignIn] (password
      sign-in, second factors, step-up, recovery of [routes/auth.rs],
      [turnstile.rs], [users.rs], and a machine over all its requests),
      [Factors] (one-time passwords over a history of attempts, and where
      step-up, resets and resent codes fall short), [Mfa] ([routes/mfa.rs])
      and [Register] (registration in [routes/auth.rs], invitations of
      [routes/teams.rs]). [Trust] asks [VaultAccess] for the policies of a
      user's teams.
    - The server's teams: [Teams] (teams, members, invitations and the transfer
      of ownership, [routes/teams.rs]), [Roles] ([routes/roles.rs]),
      [TeamRights] (what a request may do to roles, members and owners, and
      that every handler does no more) and [TeamSafety] (the theorems). They
      use the rules of [Authz].
    - The server's vaults: [Vaults] (vaults, members, sealed keys, rotation of
      the key, [routes/vaults.rs]), [TempAccess] (access for a time,
      [routes/access.rs]), [VaultSteps] (the invariant and that every handler
      keeps it) and [VaultSafety] (the theorems). They use the rights of
      [VaultAccess] and [Authz].
    - Rotation of secrets: [Rotation] ([routes/rotation.rs]), which asks
      [Authz] and [VaultAccess]; an update is also the two statements it is, so
      that two of them can interleave.
    - The device: [ClientStore] (the local database,
      [crates/termoso-core/src/store/]), [Hosts] (what a connection to a host
      uses, [store/entities.rs], [model.rs]), [ClientSync] (the sync engine,
      [crates/termoso-core/src/sync.rs]), which talks to the class [Remote].
    - The device's pins of host keys: [HostKeys] (keys, verdicts, known_hosts
      files and what a connection does with a presented key,
      [crates/termoso-core/src/hostkey.rs], [ssh/handler.rs]), over the class
      [Pins], which [PinStore] fulfils with [ClientStore]; [HostKeySafety] (the
      theorems).
    - History of commands and connections: [History] (the device's table,
      [store/history.rs]), [HistoryRoutes] (the server's, [routes/history.rs]),
      [HistorySync] (their exchange, [sync.rs], with the invariants) and
      [HistorySafety] (the theorems).
    - The desktop's detection of ZMODEM transfers: [Zmodem]
      ([apps/desktop/src-tauri/src/zmodem.rs]).
    - [Replica] implements [Remote] by [SyncServer] and proves the refinement:
      a device's pulls make its store the server's live rows.
    - Shared terminals: [LiveRelay] (the server's relay, [live.rs], all its
      connections interleaved over one bus) and [LiveShare] (the loops of the
      host and of a viewer, [crates/termoso-core/src/live.rs], exchanging the
      frames of [Envelope] through the relay's messages).
    - Tunnels: [Conv] (conversations over a stream and two of them talking to
      each other), [Net] (IP addresses), [Proxy] (HTTP, SOCKS4 and SOCKS5
      clients of [ssh/proxy.rs], the forwarding rules and SOCKS5 server of
      [forward.rs]), [X11] ([ssh/x11.rs]: display, connection setup, cookies).
    - Security keys: [Fido] (CTAPHID and NFC transports, [fido2/hid.rs],
      [nfc.rs]).
    - Imports: [Import] (the preview, decoding files, [import/mod.rs]), [Csv]
      ([csv.rs]) and [SshConfig] ([ssh_config.rs]), which fill it.

    Each file states its own abstractions at its top; operations keep the
    source's names where Rocq allows it.

    ** What the theorems show

    - Mosh. Sender: the log and the states determine exactly the input pushed;
      a tick offers exactly what the server may miss; datagrams fit the MTU.
      Client: the server's states are applied once each, in order. Fragments:
      any order and any repetition reassembles the instruction, and hostile
      fragments cannot make the assembly grow or report a hole as complete.
      Crypto: no nonce is ever used twice, datagrams round trip, reflected ones
      are ignored. Wire format: encoders and decoders are inverse, merging
      keystrokes loses nothing. A closing session ends. Three theorems state
      defects: evicting a state shifts the base of the next difference, an
      acknowledgement stays due for ever, a burst of writes swallows a command.
    - Telnet: the stream splits into text and commands wherever it is cut, and
      what the user types never reads as a command.
    - Rights: nobody can assign a role above their own; group mappings stay in
      bounds; write access, entity rules and effective policies are exact.
    - Sync server: answers are true and complete, tables stay well formed and
      only move forward, only permitted rows change, of two edits of one copy
      the second conflicts, a page is exactly what lies between two cursors. One
      theorem states a defect: an edit without a rotation date resets it.
    - Sign-in. A rate limit bounds every burst over two windows; whatever
      requests run, in any order, the tables stay sound, and a session only
      exists for a proof of its user and past the gates of that time; mailed
      codes allow a bounded number of guesses; one-time passwords and backup
      codes count once; backup codes exist exactly while there is a factor;
      allow-lists and the gate are exact; registration never touches an account
      that has a password. Revoking a session signs it out, and under
      interleaving an accepted token was live less than a minute ago. Theorems
      and lemmas state defects: a replaced token lives on in the cache and a
      late store revives a revoked one, step-up accepts a code alone, a failed
      reset still changes the password, a limited resend kills the code that was
      mailed, a provisioned account cannot start, an invitation overrides a
      claimed domain.
    - Teams: over any sequence of requests a team keeps exactly its one owner; a
      permission a request gives comes, by the kind of request, from the actor
      who holds it, a founded team, the role of the accepted invitation or the
      successor of the deleted role; removing a member
      leaves nothing of their rights; the search for a free slug ends. One
      theorem states a defect: deleting a role hands out any other role.
    - Vaults: over any sequence of requests a team with a vault has exactly one
      default, a membership has its vault's key version, and one with an end was
      granted by someone else for 720 hours at most; a key comes from a manager
      or from who holds it; a rotation is exact; the expiry pass too. Theorems
      state defects: a key sealed across a rotation stays stale, a stale request
      readmits a former member, a denial overtaken by an approval leaves the
      grant.
    - Rotation: jobs only advance, an open one at most per secret. One theorem
      states a defect: overlapping updates undo each other.
    - Host keys: a pin of one vault is never overridden from another; a
      connection goes on only with a pinned key or one the user accepted after
      being told the truth; exported files import as the same pins.
    - History: over any pushes by others and edits of its own, a device that
      has synchronised holds the server's live entries and the server every
      entry of the device; the local vault's history never leaves it; a command
      typed is the first completion of its beginnings. Theorems state defects:
      clearing on the server is cut short for other devices, a deletion made
      while a page is under way is undone, one unreadable row hides all of it.
    - ZMODEM: however the stream is cut, a transfer is offered and fed the same;
      a received file stays in its folder, under the first free name of a
      thousand. One theorem states a defect: a
      cancelled transfer's end drops the next one.
    - Hosts: a resolution only uses records of the host's vault, and its SSH
      config is the merge of the group chain and the host's own.
    - Device: a stored entity reads back; pulls never drop a pending edit the
      policy keeps; a push never sends the credentials kept local, leaves them
      pending and sends all else; after a pull the store is the server's live
      rows. One theorem states a defect: an edit made
      while a push is under way is forgotten.
    - Shared terminals: over every interleaving, who may join and whose bytes
      reach whom; grants and revocations take effect; what the host prints and
      a controlling viewer types comes out at the other end. Two theorems state
      defects: a viewer that lags keeps a revoked control, and one that rejoins
      is sent nothing.
    - Tunnels: a SOCKS5 client through a dynamic forward opens what it asked
      for under every interleaving; each client accepts exactly the answers of
      its protocol, reads no byte of the session behind them and ends; the
      real X11 cookie only replaces the fake one. A display number above 59535
      names another port.
    - Security keys: an exchange returns the key's answer whole, and hostile
      packets cannot make the reassembly grow.
    - Imports: CSV files round trip, and of any file the preview is exactly what
      the rows among the first 50001 give, well formed (the rest is lost without
      a warning: a defect); [Host] patterns and first-wins directives mean what
      their specification says. One theorem states a defect: a directive after
      an [Include] is captured by the included file's last block.

    ** Conventions and bounds

    - [result E A] is Rust's [Result], with the monadic bind for [?]. A handler
      that has effects before it fails returns its state next to the result.
    - Machine integers are [Z] with the wrap written out ([wrap]); clocks of the
      Mosh code (milliseconds in a u64) and the versions and sequence numbers
      of the tables (i64) are not bounded, since no run reaches their limit.
      The clock is read once per call.
    - Loops that are not structural take fuel, and a lemma shows a fuel that is
      enough: the length of the buffer for the protobuf decoders, the trim and
      the splitters, one round more than there are rows for the pull
      ([Replica]), 16 KiB and two for the head of a proxy's answer ([Proxy]),
      the device's script for security keys ([Fido]).
    - A connection in [LiveRelay] is a position on one ordered bus, and a lag of
      4096 frames loses the oldest; conversations in [Conv] are finite trees of
      calls, so that two of them always end.
    - Sockets, the operating system, the winner of a [select!], random values and
      the clock are arguments. zlib, AES-OCB3, XChaCha20-Poly1305, base64, serde
      and Unicode tables are parameters, with their documented laws as named
      hypotheses that the witnesses instantiate.
    - The server's handlers of [Backend] to [Register] share one clock with
      PostgreSQL and Redis and are atomic, except in the interleaved machine of
      [Sessions]; one that fails keeps what it wrote before, [transaction]
      undoes it. Random tokens, ids and codes are a stream of which the world
      holds the position. Roles given by an identity provider are an argument.
      The settings' cache, audit entries and foreign keys are left out.
    - [Teams] and [Roles] keep tables of their own (teams, roles, members,
      invitations, mappings); audit entries, mails and presence are left out.
      [Vaults] has tables of its own too, with the foreign keys and unique
      indexes its routes rely on; a handler is atomic, or two functions where
      others can come between its checks and its statement. Key versions are
      unbounded: each rotation adds one.
    - An SSH public key is a value of the class [PublicKeys] with the two laws of
      its text form. A device's history and a user's on the server are tables
      beside those of [ClientStore] and [SyncServer]; equal sequence numbers
      and equal times are ordered somehow.
    - A PostgreSQL or SQLite table is a finite map from ids to rows, a
      transaction a function whose error keeps the old tables. Uuids are
      numbers, times integers.

    ** Not modelled

    The desktop, mobile and web front ends; SSH itself, SFTP, WebDAV, cloud and
    hardware access (driven by libraries and I/O); key derivation and the
    OPAQUE exchange itself (a parameter of sign-in); the redirects of single
    sign-on and the directories behind them; account, administration and
    operator routes, mail and jobs; session logs (files and uploads); the
    ZMODEM protocol of the zmodem2 library; the importers of PuTTY, SecureCRT,
    MobaXterm and ZOC files, which fill the same [Import] preview as the two
    modelled; discovery ([mdns.rs]) and the completion of shell words.

    This file holds what the components share: results, machine integers,
    bytes, lemmas on lists and the development's hint database. *)
From stdpp Require Export base list gmap strings numbers sorting.
From Stdlib Require Export Lia.

#[global] Open Scope Z_scope.

(** The hints of the whole development. *)
Create HintDb termoso.

(** ** Results

    Rust's [Result<A, E>]; the [?] operator is the monadic bind. *)

Inductive result (E A : Type) : Type :=
| Ok (a : A)
| Err (e : E).
Arguments Ok {E A} a.
Arguments Err {E A} e.

#[export] Instance result_ret {E} : MRet (result E) := fun _ a => Ok a.
#[export] Instance result_bind {E} : MBind (result E) :=
  fun _ _ k m => match m with Ok a => k a | Err e => Err e end.
#[export] Instance result_fmap {E} : FMap (result E) :=
  fun _ _ f m => match m with Ok a => Ok (f a) | Err e => Err e end.

Definition is_ok {E A} (r : result E A) : bool :=
  match r with Ok _ => true | Err _ => false end.

(** [Option::ok_or]. *)
Definition ok_or {E A} (o : option A) (e : E) : result E A :=
  match o with Some a => Ok a | None => Err e end.

#[export] Instance result_eq_dec {E A} `{EqDecision E, EqDecision A} :
  EqDecision (result E A).
Proof. solve_decision. Defined.

Lemma bind_ok {E A B} (m : result E A) (k : A -> result E B) (b : B) :
  m ≫= k = Ok b <-> exists a, m = Ok a /\ k a = Ok b.
Proof.
  destruct m; simpl; split; intros H; eauto.
  - destruct H as (? & [= ->] & H). exact H.
  - discriminate.
  - destruct H as (? & H & _). discriminate.
Qed.

Lemma ok_or_ok {E A} (o : option A) (e : E) a : ok_or o e = Ok a <-> o = Some a.
Proof. destruct o; simpl; split; congruence. Qed.

(** ** Machine integers

    A [w]-bit unsigned integer is a [Z] in [[0, 2^w)]; arithmetic that can
    leave the range is followed by the wrap of Rust's release profile. *)

Definition wrap (w z : Z) : Z := z `mod` 2 ^ w.
Abbreviation wrap8 := (wrap 8).
Abbreviation wrap16 := (wrap 16).
Abbreviation wrap64 := (wrap 64).
Definition u64_max : Z := 2 ^ 64 - 1.

Definition in_width (w z : Z) : Prop := 0 <= z < 2 ^ w.
Abbreviation is_u16 := (in_width 16).
Abbreviation is_u32 := (in_width 32).
Abbreviation is_u64 := (in_width 64).
Abbreviation is_byte := (in_width 8).

(** Rust's [saturating_sub] on unsigned operands. *)
Definition sat_sub (a b : Z) : Z := Z.max 0 (a - b).

Definition clamp (x lo hi : Z) : Z :=
  if x <? lo then lo else if hi <? x then hi else x.

Lemma wrap_range w z : 0 <= w -> in_width w (wrap w z).
Proof. intros. unfold wrap, in_width. apply Z.mod_pos_bound. lia. Qed.

Lemma wrap_small w z : in_width w z -> wrap w z = z.
Proof. unfold wrap, in_width. intros. by apply Z.mod_small. Qed.

Lemma clamp_bounds x lo hi : lo <= hi -> lo <= clamp x lo hi <= hi.
Proof.
  unfold clamp. intros. destruct (Z.ltb_spec x lo); [lia|].
  destruct (Z.ltb_spec hi x); lia.
Qed.

Lemma sat_sub_le a b : 0 <= b -> 0 <= a -> sat_sub a b <= a.
Proof. unfold sat_sub. lia. Qed.

(** ** Bytes *)

Abbreviation bytes := (list Z).
Definition all_bytes (l : bytes) : Prop := Forall is_byte l.

Lemma all_bytes_app l1 l2 : all_bytes (l1 ++ l2) <-> all_bytes l1 /\ all_bytes l2.
Proof. apply Forall_app. Qed.

(** [to_be_bytes] and [from_be_bytes] of an [n]-byte integer. *)
Fixpoint be_bytes (n : nat) (z : Z) : bytes :=
  match n with
  | O => []
  | S n' => Z.land (Z.shiftr z (8 * Z.of_nat n')) 255 :: be_bytes n' z
  end.

Definition from_be (l : bytes) : Z :=
  fold_left (fun acc b => Z.lor (Z.shiftl acc 8) b) l 0.

Lemma length_be_bytes n z : length (be_bytes n z) = n.
Proof. induction n; simpl; auto. Qed.

Lemma land_255 z : Z.land z 255 = z `mod` 256.
Proof. change 255 with (Z.ones 8). by rewrite Z.land_ones by lia. Qed.

Lemma be_bytes_all n z : all_bytes (be_bytes n z).
Proof.
  unfold all_bytes. induction n; simpl; constructor; auto.
  rewrite land_255. unfold in_width. apply Z.mod_pos_bound. lia.
Qed.

Lemma lor_disjoint a b k : 0 <= k -> 0 <= b < 2 ^ k ->
  Z.lor (Z.shiftl a k) b = a * 2 ^ k + b.
Proof.
  intros Hk Hb. rewrite <- Z.shiftl_mul_pow2 by lia.
  rewrite <- Z.add_lor_land. cut (Z.land (Z.shiftl a k) b = 0); [lia|].
  apply Z.bits_inj'. intros n Hn.
  rewrite Z.land_spec, Z.bits_0, Z.shiftl_spec by lia.
  destruct (Z.lt_ge_cases n k).
  - by rewrite Z.testbit_neg_r by lia.
  - replace b with (b `mod` 2 ^ k) by (apply Z.mod_small; lia).
    rewrite Z.mod_pow2_bits_high by lia. apply andb_false_r.
Qed.

Lemma from_be_app l1 l2 : all_bytes l2 ->
  from_be (l1 ++ l2) = from_be l1 * 2 ^ (8 * Z.of_nat (length l2)) + from_be l2.
Proof.
  unfold from_be. rewrite fold_left_app. generalize (fold_left (fun acc b => Z.lor (Z.shiftl acc 8) b) l1 0).
  intros a H. revert a. induction l2 as [|b l2 IH] using rev_ind; intros a.
  - change (2 ^ (8 * Z.of_nat (length (@nil Z)))) with 1. simpl. lia.
  - apply all_bytes_app in H as [H2 Hb].
    unfold all_bytes in Hb. rewrite Forall_singleton in Hb.
    rewrite !fold_left_app. simpl.
    rewrite !(lor_disjoint _ b 8) by (lia || exact Hb).
    rewrite IH by done. rewrite length_app, Nat2Z.inj_add. simpl length.
    rewrite Z.mul_add_distr_l, Z.pow_add_r by lia. change (2 ^ (8 * Z.of_nat 1)) with 256. ring.
Qed.

Lemma from_be_bytes n z : from_be (be_bytes n z) = z `mod` 2 ^ (8 * Z.of_nat n).
Proof.
  induction n as [|n IH].
  - simpl. by rewrite Z.mod_1_r.
  - change (be_bytes (S n) z) with ([Z.land (Z.shiftr z (8 * Z.of_nat n)) 255] ++ be_bytes n z).
    rewrite from_be_app by apply be_bytes_all.
    rewrite length_be_bytes, IH, land_255, Z.shiftr_div_pow2 by lia.
    change (from_be [?x]) with (Z.lor (Z.shiftl 0 8) x).
    rewrite Z.shiftl_0_l, Z.lor_0_l.
    rewrite Nat2Z.inj_succ. replace (8 * Z.succ (Z.of_nat n)) with (8 * Z.of_nat n + 8) by lia.
    rewrite Z.pow_add_r by lia. change (2 ^ 8) with 256.
    rewrite Z.rem_mul_r by (try apply Z.pow_nonzero; lia). lia.
Qed.

Lemma from_be_be_bytes n z : in_width (8 * Z.of_nat n) z -> from_be (be_bytes n z) = z.
Proof. intros. rewrite from_be_bytes. by apply Z.mod_small. Qed.

Lemma from_be_range l : all_bytes l -> in_width (8 * Z.of_nat (length l)) (from_be l).
Proof.
  induction l as [|b l IH] using rev_ind; [by cbv|]. intros [Hl Hb]%all_bytes_app.
  rewrite from_be_app by exact Hb. apply List.Forall_inv in Hb. specialize (IH Hl). rewrite length_app. unfold in_width in *.
  change (from_be [b]) with (Z.lor 0 b). change (length [b]) with 1%nat. rewrite Z.lor_0_l.
  replace (8 * Z.of_nat (length l + 1)) with (8 * Z.of_nat (length l) + 8) by lia. rewrite Z.pow_add_r by lia.
  change (2 ^ (8 * Z.of_nat 1)) with 256. change (2 ^ 8) with 256 in *. lia.
Qed.

(** ** Lists *)

Lemma sublist_elem {A} (l1 l2 : list A) x : l1 `sublist_of` l2 -> x ∈ l1 -> x ∈ l2.
Proof. intros Hs Hx. eapply elem_of_submseteq; [done|]. by apply sublist_submseteq. Qed.

Lemma StronglySorted_sublist {A} (R : relation A) l1 l2 :
  l1 `sublist_of` l2 -> StronglySorted R l2 -> StronglySorted R l1.
Proof.
  induction 1 as [|x l1 l2 Hs IH|x l1 l2 Hs IH]; intros Hl; [constructor| |].
  - apply StronglySorted_cons in Hl as [Hx Hl]. apply StronglySorted_cons. split; [|auto].
    rewrite Forall_forall in *. intros y Hy. apply Hx. by eapply sublist_elem.
  - apply StronglySorted_cons in Hl as [_ Hl]. auto.
Qed.

Lemma sublist_map {A B} (f : A -> B) l1 l2 : l1 `sublist_of` l2 -> map f l1 `sublist_of` map f l2.
Proof. induction 1; simpl; by constructor. Qed.

Lemma NoDup_map_inj {A B} (f : A -> B) l x y :
  NoDup (map f l) -> x ∈ l -> y ∈ l -> f x = f y -> x = y.
Proof.
  induction l as [|z l IH]; simpl; intros Hnd Hx Hy E; [by apply elem_of_nil in Hx|].
  apply NoDup_cons in Hnd as [Hz Hnd].
  apply elem_of_cons in Hx as [->|Hx], Hy as [->|Hy]; try done.
  - destruct Hz. rewrite E. by apply list_elem_of_fmap_2.
  - destruct Hz. rewrite <- E. by apply list_elem_of_fmap_2.
  - by apply IH.
Qed.

(** [slice::chunks]; [n] is at least one. *)
Fixpoint chunks_fuel {A} (fuel n : nat) (l : list A) : list (list A) :=
  match fuel, l with
  | _, [] => []
  | O, _ => [l]
  | S fuel', _ => take n l :: chunks_fuel fuel' n (drop n l)
  end.
Definition chunks {A} (n : nat) (l : list A) : list (list A) := chunks_fuel (length l) n l.

Lemma concat_chunks_fuel {A} fuel n (l : list A) : concat (chunks_fuel fuel n l) = l.
Proof.
  revert l. induction fuel as [|fuel IH]; intros [|x l]; simpl; [done|by rewrite app_nil_r|done|].
  rewrite IH. apply take_drop.
Qed.

Lemma concat_chunks {A} n (l : list A) : concat (chunks n l) = l.
Proof. apply concat_chunks_fuel. Qed.

Lemma chunks_not_nil {A} n (l : list A) : l <> [] -> chunks n l <> [].
Proof. by destruct l. Qed.

Lemma chunks_fuel_le {A} n (Hn : (1 <= n)%nat) fuel : forall l : list A, (length l <= fuel)%nat ->
  Forall (fun p => (length p <= n)%nat) (chunks_fuel fuel n l).
Proof.
  induction fuel as [|fuel IH]; intros [|x l] Hl; simpl in Hl; try lia; simpl; constructor.
  - rewrite length_take. lia.
  - apply IH. rewrite length_drop. simpl. lia.
Qed.

Lemma chunks_le {A} n (l : list A) : (1 <= n)%nat -> Forall (fun p => (length p <= n)%nat) (chunks n l).
Proof. intros. by apply chunks_fuel_le. Qed.

Lemma chunks_fuel_enough {A} n fuel fuel' (l : list A) : (1 <= n)%nat ->
  (length l <= fuel)%nat -> (length l <= fuel')%nat -> chunks_fuel fuel n l = chunks_fuel fuel' n l.
Proof.
  intros Hn. revert fuel' l. induction fuel as [|fuel IH]; intros [|fuel'] [|x l] H1 H2; simpl in *; try lia; try done.
  f_equal. apply IH; rewrite length_drop; simpl; lia.
Qed.

Lemma chunks_step {A} n (l : list A) : (1 <= n)%nat ->
  chunks n l = match l with [] => [] | _ => take n l :: chunks n (drop n l) end.
Proof.
  intros Hn. destruct l as [|x l]; [done|]. unfold chunks at 1. cbn [length chunks_fuel]. f_equal.
  apply chunks_fuel_enough; [done|rewrite length_drop; cbn; lia|done].
Qed.

Lemma chunks_elem {A} n (l c : list A) x : c ∈ chunks n l -> x ∈ c -> x ∈ l.
Proof. intros Hc Hx. rewrite <- (concat_chunks n l). apply list_elem_of_In, in_concat. exists c. by rewrite <- !list_elem_of_In. Qed.

Lemma chunks_cover {A} n (l : list A) x : x ∈ l -> exists c, c ∈ chunks n l /\ x ∈ c.
Proof.
  rewrite <- (concat_chunks n l) at 1. rewrite list_elem_of_In, in_concat. intros (c & Hc & Hx). exists c. by rewrite !list_elem_of_In.
Qed.

(** [Iterator::find]. *)
Lemma list_find_elem {A} (P : A -> Prop) `{forall x, Decision (P x)} l i x :
  list_find P l = Some (i, x) -> x ∈ l /\ P x.
Proof. intros (H1 & H2 & _)%list_find_Some. split; [by eapply list_elem_of_lookup_2|done]. Qed.

Lemma list_find_none {A} (P : A -> Prop) `{forall x, Decision (P x)} l :
  list_find P l = None -> forall x, x ∈ l -> ~ P x.
Proof. intros HF%list_find_None x Hx. rewrite Forall_forall in HF. by apply HF. Qed.

Lemma list_find_on {A} (P Q : A -> Prop) `{forall x, Decision (P x)} `{forall x, Decision (Q x)} (l : list A) :
  (forall x, x ∈ l -> P x <-> Q x) -> list_find P l = list_find Q l.
Proof.
  induction l as [|x l IH]; intros HPQ; [done|]. cbn [list_find].
  rewrite IH by (intros y Hy; apply HPQ; by right).
  destruct (decide (P x)) as [Hp|Hp].
  - rewrite decide_True; [done|]. apply HPQ; [by left|done].
  - rewrite decide_False; [done|]. intros Hq. apply Hp, HPQ; [by left|done].
Qed.

Lemma filter_length_le {A} (P Q : A -> Prop) `{forall x, Decision (P x)} `{forall x, Decision (Q x)} (l : list A) :
  (forall x, x ∈ l -> P x -> Q x) -> (length (filter P l) <= length (filter Q l))%nat.
Proof.
  induction l as [|x l IH]; intros HPQ; [done|]. specialize (IH (fun y Hy => HPQ y (list_elem_of_further _ _ _ Hy))).
  rewrite !filter_cons. destruct (decide (P x)) as [Hp|Hp].
  - rewrite decide_True by (apply HPQ; [by left|done]). cbn. lia.
  - case_decide; cbn; lia.
Qed.

Lemma filter_length_lt {A} (P Q : A -> Prop) `{forall x, Decision (P x)} `{forall x, Decision (Q x)} l x :
  (forall y, y ∈ l -> P y -> Q y) -> x ∈ l -> Q x -> ~ P x -> (length (filter P l) < length (filter Q l))%nat.
Proof.
  intros HPQ Hx Hq Hp. apply list_elem_of_split in Hx as (l1 & l2 & ->).
  rewrite !filter_app, !filter_cons, (decide_False _ _ Hp), (decide_True _ _ Hq), !length_app. cbn [length].
  pose proof (filter_length_le P Q l1) as H1. pose proof (filter_length_le P Q l2) as H2.
  assert (forall y, y ∈ l1 -> P y -> Q y) by (intros y Hy; apply HPQ; apply elem_of_app; by left).
  assert (forall y, y ∈ l2 -> P y -> Q y) by (intros y Hy; apply HPQ; apply elem_of_app; right; by right).
  specialize (H1 ltac:(done)). specialize (H2 ltac:(done)). lia.
Qed.

Lemma filter_ext_in {A} (P Q : A -> Prop) `{forall x, Decision (P x)} `{forall x, Decision (Q x)} (l : list A) :
  (forall x, x ∈ l -> P x <-> Q x) -> filter P l = filter Q l.
Proof.
  induction l as [|x l IH]; intros HPQ; [done|]. rewrite !filter_cons.
  rewrite IH by (intros y Hy; apply HPQ; by right). apply decide_ext, HPQ. by left.
Qed.

Lemma filter_all {A} (P : A -> Prop) `{forall x, Decision (P x)} (l : list A) : (forall x, x ∈ l -> P x) -> filter P l = l.
Proof.
  induction l as [|x l IH]; intros HP; [done|].
  rewrite filter_cons_True by (apply HP; by left). f_equal. apply IH. intros y Hy. apply HP. by right.
Qed.

(** Lists in the order of a number. *)
Section SortedBy.
Context {A : Type} (f : A -> Z).

Lemma strict_sorted_by l : StronglySorted (fun a b => f a <= f b) l -> NoDup (map f l) ->
  StronglySorted (fun a b => f a < f b) l.
Proof.
  induction l as [|x l IH]; intros Hs Hd; [constructor|].
  apply StronglySorted_cons in Hs as [Hx Hs]. apply NoDup_cons in Hd as [Hn Hd].
  apply StronglySorted_cons. split; [|auto]. rewrite Forall_forall in *. intros y Hy.
  specialize (Hx y Hy). cut (f x <> f y); [lia|]. intros E. apply Hn.
  rewrite E. by apply list_elem_of_fmap_2.
Qed.

(** A prefix of a strictly sorted list is what lies up to its last element. *)
Lemma take_cut_by n l e : StronglySorted (fun a b => f a < f b) l ->
  e ∈ take n l <-> e ∈ l /\ exists x, last (take n l) = Some x /\ f e <= f x.
Proof.
  intros Hs. rewrite <- (take_drop n l) in Hs. split.
  - intros He. split; [by eapply sublist_elem; [apply sublist_take|]|].
    destruct (last (take n l)) as [x|] eqn:El; [|apply last_None in El; rewrite El in He; by apply elem_of_nil in He].
    exists x. split; [done|]. apply StronglySorted_app_1_l in Hs.
    apply last_Some in El as [l' El]. rewrite El in He, Hs.
    apply elem_of_app in He as [He|He%list_elem_of_singleton]; [|by subst].
    pose proof (StronglySorted_app_1_elem_of _ _ _ e x Hs He ltac:(by left)) as Hlt. cbn beta in Hlt. lia.
  - intros [He (x & Hx & Hle)]. rewrite <- (take_drop n l) in He.
    apply elem_of_app in He as [He|He]; [done|].
    assert (x ∈ take n l) as Hin by (apply last_Some in Hx as [l' ->]; apply elem_of_app; right; by left).
    pose proof (StronglySorted_app_1_elem_of _ _ _ x e Hs Hin He) as Hlt. cbn beta in Hlt. lia.
Qed.
End SortedBy.
