(* ===== verification/MoshProto.v ===== *)
(** * Mosh wire messages

    The three hand-encoded protobuf messages of
    [crates/termoso-core/src/mosh/proto.rs]: varints, tags, the [Reader]
    cursor, [Instruction], [UserInstruction] and [HostInstruction]. *)
From S2P Require Import Prelude.

(** ** Errors ([mosh/mod.rs]) *)

Inductive MoshError : Type :=
| BootstrapTimeout
| Bootstrap (words : string)
| NotInstalled
| NoDirectPath (what : string)
| Resolve (host family : string)
| BadKey
| Socket (e : string)
| NoReply (addr : string) (detail : option string)
| Version (v : Z)
| Cipher
| CounterWrapped
| FragmentError
| Compression
| Protobuf
| Closed.

#[export] Instance MoshError_eq_dec : EqDecision MoshError.
Proof. solve_decision. Defined.

Abbreviation mres := (result MoshError).

(** ** Wire types *)

Definition VARINT : Z := 0.
Definition FIXED64 : Z := 1.
Definition LEN : Z := 2.
Definition FIXED32 : Z := 5.

(** ** Writers *)

(** [while v >= 0x80 { out.push(v as u8 | 0x80); v >>= 7 } out.push(v as u8)].
    A [u64] leaves the loop after at most nine rounds ([varint_fuel_enough]). *)
Fixpoint put_varint_loop (fuel : nat) (out : bytes) (v : Z) : bytes :=
  match fuel with
  | O => out ++ [wrap8 v]
  | S fuel' =>
      if 128 <=? v
      then put_varint_loop fuel' (out ++ [Z.lor (wrap8 v) 128]) (Z.shiftr v 7)
      else out ++ [wrap8 v]
  end.

Definition put_varint (out : bytes) (v : Z) : bytes := put_varint_loop 9 out v.

Definition put_uint (out : bytes) (field v : Z) : bytes :=
  put_varint (put_varint out (Z.lor (Z.shiftl field 3) VARINT)) v.

Definition put_bytes (out : bytes) (field : Z) (v : bytes) : bytes :=
  put_varint (put_varint out (Z.lor (Z.shiftl field 3) LEN)) (Z.of_nat (length v)) ++ v.

(** ** Reader

    A cursor over a buffer. Every read either fails or returns the value and
    the advanced cursor; the caller propagates a failure with [?], so the
    cursor of a failed read is never looked at again. *)

Record Reader := mkReader { buf : bytes; pos : nat }.

Definition Reader_new (b : bytes) : Reader := mkReader b 0.

Definition done (r : Reader) : bool := (length (buf r) <=? pos r)%nat.

Fixpoint varint_loop (rounds : nat) (shift v : Z) (r : Reader) : mres (Z * Reader) :=
  match rounds with
  | O => Err Protobuf
  | S rounds' =>
      match buf r !! pos r with
      | None => Err Protobuf
      | Some b =>
          let r' := mkReader (buf r) (S (pos r)) in
          let v' := Z.lor v (wrap64 (Z.shiftl (Z.land b 127) shift)) in
          if Z.land b 128 =? 0 then Ok (v', r')
          else varint_loop rounds' (shift + 7) v' r'
      end
  end.

(** [(0..64).step_by(7)]: ten rounds, shifts 0, 7, ..., 63. *)
Definition varint (r : Reader) : mres (Z * Reader) := varint_loop 10 0 0 r.

(** [pos.checked_add(n)] on a 64-bit [usize], then the bounds check. *)
Definition advance (n : Z) (r : Reader) : mres (unit * Reader) :=
  let end_ := Z.of_nat (pos r) + n in
  if u64_max <? end_ then Err Protobuf
  else if Z.of_nat (length (buf r)) <? end_ then Err Protobuf
  else Ok (tt, mkReader (buf r) (Z.to_nat end_)).

Definition read_bytes (r : Reader) : mres (bytes * Reader) :=
  '(len, r1) ← varint r;
  let end_ := Z.of_nat (pos r1) + len in
  if u64_max <? end_ then Err Protobuf
  else if Z.of_nat (length (buf r1)) <? end_ then Err Protobuf
  else Ok (take (Z.to_nat len) (drop (pos r1) (buf r1)), mkReader (buf r1) (Z.to_nat end_)).

(** Next [(field, wire_type)] pair; the field must fit in a [u32]. *)
Definition tag (r : Reader) : mres ((Z * Z) * Reader) :=
  '(t, r1) ← varint r;
  let field := Z.shiftr t 3 in
  if field <? 2 ^ 32 then Ok ((field, Z.land t 7), r1) else Err Protobuf.

Definition skip (wire : Z) (r : Reader) : mres (unit * Reader) :=
  if wire =? VARINT then '(_, r1) ← varint r; Ok (tt, r1)
  else if wire =? LEN then '(_, r1) ← read_bytes r; Ok (tt, r1)
  else if wire =? FIXED64 then advance 8 r
  else if wire =? FIXED32 then advance 4 r
  else Err Protobuf.

(** [while !r.done() { body }]: every body starts by reading a tag, so a
    buffer of [n] bytes is left after at most [n] rounds; the fuel is the
    number of bytes the cursor has not passed ([while_fuel_enough]). *)
Fixpoint while_loop {A} (body : A -> Reader -> mres (A * Reader)) (fuel : nat)
    (a : A) (r : Reader) : mres (A * Reader) :=
  if done r then Ok (a, r)
  else match fuel with
       | O => Err Protobuf
       | S fuel' => '(a', r') ← body a r; while_loop body fuel' a' r'
       end.

Definition while_not_done {A} (body : A -> Reader -> mres (A * Reader)) (a : A) (r : Reader) :
    mres (A * Reader) :=
  while_loop body (length (buf r) - pos r) a r.

(** ** Instruction *)

Record Instruction := mkInst {
  protocol_version : Z;
  old_num : Z;
  new_num : Z;
  ack_num : Z;
  throwaway_num : Z;
  diff : bytes;
  chaff : bytes
}.

Definition Instruction_default : Instruction := mkInst 0 0 0 0 0 [] [].

#[export] Instance Instruction_eq_dec : EqDecision Instruction.
Proof. solve_decision. Defined.

Definition encode (i : Instruction) : bytes :=
  let out := [] in
  let out := put_uint out 1 (protocol_version i) in
  let out := put_uint out 2 (old_num i) in
  let out := put_uint out 3 (new_num i) in
  let out := put_uint out 4 (ack_num i) in
  let out := put_uint out 5 (throwaway_num i) in
  let out := put_bytes out 6 (diff i) in
  put_bytes out 7 (chaff i).

Definition decode_field (i : Instruction) (r : Reader) : mres (Instruction * Reader) :=
  '((field, wire), r1) ← tag r;
  let 'mkInst pv o n a t d c := i in
  if (field =? 1) && (wire =? VARINT) then
    '(v, r2) ← varint r1;
    if v <? 2 ^ 32 then Ok (mkInst v o n a t d c, r2) else Err Protobuf
  else if (field =? 2) && (wire =? VARINT) then
    '(v, r2) ← varint r1; Ok (mkInst pv v n a t d c, r2)
  else if (field =? 3) && (wire =? VARINT) then
    '(v, r2) ← varint r1; Ok (mkInst pv o v a t d c, r2)
  else if (field =? 4) && (wire =? VARINT) then
    '(v, r2) ← varint r1; Ok (mkInst pv o n v t d c, r2)
  else if (field =? 5) && (wire =? VARINT) then
    '(v, r2) ← varint r1; Ok (mkInst pv o n a v d c, r2)
  else if (field =? 6) && (wire =? LEN) then
    '(v, r2) ← read_bytes r1; Ok (mkInst pv o n a t v c, r2)
  else if (field =? 7) && (wire =? LEN) then
    '(v, r2) ← read_bytes r1; Ok (mkInst pv o n a t d v, r2)
  else '(_, r2) ← skip wire r1; Ok (i, r2).

Definition decode (b : bytes) : mres Instruction :=
  '(i, _) ← while_not_done decode_field Instruction_default (Reader_new b); Ok i.

(** ** What the client tells the server *)

Inductive UserInstruction : Type :=
| Keystroke (k : bytes)
| Resize (width height : Z).

#[export] Instance UserInstruction_eq_dec : EqDecision UserInstruction.
Proof. solve_decision. Defined.

(** [i64::from(x) as u64] for an [i32]. *)
Definition i32_as_u64 (x : Z) : Z := wrap64 x.

Definition flush_pending (out pending : bytes) : bytes :=
  match pending with
  | [] => out
  | _ => put_bytes out 1 (put_bytes [] 2 (put_bytes [] 4 pending))
  end.

Definition encode_step (st : bytes * bytes) (i : UserInstruction) : bytes * bytes :=
  let '(out, pending) := st in
  match i with
  | Keystroke k => (out, pending ++ k)
  | Resize width height =>
      let out := flush_pending out pending in
      let resize := put_uint (put_uint [] 5 (i32_as_u64 width)) 6 (i32_as_u64 height) in
      (put_bytes out 1 (put_bytes [] 3 resize), [])
  end.

Definition encode_user_message (l : list UserInstruction) : bytes :=
  let '(out, pending) := fold_left encode_step l ([], []) in
  flush_pending out pending.

(** ** What the server tells the client *)

Inductive HostInstruction : Type :=
| HostBytes (b : bytes)
| HostResize (width height : Z)
| EchoAck (n : Z).

#[export] Instance HostInstruction_eq_dec : EqDecision HostInstruction.
Proof. solve_decision. Defined.

(** [v as i64 as i32]: the low 32 bits, sign-extended. *)
Definition decode_i32 (v : Z) : Z :=
  let w := wrap 32 v in if w <? 2 ^ 31 then w else w - 2 ^ 32.

Definition host_bytes_field (out : list HostInstruction) (r : Reader) :
    mres (list HostInstruction * Reader) :=
  '((f, w), r1) ← tag r;
  if (f =? 4) && (w =? LEN) then
    '(b, r2) ← read_bytes r1; Ok (out ++ [HostBytes b], r2)
  else '(_, r2) ← skip w r1; Ok (out, r2).

Definition host_resize_field (wh : Z * Z) (r : Reader) : mres ((Z * Z) * Reader) :=
  '((f, w), r1) ← tag r;
  if (f =? 5) && (w =? VARINT) then
    '(v, r2) ← varint r1; Ok ((decode_i32 v, wh.2), r2)
  else if (f =? 6) && (w =? VARINT) then
    '(v, r2) ← varint r1; Ok ((wh.1, decode_i32 v), r2)
  else '(_, r2) ← skip w r1; Ok (wh, r2).

Definition host_echo_field (out : list HostInstruction) (r : Reader) :
    mres (list HostInstruction * Reader) :=
  '((f, w), r1) ← tag r;
  if (f =? 8) && (w =? VARINT) then
    '(v, r2) ← varint r1; Ok (out ++ [EchoAck v], r2)
  else '(_, r2) ← skip w r1; Ok (out, r2).

Definition host_inst_field (out : list HostInstruction) (r : Reader) :
    mres (list HostInstruction * Reader) :=
  '((field, wire), r1) ← tag r;
  if (field =? 2) && (wire =? LEN) then
    '(b, r2) ← read_bytes r1;
    '(out', _) ← while_not_done host_bytes_field out (Reader_new b);
    Ok (out', r2)
  else if (field =? 3) && (wire =? LEN) then
    '(b, r2) ← read_bytes r1;
    '(wh, _) ← while_not_done host_resize_field (0, 0) (Reader_new b);
    Ok (out ++ [HostResize wh.1 wh.2], r2)
  else if (field =? 7) && (wire =? LEN) then
    '(b, r2) ← read_bytes r1;
    '(out', _) ← while_not_done host_echo_field out (Reader_new b);
    Ok (out', r2)
  else '(_, r2) ← skip wire r1; Ok (out, r2).

Definition host_msg_field (out : list HostInstruction) (r : Reader) :
    mres (list HostInstruction * Reader) :=
  '((field, wire), r1) ← tag r;
  if negb (field =? 1) || negb (wire =? LEN) then
    '(_, r2) ← skip wire r1; Ok (out, r2)
  else
    '(b, r2) ← read_bytes r1;
    '(out', _) ← while_not_done host_inst_field out (Reader_new b);
    Ok (out', r2).

Definition decode_host_message (b : bytes) : mres (list HostInstruction) :=
  '(out, _) ← while_not_done host_msg_field [] (Reader_new b); Ok out.

(** The encodings the unit tests of the source list. *)
Example encode_protoc :
  encode (mkInst 2 0 1 0 0 [] [97; 98]) = [8; 2; 16; 0; 24; 1; 32; 0; 40; 0; 50; 0; 58; 2; 97; 98].
Proof. reflexivity. Qed.
Example encode_user_merge :
  encode_user_message [Keystroke [97]; Keystroke [98]; Resize 80 24; Keystroke [99]]
  = [10; 6; 18; 4; 34; 2; 97; 98; 10; 6; 26; 4; 40; 80; 48; 24; 10; 5; 18; 3; 34; 1; 99].
Proof. reflexivity. Qed.
Example decode_truncated :
  decode [50; 5; 97] = Err Protobuf /\ decode_host_message [10] = Err Protobuf /\ decode [8] = Err Protobuf.
Proof. repeat split. Qed.
Example decode_shutdown :
  let i := mkInst 2 5 u64_max 300 4 [100; 105] [0; 1; 2] in decode (encode i) = Ok i.
Proof. reflexivity. Qed.

(** ** Progress of the reader *)

Definition moves (r r' : Reader) : Prop :=
  buf r' = buf r /\ (pos r < pos r')%nat.

Lemma varint_loop_moves n shift v r x r' :
  varint_loop n shift v r = Ok (x, r') -> moves r r'.
Proof.
  revert shift v r. induction n as [|n IH]; simpl; intros shift v r H; [done|].
  destruct (buf r !! pos r); [|done].
  case_match; [simplify_eq/=; split; simpl; [done|lia]|].
  apply IH in H as [H1 H2]. simpl in *. split; [done|lia].
Qed.

Lemma varint_moves r x r' : varint r = Ok (x, r') -> moves r r'.
Proof. apply varint_loop_moves. Qed.

Lemma read_bytes_moves r x r' : read_bytes r = Ok (x, r') -> moves r r'.
Proof.
  unfold read_bytes. intros ([len r1] & H1 & H2)%bind_ok.
  destruct (varint_moves _ _ _ H1) as [Hb Hp].
  repeat case_match; simplify_eq/=. split; simpl; [done|].
  destruct (Z.lt_ge_cases len 0) as [Hn|]; [|lia].
  exfalso. revert H1 Hn. clear. unfold varint. intros H1.
  cut (0 <= len); [lia|]. revert H1.
  assert (Hgen : forall n shift v r x r', 0 <= v -> varint_loop n shift v r = Ok (x, r') -> 0 <= x).
  { induction n as [|n IH]; simpl; intros shift v r0 x r' Hv H; [done|].
    destruct (buf r0 !! pos r0); [|done].
    assert (0 <= Z.lor v (wrap64 (Z.shiftl (Z.land z 127) shift))).
    { apply Z.lor_nonneg. split; [done|]. apply Z.mod_pos_bound. lia. }
    case_match; simplify_eq/=; eauto. }
  intros H1. eapply Hgen; [|exact H1]. done.
Qed.

Lemma advance_moves n r u r' : 0 < n -> advance n r = Ok (u, r') -> moves r r'.
Proof. unfold advance. intros Hn H. repeat case_match; simplify_eq/=. split; simpl; [done|lia]. Qed.

Lemma tag_moves r x r' : tag r = Ok (x, r') -> moves r r'.
Proof.
  unfold tag. intros ([t r1] & H1 & H2)%bind_ok. apply varint_moves in H1.
  case_match; by simplify_eq/=.
Qed.

Lemma skip_moves w r u r' : skip w r = Ok (u, r') -> moves r r'.
Proof.
  unfold skip. intros H. repeat case_match; try done;
    first [apply bind_ok in H as ([? ?] & ? & ?); simplify_eq/=; by eauto using varint_moves, read_bytes_moves
          |eapply advance_moves; [|exact H]; lia].
Qed.

Lemma moves_trans r1 r2 r3 : moves r1 r2 -> moves r2 r3 -> moves r1 r3.
Proof. unfold moves. intros [-> ?] [-> ?]. split; [done|lia]. Qed.

#[export] Hint Resolve varint_moves read_bytes_moves tag_moves skip_moves : termoso.
#[export] Hint Resolve moves_trans : termoso.

Definition advances {A} (body : A -> Reader -> mres (A * Reader)) : Prop :=
  forall a r a' r', body a r = Ok (a', r') -> moves r r'.

(** Walks the binds and branches of a loop body that returned [Ok]. *)
Ltac solve_advances :=
  let H := fresh "H" in
  intros ? ? ? ? H;
  repeat match goal with
    | H : (_ ≫= _) = Ok _ |- _ => apply bind_ok in H as ([? ?] & ? & H)
    | p : Z * Z |- _ => destruct p
    | H : (if ?b then _ else _) = Ok _ |- _ => destruct b
    | H : match ?x with _ => _ end = Ok _ |- _ => destruct x
    end; simplify_eq/=; eauto with termoso.

Lemma decode_field_advances : advances decode_field.
Proof. unfold decode_field. solve_advances. Qed.
Lemma host_bytes_field_advances : advances host_bytes_field.
Proof. unfold host_bytes_field. solve_advances. Qed.
Lemma host_resize_field_advances : advances host_resize_field.
Proof. unfold host_resize_field. solve_advances. Qed.
Lemma host_echo_field_advances : advances host_echo_field.
Proof. unfold host_echo_field. solve_advances. Qed.
Lemma host_inst_field_advances : advances host_inst_field.
Proof. unfold host_inst_field. solve_advances. Qed.
Lemma host_msg_field_advances : advances host_msg_field.
Proof. unfold host_msg_field. solve_advances. Qed.
#[export] Hint Resolve decode_field_advances host_bytes_field_advances
  host_resize_field_advances host_echo_field_advances host_inst_field_advances
  host_msg_field_advances : termoso.

(** ** Enough fuel *)

Lemma while_fuel_enough {A} (body : A -> Reader -> mres (A * Reader)) n a r :
  advances body -> (length (buf r) - pos r <= n)%nat ->
  while_loop body n a r = while_not_done body a r.
Proof.
  intros Hadv. unfold while_not_done.
  cut (forall n m a r, (length (buf r) - pos r <= n)%nat -> (length (buf r) - pos r <= m)%nat ->
         while_loop body n a r = while_loop body m a r); [intros H Hn; by apply H|].
  clear n a r. induction n as [|n IH]; intros m a r Hn Hm.
  - assert (done r = true) as Hd by (apply Nat.leb_le; lia).
    destruct m; simpl; by rewrite Hd.
  - destruct m as [|m]; simpl.
    + assert (done r = true) as -> by (apply Nat.leb_le; lia). done.
    + destruct (done r) eqn:Hd; [done|].
      destruct (body a r) as [[a' r']|e] eqn:Hb; [|done].
      apply Hadv in Hb as [Hbuf Hpos]. simpl. apply IH; rewrite Hbuf; lia.
Qed.

(** The loop of the model satisfies the equation of the source's [while]. *)
Lemma while_unfold {A} (body : A -> Reader -> mres (A * Reader)) a r :
  advances body ->
  while_not_done body a r =
  if done r then Ok (a, r) else '(a', r') ← body a r; while_not_done body a' r'.
Proof.
  intros Hadv. rewrite <- (while_fuel_enough body (S (length (buf r) - pos r))) by (done || lia).
  simpl. destruct (done r) eqn:Hd; [done|]. apply Nat.leb_gt in Hd.
  destruct (body a r) as [[a' r']|e] eqn:Hb; [|done]. simpl.
  apply while_fuel_enough; [done|]. apply Hadv in Hb as [-> ?]. lia.
Qed.

Lemma put_varint_loop_app n out v :
  put_varint_loop n out v = out ++ put_varint_loop n [] v.
Proof.
  revert out v. induction n as [|n IH]; intros out v; simpl; [done|].
  case_match; [|done]. rewrite IH, (IH [_]). by rewrite <- app_assoc.
Qed.

(** A [u64] never meets the end of the fuel inside the loop. *)
Lemma put_varint_fuel_enough n k out v :
  0 <= v < 2 ^ (7 * (Z.of_nat n + 1)) ->
  put_varint_loop (n + k) out v = put_varint_loop n out v.
Proof.
  revert out v. induction n as [|n IH]; intros out v Hv; simpl.
  - destruct k; simpl; [done|]. destruct (Z.leb_spec 128 v); [|done].
    change (2 ^ (7 * (Z.of_nat 0 + 1))) with 128 in Hv. lia.
  - case_match; [|done]. apply IH. rewrite Z.shiftr_div_pow2 by lia.
    rewrite Nat2Z.inj_succ in Hv.
    replace (7 * (Z.succ (Z.of_nat n) + 1)) with (7 * (Z.of_nat n + 1) + 7) in Hv by lia.
    rewrite Z.pow_add_r in Hv by lia. change (2 ^ 7) with 128 in *.
    split; [apply Z.div_pos; lia|]. apply Z.div_lt_upper_bound; lia.
Qed.

(** ** Reading back what was written *)

Definition at_ (pre rest : bytes) : Reader := mkReader (pre ++ rest) (length pre).
Definition vb (v : Z) : bytes := put_varint [] v.
Arguments vb : simpl never.
Definition fits (r : Reader) : Prop := Z.of_nat (length (buf r)) <= u64_max.

Lemma put_varint_vb out v : put_varint out v = out ++ vb v.
Proof. apply put_varint_loop_app. Qed.
Lemma put_uint_vb out f v : put_uint out f v = out ++ vb (Z.lor (Z.shiftl f 3) VARINT) ++ vb v.
Proof. unfold put_uint. by rewrite !put_varint_vb, <- app_assoc. Qed.
Lemma put_bytes_vb out f v :
  put_bytes out f v = out ++ vb (Z.lor (Z.shiftl f 3) LEN) ++ vb (Z.of_nat (length v)) ++ v.
Proof. unfold put_bytes. by rewrite !put_varint_vb, <- !app_assoc. Qed.

Lemma at_app pre x rest : at_ pre (x ++ rest) = mkReader ((pre ++ x) ++ rest) (length pre).
Proof. unfold at_. by rewrite app_assoc. Qed.

Lemma low_byte_cont v : 128 <= v ->
  Z.land (Z.lor (wrap8 v) 128) 127 = v `mod` 128 /\ Z.land (Z.lor (wrap8 v) 128) 128 = 128.
Proof.
  intros. change 127 with (Z.ones 7). change 128 with (2 ^ 7). unfold wrap. split.
  - rewrite Z.land_lor_distr_l. rewrite (Z.land_ones (2 ^ 7)) by lia.
    rewrite Z.mod_same, Z.lor_0_r by lia. rewrite Z.land_ones by lia.
    rewrite (Z.mod_mod_divide v (2 ^ 8) (2 ^ 7)); [done|]. by exists 2.
  - rewrite Z.land_lor_distr_l, Z.land_diag. apply Z.bits_inj'. intros n Hn.
    rewrite Z.lor_spec, Z.land_spec, !Z.pow2_bits_eqb by lia.
    destruct (7 =? n); [by rewrite orb_true_r|by rewrite andb_false_r].
Qed.

Lemma low_byte_last v : 0 <= v < 128 ->
  wrap8 v = v /\ Z.land v 127 = v /\ Z.land v 128 = 0.
Proof.
  intros. split; [apply wrap_small; unfold in_width; lia|]. split.
  - change 127 with (Z.ones 7). rewrite Z.land_ones by lia. apply Z.mod_small. lia.
  - apply Z.bits_inj'. intros n Hn. rewrite Z.land_spec, Z.bits_0.
    change 128 with (2 ^ 7). rewrite Z.pow2_bits_eqb by lia.
    destruct (Z.eqb_spec 7 n); [|by rewrite andb_false_r]. subst.
    replace v with (v `mod` 2 ^ 7) by (apply Z.mod_small; lia).
    by rewrite Z.mod_pow2_bits_high by lia.
Qed.

Lemma lor_shift_add acc x sh :
  0 <= sh -> 0 <= acc < 2 ^ sh -> 0 <= x -> x * 2 ^ sh < 2 ^ 64 ->
  Z.lor acc (wrap64 (Z.shiftl x sh)) = acc + x * 2 ^ sh.
Proof.
  intros Hs Ha Hx Hlt. rewrite wrap_small.
  - rewrite Z.lor_comm, lor_disjoint by lia. lia.
  - unfold in_width. rewrite Z.shiftl_mul_pow2 by lia. nia.
Qed.

Lemma varint_loop_last m sh acc pre post v :
  (0 < m)%nat -> 0 <= sh -> 0 <= acc < 2 ^ sh -> 0 <= v < 128 -> v * 2 ^ sh < 2 ^ 64 ->
  varint_loop m sh acc (at_ pre ([wrap8 v] ++ post))
  = Ok (acc + v * 2 ^ sh, at_ (pre ++ [wrap8 v]) post).
Proof.
  intros Hm Hsh Hacc Hv Hlt. destruct m as [|m]; [lia|].
  destruct (low_byte_last v Hv) as (E1 & E2 & E3). rewrite E1. simpl.
  rewrite list_lookup_middle by done. rewrite E2, E3. simpl.
  rewrite lor_shift_add by (done || lia). unfold at_.
  by rewrite <- app_assoc, length_app, Nat.add_1_r.
Qed.

Lemma shiftr7_bounds n v : 0 <= v < 2 ^ (7 * (Z.of_nat (S n) + 1)) ->
  0 <= v / 128 < 2 ^ (7 * (Z.of_nat n + 1)).
Proof.
  intros Hv. split; [apply Z.div_pos; lia|]. apply Z.div_lt_upper_bound; [lia|].
  replace (7 * (Z.of_nat (S n) + 1)) with (7 * (Z.of_nat n + 1) + 7) in Hv by lia.
  rewrite Z.pow_add_r in Hv by lia. change (2 ^ 7) with 128 in Hv. lia.
Qed.

Lemma varint_loop_read n : forall m sh acc pre post v,
  (n < m)%nat -> 0 <= sh -> 0 <= acc < 2 ^ sh ->
  0 <= v < 2 ^ (7 * (Z.of_nat n + 1)) -> v * 2 ^ sh < 2 ^ 64 ->
  varint_loop m sh acc (at_ pre (put_varint_loop n [] v ++ post))
  = Ok (acc + v * 2 ^ sh, at_ (pre ++ put_varint_loop n [] v) post).
Proof.
  induction n as [|n IH]; intros m sh acc pre post v Hm Hsh Hacc Hv Hlt.
  - by apply varint_loop_last.
  - cbn [put_varint_loop]. destruct (Z.leb_spec 128 v) as [Hge|];
      [|apply varint_loop_last; lia || done].
    destruct m as [|m]; [lia|].
    destruct (low_byte_cont v Hge) as (E1 & E2).
    rewrite put_varint_loop_app, app_nil_l, <- app_assoc.
    cbn [varint_loop]. simpl buf. simpl pos.
    change ([?x] ++ ?l) with (x :: l). rewrite list_lookup_middle by done.
    rewrite E1, E2. simpl (128 =? 0). cbv iota zeta.
    assert (0 <= v `mod` 128 < 128) by (apply Z.mod_pos_bound; lia).
    pose proof (Z.div_mod v 128 ltac:(lia)) as Hdm.
    pose proof (shiftr7_bounds _ _ Hv) as Hdiv.
    assert (0 < 2 ^ sh) by (apply Z.pow_pos_nonneg; lia).
    rewrite lor_shift_add by (done || nia).
    assert (Hpow : 2 ^ (sh + 7) = 2 ^ sh * 128) by (rewrite Z.pow_add_r by lia; done).
    replace (mkReader (pre ++ _ :: put_varint_loop n [] (v ≫ 7) ++ post) (S (length pre)))
      with (at_ (pre ++ [Z.lor (wrap8 v) 128]) (put_varint_loop n [] (v ≫ 7) ++ post))
      by (unfold at_; rewrite length_app, Nat.add_1_r; by rewrite <- app_assoc).
    rewrite Z.shiftr_div_pow2 by lia. change (2 ^ 7) with 128.
    rewrite IH by (rewrite ?Hpow; nia).
    rewrite <- app_assoc. f_equal. f_equal. rewrite Hpow. nia.
Qed.

Lemma varint_read pre post v : is_u64 v ->
  varint (at_ pre (vb v ++ post)) = Ok (v, at_ (pre ++ vb v) post).
Proof.
  intros Hv. unfold varint, vb, put_varint. rewrite varint_loop_read; unfold in_width in Hv.
  - f_equal. f_equal. lia.
  - lia.
  - lia.
  - lia.
  - change (7 * (Z.of_nat 9 + 1)) with 70. lia.
  - lia.
Qed.

Lemma varint_loop_length n v : (1 <= length (put_varint_loop n [] v))%nat.
Proof.
  destruct n; simpl; [lia|]. case_match; simpl; [|lia].
  rewrite put_varint_loop_app, length_app. simpl. lia.
Qed.

Lemma vb_not_nil v post : done (at_ post (vb v ++ [])) = false.
Proof.
  apply Nat.leb_gt. unfold at_. simpl. rewrite app_nil_r, length_app.
  pose proof (varint_loop_length 9 v). unfold vb, put_varint. lia.
Qed.

Lemma done_at pre x rest : (0 < length x)%nat -> done (at_ pre (x ++ rest)) = false.
Proof. intros. apply Nat.leb_gt. unfold at_. simpl. rewrite !length_app. lia. Qed.

Lemma done_end pre : done (at_ pre []) = true.
Proof. apply Nat.leb_le. unfold at_. simpl. rewrite app_nil_r. lia. Qed.

Lemma tag_value f w : 0 <= f -> 0 <= w < 8 -> Z.lor (Z.shiftl f 3) w = f * 8 + w.
Proof. intros. rewrite lor_disjoint by lia. done. Qed.

Lemma tag_read pre post f w : 0 <= f < 2 ^ 29 -> 0 <= w < 8 ->
  tag (at_ pre (vb (Z.lor (Z.shiftl f 3) w) ++ post))
  = Ok ((f, w), at_ (pre ++ vb (Z.lor (Z.shiftl f 3) w)) post).
Proof.
  intros Hf Hw. unfold tag. rewrite tag_value by lia.
  rewrite varint_read by (unfold in_width; lia). simpl.
  rewrite Z.shiftr_div_pow2 by lia. change (2 ^ 3) with 8. change 7 with (Z.ones 3).
  rewrite Z.land_ones by lia. change (2 ^ 3) with 8.
  rewrite Z.div_add_l, Z.div_small, Z.add_0_r by lia.
  rewrite (Z.add_comm (f * 8)), Z.mod_add, Z.mod_small by lia.
  destruct (Z.ltb_spec f (2 ^ 32)); [done|lia].
Qed.

Lemma bytes_read pre post v : fits (at_ pre (vb (Z.of_nat (length v)) ++ v ++ post)) ->
  read_bytes (at_ pre (vb (Z.of_nat (length v)) ++ v ++ post))
  = Ok (v, at_ (pre ++ vb (Z.of_nat (length v)) ++ v) post).
Proof.
  unfold fits, at_, u64_max. simpl. rewrite !length_app. intros Hf.
  unfold read_bytes. change (mkReader (pre ++ ?x) (length pre)) with (at_ pre x).
  rewrite varint_read by (unfold in_width; lia). cbn.
  rewrite !length_app.
  destruct (Z.ltb_spec u64_max (Z.of_nat (length pre + length (vb (Z.of_nat (length v)))) + Z.of_nat (length v)));
    [unfold u64_max in *; lia|].
  destruct (Z.ltb_spec (Z.of_nat (length pre + length (vb (Z.of_nat (length v))) + (length v + length post)))
              (Z.of_nat (length pre + length (vb (Z.of_nat (length v)))) + Z.of_nat (length v))); [lia|].
  rewrite Nat2Z.id.
  replace (length pre + length (vb (Z.of_nat (length v))))%nat
    with (length (pre ++ vb (Z.of_nat (length v)))) by apply length_app.
  rewrite drop_app_length, take_app_length.
  f_equal. f_equal. unfold at_. rewrite <- !app_assoc. f_equal.
  rewrite !length_app. lia.
Qed.

(** ** Fields *)

#[local] Arguments varint : simpl never.
#[local] Arguments read_bytes : simpl never.
#[local] Arguments at_ : simpl never.

Definition tagb (f w : Z) : bytes := vb (Z.lor (Z.shiftl f 3) w).
Arguments tagb : simpl never.
Definition uintf (f v : Z) : bytes := tagb f 0 ++ vb v.
Definition bytesf (f : Z) (v : bytes) : bytes :=
  tagb f 2 ++ vb (Z.of_nat (length v)) ++ v.

Arguments uintf : simpl never.
Arguments bytesf : simpl never.

Lemma put_uint_f out f v : put_uint out f v = out ++ uintf f v.
Proof. apply put_uint_vb. Qed.
Lemma put_bytes_f out f v : put_bytes out f v = out ++ bytesf f v.
Proof. apply put_bytes_vb. Qed.

Lemma vb_length v : (1 <= length (vb v))%nat.
Proof. apply varint_loop_length. Qed.

Lemma uintf_length f v : (0 < length (uintf f v))%nat.
Proof. unfold uintf. rewrite length_app. pose proof (vb_length v). lia. Qed.
Lemma bytesf_length f v : (length v < length (bytesf f v))%nat.
Proof.
  unfold bytesf. rewrite !length_app. pose proof (vb_length (Z.of_nat (length v))). lia.
Qed.

Lemma uintf_tag pre f v rest : 0 <= f < 2 ^ 29 ->
  tag (at_ pre (uintf f v ++ rest))
  = Ok ((f, 0), at_ (pre ++ tagb f 0) (vb v ++ rest)).
Proof. intros. unfold uintf. rewrite <- app_assoc. apply tag_read; lia. Qed.

Lemma bytesf_tag pre f v rest : 0 <= f < 2 ^ 29 ->
  tag (at_ pre (bytesf f v ++ rest))
  = Ok ((f, 2), at_ (pre ++ tagb f 2) (vb (Z.of_nat (length v)) ++ v ++ rest)).
Proof. intros. unfold bytesf. rewrite <- !app_assoc. apply tag_read; lia. Qed.

Lemma uintf_value pre f v rest : is_u64 v ->
  varint (at_ (pre ++ tagb f 0) (vb v ++ rest))
  = Ok (v, at_ (pre ++ uintf f v) rest).
Proof. intros. rewrite varint_read by done. unfold uintf. by rewrite app_assoc. Qed.

Lemma bytesf_value pre f v rest : fits (at_ pre (bytesf f v ++ rest)) ->
  read_bytes (at_ (pre ++ tagb f 2) (vb (Z.of_nat (length v)) ++ v ++ rest))
  = Ok (v, at_ (pre ++ bytesf f v) rest).
Proof.
  intros Hf. rewrite bytes_read.
  - unfold bytesf. by rewrite <- !app_assoc.
  - unfold fits, at_, bytesf in *. simpl in *. by rewrite <- !app_assoc in *.
Qed.

Lemma while_step {A} (body : A -> Reader -> mres (A * Reader)) a a' pre x rest :
  advances body -> (0 < length x)%nat ->
  body a (at_ pre (x ++ rest)) = Ok (a', at_ (pre ++ x) rest) ->
  while_not_done body a (at_ pre (x ++ rest)) = while_not_done body a' (at_ (pre ++ x) rest).
Proof. intros Hadv Hx Hb. rewrite while_unfold, done_at, Hb by done. done. Qed.

Lemma while_end {A} (body : A -> Reader -> mres (A * Reader)) a pre :
  while_not_done body a (at_ pre []) = Ok (a, at_ pre []).
Proof.
  unfold while_not_done. pose proof (done_end pre) as Hd.
  destruct (length _ - pos _)%nat; simpl; by rewrite Hd.
Qed.

Lemma Reader_new_at b : Reader_new b = at_ [] b.
Proof. done. Qed.

(** A value the wire can carry. *)
Record inst_wf (i : Instruction) : Prop := {
  wf_version : is_u32 (protocol_version i);
  wf_old : is_u64 (old_num i);
  wf_new : is_u64 (new_num i);
  wf_ack : is_u64 (ack_num i);
  wf_throwaway : is_u64 (throwaway_num i);
  wf_size : Z.of_nat (length (encode i)) <= u64_max
}.

Lemma encode_fields i :
  encode i = uintf 1 (protocol_version i) ++ uintf 2 (old_num i) ++ uintf 3 (new_num i) ++
             uintf 4 (ack_num i) ++ uintf 5 (throwaway_num i) ++ bytesf 6 (diff i) ++
             bytesf 7 (chaff i).
Proof. unfold encode. by rewrite !put_bytes_f, !put_uint_f, <- !app_assoc. Qed.

Lemma fits_shift pre x rest : fits (at_ pre (x ++ rest)) <-> fits (at_ (pre ++ x) rest).
Proof. unfold fits, at_. simpl. by rewrite app_assoc. Qed.

#[local] Opaque vb tagb uintf bytesf.

(** [decode_field] on one field that the encoder wrote. *)
Lemma decode_field_uint i pre f v rest : is_u64 v -> 1 <= f <= 5 -> (f = 1 -> v < 2 ^ 32) ->
  decode_field i (at_ pre (uintf f v ++ rest))
  = Ok (let 'mkInst pv o n a t d c := i in
        mkInst (if f =? 1 then v else pv) (if f =? 2 then v else o) (if f =? 3 then v else n)
               (if f =? 4 then v else a) (if f =? 5 then v else t) d c,
        at_ (pre ++ uintf f v) rest).
Proof.
  intros Hv Hf H1. unfold decode_field. rewrite uintf_tag by lia.
  destruct i as [pv o n a t d c]. cbn -[uintf].
  assert (f = 1 \/ f = 2 \/ f = 3 \/ f = 4 \/ f = 5) as Hc by lia.
  destruct_or! Hc; subst f; cbn -[uintf]; rewrite uintf_value by done;
    cbn -[uintf Z.ltb Z.pow]; try done.
  destruct (Z.ltb_spec v (2 ^ 32)); [done|lia].
Qed.

Lemma decode_field_bytes i pre f v rest : 6 <= f <= 7 -> fits (at_ pre (bytesf f v ++ rest)) ->
  decode_field i (at_ pre (bytesf f v ++ rest))
  = Ok (let 'mkInst pv o n a t d c := i in
        mkInst pv o n a t (if f =? 6 then v else d) (if f =? 7 then v else c),
        at_ (pre ++ bytesf f v) rest).
Proof.
  intros Hf Hfit. unfold decode_field. rewrite bytesf_tag by lia.
  destruct i as [pv o n a t d c]. cbn -[bytesf].
  assert (f = 6 \/ f = 7) as Hc by lia.
  destruct_or! Hc; subst f; cbn -[bytesf]; by rewrite bytesf_value.
Qed.

(** One round of [decode]'s loop. *)
Ltac decode_step :=
  erewrite while_step;
  [ | apply decode_field_advances
    | first [apply uintf_length | eapply Nat.le_lt_trans; [apply Nat.le_0_l|apply bytesf_length]]
    | first [apply decode_field_uint; unfold in_width in *; lia
            |apply decode_field_bytes; [lia|by rewrite <- ?fits_shift]] ].

Lemma decode_encode_fields i : inst_wf i ->
  while_not_done decode_field Instruction_default (at_ [] (encode i))
  = Ok (i, at_ (encode i) []).
Proof.
  intros [Hv Ho Hn Ha Ht Hs]. destruct i as [v o n a t d c]. simpl in *.
  assert (Hfit : fits (at_ [] (encode (mkInst v o n a t d c)))) by exact Hs.
  rewrite encode_fields in *. simpl in *.
  rewrite <- (app_nil_r (bytesf 7 c)) in *.
  do 7 decode_step. rewrite while_end. cbn. by rewrite ?app_nil_r, <- ?app_assoc.
Qed.

(** ** Host messages

    [encode_host_message] writes what a stock [mosh-server] sends for a list
    of host instructions; the decoder of the client reads it back. *)
Definition host_inst_payload (h : HostInstruction) : bytes :=
  match h with
  | HostBytes b => put_bytes [] 2 (put_bytes [] 4 b)
  | HostResize w h => put_bytes [] 3 (put_uint (put_uint [] 5 (i32_as_u64 w)) 6 (i32_as_u64 h))
  | EchoAck n => put_bytes [] 7 (put_uint [] 8 n)
  end.

Definition encode_host_message (l : list HostInstruction) : bytes :=
  concat (map (fun h => put_bytes [] 1 (host_inst_payload h)) l).

Definition host_wf (h : HostInstruction) : Prop :=
  match h with
  | HostBytes _ => True
  | HostResize w h => - 2 ^ 31 <= w < 2 ^ 31 /\ - 2 ^ 31 <= h < 2 ^ 31
  | EchoAck n => is_u64 n
  end.

Lemma decode_i32_as_u64 x : - 2 ^ 31 <= x < 2 ^ 31 -> decode_i32 (i32_as_u64 x) = x.
Proof.
  intros Hx. unfold decode_i32, i32_as_u64, wrap.
  rewrite (Z.mod_mod_divide x (2 ^ 64) (2 ^ 32)) by (by exists (2 ^ 32)).
  destruct (Z.lt_ge_cases x 0).
  - rewrite <- (Z.mod_add x 1), Z.mul_1_l, Z.mod_small by lia.
    destruct (Z.ltb_spec (x + 2 ^ 32) (2 ^ 31)); lia.
  - rewrite Z.mod_small by lia. destruct (Z.ltb_spec x (2 ^ 31)); lia.
Qed.

Lemma fits_inner pre f v rest : fits (at_ pre (bytesf f v ++ rest)) -> fits (at_ [] v).
Proof.
  unfold fits, at_. simpl. rewrite !length_app. pose proof (bytesf_length f v). lia.
Qed.

(** Runs a field loop over a payload that is a single field. *)
Lemma while_one {A} (body : A -> Reader -> mres (A * Reader)) a a' x :
  advances body -> (0 < length x)%nat ->
  body a (at_ [] (x ++ [])) = Ok (a', at_ x []) ->
  while_not_done body a (Reader_new x) = Ok (a', at_ x []).
Proof.
  intros Hadv Hx Hb. rewrite Reader_new_at.
  replace (at_ [] x) with (at_ [] (x ++ [])) by by rewrite app_nil_r.
  rewrite (while_step _ a a' [] x []) by done. apply while_end.
Qed.

Lemma bytesf_pos f v : (0 < length (bytesf f v))%nat.
Proof. eapply Nat.le_lt_trans; [apply Nat.le_0_l|apply bytesf_length]. Qed.
#[local] Hint Resolve bytesf_pos uintf_length : termoso.

(** Decides the match on a literal field number and wire type. *)
Ltac run_field :=
  cbv beta iota zeta delta [mbind result_bind Z.eqb Pos.eqb andb orb negb VARINT LEN].

Lemma host_bytes_payload out b : fits (at_ [] (bytesf 4 b)) ->
  while_not_done host_bytes_field out (Reader_new (bytesf 4 b)) = Ok (out ++ [HostBytes b], at_ (bytesf 4 b) []).
Proof.
  intros Hfit. apply while_one; eauto with termoso.
  unfold host_bytes_field. rewrite bytesf_tag by lia. run_field.
  rewrite bytesf_value by (by rewrite app_nil_r). done.
Qed.

Lemma host_resize_payload wh w h : is_u64 w -> is_u64 h ->
  while_not_done host_resize_field wh (Reader_new (uintf 5 w ++ uintf 6 h))
  = Ok ((decode_i32 w, decode_i32 h), at_ (uintf 5 w ++ uintf 6 h) []).
Proof.
  intros Hw Hh. rewrite Reader_new_at, <- (app_nil_r (uintf 6 h)).
  rewrite (while_step _ _ (decode_i32 w, wh.2)); eauto with termoso.
  - rewrite (while_step _ _ (decode_i32 w, decode_i32 h)); eauto with termoso.
    + rewrite while_end. by rewrite !app_nil_r.
    + unfold host_resize_field. rewrite uintf_tag by lia. run_field. by rewrite uintf_value.
  - unfold host_resize_field. rewrite uintf_tag by lia. run_field. by rewrite uintf_value.
Qed.

Lemma host_echo_payload out n : is_u64 n ->
  while_not_done host_echo_field out (Reader_new (uintf 8 n)) = Ok (out ++ [EchoAck n], at_ (uintf 8 n) []).
Proof.
  intros Hn. apply while_one; eauto with termoso.
  unfold host_echo_field. rewrite uintf_tag by lia. run_field. by rewrite uintf_value.
Qed.

Lemma host_inst_payload_read out h :
  host_wf h -> fits (at_ [] (host_inst_payload h)) ->
  while_not_done host_inst_field out (Reader_new (host_inst_payload h))
  = Ok (out ++ [h], at_ (host_inst_payload h) []).
Proof.
  destruct h as [b|w h|n]; cbn [host_inst_payload host_wf];
    rewrite ?put_bytes_f, ?put_uint_f, ?app_nil_l; intros Hwf Hfit;
    apply while_one; eauto with termoso; unfold host_inst_field;
    rewrite bytesf_tag by lia; run_field; rewrite bytesf_value by (by rewrite app_nil_r); run_field;
    rewrite <- (app_nil_r (bytesf _ _)) in Hfit; apply fits_inner in Hfit.
  - by rewrite host_bytes_payload.
  - rewrite host_resize_payload by (apply wrap_range; lia). cbn.
    by rewrite !decode_i32_as_u64 by tauto.
  - by rewrite host_echo_payload.
Qed.

Lemma host_message_read l : forall pre out,
  Forall host_wf l -> fits (at_ pre (encode_host_message l)) ->
  while_not_done host_msg_field out (at_ pre (encode_host_message l))
  = Ok (out ++ l, at_ (pre ++ encode_host_message l) []).
Proof.
  induction l as [|h l IH]; intros pre out Hwf Hfit.
  - cbn. rewrite while_end. by rewrite !app_nil_r.
  - apply Forall_cons in Hwf as [Hh Hl].
    change (encode_host_message (h :: l))
      with (put_bytes [] 1 (host_inst_payload h) ++ encode_host_message l) in *.
    rewrite put_bytes_f, app_nil_l in *.
    rewrite (while_step _ _ (out ++ [h])); eauto with termoso.
    + rewrite IH by (done || by apply fits_shift). by rewrite <- !app_assoc.
    + unfold host_msg_field. rewrite bytesf_tag by lia. run_field.
      rewrite bytesf_value by done. run_field.
      rewrite host_inst_payload_read by (done || by eapply fits_inner). done.
Qed.

(** ** User messages *)

(** The instructions the server sees: neighbouring keystrokes merged, empty
    runs of keystrokes dropped. *)
Fixpoint coalesce (pending : bytes) (l : list UserInstruction) : list UserInstruction :=
  let emit rest := match pending with [] => rest | _ => Keystroke pending :: rest end in
  match l with
  | [] => emit []
  | Keystroke k :: l' => coalesce (pending ++ k) l'
  | Resize w h :: l' => emit (Resize w h :: coalesce [] l')
  end.

Definition encode_user_inst (i : UserInstruction) : bytes :=
  match i with
  | Keystroke k => put_bytes [] 1 (put_bytes [] 2 (put_bytes [] 4 k))
  | Resize w h =>
      put_bytes [] 1 (put_bytes [] 3 (put_uint (put_uint [] 5 (i32_as_u64 w)) 6 (i32_as_u64 h)))
  end.

Lemma flush_pending_app out p : flush_pending out p = out ++ flush_pending [] p.
Proof. destruct p; unfold flush_pending; [by rewrite app_nil_r|]. by rewrite !(put_bytes_f _ 1), app_nil_l. Qed.

Lemma encode_user_fold l : forall out pending,
  (let '(o, p) := fold_left encode_step l (out, pending) in flush_pending o p)
  = out ++ concat (map encode_user_inst (coalesce pending l)).
Proof.
  induction l as [|[k|w h] l IH]; intros out pending; cbn [fold_left].
  - rewrite flush_pending_app. f_equal. destruct pending; simpl; [done|]. by rewrite app_nil_r.
  - cbn [encode_step coalesce]. apply IH.
  - cbn [encode_step coalesce]. rewrite IH, (put_bytes_f (flush_pending out pending)).
    rewrite flush_pending_app, <- !app_assoc. f_equal.
    destruct pending; cbn [map concat encode_user_inst flush_pending];
      rewrite ?app_nil_l, ?(put_bytes_f [] 1), ?app_nil_l, <- ?app_assoc; done.
Qed.

Lemma encode_user_message_nil : encode_user_message [] = [].
Proof. done. Qed.

Lemma decode_encode i : inst_wf i -> decode (encode i) = Ok i.
Proof.
  intros Hwf. unfold decode. rewrite Reader_new_at, decode_encode_fields by done. done.
Qed.

(** ** Properties *)

(** an instruction whose numbers fit their wire types decodes to itself
    from its own encoding (the shutdown number [u64::MAX] included). *)
Theorem instruction_roundtrip (i : Instruction) :
  inst_wf i -> decode (encode i) = Ok i.
Proof.
  apply decode_encode.
Qed.

Lemma instruction_roundtrip_witness :
  decode (encode (mkInst 2 5 u64_max 300 4 [100; 105] [0; 1; 2]))
  = Ok (mkInst 2 5 u64_max 300 4 [100; 105] [0; 1; 2]).
Proof.
  apply instruction_roundtrip. split; try (split; [by vm_compute|by vm_compute]).
  by vm_compute.
Defined.

(** the bytes a stock server writes for a list of host instructions
    decode to that list, in order, with widths and heights sign-extended from
    the 64-bit varint. *)
Theorem host_message_roundtrip (l : list HostInstruction) :
  Forall host_wf l -> Z.of_nat (length (encode_host_message l)) <= u64_max ->
  decode_host_message (encode_host_message l) = Ok l.
Proof.
  intros Hwf Hfit. unfold decode_host_message. rewrite Reader_new_at.
  by rewrite host_message_read.
Qed.

Lemma host_message_roundtrip_witness :
  let l := [HostBytes [104; 105]; HostResize (-1) 40; EchoAck u64_max] in
  decode_host_message (encode_host_message l) = Ok l.
Proof.
  apply host_message_roundtrip; [|by vm_compute].
  repeat constructor; try (by vm_compute); lia.
Defined.

(** what the client sends is the concatenation of one message per
    instruction after merging neighbouring keystrokes (and dropping empty
    runs): no keystroke is lost, duplicated or moved across a resize. *)
Theorem user_message_coalesced (l : list UserInstruction) :
  encode_user_message l = concat (map encode_user_inst (coalesce [] l)).
Proof. apply (encode_user_fold l [] []). Qed.

(** decoding always terminates: both decoders give the same answer for
    every fuel that covers the buffer, because every round of a loop moves
    the cursor; so the fuel bound of the model is never the reason for an
    error. *)
Lemma decoders_fuel_enough (b : bytes) (n : nat) :
  (length b <= n)%nat ->
  while_loop decode_field n Instruction_default (Reader_new b)
  = while_not_done decode_field Instruction_default (Reader_new b) /\
  while_loop host_msg_field n [] (Reader_new b)
  = while_not_done host_msg_field [] (Reader_new b).
Proof.
  intros Hn. split; apply while_fuel_enough; eauto with termoso; simpl; lia.
Qed.

Lemma decoders_fuel_enough_witness :
  while_loop decode_field 100 Instruction_default (Reader_new [8; 2; 58; 1; 7])
  = while_not_done decode_field Instruction_default (Reader_new [8; 2; 58; 1; 7]).
Proof. apply (decoders_fuel_enough [8; 2; 58; 1; 7] 100). simpl. lia. Defined.
