(* ===== verification/MoshFragment.v ===== *)
(** * Mosh fragments

    [crates/termoso-core/src/mosh/fragment.rs]: the fragment header, the
    outgoing [Fragmenter] and the incoming [Assembly]. Compression is the
    flate2 library, a parameter: [zlib_compress] is the encoder run over a
    whole buffer and [zlib_read n] the decoder read for at most [n] bytes. *)
From S2P Require Import Prelude MoshProto.

Definition HEADER_LEN : nat := 10.
Definition MAX_ASSEMBLED : Z := 4 * 1024 * 1024.

Record Fragment := mkFragment { id : Z; num : Z; final_ : bool; contents : bytes }.

#[export] Instance Fragment_eq_dec : EqDecision Fragment.
Proof. solve_decision. Defined.

Definition to_wire (f : Fragment) : bytes :=
  let combined := Z.lor (Z.shiftl (if final_ f then 1 else 0) 15) (Z.land (num f) 32767) in
  be_bytes 8 (id f) ++ be_bytes 2 combined ++ contents f.

Definition from_wire (b : bytes) : mres Fragment :=
  if (length b <? HEADER_LEN)%nat then Err FragmentError
  else
    let id := from_be (take 8 b) in
    let combined := from_be (take 2 (drop 8 b)) in
    Ok (mkFragment id (Z.land combined 32767) (negb (Z.land combined 32768 =? 0))
          (drop HEADER_LEN b)).

Section Zlib.
Context (zlib_compress : bytes -> option bytes) (zlib_read : Z -> bytes -> option bytes).

Definition compress (data : bytes) : mres bytes := ok_or (zlib_compress data) Compression.

Definition decompress (data : bytes) : mres bytes :=
  out ← ok_or (zlib_read (MAX_ASSEMBLED + 1) data) Compression;
  if MAX_ASSEMBLED <? Z.of_nat (length out) then Err Compression else Ok out.

(** ** Outgoing side *)

Record Fragmenter := mkFragmenter { next_id : Z }.
Definition Fragmenter_new : Fragmenter := mkFragmenter 1.

Definition piece_fragments (id : Z) (pieces : list bytes) : list Fragment :=
  imap (fun i p => mkFragment id (wrap16 (Z.of_nat i)) (S i =? length pieces)%nat p) pieces.

Definition make (fr : Fragmenter) (inst : Instruction) (mtu : nat) :
    Fragmenter * mres (list Fragment) :=
  match compress (encode inst) with
  | Err e => (fr, Err e)
  | Ok payload =>
      let id := next_id fr in
      let fr := mkFragmenter (wrap64 (id + 1)) in
      let chunk := Nat.max (mtu - HEADER_LEN) 1 in
      let pieces := match payload with [] => [[]] | _ => chunks chunk payload end in
      if 32768 <? Z.of_nat (length pieces) then (fr, Err FragmentError)
      else (fr, Ok (piece_fragments id pieces))
  end.

(** ** Incoming side *)

Record Assembly := mkAssembly {
  current_id : option Z;
  pieces : list (option bytes);
  arrived : nat;
  total : option nat
}.
Definition Assembly_new : Assembly := mkAssembly None [] 0 None.

(** [Vec::resize(n, None)] on a vector of at most [n] elements. *)
Definition grow (l : list (option bytes)) (n : nat) : list (option bytes) :=
  l ++ replicate (n - length l) None.

(** The pieces drained in order; a hole stops the drain with an error. *)
Fixpoint drain (l : list (option bytes)) : mres bytes :=
  match l with
  | [] => Ok []
  | None :: _ => Err FragmentError
  | Some p :: l' => rest ← drain l'; Ok (p ++ rest)
  end.

(** The assembly once the fragment's id has been looked at: a fragment with
    another id discards what was pending. *)
Definition start_id (asm : Assembly) (i : Z) : Assembly :=
  if decide (current_id asm = Some i) then asm else mkAssembly (Some i) [] 0 None.

(** The second half of [add]: the instruction is complete. *)
Definition complete (asm : Assembly) : Assembly * mres (option Instruction) :=
  match drain (pieces asm) with
  | Err e => (mkAssembly (current_id asm) [] (arrived asm) (total asm), Err e)
  | Ok encoded =>
      (mkAssembly None [] 0 None,
       raw ← decompress encoded; inst ← decode raw; Ok (Some inst))
  end.

(** What [add] does with the [final_] flag and the count of the pieces. *)
Definition finish_add (asm : Assembly) (fin : bool) (idx : nat) :
    Assembly * mres (option Instruction) :=
  if fin && (S idx <? length (pieces asm))%nat then (asm, Err FragmentError)
  else
    let asm := if fin then mkAssembly (current_id asm) (pieces asm) (arrived asm) (Some (S idx))
               else asm in
    if decide (total asm = Some (arrived asm)) then complete asm else (asm, Ok None).

Definition past_total (asm : Assembly) (idx : nat) : bool :=
  match total asm with Some t => (t <=? idx)%nat | None => false end.

Definition add (asm : Assembly) (frag : Fragment) : Assembly * mres (option Instruction) :=
  let idx := Z.to_nat (num frag) in
  let asm := start_id asm (id frag) in
  if past_total asm idx then (asm, Err FragmentError)
  else
    let asm := mkAssembly (current_id asm) (grow (pieces asm) (S idx)) (arrived asm) (total asm) in
    match pieces asm !! idx with
    | Some (Some existing) =>
        if decide (existing = contents frag) then finish_add asm (final_ frag) idx
        else (asm, Err FragmentError)
    | _ =>
        finish_add (mkAssembly (current_id asm) (<[idx := Some (contents frag)]> (pieces asm))
                      (S (arrived asm)) (total asm)) (final_ frag) idx
    end.

(** A burst of fragments, in the order they arrive. *)
Fixpoint add_all (asm : Assembly) (fs : list Fragment) :
    Assembly * list (mres (option Instruction)) :=
  match fs with
  | [] => (asm, [])
  | f :: fs' =>
      let '(asm, r) := add asm f in
      let '(asm, rs) := add_all asm fs' in (asm, r :: rs)
  end.
End Zlib.

(** ** The wire format *)

Lemma take_app_len {A} (l1 l2 : list A) n : length l1 = n -> take n (l1 ++ l2) = l1.
Proof. intros <-. apply take_app_length. Qed.
Lemma drop_app_len {A} (l1 l2 : list A) n : length l1 = n -> drop n (l1 ++ l2) = l2.
Proof. intros <-. apply drop_app_length. Qed.

Lemma combined_bits (fin : bool) n : 0 <= n < 2 ^ 15 ->
  let c := Z.lor (Z.shiftl (if fin then 1 else 0) 15) (Z.land n 32767) in
  in_width 16 c /\ Z.land c 32767 = n /\ negb (Z.land c 32768 =? 0) = fin.
Proof.
  intros Hn. change 32767 with (Z.ones 15). rewrite (Z.land_ones n), Z.mod_small by lia.
  rewrite lor_disjoint by lia. cbn zeta. split; [destruct fin; unfold in_width; lia|].
  rewrite Z.land_ones by lia. rewrite Z.add_comm, Z.mod_add, Z.mod_small by lia.
  split; [done|]. destruct fin.
  - assert (Z.testbit (n + 1 * 2 ^ 15) 15 = true) as Hb.
    { rewrite Z.testbit_true by lia. rewrite Z.div_add, Z.div_small by lia. done. }
    destruct (Z.eqb_spec (Z.land (n + 1 * 2 ^ 15) 32768) 0) as [E|]; [|done].
    apply (f_equal (fun z => Z.testbit z 15)) in E.
    rewrite Z.land_spec, Hb, Z.bits_0 in E. done.
  - rewrite Z.mul_0_l, Z.add_0_r.
    destruct (Z.eqb_spec (Z.land n 32768) 0) as [E|E]; [done|]. exfalso. apply E.
    change 32768 with (2 ^ 15). apply Z.bits_inj'. intros m Hm.
    rewrite Z.land_spec, Z.bits_0, Z.pow2_bits_eqb by lia.
    destruct (Z.eqb_spec 15 m); [|by rewrite andb_false_r]. subst m.
    replace n with (n `mod` 2 ^ 15) by (apply Z.mod_small; lia).
    by rewrite Z.mod_pow2_bits_high by lia.
Qed.

(** ** Cutting *)

Lemma to_wire_length f : length (to_wire f) = (HEADER_LEN + length (contents f))%nat.
Proof. unfold to_wire. by rewrite !length_app, !length_be_bytes. Qed.

(** ** Filling the assembly *)

Fixpoint filled (l : list (option bytes)) : nat :=
  match l with
  | [] => O
  | Some _ :: l' => S (filled l')
  | None :: l' => filled l'
  end.

Lemma filled_app l1 l2 : filled (l1 ++ l2) = (filled l1 + filled l2)%nat.
Proof. induction l1 as [|[p|] l1 IH]; simpl; auto. Qed.

Lemma filled_none n : filled (replicate n None) = O.
Proof. by induction n. Qed.

Lemma filled_le l : (filled l <= length l)%nat.
Proof. induction l as [|[p|] l IH]; simpl; lia. Qed.

Lemma filled_insert l i p : l !! i = Some None -> filled (<[i := Some p]> l) = S (filled l).
Proof.
  revert i. induction l as [|[q|] l IH]; intros [|i]; simpl; intros H; simplify_eq/=; auto.
Qed.

Lemma grow_length l n : length (grow l n) = Nat.max (length l) n.
Proof. unfold grow. rewrite length_app, length_replicate. lia. Qed.

Lemma grow_filled l n : filled (grow l n) = filled l.
Proof. unfold grow. rewrite filled_app, filled_none. lia. Qed.

Lemma grow_lookup l n i : (i < n)%nat -> grow l n !! i = Some None \/ exists p, grow l n !! i = Some (Some p).
Proof.
  intros Hi. destruct (grow l n !! i) as [[p|]|] eqn:E; eauto.
  apply lookup_ge_None in E. rewrite grow_length in E. lia.
Qed.

Lemma drain_full l : filled l = length l -> exists out, drain l = Ok out.
Proof.
  induction l as [|[p|] l IH]; simpl; intros H; [eauto| |].
  - destruct IH as [out ->]; [lia|]. simpl. eauto.
  - pose proof (filled_le l). lia.
Qed.

Lemma drain_somes l : drain (map Some l) = Ok (concat l).
Proof. induction l as [|p l IH]; simpl; [done|]. by rewrite IH. Qed.

(** The invariant of every reachable assembly: [arrived] counts the filled
    pieces, a known total is the length of the vector, and the vector never
    outgrows the 15-bit numbering. *)
Record asm_inv (asm : Assembly) : Prop := {
  inv_arrived : arrived asm = filled (pieces asm);
  inv_total : forall t, total asm = Some t -> length (pieces asm) = t;
  inv_bound : Z.of_nat (length (pieces asm)) <= 32768
}.

Lemma asm_inv_new : asm_inv Assembly_new.
Proof. split; simpl; [done|done|lia]. Qed.

Lemma asm_inv_start asm i : asm_inv asm -> asm_inv (start_id asm i).
Proof. unfold start_id. case_decide; [done|]. intros _. split; simpl; [done|done|lia]. Qed.
#[export] Hint Resolve asm_inv_new asm_inv_start : termoso.

Section ZlibFacts.
Context (zlib_compress : bytes -> option bytes) (zlib_read : Z -> bytes -> option bytes).
Let complete := complete zlib_read.
Let finish_add := finish_add zlib_read.
Let add := add zlib_read.

(** In a reachable state a completed assembly has no hole to stumble on. *)
Lemma complete_reset asm : asm_inv asm -> total asm = Some (arrived asm) ->
  fst (complete asm) = Assembly_new.
Proof.
  intros [Ha Ht _] H. unfold complete, MoshFragment.complete.
  destruct (drain_full (pieces asm)) as [out ->]; [|done].
  rewrite <- Ha. symmetry. by apply Ht.
Qed.

Lemma finish_add_inv asm fin idx :
  asm_inv asm -> (idx < length (pieces asm))%nat -> asm_inv (fst (finish_add asm fin idx)).
Proof.
  intros Hinv Hidx. unfold finish_add, MoshFragment.finish_add.
  destruct (fin && (S idx <? length (pieces asm))%nat) eqn:Hlong; [done|].
  set (asm' := if fin then _ else asm).
  assert (asm_inv asm') as Hinv'.
  { unfold asm'. destruct fin; [|done]. simpl in Hlong. apply Nat.ltb_ge in Hlong.
    destruct Hinv as [Ha Ht Hb]. split; simpl; [done| |done]. intros t [= <-]. lia. }
  case_decide as Htot; [|done]. change (asm_inv (fst (complete asm'))).
  rewrite complete_reset by done. apply asm_inv_new.
Qed.

Lemma add_inv asm f : asm_inv asm -> 0 <= num f < 2 ^ 15 -> asm_inv (fst (add asm f)).
Proof.
  intros Hinv Hn. unfold add, MoshFragment.add.
  apply (asm_inv_start _ (id f)) in Hinv. revert Hinv. generalize (start_id asm (id f)).
  clear asm. intros asm Hinv. set (idx := Z.to_nat (num f)).
  destruct (past_total asm idx) eqn:Hpast; [done|].
  assert (asm_inv (mkAssembly (current_id asm) (grow (pieces asm) (S idx)) (arrived asm) (total asm))) as Hg.
  { destruct Hinv as [Ha Ht Hb]. split; simpl; rewrite ?grow_filled, ?grow_length; [done| |].
    - intros t E. rewrite (Ht t E). unfold past_total in Hpast. rewrite E in Hpast.
      apply Nat.leb_gt in Hpast. lia.
    - subst idx. lia. }
  cbn zeta. simpl pieces.
  destruct (grow_lookup (pieces asm) (S idx) idx ltac:(lia)) as [E|[p E]]; rewrite E.
  - apply finish_add_inv; simpl; [|rewrite length_insert, grow_length; lia].
    destruct Hg as [Ha Ht Hb]. simpl in *. split; simpl; rewrite ?length_insert; [|done|done].
    by rewrite filled_insert, Ha by done.
  - case_decide; [|done]. apply finish_add_inv; [done|]. simpl. rewrite grow_length. lia.
Qed.

Lemma add_all_inv fs : forall asm, asm_inv asm -> Forall (fun f => 0 <= num f < 2 ^ 15) fs ->
  asm_inv (fst (add_all zlib_read asm fs)).
Proof.
  induction fs as [|f fs IH]; intros asm Hinv Hfs; simpl; [done|].
  apply Forall_cons in Hfs as [Hf Hfs].
  pose proof (add_inv asm f Hinv Hf) as Ha. unfold add in Ha.
  destruct (MoshFragment.add zlib_read asm f) as [asm' r]. simpl in Ha.
  specialize (IH asm' Ha Hfs). destruct (add_all zlib_read asm' fs). done.
Qed.
End ZlibFacts.

(** ** Reassembly of one instruction

    [seen_state k ps seen asm]: of the instruction number [k] cut into [ps],
    exactly the pieces whose index is in [seen] have arrived. *)
Record seen_state (k : Z) (ps : list bytes) (seen : gset nat) (asm : Assembly) : Prop := {
  ss_id : current_id asm = Some k;
  ss_pieces : forall i, (i < length (pieces asm))%nat ->
    pieces asm !! i = Some (if decide (i ∈ seen) then ps !! i else None);
  ss_in : forall i, i ∈ seen -> (i < length (pieces asm))%nat;
  ss_le : (length (pieces asm) <= length ps)%nat;
  ss_arrived : arrived asm = size seen;
  ss_total : total asm = if decide ((length ps - 1)%nat ∈ seen) then Some (length ps) else None
}.

Definition indices (n : nat) : gset nat := set_seq 0 n.

Lemma elem_of_indices i n : i ∈ indices n <-> (i < n)%nat.
Proof. unfold indices. rewrite elem_of_set_seq. lia. Qed.

Lemma size_indices n : size (indices n) = n.
Proof. apply size_set_seq. Qed.

Lemma seen_full ps k seen asm : seen_state k ps seen asm ->
  (size seen = length ps <-> seen = indices (length ps)).
Proof.
  intros Hs. assert (seen ⊆ indices (length ps)) as Hsub.
  { intros i Hi. apply elem_of_indices. pose proof (ss_in _ _ _ _ Hs i Hi).
    pose proof (ss_le _ _ _ _ Hs). lia. }
  split; [|intros ->; apply size_indices].
  intros Hsz. apply set_subseteq_size_eq; [done|]. rewrite size_indices. lia.
Qed.

Lemma list_eq_map_Some (l : list (option bytes)) (ps : list bytes) :
  length l = length ps -> (forall i, (i < length l)%nat -> l !! i = Some (ps !! i)) ->
  l = map Some ps.
Proof.
  intros Hlen H. apply list_eq. intros i. destruct (decide (i < length l)%nat) as [Hi|Hi].
  - rewrite H by done. rewrite list_lookup_fmap. destruct (ps !! i) eqn:E; [done|].
    apply lookup_ge_None in E. lia.
  - rewrite !lookup_ge_None_2; [done|rewrite length_map; lia|lia].
Qed.

Lemma seen_state_grow k ps seen asm i p :
  ps !! i = Some p -> seen_state k ps seen asm ->
  seen_state k ps seen (mkAssembly (current_id asm) (grow (pieces asm) (S i)) (arrived asm) (total asm)).
Proof.
  intros Hp [Hid Hps Hin Hle Ha Ht]. apply lookup_lt_Some in Hp.
  split; simpl; rewrite ?grow_length; try done; try lia.
  - intros j Hj. destruct (decide (j < length (pieces asm))%nat) as [Hlt|Hge].
    + unfold grow. rewrite lookup_app_l by done. by apply Hps.
    + unfold grow. rewrite lookup_app_r, lookup_replicate_2 by lia.
      rewrite decide_False; [done|]. intros H. specialize (Hin j H). lia.
  - intros j Hj. specialize (Hin j Hj). lia.
Qed.

Lemma seen_state_insert k ps seen asm i p (fin : bool) :
  ps !! i = Some p -> i ∉ seen -> fin = (S i =? length ps)%nat -> (i < length (pieces asm))%nat ->
  seen_state k ps seen asm ->
  seen_state k ps ({[i]} ∪ seen)
    (mkAssembly (current_id asm) (<[i := Some p]> (pieces asm)) (S (arrived asm))
       (if fin then Some (S i) else total asm)).
Proof.
  intros Hp Hi -> Hlt [Hid Hps Hin Hle Ha Ht].
  split; cbn [current_id pieces arrived total]; rewrite ?length_insert; try done.
  - intros j Hj. destruct (decide (i = j)) as [<-|Hne].
    + rewrite list_lookup_insert_eq by done. rewrite decide_True by set_solver. by rewrite Hp.
    + rewrite list_lookup_insert_ne by done. rewrite Hps by done.
      f_equal. apply decide_ext. rewrite elem_of_union, elem_of_singleton.
      split; [by right|]. by intros [->|?].
  - intros j Hj. apply elem_of_union in Hj as [->%elem_of_singleton|Hj]; [done|by apply Hin].
  - rewrite size_union, size_singleton by set_solver. lia.
  - apply lookup_lt_Some in Hp. destruct (Nat.eqb_spec (S i) (length ps)) as [E|E].
    + rewrite decide_True by (apply elem_of_union_l, elem_of_singleton; lia). by rewrite E.
    + rewrite Ht. apply decide_ext. rewrite elem_of_union, elem_of_singleton.
      split; [by right|]. intros [?|?]; [lia|done].
Qed.

Section Reassembly.
Context (zlib_compress : bytes -> option bytes) (zlib_read : Z -> bytes -> option bytes).
Context (k : Z) (ps : list bytes) (Hn : 0 < Z.of_nat (length ps) <= 32768).

Let result := (raw ← decompress zlib_read (concat ps); inst ← decode raw; Ok (Some inst)).

(** Once every piece is there the drain yields the whole payload. *)
Lemma complete_all asm : seen_state k ps (indices (length ps)) asm ->
  complete zlib_read asm = (Assembly_new, result).
Proof.
  intros Hs. assert (pieces asm = map Some ps) as E.
  { assert (length (pieces asm) = length ps) as Hlen.
    { pose proof (ss_le _ _ _ _ Hs).
      pose proof (ss_in _ _ _ _ Hs (length ps - 1)%nat (proj2 (elem_of_indices (length ps - 1) (length ps)) ltac:(lia))). lia. }
    apply list_eq_map_Some; [done|]. intros i Hi. rewrite (ss_pieces _ _ _ _ Hs) by done.
    rewrite decide_True; [done|]. apply elem_of_indices. lia. }
  unfold complete. rewrite E, drain_somes. done.
Qed.

(** The outcome of [finish_add] on a state that already counts the piece. *)
Lemma finish_add_seen seen asm i (fin : bool) :
  seen_state k ps seen (mkAssembly (current_id asm) (pieces asm) (arrived asm)
                          (if fin then Some (S i) else total asm)) ->
  fin = (S i =? length ps)%nat ->
  let asm' := mkAssembly (current_id asm) (pieces asm) (arrived asm)
                (if fin then Some (S i) else total asm) in
  finish_add zlib_read asm fin i
  = if decide (seen = indices (length ps)) then (Assembly_new, result) else (asm', Ok None).
Proof.
  intros Hs Hfin asm'. unfold finish_add.
  assert (fin && (S i <? length (pieces asm))%nat = false) as ->.
  { pose proof (ss_le _ _ _ _ Hs) as Hle. simpl in Hle. destruct fin; [|done].
    symmetry in Hfin. apply Nat.eqb_eq in Hfin. apply Nat.ltb_ge. lia. }
  replace (if fin then mkAssembly _ _ _ (Some (S i)) else asm) with asm'
    by (unfold asm'; destruct asm, fin; done).
  fold asm' in Hs. pose proof (seen_full _ _ _ _ Hs) as Hfull.
  pose proof (ss_total _ _ _ _ Hs) as Htot. pose proof (ss_arrived _ _ _ _ Hs) as Harr.
  destruct (decide (seen = indices (length ps))) as [->|Hne].
  - rewrite decide_True; [by apply complete_all|]. rewrite Htot, Harr, size_indices.
    rewrite decide_True; [done|]. apply elem_of_indices. lia.
  - rewrite decide_False; [done|]. rewrite Htot, Harr. case_decide; [|done].
    intros [= E]. apply Hne, Hfull. done.
Qed.

Definition fragf (i : nat) : Fragment :=
  mkFragment k (wrap16 (Z.of_nat i)) (S i =? length ps)%nat (default [] (ps !! i)).

Lemma fragf_num i : (i < length ps)%nat -> Z.to_nat (num (fragf i)) = i.
Proof. intros. simpl. rewrite wrap_small by (unfold in_width; lia). apply Nat2Z.id. Qed.

Lemma fragf_inj i j : (i < length ps)%nat -> (j < length ps)%nat -> fragf i = fragf j -> i = j.
Proof. intros Hi Hj E. rewrite <- (fragf_num i), <- (fragf_num j) by done. by rewrite E. Qed.

Lemma elem_of_piece_fragments f :
  f ∈ piece_fragments k ps <-> exists i, (i < length ps)%nat /\ f = fragf i.
Proof.
  unfold piece_fragments. rewrite list_elem_of_lookup. split.
  - intros [i Hi]. rewrite list_lookup_imap in Hi. apply fmap_Some in Hi as (p & Hp & ->).
    exists i. split; [by eapply lookup_lt_Some|]. unfold fragf. by rewrite Hp.
  - intros (i & [p Hp]%lookup_lt_is_Some & ->). exists i.
    rewrite list_lookup_imap, Hp. simpl. unfold fragf. by rewrite Hp.
Qed.

Lemma start_id_seen seen asm : seen_state k ps seen asm -> start_id asm k = asm.
Proof. intros Hs. unfold start_id. rewrite decide_True; [done|]. apply (ss_id _ _ _ _ Hs). Qed.

Lemma start_id_other asm : current_id asm <> Some k -> seen_state k ps ∅ (start_id asm k).
Proof.
  intros Hid. unfold start_id. rewrite decide_False by done.
  split; cbn; try done; try lia; intros ? []%not_elem_of_empty.
Qed.

Lemma union_in (seen : gset nat) i : i ∈ seen -> {[i]} ∪ seen = seen.
Proof.
  intros H. apply set_eq. intros j. rewrite elem_of_union, elem_of_singleton.
  split; [by intros [->|?]|by right].
Qed.

Lemma union_swap (a b c : gset nat) : a ∪ (b ∪ c) = (b ∪ a) ∪ c.
Proof. by rewrite (comm_L (∪) b a), (assoc_L (∪)). Qed.

(** Setting the total again for a piece already seen changes nothing. *)
Lemma seen_state_last seen asm i : (i < length ps)%nat -> i ∈ seen -> seen_state k ps seen asm ->
  seen_state k ps seen
    (mkAssembly (current_id asm) (pieces asm) (arrived asm)
       (if (S i =? length ps)%nat then Some (S i) else total asm)).
Proof.
  intros Hi Hin [Hid Hps Hs Hle Ha Ht]. split; cbn [current_id pieces arrived total]; try done.
  destruct (Nat.eqb_spec (S i) (length ps)) as [E|]; [|done].
  rewrite decide_True; [by rewrite E|]. by replace (length ps - 1)%nat with i by lia.
Qed.

(** One fragment of the burst: either the last missing piece, or the state
    with one more piece marked as seen. *)
Lemma add_seen seen asm i : (i < length ps)%nat -> seen_state k ps seen (start_id asm k) ->
  exists asm', seen_state k ps ({[i]} ∪ seen) asm' /\
    add zlib_read asm (fragf i)
    = if decide ({[i]} ∪ seen = indices (length ps)) then (Assembly_new, result) else (asm', Ok None).
Proof.
  intros Hi Hs. pose proof Hi as [p Hp]%lookup_lt_is_Some. unfold add. simpl id.
  rewrite fragf_num by done. revert Hs. generalize (start_id asm k). clear asm. intros asm Hs.
  assert (past_total asm i = false) as ->.
  { unfold past_total. rewrite (ss_total _ _ _ _ Hs). case_decide; [|done]. apply Nat.leb_gt. done. }
  apply (seen_state_grow _ _ _ _ i p Hp) in Hs. cbv zeta.
  assert (i < length (grow (pieces asm) (S i)))%nat as Hlt by (rewrite grow_length; lia).
  revert Hs Hlt. generalize (grow (pieces asm) (S i)). intros g Hs Hlt. simpl pieces.
  pose proof (ss_pieces _ _ _ _ Hs i Hlt) as Hgi. simpl in Hgi. rewrite Hgi.
  simpl contents. simpl final_. rewrite Hp. simpl.
  destruct (decide (i ∈ seen)) as [Hin|Hnin].
  - rewrite decide_True by done. rewrite (union_in seen i Hin).
    eexists. split; [|apply finish_add_seen; [|done]]; cbn [current_id pieces arrived total final_ fragf];
      exact (seen_state_last _ _ _ Hi Hin Hs).
  - pose proof (seen_state_insert k ps seen (mkAssembly (current_id asm) g (arrived asm) (total asm)) i p _ Hp Hnin eq_refl Hlt Hs) as Hs'.
    eexists. split; [|apply finish_add_seen]; [exact Hs'|exact Hs'|done].
Qed.

Lemma add_all_seen is_ : forall seen asm,
  Forall (fun i => (i < length ps)%nat) is_ -> seen_state k ps seen (start_id asm k) ->
  list_to_set is_ ∪ seen <> indices (length ps) ->
  exists asm', seen_state k ps (list_to_set is_ ∪ seen) (start_id asm' k) /\
    add_all zlib_read asm (map fragf is_) = (asm', replicate (length is_) (Ok None)).
Proof.
  induction is_ as [|i is_ IH]; intros seen asm Hlt Hs Hne; simpl.
  - exists asm. by rewrite union_empty_l_L.
  - apply Forall_cons in Hlt as [Hi Hlt].
    destruct (add_seen seen asm i Hi Hs) as (asm' & Hs' & ->).
    rewrite decide_False.
    + destruct (IH ({[i]} ∪ seen) asm') as (asm'' & Hs'' & ->); [done| | |].
      * by erewrite start_id_seen.
      * intros E. apply Hne. rewrite <- E. by rewrite list_to_set_cons, <- union_swap.
      * exists asm''. split; [|done]. by rewrite <- union_swap.
    + intros E. apply Hne. apply set_eq. intros j. simpl. split.
      * rewrite !elem_of_union, elem_of_list_to_set, elem_of_singleton.
        rewrite Forall_forall in Hlt. intros [[->|Hj%Hlt]|Hj].
        -- by apply elem_of_indices.
        -- by apply elem_of_indices.
        -- rewrite <- E. by apply elem_of_union_r.
      * rewrite <- E, !elem_of_union. tauto.
Qed.
End Reassembly.


Lemma order_indices k ps order : Forall (fun f => f ∈ piece_fragments k ps) order ->
  exists l, order = map (fragf k ps) l /\ Forall (fun i => (i < length ps)%nat) l.
Proof.
  induction 1 as [|f order Hf _ IH]; [by exists []|].
  destruct IH as (l & -> & Hl). apply elem_of_piece_fragments in Hf as (i & Hi & ->).
  exists (i :: l). split; [done|]. by constructor.
Qed.

Lemma add_all_app zr fs gs : forall asm, add_all zr asm (fs ++ gs) =
  (let '(a, r) := add_all zr asm fs in let '(b, q) := add_all zr a gs in (b, r ++ q)).
Proof.
  induction fs as [|f fs IH]; intros asm; simpl.
  - by destruct (add_all zr asm gs).
  - destruct (add zr asm f) as [a r]. rewrite IH. destruct (add_all zr a fs) as [a' r'].
    by destruct (add_all zr a' gs).
Qed.

(** What [make] returns, when it returns fragments. *)
Lemma make_ok zc fr inst mtu fr' frags : make zc fr inst mtu = (fr', Ok frags) ->
  exists ps c, frags = piece_fragments (next_id fr) ps /\ zc (encode inst) = Some c /\
    concat ps = c /\ 0 < Z.of_nat (length ps) <= 32768.
Proof.
  unfold make, compress. destruct (zc (encode inst)) as [c|]; [|done].
  cbn [ok_or]. set (ps := match c with [] => _ | _ => _ end).
  destruct (Z.ltb_spec 32768 (Z.of_nat (length ps))) as [|Hle]; [done|]. intros [= _ <-].
  exists ps, c. split; [done|]. split; [done|]. subst ps. destruct c as [|x c]; [done|].
  split; [apply concat_chunks|]. split; [|done].
  destruct (chunks _ (x :: c)) eqn:E; [by apply chunks_not_nil in E|]. simpl. lia.
Qed.

(** No fragment is larger than the budget it was cut for. *)
Lemma make_fits zc fr inst mtu fr' frags f : make zc fr inst mtu = (fr', Ok frags) ->
  (HEADER_LEN < mtu)%nat -> f ∈ frags -> (length (to_wire f) <= mtu)%nat.
Proof.
  unfold make, compress. destruct (zc (encode inst)) as [c|]; [|done]. cbn [ok_or].
  set (ps := match c with [] => _ | _ => _ end). intros H Hm Hf.
  assert (Forall (fun p => (length p <= mtu - HEADER_LEN)%nat) ps) as HF.
  { unfold ps. destruct c; [repeat constructor; simpl; lia|].
    replace (Nat.max (mtu - HEADER_LEN) 1) with (mtu - HEADER_LEN)%nat by lia. apply chunks_le. lia. }
  destruct (_ <? _) in H; [done|]. injection H as _ <-.
  unfold piece_fragments in Hf. apply list_elem_of_lookup in Hf as [i Hi].
  rewrite list_lookup_imap in Hi. apply fmap_Some in Hi as (p & Hp & ->).
  rewrite to_wire_length. cbn [contents]. rewrite Forall_forall in HF.
  apply list_elem_of_lookup_2, HF in Hp. lia.
Qed.

(** ** Properties *)

(** a fragment survives the wire: the 10-byte header carries the id, the
    15-bit number and the final flag back, and the rest is the contents. *)
Lemma fragment_wire_roundtrip (f : Fragment) :
  is_u64 (id f) -> 0 <= num f < 2 ^ 15 -> from_wire (to_wire f) = Ok f.
Proof.
  intros Hid Hn. unfold from_wire, to_wire, HEADER_LEN.
  destruct (combined_bits (final_ f) (num f) Hn) as (Hc & Hnum & Hfin).
  set (c := Z.lor _ _) in *. rewrite !length_app, !length_be_bytes.
  rewrite (proj2 (Nat.ltb_ge _ _)) by lia. change 10%nat with (8 + 2)%nat. rewrite <- drop_drop.
  rewrite take_app_len, drop_app_len by apply length_be_bytes.
  rewrite take_app_len, drop_app_len by apply length_be_bytes.
  rewrite !from_be_be_bytes by (exact Hid || exact Hc). rewrite Hnum, Hfin. by destruct f.
Qed.

Lemma fragment_wire_roundtrip_witness :
  from_wire (to_wire (mkFragment u64_max 32767 true [1; 2; 3]))
  = Ok (mkFragment u64_max 32767 true [1; 2; 3]).
Proof. apply fragment_wire_roundtrip; split; by vm_compute. Defined.

(** C21: the fragments of one instruction reassemble it in any order and with
    any repetition: nothing is delivered while the fragment [f] is missing,
    and when it arrives the assembly yields exactly the instruction that was
    cut and is ready for the next. zlib is assumed to inflate what it
    deflated, when the read limit leaves room. *)
Theorem reassembly_any_order (zlib_compress : bytes -> option bytes)
    (zlib_read : Z -> bytes -> option bytes)
    (zlib_ok : forall d c lim, zlib_compress d = Some c -> Z.of_nat (length d) < lim ->
                 zlib_read lim c = Some d)
    inst fr fr' mtu frags asm order f :
  inst_wf inst -> Z.of_nat (length (encode inst)) <= MAX_ASSEMBLED ->
  make zlib_compress fr inst mtu = (fr', Ok frags) ->
  current_id asm <> Some (next_id fr) ->
  f ∈ frags -> f ∉ order -> (forall g, g ∈ order -> g ∈ frags) ->
  (forall g, g ∈ frags -> g = f \/ g ∈ order) ->
  add_all zlib_read asm (order ++ [f])
  = (Assembly_new, replicate (length order) (Ok None) ++ [Ok (Some inst)]).
Proof.
  intros Hwf Hlen Hmake Hcur Hf Hnot Hsub Hall.
  apply make_ok in Hmake as (ps & c & -> & Hc & Hps & Hn). set (k := next_id fr) in *.
  apply Forall_forall in Hsub as (l & -> & Hl)%order_indices.
  apply elem_of_piece_fragments in Hf as (i & Hi & ->).
  assert (i ∉ l) as Hil by (intros H; by apply Hnot, list_elem_of_fmap_2).
  assert ({[i]} ∪ (list_to_set l ∪ ∅ : gset nat) = indices (length ps)) as Hfull.
  { apply set_eq. intros j. rewrite union_empty_r_L, elem_of_union, elem_of_singleton, elem_of_list_to_set, elem_of_indices.
    split; [intros [->|Hj]; [done|rewrite Forall_forall in Hl; by apply Hl]|]. intros Hj.
    destruct (Hall (fragf k ps j)) as [E|Hin]; [apply elem_of_piece_fragments; eauto| |].
    - left. by apply (fragf_inj k ps Hn).
    - right. apply list_elem_of_fmap in Hin as (j' & E & Hj').
      rewrite Forall_forall in Hl. apply (fragf_inj k ps Hn) in E; [by subst|done|by apply Hl]. }
  destruct (add_all_seen zlib_read k ps Hn l ∅ asm) as (asm' & Hs & E);
    [done|by apply start_id_other| |].
  { intros E. assert (i ∈ indices (length ps)) as H by by apply elem_of_indices.
    rewrite <- E, union_empty_r_L, elem_of_list_to_set in H. done. }
  rewrite add_all_app, E, length_map. simpl.
  destruct (add_seen zlib_read k ps Hn _ asm' i Hi Hs) as (asm'' & _ & ->).
  rewrite decide_True by done. do 3 f_equal.
  unfold decompress. rewrite Hps, (zlib_ok _ _ _ Hc) by lia. cbn [ok_or mbind result_bind].
  rewrite (proj2 (Z.ltb_ge _ _)) by done. simpl. by rewrite decode_encode.
Qed.

Definition stored_compress (d : bytes) : option bytes := Some (120 :: d).
Definition stored_read (lim : Z) (c : bytes) : option bytes :=
  match c with [] => None | _ :: d => Some (take (Z.to_nat lim) d) end.

Lemma reassembly_any_order_witness :
  let inst := mkInst 2 5 6 3 1 [1; 2; 3; 4; 5; 6; 7; 8; 9] [] in
  match make stored_compress Fragmenter_new inst 17 with
  | (_, Ok [f0; f1; f2; f3]) =>
      add_all stored_read Assembly_new ([f3; f1; f3; f0] ++ [f2])
      = (Assembly_new, replicate 4 (Ok None) ++ [Ok (Some inst)])
  | _ => False
  end.
Proof.
  cbv zeta. match goal with |- match ?m with _ => _ end => destruct m as [fr' r] eqn:E end.
  pose proof E as E2. vm_compute in E2. inversion E2; subst. clear E2.
  cbv beta iota.
  refine (reassembly_any_order stored_compress stored_read _ _ _ _ _ _ _ _ _ _ _ E _ _ _ _ _).
  - intros d c lim [= <-] Hl. cbn [stored_read]. f_equal. apply take_ge. lia.
  - split; try (split; [by vm_compute|by vm_compute]). by vm_compute.
  - by vm_compute.
  - done.
  - rewrite !elem_of_cons. tauto.
  - intros H. repeat (apply elem_of_cons in H as [H|H]; [discriminate H|]). by apply elem_of_nil in H.
  - intros g. rewrite !elem_of_cons, elem_of_nil. tauto.
  - intros g. rewrite !elem_of_cons, elem_of_nil. tauto.
Defined.

(** whatever the network delivers, the assembly stays sound: it never
    holds more than 2^15 pieces, [arrived] counts exactly the pieces that are
    there, and when the count meets a known total no piece is missing, so the
    error branch of the drain is never taken. *)
Theorem assembly_sound (zlib_read : Z -> bytes -> option bytes) (fs : list Fragment) :
  Forall (fun f => 0 <= num f < 2 ^ 15) fs ->
  let asm := fst (add_all zlib_read Assembly_new fs) in
  Z.of_nat (length (pieces asm)) <= 2 ^ 15 /\ arrived asm = filled (pieces asm) /\
  (total asm = Some (arrived asm) -> exists out, drain (pieces asm) = Ok out).
Proof.
  intros Hfs asm. destruct (add_all_inv zlib_read fs Assembly_new asm_inv_new Hfs) as [Ha Ht Hb].
  split; [exact Hb|]. split; [exact Ha|]. intros E. apply drain_full. unfold asm in *.
  rewrite <- Ha. symmetry. by apply Ht.
Qed.

Lemma assembly_sound_witness :
  let asm := fst (add_all stored_read Assembly_new
    [mkFragment 7 3 true [1]; mkFragment 7 0 false [2]; mkFragment 7 9 false [3]]) in
  Z.of_nat (length (pieces asm)) <= 2 ^ 15.
Proof.
  refine (proj1 (assembly_sound stored_read _ _)). repeat constructor; simpl; lia.
Defined.
