(* ===== verification/MoshCrypto.v ===== *)
(** * Mosh datagram encryption

    [crates/termoso-core/src/mosh/crypto.rs]: the session key, the nonce
    counter and the datagram format. The base64 engine and the OCB3 cipher
    are libraries, parameters of the model: [seal] is
    [encrypt_in_place_detached] and [unseal] is [decrypt_in_place_detached],
    both with empty associated data. *)
From Stdlib Require Import Ascii.
From S2P Require Import Prelude MoshProto MoshFragment.

Definition ADDED_BYTES : nat := 8 + 16.
Definition DIRECTION_MASK : Z := Z.shiftl 1 63.
Definition SEQUENCE_MASK : Z := Z.shiftr u64_max 1.

(** ** Keys *)

(** [str::trim_end_matches('=')] on the characters of the string. *)
Fixpoint trim_pad (l : list ascii) : list ascii :=
  match l with
  | [] => []
  | c :: l' =>
      match trim_pad l' with
      | [] => if decide (c = "="%char) then [] else [c]
      | t => c :: t
      end
  end.

Section Key.
Context (b64_decode : list ascii -> option bytes) (b64_encode : bytes -> list ascii).

Definition parse (printable : list ascii) : mres bytes :=
  if negb (length printable =? 22)%nat then Err BadKey
  else
    let padded := printable ++ ["="; "="]%char in
    raw ← ok_or (b64_decode padded) BadKey;
    if negb (length raw =? 16)%nat then Err BadKey
    else if decide (trim_pad (b64_encode raw) = printable) then Ok raw else Err BadKey.
End Key.

(** ** Sessions *)

Record Session := mkSession { to_server : bool; next_seq : Z }.
Definition Session_new (to_server : bool) : Session := mkSession to_server 0.

Definition nonce (direction_seq : Z) : bytes := replicate 4 0 ++ be_bytes 8 direction_seq.

Section Cipher.
Context (seal : bytes -> bytes -> option (bytes * bytes))
        (unseal : bytes -> bytes -> bytes -> option bytes).

Definition direction_seq_of (s : Session) (seq : Z) : Z :=
  if to_server s then seq else Z.lor seq DIRECTION_MASK.

Definition encrypt (s : Session) (plaintext : bytes) : Session * mres bytes :=
  let seq := next_seq s in
  if u64_max <? seq + 1 then (s, Err CounterWrapped)
  else
    let s := mkSession (to_server s) (seq + 1) in
    if negb (Z.land seq DIRECTION_MASK =? 0) then (s, Err CounterWrapped)
    else
      let n := nonce (direction_seq_of s seq) in
      (s, '(body, tag) ← ok_or (seal n plaintext) Cipher;
          Ok (drop 4 n ++ body ++ tag)).

Definition decrypt (wire : bytes) : mres (Z * bytes) :=
  if (length wire <? ADDED_BYTES)%nat then Err Cipher
  else
    let direction_seq := from_be (take 8 wire) in
    let rest := drop 8 wire in
    let cut := (length wire - 8 - 16)%nat in
    out ← ok_or (unseal (nonce direction_seq) (take cut rest) (drop cut rest)) Cipher;
    Ok (direction_seq, out).

Fixpoint encrypt_all (s : Session) (msgs : list bytes) : Session * list (mres bytes) :=
  match msgs with
  | [] => (s, [])
  | m :: msgs' =>
      let '(s, r) := encrypt s m in
      let '(s, rs) := encrypt_all s msgs' in (s, r :: rs)
  end.
End Cipher.

(** The nonces (as the wire carries them) of the datagrams that were sealed. *)
Definition sealed_nonces (rs : list (mres bytes)) : list bytes :=
  omap (fun r => match r with Ok w => Some (take 8 w) | Err _ => None end) rs.

(** ** Lemmas *)

Lemma trim_pad_spec l : exists n, l = trim_pad l ++ replicate n "="%char.
Proof.
  induction l as [|c l [n IH]]; [by exists O|]. simpl.
  destruct (trim_pad l) as [|d t] eqn:E.
  - destruct (decide (c = "="%char)) as [->|]; [exists (S n)|exists n];
      cbn [app replicate] in *; congruence.
  - exists n. cbn [app] in *. congruence.
Qed.

Lemma land_direction seq : is_u64 seq ->
  Z.land seq DIRECTION_MASK = if seq <? 2 ^ 63 then 0 else DIRECTION_MASK.
Proof.
  unfold in_width, DIRECTION_MASK. intros H. apply Z.bits_inj'. intros m Hm.
  change (Z.shiftl 1 63) with (2 ^ 63). rewrite Z.land_spec.
  destruct (Z.ltb_spec seq (2 ^ 63)) as [Hlt|Hge].
  - rewrite Z.bits_0, Z.pow2_bits_eqb by lia. destruct (Z.eqb_spec 63 m) as [<-|]; [|apply andb_false_r].
    rewrite andb_true_r. rewrite <- (Z.mod_small seq (2 ^ 63)) by lia.
    by apply Z.mod_pow2_bits_high.
  - rewrite Z.pow2_bits_eqb by lia. destruct (Z.eqb_spec 63 m) as [<-|]; [|apply andb_false_r].
    rewrite andb_true_r. rewrite Z.testbit_true by lia.
    rewrite <- (Z.div_unique seq (2 ^ 63) 1 (seq - 2 ^ 63)) by lia. done.
Qed.

Lemma lor_direction seq : 0 <= seq < 2 ^ 63 -> Z.lor seq DIRECTION_MASK = 2 ^ 63 + seq.
Proof.
  intros H. rewrite Z.lor_comm. unfold DIRECTION_MASK. rewrite lor_disjoint by lia. lia.
Qed.

Lemma direction_seq_range s seq : 0 <= seq < 2 ^ 63 -> is_u64 (direction_seq_of s seq).
Proof.
  intros H. unfold direction_seq_of, in_width. destruct (to_server s); [lia|].
  rewrite lor_direction by done. lia.
Qed.

Section CipherFacts.
Context (seal : bytes -> bytes -> option (bytes * bytes))
        (unseal : bytes -> bytes -> bytes -> option bytes).

(** A datagram that was sealed used the counter's own value, below 2^63. *)
Lemma encrypt_ok s m s' w : is_u64 (next_seq s) -> encrypt seal s m = (s', Ok w) ->
  next_seq s < 2 ^ 63 /\ s' = mkSession (to_server s) (next_seq s + 1) /\
  exists body tag, seal (nonce (direction_seq_of s (next_seq s))) m = Some (body, tag) /\
    w = be_bytes 8 (direction_seq_of s (next_seq s)) ++ body ++ tag.
Proof.
  intros Hs. unfold encrypt. destruct (u64_max <? next_seq s + 1); [done|].
  rewrite land_direction by done. destruct (Z.ltb_spec (next_seq s) (2 ^ 63)); [|done].
  destruct s as [dir seq]. cbn [to_server next_seq] in *. cbn [Z.eqb negb].
  unfold direction_seq_of. cbn [to_server]. intros [= <- Hb].
  apply bind_ok in Hb as ([body tag] & Hseal%ok_or_ok & [= <-]). eauto 10.
Qed.

Lemma encrypt_counter s m : is_u64 (next_seq s) ->
  let s' := fst (encrypt seal s m) in
  to_server s' = to_server s /\ is_u64 (next_seq s') /\ next_seq s <= next_seq s'.
Proof.
  intros Hs. unfold encrypt. unfold in_width, u64_max in *.
  destruct (Z.ltb_spec (2 ^ 64 - 1) (next_seq s + 1)); [split; [done|]; simpl; lia|].
  destruct (negb _); (split; [done|]); simpl; lia.
Qed.

(** The nonces of one session are those of strictly increasing counters. *)
Lemma sealed_counters msgs : forall s, is_u64 (next_seq s) ->
  exists seqs, sealed_nonces (snd (encrypt_all seal s msgs))
               = map (fun q => be_bytes 8 (direction_seq_of s q)) seqs /\
    NoDup seqs /\ Forall (fun q => next_seq s <= q < 2 ^ 63) seqs.
Proof.
  induction msgs as [|m msgs IH]; intros s Hs; simpl.
  - exists []. split; [done|]. split; constructor.
  - destruct (encrypt seal s m) as [s' r] eqn:E. pose proof (encrypt_counter s m Hs) as Hc.
    rewrite E in Hc. simpl in Hc. destruct Hc as (Hdir & Hs' & Hle).
    destruct (IH s' Hs') as (seqs & Eseqs & Hnd & Hlt).
    destruct (encrypt_all seal s' msgs) as [s'' rs]. simpl in *. unfold sealed_nonces in *. simpl.
    assert (forall q, direction_seq_of s' q = direction_seq_of s q) as Hd
      by (intros; unfold direction_seq_of; by rewrite Hdir).
    rewrite Eseqs. destruct r as [w|e].
    + apply encrypt_ok in E as (Hq & -> & body & tag & _ & ->); [|done]. cbn [next_seq] in *.
      exists (next_seq s :: seqs). rewrite take_app_len by apply length_be_bytes. split; [done|].
      rewrite Forall_forall in Hlt. split.
      * constructor; [|done]. intros H%Hlt. lia.
      * constructor; [lia|]. apply Forall_forall. intros q H%Hlt. lia.
    + exists seqs. split; [apply map_ext; intros; by rewrite Hd|]. split; [done|].
      eapply Forall_impl; [exact Hlt|]. simpl. lia.
Qed.
End CipherFacts.

Lemma direction_nonce_inj s s' q q' : 0 <= q < 2 ^ 63 -> 0 <= q' < 2 ^ 63 ->
  be_bytes 8 (direction_seq_of s q) = be_bytes 8 (direction_seq_of s' q') ->
  q = q' /\ to_server s = to_server s'.
Proof.
  intros Hq Hq' E. apply (f_equal from_be) in E.
  rewrite !from_be_be_bytes in E by (by apply direction_seq_range).
  unfold direction_seq_of in E.
  destruct (to_server s), (to_server s'); rewrite ?lor_direction in E by done; split; (done || lia).
Qed.

(** ** Properties *)

(** a session key is accepted only in its canonical spelling: [parse]
    returns the key exactly for the 22 characters that base64 prints for those
    16 bytes, so two spellings of one key are never both accepted. *)
Lemma key_parse_canonical (dec : list ascii -> option bytes) (enc : bytes -> list ascii)
    (dec_enc : forall b, all_bytes b -> dec (enc b) = Some b)
    (enc_len : forall b, length b = 16%nat -> length (enc b) = 24%nat) p k :
  all_bytes k ->
  parse dec enc p = Ok k <->
  length p = 22%nat /\ length k = 16%nat /\ p = trim_pad (enc k).
Proof.
  intros Hbytes. unfold parse. destruct (Nat.eqb_spec (length p) 22) as [Hp|Hp]; simpl; [|by intuition].
  split.
  - intros (raw & _ & H)%bind_ok. destruct (Nat.eqb_spec (length raw) 16); simpl in H; [|done].
    case_decide; [|done]. injection H as <-. auto.
  - intros (_ & Hk & ->). destruct (trim_pad_spec (enc k)) as [n Hn].
    assert (n = 2%nat) as ->.
    { apply (f_equal length) in Hn. rewrite length_app, length_replicate, enc_len in Hn by done. lia. }
    change ["="; "="]%char with (replicate 2 "="%char). rewrite <- Hn, dec_enc by done. simpl.
    rewrite Hk. simpl. by rewrite decide_True.
Qed.

Definition toy_encode (b : bytes) : list ascii :=
  map (fun z => ascii_of_nat (Z.to_nat z)) b ++ replicate 6 "A"%char ++ replicate 2 "="%char.
Definition toy_decode (l : list ascii) : option bytes :=
  Some (map (fun c => Z.of_nat (nat_of_ascii c)) (take (length l - 8) l)).

Lemma key_parse_canonical_witness :
  let k := replicate 16 88 in
  parse toy_decode toy_encode (replicate 16 "X"%char ++ replicate 6 "A"%char) = Ok k <->
  length (replicate 16 "X"%char ++ replicate 6 "A"%char) = 22%nat /\ length k = 16%nat /\
  replicate 16 "X"%char ++ replicate 6 "A"%char = trim_pad (toy_encode k).
Proof.
  apply key_parse_canonical.
  - intros b Hb. unfold toy_decode, toy_encode. f_equal. rewrite !length_app, length_map, !length_replicate.
    replace (length b + (6 + 2) - 8)%nat with (length b) by lia.
    rewrite take_app_len by apply length_map. rewrite map_map. rewrite <- (map_id b) at 2.
    apply map_ext_in. intros z Hz%list_elem_of_In. unfold all_bytes in Hb. rewrite Forall_forall in Hb.
    specialize (Hb z Hz). unfold in_width in Hb. rewrite nat_ascii_embedding by lia. lia.
  - intros b Hb. unfold toy_encode. rewrite !length_app, length_map, !length_replicate. lia.
  - unfold all_bytes, in_width. repeat constructor; lia.
Defined.

(** C19: no nonce is ever used twice under one key: over any run of the client
    and any run of the server, starting from new sessions, all sealed
    datagrams carry distinct nonces. *)
Theorem nonces_never_repeat (seal : bytes -> bytes -> option (bytes * bytes)) (sent received : list bytes) :
  NoDup (sealed_nonces (snd (encrypt_all seal (Session_new true) sent))
         ++ sealed_nonces (snd (encrypt_all seal (Session_new false) received))).
Proof.
  destruct (sealed_counters seal sent (Session_new true)) as (q1 & -> & Hn1 & Hq1); [done|].
  destruct (sealed_counters seal received (Session_new false)) as (q2 & -> & Hn2 & Hq2); [done|].
  rewrite Forall_forall in Hq1, Hq2. apply NoDup_app. split; [|split].
  - apply NoDup_fmap_2_strong; [|done]. intros a b Ha%Hq1 Hb%Hq1 E. by apply direction_nonce_inj in E as [? _].
  - intros x (a & -> & Ha%Hq1)%list_elem_of_fmap (b & E & Hb%Hq2)%list_elem_of_fmap.
    by apply direction_nonce_inj in E as [_ ?].
  - apply NoDup_fmap_2_strong; [|done]. intros a b Ha%Hq2 Hb%Hq2 E. by apply direction_nonce_inj in E as [? _].
Qed.

(** a sealed datagram opens at the other end: [decrypt] returns the
    plaintext together with the sender's direction bit and counter, and the
    datagram is exactly [ADDED_BYTES] longer than the plaintext. *)
Theorem datagram_roundtrip (seal : bytes -> bytes -> option (bytes * bytes))
    (unseal : bytes -> bytes -> bytes -> option bytes)
    (unseal_seal : forall n m body tag, seal n m = Some (body, tag) -> unseal n body tag = Some m)
    (seal_len : forall n m body tag, seal n m = Some (body, tag) ->
       length body = length m /\ length tag = 16%nat) s s' m w :
  is_u64 (next_seq s) -> encrypt seal s m = (s', Ok w) ->
  length w = (length m + ADDED_BYTES)%nat /\
  exists q, decrypt unseal w = Ok (q, m) /\ Z.land q SEQUENCE_MASK = next_seq s /\
    (Z.land q DIRECTION_MASK =? 0) = to_server s.
Proof.
  intros Hs (Hq & -> & body & tag & Hseal & ->)%encrypt_ok; [|done].
  destruct (seal_len _ _ _ _ Hseal) as [Hb Ht]. set (d := direction_seq_of s (next_seq s)) in *.
  assert (is_u64 d) as Hd by (apply direction_seq_range; unfold in_width in Hs; lia).
  assert (length (be_bytes 8 d ++ body ++ tag) = (length m + ADDED_BYTES)%nat) as Hlen
    by (rewrite !length_app, length_be_bytes; unfold ADDED_BYTES; lia).
  split; [done|]. exists d. split.
  - unfold decrypt. rewrite Hlen. rewrite (proj2 (Nat.ltb_ge _ _)) by lia.
    rewrite take_app_len, drop_app_len by apply length_be_bytes.
    replace (length m + ADDED_BYTES - 8 - 16)%nat with (length body) by (unfold ADDED_BYTES; lia).
    rewrite take_app_length, drop_app_length, from_be_be_bytes by done.
    by rewrite (unseal_seal _ _ _ _ Hseal).
  - subst d. unfold direction_seq_of. change SEQUENCE_MASK with (Z.ones 63). rewrite Z.land_ones by lia.
    unfold in_width in Hs. destruct (to_server s).
    + rewrite Z.mod_small, land_direction by (unfold in_width; lia).
      split; [done|]. by destruct (Z.ltb_spec (next_seq s) (2 ^ 63)); [|lia].
    + rewrite lor_direction by lia. rewrite land_direction by (unfold in_width; lia).
      split; [|by destruct (Z.ltb_spec (2 ^ 63 + next_seq s) (2 ^ 63)); [lia|]].
      rewrite <- (Z.mod_small (next_seq s) (2 ^ 63)) at 2 by lia.
      by rewrite <- (Z.mod_add (next_seq s) 1 (2 ^ 63)), Z.mul_1_l, Z.add_comm by lia.
Qed.

Definition xor_seal (n m : bytes) : option (bytes * bytes) :=
  Some (map (Z.lxor (from_be n)) m, replicate 16 0).
Definition xor_unseal (n body tag : bytes) : option bytes := Some (map (Z.lxor (from_be n)) body).

Lemma datagram_roundtrip_witness :
  let s := mkSession false 41 in
  let w := be_bytes 8 (2 ^ 63 + 41) ++ map (Z.lxor (2 ^ 63 + 41)) [1; 2; 3] ++ replicate 16 0 in
  encrypt xor_seal s [1; 2; 3] = (mkSession false 42, Ok w) /\
  length w = 27%nat /\ exists q, decrypt xor_unseal w = Ok (q, [1; 2; 3]) /\ Z.land q SEQUENCE_MASK = 41
    /\ (Z.land q DIRECTION_MASK =? 0) = false.
Proof.
  split; [by vm_compute|].
  refine (datagram_roundtrip xor_seal xor_unseal _ _ (mkSession false 41) (mkSession false 42) [1; 2; 3] _ _ _).
  - intros n m body tag [= <- <-]. unfold xor_unseal. f_equal. rewrite map_map.
    rewrite <- (map_id m) at 2. apply map_ext. intros x.
    by rewrite <- Z.lxor_assoc, Z.lxor_nilpotent, Z.lxor_0_l.
  - intros n m body tag [= <- <-]. by rewrite length_map.
  - by vm_compute.
  - by vm_compute.
Defined.

(** the counter is used up for good: once it reaches 2^63 no datagram is
    ever sealed again under the key, whatever is asked. *)
Lemma counter_exhausted (seal : bytes -> bytes -> option (bytes * bytes)) s msgs :
  is_u64 (next_seq s) -> 2 ^ 63 <= next_seq s ->
  snd (encrypt_all seal s msgs) = replicate (length msgs) (Err CounterWrapped).
Proof.
  revert s. induction msgs as [|m msgs IH]; intros s Hs Hge; simpl; [done|].
  pose proof (encrypt_counter seal s m Hs) as (_ & Hs' & Hle).
  assert (snd (encrypt seal s m) = Err CounterWrapped) as Hr.
  { unfold encrypt. destruct (_ <? _); [done|]. rewrite land_direction by done.
    by rewrite (proj2 (Z.ltb_ge _ _)). }
  destruct (encrypt seal s m) as [s' r]. simpl in *. subst r.
  specialize (IH s' Hs' ltac:(lia)). destruct (encrypt_all seal s' msgs). simpl in *. by subst.
Qed.

Lemma counter_exhausted_witness :
  snd (encrypt_all xor_seal (mkSession true (2 ^ 64 - 2)) [[1]; [2]; [3]])
  = replicate 3 (Err CounterWrapped).
Proof. apply (counter_exhausted xor_seal (mkSession true (2 ^ 64 - 2)) [[1]; [2]; [3]]); by vm_compute. Defined.
