(* ===== verification/MoshRtt.v ===== *)
(** * Round-trip estimation

    [Rtt] of [crates/termoso-core/src/mosh/transport.rs]. Rust's [f64] is the
    binary64 format of the Standard Library's [SpecFloat] (53 bits of
    precision, exponent bound 1024), whose operations round to nearest even
    as the hardware does. *)
From Stdlib Require Import SpecFloat.
From S2P Require Import Prelude.

Definition SEND_INTERVAL_MIN : Z := 20.
Definition SEND_INTERVAL_MAX : Z := 250.
Definition MIN_RTO : Z := 50.
Definition MAX_RTO : Z := 1000.

(** ** binary64 *)

Abbreviation f64 := spec_float.
Definition f64_add : f64 -> f64 -> f64 := SFadd 53 1024.
Definition f64_sub : f64 -> f64 -> f64 := SFsub 53 1024.
Definition f64_mul : f64 -> f64 -> f64 := SFmul 53 1024.
Definition f64_div : f64 -> f64 -> f64 := SFdiv 53 1024.

(** [f64::from(u16)] and integer literals: the nearest binary64 number. *)
Definition f64_of_Z (z : Z) : f64 := binary_normalize 53 1024 z 0 false.

(** The ceiling of [m * 2^e], [m] negated when [s]. *)
Definition ceil_finite (s : bool) (m : positive) (e : Z) : Z :=
  let v := if s then Z.neg m else Z.pos m in
  if 0 <=? e then v * 2 ^ e else - ((- v) / 2 ^ (- e)).

(** [x.ceil() as u64]: the cast saturates, NaN gives zero. *)
Definition ceil_as_u64 (x : f64) : Z :=
  match x with
  | S754_zero _ | S754_nan | S754_infinity true => 0
  | S754_infinity false => u64_max
  | S754_finite s m e => Z.min u64_max (Z.max 0 (ceil_finite s m e))
  end.

(** ** The estimator *)

Record Rtt := mkRtt { srtt : f64; rttvar : f64; hit : bool }.

Definition Rtt_new : Rtt := mkRtt (f64_of_Z 1000) (f64_of_Z 500) false.

Definition ALPHA : f64 := f64_div (f64_of_Z 1) (f64_of_Z 8).
Definition BETA : f64 := f64_div (f64_of_Z 1) (f64_of_Z 4).

Definition sample (t : Rtt) (r : f64) : Rtt :=
  if negb (hit t) then mkRtt r (f64_div r (f64_of_Z 2)) true
  else
    let rttvar' := f64_add (f64_mul (f64_sub (f64_of_Z 1) BETA) (rttvar t))
                     (f64_mul BETA (SFabs (f64_sub (srtt t) r))) in
    let srtt' := f64_add (f64_mul (f64_sub (f64_of_Z 1) ALPHA) (srtt t)) (f64_mul ALPHA r) in
    mkRtt srtt' rttvar' true.

Definition timeout (t : Rtt) : Z :=
  clamp (ceil_as_u64 (f64_add (srtt t) (f64_mul (f64_of_Z 4) (rttvar t)))) MIN_RTO MAX_RTO.

Definition send_interval (t : Rtt) : Z :=
  clamp (ceil_as_u64 (f64_div (srtt t) (f64_of_Z 2))) SEND_INTERVAL_MIN SEND_INTERVAL_MAX.

Lemma timeout_bounds t : 50 <= timeout t <= 1000.
Proof. apply clamp_bounds. done. Qed.

Lemma send_interval_bounds t : 20 <= send_interval t <= 250.
Proof. apply clamp_bounds. done. Qed.
#[export] Hint Resolve timeout_bounds send_interval_bounds : termoso.

(** The test [rtt_follows_rfc6298_and_clamps]. *)
Example rtt_new_timers : (timeout Rtt_new, send_interval Rtt_new) = (MAX_RTO, SEND_INTERVAL_MAX).
Proof. vm_compute. reflexivity. Qed.

Definition first_sample_ok (r : nat) : bool :=
  let t := sample Rtt_new (f64_of_Z (Z.of_nat r)) in
  (timeout t =? clamp (3 * Z.of_nat r) MIN_RTO MAX_RTO)
  && (send_interval t =? clamp ((Z.of_nat r + 1) / 2) SEND_INTERVAL_MIN SEND_INTERVAL_MAX).

(** before any sample the timers are at their ceilings, and the first
    sample [r] (the receiver lets only [r < 5000] through) sets, in binary64
    arithmetic, exactly the timeout [3r] and the send interval [r/2] rounded
    up, both clamped. *)
Lemma rtt_first_sample (r : Z) : 0 <= r < 5000 ->
  timeout (sample Rtt_new (f64_of_Z r)) = clamp (3 * r) MIN_RTO MAX_RTO /\
  send_interval (sample Rtt_new (f64_of_Z r))
  = clamp ((r + 1) / 2) SEND_INTERVAL_MIN SEND_INTERVAL_MAX.
Proof.
  intros Hr. assert (forallb first_sample_ok (seq 0 (Z.to_nat 5000)) = true) as H
    by (vm_compute; reflexivity).
  rewrite forallb_forall in H. specialize (H (Z.to_nat r)). rewrite in_seq in H.
  specialize (H ltac:(lia)). unfold first_sample_ok in H. rewrite Z2Nat.id in H by lia.
  apply andb_true_iff in H as [H1%Z.eqb_eq H2%Z.eqb_eq]. done.
Qed.

Lemma rtt_first_sample_witness :
  timeout (sample Rtt_new (f64_of_Z 133)) = 399 /\ send_interval (sample Rtt_new (f64_of_Z 133)) = 67.
Proof. apply (rtt_first_sample 133). lia. Defined.
