(* ===== verification/MoshConn.v ===== *)
(** * The encrypted datagram layer

    [Connection] of [crates/termoso-core/src/mosh/transport.rs]: sockets and
    port hopping, the payload budget, the datagram header with its two
    timestamps, and what is accepted from the network.

    A socket is an opaque number, the newest last; the reader tasks and the
    channel they feed are the environment, as is the outcome of a system call
    ([SendOutcome], the result of a [bind]). The clock is an argument: one
    value per call, where the code reads it once or twice within the call. *)
From S2P Require Import Prelude MoshProto MoshFragment MoshCrypto MoshRtt.

Definition PORT_HOP_INTERVAL : Z := 10000.
Definition OLD_SOCKET_AGE : Z := 60000.
Definition MAX_SOCKETS : nat := 10.
Definition DEFAULT_SEND_MTU : nat := 500.
Definition IPV4_MTU : nat := 1280 - 20 - 8.
Definition IPV6_MTU : nat := 1280 - 40 - 8.
Definition TIMESTAMP_BYTES : nat := 4.

Definition now16 (now : Z) : Z := wrap16 now.

(** [u16::wrapping_sub]. *)
Definition timestamp_diff (new old : Z) : Z := wrap16 (new - old).

Record Connection := mkConnection {
  is_ipv4 : bool;
  sockets : list N;
  cipher : Session;
  mtu : nat;
  rtt : Rtt;
  expected_receiver_seq : Z;
  saved_timestamp : option (Z * Z);
  last_heard : option Z;
  last_port_choice : Z;
  last_roundtrip_success : Z;
  send_error : option string
}.

(** Field updates. *)
Definition set_sockets (v : list N) (r : Connection) : Connection :=
  mkConnection (is_ipv4 r) v (cipher r) (mtu r) (rtt r) (expected_receiver_seq r) (saved_timestamp r) (last_heard r) (last_port_choice r) (last_roundtrip_success r) (send_error r).
Definition set_cipher (v : Session) (r : Connection) : Connection :=
  mkConnection (is_ipv4 r) (sockets r) v (mtu r) (rtt r) (expected_receiver_seq r) (saved_timestamp r) (last_heard r) (last_port_choice r) (last_roundtrip_success r) (send_error r).
Definition set_mtu (v : nat) (r : Connection) : Connection :=
  mkConnection (is_ipv4 r) (sockets r) (cipher r) v (rtt r) (expected_receiver_seq r) (saved_timestamp r) (last_heard r) (last_port_choice r) (last_roundtrip_success r) (send_error r).
Definition set_rtt (v : Rtt) (r : Connection) : Connection :=
  mkConnection (is_ipv4 r) (sockets r) (cipher r) (mtu r) v (expected_receiver_seq r) (saved_timestamp r) (last_heard r) (last_port_choice r) (last_roundtrip_success r) (send_error r).
Definition set_expected_receiver_seq (v : Z) (r : Connection) : Connection :=
  mkConnection (is_ipv4 r) (sockets r) (cipher r) (mtu r) (rtt r) v (saved_timestamp r) (last_heard r) (last_port_choice r) (last_roundtrip_success r) (send_error r).
Definition set_saved_timestamp (v : option (Z * Z)) (r : Connection) : Connection :=
  mkConnection (is_ipv4 r) (sockets r) (cipher r) (mtu r) (rtt r) (expected_receiver_seq r) v (last_heard r) (last_port_choice r) (last_roundtrip_success r) (send_error r).
Definition set_last_heard (v : option Z) (r : Connection) : Connection :=
  mkConnection (is_ipv4 r) (sockets r) (cipher r) (mtu r) (rtt r) (expected_receiver_seq r) (saved_timestamp r) v (last_port_choice r) (last_roundtrip_success r) (send_error r).
Definition set_last_port_choice (v : Z) (r : Connection) : Connection :=
  mkConnection (is_ipv4 r) (sockets r) (cipher r) (mtu r) (rtt r) (expected_receiver_seq r) (saved_timestamp r) (last_heard r) v (last_roundtrip_success r) (send_error r).
Definition set_last_roundtrip_success (v : Z) (r : Connection) : Connection :=
  mkConnection (is_ipv4 r) (sockets r) (cipher r) (mtu r) (rtt r) (expected_receiver_seq r) (saved_timestamp r) (last_heard r) (last_port_choice r) v (send_error r).
Definition set_send_error (v : option string) (r : Connection) : Connection :=
  mkConnection (is_ipv4 r) (sockets r) (cipher r) (mtu r) (rtt r) (expected_receiver_seq r) (saved_timestamp r) (last_heard r) (last_port_choice r) (last_roundtrip_success r) v.

(** The state [open] starts from, before its first [hop_port]. *)
Definition Connection_init (ipv4 : bool) (now : Z) : Connection :=
  mkConnection ipv4 [] (Session_new true) (if ipv4 then IPV4_MTU else IPV6_MTU) Rtt_new 0 None None
    now 0 None.

(** [hop_port]: [bound] is the socket, bound and connected, or the error. *)
Definition hop_port (c : Connection) (bound : result string N) (now : Z) : Connection * mres unit :=
  match bound with
  | Err e => (c, Err (Socket e))
  | Ok sock =>
      let c := set_sockets (sockets c ++ [sock]) c in
      let c := set_last_port_choice now c in
      let c := if (MAX_SOCKETS <? length (sockets c))%nat then set_sockets (drop 1 (sockets c)) c
               else c in
      (c, Ok tt)
  end.

Definition open (ipv4 : bool) (bound : result string N) (now : Z) : mres Connection :=
  let '(c, r) := hop_port (Connection_init ipv4 now) bound now in
  match r with Ok _ => Ok c | Err e => Err e end.

(** [self.sockets.pop()], [drain(..)] and the push of the one kept. *)
Definition prune_sockets (c : Connection) (now : Z) : Connection :=
  if (1 <? length (sockets c))%nat && (OLD_SOCKET_AGE <? now - last_port_choice c) then
    set_sockets (drop (length (sockets c) - 1) (sockets c)) c
  else c.

(** [e.to_string()] of the socket error. *)
Definition error_text (e : MoshError) : string :=
  match e with Socket s => "UDP socket: " +:+ s | _ => "" end.

Definition maybe_hop (c : Connection) (bound : result string N) (now : Z) : Connection :=
  let c :=
    if (PORT_HOP_INTERVAL <? sat_sub now (last_port_choice c))
       && (PORT_HOP_INTERVAL <? sat_sub now (last_roundtrip_success c)) then
      let '(c, r) := hop_port c bound now in
      match r with Ok _ => c | Err e => set_send_error (Some (error_text e)) c end
    else c in
  prune_sockets c now.

Definition payload_mtu (c : Connection) : nat :=
  Nat.max (mtu c - (TIMESTAMP_BYTES + ADDED_BYTES)) (HEADER_LEN + 1).

(** What [try_send] answers. *)
Inductive SendOutcome : Type :=
| Sent
| MsgSize (e : string)
| WouldBlock
| SendFailed (e : string).

(** The reply timestamp: the server's own, aged, when it is recent. *)
Definition reply_timestamp (c : Connection) (now : Z) : Z :=
  match saved_timestamp c with
  | Some (ts, at_) =>
      if sat_sub now at_ <? 1000 then wrap16 (ts + wrap16 (now - at_)) else 65535
  | None => 65535
  end.

Definition note_send (c : Connection) (o : SendOutcome) : Connection :=
  match o with
  | Sent => set_send_error None c
  | MsgSize e => set_send_error (Some ("send: " +:+ e)) (set_mtu DEFAULT_SEND_MTU c)
  | WouldBlock => c
  | SendFailed e => set_send_error (Some ("send: " +:+ e)) c
  end.

Section Cipher.
Context (seal : bytes -> bytes -> option (bytes * bytes))
        (unseal : bytes -> bytes -> bytes -> option bytes).

(** [send] hands one datagram to the newest socket; the wire bytes are the
    second component. *)
Definition send (c : Connection) (now : Z) (o : SendOutcome) (payload : bytes) :
    Connection * mres bytes :=
  let reply := reply_timestamp c now in
  let c := set_saved_timestamp None c in
  let pkt := be_bytes 2 (now16 now) ++ be_bytes 2 reply ++ payload in
  let '(s, r) := encrypt seal (cipher c) pkt in
  let c := set_cipher s c in
  match r with
  | Err e => (c, Err e)
  | Ok wire => (note_send c o, Ok wire)
  end.

(** The timestamps of a datagram that is not older than the newest seen. *)
Definition note_timestamps (c : Connection) (now seq : Z) (plain : bytes) : Connection :=
  let c := set_expected_receiver_seq (seq + 1) c in
  let ts := from_be (take 2 plain) in
  let reply := from_be (take 2 (drop 2 plain)) in
  let c := if ts =? 65535 then c else set_saved_timestamp (Some (ts, now)) c in
  let c :=
    if reply =? 65535 then c
    else
      let r := timestamp_diff (now16 now) reply in
      if r <? 5000 then set_rtt (sample (rtt c) (f64_of_Z r)) c else c in
  set_last_heard (Some now) c.

Definition receive (c : Connection) (now : Z) (wire : bytes) : Connection * option bytes :=
  match decrypt unseal wire with
  | Err _ => (c, None)
  | Ok (direction_seq, plain) =>
      if (Z.land direction_seq DIRECTION_MASK =? 0) || (length plain <? TIMESTAMP_BYTES)%nat then
        (c, None)
      else
        let seq := Z.land direction_seq SEQUENCE_MASK in
        let c := if expected_receiver_seq c <=? seq then note_timestamps c now seq plain else c in
        (c, Some (drop TIMESTAMP_BYTES plain))
  end.
End Cipher.

(** ** Lemmas *)

(** What holds of every connection: it has between one and ten sockets, one
    of three MTUs, and seals as the client. *)
Record conn_inv (c : Connection) : Prop := {
  ci_sockets : (1 <= length (sockets c) <= MAX_SOCKETS)%nat;
  ci_mtu : mtu c = IPV4_MTU \/ mtu c = IPV6_MTU \/ mtu c = DEFAULT_SEND_MTU;
  ci_cipher : to_server (cipher c) = true /\ is_u64 (next_seq (cipher c))
}.

Lemma conn_inv_same c c' : sockets c' = sockets c -> mtu c' = mtu c -> cipher c' = cipher c ->
  conn_inv c -> conn_inv c'.
Proof. intros E1 E2 E3 [? ? ?]. split; rewrite ?E1, ?E2, ?E3; done. Qed.

Lemma hop_port_sockets c sock now :
  let c' := fst (hop_port c (Ok sock) now) in
  mtu c' = mtu c /\ cipher c' = cipher c /\ last (sockets c') = Some sock /\
  length (sockets c') = (if (MAX_SOCKETS <? S (length (sockets c)))%nat then length (sockets c)
                         else S (length (sockets c))).
Proof.
  unfold hop_port. cbn [fst].
  change (sockets (set_last_port_choice now (set_sockets (sockets c ++ [sock]) c)))
    with (sockets c ++ [sock]).
  rewrite length_app, Nat.add_1_r.
  destruct (Nat.ltb_spec MAX_SOCKETS (S (length (sockets c)))) as [H|H]; cbn -[MAX_SOCKETS].
  - destruct (sockets c) as [|x l] eqn:E; [unfold MAX_SOCKETS in H; simpl in H; lia|]. cbn -[MAX_SOCKETS].
    rewrite drop_0. split; [done|]. split; [done|]. split; [apply last_snoc|].
    rewrite length_app. simpl. lia.
  - split; [done|]. split; [done|]. split; [apply last_snoc|]. rewrite length_app. simpl. lia.
Qed.

Lemma open_inv ipv4 sock now : exists c, open ipv4 (Ok sock) now = Ok c /\ conn_inv c.
Proof.
  eexists. split; [reflexivity|]. split; cbn; [unfold MAX_SOCKETS; simpl; lia| |split; [done|by vm_compute]].
  destruct ipv4; auto.
Qed.

Lemma prune_sockets_inv c now : conn_inv c ->
  conn_inv (prune_sockets c now) /\ last (sockets (prune_sockets c now)) = last (sockets c).
Proof.
  intros Hc. unfold prune_sockets. destruct (Nat.ltb_spec 1 (length (sockets c))); [|by simpl].
  destruct (_ <? _); simpl; [|done]. destruct Hc as [Hs Hm Hci]. split.
  - split; cbn; [|done|done]. rewrite length_drop. lia.
  - cbn. destruct (sockets c) as [|x l _] using rev_ind; [done|].
    rewrite length_app, Nat.add_sub, drop_app_length. by rewrite !last_snoc.
Qed.

Lemma maybe_hop_inv c bound now : conn_inv c -> conn_inv (maybe_hop c bound now).
Proof.
  intros Hc. unfold maybe_hop. apply prune_sockets_inv.
  destruct (_ && _); [|done]. destruct bound as [sock|e].
  - destruct (hop_port_sockets c sock now) as (Em & Ec & _ & El).
    destruct (hop_port c (Ok sock) now) as [c' r] eqn:E. assert (r = Ok tt) as ->.
    { unfold hop_port in E. by injection E. }
    simpl in *. destruct Hc as [Hs Hm Hci]. split; rewrite ?Em, ?Ec; [|done|done].
    rewrite El. destruct (Nat.ltb_spec MAX_SOCKETS (S (length (sockets c)))); lia.
  - simpl. by apply (conn_inv_same c).
Qed.

Lemma note_send_inv c o : conn_inv c -> conn_inv (note_send c o).
Proof.
  destruct o; simpl; try (by apply (conn_inv_same c)); try done.
  intros [? ? ?]. split; cbn; auto.
Qed.

Lemma note_timestamps_fields c now seq plain :
  let c' := note_timestamps c now seq plain in
  sockets c' = sockets c /\ mtu c' = mtu c /\ cipher c' = cipher c /\
  expected_receiver_seq c' = seq + 1 /\ last_heard c' = Some now.
Proof. unfold note_timestamps. destruct (_ =? _), (_ =? _); try destruct (_ <? _); done. Qed.

Section CipherFacts.
Context (seal : bytes -> bytes -> option (bytes * bytes))
        (unseal : bytes -> bytes -> bytes -> option bytes).

Lemma send_inv c now o p : conn_inv c -> conn_inv (fst (send seal c now o p)).
Proof.
  intros Hc. unfold send. cbv zeta.
  match goal with |- context [encrypt seal ?s ?m] => destruct (encrypt seal s m) as [s' r] eqn:E end.
  assert (conn_inv (set_cipher s' (set_saved_timestamp None c))) as Hi.
  { pose proof (encrypt_counter seal _ (be_bytes 2 (now16 now) ++ be_bytes 2 (reply_timestamp c now) ++ p)
      (proj2 (ci_cipher c Hc))) as H. cbn [cipher set_saved_timestamp] in E. rewrite E in H.
    destruct Hc as [Hs Hm [Hd _]]. destruct H as (H1 & H2 & _). simpl in H1, H2. split; cbn; [done|done|].
    by rewrite H1. }
  destruct r; simpl; [|done]. by apply note_send_inv.
Qed.

Lemma receive_inv c now w : conn_inv c -> conn_inv (fst (receive unseal c now w)).
Proof.
  intros Hc. unfold receive. destruct (decrypt unseal w) as [[q plain]|]; [|done].
  destruct (_ || _); [done|]. cbv zeta. destruct (_ <=? _); [|done]. simpl.
  destruct (note_timestamps_fields c now (Z.land q SEQUENCE_MASK) plain) as (? & ? & ? & _).
  by apply (conn_inv_same c).
Qed.

(** What a sealed datagram measures. *)
Lemma send_length (seal_len : forall n m body tag, seal n m = Some (body, tag) ->
    length body = length m /\ length tag = 16%nat) c now o p c' w :
  conn_inv c -> send seal c now o p = (c', Ok w) ->
  length w = (length p + TIMESTAMP_BYTES + ADDED_BYTES)%nat.
Proof.
  intros Hc. unfold send. cbv zeta.
  match goal with |- context [encrypt seal ?s ?m] => destruct (encrypt seal s m) as [s' r] eqn:E end.
  destruct r as [w'|]; [|done]. intros [= <- <-].
  apply encrypt_ok in E as (_ & _ & body & tag & Hseal & ->); [|apply (ci_cipher c Hc)].
  apply seal_len in Hseal as [Hb Ht].
  rewrite !length_app in *. rewrite !length_be_bytes in *. unfold TIMESTAMP_BYTES, ADDED_BYTES. lia.
Qed.
End CipherFacts.

Lemma payload_mtu_fits c : conn_inv c ->
  (HEADER_LEN < payload_mtu c)%nat /\ (payload_mtu c + TIMESTAMP_BYTES + ADDED_BYTES <= mtu c)%nat.
Proof.
  intros [_ Hm _]. unfold payload_mtu, TIMESTAMP_BYTES, ADDED_BYTES, HEADER_LEN, IPV4_MTU, IPV6_MTU,
    DEFAULT_SEND_MTU in *. lia.
Qed.
#[export] Hint Resolve send_inv receive_inv maybe_hop_inv : termoso.

(** ** Properties *)

(** a datagram the client itself sealed is never taken for the server's,
    whatever the network does with it: the direction bit rejects it and the
    connection is unchanged. *)
Theorem reflected_datagram_ignored (seal : bytes -> bytes -> option (bytes * bytes))
    (unseal : bytes -> bytes -> bytes -> option bytes) c0 now0 o p c1 w c now :
  conn_inv c0 -> send seal c0 now0 o p = (c1, Ok w) -> receive unseal c now w = (c, None).
Proof.
  intros Hc. unfold send. cbv zeta.
  match goal with |- context [encrypt seal ?s ?m] => destruct (encrypt seal s m) as [s' r] eqn:E end.
  destruct r as [w'|]; [|done]. intros [= _ <-].
  destruct (ci_cipher c0 Hc) as [Hdir Hseq].
  apply encrypt_ok in E as (Hq & _ & body & tag & _ & ->); [|exact Hseq].
  cbn [cipher set_saved_timestamp] in *. unfold receive, decrypt.
  destruct (_ <? ADDED_BYTES)%nat; [done|]. rewrite take_app_len by apply length_be_bytes.
  rewrite from_be_be_bytes by (apply direction_seq_range; unfold in_width in Hseq; lia).
  destruct (unseal _ _ _) as [plain|]; [|done]. cbn [ok_or mbind result_bind].
  unfold direction_seq_of. rewrite Hdir, land_direction by done.
  by rewrite (proj2 (Z.ltb_lt _ _)).
Qed.

Lemma reflected_datagram_ignored_witness :
  match open true (Ok 7%N) 5 with
  | Ok c =>
      match send xor_seal c 10 Sent [1; 2; 3] with
      | (_, Ok w) => receive xor_unseal c 12 w = (c, None)
      | _ => False
      end
  | Err _ => False
  end.
Proof.
  destruct (open_inv true 7%N 5) as (c & E & Hc). rewrite E.
  destruct (send xor_seal c 10 Sent [1; 2; 3]) as [c1 [w|e]] eqn:Es.
  - exact (reflected_datagram_ignored xor_seal xor_unseal c 10 Sent [1; 2; 3] c1 w c 12 Hc Es).
  - vm_compute in E. injection E as <-. by vm_compute in Es.
Defined.

(** timestamps come from fresh datagrams only: a server datagram whose
    counter is older than the newest seen still yields its payload, but leaves
    the round-trip estimate, the reply timestamp and the silence clock alone;
    a fresh one advances the expected counter past its own. *)
Lemma stale_datagram_keeps_clocks (unseal : bytes -> bytes -> bytes -> option bytes)
    c now wire q plain :
  decrypt unseal wire = Ok (q, plain) -> Z.land q DIRECTION_MASK <> 0 ->
  (TIMESTAMP_BYTES <= length plain)%nat ->
  let seq := Z.land q SEQUENCE_MASK in
  let '(c', out) := receive unseal c now wire in
  out = Some (drop TIMESTAMP_BYTES plain) /\
  (seq < expected_receiver_seq c -> c' = c) /\
  (expected_receiver_seq c <= seq ->
     expected_receiver_seq c' = seq + 1 /\ last_heard c' = Some now).
Proof.
  intros Hd Hdir Hlen seq. unfold receive. rewrite Hd, (proj2 (Z.eqb_neq _ _) Hdir).
  rewrite (proj2 (Nat.ltb_ge _ _)) by done. cbn [orb]. fold seq. cbv zeta.
  split; [done|]. split.
  - intros H. by rewrite (proj2 (Z.leb_gt _ _)).
  - intros H. rewrite (proj2 (Z.leb_le _ _)) by done.
    destruct (note_timestamps_fields c now seq plain) as (_ & _ & _ & ? & ?). done.
Qed.

Definition server_hello : bytes :=
  match snd (encrypt xor_seal (mkSession false 9) [0; 200; 255; 255; 42]) with
  | Ok w => w | Err _ => [] end.

Lemma stale_datagram_keeps_clocks_witness :
  let c := Connection_init true 0 in
  let '(c', out) := receive xor_unseal c 77 server_hello in
  out = Some [42] /\ (9 < 0 -> c' = c) /\
  (0 <= 9 -> expected_receiver_seq c' = 10 /\ last_heard c' = Some 77).
Proof.
  apply (stale_datagram_keeps_clocks xor_unseal (Connection_init true 0) 77 server_hello
           (2 ^ 63 + 9) [0; 200; 255; 255; 42]).
  - vm_compute. reflexivity.
  - vm_compute. discriminate.
  - simpl. unfold TIMESTAMP_BYTES. lia.
Defined.

(** Port hopping keeps between one and ten sockets, the newest last:
    [maybe_hop] never leaves the client without a socket to send on, opens one
    only after ten seconds without a fresh port and without a round trip, and
    closes the old ones only when the newest is a minute old. *)
Lemma maybe_hop_sockets c bound now :
  conn_inv c ->
  (1 <= length (sockets (maybe_hop c bound now)) <= 10)%nat /\
  last (sockets (maybe_hop c bound now)) =
    (if (10000 <? sat_sub now (last_port_choice c))
        && (10000 <? sat_sub now (last_roundtrip_success c)) then
       match bound with Ok sock => Some sock | Err _ => last (sockets c) end
     else last (sockets c)) /\
  (now - last_port_choice c <= 10000 -> maybe_hop c bound now = c).
Proof.
  intros Hc. split; [apply (ci_sockets _ (maybe_hop_inv c bound now Hc))|]. split.
  - unfold maybe_hop. unfold PORT_HOP_INTERVAL. destruct (_ && _).
    + destruct bound as [sock|e].
      * destruct (hop_port_sockets c sock now) as (Em & Ec & El & Elen).
        destruct (hop_port c (Ok sock) now) as [c' r] eqn:E. assert (r = Ok tt) as ->
          by (unfold hop_port in E; by injection E).
        simpl in *. rewrite <- El. apply prune_sockets_inv. destruct Hc as [Hs Hm Hci].
        split; rewrite ?Em, ?Ec; [|done|done].
        rewrite Elen. destruct (Nat.ltb_spec MAX_SOCKETS (S (length (sockets c)))); lia.
      * simpl. apply (prune_sockets_inv (set_send_error _ c)). by apply (conn_inv_same c).
    + by apply prune_sockets_inv.
  - intros H. unfold maybe_hop, PORT_HOP_INTERVAL. rewrite (proj2 (Z.ltb_ge 10000 _)) by (unfold sat_sub; lia).
    cbn [andb]. unfold prune_sockets, OLD_SOCKET_AGE. rewrite (proj2 (Z.ltb_ge 60000 _)) by lia.
    by rewrite andb_false_r.
Qed.

Lemma maybe_hop_sockets_witness :
  let c := set_sockets [1; 2; 3; 4; 5; 6; 7; 8; 9; 10]%N (Connection_init false 0) in
  (1 <= length (sockets (maybe_hop c (Ok 11%N) 20000)) <= 10)%nat /\
  last (sockets (maybe_hop c (Ok 11%N) 20000)) = Some 11%N.
Proof.
  cbv zeta.
  destruct (maybe_hop_sockets (set_sockets [1; 2; 3; 4; 5; 6; 7; 8; 9; 10]%N (Connection_init false 0))
    (Ok 11%N) 20000) as (H1 & H2 & _); [|split; [exact H1|exact H2]].
  split; cbn; [unfold MAX_SOCKETS; simpl; lia|auto|split; [done|by vm_compute]].
Defined.
