(* ===== verification/MoshSender.v ===== *)
(** * The transport sender

    [Sender] of [crates/termoso-core/src/mosh/transport.rs]: the log of
    keystrokes and resizes, the states the server may hold, the timers, and
    the instructions that carry the difference.

    The clock value, the random chaff and the outcomes of the system calls of
    one call are its [Env]. Clock arithmetic is on [Z]: a [u64] of
    milliseconds does not overflow. State numbers wrap at 64 bits. A lookup
    that the code expects to succeed ([expect("never empty")], an index)
    defaults to [no_state] here; [sender_inv] shows the default is never
    taken. [Net] pairs the sender with the connection it sends on, with the
    datagrams sent so far and, for the theorems, the instructions offered to
    the fragmenter. *)
From S2P Require Import Prelude MoshProto MoshFragment MoshCrypto MoshRtt MoshConn.

Definition PROTOCOL_VERSION : Z := 2.
Definition SHUTDOWN_NUM : Z := u64_max.
Definition ACK_INTERVAL : Z := 3000.
Definition ACK_DELAY : Z := 100.
Definition SEND_MINDELAY : Z := 8.
Definition SHUTDOWN_RETRIES : Z := 16.
Definition ACTIVE_RETRY_TIMEOUT : Z := 10000.
Definition MAX_SENT_STATES : nat := 32.

Record SentState := mkSent { s_num : Z; timestamp : Z; s_len : nat }.
Definition no_state : SentState := mkSent 0 0 0.

Record Sender := mkSender {
  log : list UserInstruction;
  base : nat;
  sent : list SentState;
  assumed : nat;
  ack_num : Z;
  pending_data_ack : bool;
  next_ack_time : Z;
  next_send_time : option Z;
  mindelay_clock : option Z;
  last_heard : Z;
  shutdown_in_progress : bool;
  shutdown_tries : Z;
  shutdown_start : Z;
  fragmenter : Fragmenter;
  last_ack_sent : Z
}.

(** Field updates. *)
Definition set_log (v : list UserInstruction) (r : Sender) : Sender :=
  mkSender v (base r) (sent r) (assumed r) (ack_num r) (pending_data_ack r) (next_ack_time r)
    (next_send_time r) (mindelay_clock r) (last_heard r) (shutdown_in_progress r) (shutdown_tries
    r) (shutdown_start r) (fragmenter r) (last_ack_sent r).
Definition set_base (v : nat) (r : Sender) : Sender :=
  mkSender (log r) v (sent r) (assumed r) (ack_num r) (pending_data_ack r) (next_ack_time r)
    (next_send_time r) (mindelay_clock r) (last_heard r) (shutdown_in_progress r) (shutdown_tries
    r) (shutdown_start r) (fragmenter r) (last_ack_sent r).
Definition set_sent (v : list SentState) (r : Sender) : Sender :=
  mkSender (log r) (base r) v (assumed r) (ack_num r) (pending_data_ack r) (next_ack_time r)
    (next_send_time r) (mindelay_clock r) (last_heard r) (shutdown_in_progress r) (shutdown_tries
    r) (shutdown_start r) (fragmenter r) (last_ack_sent r).
Definition set_assumed (v : nat) (r : Sender) : Sender :=
  mkSender (log r) (base r) (sent r) v (ack_num r) (pending_data_ack r) (next_ack_time r)
    (next_send_time r) (mindelay_clock r) (last_heard r) (shutdown_in_progress r) (shutdown_tries
    r) (shutdown_start r) (fragmenter r) (last_ack_sent r).
Definition set_ack_num (v : Z) (r : Sender) : Sender :=
  mkSender (log r) (base r) (sent r) (assumed r) v (pending_data_ack r) (next_ack_time r)
    (next_send_time r) (mindelay_clock r) (last_heard r) (shutdown_in_progress r) (shutdown_tries
    r) (shutdown_start r) (fragmenter r) (last_ack_sent r).
Definition set_pending_data_ack (v : bool) (r : Sender) : Sender :=
  mkSender (log r) (base r) (sent r) (assumed r) (ack_num r) v (next_ack_time r) (next_send_time r)
    (mindelay_clock r) (last_heard r) (shutdown_in_progress r) (shutdown_tries r) (shutdown_start
    r) (fragmenter r) (last_ack_sent r).
Definition set_next_ack_time (v : Z) (r : Sender) : Sender :=
  mkSender (log r) (base r) (sent r) (assumed r) (ack_num r) (pending_data_ack r) v (next_send_time
    r) (mindelay_clock r) (last_heard r) (shutdown_in_progress r) (shutdown_tries r)
    (shutdown_start r) (fragmenter r) (last_ack_sent r).
Definition set_next_send_time (v : option Z) (r : Sender) : Sender :=
  mkSender (log r) (base r) (sent r) (assumed r) (ack_num r) (pending_data_ack r) (next_ack_time r)
    v (mindelay_clock r) (last_heard r) (shutdown_in_progress r) (shutdown_tries r) (shutdown_start
    r) (fragmenter r) (last_ack_sent r).
Definition set_mindelay_clock (v : option Z) (r : Sender) : Sender :=
  mkSender (log r) (base r) (sent r) (assumed r) (ack_num r) (pending_data_ack r) (next_ack_time r)
    (next_send_time r) v (last_heard r) (shutdown_in_progress r) (shutdown_tries r) (shutdown_start
    r) (fragmenter r) (last_ack_sent r).
Definition set_last_heard (v : Z) (r : Sender) : Sender :=
  mkSender (log r) (base r) (sent r) (assumed r) (ack_num r) (pending_data_ack r) (next_ack_time r)
    (next_send_time r) (mindelay_clock r) v (shutdown_in_progress r) (shutdown_tries r)
    (shutdown_start r) (fragmenter r) (last_ack_sent r).
Definition set_shutdown_in_progress (v : bool) (r : Sender) : Sender :=
  mkSender (log r) (base r) (sent r) (assumed r) (ack_num r) (pending_data_ack r) (next_ack_time r)
    (next_send_time r) (mindelay_clock r) (last_heard r) v (shutdown_tries r) (shutdown_start r)
    (fragmenter r) (last_ack_sent r).
Definition set_shutdown_tries (v : Z) (r : Sender) : Sender :=
  mkSender (log r) (base r) (sent r) (assumed r) (ack_num r) (pending_data_ack r) (next_ack_time r)
    (next_send_time r) (mindelay_clock r) (last_heard r) (shutdown_in_progress r) v (shutdown_start
    r) (fragmenter r) (last_ack_sent r).
Definition set_shutdown_start (v : Z) (r : Sender) : Sender :=
  mkSender (log r) (base r) (sent r) (assumed r) (ack_num r) (pending_data_ack r) (next_ack_time r)
    (next_send_time r) (mindelay_clock r) (last_heard r) (shutdown_in_progress r) (shutdown_tries
    r) v (fragmenter r) (last_ack_sent r).
Definition set_fragmenter (v : Fragmenter) (r : Sender) : Sender :=
  mkSender (log r) (base r) (sent r) (assumed r) (ack_num r) (pending_data_ack r) (next_ack_time r)
    (next_send_time r) (mindelay_clock r) (last_heard r) (shutdown_in_progress r) (shutdown_tries
    r) (shutdown_start r) v (last_ack_sent r).
Definition set_last_ack_sent (v : Z) (r : Sender) : Sender :=
  mkSender (log r) (base r) (sent r) (assumed r) (ack_num r) (pending_data_ack r) (next_ack_time r)
    (next_send_time r) (mindelay_clock r) (last_heard r) (shutdown_in_progress r) (shutdown_tries
    r) (shutdown_start r) (fragmenter r) v.
Definition Sender_new (now : Z) : Sender :=
  mkSender [] 0 [mkSent 0 now 0] 0 0 false now (Some now) None 0 false 0 0 Fragmenter_new 0.

Definition front (s : Sender) : SentState := default no_state (head (sent s)).
Definition back (s : Sender) : SentState := default no_state (last (sent s)).
Definition sent_at (s : Sender) (i : nat) : SentState := default no_state (sent s !! i).

Definition current_len (s : Sender) : nat := base s + length (log s).

Definition push (i : UserInstruction) (s : Sender) : Sender := set_log (log s ++ [i]) s.

Definition diff_from (s : Sender) (len : nat) : bytes :=
  if (current_len s <=? len)%nat then []
  else encode_user_message (drop (len - base s) (log s)).

(** The loop over [1..sent.len()]; it stops at the first state too old. *)
Fixpoint assume_loop (now rto : Z) (i : nat) (l : list SentState) (acc : nat) : nat :=
  match l with
  | [] => acc
  | st :: l' =>
      if sat_sub now (timestamp st) <? rto + ACK_DELAY then assume_loop now rto (S i) l' i else acc
  end.

Definition update_assumed_receiver_state (now rto : Z) (s : Sender) : Sender :=
  set_assumed (assume_loop now rto 1 (tail (sent s)) 0) s.

Fixpoint rationalize_loop (known base : nat) (log : list UserInstruction) :
    nat * list UserInstruction :=
  match log with
  | [] => (base, [])
  | i :: log' => if (base <? known)%nat then rationalize_loop known (S base) log' else (base, log)
  end.

Definition rationalize_states (s : Sender) : Sender :=
  let '(b, l) := rationalize_loop (s_len (front s)) (base s) (log s) in set_base b (set_log l s).

Definition calculate_timers (now rto send_interval : Z) (s : Sender) : Sender :=
  let s := update_assumed_receiver_state now rto s in
  let s := rationalize_states s in
  let s := if pending_data_ack s && (now + ACK_DELAY <? next_ack_time s) then
             set_next_ack_time (now + ACK_DELAY) s else s in
  let current := current_len s in
  let back := back s in
  let front := front s in
  let assumed := sent_at s (assumed s) in
  let heard_recently := now <? last_heard s + ACTIVE_RETRY_TIMEOUT in
  let s :=
    if negb (current =? s_len back)%nat then
      let md := default now (mindelay_clock s) in
      let s := set_mindelay_clock (Some md) s in
      set_next_send_time (Some (Z.max (md + SEND_MINDELAY) (timestamp back + send_interval))) s
    else if negb (current =? s_len assumed)%nat && heard_recently then
      let t := timestamp back + send_interval in
      let t := match mindelay_clock s with Some md => Z.max t (md + SEND_MINDELAY) | None => t end in
      set_next_send_time (Some t) s
    else if negb (current =? s_len front)%nat && heard_recently then
      set_next_send_time (Some (timestamp back + rto + ACK_DELAY)) s
    else set_next_send_time None s in
  if shutdown_in_progress s || (ack_num s =? SHUTDOWN_NUM) then
    set_next_ack_time (timestamp back + send_interval) s
  else s.

Definition wait_time (now rto send_interval : Z) (s : Sender) : Sender * Z :=
  let s := calculate_timers now rto send_interval s in
  let wake := match next_send_time s with
              | Some t => Z.min (next_ack_time s) t | None => next_ack_time s end in
  (s, sat_sub wake now).

(** [VecDeque::remove]. *)
Definition remove_at {A} (i : nat) (l : list A) : list A := take i l ++ drop (S i) l.

Definition add_sent_state (ts num : Z) (len : nat) (s : Sender) : Sender :=
  let s := set_sent (sent s ++ [mkSent num ts len]) s in
  if (MAX_SENT_STATES <? length (sent s))%nat then
    let s := set_sent (remove_at (length (sent s) - 16) (sent s)) s in
    set_assumed (Nat.min (assumed s) (length (sent s) - 1)) s
  else s.

Fixpoint pop_older (ack : Z) (l : list SentState) : list SentState :=
  match l with
  | st :: l' => if s_num st <? ack then pop_older ack l' else l
  | [] => []
  end.

Definition process_acknowledgment_through (ack : Z) (s : Sender) : Sender :=
  if existsb (fun st => s_num st =? ack) (sent s) then
    let s := set_sent (pop_older ack (sent s)) s in
    set_assumed (Nat.min (assumed s) (length (sent s) - 1)) s
  else s.

Definition acked_timestamp (s : Sender) : Z := timestamp (front s).

Definition start_shutdown (now : Z) (s : Sender) : Sender :=
  if shutdown_in_progress s then s
  else set_shutdown_start now (set_shutdown_in_progress true s).

Definition shutdown_acknowledged (s : Sender) : bool := s_num (front s) =? SHUTDOWN_NUM.

Definition shutdown_ack_timed_out (now : Z) (s : Sender) : bool :=
  shutdown_in_progress s
  && ((SHUTDOWN_RETRIES <=? shutdown_tries s)
      || (ACTIVE_RETRY_TIMEOUT <=? sat_sub now (shutdown_start s))).

Definition counterparty_shutdown_ack_sent (s : Sender) : bool := last_ack_sent s =? SHUTDOWN_NUM.

(** ** Sending *)

(** The instruction of [send_in_fragments], from the state it is built in. *)
Definition instruction_for (s : Sender) (chaff diff : bytes) (new_num : Z) : Instruction :=
  mkInst PROTOCOL_VERSION (s_num (sent_at s (assumed s))) new_num (ack_num s) (s_num (front s)) diff chaff.

Record Env := mkEnv { now : Z; env_chaff : bytes; net : nat -> SendOutcome }.

Record Net := mkNet {
  sender : Sender;
  conn : Connection;
  wires : list bytes;
  offered : list Instruction
}.

(** [Result]-returning methods on the pair of mutable borrows: an early
    return keeps what was done before it. *)
Definition act : Type := Net -> Net * mres unit.
Definition skip : act := fun n => (n, Ok tt).
Definition upd (f : Sender -> Sender) : act :=
  fun n => (mkNet (f (sender n)) (conn n) (wires n) (offered n), Ok tt).
Definition andthen (a b : act) : act :=
  fun n => let '(n, r) := a n in match r with Ok _ => b n | Err e => (n, Err e) end.
Infix ";;;" := andthen (at level 100, right associativity).

Section Transport.
Context (seal : bytes -> bytes -> option (bytes * bytes))
        (zlib_compress : bytes -> option bytes).

(** The loop of [conn.send] over the fragments. *)
Fixpoint send_frags (env : Env) (i : nat) (frags : list Fragment) : act :=
  match frags with
  | [] => skip
  | f :: frags' =>
      (fun n =>
         let '(c, r) := send seal (conn n) (now env) (net env i) (to_wire f) in
         match r with
         | Ok w => (mkNet (sender n) c (wires n ++ [w]) (offered n), Ok tt)
         | Err e => (mkNet (sender n) c (wires n) (offered n), Err e)
         end) ;;; send_frags env (S i) frags'
  end.

Definition send_in_fragments (env : Env) (diff : bytes) (new_num : Z) : act := fun n =>
  let s := sender n in
  let inst := instruction_for s (env_chaff env) diff new_num in
  let s := if new_num =? SHUTDOWN_NUM then set_shutdown_tries (shutdown_tries s + 1) s else s in
  let s := set_last_ack_sent (MoshProto.ack_num inst) s in
  let '(fr, r) := make zlib_compress (fragmenter s) inst (payload_mtu (conn n)) in
  let s := set_fragmenter fr s in
  let n := mkNet s (conn n) (wires n) (offered n ++ [inst]) in
  match r with
  | Err e => (n, Err e)
  | Ok frags => send_frags env 0 frags n
  end.

Definition send_empty_ack (env : Env) : act := fun n =>
  let s := sender n in
  let new_num := if shutdown_in_progress s then SHUTDOWN_NUM else wrap64 (s_num (back s) + 1) in
  (upd (add_sent_state (now env) new_num (current_len s)) ;;;
   send_in_fragments env [] new_num ;;;
   upd (fun s => set_next_send_time None (set_next_ack_time (now env + ACK_INTERVAL) s))) n.

(** [self.sent.back_mut().timestamp = now]. *)
Definition touch_back (ts : Z) (s : Sender) : Sender :=
  match last (sent s) with
  | Some st => set_sent (take (length (sent s) - 1) (sent s) ++ [mkSent (s_num st) ts (s_len st)]) s
  | None => s
  end.

Definition send_to_receiver (env : Env) (diff : bytes) : act := fun n =>
  let s := sender n in
  let back := back s in
  let current := current_len s in
  let new_num := if (current =? s_len back)%nat then s_num back else wrap64 (s_num back + 1) in
  let new_num := if shutdown_in_progress s then SHUTDOWN_NUM else new_num in
  ((if new_num =? s_num back then upd (touch_back (now env))
    else upd (add_sent_state (now env) new_num current)) ;;;
   send_in_fragments env diff new_num ;;;
   upd (fun s => set_next_send_time None (set_next_ack_time (now env + ACK_INTERVAL)
                   (set_assumed (length (sent s) - 1) s)))) n.

Definition tick (env : Env) : act := fun n =>
  let s := calculate_timers (now env) (timeout (rtt (conn n))) (send_interval (rtt (conn n))) (sender n) in
  let n := mkNet s (conn n) (wires n) (offered n) in
  let send_due := match next_send_time s with Some t => t <=? now env | None => false end in
  if (now env <? next_ack_time s) && negb send_due then (n, Ok tt)
  else
    let diff := diff_from s (s_len (sent_at s (assumed s))) in
    match diff with
    | [] =>
        ((if next_ack_time s <=? now env then
            send_empty_ack env ;;; upd (set_mindelay_clock None) else skip) ;;;
         (if send_due then
            upd (fun s => set_mindelay_clock None (set_next_send_time None s)) else skip)) n
    | _ =>
        if send_due || (next_ack_time s <=? now env) then
          (send_to_receiver env diff ;;; upd (set_mindelay_clock None)) n
        else (n, Ok tt)
    end.
End Transport.

(** ** Runs

    What happens to a sender over its life: input is pushed, the server's
    numbers arrive, time passes, the terminal closes. *)
Inductive SenderEvent : Type :=
| Pushed (i : UserInstruction)
| Acked (ack : Z)
| Heard (num now : Z) (had_diff : bool)
| Measured (r : Z)
| Waited (now : Z)
| Ticked (env : Env)
| ClosedAt (now : Z).

Definition heard (num now : Z) (had_diff : bool) (s : Sender) : Sender :=
  let s := if had_diff then set_pending_data_ack true s else s in
  set_last_heard now (set_ack_num num s).

Section Run.
Context (seal : bytes -> bytes -> option (bytes * bytes))
        (zlib_compress : bytes -> option bytes).

Definition sender_event (n : Net) (e : SenderEvent) : Net :=
  match e with
  | Pushed i => fst (upd (push i) n)
  | Acked ack => fst (upd (process_acknowledgment_through ack) n)
  | Heard num now d => fst (upd (heard num now d) n)
  | Measured r => mkNet (sender n) (set_rtt (sample (rtt (conn n)) (f64_of_Z r)) (conn n)) (wires n) (offered n)
  | Waited now =>
      fst (upd (fun s => fst (wait_time now (timeout (rtt (conn n))) (send_interval (rtt (conn n))) s)) n)
  | Ticked env => fst (tick seal zlib_compress env n)
  | ClosedAt now => fst (upd (start_shutdown now) n)
  end.

Definition sender_run (n : Net) (es : list SenderEvent) : Net := fold_left sender_event es n.
End Run.

Definition pushed (es : list SenderEvent) : list UserInstruction :=
  omap (fun e => match e with Pushed i => Some i | _ => None end) es.

(** ** The invariant

    [H] is everything that was ever pushed. The log is what follows [base];
    every state the server may hold is a prefix of [H] no shorter than
    [base], later states are longer, and there are between one and 32. *)
Record sender_inv (H : list UserInstruction) (s : Sender) : Prop := {
  si_log : log s = drop (base s) H;
  si_base : (base s <= length H)%nat;
  si_sent : (1 <= length (sent s) <= MAX_SENT_STATES)%nat;
  si_assumed : (assumed s < length (sent s))%nat;
  si_lens : StronglySorted le (map s_len (sent s));
  si_le : Forall (fun st => (base s <= s_len st <= length H)%nat) (sent s)
}.

Lemma sender_inv_new t : sender_inv [] (Sender_new t).
Proof.
  split; simpl; unfold MAX_SENT_STATES; repeat constructor; simpl; lia.
Qed.

(** Operations that leave the log and the states alone. *)
Lemma sender_inv_same H s s' :
  log s' = log s -> base s' = base s -> sent s' = sent s -> assumed s' = assumed s ->
  sender_inv H s -> sender_inv H s'.
Proof. intros E1 E2 E3 E4 [? ? ? ? ? ?]. split; rewrite ?E1, ?E2, ?E3, ?E4; done. Qed.

Lemma current_len_inv H s : sender_inv H s -> current_len s = length H.
Proof. intros [Hl Hb _ _ _ _]. unfold current_len. rewrite Hl, length_drop. lia. Qed.

Lemma sent_at_elem H s i : sender_inv H s -> (i < length (sent s))%nat -> sent_at s i ∈ sent s.
Proof.
  intros _ [st E]%lookup_lt_is_Some. unfold sent_at. rewrite E. by eapply list_elem_of_lookup_2.
Qed.

Lemma assumed_elem H s : sender_inv H s -> sent_at s (assumed s) ∈ sent s.
Proof. intros Hi. eapply sent_at_elem; [done|]. apply (si_assumed H s Hi). Qed.

Lemma front_elem H s : sender_inv H s -> front s ∈ sent s.
Proof.
  intros [_ _ Hs _ _ _]. unfold front. destruct (sent s) as [|st l]; simpl in *; [lia|]. left.
Qed.

Lemma back_elem H s : sender_inv H s -> back s ∈ sent s.
Proof.
  intros [_ _ Hs _ _ _]. unfold back. destruct (sent s) as [|st l _] using rev_ind; simpl in *; [lia|].
  rewrite last_snoc. simpl. apply elem_of_app. right. left.
Qed.

Lemma sent_len H s st : sender_inv H s -> st ∈ sent s -> (base s <= s_len st <= length H)%nat.
Proof. intros Hi. pose proof (si_le H s Hi) as HF. rewrite Forall_forall in HF. apply HF. Qed.

(** The difference from any state the server may hold is what was pushed
    after it. *)
Lemma diff_from_inv H s st : sender_inv H s -> st ∈ sent s ->
  diff_from s (s_len st) = encode_user_message (drop (s_len st) H).
Proof.
  intros Hi Hst. pose proof (sent_len H s st Hi Hst) as Hlen. unfold diff_from.
  rewrite (current_len_inv H s Hi). destruct (Nat.leb_spec (length H) (s_len st)).
  - by rewrite drop_ge by lia.
  - rewrite (si_log H s Hi), drop_drop. do 2 f_equal. lia.
Qed.

Lemma assume_loop_lt now rto l : forall i acc n, (acc < n)%nat -> (i + length l <= n)%nat ->
  (assume_loop now rto i l acc < n)%nat.
Proof.
  induction l as [|st l IH]; intros i acc n Ha Hi; simpl; [done|]. simpl in Hi.
  destruct (_ <? _); [apply IH; lia|done].
Qed.

Lemma update_assumed_inv H now rto s : sender_inv H s ->
  sender_inv H (update_assumed_receiver_state now rto s).
Proof.
  intros [? ? Hs ? ? ?]. split; cbn; try done. apply assume_loop_lt; [lia|].
  destruct (sent s); simpl in *; lia.
Qed.

Lemma rationalize_loop_spec known H : forall b, (b <= length H)%nat ->
  rationalize_loop known b (drop b H)
  = (Nat.max b (Nat.min known (length H)), drop (Nat.max b (Nat.min known (length H))) H).
Proof.
  intros b Hb. remember (drop b H) as l eqn:E. revert b Hb E.
  induction l as [|i l IH]; intros b Hb E; simpl.
  - assert (length H <= b)%nat as Hle by (apply (f_equal length) in E; rewrite length_drop in E; simpl in E; lia).
    replace (Nat.max b (Nat.min known (length H))) with b by lia. by rewrite <- E.
  - assert (b < length H)%nat as Hlt by (apply (f_equal length) in E; rewrite length_drop in E; simpl in E; lia).
    destruct (Nat.ltb_spec b known).
    + rewrite (IH (S b)).
      * by replace (Nat.max (S b) _) with (Nat.max b (Nat.min known (length H))) by lia.
      * lia.
      * apply (f_equal (drop 1)) in E. rewrite drop_drop, Nat.add_1_r in E. by rewrite <- E.
    + replace (Nat.max b (Nat.min known (length H))) with b by lia. by rewrite <- E.
Qed.

Lemma rationalize_inv H s : sender_inv H s -> sender_inv H (rationalize_states s).
Proof.
  intros Hi. unfold rationalize_states. rewrite (si_log H s Hi).
  rewrite rationalize_loop_spec by apply (si_base H s Hi).
  pose proof (sent_len H s _ Hi (front_elem H s Hi)) as Hf.
  set (b := Nat.max _ _). assert (b = s_len (front s)) as -> by lia.
  destruct Hi as [Hl Hb Hs Ha Hsort Hle]. split; cbn; try done; try lia.
  apply Forall_forall. intros st Hst. rewrite Forall_forall in Hle. specialize (Hle st Hst).
  split; [|lia]. unfold front. destruct (sent s) as [|st0 l]; [by apply elem_of_nil in Hst|]. simpl in *.
  apply elem_of_cons in Hst as [->|Hst]; [done|]. apply StronglySorted_inv in Hsort as [_ Hall].
  rewrite Forall_forall in Hall. apply Hall. by apply list_elem_of_fmap_2.
Qed.

Lemma push_inv H i s : sender_inv H s -> sender_inv (H ++ [i]) (push i s).
Proof.
  intros [Hl Hb Hs Ha Hsort Hle]. split; cbn; rewrite ?length_app; try done; try lia.
  - by rewrite drop_app_le, Hl by lia.
  - eapply Forall_impl; [exact Hle|]. simpl. lia.
Qed.

(** Forgetting some of the states. *)
Lemma sent_sublist_inv H s l a : sender_inv H s -> l `sublist_of` sent s -> (a < length l)%nat ->
  sender_inv H (set_assumed a (set_sent l s)).
Proof.
  intros [Hl Hb Hs Ha Hsort Hle] Hsub Hlt. pose proof (sublist_length _ _ Hsub) as Hlen.
  split; cbn; try done; try lia.
  - eapply StronglySorted_sublist; [|exact Hsort]. by apply sublist_map.
  - rewrite Forall_forall in *. intros st Hst. apply Hle. by eapply sublist_elem.
Qed.

Lemma pop_older_sublist ack l : pop_older ack l `sublist_of` l.
Proof. induction l as [|st l IH]; simpl; [done|]. destruct (_ <? _); [by constructor|done]. Qed.

Lemma pop_older_not_nil ack l : existsb (fun st => s_num st =? ack) l = true ->
  (0 < length (pop_older ack l))%nat.
Proof.
  induction l as [|st l IH]; simpl; [done|]. intros [E%Z.eqb_eq|E]%orb_true_iff.
  - rewrite (proj2 (Z.ltb_ge _ _)) by lia. simpl. lia.
  - destruct (_ <? _); [by apply IH|simpl; lia].
Qed.

Lemma process_ack_inv H ack s : sender_inv H s ->
  sender_inv H (process_acknowledgment_through ack s).
Proof.
  intros Hi. unfold process_acknowledgment_through. destruct (existsb _ _) eqn:E; [|done].
  apply sent_sublist_inv; [done|apply pop_older_sublist|]. cbn.
  pose proof (pop_older_not_nil ack _ E). lia.
Qed.

Lemma remove_at_sublist {A} i (l : list A) : remove_at i l `sublist_of` l.
Proof.
  unfold remove_at. rewrite <- (take_drop i l) at 3. apply sublist_app; [done|].
  rewrite <- Nat.add_1_r, <- drop_drop. apply sublist_drop.
Qed.

Lemma remove_at_length {A} i (l : list A) : (i < length l)%nat ->
  length (remove_at i l) = (length l - 1)%nat.
Proof. intros. unfold remove_at. rewrite length_app, length_take, length_drop. lia. Qed.

Lemma add_sent_state_inv H ts num s : sender_inv H s ->
  sender_inv H (add_sent_state ts num (current_len s) s) .
Proof.
  intros Hi. rewrite (current_len_inv H s Hi). pose proof Hi as [Hl Hb Hs Ha Hsort Hle].
  unfold add_sent_state. cbv zeta. cbn [sent set_sent assumed].
  set (l := sent s ++ [mkSent num ts (length H)]).
  assert (length l = S (length (sent s))) as Hlen by (unfold l; rewrite length_app; simpl; lia).
  assert (StronglySorted le (map s_len l) /\
          Forall (fun st => (base s <= s_len st <= length H)%nat) l) as [Hsort' Hle'].
  { unfold l. split.
    - rewrite map_app. apply StronglySorted_app_2; [|done|repeat constructor].
      intros x y Hx ->%list_elem_of_singleton. apply list_elem_of_fmap in Hx as (st & -> & Hst).
      rewrite Forall_forall in Hle. by apply Hle.
    - apply Forall_app. split; [done|]. repeat constructor; simpl; lia. }
  destruct (Nat.ltb_spec MAX_SENT_STATES (length l)) as [Hgt|].
  - assert (length (remove_at (length l - 16) l) = length l - 1)%nat as Hr
      by (apply remove_at_length; lia).
    split; cbn; rewrite ?Hr; try done; try lia.
    + eapply StronglySorted_sublist; [|exact Hsort']. apply sublist_map, remove_at_sublist.
    + rewrite Forall_forall in *. intros st Hst. apply Hle'.
      eapply sublist_elem; [apply remove_at_sublist|done].
  - split; cbn; try done; lia.
Qed.

Lemma touch_back_inv H ts s : sender_inv H s -> sender_inv H (touch_back ts s).
Proof.
  intros Hi. unfold touch_back. destruct Hi as [Hl Hb Hs Ha Hsort Hle].
  destruct (sent s) as [|st l _] eqn:E using rev_ind; [simpl in Hs; lia|].
  rewrite last_snoc, length_app. simpl length. rewrite Nat.add_sub, take_app_length.
  rewrite length_app in Hs, Ha. simpl in Hs, Ha. rewrite map_app in Hsort.
  apply Forall_app in Hle as [Hle1 Hle2].
  split; cbn; rewrite ?length_app; simpl; try done; try lia.
  - by rewrite map_app.
  - apply Forall_app. split; [done|]. by rewrite Forall_singleton in *.
Qed.

(** What [calculate_timers] does to the log and the states. *)
Lemma calculate_timers_core now rto si s :
  let s' := rationalize_states (update_assumed_receiver_state now rto s) in
  let s'' := calculate_timers now rto si s in
  log s'' = log s' /\ base s'' = base s' /\ sent s'' = sent s' /\ assumed s'' = assumed s' /\
  ack_num s'' = ack_num s' /\ shutdown_in_progress s'' = shutdown_in_progress s'.
Proof.
  unfold calculate_timers. cbv zeta.
  generalize (rationalize_states (update_assumed_receiver_state now rto s)). clear s. intros s.
  set (s1 := if pending_data_ack s && _ then _ else s).
  assert (log s1 = log s /\ base s1 = base s /\ sent s1 = sent s /\ assumed s1 = assumed s /\
          ack_num s1 = ack_num s /\ shutdown_in_progress s1 = shutdown_in_progress s)
    as (E1 & E2 & E3 & E4 & E5 & E6) by (unfold s1; by destruct (_ && _)).
  rewrite <- E1, <- E2, <- E3, <- E4, <- E5, <- E6. generalize s1. clear. intros s.
  destruct (negb _); [|destruct (negb _ && _); [|destruct (negb _ && _)]];
    cbn [shutdown_in_progress ack_num set_next_send_time set_mindelay_clock];
    destruct (_ || _); done.
Qed.

Lemma calculate_timers_inv H now rto si s : sender_inv H s ->
  sender_inv H (calculate_timers now rto si s).
Proof.
  intros Hi. destruct (calculate_timers_core now rto si s) as (E1 & E2 & E3 & E4 & _).
  eapply sender_inv_same; [exact E1|exact E2|exact E3|exact E4|].
  by apply rationalize_inv, update_assumed_inv.
Qed.
#[export] Hint Resolve calculate_timers_inv touch_back_inv add_sent_state_inv process_ack_inv : termoso.

(** ** Actions *)

#[local] Opaque to_wire.

Definition net_inv (H : list UserInstruction) (n : Net) : Prop :=
  sender_inv H (sender n) /\ conn_inv (conn n).

Definition keeps (H : list UserInstruction) (a : act) : Prop :=
  forall n, net_inv H n -> net_inv H (fst (a n)).

(** The states and the log, which the network does not touch. *)
Definition same_states (s s' : Sender) : Prop :=
  log s' = log s /\ base s' = base s /\ sent s' = sent s /\ assumed s' = assumed s.

Lemma same_states_inv H s s' : same_states s s' -> sender_inv H s -> sender_inv H s'.
Proof. intros (? & ? & ? & ?). by apply sender_inv_same. Qed.

Lemma keeps_andthen H a b : keeps H a -> keeps H b -> keeps H (a ;;; b).
Proof.
  intros Ha Hb n Hn. unfold andthen. specialize (Ha n Hn).
  destruct (a n) as [n' [u|e]]; simpl in *; [by apply Hb|done].
Qed.

Lemma keeps_upd H f : (forall s, sender_inv H s -> sender_inv H (f s)) -> keeps H (upd f).
Proof. intros Hf n [Hs Hc]. split; simpl; auto. Qed.

Lemma keeps_skip H : keeps H skip.
Proof. by intros n Hn. Qed.

Lemma sender_keeps_if H (b : bool) a a' : keeps H a -> keeps H a' -> keeps H (if b then a else a').
Proof. by destruct b. Qed.
#[export] Hint Resolve keeps_andthen keeps_upd keeps_skip sender_keeps_if : termoso.

Section Transport.
Context (seal : bytes -> bytes -> option (bytes * bytes))
        (zlib_compress : bytes -> option bytes).

(** Sending fragments moves the connection only, and adds datagrams. *)
Lemma send_frags_spec env frags : forall i n, conn_inv (conn n) ->
  let n' := fst (send_frags seal env i frags n) in
  sender n' = sender n /\ offered n' = offered n /\ conn_inv (conn n') /\
  exists ws, wires n' = wires n ++ ws /\
    ((forall k m body tag, seal k m = Some (body, tag) -> length body = length m /\ length tag = 16%nat) ->
     Forall (fun w => exists f, f ∈ frags /\
       length w = (length (to_wire f) + TIMESTAMP_BYTES + ADDED_BYTES)%nat) ws).
Proof.
  induction frags as [|f frags IH]; intros i n Hc; simpl.
  - split; [done|]. split; [done|]. split; [done|]. exists []. by rewrite app_nil_r.
  - unfold andthen. pose proof (send_inv seal (conn n) (now env) (net env i) (to_wire f) Hc) as Hc'.
    destruct (send seal (conn n) (now env) (net env i) (to_wire f)) as [c [w|e]] eqn:E; simpl in *.
    + destruct (IH (S i) (mkNet (sender n) c (wires n ++ [w]) (offered n)) Hc')
        as (E1 & E2 & Hc'' & ws & E3 & HF).
      split; [done|]. split; [done|]. split; [done|]. exists (w :: ws). split.
      * rewrite E3. simpl. by rewrite <- app_assoc.
      * intros Hlen. constructor.
        { exists f. split; [by left|]. eapply send_length; [exact Hlen|exact Hc|exact E]. }
        eapply Forall_impl; [by apply HF|]. simpl. intros w' (f' & Hf' & ?). exists f'. split; [by right|done].
    + split; [done|]. split; [done|]. split; [done|]. exists []. by rewrite app_nil_r.
Qed.

Lemma send_in_fragments_spec env d num n : conn_inv (conn n) ->
  let n' := fst (send_in_fragments seal zlib_compress env d num n) in
  same_states (sender n) (sender n') /\
  offered n' = offered n ++ [instruction_for (sender n) (env_chaff env) d num] /\
  shutdown_in_progress (sender n') = shutdown_in_progress (sender n) /\
  conn_inv (conn n').
Proof.
  intros Hc. unfold send_in_fragments. cbv zeta.
  destruct (make _ _ _ _) as [fr r]. destruct r as [frags|e].
  - match goal with |- context [send_frags seal env 0 frags ?n0] =>
      destruct (send_frags_spec env frags 0 n0 Hc) as (-> & -> & Hc' & _) end.
    simpl. by destruct (num =? SHUTDOWN_NUM).
  - simpl. by destruct (num =? SHUTDOWN_NUM).
Qed.

Lemma send_in_fragments_keeps H env d num : keeps H (send_in_fragments seal zlib_compress env d num).
Proof.
  intros n [Hs Hc]. destruct (send_in_fragments_spec env d num n Hc) as (E & _ & _ & Hc').
  split; [|done]. by eapply same_states_inv.
Qed.

Lemma tail_keeps H (f : Sender -> Sender) :
  (forall s, same_states s (f s)) -> keeps H (upd f).
Proof. intros Hf. apply keeps_upd. intros s. by apply same_states_inv. Qed.

Lemma send_empty_ack_keeps H env : keeps H (send_empty_ack seal zlib_compress env).
Proof.
  intros n Hn. unfold send_empty_ack. cbv zeta.
  unfold andthen at 1. simpl.
  apply keeps_andthen; [apply send_in_fragments_keeps|by apply tail_keeps|].
  destruct Hn as [Hs Hc]. split; simpl; [by apply add_sent_state_inv|done].
Qed.

Lemma send_to_receiver_keeps H env d : keeps H (send_to_receiver seal zlib_compress env d).
Proof.
  intros n Hn. unfold send_to_receiver. cbv zeta.
  set (num := if shutdown_in_progress _ then _ else _).
  set (a := if num =? _ then _ else _).
  assert (net_inv H (fst (a n)) /\ snd (a n) = Ok tt) as [H1 Hr].
  { destruct Hn as [Hs Hc]. unfold a. destruct (num =? _); (split; [|done]);
      split; simpl; auto with termoso. }
  unfold andthen at 1. destruct (a n) as [n1 r]. simpl in H1, Hr. subst r.
  apply keeps_andthen; [apply send_in_fragments_keeps| |done].
  apply keeps_upd. intros s [? ? ? ? ? ?]. split; cbn; try done. lia.
Qed.

Lemma tick_keeps H env : keeps H (tick seal zlib_compress env).
Proof.
  intros n [Hs Hc]. unfold tick. cbv zeta.
  set (s := calculate_timers _ _ _ _). assert (net_inv H (mkNet s (conn n) (wires n) (offered n))) as Hn
    by (split; [by apply calculate_timers_inv|done]).
  revert Hn. generalize (mkNet s (conn n) (wires n) (offered n)). intros n' Hn.
  destruct (_ && _); [done|]. destruct (diff_from _ _) as [|x d].
  - apply keeps_andthen; [apply sender_keeps_if; [apply keeps_andthen|]|apply sender_keeps_if|done];
      try apply keeps_skip; try apply send_empty_ack_keeps; by apply tail_keeps.
  - destruct (_ || _); [|done]. apply keeps_andthen; [apply send_to_receiver_keeps|by apply tail_keeps|done].
Qed.

Lemma sender_event_keeps H n e : net_inv H n ->
  net_inv (H ++ pushed [e]) (sender_event seal zlib_compress n e).
Proof.
  intros Hn. destruct e; simpl; rewrite ?app_nil_r.
  - destruct Hn as [Hs Hc]. split; [by apply push_inv|done].
  - apply keeps_upd; [intros; by apply process_ack_inv|done].
  - apply tail_keeps; [|done]. intros s. unfold heard. by destruct had_diff.
  - destruct Hn as [Hs Hc]. split; [done|]. by apply (conn_inv_same (conn n)).
  - apply keeps_upd; [|done]. intros s Hs. unfold wait_time. simpl. by apply calculate_timers_inv.
  - by apply tick_keeps.
  - apply tail_keeps; [|done]. intros s. unfold start_shutdown. by destruct (shutdown_in_progress s).
Qed.

Lemma sender_run_keeps es : forall H n, net_inv H n ->
  net_inv (H ++ pushed es) (sender_run seal zlib_compress n es).
Proof.
  induction es as [|e es IH]; intros H n Hn; [by rewrite app_nil_r|].
  change (pushed (e :: es)) with (pushed ([e] ++ es)).
  unfold pushed. rewrite omap_app. fold (pushed [e]) (pushed es). rewrite app_assoc. simpl.
  apply IH. by apply sender_event_keeps.
Qed.
End Transport.

(** ** What one tick offers *)

Section Tick.
Context (seal : bytes -> bytes -> option (bytes * bytes))
        (zlib_compress : bytes -> option bytes).

(** Appending a state leaves the index of an assumed state meaningful when
    nothing is evicted before it. *)
Lemma add_sent_state_at H ts num s i : sender_inv H s -> (i < length (sent s))%nat ->
  (length (sent s) < MAX_SENT_STATES \/ i < 17)%nat ->
  let s' := add_sent_state ts num (current_len s) s in
  sent_at s' i = sent_at s i /\ (i = assumed s -> assumed s' = assumed s) /\
  front s' = front s /\ back s' = mkSent num ts (length H) /\
  shutdown_in_progress s' = shutdown_in_progress s /\ ack_num s' = ack_num s.
Proof.
  intros Hi Hlt Hor. rewrite (current_len_inv H s Hi). pose proof (si_sent H s Hi) as Hs.
  unfold add_sent_state, sent_at, front, back, remove_at. cbn [sent set_sent assumed].
  set (x := mkSent num ts (length H)). rewrite length_app. simpl length.
  destruct (Nat.ltb_spec MAX_SENT_STATES (length (sent s) + 1)) as [Hgt|Hle]; cbn [sent set_assumed set_sent assumed shutdown_in_progress ack_num].
  - assert (length (sent s) = MAX_SENT_STATES) as E by lia. unfold MAX_SENT_STATES in *. rewrite E.
    change (32 + 1 - 16)%nat with 17%nat. change (S 17) with 18%nat.
    rewrite take_app_le, drop_app_le by lia.
    assert (i < 17)%nat as H17 by lia.
    split; [by rewrite lookup_app_l, lookup_take_lt by (rewrite ?length_take; lia)|].
    split; [intros; rewrite !length_app, length_take, length_drop; cbn [length]; lia|].
    split; [destruct (sent s); [simpl in *; lia|done]|]. split; [by rewrite app_assoc, last_snoc|done].
  - split; [by rewrite lookup_app_l|]. split; [done|]. split; [destruct (sent s); [simpl in *; lia|done]|].
    split; [by rewrite last_snoc|done].
Qed.

Lemma touch_back_at H ts s i : sender_inv H s ->
  s_num (sent_at (touch_back ts s) i) = s_num (sent_at s i) /\
  s_len (sent_at (touch_back ts s) i) = s_len (sent_at s i) /\
  assumed (touch_back ts s) = assumed s /\
  s_num (front (touch_back ts s)) = s_num (front s) /\
  back (touch_back ts s) = mkSent (s_num (back s)) ts (s_len (back s)) /\
  shutdown_in_progress (touch_back ts s) = shutdown_in_progress s /\
  ack_num (touch_back ts s) = ack_num s.
Proof.
  intros [_ _ Hs _ _ _]. unfold touch_back, sent_at, front, back.
  destruct (sent s) as [|st l _] eqn:E using rev_ind; [simpl in Hs; lia|].
  rewrite last_snoc, length_app. simpl length. rewrite Nat.add_sub, take_app_length. cbn [sent set_sent].
  rewrite last_snoc. assert (forall x y : SentState, s_num x = s_num y -> s_len x = s_len y ->
    s_num (default no_state ((l ++ [x]) !! i)) = s_num (default no_state ((l ++ [y]) !! i)) /\
    s_len (default no_state ((l ++ [x]) !! i)) = s_len (default no_state ((l ++ [y]) !! i))) as Hx.
  { intros x y Ex Ey. destruct (decide (i < length l)%nat); [by rewrite !lookup_app_l by done|].
    rewrite !lookup_app_r by lia. by destruct (i - length l)%nat. }
  destruct (Hx (mkSent (s_num st) ts (s_len st)) st eq_refl eq_refl) as [-> ->].
  split; [done|]. split; [done|]. split; [done|]. split; [by destruct l|done].
Qed.

(** The offer of one call: an instruction that carries the difference between
    a state named by [old_num] and the log, and a new last state for it. *)
Definition exact_offer (H : list UserInstruction) (n : Net) (n' : Net) : Prop :=
  exists inst st, offered n' = offered n ++ [inst] /\ st ∈ sent (sender n) /\
    old_num inst = s_num st /\ throwaway_num inst = s_num (front (sender n)) /\
    MoshProto.ack_num inst = ack_num (sender n) /\
    diff inst = encode_user_message (drop (s_len st) H) /\
    new_num inst = s_num (back (sender n')) /\ s_len (back (sender n')) = length H.

(** The last updates of a call change neither the states nor the offer. *)
Lemma andthen_upd_same (a : act) f n : (forall s, sent (f s) = sent s) ->
  offered (fst ((a ;;; upd f) n)) = offered (fst (a n)) /\
  sent (sender (fst ((a ;;; upd f) n))) = sent (sender (fst (a n))).
Proof. intros Hf. unfold andthen. destruct (a n) as [n' [u|e]]; simpl; by rewrite ?Hf. Qed.

Lemma exact_offer_same H n n1 n2 : offered n2 = offered n1 -> sent (sender n2) = sent (sender n1) ->
  exact_offer H n n1 -> exact_offer H n n2.
Proof. intros E1 E2 (inst & st & ?). exists inst, st. unfold back. rewrite E1, E2. done. Qed.

(** Which tick evicts a state at or before the assumed one. *)
Definition room (s : Sender) : Prop :=
  (length (sent s) < MAX_SENT_STATES \/ assumed s < 17)%nat.

Lemma wrap64_succ z : 0 <= z -> z + 1 < 2 ^ 64 -> wrap64 (z + 1) = z + 1 .
Proof. intros. apply wrap_small. unfold in_width. lia. Qed.

(** Both kinds of instruction, once their state is recorded. *)
Lemma offer_after H env d num n s1 st : net_inv H n -> st ∈ sent (sender n) ->
  sender_inv H s1 -> s_num (sent_at s1 (assumed s1)) = s_num st ->
  s_num (front s1) = s_num (front (sender n)) -> ack_num s1 = ack_num (sender n) ->
  d = encode_user_message (drop (s_len st) H) ->
  s_num (back s1) = num -> s_len (back s1) = length H ->
  exact_offer H n (fst (send_in_fragments seal zlib_compress env d num
                          (mkNet s1 (conn n) (wires n) (offered n)))).
Proof.
  intros [Hs Hc] Hst Hs1 Hold Hfr Hack -> Hnum Hlen.
  destruct (send_in_fragments_spec seal zlib_compress env (encode_user_message (drop (s_len st) H)) num
    (mkNet s1 (conn n) (wires n) (offered n)) Hc) as ((_ & _ & E & _) & Eo & _ & _).
  eexists. exists st. rewrite Eo. split; [reflexivity|]. split; [done|].
  unfold back in *. rewrite E. simpl. split_and!; auto; congruence.
Qed.

Lemma empty_ack_offer H env n : net_inv H n -> shutdown_in_progress (sender n) = false ->
  room (sender n) -> 0 <= s_num (back (sender n)) < 2 ^ 64 - 1 ->
  diff_from (sender n) (s_len (sent_at (sender n) (assumed (sender n)))) = [] ->
  exact_offer H n (fst (send_empty_ack seal zlib_compress env n)).
Proof.
  intros Hn Hsd Hroom Hnum Hd. pose proof Hn as [Hs Hc]. unfold send_empty_ack. cbv zeta.
  rewrite Hsd, wrap64_succ by lia. unfold andthen at 1. cbn [upd].
  pose proof (assumed_elem H _ Hs) as Hst.
  destruct (add_sent_state_at H (now env) (s_num (back (sender n)) + 1) (sender n) (assumed (sender n)))
    as (E1 & E2 & E3 & E4 & _ & E6); [done|apply (si_assumed H _ Hs)|exact Hroom|].
  specialize (E2 eq_refl).
  match goal with |- exact_offer _ _ (fst (?a ?n0)) =>
    eapply exact_offer_same; [apply (andthen_upd_same _ _ n0)|apply (andthen_upd_same _ _ n0)|]; [done|done|] end.
  apply (offer_after H env [] _ n _ (sent_at (sender n) (assumed (sender n)))); try done.
  - by apply add_sent_state_inv.
  - by rewrite E2, E1.
  - by rewrite E3.
  - by rewrite <- (diff_from_inv H (sender n) _ Hs Hst).
  - by rewrite E4.
  - by rewrite E4.
Qed.

Lemma to_receiver_offer H env n : net_inv H n -> shutdown_in_progress (sender n) = false ->
  room (sender n) -> 0 <= s_num (back (sender n)) < 2 ^ 64 - 1 ->
  exact_offer H n (fst (send_to_receiver seal zlib_compress env
    (diff_from (sender n) (s_len (sent_at (sender n) (assumed (sender n))))) n)).
Proof.
  intros Hn Hsd Hroom Hnum. pose proof Hn as [Hs Hc]. unfold send_to_receiver. cbv zeta.
  rewrite Hsd, wrap64_succ by lia. pose proof (assumed_elem H _ Hs) as Hst.
  set (st := sent_at (sender n) (assumed (sender n))) in *.
  pose proof (diff_from_inv H (sender n) st Hs Hst) as Hd.
  rewrite (current_len_inv H _ Hs).
  destruct (Nat.eqb_spec (length H) (s_len (back (sender n)))) as [Elen|Elen].
  - rewrite Z.eqb_refl. unfold andthen at 1. cbn [upd].
    destruct (touch_back_at H (now env) (sender n) (assumed (sender n)) Hs) as (E1 & _ & E3 & E4 & E5 & _ & E7).
    match goal with |- exact_offer _ _ (fst (?a ?n0)) =>
      eapply exact_offer_same; [apply (andthen_upd_same _ _ n0)|apply (andthen_upd_same _ _ n0)|]; [done|done|] end.
    apply (offer_after H env _ _ n _ st); try done; rewrite ?E5; try done.
    + by apply touch_back_inv.
    + by rewrite E3, E1.
  - rewrite (proj2 (Z.eqb_neq (s_num (back (sender n)) + 1) _)) by lia.
    unfold andthen at 1. cbn [upd].
    destruct (add_sent_state_at H (now env) (s_num (back (sender n)) + 1) (sender n) (assumed (sender n)))
      as (E1 & E2 & E3 & E4 & _ & E6); [done|apply (si_assumed H _ Hs)|exact Hroom|].
    specialize (E2 eq_refl). rewrite (current_len_inv H _ Hs) in *.
    match goal with |- exact_offer _ _ (fst (?a ?n0)) =>
      eapply exact_offer_same; [apply (andthen_upd_same _ _ n0)|apply (andthen_upd_same _ _ n0)|]; [done|done|] end.
    apply (offer_after H env _ _ n _ st); try done; rewrite ?E4; try done.
    + rewrite <- (current_len_inv H _ Hs). by apply add_sent_state_inv.
    + by rewrite E2, E1.
    + by rewrite E3.
Qed.

Lemma andthen_if_upd_same (a : act) (b : bool) f n : (forall s, sent (f s) = sent s) ->
  offered (fst ((a ;;; if b then upd f else skip) n)) = offered (fst (a n)) /\
  sent (sender (fst ((a ;;; if b then upd f else skip) n))) = sent (sender (fst (a n))).
Proof.
  intros Hf. destruct b; [by apply andthen_upd_same|]. unfold andthen. by destruct (a n) as [n' [u|e]].
Qed.

(** The decisions of [tick] once the timers are set. *)
Definition tick_decide (env : Env) : act := fun n =>
  let s := sender n in
  let send_due := match next_send_time s with Some t => t <=? now env | None => false end in
  if (now env <? next_ack_time s) && negb send_due then (n, Ok tt)
  else
    let diff := diff_from s (s_len (sent_at s (assumed s))) in
    match diff with
    | [] =>
        ((if next_ack_time s <=? now env then
            send_empty_ack seal zlib_compress env ;;; upd (set_mindelay_clock None) else skip) ;;;
         (if send_due then
            upd (fun s => set_mindelay_clock None (set_next_send_time None s)) else skip)) n
    | _ =>
        if send_due || (next_ack_time s <=? now env) then
          (send_to_receiver seal zlib_compress env diff ;;; upd (set_mindelay_clock None)) n
        else (n, Ok tt)
    end.

Definition timed (n : Net) (t : Z) : Net :=
  mkNet (calculate_timers t (timeout (rtt (conn n))) (send_interval (rtt (conn n))) (sender n))
    (conn n) (wires n) (offered n).

Lemma tick_timed env n : tick seal zlib_compress env n = tick_decide env (timed n (now env)).
Proof. done. Qed.

Lemma timed_states n t : sent (sender (timed n t)) = sent (sender n) /\
  ack_num (sender (timed n t)) = ack_num (sender n) /\
  shutdown_in_progress (sender (timed n t)) = shutdown_in_progress (sender n).
Proof.
  unfold timed. cbn [sender].
  destruct (calculate_timers_core t (timeout (rtt (conn n))) (send_interval (rtt (conn n))) (sender n))
    as (_ & _ & -> & _ & -> & ->).
  unfold rationalize_states. by destruct (rationalize_loop _ _ _).
Qed.

Lemma timed_inv H n t : net_inv H n -> net_inv H (timed n t).
Proof. intros [Hs Hc]. split; [by apply calculate_timers_inv|done]. Qed.

Lemma decide_offer H env n : net_inv H n -> shutdown_in_progress (sender n) = false ->
  room (sender n) -> 0 <= s_num (back (sender n)) < 2 ^ 64 - 1 ->
  let n' := fst (tick_decide env n) in offered n' = offered n \/ exact_offer H n n'.
Proof.
  intros Hn Hsd Hroom Hnum. unfold tick_decide. cbv zeta.
  destruct (_ && _); [by left|].
  pose proof (to_receiver_offer H env n Hn Hsd Hroom Hnum) as Hrec.
  destruct (diff_from _ _) as [|x d] eqn:Ed.
  - set (a := if next_ack_time (sender n) <=? now env then _ else _).
    destruct (andthen_if_upd_same a match next_send_time (sender n) with Some t => t <=? now env | None => false end
      (fun s => set_mindelay_clock None (set_next_send_time None s)) n ltac:(done)) as [Eo Es].
    unfold a in *. clear a. destruct (_ <=? now env); [|by left]. right.
    eapply exact_offer_same; [exact Eo|exact Es|].
    eapply exact_offer_same; [by apply andthen_upd_same|by apply andthen_upd_same|].
    by apply empty_ack_offer.
  - destruct (_ || _); [|by left]. right.
    eapply exact_offer_same; [by apply andthen_upd_same|by apply andthen_upd_same|exact Hrec].
Qed.
End Tick.

Section Wires.
Context (seal : bytes -> bytes -> option (bytes * bytes))
        (zlib_compress : bytes -> option bytes).

(** The datagrams an action adds fit the MTU it starts with. *)
Definition fits_mtu (a : act) (n : Net) : Prop :=
  exists ws, wires (fst (a n)) = wires n ++ ws /\ Forall (fun w => (length w <= mtu (conn n))%nat) ws.

Definition quiet (a : act) : Prop := forall n, wires (fst (a n)) = wires n.

Lemma fits_andthen_quiet a b n : fits_mtu a n -> quiet b -> fits_mtu (a ;;; b) n.
Proof.
  intros (ws & E & H) Hb. exists ws. split; [|done]. rewrite <- E.
  unfold andthen. destruct (a n) as [n' [u|e]]; simpl; [apply Hb|done].
Qed.

Lemma fits_quiet a n : quiet a -> fits_mtu a n.
Proof. intros Ha. exists []. rewrite Ha, app_nil_r. by split. Qed.

Lemma quiet_upd f : quiet (upd f).
Proof. done. Qed.
Lemma quiet_skip : quiet skip.
Proof. done. Qed.
Lemma quiet_if (b : bool) a a' : quiet a -> quiet a' -> quiet (if b then a else a').
Proof. by destruct b. Qed.
#[local] Hint Resolve quiet_upd quiet_skip quiet_if fits_quiet : termoso.

Lemma fits_upd_andthen f a n :
  (forall n', conn n' = conn n -> wires n' = wires n -> fits_mtu a n') -> fits_mtu (upd f ;;; a) n.
Proof.
  intros Ha. destruct (Ha (mkNet (f (sender n)) (conn n) (wires n) (offered n)) eq_refl eq_refl)
    as (ws & E & H). by exists ws.
Qed.

Context (seal_len : forall k m body tag, seal k m = Some (body, tag) ->
           length body = length m /\ length tag = 16%nat).

Lemma send_in_fragments_fits env d num n : conn_inv (conn n) ->
  fits_mtu (send_in_fragments seal zlib_compress env d num) n.
Proof.
  intros Hc. unfold fits_mtu, send_in_fragments. cbv zeta.
  destruct (make _ _ _ _) as [fr [frags|e]] eqn:Em; [|exists []; by rewrite app_nil_r].
  match goal with |- context [send_frags seal env 0 frags ?n0] =>
    destruct (send_frags_spec seal env frags 0 n0 Hc) as (_ & _ & _ & ws & E & Hws) end.
  exists ws. split; [exact E|]. eapply Forall_impl; [by apply Hws|].
  simpl. intros w (f & Hf & ->). destruct (payload_mtu_fits (conn n) Hc) as [H1 H2].
  pose proof (make_fits _ _ _ _ _ _ f Em H1 Hf). lia.
Qed.

Lemma send_empty_ack_fits env n : conn_inv (conn n) ->
  fits_mtu (send_empty_ack seal zlib_compress env) n.
Proof.
  intros Hc. apply fits_upd_andthen. intros n' E _. apply fits_andthen_quiet; [|done].
  apply send_in_fragments_fits. by rewrite E.
Qed.

Lemma send_to_receiver_fits env d n : conn_inv (conn n) ->
  fits_mtu (send_to_receiver seal zlib_compress env d) n.
Proof.
  intros Hc. unfold fits_mtu, send_to_receiver. cbv zeta.
  destruct (_ =? s_num (back (sender n)));
    (apply fits_upd_andthen; intros n' E _; apply fits_andthen_quiet; [|done];
     apply send_in_fragments_fits; by rewrite E).
Qed.

Lemma decide_fits env n : conn_inv (conn n) -> fits_mtu (tick_decide seal zlib_compress env) n.
Proof.
  intros Hc. unfold fits_mtu, tick_decide. cbv zeta.
  destruct (_ && _); [exists []; by rewrite app_nil_r|].
  destruct (diff_from _ _) as [|x d].
  - apply fits_andthen_quiet; [|by apply quiet_if].
    destruct (_ <=? now env); [|by apply fits_quiet].
    apply fits_andthen_quiet; [by apply send_empty_ack_fits|done].
  - destruct (_ || _); [|exists []; by rewrite app_nil_r].
    apply fits_andthen_quiet; [by apply send_to_receiver_fits|done].
Qed.
End Wires.

(** ** The delayed acknowledgement *)

Section Pending.
Context (seal : bytes -> bytes -> option (bytes * bytes))
        (zlib_compress : bytes -> option bytes).

(** An action that leaves the flag [pending_data_ack] set. *)
Definition stays_pending (a : act) : Prop := forall n,
  pending_data_ack (sender n) = true -> pending_data_ack (sender (fst (a n))) = true.

Lemma pending_andthen a b : stays_pending a -> stays_pending b -> stays_pending (a ;;; b).
Proof.
  intros Ha Hb n Hn. unfold andthen. specialize (Ha n Hn).
  destruct (a n) as [n' [u|e]]; simpl in *; auto.
Qed.

Lemma pending_upd f : (forall s, pending_data_ack (f s) = pending_data_ack s) -> stays_pending (upd f).
Proof. intros Hf n Hn. simpl. by rewrite Hf. Qed.

Lemma pending_frags env frags : forall i, stays_pending (send_frags seal env i frags).
Proof.
  induction frags as [|f frags IH]; intros i n Hn; simpl; [done|]. apply pending_andthen; [|done|done].
  intros n' Hn'. by destruct (send _ _ _ _ _) as [c [w|e]].
Qed.

Lemma pending_send env d num : stays_pending (send_in_fragments seal zlib_compress env d num).
Proof.
  intros n Hn. unfold send_in_fragments. cbv zeta. destruct (make _ _ _ _) as [fr [frags|e]];
    [apply pending_frags|]; simpl; by destruct (_ =? _).
Qed.

Lemma pending_add ts num len s : pending_data_ack (add_sent_state ts num len s) = pending_data_ack s.
Proof. unfold add_sent_state. cbv zeta. by destruct (_ <? _)%nat. Qed.

Lemma pending_touch ts s : pending_data_ack (touch_back ts s) = pending_data_ack s.
Proof. unfold touch_back. by destruct (last _). Qed.

Lemma pending_timers now rto si s :
  pending_data_ack (calculate_timers now rto si s) = pending_data_ack s.
Proof.
  unfold calculate_timers, rationalize_states. cbv zeta.
  destruct (rationalize_loop _ _ _) as [b l].
  destruct (_ && (now + ACK_DELAY <? _)); (destruct (negb _); [|destruct (negb _ && _);
    [|destruct (negb _ && _)]]); destruct (shutdown_in_progress _ || _); done.
Qed.

Lemma pending_decide env : stays_pending (tick_decide seal zlib_compress env).
Proof.
  intros n Hn. unfold tick_decide. cbv zeta. destruct (_ && _); [done|].
  destruct (diff_from _ _) as [|x d]; [|destruct (_ || _); [|done]].
  - apply pending_andthen; [| |done].
    + destruct (_ <=? now env); [|by intros ? ?]. apply pending_andthen; [|by apply pending_upd].
      intros n' Hn'. unfold send_empty_ack. cbv zeta.
      repeat apply pending_andthen; try apply pending_upd; try apply pending_send; try done.
      intros. apply pending_add.
    + match goal with |- stays_pending (if ?b then _ else _) => destruct b end;
        [by apply pending_upd|by intros ? ?].
  - apply pending_andthen; [|by apply pending_upd|done]. intros n' Hn'. unfold send_to_receiver. cbv zeta.
    repeat apply pending_andthen; try apply pending_send; try done; [|by apply pending_upd].
    destruct (_ =? _); apply pending_upd; intros; [apply pending_touch|apply pending_add].
Qed.

Lemma pending_event e n : pending_data_ack (sender n) = true ->
  pending_data_ack (sender (sender_event seal zlib_compress n e)) = true.
Proof.
  intros Hn. destruct e; simpl; try done.
  - unfold process_acknowledgment_through. by destruct (existsb _ _).
  - unfold heard. by destruct had_diff.
  - by rewrite pending_timers.
  - rewrite tick_timed. apply pending_decide. simpl. by rewrite pending_timers.
  - unfold start_shutdown. by destruct (shutdown_in_progress _).
Qed.

Lemma pending_run es : forall n, pending_data_ack (sender n) = true ->
  pending_data_ack (sender (sender_run seal zlib_compress n es)) = true.
Proof. induction es as [|e es IH]; intros n Hn; [done|]. simpl. apply IH. by apply pending_event. Qed.
End Pending.

Lemma timers_pending_due now rto si s : pending_data_ack s = true -> shutdown_in_progress s = false ->
  ack_num s <> SHUTDOWN_NUM -> next_ack_time (calculate_timers now rto si s) <= now + ACK_DELAY.
Proof.
  intros Hp Hsd Hack. unfold calculate_timers. cbv zeta.
  set (s0 := rationalize_states _).
  assert (pending_data_ack s0 = true /\ shutdown_in_progress s0 = false /\ ack_num s0 <> SHUTDOWN_NUM)
    as (Hp0 & Hsd0 & Hack0) by (unfold s0, rationalize_states; by destruct (rationalize_loop _ _ _)).
  rewrite Hp0. clearbody s0. clear Hp Hsd Hack Hp0 s. cbn [andb].
  set (s1 := if now + ACK_DELAY <? next_ack_time s0 then _ else _).
  assert (next_ack_time s1 <= now + ACK_DELAY /\ shutdown_in_progress s1 = false /\ ack_num s1 <> SHUTDOWN_NUM)
    as (Hle & Hsd1 & Hack1).
  { unfold s1. destruct (Z.ltb_spec (now + ACK_DELAY) (next_ack_time s0)); simpl; split_and!; try done; lia. }
  clearbody s1. clear s0 Hsd0 Hack0. apply Z.eqb_neq in Hack1.
  destruct (negb _); [|destruct (negb _ && _); [|destruct (negb _ && _)]]; simpl; by rewrite Hsd1, Hack1.
Qed.

(** A sender that starts on an open connection. *)
Definition start_net (c : Connection) (t : Z) : Net := mkNet (Sender_new t) c [] [].

Lemma start_inv c t : conn_inv c -> net_inv [] (start_net c t).
Proof. intros Hc. split; [apply sender_inv_new|done]. Qed.

(** ** Properties *)

(** C3: along any run of the sender (input, acknowledgements, ticks, timers,
    shutdown, in any order), the log holds exactly what was pushed and no
    acknowledged state has released; between one and 32 states are kept, the
    assumed one among them; and the difference computed from any of these
    states is exactly what was pushed after it: nothing typed is lost,
    repeated or reordered by the log. *)
Theorem sender_log_sound (seal : bytes -> bytes -> option (bytes * bytes))
    (zlib_compress : bytes -> option bytes) c t es :
  conn_inv c ->
  let s := sender (sender_run seal zlib_compress (start_net c t) es) in
  log s = drop (base s) (pushed es) /\ (base s <= length (pushed es))%nat /\
  (1 <= length (sent s) <= 32)%nat /\ (assumed s < length (sent s))%nat /\
  (forall st, st ∈ sent s -> (base s <= s_len st <= length (pushed es))%nat /\
     diff_from s (s_len st) = encode_user_message (drop (s_len st) (pushed es))).
Proof.
  intros Hc s. destruct (sender_run_keeps seal zlib_compress es [] _ (start_inv c t Hc)) as [Hs _].
  fold s in Hs. simpl in Hs. split_and!; try apply Hs. intros st Hst. split.
  - by apply (sent_len _ s).
  - by apply diff_from_inv.
Qed.

Definition ok_env (t : Z) : Env := mkEnv t [] (fun _ => Sent).
Definition one_socket : Connection := set_sockets [1%N] (Connection_init true 0).

Lemma one_socket_inv : conn_inv one_socket.
Proof. split; cbn; [unfold MAX_SOCKETS; lia|auto|split; [done|by vm_compute]]. Qed.

Lemma sender_log_sound_witness :
  let es := [Pushed (Keystroke [97]); Ticked (ok_env 30); Pushed (Keystroke [98]); Ticked (ok_env 400);
             Acked 1; Ticked (ok_env 800)] in
  let s := sender (sender_run xor_seal stored_compress (start_net one_socket 0) es) in
  base s = 1%nat /\ log s = drop (base s) (pushed es).
Proof.
  split; [by vm_compute|]. apply (sender_log_sound xor_seal stored_compress one_socket 0). apply one_socket_inv.
Defined.

(** C5: what a tick sends is exactly the missing input: it offers nothing, or
    one instruction whose [old_num] names a state of the log, whose diff
    encodes precisely what was pushed after that state, and whose [new_num]
    is recorded as the state of the whole log; it acknowledges the newest
    server state. So a server that holds the named state and applies the diff
    holds everything typed, once, in order. [room] is needed: see
    [eviction_shifts_diff_base]. *)
Theorem tick_offers_missing_input (seal : bytes -> bytes -> option (bytes * bytes))
    (zlib_compress : bytes -> option bytes) c t es env :
  conn_inv c ->
  let n := sender_run seal zlib_compress (start_net c t) es in
  shutdown_in_progress (sender n) = false ->
  0 <= s_num (back (sender n)) < 2 ^ 64 - 1 ->
  room (sender (timed n (now env))) ->
  let n' := fst (tick seal zlib_compress env n) in
  offered n' = offered n \/ exact_offer (pushed es) n n'.
Proof.
  intros Hc n Hsd Hnum Hroom n'. pose proof (sender_run_keeps seal zlib_compress es [] _ (start_inv c t Hc)) as Hn.
  fold n in Hn. simpl in Hn. pose proof (timed_states n (now env)) as (Es & Ea & Eh).
  subst n'. rewrite tick_timed.
  destruct (decide_offer seal zlib_compress (pushed es) env (timed n (now env))) as [E|(inst & st & H)].
  - by apply timed_inv.
  - by rewrite Eh.
  - done.
  - unfold back. by rewrite Es.
  - by left.
  - right. exists inst, st. unfold front in *. by rewrite Es, Ea in H.
Qed.

Lemma tick_offers_missing_input_witness :
  let es := [Pushed (Keystroke [97]); Ticked (ok_env 30); Pushed (Keystroke [98]); Pushed (Keystroke [99]); Waited 350] in
  let n := sender_run xor_seal stored_compress (start_net one_socket 0) es in
  let n' := fst (tick xor_seal stored_compress (ok_env 400) n) in
  length (offered n') = S (length (offered n)) /\
  (offered n' = offered n \/ exact_offer (pushed es) n n').
Proof.
  split; [by vm_compute|].
  apply (tick_offers_missing_input xor_seal stored_compress one_socket 0
    [Pushed (Keystroke [97]); Ticked (ok_env 30); Pushed (Keystroke [98]); Pushed (Keystroke [99]); Waited 350] (ok_env 400)).
  - apply one_socket_inv.
  - by vm_compute.
  - by vm_compute.
  - left. apply Nat.ltb_lt. by vm_compute.
Defined.


(** no datagram is too large: whatever happened before, each datagram one
    tick puts on the wire, header, nonce and tag included, fits the path MTU
    the connection believes in when the tick begins. *)
Theorem tick_datagrams_fit_mtu (seal : bytes -> bytes -> option (bytes * bytes))
    (zlib_compress : bytes -> option bytes)
    (seal_len : forall k m body tag, seal k m = Some (body, tag) ->
       length body = length m /\ length tag = 16%nat) c t es env :
  conn_inv c ->
  let n := sender_run seal zlib_compress (start_net c t) es in
  exists ws, wires (fst (tick seal zlib_compress env n)) = wires n ++ ws /\
    Forall (fun w => (length w <= mtu (conn n))%nat) ws.
Proof.
  intros Hc n. destruct (sender_run_keeps seal zlib_compress es [] _ (start_inv c t Hc)) as [_ Hn].
  rewrite tick_timed. by apply (decide_fits seal zlib_compress seal_len env (timed n (now env))).
Qed.

Lemma tick_datagrams_fit_mtu_witness :
  let n := sender_run xor_seal stored_compress (start_net one_socket 0)
             [Pushed (Keystroke (replicate 3000 97)); Waited 350] in
  exists ws, wires (fst (tick xor_seal stored_compress (ok_env 400) n)) = wires n ++ ws /\
    Forall (fun w => (length w <= mtu (conn n))%nat) ws.
Proof.
  apply (tick_datagrams_fit_mtu xor_seal stored_compress); [|apply one_socket_inv].
  intros k m body tag [= <- <-]. by rewrite length_map.
Defined.

(** Typing a byte every 21 ms into silence, each one sent at once. *)
Definition typing (rounds : nat) : list SenderEvent :=
  flat_map (fun i => let t := 1000 + 21 * Z.of_nat i in
              [Pushed (Keystroke [Z.of_nat i]); Waited (t - 8); Ticked (ok_env t)]) (seq 0 rounds).
Definition spike_run : list SenderEvent :=
  [Measured 10] ++ typing 31 ++ [Measured 1200; Pushed (Keystroke [77]); Waited 1712].

(** without [room] the previous property fails. When 32 unacknowledged
    states are all recent (31 quick keystrokes, then one slow round trip that
    stretches the timeout), the next tick evicts a state from the middle but
    keeps the index of the assumed one, which then names the very state being
    sent: the instruction's [old_num] equals its [new_num] while its diff
    starts at the state before, so no server can apply it. *)
Theorem eviction_shifts_diff_base :
  let n := sender_run xor_seal stored_compress (start_net one_socket 0) spike_run in
  let n' := fst (tick xor_seal stored_compress (ok_env 1720) n) in
  ~ room (sender (timed n 1720)) /\
  exists inst, offered n' = offered n ++ [inst] /\ old_num inst = 32 /\ new_num inst = 32 /\
    diff inst = encode_user_message (drop 31 (pushed spike_run)) /\ ~ exact_offer (pushed spike_run) n n'.
Proof.
  cbv zeta. set (n := sender_run _ _ _ spike_run). set (n' := fst _).
  assert (length (sent (sender (timed n 1720))) = 32%nat /\ assumed (sender (timed n 1720)) = 31%nat) as [E1 E2]
    by (split; by vm_compute).
  split; [unfold room; rewrite E1, E2; unfold MAX_SENT_STATES; lia|].
  assert (exists inst, offered n' = offered n ++ [inst] /\ old_num inst = 32 /\ new_num inst = 32 /\
    diff inst = encode_user_message (drop 31 (pushed spike_run))) as (inst & Eo & H1 & H2 & H3).
  { exists (mkInst 2 32 32 0 0 [10; 5; 18; 3; 34; 1; 77] []). split_and!; by vm_compute. }
  assert (forallb (fun st => negb (s_num st =? 32)) (sent (sender n)) = true) as Hno by by vm_compute.
  clearbody n' n. exists inst. repeat (split; [assumption|]). intros (inst' & st & Eo' & Hst & Hold & _).
  rewrite Eo in Eo'. apply app_inj_tail in Eo' as [_ <-].
  rewrite forallb_forall in Hno. apply list_elem_of_In, Hno in Hst. rewrite <- Hold, H1 in Hst.
  by apply negb_true_iff, Z.eqb_neq in Hst.
Qed.

(** the acknowledgement owed for the server's data is never paid off:
    once one data diff has been heard, [pending_data_ack] stays set through
    every later event, its own acknowledgement included, so whenever the
    timers are computed the next (empty) acknowledgement is due within
    [ACK_DELAY] = 100 ms; the idle interval [ACK_INTERVAL] = 3 s never comes
    back. *)
Theorem data_ack_pending_forever (seal : bytes -> bytes -> option (bytes * bytes))
    (zlib_compress : bytes -> option bytes) n0 es1 num t es2 now rto si :
  let n := sender_run seal zlib_compress n0 (es1 ++ [Heard num t true] ++ es2) in
  pending_data_ack (sender n) = true /\
  (shutdown_in_progress (sender n) = false -> ack_num (sender n) <> SHUTDOWN_NUM ->
   next_ack_time (calculate_timers now rto si (sender n)) <= now + 100).
Proof.
  intros n. assert (pending_data_ack (sender n) = true) as Hp.
  { unfold n, sender_run. rewrite !fold_left_app. by apply (pending_run seal zlib_compress es2). }
  split; [done|]. intros. by apply timers_pending_due.
Qed.

Lemma data_ack_pending_forever_witness :
  let n := sender_run xor_seal stored_compress (start_net one_socket 0)
             ([Ticked (ok_env 10)] ++ [Heard 1 20 true] ++ [Ticked (ok_env 130); Acked 2; Ticked (ok_env 9000)]) in
  next_ack_time (sender n) = 12000 /\ next_ack_time (calculate_timers 9000 1000 250 (sender n)) <= 9000 + 100.
Proof.
  split; [by vm_compute|].
  apply (data_ack_pending_forever xor_seal stored_compress (start_net one_socket 0) [Ticked (ok_env 10)] 1 20
    [Ticked (ok_env 130); Acked 2; Ticked (ok_env 9000)] 9000 1000 250); by vm_compute.
Defined.
