(* ===== verification/MoshClient.v ===== *)
(** * The Mosh client

    [Client], [MoshTerminal], [connect] and [run] of
    [crates/termoso-core/src/mosh/transport.rs]: the server's instructions are
    applied in order, datagrams are turned into instructions, and one round of
    the two loops takes an input, decides whether the session is over, and
    ticks. Scheduling is the environment: an [Input] says which arm of the
    [select!] won. The channel of commands is a queue; events for the UI are
    recorded in [events], and [sink_ok] says whether the UI still listens. *)
From S2P Require Import Prelude MoshProto MoshFragment MoshCrypto MoshRtt MoshConn MoshSender.

Definition SILENCE_NOTICE : Z := 15000.

(** [crate::terminal::TermEvent]. *)
Inductive TermEvent : Type :=
| Output (b : bytes)
| Notice (text : string)
| Exit (code : option Z) (signal : option string)
| TermError (text : string)
| TermClosed.

Record TermSize := mkSize { cols : Z; rows : Z }.

Inductive Command : Type :=
| Write (data : bytes)
| ResizeTo (size : TermSize)
| Close.

(** ** The terminal's handle *)

Record MoshTerminal := mkTerminal {
  closed : bool;
  (** the receiving end: [None] once the protocol task is gone *)
  commands : option (list Command)
}.

(** [commands.send(c).map_err(|_| CoreError::Closed)]: [Err tt] is [Closed]. *)
Definition send_command (c : Command) (t : MoshTerminal) : MoshTerminal * result unit unit :=
  match commands t with
  | Some q => (mkTerminal (closed t) (Some (q ++ [c])), Ok tt)
  | None => (t, Err tt)
  end.

Definition write (data : bytes) (t : MoshTerminal) : MoshTerminal * result unit unit :=
  if closed t then (t, Err tt) else send_command (Write data) t.

Definition resize (size : TermSize) (t : MoshTerminal) : MoshTerminal * result unit unit :=
  if closed t then (t, Err tt) else send_command (ResizeTo size) t.

Definition close (t : MoshTerminal) : MoshTerminal * result unit unit :=
  if closed t then (t, Ok tt)
  else (fst (send_command Close (mkTerminal true (commands t))), Ok tt).

(** ** The client *)

Record Client := mkClient {
  net_ : Net;
  assembly : Assembly;
  remote_num : Z;
  remote_timestamp : Z;
  server_size : option (Z * Z);
  silent_since_notice : bool;
  events : list TermEvent
}.

Definition set_net (v : Net) (r : Client) : Client :=
  mkClient v (assembly r) (remote_num r) (remote_timestamp r) (server_size r) (silent_since_notice r) (events r).
Definition set_assembly (v : Assembly) (r : Client) : Client :=
  mkClient (net_ r) v (remote_num r) (remote_timestamp r) (server_size r) (silent_since_notice r) (events r).
Definition set_remote (num ts : Z) (r : Client) : Client :=
  mkClient (net_ r) (assembly r) num ts (server_size r) (silent_since_notice r) (events r).
Definition set_server_size (v : option (Z * Z)) (r : Client) : Client :=
  mkClient (net_ r) (assembly r) (remote_num r) (remote_timestamp r) v (silent_since_notice r) (events r).
Definition set_silent (v : bool) (r : Client) : Client :=
  mkClient (net_ r) (assembly r) (remote_num r) (remote_timestamp r) (server_size r) v (events r).
Definition emit (e : TermEvent) (r : Client) : Client :=
  mkClient (net_ r) (assembly r) (remote_num r) (remote_timestamp r) (server_size r) (silent_since_notice r)
    (events r ++ [e]).
Definition on_sender (f : Sender -> Sender) (r : Client) : Client :=
  set_net (fst (upd f (net_ r))) r.
Definition set_conn (v : Connection) (n : Net) : Net := mkNet (sender n) v (wires n) (offered n).

(** The loop over the host instructions of one diff. *)
Definition host_effects (hosts : list HostInstruction) (size : option (Z * Z)) :
    bytes * option (Z * Z) :=
  fold_left (fun '(out, size) h =>
    match h with
    | HostBytes b => (out ++ b, size)
    | HostResize w h => (out, Some (w, h))
    | EchoAck _ => (out, size)
    end) hosts ([], size).

(** The part of [process] that shows a non-empty diff. *)
Definition show_diff (sink_ok : bool) (d : bytes) (c : Client) : Client * mres unit :=
  match decode_host_message d with
  | Err e => (c, Err e)
  | Ok hosts =>
      let '(out, size) := host_effects hosts (server_size c) in
      let c := set_server_size size c in
      match out with
      | [] => (on_sender (set_pending_data_ack true) c, Ok tt)
      | _ =>
          if sink_ok then (on_sender (set_pending_data_ack true) (emit (Output out) c), Ok tt)
          else (c, Err Closed)
      end
  end.

Definition process (now : Z) (sink_ok : bool) (inst : Instruction) (c : Client) : Client * mres unit :=
  if negb (protocol_version inst =? PROTOCOL_VERSION) then (c, Err (Version (protocol_version inst)))
  else
    let c := on_sender (process_acknowledgment_through (MoshProto.ack_num inst)) c in
    let c := set_net (set_conn (set_last_roundtrip_success (acked_timestamp (sender (net_ c)))
                                  (conn (net_ c))) (net_ c)) c in
    if negb (new_num inst =? SHUTDOWN_NUM) && (new_num inst <=? remote_num c) then (c, Ok tt)
    else if negb (old_num inst =? remote_num c) then (c, Ok tt)
    else
      let '(c, r) := match diff inst with [] => (c, Ok tt) | d => show_diff sink_ok d c end in
      match r with
      | Err e => (c, Err e)
      | Ok _ =>
          (on_sender (fun s => set_last_heard now (set_ack_num (new_num inst) s))
             (set_remote (new_num inst) now c), Ok tt)
      end.

Section Loops.
Context (seal : bytes -> bytes -> option (bytes * bytes))
        (unseal : bytes -> bytes -> bytes -> option bytes)
        (zlib_compress : bytes -> option bytes) (zlib_read : Z -> bytes -> option bytes).

Definition datagram (now : Z) (sink_ok : bool) (wire : bytes) (c : Client) : Client * mres unit :=
  let '(cn, payload) := receive unseal (conn (net_ c)) now wire in
  let c := set_net (set_conn cn (net_ c)) c in
  match payload with
  | None => (c, Ok tt)
  | Some payload =>
      match from_wire payload with
      | Err _ => (c, Ok tt)
      | Ok frag =>
          let '(asm, r) := add zlib_read (assembly c) frag in
          let c := set_assembly asm c in
          match r with
          | Ok (Some inst) => process now sink_ok inst c
          | Ok None => (c, Ok tt)
          | Err FragmentError | Err Compression | Err Protobuf => (c, Ok tt)
          | Err e => (c, Err e)
          end
      end
  end.

(** ** Commands *)

(** [while let Ok(Command::Write(more)) = commands.try_recv()]: the command
    that ends the burst has left the queue when the pattern refuses it. *)
Fixpoint take_burst (q : list Command) (s : Sender) : list Command * Sender :=
  match q with
  | Write more :: q' => take_burst q' (push (Keystroke more) s)
  | _ :: q' => (q', s)
  | [] => ([], s)
  end.

(** The [commands.recv()] arm; [None] is a channel whose senders are gone. *)
Definition take_command (now : Z) (cmd : option Command) (q : list Command) (s : Sender) :
    list Command * Sender :=
  match cmd with
  | Some (Write b) => take_burst q (push (Keystroke b) s)
  | Some (ResizeTo size) => (q, push (MoshProto.Resize (cols size) (rows size)) s)
  | Some Close | None => (q, start_shutdown now s)
  end.

(** ** One round of the loops *)

Inductive Input : Type :=
| Datagram (w : bytes)
| ReadersGone
| Cmd (c : option Command)
| Woke.

(** The silence notices of [run]. *)
Definition note_silence (now : Z) (text : Z -> string) (c : Client) : Client :=
  let silence := sat_sub now (remote_timestamp c) in
  if (SILENCE_NOTICE <? silence) && negb (silent_since_notice c) then
    emit (Notice (text (silence / 1000))) (set_silent true c)
  else if (silence <=? SILENCE_NOTICE) && silent_since_notice c then
    emit (Notice "mosh: connection restored") (set_silent false c)
  else c.

(** [client.sender.tick(&mut client.conn)?; client.conn.maybe_hop().await]. *)
Definition tick_and_hop (env : Env) (bound : result string N) (c : Client) : Client * mres unit :=
  let '(n, r) := tick seal zlib_compress env (net_ c) in
  match r with
  | Err e => (set_net n c, Err e)
  | Ok _ => (set_net (set_conn (maybe_hop (conn n) bound (now env)) n) c, Ok tt)
  end.

Definition wait (t : Z) (c : Client) : Client :=
  on_sender (fun s => fst (wait_time t (timeout (rtt (conn (net_ c))))
                              (send_interval (rtt (conn (net_ c)))) s)) c.

Definition take_input (now : Z) (sink_ok : bool) (i : Input) (q : list Command) (c : Client) :
    Client * list Command * mres unit :=
  match i with
  | Datagram w => let '(c, r) := datagram now sink_ok w c in (c, q, r)
  | ReadersGone => (c, q, Err (Socket "socket reader stopped"))
  | Cmd cmd =>
      let '(q, s) := take_command now cmd q (sender (net_ c)) in
      (on_sender (fun _ => s) c, q, Ok tt)
  | Woke => (c, q, Ok tt)
  end.

(** One round of [run]: [Ok true] is the clean return, [Ok false] goes on. *)
Definition run_round (env : Env) (bound : result string N) (sink_ok : bool) (text : Z -> string)
    (i : Input) (q : list Command) (c : Client) : Client * list Command * mres bool :=
  let '(c, q, r) := take_input (now env) sink_ok i q (wait (now env) c) in
  match r with
  | Err e => (c, q, Err e)
  | Ok _ =>
      let s := sender (net_ c) in
      if shutdown_in_progress s && (shutdown_acknowledged s || shutdown_ack_timed_out (now env) s) then
        (c, q, Err Closed)
      else if counterparty_shutdown_ack_sent s then (c, q, Ok true)
      else
        let '(c, r) := tick_and_hop env bound (note_silence (now env) text c) in
        (c, q, match r with Err e => Err e | Ok _ => Ok false end)
  end.

(** What the task of [connect] reports when the loop ends. *)
Definition final_event (show : MoshError -> string) (r : mres unit) : TermEvent :=
  match r with
  | Ok _ => Exit None None
  | Err Closed => TermClosed
  | Err e => TermError (show e)
  end.

(** ** Connecting *)

Definition connect_client (size : TermSize) (cn : Connection) (t : Z) : Client :=
  mkClient (mkNet (push (MoshProto.Resize (cols size) (rows size)) (Sender_new t)) cn [] [])
    Assembly_new 0 0 None false [].

Inductive ConnectInput : Type :=
| CDatagram (w : bytes)
| CReadersGone
| CWoke
| CDeadline.

(** One round of [connect]'s loop; it is left once [remote_num] is not 0. *)
Definition connect_round (env : Env) (bound : result string N) (sink_ok : bool) (addr : string)
    (i : ConnectInput) (c : Client) : Client * mres unit :=
  let c := wait (now env) c in
  let '(c, r) :=
    match i with
    | CDatagram w => datagram (now env) sink_ok w c
    | CReadersGone => (c, Err (Socket "socket reader stopped"))
    | CWoke => (c, Ok tt)
    | CDeadline => (c, Err (NoReply addr (send_error (conn (net_ c)))))
    end in
  match r with
  | Err e => (c, Err e)
  | Ok _ => tick_and_hop env bound c
  end.
End Loops.

(** ** In-order application *)

(** The host bytes a diff shows. *)
Definition host_output (i : Instruction) : bytes :=
  match decode_host_message (diff i) with
  | Ok hosts => fst (host_effects hosts None)
  | Err _ => []
  end.

Definition shown (i : Instruction) : option TermEvent :=
  match host_output i with [] => None | b => Some (Output b) end.

(** The instructions a client at state [r] takes from a stream. *)
Definition accepts (r : Z) (i : Instruction) : bool :=
  ((new_num i =? SHUTDOWN_NUM) || (r <? new_num i)) && (old_num i =? r).

Fixpoint accept_chain (r : Z) (l : list Instruction) : list Instruction :=
  match l with
  | [] => []
  | i :: l' => if accepts r i then i :: accept_chain (new_num i) l' else accept_chain r l'
  end.

(** Each instruction starts from the state the previous one produced, and
    produces a newer one (or ends the session). *)
Fixpoint linked (r : Z) (l : list Instruction) : Prop :=
  match l with
  | [] => True
  | i :: l' => old_num i = r /\ (new_num i = SHUTDOWN_NUM \/ r < new_num i) /\ linked (new_num i) l'
  end.

Fixpoint process_all (sink_ok : bool) (l : list (Z * Instruction)) (c : Client) : Client * mres unit :=
  match l with
  | [] => (c, Ok tt)
  | (t, i) :: l' =>
      let '(c, r) := process t sink_ok i c in
      match r with Ok _ => process_all sink_ok l' c | Err e => (c, Err e) end
  end.

Lemma accept_chain_linked l : forall r, linked r (accept_chain r l).
Proof.
  induction l as [|i l IH]; intros r; simpl; [done|]. unfold accepts.
  destruct (Z.eqb_spec (new_num i) SHUTDOWN_NUM), (Z.ltb_spec r (new_num i)), (Z.eqb_spec (old_num i) r);
    simpl; auto.
Qed.

(** The bytes shown do not depend on the size known before. *)
Lemma host_effects_out hosts : forall out size size',
  fst (fold_left (fun '(out, size) h =>
    match h with HostBytes b => (out ++ b, size) | HostResize w h => (out, Some (w, h))
    | EchoAck _ => (out, size) end) hosts (out, size))
  = fst (fold_left (fun '(out, size) h =>
    match h with HostBytes b => (out ++ b, size) | HostResize w h => (out, Some (w, h))
    | EchoAck _ => (out, size) end) hosts (out, size' : option (Z * Z))).
Proof.
  induction hosts as [|h hosts IH]; intros out size size'; [done|]. destruct h; simpl; auto.
Qed.

Lemma show_diff_ok sink_ok i c c' :
  match diff i with [] => (c, Ok tt) | d => show_diff sink_ok d c end = (c', Ok tt) ->
  remote_num c' = remote_num c /\
  events c' = events c ++ match shown i with Some e => [e] | None => [] end.
Proof.
  unfold shown, host_output. destruct (diff i) as [|x d] eqn:Ed.
  { intros [= <-]. cbn. by rewrite app_nil_r. }
  unfold show_diff. destruct (decode_host_message (x :: d)) as [hosts|]; [|done].
  pose proof (host_effects_out hosts [] (server_size c) None) as Eo. fold (host_effects hosts (server_size c)) in Eo.
  fold (host_effects hosts None) in Eo. rewrite <- Eo. clear Eo.
  destruct (host_effects hosts (server_size c)) as [[|b out] size]; cbn [fst].
  - intros [= <-]. simpl. by rewrite app_nil_r.
  - destruct sink_ok; [|done]. by intros [= <-].
Qed.

Lemma process_ok t sink_ok i c c' : process t sink_ok i c = (c', Ok tt) ->
  remote_num c' = (if accepts (remote_num c) i then new_num i else remote_num c) /\
  events c' = events c ++ (if accepts (remote_num c) i then option_list (shown i) else []).
Proof.
  unfold process. destruct (negb (protocol_version i =? PROTOCOL_VERSION)); [done|]. cbv zeta.
  match goal with |- context [match diff i with [] => (?c0, _) | _ => _ end] => set (c1 := c0) end.
  set (shown_diff := match diff i with [] => (c1, Ok tt) | d => show_diff sink_ok d c1 end).
  change (remote_num c1) with (remote_num c). unfold accepts. rewrite Z.leb_antisym.
  destruct (new_num i =? SHUTDOWN_NUM), (remote_num c <? new_num i), (old_num i =? remote_num c);
    cbn [negb andb orb]; try (intros [= <-]; simpl; by rewrite app_nil_r).
  all: destruct shown_diff as [c2 [[]|e]] eqn:E; [|discriminate].
  all: intros [= <-]; apply show_diff_ok in E as [_ E]; simpl; rewrite E; by destruct (shown i).
Qed.

Lemma process_all_ok sink_ok l : forall c c', process_all sink_ok l c = (c', Ok tt) ->
  events c' = events c ++ omap shown (accept_chain (remote_num c) (map snd l)) /\
  remote_num c' = fold_left (fun _ i => new_num i) (accept_chain (remote_num c) (map snd l)) (remote_num c).
Proof.
  induction l as [|[t i] l IH]; intros c c'; simpl.
  - intros [= <-]. by rewrite app_nil_r.
  - destruct (process t sink_ok i c) as [c1 [[]|e]] eqn:E; [|done]. intros H.
    apply process_ok in E as [En Ee]. apply IH in H as [H1 H2]. rewrite H1, H2, En, Ee.
    destruct (accepts (remote_num c) i); simpl; rewrite <- app_assoc; [|done].
    split; [|done]. by destruct (shown i).
Qed.

(** ** Closing *)

(** A session that is closing, since [t0]. *)
Definition closing (t0 : Z) (c : Client) : Prop :=
  shutdown_in_progress (sender (net_ c)) = true /\ shutdown_start (sender (net_ c)) = t0.

Lemma closing_wait t0 t c : closing t0 c -> closing t0 (wait t c).
Proof.
  unfold closing, wait, on_sender, wait_time, calculate_timers, rationalize_states. cbn. cbv zeta.
  destruct (rationalize_loop _ _ _) as [b l].
  destruct (_ && (t + ACK_DELAY <? _)); (destruct (negb _); [|destruct (negb _ && _);
    [|destruct (negb _ && _)]]); destruct (shutdown_in_progress _ || _); done.
Qed.

Lemma closing_process t0 t ok i c : closing t0 c -> closing t0 (fst (process t ok i c)).
Proof.
  intros Hc. unfold process. destruct (negb _); [done|]. cbv zeta.
  match goal with |- context [match diff i with [] => (?c0, _) | _ => _ end] => set (c1 := c0) end.
  assert (closing t0 c1) as H1.
  { unfold closing, c1. cbn. unfold process_acknowledgment_through. by destruct (existsb _ _). }
  change (remote_num (set_net _ _)) with (remote_num c1). clearbody c1.
  destruct (_ && (_ <=? _)); [done|]. destruct (negb _); [done|].
  assert (closing t0 (fst (show_diff ok (diff i) c1))) as H2.
  { unfold show_diff. destruct (decode_host_message _); [|done].
    destruct (host_effects _ _) as [[|b out] size]; [done|]. by destruct ok. }
  destruct (diff i) as [|x d]; [done|]. by destruct (show_diff _ _ _) as [c2 [u|e]].
Qed.

Section Loops.
Context (seal : bytes -> bytes -> option (bytes * bytes))
        (unseal : bytes -> bytes -> bytes -> option bytes)
        (zlib_compress : bytes -> option bytes) (zlib_read : Z -> bytes -> option bytes).

Lemma closing_datagram t0 t ok w c : closing t0 c ->
  closing t0 (fst (datagram unseal zlib_read t ok w c)).
Proof.
  intros Hc. unfold datagram. destruct (receive _ _ _ _) as [cn [payload|]]; [|done]. cbv zeta.
  destruct (from_wire payload) as [frag|]; [|done].
  destruct (add _ _ _) as [asm [[inst|]|[]]]; try done. by apply closing_process.
Qed.

Lemma burst_closing q : forall s, 
  shutdown_in_progress (snd (take_burst q s)) = shutdown_in_progress s /\
  shutdown_start (snd (take_burst q s)) = shutdown_start s.
Proof. induction q as [|[d|sz|] q IH]; intros s; simpl; try done. apply (IH (push (Keystroke d) s)). Qed.

Lemma closing_input t0 t ok i q c : closing t0 c ->
  closing t0 (fst (fst (take_input unseal zlib_read t ok i q c))).
Proof.
  intros Hc. unfold take_input. destruct i as [w| |cmd|]; try done.
  - pose proof (closing_datagram t0 t ok w c Hc). by destruct (datagram _ _ _ _ _ _).
  - destruct cmd as [[b|sz|]|]; cbn -[take_burst start_shutdown]; try done.
    + pose proof (burst_closing q (push (Keystroke b) (sender (net_ c)))) as [E1 E2].
      destruct (take_burst q _) as [q' s]. unfold closing. cbn in *. by rewrite E1, E2.
    + unfold start_shutdown. destruct Hc as [H1 H2]. by rewrite H1.
    + unfold start_shutdown. destruct Hc as [H1 H2]. by rewrite H1.
Qed.
End Loops.

(** ** Properties *)

(** C6: the screen is built in order, once: whatever instructions the server
    sends and the network repeats, drops or reorders, the client applies
    exactly the chain in which each instruction starts from the state the
    previous one produced and yields a newer one; the terminal shows the bytes
    of that chain, in that order, and nothing else. *)
Theorem client_applies_in_order sink_ok l c c' :
  process_all sink_ok l c = (c', Ok tt) ->
  let chain := accept_chain (remote_num c) (map snd l) in
  linked (remote_num c) chain /\
  events c' = events c ++ omap shown chain /\
  remote_num c' = fold_left (fun _ i => new_num i) chain (remote_num c).
Proof. intros H. apply process_all_ok in H as [H1 H2]. split; [apply accept_chain_linked|done]. Qed.

Definition hello (b : Z) : bytes := encode_host_message [HostBytes [b]].
Definition fresh_client : Client := connect_client (mkSize 80 24) one_socket 0.

Lemma client_applies_in_order_witness :
  let l := [(10, mkInst 2 0 1 0 0 (hello 104) []); (11, mkInst 2 0 1 0 0 (hello 104) []);
            (12, mkInst 2 5 6 0 0 (hello 120) []); (13, mkInst 2 1 3 0 0 (hello 105) [])] in
  let c' := fst (process_all true l fresh_client) in
  events c' = [Output [104]; Output [105]] /\ remote_num c' = 3.
Proof.
  cbv zeta. match goal with |- context [process_all true ?l fresh_client] =>
    destruct (client_applies_in_order true l fresh_client (fst (process_all true l fresh_client))) as (_ & H1 & H2) end.
  - vm_compute. reflexivity.
  - split; [rewrite H1; vm_compute; reflexivity|rewrite H2; vm_compute; reflexivity].
Defined.

(** the burst of writes swallows the command that ends it: after taking a
    write and the writes queued behind it, the loop also removes the next
    command from the queue and does nothing with it. So a resize queued right
    behind typing is lost, and so is a close: the handle is then closed for
    good, its queue empty, and the session was never told to shut down. *)
Theorem burst_swallows_command now b ws c rest s :
  (forall d, c <> Write d) ->
  take_command now (Some (Write b)) (map Write ws ++ c :: rest) s
  = (rest, fold_left (fun s d => push (Keystroke d) s) (b :: ws) s) /\
  (let t := fst (close (fst (write b (mkTerminal false (Some []))))) in
   t = mkTerminal true (Some [Write b; Close]) /\
   take_command now (Some (Write b)) [Close] s = ([], push (Keystroke b) s) /\
   shutdown_in_progress (push (Keystroke b) s) = shutdown_in_progress s /\
   (forall d sz, fst (write d (mkTerminal true (Some []))) = mkTerminal true (Some []) /\
      fst (resize sz (mkTerminal true (Some []))) = mkTerminal true (Some []) /\
      fst (close (mkTerminal true (Some []))) = mkTerminal true (Some []))).
Proof.
  intros Hc. split; [|done]. simpl. generalize (push (Keystroke b) s). clear s.
  induction ws as [|w ws IH]; intros s; simpl; [|by apply IH].
  destruct c; [by destruct (Hc data)|done|done].
Qed.

Lemma burst_swallows_command_witness :
  take_command 9 (Some (Write [97])) ([Write [98]] ++ ResizeTo (mkSize 120 40) :: []) (Sender_new 0)
  = ([], push (Keystroke [98]) (push (Keystroke [97]) (Sender_new 0))).
Proof. by apply (burst_swallows_command 9 [97] [[98]] (ResizeTo (mkSize 120 40)) [] (Sender_new 0)). Defined.

(** a closing session ends: ten seconds after the shutdown began, any
    round of the loop returns, whatever the input, the queue and the network
    do. *)
Theorem closing_session_ends (seal : bytes -> bytes -> option (bytes * bytes))
    (unseal : bytes -> bytes -> bytes -> option bytes)
    (zlib_compress : bytes -> option bytes) (zlib_read : Z -> bytes -> option bytes)
    env bound sink_ok text i q c t0 :
  closing t0 c -> t0 + ACTIVE_RETRY_TIMEOUT <= now env ->
  is_ok (snd (run_round seal unseal zlib_compress zlib_read env bound sink_ok text i q c)) = false.
Proof.
  intros Hc Ht. unfold run_round.
  pose proof (closing_input unseal zlib_read t0 (now env) sink_ok i q _ (closing_wait t0 (now env) c Hc)) as H.
  destruct (take_input _ _ _ _ _ _ _) as [[c1 q1] [u|e]]; [|done]. simpl in H. destruct H as [H1 H2].
  rewrite H1. unfold shutdown_ack_timed_out. rewrite H1, H2.
  assert ((ACTIVE_RETRY_TIMEOUT <=? sat_sub (now env) t0) = true) as -> by (apply Z.leb_le; unfold sat_sub; lia).
  by rewrite !orb_true_r.
Qed.

Lemma closing_session_ends_witness :
  let c := on_sender (start_shutdown 500) fresh_client in
  is_ok (snd (run_round xor_seal xor_unseal stored_compress stored_read (ok_env 10500) (Ok 2%N) true
                (fun _ => ""%string) Woke [] c)) = false.
Proof.
  apply (closing_session_ends xor_seal xor_unseal stored_compress stored_read (ok_env 10500) (Ok 2%N) true
    (fun _ => ""%string) Woke [] _ 500); [by vm_compute|by vm_compute].
Defined.
