(* ===== verification/Telnet.v ===== *)
(** * Telnet

    [crates/termoso-core/src/telnet.rs]: escaping of user data, the window
    size packet, the incremental option parser and the terminal's operations.
    Strings are their UTF-8 bytes. The TCP stream is the environment: each
    write is given its outcome, and what was written is recorded. *)
From S2P Require Import Prelude.

Definition IAC : Z := 255.
Definition DONT : Z := 254.
Definition DO : Z := 253.
Definition WONT : Z := 252.
Definition WILL : Z := 251.
Definition SB : Z := 250.
Definition SE : Z := 240.

Definition OPT_BINARY : Z := 0.
Definition OPT_ECHO : Z := 1.
Definition OPT_SGA : Z := 3.
Definition OPT_TTYPE : Z := 24.
Definition OPT_NAWS : Z := 31.

Record TermSize := mkSize { cols : Z; rows : Z }.

Definition escape (data : bytes) : bytes :=
  flat_map (fun b => if b =? IAC then [IAC; IAC] else [b]) data.

Definition naws_packet (size : TermSize) : bytes :=
  [IAC; SB; OPT_NAWS]
  ++ flat_map (fun v => flat_map (fun b => if b =? IAC then [IAC; b] else [b]) (be_bytes 2 v))
       [cols size; rows size]
  ++ [IAC; SE].

Inductive State : Type :=
| Data
| Iac
| Opt (cmd : Z)
| Sub
| SubIac.

Record Parser := mkParser { state : State; sub : bytes }.
Definition Parser_new : Parser := mkParser Data [].

(** [str::to_ascii_uppercase]. *)
Definition ascii_upper (b : Z) : Z := if (97 <=? b) && (b <=? 122) then b - 32 else b.

(** The answer to one negotiation: the reply and the new [naws] flag. *)
Definition negotiate (cmd b : Z) (size : TermSize) (naws : bool) : bytes * bool :=
  if (cmd =? DO) && (b =? OPT_NAWS) then ([IAC; WILL; OPT_NAWS] ++ naws_packet size, true)
  else if (cmd =? DO) && ((b =? OPT_TTYPE) || (b =? OPT_SGA) || (b =? OPT_BINARY)) then
    ([IAC; WILL; b], naws)
  else if cmd =? DO then ([IAC; WONT; b], naws)
  else if (cmd =? WILL) && ((b =? OPT_ECHO) || (b =? OPT_SGA) || (b =? OPT_BINARY)) then
    ([IAC; DO; b], naws)
  else if cmd =? WILL then ([IAC; DONT; b], naws)
  else if (cmd =? DONT) && (b =? OPT_NAWS) then ([], false)
  else ([], naws).

(** The answer to a subnegotiation. *)
Definition sub_reply (term sub : bytes) : bytes :=
  match sub with
  | o :: m :: _ =>
      if (o =? OPT_TTYPE) && (m =? 1) then
        [IAC; SB; OPT_TTYPE; 0] ++ map ascii_upper term ++ [IAC; SE]
      else []
  | _ => []
  end.

(** One byte: the new parser and flag, the screen bytes, the reply bytes. *)
Definition feed_byte (term : bytes) (size : TermSize) (p : Parser) (naws : bool) (b : Z) :
    Parser * bool * bytes * bytes :=
  match state p with
  | Data =>
      if b =? IAC then (mkParser Iac (sub p), naws, [], []) else (p, naws, [b], [])
  | Iac =>
      if b =? IAC then (mkParser Data (sub p), naws, [IAC], [])
      else if (b =? DO) || (b =? DONT) || (b =? WILL) || (b =? WONT) then
        (mkParser (Opt b) (sub p), naws, [], [])
      else if b =? SB then (mkParser Sub [], naws, [], [])
      else (mkParser Data (sub p), naws, [], [])
  | Opt cmd =>
      let '(r, naws) := negotiate cmd b size naws in (mkParser Data (sub p), naws, [], r)
  | Sub =>
      if b =? IAC then (mkParser SubIac (sub p), naws, [], [])
      else (mkParser Sub (sub p ++ [b]), naws, [], [])
  | SubIac =>
      if b =? IAC then (mkParser Sub (sub p ++ [IAC]), naws, [], [])
      else if b =? SE then (mkParser Data (sub p), naws, [], sub_reply term (sub p))
      else (mkParser Data (sub p), naws, [], [])
  end.

Fixpoint feed (term : bytes) (size : TermSize) (p : Parser) (naws : bool) (input : bytes) :
    Parser * bool * bytes * bytes :=
  match input with
  | [] => (p, naws, [], [])
  | b :: input' =>
      let '(p, naws, o, r) := feed_byte term size p naws b in
      let '(p, naws, out, reply) := feed term size p naws input' in
      (p, naws, o ++ out, r ++ reply)
  end.

(** ** The terminal *)

Record TelnetTerminal := mkTelnet {
  size : TermSize;
  naws : bool;
  closed : bool;
  written : bytes
}.

Inductive CoreError : Type := Closed | Io.

(** [write_all]: [ok] is whether the stream took it. *)
Definition write_all (ok : bool) (data : bytes) (t : TelnetTerminal) :
    TelnetTerminal * result CoreError unit :=
  if ok then (mkTelnet (size t) (naws t) (closed t) (written t ++ data), Ok tt) else (t, Err Io).

Definition write (ok : bool) (data : bytes) (t : TelnetTerminal) :
    TelnetTerminal * result CoreError unit :=
  if closed t then (t, Err Closed) else write_all ok (escape data) t.

Definition resize (ok : bool) (sz : TermSize) (t : TelnetTerminal) :
    TelnetTerminal * result CoreError unit :=
  let t := mkTelnet sz (naws t) (closed t) (written t) in
  if naws t && negb (closed t) then write_all ok (naws_packet sz) t else (t, Ok tt).

Definition close (t : TelnetTerminal) : TelnetTerminal * result CoreError unit :=
  (mkTelnet (size t) (naws t) true (written t), Ok tt).

(** What one [read] of the reader task brings. *)
Inductive Read : Type := Eof | Bytes (data : bytes) | ReadError.

(** One round of the reader task: the terminal, the parser, the screen bytes
    for the UI, and whether the loop goes on. *)
Definition reader_round (term : bytes) (write_ok sink_ok : bool) (r : Read) (p : Parser)
    (t : TelnetTerminal) : TelnetTerminal * Parser * bytes * bool :=
  match r with
  | Eof | ReadError => (mkTelnet (size t) (naws t) true (written t), p, [], false)
  | Bytes input =>
      let '(p, n, data, reply) := feed term (size t) p (naws t) input in
      let t := mkTelnet (size t) n (closed t) (written t) in
      let '(t, sent) :=
        match reply with [] => (t, true) | _ => (fst (write_all write_ok reply t), write_ok) end in
      if negb sent then (mkTelnet (size t) (naws t) true (written t), p, [], false)
      else
        match data with
        | [] => (t, p, [], true)
        | _ => if sink_ok then (t, p, data, true)
               else (mkTelnet (size t) (naws t) true (written t), p, [], false)
        end
  end.

(** ** Well-formed streams

    What a peer sends, as text, commands, negotiations and subnegotiations. *)
Inductive Segment : Type :=
| Text (data : bytes)
| Plain (cmd : Z)
| Negotiation (cmd opt : Z)
| Subnegotiation (payload : bytes).

Definition segment_wf (s : Segment) : Prop :=
  match s with
  | Text _ => True
  | Plain c => c <> IAC /\ c <> DO /\ c <> DONT /\ c <> WILL /\ c <> WONT /\ c <> SB
  | Negotiation c _ => c = DO \/ c = DONT \/ c = WILL \/ c = WONT
  | Subnegotiation _ => True
  end.

Definition render (s : Segment) : bytes :=
  match s with
  | Text d => escape d
  | Plain c => [IAC; c]
  | Negotiation c o => [IAC; c; o]
  | Subnegotiation p => [IAC; SB] ++ escape p ++ [IAC; SE]
  end.

Definition text_of (s : Segment) : bytes := match s with Text d => d | _ => [] end.

(** The answers, in order, with the flag they leave. *)
Fixpoint answers (term : bytes) (size : TermSize) (naws : bool) (l : list Segment) : bytes * bool :=
  match l with
  | [] => ([], naws)
  | s :: l' =>
      let '(r, naws) :=
        match s with
        | Negotiation c o => negotiate c o size naws
        | Subnegotiation p => (sub_reply term p, naws)
        | _ => ([], naws)
        end in
      let '(rs, naws) := answers term size naws l' in (r ++ rs, naws)
  end.

Lemma feed_app term size i1 i2 : forall p n,
  feed term size p n (i1 ++ i2)
  = let '(p1, n1, o1, r1) := feed term size p n i1 in
    let '(p2, n2, o2, r2) := feed term size p1 n1 i2 in (p2, n2, o1 ++ o2, r1 ++ r2).
Proof.
  induction i1 as [|b i1 IH]; intros p n; simpl.
  - by destruct (feed term size p n i2) as [[[? ?] ?] ?].
  - destruct (feed_byte term size p n b) as [[[p1 n1] o1] r1]. rewrite IH.
    destruct (feed term size p1 n1 i1) as [[[p2 n2] o2] r2].
    destruct (feed term size p2 n2 i2) as [[[p3 n3] o3] r3]. by rewrite !app_assoc.
Qed.

(** Runs the parser over known bytes. *)
Ltac run_feed := cbn [feed feed_byte state sub app]; rewrite ?Z.eqb_refl; cbn [feed feed_byte state sub app].

Lemma escape_cons b d : escape (b :: d) = (if b =? IAC then [IAC; IAC] else [b]) ++ escape d.
Proof. done. Qed.

Lemma feed_text term size d : forall s n,
  feed term size (mkParser Data s) n (escape d) = (mkParser Data s, n, d, []).
Proof.
  induction d as [|b d IH]; intros s n; [done|]. rewrite escape_cons.
  destruct (Z.eqb_spec b IAC) as [->|Hb]; rewrite feed_app; run_feed.
  - run_feed. by rewrite (IH s n).
  - rewrite (proj2 (Z.eqb_neq _ _) Hb). by rewrite (IH s n).
Qed.

Lemma feed_payload term size d : forall s n,
  feed term size (mkParser Sub s) n (escape d) = (mkParser Sub (s ++ d), n, [], []).
Proof.
  induction d as [|b d IH]; intros s n; [by rewrite app_nil_r|]. rewrite escape_cons.
  destruct (Z.eqb_spec b IAC) as [->|Hb]; rewrite feed_app; run_feed.
  - run_feed. by rewrite (IH (s ++ [IAC]) n), <- app_assoc.
  - rewrite (proj2 (Z.eqb_neq _ _) Hb). by rewrite (IH (s ++ [b]) n), <- app_assoc.
Qed.

(** One segment, from the data state. *)
Lemma feed_segment term size s l : segment_wf s ->
  exists s', forall naws, let '(r, naws') :=
      match s with
      | Negotiation c o => negotiate c o size naws
      | Subnegotiation p => (sub_reply term p, naws)
      | _ => ([], naws)
      end in
    feed term size (mkParser Data l) naws (render s) = (mkParser Data s', naws', text_of s, r).
Proof.
  intros Hwf. destruct s as [d|c|c o|p]; cbn [render text_of].
  - exists l. intros naws. apply feed_text.
  - exists l. intros naws. destruct Hwf as (H1 & H2 & H3 & H4 & H5 & H6). run_feed.
    rewrite !(proj2 (Z.eqb_neq c _)) by assumption. done.
  - exists l. intros naws. run_feed.
    assert ((c =? IAC) = false /\ (c =? DO) || (c =? DONT) || (c =? WILL) || (c =? WONT) = true) as [-> ->]
      by (destruct Hwf as [->|[->|[->| ->]]]; done).
    cbn [state]. destruct (negotiate c o size naws) as [r naws'] eqn:E. run_feed. rewrite E.
    cbn. by rewrite ?app_nil_r.
  - exists p. intros naws. rewrite feed_app.
    assert (feed term size (mkParser Data l) naws [IAC; SB] = (mkParser Sub [], naws, [], [])) as -> by done.
    rewrite feed_app, feed_payload. cbn [app].
    assert (feed term size (mkParser Sub p) naws [IAC; SE] = (mkParser Data p, naws, [], sub_reply term p)) as ->
      by (cbn; by rewrite app_nil_r). done.
Qed.

(** A whole stream. *)
Lemma feed_stream term size segs : forall l naws, Forall segment_wf segs ->
  exists s', feed term size (mkParser Data l) naws (concat (map render segs))
  = (mkParser Data s', snd (answers term size naws segs), concat (map text_of segs),
     fst (answers term size naws segs)).
Proof.
  induction segs as [|s segs IH]; intros l naws Hwf; [by exists l|].
  apply Forall_cons in Hwf as [Hs Hwf]. destruct (feed_segment term size s l Hs) as [s1 H1].
  specialize (H1 naws). cbn [map concat answers]. rewrite feed_app.
  destruct (match s with Negotiation c o => _ | Subnegotiation p => _ | _ => _ end) as [r naws1].
  rewrite H1. destruct (IH s1 naws1 Hwf) as [s2 H2]. exists s2. rewrite H2.
  by destruct (answers term size naws1 segs) as [rs naws2].
Qed.

(** ** Replies *)

(** The reply to a negotiation or subnegotiation is itself a stream of
    commands. *)
Definition be2 (v : Z) : bytes := be_bytes 2 v.

Lemma naws_segment sz : naws_packet sz = render (Subnegotiation (OPT_NAWS :: be2 (cols sz) ++ be2 (rows sz))).
Proof.
  assert (forall l, flat_map (fun b => if b =? IAC then [IAC; b] else [b]) l = escape l) as E.
  { induction l as [|b l IH]; [done|]. rewrite escape_cons. cbn [flat_map]. rewrite IH.
    by destruct (Z.eqb_spec b IAC) as [->|]. }
  unfold naws_packet, render. cbn [flat_map]. rewrite !E, app_nil_r, escape_cons.
  unfold escape, be2. rewrite flat_map_app. by rewrite <- !app_assoc.
Qed.

Definition reply_segments (cmd b : Z) (size : TermSize) : list Segment :=
  if (cmd =? DO) && (b =? OPT_NAWS) then
    [Negotiation WILL OPT_NAWS; Subnegotiation (OPT_NAWS :: be2 (cols size) ++ be2 (rows size))]
  else if (cmd =? DO) && ((b =? OPT_TTYPE) || (b =? OPT_SGA) || (b =? OPT_BINARY)) then [Negotiation WILL b]
  else if cmd =? DO then [Negotiation WONT b]
  else if (cmd =? WILL) && ((b =? OPT_ECHO) || (b =? OPT_SGA) || (b =? OPT_BINARY)) then [Negotiation DO b]
  else if cmd =? WILL then [Negotiation DONT b] else [].

(** A stream of commands, without text. *)
Definition commands_only (r : bytes) : Prop :=
  exists segs, Forall segment_wf segs /\ Forall (fun s => text_of s = []) segs /\
    r = concat (map render segs).

Lemma commands_only_app r1 r2 : commands_only r1 -> commands_only r2 -> commands_only (r1 ++ r2).
Proof.
  intros (s1 & H1 & H1' & ->) (s2 & H2 & H2' & ->). exists (s1 ++ s2).
  rewrite map_app, concat_app. split_and!; by try apply Forall_app.
Qed.

Lemma commands_only_nil : commands_only [].
Proof. by exists []. Qed.
#[export] Hint Resolve commands_only_app commands_only_nil : termoso.

(** Lists of segments that are written out. *)
Ltac solve_segments :=
  split_and!; [repeat (apply Forall_cons; split); simpl; auto; apply Forall_nil
              |repeat constructor|cbn [map concat fst]; by rewrite ?app_nil_r].

Lemma negotiate_commands cmd b size naws : commands_only (fst (negotiate cmd b size naws)).
Proof.
  exists (reply_segments cmd b size). unfold reply_segments, negotiate. rewrite naws_segment.
  destruct ((cmd =? DO) && (b =? OPT_NAWS)); [solve_segments|].
  destruct ((cmd =? DO) && _); [solve_segments|]. destruct (cmd =? DO); [solve_segments|].
  destruct ((cmd =? WILL) && _); [solve_segments|]. destruct (cmd =? WILL); [solve_segments|].
  destruct ((cmd =? DONT) && _); solve_segments.
Qed.

Lemma escape_clean l : Forall (fun b => b <> IAC) l -> escape l = l.
Proof.
  induction 1 as [|b l Hb _ IH]; [done|]. rewrite escape_cons, (proj2 (Z.eqb_neq _ _) Hb), IH. done.
Qed.

Lemma sub_reply_commands term sub : Forall (fun b => b <> IAC) term -> commands_only (sub_reply term sub).
Proof.
  intros Ht. unfold sub_reply. destruct sub as [|o [|m rest]]; auto with termoso.
  destruct (_ && _); auto with termoso.
  exists [Subnegotiation ([OPT_TTYPE; 0] ++ map ascii_upper term)]. split_and!; repeat constructor.
  cbn [map concat render]. rewrite app_nil_r, escape_clean; [by rewrite <- app_assoc|].
  repeat (constructor; [done|]). apply Forall_fmap. eapply Forall_impl; [exact Ht|].
  unfold ascii_upper, IAC. simpl. intros b Hb. destruct (_ && _) eqn:E; [|done].
  apply andb_true_iff in E as [_ E%Z.leb_le]. lia.
Qed.

Lemma feed_reply_commands term size i : Forall (fun b => b <> IAC) term ->
  forall p n, commands_only (snd (feed term size p n i)).
Proof.
  intros Ht. induction i as [|b i IH]; intros p n; simpl; auto with termoso.
  assert (commands_only (snd (feed_byte term size p n b))) as Hb.
  { unfold feed_byte. destruct (state p).
    - destruct (_ =? _); auto with termoso.
    - destruct (_ =? _); [|destruct (_ || _); [|destruct (_ =? _)]]; auto with termoso.
    - pose proof (negotiate_commands cmd b size n) as H. by destruct (negotiate cmd b size n).
    - destruct (_ =? _); auto with termoso.
    - destruct (_ =? _); [|destruct (_ =? _)]; auto with termoso. by apply sub_reply_commands. }
  destruct (feed_byte term size p n b) as [[[p1 n1] o1] r1]. specialize (IH p1 n1).
  destruct (feed term size p1 n1 i) as [[[p2 n2] o2] r2]. simpl in *. auto with termoso.
Qed.

(** ** Properties *)

(** the parser separates a peer's stream exactly: for any interleaving of
    text, plain commands, negotiations and subnegotiations, however it is cut
    into reads, the screen gets the text with its [IAC] bytes and nothing
    else, each negotiation is answered by the option table, in order, and the
    parser ends in the data state. *)
Theorem telnet_stream_separated term size segs chunks naws :
  Forall segment_wf segs -> concat chunks = concat (map render segs) ->
  let run := fold_left (fun '(p, n, o, r) c =>
               let '(p, n, o', r') := feed term size p n c in (p, n, o ++ o', r ++ r'))
               chunks (Parser_new, naws, [], []) in
  exists s', run = (mkParser Data s', snd (answers term size naws segs), concat (map text_of segs),
                    fst (answers term size naws segs)).
Proof.
  intros Hwf Hcut run.
  assert (forall cs p n o r, fold_left (fun '(p, n, o, r) c =>
               let '(p, n, o', r') := feed term size p n c in (p, n, o ++ o', r ++ r')) cs (p, n, o, r)
    = let '(p', n', o', r') := feed term size p n (concat cs) in (p', n', o ++ o', r ++ r')) as H.
  { induction cs as [|c cs IH]; intros p n o r; simpl; [by rewrite !app_nil_r|].
    rewrite feed_app. destruct (feed term size p n c) as [[[p1 n1] o1] r1]. rewrite IH.
    destruct (feed term size p1 n1 (concat cs)) as [[[p2 n2] o2] r2]. by rewrite !app_assoc. }
  unfold run. rewrite H, Hcut. change Parser_new with (mkParser Data []).
  destruct (feed_stream term size segs [] naws Hwf) as [s' ->]. by exists s'.
Qed.

Lemma telnet_stream_separated_witness :
  let segs := [Text [104; 255]; Negotiation DO OPT_NAWS; Text [105]; Subnegotiation [OPT_TTYPE; 1]; Plain 241] in
  concat (map text_of segs) = [104; 255; 105] /\
  exists s', fold_left (fun '(p, n, o, r) c =>
               let '(p, n, o', r') := feed [120] (mkSize 100 30) p n c in (p, n, o ++ o', r ++ r'))
               [[104; 255]; [255; 255; 253]; [31; 105; 255; 250; 24]; [1; 255]; [240; 255; 241]]
               (Parser_new, false, [], [])
    = (mkParser Data s', true, [104; 255; 105], fst (answers [120] (mkSize 100 30) false segs)).
Proof.
  split; [done|].
  apply (telnet_stream_separated [120] (mkSize 100 30)
    [Text [104; 255]; Negotiation DO OPT_NAWS; Text [105]; Subnegotiation [OPT_TTYPE; 1]; Plain 241]).
  - repeat (apply Forall_cons; split); try apply Forall_nil; simpl; auto; done.
  - vm_compute. reflexivity.
Defined.

(** what the user types reaches a telnet peer unchanged and what the
    client answers never looks like typing: [write] puts bytes on the stream
    that a peer's parser reads back as exactly the data, and every reply, to
    any input whatsoever, is a sequence of complete commands that a peer's
    parser shows nothing of, ending ready for data. *)
Theorem telnet_output_is_unambiguous term size p naws input data l naws' :
  Forall (fun b => b <> IAC) term ->
  feed term size (mkParser Data l) naws' (escape data) = (mkParser Data l, naws', data, []) /\
  exists l' n r, feed term size (mkParser Data l) naws' (snd (feed term size p naws input))
    = (mkParser Data l', n, [], r).
Proof.
  intros Ht. split; [apply feed_text|].
  destruct (feed_reply_commands term size input Ht p naws) as (segs & Hwf & Htext & ->).
  destruct (feed_stream term size segs l naws' Hwf) as [l' ->]. eexists l', _, _.
  assert (concat (map text_of segs) = []) as ->; [|reflexivity].
  clear Hwf. induction Htext as [|s segs Hs _ IH]; [done|]. simpl. by rewrite Hs, IH.
Qed.

Lemma telnet_output_is_unambiguous_witness :
  let reply := snd (feed [120; 116] (mkSize 255 65535) Parser_new false [255; 253; 31; 255; 251; 1; 7]) in
  exists l' n r, feed [120; 116] (mkSize 255 65535) (mkParser Data []) false reply = (mkParser Data l', n, [], r).
Proof.
  apply (telnet_output_is_unambiguous [120; 116] (mkSize 255 65535) Parser_new false
    [255; 253; 31; 255; 251; 1; 7] [255] [] false). repeat constructor; by vm_compute.
Defined.

(** a closed telnet terminal is inert, and its window size follows the
    user: after [close] nothing more is written by [write] or [resize]; while
    open, a resize is announced exactly when the peer asked for NAWS, and the
    size kept for later negotiations is the new one either way. *)
Lemma telnet_close_and_resize t ok data sz :
  closed (fst (close t)) = true /\
  write ok data (fst (close t)) = (fst (close t), Err Closed) /\
  written (fst (resize ok sz (fst (close t)))) = written t /\
  size (fst (resize ok sz t)) = sz /\
  written (fst (resize ok sz t))
  = written t ++ (if naws t && negb (closed t) && ok then naws_packet sz else []).
Proof.
  unfold resize, write_all. cbn [naws closed close fst]. rewrite andb_false_r.
  split_and!; try done; destruct (naws t), (closed t), ok; simpl; by rewrite ?app_nil_r.
Qed.
