(* ===== verification/Text.v ===== *)
(** * Text

    Rust strings are UTF-8 byte sequences: a Rocq [string] holds the bytes, one
    character each. This file has what the components use of the standard
    library's [str]: the bytes of a string, UTF-8 decoding, trimming and
    splitting with Unicode's White_Space, parsing of numbers. *)
From Stdlib Require Import Ascii.
From stdpp Require Import pretty.
From S2P Require Import Prelude.


Definition byte_of (c : ascii) : Z := Z.of_N (N_of_ascii c).
Definition char_of (b : Z) : ascii := ascii_of_N (Z.to_N b).

(** [str::as_bytes]. *)
Definition as_bytes (s : string) : bytes := map byte_of (String.list_ascii_of_string s).
Definition of_bytes (l : bytes) : string := String.string_of_list_ascii (map char_of l).

(** ** UTF-8 *)

Definition continuation (b : Z) : bool := (128 <=? b) && (b <? 192).

(** The second byte a three or four byte sequence allows. *)
Definition second_of_three (b c : Z) : bool :=
  if b =? 224 then (160 <=? c) && (c <? 192)
  else if b =? 237 then (128 <=? c) && (c <? 160)
  else (225 <=? b) && (b <=? 239) && continuation c.
Definition second_of_four (b c : Z) : bool :=
  if b =? 240 then (144 <=? c) && (c <? 192)
  else if b =? 244 then (128 <=? c) && (c <? 144)
  else (241 <=? b) && (b <=? 243) && continuation c.

Fixpoint valid_utf8 (l : bytes) : bool :=
  match l with
  | [] => true
  | b :: l1 =>
      if b <? 128 then valid_utf8 l1
      else
        match l1 with
        | [] => false
        | c :: l2 =>
            if (194 <=? b) && (b <=? 223) then continuation c && valid_utf8 l2
            else
              match l2 with
              | [] => false
              | d :: l3 =>
                  if (224 <=? b) && (b <=? 239) then second_of_three b c && continuation d && valid_utf8 l3
                  else
                    match l3 with
                    | [] => false
                    | e :: l4 => second_of_four b c && continuation d && continuation e && valid_utf8 l4
                    end
              end
        end
  end.

Definition from_utf8 (l : bytes) : option string := if valid_utf8 l then Some (of_bytes l) else None.

(** [String::from_utf8_lossy]: how many bytes the next character takes, or the
    next invalid sequence, which is replaced as a whole. *)
Definition continues (l : bytes) (n : nat) : bool := match l !! n with Some b => continuation b | None => false end.
Definition utf8_step (l : bytes) : nat * bool :=
  match l with
  | [] => (0%nat, true)
  | b :: l1 =>
      if b <? 128 then (1%nat, true)
      else if (194 <=? b) && (b <=? 223) then
        if continues l1 0 then (2%nat, true) else (1%nat, false)
      else if (224 <=? b) && (b <=? 239) then
        if match l1 with c :: _ => second_of_three b c | [] => false end then
          if continues l1 1 then (3%nat, true) else (2%nat, false)
        else (1%nat, false)
      else if (240 <=? b) && (b <=? 244) then
        if match l1 with c :: _ => second_of_four b c | [] => false end then
          if continues l1 1 then if continues l1 2 then (4%nat, true) else (3%nat, false) else (2%nat, false)
        else (1%nat, false)
      else (1%nat, false)
  end.
Fixpoint lossy (fuel : nat) (l : bytes) : bytes :=
  match fuel, l with
  | S fuel', _ :: _ =>
      let '(n, ok) := utf8_step l in
      (if ok then take n l else [239; 191; 189]) ++ lossy fuel' (drop n l)
  | _, _ => []
  end.
Definition from_utf8_lossy (l : bytes) : string := of_bytes (lossy (length l) l).

(** ** Trimming *)

(** The white space a byte sequence starts with: how many bytes it takes. *)
Definition space_at (l : bytes) : nat :=
  match l with
  | 9 :: _ | 10 :: _ | 11 :: _ | 12 :: _ | 13 :: _ | 32 :: _ => 1
  | 194 :: 133 :: _ | 194 :: 160 :: _ => 2
  | 225 :: 154 :: 128 :: _ | 227 :: 128 :: 128 :: _ | 226 :: 129 :: 159 :: _ => 3
  | 226 :: 128 :: c :: _ =>
      if ((128 <=? c) && (c <=? 138)) || (c =? 168) || (c =? 169) || (c =? 175) then 3 else 0
  | _ => 0
  end.

(** The same, read backwards from the end. *)
Definition space_before (l : bytes) : nat :=
  match l with
  | 9 :: _ | 10 :: _ | 11 :: _ | 12 :: _ | 13 :: _ | 32 :: _ => 1
  | 133 :: 194 :: _ | 160 :: 194 :: _ => 2
  | c :: b :: a :: _ => if (space_at [a; b; c] =? 3)%nat then 3 else 0
  | _ => 0
  end.

(** Drop what [space] measures, again and again; each round drops a byte. *)
Fixpoint trim_by (space : bytes -> nat) (fuel : nat) (l : bytes) : bytes :=
  match fuel with
  | O => l
  | S fuel' => match space l with O => l | n => trim_by space fuel' (drop n l) end
  end.

Definition trim_start (l : bytes) : bytes := trim_by space_at (length l) l.
Definition trim_end (l : bytes) : bytes := rev (trim_by space_before (length l) (rev l)).
Definition trim_bytes (l : bytes) : bytes := trim_end (trim_start l).
Definition trim (s : string) : string := of_bytes (trim_bytes (as_bytes s)).

(** [str::trim_matches] for a set of ASCII characters. *)
Fixpoint drop_any (cs : bytes) (l : bytes) : bytes :=
  match l with b :: l' => if bool_decide (b ∈ cs) then drop_any cs l' else l | [] => [] end.
Definition trim_matches (cs : bytes) (s : string) : string :=
  of_bytes (rev (drop_any cs (rev (drop_any cs (as_bytes s))))).

(** ** Splitting and numbers *)

(** [str::split_once] and [str::rsplit_once] at a one byte character. *)
Fixpoint split_once_bytes (b : Z) (l : bytes) : option (bytes * bytes) :=
  match l with
  | [] => None
  | c :: l' => if c =? b then Some ([], l') else '(x, y) ← split_once_bytes b l'; Some (c :: x, y)
  end.
Definition split_once (c : ascii) (s : string) : option (string * string) :=
  '(x, y) ← split_once_bytes (byte_of c) (as_bytes s); Some (of_bytes x, of_bytes y).
Definition rsplit_once (c : ascii) (s : string) : option (string * string) :=
  '(x, y) ← split_once_bytes (byte_of c) (rev (as_bytes s)); Some (of_bytes (rev y), of_bytes (rev x)).

(** [str::split] at any of some one byte characters. *)
Fixpoint split_any (seps : list Z) (l : bytes) : list bytes :=
  match l with
  | [] => [[]]
  | b :: l' =>
      if bool_decide (b ∈ seps) then [] :: split_any seps l'
      else match split_any seps l' with x :: xs => (b :: x) :: xs | [] => [[b]] end
  end.

(** [str::rsplit_once] at any of some one byte characters, [str::split_once]
    at a string. *)
Fixpoint split_once_any (seps : list Z) (l : bytes) : option (bytes * bytes) :=
  match l with
  | [] => None
  | c :: l' => if bool_decide (c ∈ seps) then Some ([], l') else '(x, y) ← split_once_any seps l'; Some (c :: x, y)
  end.
Definition rsplit_once_any (seps : list Z) (l : bytes) : option (bytes * bytes) :=
  '(x, y) ← split_once_any seps (rev l); Some (rev y, rev x).
Fixpoint split_once_at (pat l : bytes) : option (bytes * bytes) :=
  if decide (take (length pat) l = pat) then Some ([], drop (length pat) l)
  else match l with [] => None | c :: l' => '(x, y) ← split_once_at pat l'; Some (c :: x, y) end.
Definition strip_prefix (pat l : bytes) : option bytes :=
  if decide (take (length pat) l = pat) then Some (drop (length pat) l) else None.

(** [str::lines]. *)
Definition chop_cr (l : bytes) : bytes := match rev l with 13 :: r => rev r | _ => l end.
Fixpoint lines_of (parts : list bytes) : list bytes :=
  match parts with
  | [] => []
  | [last] => match last with [] => [] | _ => [last] end
  | p :: ps => chop_cr p :: lines_of ps
  end.
Definition lines (l : bytes) : list bytes := lines_of (split_any [10] l).

(** [str::to_ascii_lowercase], [eq_ignore_ascii_case]. *)
Definition lowercase (l : bytes) : bytes := map (fun b => if (65 <=? b) && (b <=? 90) then b + 32 else b) l.

(** [str::chars] of valid UTF-8: each character as its bytes. *)
Fixpoint chars_from (fuel : nat) (l : bytes) : list bytes :=
  match fuel, l with
  | S fuel', _ :: _ => let n := fst (utf8_step l) in take n l :: chars_from fuel' (drop n l)
  | _, _ => []
  end.
Definition chars (l : bytes) : list bytes := chars_from (length l) l.

(** [str::replace] of a pattern that is not empty. *)
Fixpoint replace_from (fuel : nat) (pat new l : bytes) : bytes :=
  match fuel, l with
  | S fuel', b :: l' =>
      if decide (take (length pat) l = pat) then new ++ replace_from fuel' pat new (drop (length pat) l)
      else b :: replace_from fuel' pat new l'
  | _, _ => l
  end.
Definition replace (pat new l : bytes) : bytes := replace_from (length l) pat new l.

(** [str::contains] of a one byte character. *)
Definition contains_char (c : ascii) (s : string) : bool := bool_decide (byte_of c ∈ as_bytes s).

(** [str::split_whitespace]; each round drops a byte. *)
Fixpoint words_from (fuel : nat) (word l : bytes) : list bytes :=
  match fuel, l with
  | S fuel', b :: l' =>
      match space_at l with
      | O => words_from fuel' (word ++ [b]) l'
      | n => (match word with [] => [] | _ => [word] end) ++ words_from fuel' [] (drop n l)
      end
  | _, _ => match word with [] => [] | _ => [word] end
  end.
Definition split_whitespace (l : bytes) : list bytes := words_from (length l) [] l.

(** [str::lines().next()] of a text that is not empty. *)
Definition first_line (l : bytes) : bytes :=
  let line := match split_once_bytes 10 l with Some (x, _) => x | None => l end in
  match split_once_bytes 10 l, rev line with
  | Some _, 13 :: r => rev r
  | _, _ => line
  end.

(** [str::parse] of an unsigned integer up to [max]. *)
Definition digit (b : Z) : option Z := if (48 <=? b) && (b <=? 57) then Some (b - 48) else None.
Fixpoint digits (max acc : Z) (l : bytes) : option Z :=
  match l with
  | [] => Some acc
  | b :: l' => d ← digit b; if max <? acc * 10 + d then None else digits max (acc * 10 + d) l'
  end.
Definition parse_uint (max : Z) (l : bytes) : option Z :=
  match l with
  | [] | [43] => None
  | 43 :: l' => digits max 0 l'
  | _ => digits max 0 l
  end.

(** ** Facts *)

Lemma byte_of_range c : is_byte (byte_of c).
Proof. unfold in_width, byte_of. pose proof (N_ascii_bounded c). change (2 ^ 8) with 256. lia. Qed.

Lemma as_bytes_all s : all_bytes (as_bytes s).
Proof. apply Forall_forall. intros b (c & -> & _)%list_elem_of_fmap. apply byte_of_range. Qed.

Lemma char_of_byte_of c : char_of (byte_of c) = c.
Proof. unfold char_of, byte_of. by rewrite N2Z.id, ascii_N_embedding. Qed.

Lemma of_as_bytes s : of_bytes (as_bytes s) = s.
Proof.
  unfold of_bytes, as_bytes. rewrite map_map.
  rewrite (map_ext (fun c => char_of (byte_of c)) (fun c => c)) by apply char_of_byte_of.
  rewrite map_id. apply String.string_of_list_ascii_of_string.
Qed.

Lemma as_bytes_inj s t : as_bytes s = as_bytes t -> s = t.
Proof. intros E. by rewrite <- (of_as_bytes s), <- (of_as_bytes t), E. Qed.

Lemma as_of_bytes l : all_bytes l -> as_bytes (of_bytes l) = l.
Proof.
  intros H. unfold as_bytes, of_bytes. rewrite String.list_ascii_of_string_of_list_ascii, map_map.
  induction H as [|b l Hb _ IH]; [done|]. cbn [map]. rewrite IH. f_equal.
  unfold byte_of, char_of. rewrite Ascii.N_ascii_embedding; unfold in_width in Hb; change (2 ^ 8) with 256 in Hb; lia.
Qed.

Lemma list_ascii_app s t : String.list_ascii_of_string (s +:+ t) = String.list_ascii_of_string s ++ String.list_ascii_of_string t.
Proof. induction s as [|c s IH]; [done|]. change (c :: String.list_ascii_of_string (s +:+ t) = c :: (String.list_ascii_of_string s ++ String.list_ascii_of_string t)). by rewrite IH. Qed.

Lemma as_bytes_app s t : as_bytes (s +:+ t) = as_bytes s ++ as_bytes t.
Proof. unfold as_bytes. rewrite list_ascii_app. apply map_app. Qed.

(** Printable ASCII has no white space to trim. *)
Definition graphic (b : Z) : Prop := 33 <= b <= 126.

Lemma space_at_first b l : graphic b -> space_at (b :: l) = 0%nat.
Proof.
  intros Hb. unfold graphic in Hb.
  destruct b as [|b|b]; try lia. unfold space_at.
  repeat (destruct b as [b|b|]; try reflexivity; try lia).
Qed.

Lemma space_before_first b l : graphic b -> space_before (b :: l) = 0%nat.
Proof.
  intros Hb. unfold graphic in Hb.
  assert (forall x y, space_at [x; y; b] <> 3%nat) as H3.
  { intros x y E. unfold space_at in E. repeat case_match; simplify_eq; lia. }
  assert (match l with b' :: a :: _ => if (space_at [a; b'; b] =? 3)%nat then 3 else 0 | _ => 0 end = 0)%nat as Hz.
  { destruct l as [|b' [|a l']]; try done. destruct (Nat.eqb_spec (space_at [a; b'; b]) 3); [|done].
    by destruct (H3 a b'). }
  etransitivity; [|exact Hz]. clear Hz H3. unfold space_before.
  destruct b as [|b|b]; try lia; repeat (destruct b as [b|b|]; try reflexivity; try lia).
Qed.

(** Text that starts and ends with such a character. *)
Lemma trim_bytes_ends l : (forall b l', l = b :: l' -> graphic b) -> (forall b l', rev l = b :: l' -> graphic b) ->
  trim_bytes l = l.
Proof.
  intros H1 H2. unfold trim_bytes, trim_end, trim_start.
  assert (forall f n l, f l = O -> trim_by f n l = l) as E by (intros f [|n] l' Hf; [done|cbn; by rewrite Hf]).
  rewrite (E space_at) by (destruct l; [done|eapply space_at_first, H1; done]).
  rewrite (E space_before) by (destruct (rev l); [done|eapply space_before_first, H2; done]).
  by rewrite rev_involutive.
Qed.

Lemma trim_bytes_graphic l : Forall graphic l -> trim_bytes l = l.
Proof.
  intros H. apply trim_bytes_ends; intros b l' E.
  - subst. by apply Forall_cons in H as [? _].
  - apply List.Forall_rev in H. rewrite E in H. by apply Forall_cons in H as [? _].
Qed.

Lemma trim_graphic s : Forall graphic (as_bytes s) -> trim s = s.
Proof. intros H. unfold trim. by rewrite trim_bytes_graphic, of_as_bytes. Qed.

(** Printing a number and reading it back. *)
Definition dig (n : N) : Z := 48 + Z.of_N (n mod 10).
Lemma pretty_char n : byte_of (pretty_N_char (n mod 10)) = dig n.
Proof.
  unfold dig. pose proof (N.mod_lt n 10 ltac:(lia)) as H. set (m := (n mod 10)%N) in *. clearbody m.
  destruct m as [|m]; [done|]. do 4 (destruct m as [m|m|]; try done; try lia).
Qed.

Lemma pretty_go_digits n s : exists ds, as_bytes (pretty_N_go n s) = ds ++ as_bytes s /\
  Forall (fun b => 48 <= b <= 57) ds /\ ((0 < n)%N -> ds <> []) /\
  forall max acc l, 0 <= acc -> acc * 10 ^ Z.of_nat (length ds) + Z.of_N n <= max ->
    digits max acc (ds ++ l) = digits max (acc * 10 ^ Z.of_nat (length ds) + Z.of_N n) l.
Proof.
  revert s. induction n as [n IH] using (well_founded_induction N.lt_wf_0). intros s.
  destruct (decide (n = 0%N)) as [->|Hn].
  { exists []. split_and!; [done|done|lia|]. intros max acc l Ha Hm. cbn. f_equal. lia. }
  rewrite pretty_N_go_step by lia. destruct (IH (n / 10)%N ltac:(apply N.div_lt; lia) (String (pretty_N_char (n mod 10)) s))
    as (ds & E & Hd & _ & Hds). exists (ds ++ [dig n]).
  assert (Z.of_N n = 10 * Z.of_N (n / 10) + Z.of_N (n mod 10)) as Hdm by (pose proof (N.div_mod n 10 ltac:(lia)); lia).
  assert (0 <= Z.of_N (n mod 10) <= 9) as Hlt.
  { rewrite N2Z.inj_mod. pose proof (Z.mod_pos_bound (Z.of_N n) 10 ltac:(lia)). change (Z.of_N 10) with 10. lia. }
  assert (0 <= Z.of_N (n / 10)) as Hq by apply N2Z.is_nonneg. split_and!.
  - rewrite E, <- app_assoc. cbn [as_bytes String.list_ascii_of_string map app]. by rewrite pretty_char.
  - apply Forall_app. split; [done|]. constructor; [|done]. unfold dig. cbv beta. revert Hlt. generalize (Z.of_N (n mod 10)). lia.
  - intros _ E'. by apply app_eq_nil in E' as [_ ?].
  - intros max acc l Ha. rewrite length_app, Nat2Z.inj_add. change (Z.of_nat (length [dig n])) with 1.
    rewrite Z.pow_add_r, Z.pow_1_r by lia. set (q := 10 ^ Z.of_nat (length ds)) in *. intros Hm.
    assert (0 <= acc * q) by (apply Z.mul_nonneg_nonneg; [done|apply Z.pow_nonneg; lia]).
    revert Hlt Hq Hdm Hds. unfold dig. generalize (Z.of_N (n mod 10)) as r, (Z.of_N (n / 10)) as x. intros r x Hlt Hq Hdm Hds.
    rewrite <- app_assoc, Hds by lia. cbn [app digits]. unfold digit.
    assert ((48 <=? 48 + r) && (48 + r <=? 57) = true) as -> by lia. cbn [mbind option_bind].
    rewrite (proj2 (Z.ltb_ge _ _)) by lia. f_equal. lia.
Qed.

Lemma parse_uint_pretty max z : 0 <= z <= max -> parse_uint max (as_bytes (pretty z)) = Some z.
Proof.
  intros Hz. destruct z as [|p|p]; [by destruct max; try lia| |lia].
  change (pretty (Z.pos p)) with (pretty_N_go (N.pos p) "").
  destruct (pretty_go_digits (N.pos p) "") as (ds & -> & Hd & Hne & Hds). change (as_bytes "") with (@nil Z).
  specialize (Hds max 0 [] ltac:(lia) ltac:(lia)). assert (digits max 0 (ds ++ []) = Some (Z.pos p)) as E by (rewrite Hds; cbn [digits]; f_equal; lia).
  assert (ds <> []) as Hn by (apply Hne; lia). rewrite app_nil_r in *. unfold parse_uint.
  destruct ds as [|b ds]; [done|]. apply Forall_cons in Hd as [Hb _].
  destruct b as [|b|b]; [lia| |lia]. repeat (destruct b as [b|b|]; try exact E; try lia).
Qed.

Lemma pretty_digits z : 0 <= z -> Forall (fun b => 48 <= b <= 57) (as_bytes (pretty z)) /\ as_bytes (pretty z) <> [].
Proof.
  intros Hz. destruct z as [|p|p]; [split; [by repeat constructor|done]| |lia].
  change (pretty (Z.pos p)) with (pretty_N_go (N.pos p) "").
  destruct (pretty_go_digits (N.pos p) "") as (ds & -> & Hd & Hne & _). change (as_bytes "") with (@nil Z). rewrite app_nil_r.
  split; [|apply Hne; lia]. eapply Forall_impl; [exact Hd|]. intros. cbn in *. lia.
Qed.

Lemma pretty_graphic z : 0 <= z -> Forall graphic (as_bytes (pretty z)) /\ as_bytes (pretty z) <> [].
Proof.
  intros Hz. destruct (pretty_digits z Hz) as [Hd Hne]. split; [|done].
  eapply Forall_impl; [exact Hd|]. unfold graphic. intros. cbn in *. lia.
Qed.

(** A Rust string is valid UTF-8, which decoding leaves alone. *)
Lemma valid_step b l : valid_utf8 (b :: l) = true ->
  snd (utf8_step (b :: l)) = true /\ valid_utf8 (drop (fst (utf8_step (b :: l))) (b :: l)) = true /\
  (0 < fst (utf8_step (b :: l)))%nat.
Proof.
  cbn [valid_utf8]. unfold utf8_step. destruct (b <? 128) eqn:E0; [by cbn; auto with lia|].
  destruct l as [|c l]; [done|]. destruct ((194 <=? b) && (b <=? 223)) eqn:E1.
  { unfold continues. intros [H1 H2]%andb_true_iff. cbn. rewrite H1. cbn. auto with lia. }
  destruct l as [|d l]; [done|]. destruct ((224 <=? b) && (b <=? 239)) eqn:E2.
  { unfold continues. intros [[H1 H2]%andb_true_iff H3]%andb_true_iff. rewrite H1. cbn. rewrite H2. cbn. auto with lia. }
  destruct l as [|e l]; [done|]. intros [[[H1 H2]%andb_true_iff H3]%andb_true_iff H4]%andb_true_iff.
  assert ((240 <=? b) && (b <=? 244) = true) as ->.
  { unfold second_of_four in H1. destruct (b =? 240) eqn:?, (b =? 244) eqn:?; lia. }
  rewrite H1. unfold continues. cbn. rewrite H2, H3. cbn. auto with lia.
Qed.

Lemma lossy_valid fuel l : (length l <= fuel)%nat -> valid_utf8 l = true -> lossy fuel l = l.
Proof.
  revert l. induction fuel as [|fuel IH]; intros [|b l] Hl Hv; try done; [cbn in Hl; lia|].
  destruct (valid_step b l Hv) as (H1 & H2 & H3). cbn [lossy]. destruct (utf8_step (b :: l)) as [n ok].
  cbn [fst snd] in *. subst ok. rewrite IH; [by rewrite take_drop| |done]. rewrite length_drop. cbn [length] in *. lia.
Qed.

Lemma from_utf8_lossy_valid s : valid_utf8 (as_bytes s) = true -> from_utf8_lossy (as_bytes s) = s.
Proof. intros H. unfold from_utf8_lossy. by rewrite lossy_valid, of_as_bytes. Qed.

Lemma parse_uint_range max l z : 0 <= max -> parse_uint max l = Some z -> 0 <= z <= max.
Proof.
  intros Hm. assert (forall l acc, 0 <= acc <= max -> digits max acc l = Some z -> 0 <= z <= max) as H.
  { clear l. intros l. induction l as [|b l IH]; intros acc Ha; cbn; [by intros [= <-]|].
    destruct (digit b) as [d|] eqn:E; [|done]. cbn. destruct (Z.ltb_spec max (acc * 10 + d)); [done|]. apply IH.
    unfold digit in E. destruct (_ && _) eqn:Eb; [|done]. injection E as <-. lia. }
  unfold parse_uint. intros E. assert (exists l', digits max 0 l' = Some z) as [l' E'].
  { destruct l as [|b l]; [done|]. destruct b as [|p|p]; eauto. repeat (destruct p as [p|p|]; eauto). destruct l; eauto. done. }
  by apply (H l' 0).
Qed.

(** ** Enough fuel

    Each round of these loops takes at least a byte, so that any fuel from the
    length of the text on gives the same. *)

Lemma utf8_step_pos b l : (0 < fst (utf8_step (b :: l)))%nat.
Proof. unfold utf8_step. repeat case_match; cbn; lia. Qed.

Lemma chars_concat l : concat (chars l) = l.
Proof.
  unfold chars. assert (forall fuel l, (length l <= fuel)%nat -> concat (chars_from fuel l) = l) as H; [|by apply H].
  clear l. intros fuel. induction fuel as [|fuel IH]; intros [|b l] Hl; cbn [length] in Hl; try done; [lia|].
  cbn [chars_from concat]. pose proof (utf8_step_pos b l). rewrite IH; [apply take_drop|].
  rewrite length_drop. cbn [length]. lia.
Qed.

Lemma words_enough fuel fuel' w l : (length l <= fuel)%nat -> (length l <= fuel')%nat ->
  words_from fuel w l = words_from fuel' w l.
Proof.
  revert fuel' w l. induction fuel as [|fuel IH]; intros [|fuel'] w [|b l] H1 H2; cbn [length] in *; try done; try lia.
  cbn [words_from]. destruct (space_at (b :: l)) as [|n]; [apply IH; lia|].
  f_equal. apply IH; rewrite length_drop; cbn [length]; lia.
Qed.

Lemma replace_enough fuel fuel' pat new l : pat <> [] -> (length l <= fuel)%nat -> (length l <= fuel')%nat ->
  replace_from fuel pat new l = replace_from fuel' pat new l.
Proof.
  intros Hp. assert (0 < length pat)%nat by (destruct pat; [done|cbn; lia]).
  revert fuel' l. induction fuel as [|fuel IH]; intros [|fuel'] [|b l] H1 H2; cbn [length] in *; try done; try lia.
  cbn [replace_from]. case_decide; f_equal; apply IH; rewrite ?length_drop; cbn [length]; lia.
Qed.

(** ** Lines and words *)

Lemma split_any_app seps l b rest : (forall c, c ∈ l -> c ∉ seps) -> b ∈ seps ->
  split_any seps (l ++ b :: rest) = l :: split_any seps rest.
Proof.
  intros Hl Hb. induction l as [|c l IH]; cbn; [by rewrite bool_decide_eq_true_2|].
  rewrite bool_decide_eq_false_2 by (apply Hl; by left). rewrite IH by (intros x Hx; apply Hl; by right). done.
Qed.
Lemma split_any_none seps l : (forall c, c ∈ l -> c ∉ seps) -> split_any seps l = [l].
Proof.
  intros Hl. induction l as [|c l IH]; cbn; [done|].
  rewrite bool_decide_eq_false_2 by (apply Hl; by left). by rewrite IH by (intros x Hx; apply Hl; by right).
Qed.

Lemma split_whitespace_last w : Forall graphic w -> w <> [] -> split_whitespace w = [w].
Proof.
  unfold split_whitespace. intros Hw Hn.
  assert (forall v, words_from (length w) v w = match v ++ w with [] => [] | _ => [v ++ w] end) as E.
  { clear Hn. induction Hw as [|b w Hb _ IH]; intros v; [by rewrite app_nil_r|].
    cbn [length words_from]. by rewrite space_at_first, IH, <- app_assoc by done. }
  rewrite E. by destruct w.
Qed.

Lemma split_whitespace_word w rest : Forall graphic w -> w <> [] ->
  split_whitespace (w ++ 32 :: rest) = w :: split_whitespace rest.
Proof.
  unfold split_whitespace. intros Hw Hn.
  assert (forall v, words_from (length (w ++ 32 :: rest)) v (w ++ 32 :: rest) =
            match v ++ w with [] => [] | _ => [v ++ w] end ++ words_from (length rest) [] rest) as E.
  { clear Hn. induction Hw as [|b w Hb _ IH]; intros v; [by rewrite app_nil_r|].
    cbn [length words_from app]. by rewrite space_at_first, IH, <- app_assoc by done. }
  rewrite E. by destruct w.
Qed.

Lemma lines_cons l rest : 10 ∉ l -> lines (l ++ 10 :: rest) = chop_cr l :: lines rest.
Proof.
  intros Hl. unfold lines. rewrite split_any_app; [|by intros c Hc ->%list_elem_of_singleton|by left].
  cbn [lines_of]. destruct (split_any [10] rest) eqn:E; [|done].
  destruct rest as [|b rest]; [done|]. cbn in E. by repeat case_match.
Qed.
