(* ===== verification/Envelope.v ===== *)
(** * Encrypted envelopes and live frames

    [crates/termoso-crypto/src/aead.rs] (envelopes, associated data, wrapped
    keys), [encoding.rs], [SymmetricKey::from_slice] of [keys.rs] and the frames
    of [live.rs]. The XChaCha20-Poly1305 cipher and the base64 engine are
    libraries, parameters of the model; a random nonce is an argument of the
    function that draws it. *)
From Stdlib Require Import Ascii.
From S2P Require Import Prelude Text.

Inductive CryptoError : Type :=
| Decrypt | Encrypt | BadEnvelope | Base64 | BadKey | Opaque (msg : string) | Recovery | Kdf.

Definition PROTOCOL_VERSION : string := "termoso/v1".
Definition ENVELOPE_V1 : Z := 1.
Definition NONCE_LEN : nat := 24.
Definition TAG_LEN : nat := 16.
Definition KEY_LEN : nat := 32.

(** ** Associated data *)

Definition label (parts : list string) : string :=
  fold_left (fun s p => (s +:+ "/") +:+ p) parts PROTOCOL_VERSION.
Definition entity_field (kind id field : string) : string := label ["entity"; kind; id; field]%string.
Definition entity_aad (kind id : string) : string := label ["entity"; kind; id]%string.

(** [SymmetricKey::from_slice]. *)
Definition from_slice (b : bytes) : result CryptoError bytes :=
  if (length b =? KEY_LEN)%nat then Ok b else Err BadKey.

(** ** Envelopes *)

Section Envelope.
Context (seal unseal : bytes -> bytes -> bytes -> bytes -> option bytes).
Context (b64_encode : bytes -> string) (b64_decode : string -> option bytes).

Definition encrypt (key : bytes) (aad : string) (nonce plaintext : bytes) : result CryptoError bytes :=
  ct ← ok_or (seal key nonce (as_bytes aad) plaintext) Encrypt;
  Ok ([ENVELOPE_V1] ++ nonce ++ ct).

Definition decrypt (key : bytes) (aad : string) (envelope : bytes) : result CryptoError bytes :=
  if (length envelope <? 1 + NONCE_LEN + TAG_LEN)%nat then Err BadEnvelope
  else
    match envelope with
    | [] => Err BadEnvelope
    | version :: rest =>
        if negb (version =? ENVELOPE_V1) then Err BadEnvelope
        else ok_or (unseal key (take NONCE_LEN rest) (as_bytes aad) (drop NONCE_LEN rest)) Decrypt
    end.

Definition b64 (b : bytes) : string := b64_encode b.
Definition unb64 (s : string) : result CryptoError bytes := ok_or (b64_decode (trim s)) Base64.

Definition encrypt_b64 (key : bytes) (aad : string) (nonce plaintext : bytes) : result CryptoError string :=
  b64 <$> encrypt key aad nonce plaintext.
Definition decrypt_b64 (key : bytes) (aad : string) (envelope : string) : result CryptoError bytes :=
  e ← unb64 envelope; decrypt key aad e.

Definition encrypt_str (key : bytes) (aad : string) (nonce : bytes) (value : string) : result CryptoError string :=
  encrypt_b64 key aad nonce (as_bytes value).
Definition decrypt_str (key : bytes) (aad : string) (envelope : string) : result CryptoError string :=
  b ← decrypt_b64 key aad envelope; ok_or (from_utf8 b) Decrypt.

Definition wrap_key (kek : bytes) (aad : string) (nonce key : bytes) : result CryptoError string :=
  encrypt_b64 kek aad nonce key.
Definition unwrap_key (kek : bytes) (aad : string) (wrapped : string) : result CryptoError bytes :=
  b ← decrypt_b64 kek aad wrapped; from_slice b.

(** ** Live frames *)

Inductive Direction : Type := FromHost | FromViewer.
Inductive FrameKind : Type := Output | Input | Meta | Typing | Resize.

Definition direction_label (d : Direction) : string :=
  match d with FromHost => "host" | FromViewer => "viewer" end.
Definition tag (k : FrameKind) : Z :=
  match k with Output => 0 | Input => 1 | Meta => 2 | Typing => 3 | Resize => 4 end.
Definition from_tag (t : Z) : option FrameKind :=
  match t with
  | 0 => Some Output | 1 => Some Input | 2 => Some Meta | 3 => Some Typing | 4 => Some Resize
  | _ => None
  end.

Definition aad (session_id : string) (d : Direction) : string :=
  label ["live"; session_id; direction_label d]%string.

Definition seal_frame (key : bytes) (session_id : string) (d : Direction) (k : FrameKind) (nonce payload : bytes) :
    result CryptoError bytes :=
  encrypt key (aad session_id d) nonce ([tag k] ++ payload).

Definition open_frame (key : bytes) (session_id : string) (d : Direction) (envelope : bytes) :
    result CryptoError (FrameKind * bytes) :=
  pt ← decrypt key (aad session_id d) envelope;
  match pt with
  | [] => Err BadEnvelope
  | t :: payload => kind ← ok_or (from_tag t) BadEnvelope; Ok (kind, payload)
  end.

(** ** Round trips *)

(** What the libraries document: decryption undoes encryption, the tag adds
    16 bytes, ciphertexts are bytes, base64 decoding undoes encoding and the
    encoding is printable. *)
Record cipher_laws : Prop := {
  cl_open : forall k n a m c, seal k n a m = Some c -> unseal k n a c = Some m;
  cl_tag : forall k n a m c, seal k n a m = Some c -> length c = (length m + TAG_LEN)%nat;
  cl_bytes : forall k n a m c, all_bytes m -> seal k n a m = Some c -> all_bytes c;
  cl_b64 : forall b, all_bytes b -> b64_decode (b64_encode b) = Some b;
  cl_graphic : forall b, all_bytes b -> Forall graphic (as_bytes (b64_encode b))
}.

Context (laws : cipher_laws).

Lemma decrypt_encrypt key a nonce m e : length nonce = NONCE_LEN ->
  encrypt key a nonce m = Ok e -> decrypt key a e = Ok m.
Proof.
  intros Hn (c & Hc%ok_or_ok & [= <-])%bind_ok. unfold decrypt. cbn [app length].
  pose proof (cl_tag laws _ _ _ _ _ Hc) as Hl. rewrite length_app, Hn, Hl.
  rewrite (proj2 (Nat.ltb_ge _ _)) by (unfold NONCE_LEN, TAG_LEN; lia). cbn [negb Z.eqb ENVELOPE_V1].
  change (1 =? 1) with true. cbn [negb]. rewrite <- Hn, take_app_length, drop_app_length.
  by rewrite (cl_open laws _ _ _ _ _ Hc).
Qed.

Lemma decrypt_str_encrypt_str key a nonce v e : length nonce = NONCE_LEN -> all_bytes nonce ->
  valid_utf8 (as_bytes v) = true -> encrypt_str key a nonce v = Ok e -> decrypt_str key a e = Ok v.
Proof.
  intros Hn Hnb Hv. unfold encrypt_str, encrypt_b64, b64.
  destruct (encrypt key a nonce (as_bytes v)) as [c|] eqn:Hc; cbn; [|done]. intros [= <-].
  assert (all_bytes c) as Hcb.
  { apply bind_ok in Hc as (ct & Hct%ok_or_ok & [= <-]). constructor; [done|]. apply all_bytes_app. split; [done|].
    by apply (cl_bytes laws) in Hct; [|apply as_bytes_all]. }
  unfold decrypt_str, decrypt_b64, unb64. rewrite trim_graphic by (by apply (cl_graphic laws)).
  rewrite (cl_b64 laws) by done. cbn. rewrite (decrypt_encrypt key a nonce _ c Hn Hc). cbn.
  unfold from_utf8. by rewrite Hv, of_as_bytes.
Qed.
End Envelope.

(** ** What a frame's associated data binds *)

Lemma aad_bytes s d : as_bytes (aad s d) =
  as_bytes "termoso/v1/live/" ++ as_bytes s ++ as_bytes ("/" +:+ direction_label d).
Proof. unfold aad, label. cbn [fold_left]. rewrite !as_bytes_app, <- !app_assoc. done. Qed.

Lemma aad_inj s1 d1 s2 d2 : as_bytes (aad s1 d1) = as_bytes (aad s2 d2) -> s1 = s2 /\ d1 = d2.
Proof.
  rewrite !aad_bytes. intros E%app_inv_head.
  assert (d1 = d2) as <-; [|by split; [apply as_bytes_inj; by apply app_inv_tail in E|]].
  apply (f_equal (fun l => head (rev l))) in E. rewrite !rev_app_distr in E.
  by destruct d1, d2.
Qed.

Lemma from_tag_tag k : from_tag (tag k) = Some k.
Proof. by destruct k. Qed.

(** A frame a participant sealed. *)
Record Frame := mkFrame { f_session : string; f_dir : Direction; f_kind : FrameKind; f_payload : bytes }.

(** A frame that [open_frame] accepts for a session and a direction is one
    that a holder of the stream key sealed for that session and that direction,
    with that kind and payload: the relay can neither replay a viewer's frame
    as host output nor move a frame to another session. Authenticity of the
    cipher (what opens under the key was sealed under it, with the same
    associated data) is the hypothesis. *)
Theorem open_frame_only_what_was_sealed unseal key (frames : list Frame) session dir envelope kind payload
    (auth : forall n a c m, unseal key n a c = Some m ->
       exists f, f ∈ frames /\ a = as_bytes (aad (f_session f) (f_dir f)) /\ m = [tag (f_kind f)] ++ f_payload f) :
  open_frame unseal key session dir envelope = Ok (kind, payload) ->
  mkFrame session dir kind payload ∈ frames.
Proof.
  intros (pt & Hd & Hp)%bind_ok. unfold decrypt in Hd.
  destruct (_ <? _)%nat; [done|]. destruct envelope as [|v rest]; [done|].
  destruct (negb _); [done|]. apply ok_or_ok in Hd.
  destruct (auth _ _ _ _ Hd) as ([s' d' k' p'] & Hin & Ha & ->). cbn in *.
  apply aad_inj in Ha as [-> ->]. rewrite from_tag_tag in Hp. cbn in Hp. by injection Hp as <- <-.
Qed.

(** A toy cipher with the documented laws: the tag is sixteen copies of the
    length of the associated data. *)
Definition toy_seal (k n a m : bytes) : option bytes := Some (m ++ replicate TAG_LEN (Z.of_nat (length a))).
Definition toy_unseal (k n a c : bytes) : option bytes :=
  let m := take (length c - TAG_LEN) c in
  if decide (c = m ++ replicate TAG_LEN (Z.of_nat (length a))) then Some m else None.

Lemma toy_open k n a m c : toy_seal k n a m = Some c -> toy_unseal k n a c = Some m.
Proof.
  intros Hc. set (t := replicate TAG_LEN (Z.of_nat (length a))).
  assert (c = m ++ t) as -> by (unfold toy_seal in Hc; by injection Hc).
  unfold toy_unseal. fold t. assert (length (m ++ t) - TAG_LEN = length m)%nat as ->.
  { rewrite length_app. unfold t. rewrite length_replicate. lia. }
  rewrite take_app_length. by rewrite decide_True.
Qed.

(** A participant's only frame, opened for its session and direction. *)
Definition ex_payload : bytes := [108; 115; 13].
Definition ex_unseal (k n a c : bytes) : option bytes :=
  if decide (a = as_bytes (aad "s1" FromHost)) then
    (if decide (toy_unseal k n a c = Some ([tag Output] ++ ex_payload)) then Some ([tag Output] ++ ex_payload) else None)
  else None.

Definition ex_envelope : bytes :=
  [ENVELOPE_V1] ++ replicate NONCE_LEN 7 ++ default [] (toy_seal [] [] (as_bytes (aad "s1" FromHost)) ([tag Output] ++ ex_payload)).

Lemma open_frame_only_what_was_sealed_witness :
  seal_frame toy_seal [] "s1" FromHost Output (replicate NONCE_LEN 7) ex_payload = Ok ex_envelope /\
  open_frame ex_unseal [] "s1" FromHost ex_envelope = Ok (Output, ex_payload) /\
  mkFrame "s1" FromHost Output ex_payload ∈ [mkFrame "s1" FromHost Output ex_payload].
Proof.
  split; [vm_compute; reflexivity|]. split; [vm_compute; reflexivity|].
  apply (open_frame_only_what_was_sealed ex_unseal [] _ "s1" FromHost ex_envelope); [|vm_compute; reflexivity].
  intros n a c m. unfold ex_unseal. repeat case_decide; [|done..]. intros [= <-].
  eexists. split; [by left|done].
Defined.

(** The toy cipher with a printable encoding has the documented laws. *)
Fixpoint toy_b64 (b : bytes) : string :=
  match b with
  | [] => EmptyString
  | x :: b' => String (char_of (48 + x / 16)) (String (char_of (48 + x `mod` 16)) (toy_b64 b'))
  end.
Fixpoint toy_unb64 (s : string) : option bytes :=
  match s with
  | EmptyString => Some []
  | String c (String d s') => cons ((byte_of c - 48) * 16 + (byte_of d - 48)) <$> toy_unb64 s'
  | _ => None
  end.
Definition toy_seal0 (k n a m : bytes) : option bytes := Some (m ++ replicate TAG_LEN 0).
Definition toy_unseal0 (k n a c : bytes) : option bytes := Some (take (length c - TAG_LEN) c).

Lemma byte_of_char_of b : is_byte b -> byte_of (char_of b) = b.
Proof.
  unfold in_width, byte_of, char_of. intros H. rewrite N_ascii_embedding; [lia|].
  change (2 ^ 8) with 256 in H. lia.
Qed.

Lemma nibbles x : is_byte x -> (0 <= x / 16 <= 15) /\ (0 <= x `mod` 16 <= 15) /\ x = x / 16 * 16 + x `mod` 16.
Proof.
  unfold in_width. change (2 ^ 8) with 256. intros H. pose proof (Z.mod_pos_bound x 16).
  pose proof (Z.div_mod x 16). assert (x / 16 < 16) by (apply Z.div_lt_upper_bound; lia).
  assert (0 <= x / 16) by (apply Z.div_pos; lia). lia.
Qed.

Lemma toy_laws : cipher_laws toy_seal0 toy_unseal0 toy_b64 toy_unb64.
Proof.
  split.
  - intros k n a m c [= <-]. unfold toy_unseal0. rewrite length_app. f_equal. 
    change (length _) with 16%nat at 2. rewrite Nat.add_sub. apply take_app_length.
  - intros k n a m c [= <-]. by rewrite length_app.
  - intros k n a m c Hm [= <-]. apply all_bytes_app. split; [done|]. by repeat constructor.
  - induction 1 as [|x b Hx _ IH]; [done|]. destruct (nibbles x Hx) as (? & ? & E). cbn. rewrite IH. cbn.
    rewrite !byte_of_char_of by (unfold in_width; lia). repeat f_equal. lia.
  - induction 1 as [|x b Hx _ IH]; [constructor|]. destruct (nibbles x Hx) as (? & ? & E).
    unfold as_bytes. cbn. rewrite !byte_of_char_of by (unfold in_width; lia).
    repeat constructor; unfold graphic; lia || exact IH.
Qed.
