(* ===== verification/Authz.v ===== *)
(** * Team permissions

    [crates/termoso-server/src/authz.rs] with the permission catalog of
    [crates/termoso-proto/src/team.rs]: memberships, roles, what may be
    assigned, and the mapping of IdP groups to roles.

    The database is a value: rows of [team_roles], [team_members], [teams] and
    [team_role_mappings], and each SQL statement is the function it denotes on
    them. Uuids are numbers. [str::trim], lower-casing (Rust's and SQL's) and
    the collation of [ORDER BY] are parameters: they are Unicode tables. *)
From Stdlib Require Import Ascii.
From S2P Require Import Prelude.

#[local] Open Scope string_scope.

(** ** The catalog *)

Inductive TeamRole : Type := Member | Admin | Owner.

#[export] Instance TeamRole_eq_dec : EqDecision TeamRole.
Proof. solve_decision. Defined.

Definition is_admin (r : TeamRole) : bool :=
  match r with Admin | Owner => true | Member => false end.

Record BuiltinRole := mkBuiltin {
  b_slug : string; b_name : string; b_description : string;
  b_permissions : list string; b_position : Z
}.

Definition PERMISSIONS : list string :=
  ["team.view"; "team.rename"; "team.settings"; "team.delete"; "team.transfer"; "members.view";
   "members.view_mfa"; "members.invite"; "members.remove"; "members.suspend"; "members.role";
   "invites.view"; "roles.manage"; "vaults.create"; "vaults.rename"; "vaults.archive";
   "vaults.delete"; "vaults.transfer"; "vaults.members"; "vaults.rotate_key"; "acl.manage";
   "rotation.manage"; "access.approve"; "team.export"; "devices.approve"; "vaults.history";
   "entities.read"; "entities.write"; "entities.delete"; "entities.move"; "entities.share_link";
   "secrets.reveal"; "secrets.copy"; "keys.generate"; "keys.export"; "snippets.run";
   "connect.ssh"; "connect.sftp"; "connect.port_forward"; "connect.telnet"; "connect.serial";
   "connect.mosh"; "connect.local_terminal"; "connect.record"; "connect.bridge"; "live.start";
   "live.join"; "live.control"; "logs.view_own"; "logs.view_team"; "logs.export"; "logs.delete";
   "export.vault"; "import.vault"; "bridges.manage"; "bridges.use"; "sshid.manage"; "ai.use";
   "mcp.use"; "digest.manage"; "audit.view"; "audit.view_ips"; "audit.export";
   "webhooks.manage"; "tokens.manage"; "policies.manage"; "sso.manage"; "scim.manage";
   "scim.tokens"].

Definition CLIENT_ENFORCED_PERMISSIONS : list string :=
  ["secrets.reveal"; "secrets.copy"; "keys.export"; "snippets.run"; "connect.serial";
   "connect.local_terminal"].

Definition OWNER_ONLY_PERMISSIONS : list string :=
  ["team.delete"; "team.transfer"].

Definition descriptions : list (string * (string * string * bool)) :=
  [("team.view", ("View team",
     "See the team, its name and settings.", false));
   ("team.rename", ("Rename team",
     "Change the team name.", false));
   ("team.settings", ("Team settings",
     "Change presence, multiplayer and other team-wide switches.", false));
   ("team.delete", ("Delete team",
     "Owner only.", true));
   ("devices.approve", ("Approve devices",
     "Vet members' new devices when the team requires admin approval; reject ends their sessions.", true));
   ("team.export", ("Export team data",
     "Download everything the server stores for the team (GDPR export).", true));
   ("team.transfer", ("Transfer ownership",
     "Owner only.", true));
   ("members.view", ("View members",
     "See who is in the team.", false));
   ("members.view_mfa", ("View MFA status",
     "See which members have MFA or a passkey enabled.", false));
   ("members.invite", ("Invite members",
     "Create, list and revoke invitations.", false));
   ("invites.view", ("View invitations",
     "See pending invitations without creating them.", false));
   ("members.remove", ("Remove members",
     "Remove a member from the team.", true));
   ("members.suspend", ("Suspend members",
     "Temporarily block a member without removing them.", true));
   ("members.role", ("Change roles",
     "Assign roles to members (never above your own permissions).", true));
   ("roles.manage", ("Manage roles",
     "Create, edit and delete custom roles and group mappings.", true));
   ("vaults.create", ("Create vaults",
     "Create team vaults and folders.", false));
   ("vaults.rename", ("Rename vaults",
     "Rename a vault or folder.", false));
   ("vaults.archive", ("Archive vaults",
     "Archive and restore vaults.", false));
   ("vaults.delete", ("Delete vaults",
     "Permanently delete a vault and its contents.", true));
   ("vaults.transfer", ("Move vaults",
     "Move a vault or folder to another parent or team.", true));
   ("vaults.members", ("Manage vault access",
     "Grant and revoke vault membership.", true));
   ("acl.manage", ("Manage group and host access",
     "Set per-group/per-host access rules (hidden, connect only, read, edit) for roles, members and IdP groups inside team vaults.", true));
   ("rotation.manage", ("Manage credential rotation",
     "See overdue keys and passwords, queue and cancel rotation jobs.", true));
   ("access.approve", ("Approve access requests",
     "Grant, deny and revoke temporary (just-in-time) access to team vaults.", true));
   ("vaults.rotate_key", ("Rotate vault keys",
     "Rotate a vault key after access changes.", true));
   ("vaults.history", ("Vault history",
     "See change history and roll back entities.", false));
   ("entities.read", ("Read entities",
     "See hosts, snippets, keys and identities.", false));
   ("entities.write", ("Edit entities",
     "Create and edit hosts, snippets, keys and identities.", false));
   ("entities.delete", ("Delete entities",
     "Delete hosts, snippets, keys and identities.", true));
   ("entities.move", ("Move entities",
     "Move entities between vaults and folders.", false));
   ("entities.share_link", ("Share links",
     "Create share links for hosts and snippets.", false));
   ("secrets.reveal", ("Reveal secrets",
     "Show passwords, keys and passphrases in clear text.", true));
   ("secrets.copy", ("Copy secrets",
     "Copy passwords and keys to the clipboard without showing them.", false));
   ("keys.generate", ("Generate keys",
     "Generate SSH keys inside team vaults.", false));
   ("keys.export", ("Export keys",
     "Export private keys from team vaults.", true));
   ("snippets.run", ("Run snippets",
     "Run snippets on hosts.", false));
   ("connect.ssh", ("SSH",
     "Open SSH sessions to team hosts.", false));
   ("connect.sftp", ("SFTP",
     "Open SFTP sessions to team hosts.", false));
   ("connect.port_forward", ("Port forwarding",
     "Create local, remote and dynamic forwards.", false));
   ("connect.telnet", ("Telnet",
     "Open Telnet sessions.", false));
   ("connect.serial", ("Serial",
     "Open serial sessions.", false));
   ("connect.mosh", ("Mosh",
     "Open Mosh sessions.", false));
   ("connect.local_terminal", ("Local terminal",
     "Use the local terminal and on-device Linux.", false));
   ("connect.record", ("Record sessions",
     "Record terminal sessions to team logs.", false));
   ("connect.bridge", ("Connect via bridge",
     "Use team bridges and connect-only access.", false));
   ("live.start", ("Start multiplayer",
     "Share a session with others.", false));
   ("live.join", ("Join multiplayer",
     "Join a shared session.", false));
   ("live.control", ("Control multiplayer",
     "Give and take control in a shared session.", false));
   ("logs.view_own", ("View own logs",
     "See your own session logs.", false));
   ("logs.view_team", ("View team logs",
     "See session logs of every member.", true));
   ("logs.export", ("Export logs",
     "Download session logs.", true));
   ("logs.delete", ("Delete logs",
     "Delete session logs.", true));
   ("export.vault", ("Export vaults",
     "Export vault contents.", true));
   ("import.vault", ("Import",
     "Import hosts and keys into team vaults.", false));
   ("bridges.manage", ("Manage bridges",
     "Enrol, configure and remove team bridges.", true));
   ("bridges.use", ("Use bridges",
     "Connect through team bridges.", false));
   ("sshid.manage", ("Manage SSH ID",
     "Manage the team SSH identity and agent.", true));
   ("ai.use", ("Use AI",
     "Use the AI assistant with team context.", false));
   ("mcp.use", ("Use MCP",
     "Expose team data to MCP clients.", false));
   ("digest.manage", ("Activity digest",
     "Configure the team activity digest.", false));
   ("audit.view", ("View audit log",
     "Read the team audit log.", false));
   ("audit.view_ips", ("View IPs in audit",
     "See IP addresses in audit entries.", true));
   ("audit.export", ("Export audit log",
     "Download the audit log as CSV or JSONL.", true));
   ("webhooks.manage", ("Manage webhooks",
     "Configure audit webhooks and SIEM delivery.", true));
   ("tokens.manage", ("Manage API tokens",
     "Create and revoke team API tokens.", true));
   ("policies.manage", ("Manage policies",
     "Set MFA, key, session and SSO policies.", true));
   ("sso.manage", ("Manage SSO",
     "Configure identity providers and domains.", true));
   ("scim.manage", ("Manage SCIM",
     "Configure SCIM provisioning and group mappings.", true));
   ("scim.tokens", ("SCIM tokens",
     "Issue and revoke SCIM bearer tokens.", true))].

Definition BUILTIN_ROLES : list BuiltinRole :=
  [mkBuiltin "owner" "Owner"
     "Everything, including deleting the team and transferring ownership."
     ["*"] 0;
   mkBuiltin "admin" "Admin"
     "Manages members, roles, vaults, policies, audit and integrations."
     ["team.view"; "team.rename"; "team.settings"; "members.view"; "members.view_mfa";
      "members.invite"; "invites.view"; "members.remove"; "members.suspend"; "members.role";
      "roles.manage"; "vaults.create"; "vaults.rename"; "vaults.archive"; "vaults.delete";
      "vaults.transfer"; "vaults.members"; "acl.manage"; "rotation.manage"; "access.approve";
      "team.export"; "devices.approve"; "vaults.rotate_key"; "vaults.history"; "entities.read";
      "entities.write"; "entities.delete"; "entities.move"; "entities.share_link";
      "secrets.reveal"; "secrets.copy"; "keys.generate"; "keys.export"; "snippets.run";
      "connect.ssh"; "connect.sftp"; "connect.port_forward"; "connect.telnet"; "connect.serial";
      "connect.mosh"; "connect.local_terminal"; "connect.record"; "connect.bridge";
      "live.start"; "live.join"; "live.control"; "logs.view_own"; "logs.view_team";
      "logs.export"; "logs.delete"; "export.vault"; "import.vault"; "bridges.manage";
      "bridges.use"; "sshid.manage"; "ai.use"; "mcp.use"; "digest.manage"; "audit.view";
      "audit.view_ips"; "audit.export"; "webhooks.manage"; "tokens.manage"; "policies.manage";
      "sso.manage"; "scim.manage"; "scim.tokens"] 10;
   mkBuiltin "member" "Member"
     "Works with the vaults they are given access to."
     ["team.view"; "members.view"; "invites.view"; "entities.read"; "entities.write";
      "entities.delete"; "entities.move"; "entities.share_link"; "secrets.reveal";
      "secrets.copy"; "keys.generate"; "snippets.run"; "connect.ssh"; "connect.sftp";
      "connect.port_forward"; "connect.telnet"; "connect.serial"; "connect.mosh";
      "connect.local_terminal"; "connect.record"; "connect.bridge"; "live.start"; "live.join";
      "live.control"; "logs.view_own"; "import.vault"; "bridges.use"; "ai.use"; "mcp.use";
      "audit.view"; "vaults.history"] 20;
   mkBuiltin "viewer" "Viewer"
     "Connects to hosts but cannot change anything or see secrets."
     ["team.view"; "members.view"; "entities.read"; "secrets.copy"; "connect.ssh";
      "connect.sftp"; "connect.port_forward"; "connect.telnet"; "connect.mosh";
      "connect.local_terminal"; "connect.bridge"; "bridges.use"; "live.join"; "logs.view_own"] 30;
   mkBuiltin "auditor" "Auditor"
     "Reads the audit log and team session logs; no vault access."
     ["team.view"; "members.view"; "members.view_mfa"; "invites.view"; "audit.view";
      "audit.view_ips"; "audit.export"; "logs.view_team"] 40].
Definition contains (l : list string) (s : string) : bool := bool_decide (s ∈ l).
Definition is_permission (key : string) : bool := contains PERMISSIONS key.

Definition describe (key : string) : string * string * bool :=
  match list_find (fun e => fst e = key) descriptions with
  | Some (_, (_, d)) => d
  | None => ("", "", false)
  end.

(** [key.split('.').next()]. *)
Fixpoint before_dot (s : string) : string :=
  match s with
  | EmptyString => ""
  | String c s' => if Ascii.eqb c "."%char then "" else String c (before_dot s')
  end.

Record PermissionInfo := mkInfo {
  key : string; group : string; title : string; description : string;
  dangerous : bool; enforced_by : string
}.

Definition catalog : list PermissionInfo :=
  map (fun key =>
         let '(title, description, dangerous) := describe key in
         mkInfo key (before_dot key) title description dangerous
           (if contains CLIENT_ENFORCED_PERMISSIONS key then "client" else "server"))
    PERMISSIONS.

(** ** Errors and rows *)

Inductive Error : Type :=
| PermissionDenied (perm : string)
| NotFound (what : string)
| BadRequest (msg : string)
| RowNotFound.
Definition denied (perm : string) : Error := PermissionDenied perm.
Abbreviation api := (result Error).

Abbreviation uuid := N.

Record RoleRow := mkRole {
  r_id : uuid; r_team : uuid; r_slug : string; r_name : string; r_description : string;
  r_permissions : list string; r_builtin : bool; r_position : Z
}.

Record MemberRow := mkMember {
  m_team : uuid; m_user : uuid; m_role : string; m_role_id : uuid; m_role_source : string
}.

Record MappingRow := mkMapping {
  x_team : uuid; x_group_name : string; x_role_id : uuid; x_priority : Z
}.

Record Db := mkDb {
  team_roles : list RoleRow;
  team_members : list MemberRow;
  default_roles : gmap uuid (option uuid);
  role_mappings : list MappingRow
}.

Record RoleRef := mkRef { id : uuid; slug : string; name : string }.

Record Membership := mkMembership {
  team_id : uuid;
  user_id : uuid;
  level : TeamRole;
  role : RoleRef;
  role_source : string;
  permissions : list string;
  wildcard : bool
}.

Definition has (m : Membership) (perm : string) : bool :=
  bool_decide (level m = Owner) || wildcard m || contains (permissions m) perm.

(** Rust sorts strings by their bytes. *)
Definition str_le (a b : string) : Prop := String.leb a b = true.
#[export] Instance str_le_dec a b : Decision (str_le a b).
Proof. unfold str_le. apply _. Defined.
Definition sorted (l : list string) : list string := merge_sort str_le l.

Definition permission_list (m : Membership) : list string :=
  if bool_decide (level m = Owner) || wildcard m then ["*"]
  else sorted (elements (list_to_set (permissions m) : gset string)).

(** ** Queries *)

Definition parse_team_role (s : string) : TeamRole :=
  if decide (s = "owner") then Owner else if decide (s = "admin") then Admin else Member.

Definition find_role (db : Db) (rid : uuid) : option RoleRow :=
  snd <$> list_find (fun r => r_id r = rid) (team_roles db).

Definition membership (db : Db) (team user : uuid) : api Membership :=
  match list_find (fun m => m_team m = team /\ m_user m = user /\ is_Some (find_role db (m_role_id m)))
          (team_members db) with
  | Some (_, m) =>
      match find_role db (m_role_id m) with
      | Some r =>
          Ok (mkMembership team user (parse_team_role (m_role m))
                (mkRef (r_id r) (r_slug r) (r_name r)) (m_role_source m) (r_permissions r)
                (contains (r_permissions r) "*"))
      | None => Err (NotFound "Team")
      end
  | None => Err (NotFound "Team")
  end.

Definition require (db : Db) (team user : uuid) (perm : string) : api Membership :=
  m ← membership db team user;
  if has m perm then Ok m else Err (denied perm).

Section Trim.
Context (trim : string -> string).

(** The loop of [normalize_permissions], filling the set. *)
Fixpoint check_permissions (perms : list string) (set : gset string) : api (gset string) :=
  match perms with
  | [] => Ok set
  | p :: perms' =>
      let p := trim p in
      if bool_decide (p = "*") || contains OWNER_ONLY_PERMISSIONS p then
        Err (BadRequest ("`" +:+ p +:+ "` belongs to the owner only"))
      else if negb (is_permission p) then
        Err (BadRequest ("Unknown permission `" +:+ p +:+ "`"))
      else check_permissions perms' ({[p]} ∪ set)
  end.

Definition normalize_permissions (perms : list string) : api (list string) :=
  set ← check_permissions perms ∅; Ok (sorted (elements set)).
End Trim.

(** ** Built-in roles *)

(** The inserted rows: [ids] are the fresh identifiers, one per role. *)
Definition seed_rows (team : uuid) (ids : list uuid) : list RoleRow :=
  zip_with (fun id b => mkRole id team (b_slug b) (b_name b) (b_description b) (b_permissions b) true
                          (b_position b)) ids BUILTIN_ROLES.

(** The id a seeded slug got ([Uuid::nil()] when there is none). *)
Definition seeded_id (rows : list RoleRow) (slug : string) : option uuid :=
  (fun e => r_id (snd e)) <$> list_find (fun r => r_slug r = slug) rows.

Definition seed_builtin_roles (db : Db) (team : uuid) (ids : list uuid) : Db * uuid :=
  let rows := seed_rows team ids in
  (mkDb (team_roles db ++ rows) (team_members db)
     (match seeded_id rows "member" with
      | Some mid => alter (fun _ => Some mid) team (default_roles db)
      | None => default_roles db
      end) (role_mappings db),
   default 0%N (seeded_id rows "owner")).

Definition builtin_role_id (db : Db) (team : uuid) (slug : string) : api uuid :=
  match list_find (fun r => r_team r = team /\ r_slug r = slug /\ r_builtin r = true) (team_roles db) with
  | Some (_, r) => Ok (r_id r)
  | None => Err RowNotFound
  end.

Definition level_slug (l : TeamRole) : string :=
  match l with Owner => "owner" | Admin => "admin" | Member => "member" end.

Definition role_id_for_level (db : Db) (team : uuid) (l : TeamRole) : api uuid :=
  builtin_role_id db team (level_slug l).

Definition default_role_id (db : Db) (team : uuid) : api uuid :=
  match default_roles db !! team with
  | Some (Some rid) => Ok rid
  | _ => Err (NotFound "Team")
  end.

(** ** Handing out a role *)

Definition assignable_role (db : Db) (actor : Membership) (role_id : option uuid) (level : TeamRole) :
    api (RoleRef * TeamRole) :=
  rid ← match role_id with Some rid => Ok rid | None => role_id_for_level db (team_id actor) level end;
  match list_find (fun r => r_team r = team_id actor /\ r_id r = rid) (team_roles db) with
  | None => Err (NotFound "Role")
  | Some (_, r) =>
      if bool_decide (r_slug r = "owner") || contains (r_permissions r) "*" then
        Err (BadRequest "The owner role cannot be assigned")
      else
        match list_find (fun p => has actor p = false) (r_permissions r) with
        | Some (_, missing) => Err (denied missing)
        | None =>
            Ok (mkRef rid (r_slug r) (r_name r), if decide (r_slug r = "admin") then Admin else Member)
        end
  end.

(** ** IdP groups *)

Section Groups.
Context (trim lower : string -> string) (group_le : string -> string -> bool).

(** [ORDER BY x.priority, x.group_name LIMIT 1]. *)
Definition mapping_le (a b : MappingRow) : bool :=
  (x_priority a <? x_priority b)%Z
  || ((x_priority a =? x_priority b)%Z && group_le (x_group_name a) (x_group_name b)).

Definition first_mapping (l : list MappingRow) : option MappingRow :=
  fold_left (fun best x =>
    match best with
    | None => Some x
    | Some b => if mapping_le b x then Some b else Some x
    end) l None.

Definition mapped_role (db : Db) (team : uuid) (lowered : list string) : option uuid :=
  x_role_id <$> first_mapping
    (filter (fun x => x_team x = team /\ lower (x_group_name x) ∈ lowered) (role_mappings db)).

(** The target of one membership, [None] for [continue]. *)
Definition mapping_target (mapped default_role : option uuid) (source : string) : option uuid :=
  match mapped with
  | Some r => Some r
  | None =>
      if bool_decide (source = "idp") || bool_decide (source = "scim") then default_role else None
  end.

(** The guard of the [UPDATE]: the role exists in the team and is not the owner's. *)
Definition assignable_target (db : Db) (team target : uuid) : Prop :=
  Exists (fun r => r_id r = target /\ r_team r = team /\ r_slug r <> "owner") (team_roles db).
#[export] Instance assignable_target_dec db team target : Decision (assignable_target db team target).
Proof. unfold assignable_target. apply _. Defined.

Definition update_member (db : Db) (user : uuid) (new_source : string) (target : uuid) (m : MemberRow) :
    MemberRow :=
  mkMember (m_team m) user
    (match find_role db target with
     | Some r => if decide (r_slug r = "admin") then "admin" else "member"
     | None => "member"
     end) target new_source.

(** What the loop does with one of the selected rows. *)
Definition remap (db : Db) (user : uuid) (lowered : list string) (new_source : string) (m : MemberRow) :
    option MemberRow :=
  match mapping_target (mapped_role db (m_team m) lowered)
          (default None (default_roles db !! m_team m)) (m_role_source m) with
  | None => None
  | Some target =>
      if bool_decide (target = m_role_id m) && bool_decide (m_role_source m = new_source) then None
      else if decide (assignable_target db (m_team m) target) then
        Some (update_member db user new_source target m)
      else None
  end.

(** The rows the query selects. *)
Definition selected (user : uuid) (only_team : option uuid) (m : MemberRow) : Prop :=
  m_user m = user /\ m_role m <> "owner" /\ (only_team = None \/ only_team = Some (m_team m)).
#[export] Instance selected_dec user only m : Decision (selected user only m).
Proof. unfold selected. apply _. Defined.

Definition lowered_groups (groups : list string) : list string :=
  filter (fun g => g <> "") (map (fun g => lower (trim g)) groups).

Definition apply_group_mappings_scoped (db : Db) (user : uuid) (groups : list string)
    (only_team : option uuid) (new_source : string) : Db * list uuid :=
  let lowered := lowered_groups groups in
  let step m := if decide (selected user only_team m) then remap db user lowered new_source m else None in
  (mkDb (team_roles db) (map (fun m => default m (step m)) (team_members db)) (default_roles db)
     (role_mappings db),
   omap (fun m => m_team <$> step m) (team_members db)).

Definition apply_group_mappings (db : Db) (user : uuid) (groups : list string) : Db * list uuid :=
  apply_group_mappings_scoped db user groups None "idp".
End Groups.

Definition role_parts (level : TeamRole) (id : uuid) (slug name : string) (perms : list string) :
    RoleRef * list string :=
  (mkRef id slug name,
   if bool_decide (level = Owner) || contains perms "*" then ["*"] else sorted perms).

(** ** Lemmas *)

Lemma contains_spec l s : contains l s = true <-> s ∈ l.
Proof. unfold contains. apply bool_decide_eq_true. Qed.

#[export] Instance str_le_total : Total str_le.
Proof. intros a b. unfold str_le. apply String.leb_total. Qed.

Lemma sorted_elem l s : s ∈ sorted l <-> s ∈ l.
Proof. unfold sorted. by rewrite (merge_sort_Permutation str_le l). Qed.

Lemma sorted_NoDup l : NoDup l -> NoDup (sorted l).
Proof. unfold sorted. by rewrite (merge_sort_Permutation str_le l). Qed.

Lemma find_role_spec db rid r : NoDup (map r_id (team_roles db)) ->
  find_role db rid = Some r <-> r ∈ team_roles db /\ r_id r = rid.
Proof.
  intros Hnd. unfold find_role. split.
  - intros ([i r'] & H & ->)%fmap_Some. by apply list_find_elem in H.
  - intros [Hr E]. destruct (list_find (fun r => r_id r = rid) (team_roles db)) as [[i r']|] eqn:F.
    + apply list_find_elem in F as [H E']. simpl. f_equal.
      eapply NoDup_map_inj; [exact Hnd|done|done|congruence].
    + by destruct (list_find_none _ _ F r Hr).
Qed.

Lemma has_of_role db team user r m : NoDup (map r_id (team_roles db)) ->
  membership db team user = Ok m -> r_id r = id (role m) -> r ∈ team_roles db ->
  permissions m = r_permissions r /\ wildcard m = contains (r_permissions r) "*".
Proof.
  intros Hnd. unfold membership. destruct (list_find _ _) as [[i row]|]; [|done].
  destruct (find_role db (m_role_id row)) as [r'|] eqn:F; [|done].
  intros [= <-] E Hr. simpl in *. apply find_role_spec in F as [Hr' E']; [|done].
  assert (find_role db (r_id r') = Some r') as F' by by apply find_role_spec.
  assert (find_role db (r_id r') = Some r) as F'' by (apply find_role_spec; [done|split; [done|congruence]]).
  rewrite F' in F''. by injection F'' as ->.
Qed.

(** What [assignable_role] grants. *)
Lemma assignable_role_ok db actor rid lvl ref lvl' : assignable_role db actor rid lvl = Ok (ref, lvl') ->
  exists r, r ∈ team_roles db /\ r_team r = team_id actor /\ r_id r = id ref /\
    r_slug r <> "owner" /\ contains (r_permissions r) "*" = false /\
    lvl' = (if decide (r_slug r = "admin") then Admin else Member) /\
    forall p, p ∈ r_permissions r -> has actor p = true.
Proof.
  unfold assignable_role. intros (rid' & _ & H)%bind_ok.
  destruct (list_find (fun r => r_team r = team_id actor /\ r_id r = rid') (team_roles db)) as [[i r]|] eqn:F; [|done].
  apply list_find_elem in F as [Hi [Ht Hid]].
  destruct (bool_decide (r_slug r = "owner") || contains (r_permissions r) "*") eqn:E; [done|].
  apply orb_false_iff in E as [Es%bool_decide_eq_false Ew].
  destruct (list_find _ (r_permissions r)) as [[j p]|] eqn:Fp; [done|]. injection H as <- <-.
  exists r. split_and!; try done.
  intros p Hp. apply not_false_iff_true. exact (list_find_none _ _ Fp p Hp).
Qed.

Section Normalize.
Context (trim : string -> string).

Definition grantable (p : string) : Prop :=
  p <> "*" /\ (p ∉ OWNER_ONLY_PERMISSIONS) /\ (p ∈ PERMISSIONS).
#[export] Instance grantable_dec p : Decision (grantable p).
Proof. unfold grantable. apply _. Defined.

Lemma check_permissions_spec perms : forall set,
  if decide (Forall (fun p => grantable (trim p)) perms) then
    check_permissions trim perms set = Ok (list_to_set (map trim perms) ∪ set)
  else is_ok (check_permissions trim perms set) = false.
Proof.
  induction perms as [|p perms IH]; intros set.
  - rewrite decide_True by constructor. simpl. by rewrite (left_id_L ∅ (∪)).
  - cbn [check_permissions]. cbv zeta.
    destruct (bool_decide (trim p = "*") || contains OWNER_ONLY_PERMISSIONS (trim p)) eqn:E1.
    { rewrite decide_False; [done|]. intros [(H1 & H2 & _) _]%Forall_cons.
      apply orb_true_iff in E1 as [E1%bool_decide_eq_true|E1%contains_spec]; done. }
    apply orb_false_iff in E1 as [E1%bool_decide_eq_false E2].
    destruct (is_permission (trim p)) eqn:E3; cbn [negb].
    + specialize (IH ({[trim p]} ∪ set)). assert (grantable (trim p)) as Hg.
      { split_and!; [done| |by apply contains_spec].
        intros H%contains_spec. by rewrite H in E2. }
      destruct (decide (Forall (fun p => grantable (trim p)) perms)) as [HF|HF].
      * rewrite decide_True by by constructor. rewrite IH. f_equal. cbn [map list_to_set].
        rewrite (assoc_L (∪)), (comm_L (∪) (list_to_set (map trim perms))). done.
      * rewrite decide_False; [done|]. by intros [_ H]%Forall_cons.
    + rewrite decide_False; [done|]. intros [(_ & _ & H%contains_spec) _]%Forall_cons.
      unfold is_permission in E3. by rewrite H in E3.
Qed.
End Normalize.

(** A member row that points at the role. *)
Definition with_member (db : Db) (m : MemberRow) : Db :=
  mkDb (team_roles db) (m :: team_members db) (default_roles db) (role_mappings db).

Definition level_str (l : TeamRole) : string :=
  match l with Owner => "owner" | Admin => "admin" | Member => "member" end.

(** ** Properties *)

(** handing out a role never hands out more than the actor has: when
    [assignable_role] allows a role, a user given that role and level (by the
    row an invitation or a role change writes) holds only permissions the
    actor holds, is not an owner, and has no wildcard. *)
Theorem assigned_role_grants_no_more db actor rid lvl ref lvl' user source m :
  NoDup (map r_id (team_roles db)) ->
  assignable_role db actor rid lvl = Ok (ref, lvl') ->
  membership (with_member db (mkMember (team_id actor) user (level_str lvl') (id ref) source))
    (team_id actor) user = Ok m ->
  level m <> Owner /\ wildcard m = false /\ forall p, has m p = true -> has actor p = true.
Proof.
  intros Hnd (r & Hr & Ht & Hid & Hslug & Hw & Hl & Hp)%assignable_role_ok.
  set (row := mkMember (team_id actor) user (level_str lvl') (id ref) source).
  assert (find_role (with_member db row) (id ref) = Some r) as F by by apply find_role_spec.
  unfold membership. cbn [team_members with_member list_find].
  rewrite decide_True by (split_and!; [done|done|by exists r]). cbn [m_role_id row]. rewrite F.
  intros [= <-]. cbn [level wildcard].
  assert (parse_team_role (m_role row) <> Owner) as Hlvl
    by (unfold row; cbn; subst lvl'; by destruct (decide (r_slug r = "admin"))).
  split_and!; [done|done|]. intros p. unfold has. cbn [level wildcard permissions].
  rewrite Hw, bool_decide_eq_false_2 by done. cbn [orb]. intros H%contains_spec. by apply Hp.
Qed.

Definition demo_db : Db :=
  mkDb [mkRole 1 7 "owner" "Owner" "" ["*"] true 0; mkRole 2 7 "ops" "Ops" "" ["connect.ssh"; "audit.view"] false 50]
    [mkMember 7 100 "member" 2 "manual"] {[ 7%N := Some 2%N ]} [].
Definition demo_actor : Membership :=
  mkMembership 7 100 Member (mkRef 2 "ops" "Ops") "manual" ["connect.ssh"; "audit.view"] false.

Lemma assigned_role_grants_no_more_witness :
  assignable_role demo_db demo_actor (Some 2%N) Member = Ok (mkRef 2 "ops" "Ops", Member) /\
  (forall m, membership (with_member demo_db (mkMember 7 200 "member" 2 "manual")) 7 200 = Ok m ->
     level m <> Owner /\ wildcard m = false /\ forall p, has m p = true -> has demo_actor p = true).
Proof.
  split; [by vm_compute|]. intros m Hm.
  refine (assigned_role_grants_no_more demo_db demo_actor (Some 2%N) Member (mkRef 2 "ops" "Ops") Member 200 "manual" m _ _ Hm).
  - apply (bool_decide_unpack (NoDup (map r_id (team_roles demo_db)))). by vm_compute.
  - by vm_compute.
Defined.

(** the permission set of a role is normalised or refused as a whole:
    [normalize_permissions] succeeds exactly when every key, trimmed, is a
    known permission that is not the owner's, and then returns those keys
    once each, sorted; so no stored role can hold the wildcard or an
    owner-only permission. *)
Theorem normalize_permissions_exact trim perms :
  match normalize_permissions trim perms with
  | Ok v => Forall (fun p => grantable (trim p)) perms /\ NoDup v /\ Sorted str_le v /\
      (forall p, p ∈ v <-> exists q, q ∈ perms /\ p = trim q) /\ Forall grantable v
  | Err _ => ~ Forall (fun p => grantable (trim p)) perms
  end.
Proof.
  unfold normalize_permissions. pose proof (check_permissions_spec trim perms ∅) as H.
  destruct (decide (Forall (fun p => grantable (trim p)) perms)) as [HF|HF].
  - rewrite H. cbn [mbind result_bind]. rewrite (right_id_L ∅ (∪)).
    assert (forall p, p ∈ sorted (elements (list_to_set (map trim perms) : gset string)) <->
                      exists q, q ∈ perms /\ p = trim q) as He.
    { intros p. rewrite sorted_elem, elem_of_elements, elem_of_list_to_set, list_elem_of_fmap.
      split; intros (q & ? & ?); eauto. }
    split_and!; [done|apply sorted_NoDup, NoDup_elements|apply Sorted_merge_sort; apply _|done|].
    apply Forall_forall. intros p (q & Hq & ->)%He. rewrite Forall_forall in HF. by apply HF.
  - destruct (check_permissions trim perms ∅); [done|]. by cbn.
Qed.

(** a sign-in through an IdP changes only what the mappings allow: every
    membership of another user, and every owner, stays as it was; a changed
    membership gets a role of its own team that is not the owner's, and the
    new source; and a member placed by hand is left alone unless a mapping
    matches one of the user's groups. *)
Theorem group_mappings_bounded trim lower group_le db user groups only source i m m' :
  let db' := fst (apply_group_mappings_scoped trim lower group_le db user groups only source) in
  team_members db !! i = Some m -> team_members db' !! i = Some m' ->
  team_roles db' = team_roles db /\
  m_team m' = m_team m /\ m_user m' = m_user m /\
  (m_user m <> user \/ m_role m = "owner" -> m' = m) /\
  (m' <> m -> m_role m' <> "owner" /\ m_role_source m' = source /\
     exists r, r ∈ team_roles db /\ r_id r = m_role_id m' /\ r_team r = m_team m /\ r_slug r <> "owner") /\
  (m_role_source m <> "idp" -> m_role_source m <> "scim" ->
   mapped_role lower group_le db (m_team m) (lowered_groups trim lower groups) = None -> m' = m).
Proof.
  intros db' Hm Hm'. unfold db', apply_group_mappings_scoped in Hm'. cbn [fst team_members] in Hm'.
  rewrite list_lookup_fmap, Hm in Hm'. cbn in Hm'. injection Hm' as <-. split; [done|].
  destruct (decide (selected user only m)) as [(Hu & Ho & _)|Hns].
  2:{ cbn. split_and!; done. }
  unfold remap. set (t := mapping_target _ _ _).
  destruct t as [target|] eqn:Et; [|cbn; split_and!; done].
  destruct (bool_decide (target = m_role_id m) && _); [cbn; split_and!; done|].
  destruct (decide (assignable_target db (m_team m) target)) as [Ha|]; [|cbn; split_and!; done].
  cbn [default]. unfold update_member. cbn [m_team m_user m_role m_role_source m_role_id].
  split_and!; try done.
  - by intros [?|?].
  - intros _. split_and!; [by destruct (find_role db target); [destruct (decide _)|]|done|].
    apply Exists_exists in Ha as (r & Hr & ? & ? & ?). eauto.
  - intros H1 H2 H3. subst t. rewrite H3 in Et. unfold mapping_target in Et.
    by rewrite !bool_decide_eq_false_2 in Et.
Qed.

Definition keep (s : string) : string := s.
Definition mapped_db : Db :=
  mkDb (team_roles demo_db ++ [mkRole 3 7 "admin" "Admin" "" ["roles.manage"] true 10])
    [mkMember 7 100 "member" 2 "manual"; mkMember 7 101 "owner" 1 "manual"] {[ 7%N := Some 2%N ]}
    [mkMapping 7 "wheel" 3 5].

Lemma group_mappings_bounded_witness :
  let db' := fst (apply_group_mappings_scoped keep keep String.leb mapped_db 100 ["staff"] None "idp") in
  team_members db' !! 0%nat = Some (mkMember 7 100 "member" 2 "manual") /\
  (mkMember 7 100 "member" 2 "manual" = mkMember 7 100 "member" 2 "manual").
Proof.
  split; [by vm_compute|].
  destruct (group_mappings_bounded keep keep String.leb mapped_db 100 ["staff"] None "idp" 0
    (mkMember 7 100 "member" 2 "manual") (mkMember 7 100 "member" 2 "manual")) as (_ & _ & _ & _ & _ & H).
  - by vm_compute.
  - by vm_compute.
  - apply H; [by vm_compute..].
Defined.

(** a group mapping overrides a manual assignment: a member somebody
    placed by hand, who is not an owner, is moved to the role of the first
    mapping that matches one of the user's groups, and is from then on managed
    by the IdP. *)
Theorem group_mapping_overrides_manual trim lower group_le db user groups i m target :
  team_members db !! i = Some m -> m_user m = user -> m_role m <> "owner" -> m_role_source m = "manual" ->
  mapped_role lower group_le db (m_team m) (lowered_groups trim lower groups) = Some target ->
  assignable_target db (m_team m) target ->
  let db' := fst (apply_group_mappings trim lower group_le db user groups) in
  exists m', team_members db' !! i = Some m' /\ m_role_id m' = target /\ m_role_source m' = "idp".
Proof.
  intros Hm Hu Ho Hs Hmap Ha db'. unfold db', apply_group_mappings, apply_group_mappings_scoped. cbn [fst team_members].
  rewrite list_lookup_fmap, Hm. cbn [fmap option_fmap option_map].
  rewrite decide_True by (split_and!; auto). unfold remap, mapping_target. rewrite Hmap, Hs.
  rewrite andb_false_r, decide_True by done. by eexists.
Qed.

Lemma group_mapping_overrides_manual_witness :
  exists m', team_members (fst (apply_group_mappings keep keep String.leb mapped_db 100 ["wheel"])) !! 0%nat = Some m'
    /\ m_role_id m' = 3%N /\ m_role_source m' = "idp".
Proof.
  apply (group_mapping_overrides_manual keep keep String.leb mapped_db 100 ["wheel"] 0
    (mkMember 7 100 "member" 2 "manual") 3); try (by vm_compute).
  apply (bool_decide_unpack (assignable_target mapped_db 7 3)). by vm_compute.
Defined.

Definition subset_of (l1 l2 : list string) : bool := forallb (contains l2) l1.
Definition builtin_perms (slug : string) : list string :=
  match list_find (fun b => b_slug b = slug) BUILTIN_ROLES with
  | Some (_, b) => b_permissions b
  | None => []
  end.

Lemma seed_rows_team team ids r : r ∈ seed_rows team ids -> r_team r = team /\ r_builtin r = true.
Proof.
  unfold seed_rows. intros (i & Hi)%list_elem_of_lookup.
  apply lookup_zip_with_Some in Hi as (x & b & -> & _). done.
Qed.

Lemma builtin_after_seed db team ids slug : Forall (fun r => r_team r <> team) (team_roles db) ->
  builtin_role_id (fst (seed_builtin_roles db team ids)) team slug
  = match seeded_id (seed_rows team ids) slug with Some rid => Ok rid | None => Err RowNotFound end.
Proof.
  intros Hother. unfold builtin_role_id, seed_builtin_roles, seeded_id. cbn [fst team_roles].
  rewrite list_find_app_r.
  - rewrite (list_find_on _ (fun r => r_slug r = slug) (seed_rows team ids)).
    + by destruct (list_find _ (seed_rows team ids)) as [[i r]|].
    + intros r [-> ->]%seed_rows_team. tauto.
  - apply list_find_None. eapply Forall_impl; [exact Hother|]. simpl. tauto.
Qed.

(** the built-in roles and the catalog agree: every permission has a
    title; every built-in role but the owner's holds only grantable
    permissions; viewer is within member, member within admin, and the admin
    holds everything that is not the owner's; and in a newly seeded team each
    coarse level resolves to its built-in role, member being the default. *)
Theorem builtin_roles_consistent db team ids :
  length ids = length BUILTIN_ROLES -> NoDup ids -> default_roles db !! team = Some None ->
  Forall (fun r => r_team r <> team) (team_roles db) ->
  forallb (fun key => negb (bool_decide (fst (fst (describe key)) = ""))) PERMISSIONS = true /\
  Forall (fun b => b_slug b = "owner" /\ b_permissions b = ["*"] \/ Forall grantable (b_permissions b)) BUILTIN_ROLES /\
  subset_of (builtin_perms "viewer") (builtin_perms "member") = true /\
  subset_of (builtin_perms "member") (builtin_perms "admin") = true /\
  (forall p, grantable p -> p ∈ builtin_perms "admin") /\
  let '(db', owner) := seed_builtin_roles db team ids in
  role_id_for_level db' team Owner = Ok owner /\
  role_id_for_level db' team Member = default_role_id db' team /\
  is_ok (role_id_for_level db' team Admin) = true.
Proof.
  intros Hlen Hnd Hdef Hother. split_and!; [by vm_compute| |by vm_compute|by vm_compute| |].
  - assert (forallb (fun b => bool_decide (b_slug b = "owner" /\ b_permissions b = ["*"])
              || forallb (fun p => bool_decide (grantable p)) (b_permissions b)) BUILTIN_ROLES = true) as H
      by (vm_compute; reflexivity).
    rewrite forallb_forall in H. apply Forall_forall. intros b Hb%list_elem_of_In%H.
    apply orb_true_iff in Hb as [Hb%bool_decide_eq_true|Hb]; [by left|right].
    rewrite forallb_forall in Hb. apply Forall_forall. intros p Hp%list_elem_of_In%Hb.
    by apply bool_decide_eq_true in Hp.
  - intros p (_ & Ho & Hp). assert (forallb (fun p => contains OWNER_ONLY_PERMISSIONS p || contains (builtin_perms "admin") p) PERMISSIONS = true) as H
      by by vm_compute.
    rewrite forallb_forall in H. apply list_elem_of_In, H, orb_true_iff in Hp as [Hp%contains_spec|Hp%contains_spec]; done.
  - destruct ids as [|a [|b [|c [|d [|e [|]]]]]]; try done.
    assert (seeded_id (seed_rows team [a; b; c; d; e]) "member" = Some c) as Em by done.
    destruct (seed_builtin_roles _ _ _) as [db' owner] eqn:E. unfold role_id_for_level.
    assert (db' = fst (db', owner)) as -> by done. rewrite <- E, !builtin_after_seed by done.
    unfold default_role_id, seed_builtin_roles in *. cbv zeta in *. cbn [fst default_roles]. rewrite Em in *.
    rewrite lookup_alter_eq, Hdef. injection E as _ <-. done.
Qed.

Lemma builtin_roles_consistent_witness :
  let db := mkDb [] [] {[ 9%N := None ]} [] in
  let '(db', owner) := seed_builtin_roles db 9 [11; 12; 13; 14; 15]%N in
  role_id_for_level db' 9 Owner = Ok owner /\ owner = 11%N.
Proof.
  split; [|done]. apply (builtin_roles_consistent (mkDb [] [] {[ 9%N := None ]} []) 9 [11; 12; 13; 14; 15]%N).
  - done.
  - apply (bool_decide_unpack (NoDup [11; 12; 13; 14; 15]%N)). by vm_compute.
  - done.
  - constructor.
Defined.
