(* ===== verification/VaultAccess.v ===== *)
(** * Vault access, entity rules and team policies

    [crates/termoso-server/src/routes/vaults.rs] ([access] and its guards),
    [acl.rs], [policy.rs] and [VaultRole] of
    [crates/termoso-proto/src/vault.rs]. The rows a query returns are the
    argument of the code that follows it: the joins themselves run in
    PostgreSQL. Uuids are numbers. *)
From Stdlib Require Import Ascii.
From S2P Require Import Prelude.

#[local] Open Scope string_scope.
Abbreviation uuid := N.

(** ** Roles *)

Inductive VaultRole : Type := Viewer | Editor | Manager.
#[export] Instance VaultRole_eq_dec : EqDecision VaultRole.
Proof. solve_decision. Defined.

Definition can_write (r : VaultRole) : bool := match r with Editor | Manager => true | Viewer => false end.
Definition can_manage (r : VaultRole) : bool := match r with Manager => true | _ => false end.

(** The derived order of the enum. *)
Definition role_rank (r : VaultRole) : nat := match r with Viewer => 0 | Editor => 1 | Manager => 2 end.
Definition role_max (a b : VaultRole) : VaultRole := if (role_rank a <? role_rank b)%nat then b else a.

Definition parse_vault_role (s : string) : VaultRole :=
  if decide (s = "manager") then Manager else if decide (s = "editor") then Editor else Viewer.

Inductive VaultKind : Type := Team | Personal.

(** ** MFA levels *)

Definition mfa_rank (level : string) : nat :=
  if decide (level = "passkey") then 2 else if decide (level = "any") then 1 else 0.

Definition satisfies (level : string) (totp passkey : bool) : bool :=
  if decide (level = "passkey") then passkey
  else if decide (level = "any") then totp || passkey
  else true.

(** ** Access to one vault *)

Record Access := mkAccess {
  vault_id : uuid; kind : VaultKind; team_id : option uuid; role : VaultRole;
  key_version : Z; pending : bool
}.

Inductive Error : Type := NotFound (what : string) | MfaRequired (team : option uuid) (level : string)
| Forbidden (msg : string).
Abbreviation api := (result Error).

(** The row of the query of [access], [None] when the vault is unknown. *)
Record AccessRow := mkRow {
  a_kind : string; a_team : option uuid; a_key_version : Z; a_role : option string;
  a_pending : option bool; a_permissions : option (list string); a_mfa : option string;
  a_totp : bool; a_passkey : bool
}.

Definition team_admin (perms : option (list string)) : bool :=
  match perms with
  | Some p => existsb (fun x => bool_decide (x = "*") || bool_decide (x = "vaults.members")) p
  | None => false
  end.

Definition access (vault : uuid) (row : option AccessRow) : api Access :=
  match row with
  | None => Err (NotFound "Vault")
  | Some r =>
      let level := default "off" (a_mfa r) in
      if negb (satisfies level (a_totp r) (a_passkey r))
         && (bool_decide (is_Some (a_role r)) || bool_decide (is_Some (a_permissions r))) then
        Err (MfaRequired (a_team r) level)
      else
        let kind := if decide (a_kind r = "team") then Team else Personal in
        role ← match a_role r, team_admin (a_permissions r) with
               | Some x, true => Ok (role_max (parse_vault_role x) Manager)
               | Some x, false => Ok (parse_vault_role x)
               | None, true => Ok Manager
               | None, false => Err (NotFound "Vault")
               end;
        Ok (mkAccess vault kind (a_team r) role (a_key_version r) (default true (a_pending r)))
  end.

Definition require_write (vault : uuid) (row : option AccessRow) : api Access :=
  a ← access vault row;
  if negb (can_write (role a)) || pending a then Err (Forbidden "No write access to this vault")
  else Ok a.

Definition require_manage (vault : uuid) (row : option AccessRow) : api Access :=
  a ← access vault row;
  if negb (can_manage (role a)) then Err (Forbidden "Vault manager role required") else Ok a.

(** ** Entity rules *)

Definition MODES : list string := ["none"; "connect"; "read"; "edit"].

Definition mode_rank (mode : string) : nat :=
  match list_find (fun m => m = mode) MODES with Some (i, _) => i | None => 0 end.

Definition principal_rank (kind : string) : nat :=
  if decide (kind = "member") then 3 else if decide (kind = "group") then 2 else 1.

Definition blocks_write (mode : string) : bool := negb (bool_decide (mode = "edit")).

Record RuleRow := mkRule {
  u_vault : uuid; u_entity : uuid; u_entity_kind : string; u_principal : string; u_mode : string
}.
Record Resolved := mkResolved {
  v_vault : uuid; v_entity : uuid; v_entity_kind : string; v_mode : string
}.

(** One round of the loop of [rules_for_user]. *)
Definition best_step (best : gmap (uuid * uuid) (nat * Resolved)) (r : RuleRow) :
    gmap (uuid * uuid) (nat * Resolved) :=
  let rank := principal_rank (u_principal r) in
  let key := (u_vault r, u_entity r) in
  let replace :=
    match best !! key with
    | None => true
    | Some (rk, cur) =>
        (rk <? rank)%nat || ((rank =? rk)%nat && (mode_rank (v_mode cur) <? mode_rank (u_mode r))%nat)
    end in
  if replace then <[key := (rank, mkResolved (u_vault r) (u_entity r) (u_entity_kind r) (u_mode r))]> best
  else best.

Definition best_rules (rows : list RuleRow) : gmap (uuid * uuid) (nat * Resolved) :=
  fold_left best_step rows ∅.

Definition key_le (a b : Resolved) : Prop :=
  (v_vault a < v_vault b)%N \/ (v_vault a = v_vault b /\ (v_entity a <= v_entity b)%N).
#[export] Instance key_le_dec a b : Decision (key_le a b).
Proof. unfold key_le. apply _. Defined.

Definition rules_for_user (rows : list RuleRow) : list Resolved :=
  merge_sort key_le (map (fun e => snd (snd e)) (map_to_list (best_rules rows))).

(** [entity_id -> mode] for one vault, from the rows of that vault. *)
Definition direct_modes (rows : list RuleRow) : gmap uuid string :=
  list_to_map (rev (map (fun r => (v_entity r, v_mode r)) (rules_for_user rows))).

(** ** Policies over a user's teams *)

Record PolicyRow := mkPolicy {
  p_team : uuid; p_role : string; p_mfa : string; p_local_keys : string; p_ttl : option Z;
  p_sso_only : bool; p_provider : option string; p_domains : list string;
  p_device_approval : bool; p_recording : string
}.

Definition ascii_lower_char (c : ascii) : ascii :=
  let n := nat_of_ascii c in
  if (65 <=? n)%nat && (n <=? 90)%nat then ascii_of_nat (n + 32) else c.
Fixpoint ascii_lower (s : string) : string :=
  match s with EmptyString => "" | String c s' => String (ascii_lower_char c) (ascii_lower s') end.

(** [email.rsplit('@').next()]: what follows the last [@]. *)
Fixpoint domain_of (email : string) : string :=
  match email with
  | EmptyString => ""
  | String c s =>
      if existsb (fun c => Ascii.eqb c "@"%char) (String.list_ascii_of_string s) then domain_of s
      else if Ascii.eqb c "@"%char then s else email
  end.

Definition domain_allowed (domains : list string) (email : string) : bool :=
  match domains with
  | [] => true
  | _ =>
      let d := ascii_lower (domain_of email) in
      existsb (fun x => bool_decide (ascii_lower x = ascii_lower d)) domains
  end.

Record EffectivePolicies := mkEffective {
  e_mfa : string; e_mfa_team : option uuid; e_mfa_satisfied : bool; e_ttl : option Z;
  e_local_keys_denied_by : list uuid; e_device_approval_by : list uuid;
  e_sso_provider : option string; e_recording_required_by : list uuid
}.

Section Policies.
(** [resolve_provider]. *)
Context (resolve_provider : uuid -> option string -> string).

Definition sso_applies (email : string) (r : PolicyRow) : bool :=
  p_sso_only r && negb (bool_decide (p_role r = "owner")) && domain_allowed (p_domains r) email
  && negb (bool_decide (p_domains r = [])).

Definition effective_step (email : string) (e : EffectivePolicies) (r : PolicyRow) : EffectivePolicies :=
  let stricter := (mfa_rank (e_mfa e) <? mfa_rank (p_mfa r))%nat in
  mkEffective
    (if stricter then p_mfa r else e_mfa e)
    (if stricter then Some (p_team r) else e_mfa_team e)
    (e_mfa_satisfied e)
    (match p_ttl r with
     | Some h => Some (match e_ttl e with None => h | Some cur => Z.min cur h end)
     | None => e_ttl e
     end)
    (if bool_decide (p_local_keys r = "deny") then e_local_keys_denied_by e ++ [p_team r]
     else e_local_keys_denied_by e)
    (if p_device_approval r then e_device_approval_by e ++ [p_team r] else e_device_approval_by e)
    (if sso_applies email r then
       match e_sso_provider e with
       | Some p => Some p
       | None => Some (resolve_provider (p_team r) (p_provider r))
       end
     else e_sso_provider e)
    (if bool_decide (p_recording r = "required") then e_recording_required_by e ++ [p_team r]
     else e_recording_required_by e).

Definition effective_for (rows : list PolicyRow) (totp passkey : bool) (email : string) :
    EffectivePolicies :=
  let e := fold_left (effective_step email) rows
             (mkEffective "off" None true None [] [] None []) in
  mkEffective (e_mfa e) (e_mfa_team e) (satisfies (e_mfa e) totp passkey) (e_ttl e)
    (e_local_keys_denied_by e) (e_device_approval_by e) (e_sso_provider e) (e_recording_required_by e).

Definition sso_required (rows : list PolicyRow) (email : string) : option string :=
  match list_find (fun r => p_sso_only r && negb (bool_decide (p_role r = "owner"))
                     && negb (bool_decide (p_domains r = [])) && domain_allowed (p_domains r) email = true)
          rows with
  | Some (_, r) => Some (resolve_provider (p_team r) (p_provider r))
  | None => None
  end.
End Policies.

(** [session_ttl] in hours: [min_hours] is the query's answer. *)
Definition session_ttl_hours (server_days : Z) (min_hours : option Z) : Z :=
  let server := Z.max server_days 1 * 24 in
  match min_hours with Some h => Z.min server (Z.max h 1) | None => server end.

(** ** Lemmas *)

Lemma satisfies_mono l1 l2 totp passkey : (mfa_rank l1 <= mfa_rank l2)%nat ->
  satisfies l2 totp passkey = true -> satisfies l1 totp passkey = true.
Proof.
  unfold mfa_rank, satisfies. repeat case_decide; try done; try lia; intros _ Hs; destruct totp, passkey; done.
Qed.

Lemma mode_rank_edit m : (mode_rank m <= 3)%nat /\ (mode_rank m = 3%nat <-> m = "edit").
Proof.
  unfold mode_rank. cbn [MODES list_find]. repeat case_decide; subst; cbn; split; try lia; split; try done; try lia.
Qed.

(** Rows are compared by how specific their principal is, then by mode. *)
Definition row_le (r : RuleRow) (rk : nat) (mode : string) : Prop :=
  (principal_rank (u_principal r) < rk)%nat \/
  (principal_rank (u_principal r) = rk /\ (mode_rank (u_mode r) <= mode_rank mode)%nat).

Definition best_of (rows : list RuleRow) (key : uuid * uuid) (b : option (nat * Resolved)) : Prop :=
  match b with
  | None => forall r, r ∈ rows -> (u_vault r, u_entity r) <> key
  | Some (rk, res) =>
      (exists r, r ∈ rows /\ (u_vault r, u_entity r) = key /\ principal_rank (u_principal r) = rk /\
         res = mkResolved (u_vault r) (u_entity r) (u_entity_kind r) (u_mode r)) /\
      forall r, r ∈ rows -> (u_vault r, u_entity r) = key -> row_le r rk (v_mode res)
  end.

Lemma row_le_trans r rk m rk' m' : row_le r rk m ->
  (rk < rk')%nat \/ (rk = rk' /\ (mode_rank m <= mode_rank m')%nat) -> row_le r rk' m'.
Proof. unfold row_le. lia. Qed.

Lemma best_step_best rows best r key : (forall key, best_of rows key (best !! key)) ->
  best_of (rows ++ [r]) key (best_step best r !! key).
Proof.
  intros Hb. specialize (Hb key). unfold best_step. cbv zeta.
  set (k := (u_vault r, u_entity r)).
  set (b := match best !! k with None => true | Some _ => _ end).
  destruct (decide (k = key)) as [<-|Hne].
  2:{ assert ((if b then <[k:=(principal_rank (u_principal r),
         mkResolved (u_vault r) (u_entity r) (u_entity_kind r) (u_mode r))]> best else best) !! key = best !! key) as ->
        by (destruct b; [by rewrite lookup_insert_ne|done]).
      destruct (best !! key) as [[rk res]|]; simpl in *.
      - destruct Hb as [(r0 & Hr0 & ?) Hmax]. split; [exists r0; split; [apply elem_of_app; by left|done]|].
        intros r' [Hr'|Hr']%elem_of_app E; [by apply Hmax|]. apply list_elem_of_singleton in Hr' as ->. done.
      - intros r' [Hr'|Hr']%elem_of_app; [by apply Hb|]. by apply list_elem_of_singleton in Hr' as ->. }
  destruct b eqn:Eb; subst b.
  - rewrite lookup_insert_eq. simpl. split.
    + exists r. split; [apply elem_of_app; right; by left|done].
    + intros r' [Hr'|Hr']%elem_of_app E; [|apply list_elem_of_singleton in Hr' as ->; right; split; lia].
      destruct (best !! k) as [[rk res]|]; simpl in Hb; [|by destruct (Hb r' Hr')].
      eapply row_le_trans; [by apply Hb|]. apply orb_true_iff in Eb as [?%Nat.ltb_lt|[?%Nat.eqb_eq ?%Nat.ltb_lt]%andb_true_iff]; lia.
  - destruct (best !! k) as [[rk res]|]; [|done]. simpl in *. destruct Hb as [(r0 & Hr0 & ?) Hmax].
    split; [exists r0; split; [apply elem_of_app; by left|done]|].
    intros r' [Hr'|Hr']%elem_of_app E; [by apply Hmax|]. apply list_elem_of_singleton in Hr' as ->.
    apply orb_false_iff in Eb as [E1%Nat.ltb_ge E2]. unfold row_le.
    apply andb_false_iff in E2 as [E2%Nat.eqb_neq|E2%Nat.ltb_ge]; lia.
Qed.

Lemma best_rules_best rows key : best_of rows key (best_rules rows !! key).
Proof.
  unfold best_rules. revert key. induction rows as [|r rows IH] using rev_ind; intros key.
  - cbn [fold_left]. rewrite lookup_empty. intros r []%elem_of_nil.
  - rewrite fold_left_app. simpl. by apply best_step_best.
Qed.

(** The modes of one vault are the best rules. *)
Lemma direct_modes_best rows v : Forall (fun r => u_vault r = v) rows -> forall e,
  direct_modes rows !! e = (fun b => v_mode (snd b)) <$> best_rules rows !! (v, e).
Proof.
  intros Hv e. set (l := map_to_list (best_rules rows)).
  assert (forall p, p ∈ l -> fst p = (v, v_entity (snd (snd p)))) as Hl.
  { intros [k [rk res]] Hin%elem_of_map_to_list. pose proof (best_rules_best rows k) as Hb.
    rewrite Hin in Hb. destruct Hb as [(r & Hr & <- & _ & ->) _]. rewrite Forall_forall in Hv. by rewrite (Hv r Hr). }
  set (pairs := map (fun p => (v_entity (snd (snd p)), v_mode (snd (snd p)))) l).
  assert (map (fun r => (v_entity r, v_mode r)) (rules_for_user rows) ≡ₚ pairs) as Hperm.
  { unfold rules_for_user, pairs. rewrite (merge_sort_Permutation key_le _), map_map. done. }
  assert (NoDup (map fst pairs)) as Hnd.
  { unfold pairs. rewrite map_map. cbn [fst].
    apply (NoDup_fmap_1 (pair v)).
    change (NoDup (map (pair v) (map (fun x => v_entity (snd (snd x))) l))). rewrite map_map.
    rewrite (map_ext_in (fun x => (v, v_entity (snd (snd x)))) fst l).
    - apply NoDup_fst_map_to_list.
    - intros p Hp%list_elem_of_In. by rewrite Hl. }
  unfold direct_modes. rewrite <- (list_to_map_proper (M := gmap uuid) pairs).
  - destruct (best_rules rows !! (v, e)) as [[rk res]|] eqn:E; simpl.
    + apply elem_of_list_to_map; [exact Hnd|]. apply elem_of_map_to_list in E. fold l in E.
      specialize (Hl _ E). injection Hl as ->. unfold pairs. apply list_elem_of_fmap. by exists ((v, v_entity res), (rk, res)).
    + apply not_elem_of_list_to_map. intros (p & -> & (q & -> & Hq)%list_elem_of_fmap)%list_elem_of_fmap.
      pose proof (Hl q Hq) as Hk. destruct q as [k [rk res]]. simpl in *. subst k.
      apply elem_of_map_to_list in Hq. by rewrite E in Hq.
  - exact Hnd.
  - rewrite <- (Permutation_rev _). by rewrite Hperm.
Qed.

(** What the fold over the teams' policies keeps. *)
Definition ttl_min (a b : option Z) : option Z :=
  match b with Some h => Some (match a with None => h | Some cur => Z.min cur h end) | None => a end.

Lemma effective_fold resolve email rows : forall e,
  let e' := fold_left (effective_step resolve email) rows e in
  (forall r, r ∈ rows -> (mfa_rank (p_mfa r) <= mfa_rank (e_mfa e'))%nat) /\
  (mfa_rank (e_mfa e) <= mfa_rank (e_mfa e'))%nat /\
  (e_mfa e' = e_mfa e \/ exists r, r ∈ rows /\ e_mfa e' = p_mfa r) /\
  e_ttl e' = fold_left (fun a r => ttl_min a (p_ttl r)) rows (e_ttl e) /\
  e_sso_provider e' = match e_sso_provider e with
    | Some p => Some p
    | None => (fun r => resolve (p_team (snd r)) (p_provider (snd r)))
                <$> list_find (fun r => sso_applies email r = true) rows
    end.
Proof.
  induction rows as [|r rows IH]; intros e; simpl.
  - split_and!; try done; [by intros r []%elem_of_nil|by left|by destruct (e_sso_provider e)].
  - destruct (IH (effective_step resolve email e r)) as (H1 & H2 & H3 & H4 & H5).
    set (e1 := effective_step resolve email e r) in *.
    assert ((mfa_rank (e_mfa e) <= mfa_rank (e_mfa e1))%nat /\ (mfa_rank (p_mfa r) <= mfa_rank (e_mfa e1))%nat
      /\ (e_mfa e1 = e_mfa e \/ e_mfa e1 = p_mfa r)) as (G1 & G2 & G3).
    { unfold e1, effective_step. cbn [e_mfa].
      destruct (Nat.ltb_spec (mfa_rank (e_mfa e)) (mfa_rank (p_mfa r))); split_and!; auto; lia. }
    split_and!; [|lia| |done|].
    + intros r' [->|Hr']%elem_of_cons; [lia|by apply H1].
    + destruct H3 as [E|(r' & ? & ?)]; [|right; exists r'; split; [by right|done]].
      destruct G3 as [E'|E']; [left; congruence|right]. exists r. split; [by left|congruence].
    + rewrite H5. unfold e1, effective_step. cbn [e_sso_provider].
      destruct (sso_applies email r) eqn:Es; destruct (e_sso_provider e); try done.
      by destruct (list_find (fun r => sso_applies email r = true) rows) as [[i r']|].
Qed.

(** ** Properties *)

(** who may write a vault: [require_write] allows exactly a user whose
    copy of the vault key is sealed, who satisfies the team's MFA level, and
    who is an editor or manager of the vault or holds the team-wide
    [vaults.members] permission; and it reports the vault's own team and key
    version. *)
Theorem require_write_exact vault row a :
  require_write vault row = Ok a <->
  exists r, row = Some r /\ satisfies (default "off" (a_mfa r)) (a_totp r) (a_passkey r) = true /\
    a_pending r = Some false /\
    (team_admin (a_permissions r) = true \/ a_role r = Some "editor" \/ a_role r = Some "manager") /\
    a = mkAccess vault (if decide (a_kind r = "team") then Team else Personal) (a_team r)
          (if team_admin (a_permissions r) || bool_decide (a_role r = Some "manager") then Manager else Editor)
          (a_key_version r) false.
Proof.
  unfold require_write. rewrite bind_ok. split.
  - intros (a' & Ha & H). destruct (negb (can_write (role a')) || pending a') eqn:E; [done|].
    injection H as <-. apply orb_false_iff in E as [E%negb_false_iff Ep].
    destruct row as [r|]; [|done]. exists r. split; [done|]. cbn [access] in Ha.
    destruct (satisfies (default "off" (a_mfa r)) (a_totp r) (a_passkey r)) eqn:Es; cbn [negb andb] in Ha.
    2:{ destruct (a_role r), (a_permissions r); done. }
    apply bind_ok in Ha as (role' & Hr & [= <-]). cbn [pending role] in *. split; [done|].
    destruct (a_pending r) as [[]|]; try done. split; [done|].
    destruct (a_role r) as [x|], (team_admin (a_permissions r)); try done; injection Hr as <-.
    + split; [by left|]. unfold parse_vault_role, role_max in *. repeat case_decide; done.
    + unfold parse_vault_role in *.
      destruct (decide (x = "manager")) as [->|]; [split; [by right; right|done]|].
      destruct (decide (x = "editor")) as [->|]; [split; [by right; left|done]|done].
    + split; [by left|done].
  - intros (r & -> & Hs & Hp & Hrole & ->). cbn [access]. rewrite Hs, Hp. cbn [negb andb].
    destruct (team_admin (a_permissions r)).
    + destruct (a_role r) as [x|]; eexists; (split; [reflexivity|]); cbn; [|done].
      unfold role_max, parse_vault_role. repeat case_decide; done.
    + destruct Hrole as [|[->| ->]]; [done| |]; eexists; (split; [reflexivity|]); done.
Qed.

(** entity rules resolve to the most specific principal, and among equals
    to the most permissive mode: an entity a user has rules on can be written
    exactly when, among the rules of the most specific kind that applies, one
    grants [edit]; an entity without rules is not restricted. *)
Theorem direct_modes_most_specific rows v e :
  Forall (fun r => u_vault r = v) rows ->
  match direct_modes rows !! e with
  | None => forall r, r ∈ rows -> u_entity r <> e
  | Some mode =>
      blocks_write mode = false <->
      exists r, r ∈ rows /\ u_entity r = e /\ u_mode r = "edit" /\
        forall r', r' ∈ rows -> u_entity r' = e ->
          (principal_rank (u_principal r') <= principal_rank (u_principal r))%nat
  end.
Proof.
  intros Hv. rewrite (direct_modes_best rows v Hv). pose proof (best_rules_best rows (v, e)) as Hb.
  rewrite Forall_forall in Hv.
  destruct (best_rules rows !! (v, e)) as [[rk res]|]; simpl in *.
  - destruct Hb as [(r & Hr & Hk & Hrk & Eres) Hmax]. injection Hk as Hk1 Hk2. subst res. cbn [v_mode] in *.
    unfold blocks_write. rewrite negb_false_iff, bool_decide_eq_true. split.
    + intros Hm. exists r. split_and!; try done. intros r' Hr' He.
      specialize (Hmax r' Hr' ltac:(by rewrite (Hv r' Hr'), He)). unfold row_le in Hmax. lia.
    + intros (r' & Hr' & He & Hm & Htop). specialize (Hmax r' Hr' ltac:(by rewrite (Hv r' Hr'), He)).
      specialize (Htop r Hr Hk2). destruct (mode_rank_edit (u_mode r)) as [Hle Hedit].
      apply Hedit. unfold row_le in Hmax. rewrite Hm in Hmax. change (mode_rank "edit") with 3%nat in Hmax. lia.
  - intros r Hr He. apply (Hb r Hr). by rewrite (Hv r Hr), He.
Qed.

Lemma direct_modes_most_specific_witness :
  let rows := [mkRule 1 5 "host" "role" "edit"; mkRule 1 5 "host" "group" "read"; mkRule 1 5 "host" "group" "connect"] in
  direct_modes rows !! 5%N = Some "read" /\
  (blocks_write "read" = false <->
      exists r, r ∈ rows /\ u_entity r = 5%N /\ u_mode r = "edit" /\
        forall r', r' ∈ rows -> u_entity r' = 5%N ->
          (principal_rank (u_principal r') <= principal_rank (u_principal r))%nat).
Proof.
  split; [by vm_compute|].
  apply (direct_modes_most_specific [mkRule 1 5 "host" "role" "edit"; mkRule 1 5 "host" "group" "read";
    mkRule 1 5 "host" "group" "connect"] 1 5). repeat constructor.
Defined.

(** the strictest policy applies: the effective MFA level is at least that
    of every team, and comes from one of them (or is off); a user who
    satisfies it satisfies every team's; the session lifetime is the shortest
    any team sets; and sign-in through an IdP is demanded exactly when some
    team the user does not own demands it for their domain. *)
Theorem effective_policies_strictest resolve rows totp passkey email :
  let e := effective_for resolve rows totp passkey email in
  (forall r, r ∈ rows -> (mfa_rank (p_mfa r) <= mfa_rank (e_mfa e))%nat) /\
  (e_mfa e = "off" \/ exists r, r ∈ rows /\ e_mfa e = p_mfa r) /\
  (e_mfa_satisfied e = true -> forall r, r ∈ rows -> satisfies (p_mfa r) totp passkey = true) /\
  e_ttl e = fold_left (fun a r => ttl_min a (p_ttl r)) rows None /\
  (is_Some (e_sso_provider e) <->
     exists r, r ∈ rows /\ p_sso_only r = true /\ p_role r <> "owner" /\ p_domains r <> [] /\
       domain_allowed (p_domains r) email = true).
Proof.
  unfold effective_for. cbv zeta.
  destruct (effective_fold resolve email rows (mkEffective "off" None true None [] [] None [])) as (H1 & _ & H3 & H4 & H5).
  cbn [e_mfa e_ttl e_sso_provider e_mfa_satisfied] in *. split_and!; try done.
  - intros Hs r Hr. eapply satisfies_mono; [by apply H1|done].
  - rewrite H5. destruct (list_find (fun r => sso_applies email r = true) rows) as [[i r]|] eqn:F; simpl.
    + apply list_find_elem in F as [Hr Hsso]. split; [intros _|by eexists]. exists r.
      unfold sso_applies in Hsso. rewrite !andb_true_iff, !negb_true_iff, !bool_decide_eq_false in Hsso. tauto.
    + split; [by intros [? ?]|]. intros (r & Hr & ? & ? & ? & ?). exfalso.
      apply (list_find_none _ _ F r Hr). unfold sso_applies.
      rewrite !andb_true_iff, !negb_true_iff, !bool_decide_eq_false. tauto.
Qed.
