(* ===== verification/SyncTypes.v ===== *)
(** * The sync protocol's data

    [crates/termoso-proto/src/sync.rs] and the entity types of
    [crates/termoso-proto/src/entities.rs], shared by the server and the
    client. Uuids and device ids are numbers, times are integers (in any fixed
    unit), encrypted payloads are opaque strings. *)
From S2P Require Import Prelude.

#[local] Open Scope string_scope.
Abbreviation uuid := N.

Definition MAX_BATCH : nat := 500.

Definition KINDS : list string :=
  ["group"; "host"; "ssh_config"; "telnet_config"; "webdav_config"; "serial_config"; "identity";
   "ssh_key"; "ssh_certificate"; "known_host"; "snippet"; "snippet_package"; "host_snippet"; "pf_rule";
   "proxy"; "host_chain"; "tag"; "tag_host"; "port_knocking"; "cloud_import"; "workspace";
   "workspace_template"; "log_bookmark"; "color_scheme"].
Definition is_known_kind (kind : string) : bool := bool_decide (kind ∈ KINDS).

Definition CREDENTIAL_KINDS : list string := ["identity"; "ssh_key"; "ssh_certificate"].
Definition is_credential_kind (kind : string) : bool := bool_decide (kind ∈ CREDENTIAL_KINDS).

Record SyncEntity := mkEntity {
  secret_rotated_at : option Z;
  id : uuid;
  kind : string;
  vault_id : uuid;
  version : Z;
  seq : Z;
  deleted : bool;
  key_version : Z;
  data : string;
  updated_at : Z;
  updated_by_device : option uuid
}.

#[export] Instance SyncEntity_eq_dec : EqDecision SyncEntity.
Proof. solve_decision. Defined.

Record EntityChange := mkChange {
  c_secret_rotated_at : option Z;
  c_id : uuid;
  c_kind : string;
  c_vault_id : uuid;
  c_base_version : option Z;
  c_key_version : Z;
  c_data : string;
  c_updated_at : Z
}.

Record EntityDelete := mkDelete { d_id : uuid; d_base_version : Z }.

Record PushRequest := mkPush { changes : list EntityChange; deletes : list EntityDelete }.

Inductive PushResult : Type :=
| PushOk (id : uuid) (version seq : Z)
| PushConflict (id : uuid) (server : SyncEntity)
| PushError (id : uuid) (code : string).

Definition result_id (r : PushResult) : uuid :=
  match r with PushOk id _ _ | PushConflict id _ | PushError id _ => id end.

Record PullRequest := mkPull { cursors : gmap uuid Z; limit : option Z }.

Record PullResponse := mkPulled {
  entities : list SyncEntity; new_cursors : gmap uuid Z; has_more : bool
}.
