(* ===== verification/SyncServer.v ===== *)
(** * The sync server

    [crates/termoso-server/src/routes/sync.rs]: push with optimistic
    concurrency, pull by cursor, and the activity batch. The database is the
    table of entities and the sequence number of each vault; a request runs in
    one transaction ([FOR UPDATE] on the entity, the vault row locked by
    [next_seq]), so it is a function of the database, and an error rolls it
    back. A pull reads one vault per query and no query spans two, so reading all
    of them from one database only fixes the moment between the queries; the
    lock on a vault's row makes its sequence numbers commit in order. What the
    other queries answer for the requesting user (vault rights,
    entity rules, a bridge's scope) is the environment, fixed for the request;
    so are the clock and the server's settings. *)
From S2P Require Import Prelude SyncTypes.
From S2P Require VaultAccess.

#[local] Open Scope string_scope.
#[local] Open Scope list_scope.

Record Db := mkDb { rows : gmap uuid SyncEntity; vault_seq : gmap uuid Z }.

Record Env := mkEnv {
  in_scope : uuid -> bool;
  rights : uuid -> option VaultAccess.AccessRow;
  rules : uuid -> list VaultAccess.RuleRow;
  device_id : uuid;
  now : Z;
  max_entity_bytes : nat;
  unb64 : string -> bool
}.

Inductive Error : Type := TooLarge (msg : string) | Internal.

(** [bridges::in_scope], for the bridge's row of the vault: [None] is a
    person, [Some r] a bridge whose row (if any) says the key is sealed. *)
Definition bridge_in_scope (row : option (option bool)) : bool :=
  match row with None => true | Some r => default false r end.

(** PostgreSQL's [LEAST(x, now())]: a NULL argument is ignored. *)
Definition sql_least (x : option Z) (now : Z) : option Z :=
  Some (match x with Some t => Z.min t now | None => now end).

(** PostgreSQL's [COALESCE]. *)
Definition coalesce {A} (x y : option A) : option A := match x with Some _ => x | None => y end.

Definition fetch_entity (db : Db) (id : uuid) : option SyncEntity := rows db !! id.

(** [UPDATE vaults SET seq = seq + 1 ... RETURNING seq]. *)
Definition next_seq (db : Db) (vault : uuid) : result Error (Db * Z) :=
  match vault_seq db !! vault with
  | Some s => Ok (mkDb (rows db) (<[vault := s + 1]> (vault_seq db)), s + 1)
  | None => Err Internal
  end.

Definition store (db : Db) (e : SyncEntity) : Db := mkDb (<[id e := e]> (rows db)) (vault_seq db).

(** ** Activity *)

Record AuditGroup := mkGroup {
  g_vault : uuid; g_team : uuid; g_action : string; g_kind : string; g_ids : list uuid
}.
Definition MAX_IDS : nat := 50.

Fixpoint audit_insert (groups : list AuditGroup) (vault team : uuid) (action kind : string) (id : uuid) :
    list AuditGroup :=
  match groups with
  | [] => [mkGroup vault team action kind [id]]
  | g :: groups' =>
      if decide (g_vault g = vault /\ g_action g = action /\ g_kind g = kind) then
        mkGroup (g_vault g) (g_team g) (g_action g) (g_kind g) (g_ids g ++ [id]) :: groups'
      else g :: audit_insert groups' vault team action kind id
  end.

Definition audit_add (groups : list AuditGroup) (a : VaultAccess.Access) (action kind : string) (id : uuid) :
    list AuditGroup :=
  match VaultAccess.team_id a with
  | None => groups
  | Some team => audit_insert groups (VaultAccess.vault_id a) team action kind id
  end.

(** The entries written: vault, team, action, kind, count and a sample. *)
Definition audit_flush (groups : list AuditGroup) : list (uuid * uuid * string * string * nat * list uuid) :=
  map (fun g => (g_vault g, g_team g, g_action g, g_kind g, length (g_ids g), take MAX_IDS (g_ids g))) groups.

(** ** Push *)

Record PushState := mkState {
  db : Db;
  access : gmap uuid (option VaultAccess.Access);
  acl : gmap uuid (gmap uuid string);
  results : list PushResult;
  touched : gmap uuid Z;
  audited : list AuditGroup
}.

Definition answer (st : PushState) (r : PushResult) : PushState :=
  mkState (db st) (access st) (acl st) (results st ++ [r]) (touched st) (audited st).

(** A write that took effect. *)
Definition applied (st : PushState) (db' : Db) (a : VaultAccess.Access) (action kind : string)
    (e : SyncEntity) : PushState :=
  mkState (store db' e) (access st) (acl st) (results st ++ [PushOk (id e) (version e) (seq e)])
    (<[vault_id e := seq e]> (touched st)) (audit_add (audited st) a action kind (id e)).

Section Push.
Context (env : Env).

(** Scope and write access of one vault, [.ok()]. *)
Definition resolve_access (vault : uuid) : option VaultAccess.Access :=
  if in_scope env vault then
    match VaultAccess.require_write vault (rights env vault) with Ok a => Some a | Err _ => None end
  else None.

Definition modes_of (vault : uuid) : gmap uuid string := VaultAccess.direct_modes (rules env vault).

Definition blocked (acl : gmap uuid (gmap uuid string)) (vault entity : uuid) : bool :=
  match acl !! vault with
  | Some m => match m !! entity with Some mode => VaultAccess.blocks_write mode | None => false end
  | None => false
  end.

(** The maps filled before the transaction. *)
Definition initial_access (cs : list EntityChange) : gmap uuid (option VaultAccess.Access) :=
  set_to_map (fun v => (v, resolve_access v)) (list_to_set (map c_vault_id cs) : gset uuid).

Definition in_team (a : option VaultAccess.Access) : bool :=
  match a with Some a => bool_decide (is_Some (VaultAccess.team_id a)) | None => false end.

Definition initial_acl (access : gmap uuid (option VaultAccess.Access)) : gmap uuid (gmap uuid string) :=
  map_imap (fun v a => if in_team a then Some (modes_of v) else None) access.

(** A change that passed the checks, against the stored row. *)
Definition write_change (st : PushState) (a : VaultAccess.Access) (c : EntityChange) : result Error PushState :=
  match fetch_entity (db st) (c_id c), c_base_version c with
  | Some e, base =>
      if negb (bool_decide (vault_id e = c_vault_id c)) then
        Ok (answer st (PushError (c_id c) "forbidden"))
      else if bool_decide (base = Some (version e)) then
        '(db', s) ← next_seq (db st) (c_vault_id c);
        Ok (applied st db' a "entity.updated" (c_kind c)
              (mkEntity (coalesce (sql_least (c_secret_rotated_at c) (now env)) (secret_rotated_at e))
                 (c_id c) (c_kind c) (vault_id e) (version e + 1) s false (c_key_version c) (c_data c)
                 (Z.min (c_updated_at c) (now env)) (Some (device_id env))))
      else Ok (answer st (PushConflict (c_id c) e))
  | None, None =>
      '(db', s) ← next_seq (db st) (c_vault_id c);
      Ok (applied st db' a "entity.created" (c_kind c)
            (mkEntity (sql_least (c_secret_rotated_at c) (now env)) (c_id c) (c_kind c) (c_vault_id c) 1 s
               false (c_key_version c) (c_data c) (Z.min (c_updated_at c) (now env))
               (Some (device_id env))))
  | None, Some _ => Ok (answer st (PushError (c_id c) "not_found"))
  end.

(** One round of the loop over the changes. *)
Definition change_step (st : PushState) (c : EntityChange) : result Error PushState :=
  match default None (access st !! c_vault_id c) with
  | None => Ok (answer st (PushError (c_id c) "forbidden"))
  | Some a =>
      if negb (is_known_kind (c_kind c)) then Ok (answer st (PushError (c_id c) "unknown_kind"))
      else if (max_entity_bytes env <? String.length (c_data c))%nat || negb (unb64 env (c_data c)) then
        Ok (answer st (PushError (c_id c) "payload_too_large"))
      else if negb (bool_decide (c_key_version c = VaultAccess.key_version a)) then
        Ok (answer st (PushError (c_id c) "stale_key_version"))
      else if blocked (acl st) (c_vault_id c) (c_id c) then
        Ok (answer st (PushError (c_id c) "forbidden"))
      else write_change st a c
  end.

(** The lookups of the delete loop, which may add to both maps. *)
Definition learn_access (st : PushState) (vault : uuid) : PushState * option VaultAccess.Access :=
  match access st !! vault with
  | Some a => (st, a)
  | None =>
      let a := resolve_access vault in
      (mkState (db st) (<[vault := a]> (access st)) (acl st) (results st) (touched st) (audited st), a)
  end.

Definition learn_acl (st : PushState) (a : VaultAccess.Access) (vault : uuid) : PushState :=
  if bool_decide (is_Some (VaultAccess.team_id a)) && negb (bool_decide (is_Some (acl st !! vault))) then
    mkState (db st) (access st) (<[vault := modes_of vault]> (acl st)) (results st) (touched st) (audited st)
  else st.

Definition delete_step (st : PushState) (d : EntityDelete) : result Error PushState :=
  match fetch_entity (db st) (d_id d) with
  | None => Ok (answer st (PushError (d_id d) "not_found"))
  | Some e =>
      let '(st, a) := learn_access st (vault_id e) in
      match a with
      | None => Ok (answer st (PushError (d_id d) "forbidden"))
      | Some a =>
          let st := learn_acl st a (vault_id e) in
          if blocked (acl st) (vault_id e) (d_id d) then Ok (answer st (PushError (d_id d) "forbidden"))
          else if deleted e then Ok (answer st (PushOk (d_id d) (version e) (seq e)))
          else if negb (bool_decide (version e = d_base_version d)) then
            Ok (answer st (PushConflict (d_id d) e))
          else
            '(db', s) ← next_seq (db st) (vault_id e);
            Ok (applied st db' a "entity.deleted" (kind e)
                  (mkEntity (secret_rotated_at e) (d_id d) (kind e) (vault_id e) (version e + 1) s true
                     (key_version e) "" (now env) (Some (device_id env))))
      end
  end.

Fixpoint run_steps {X} (step : PushState -> X -> result Error PushState) (st : PushState) (l : list X) :
    result Error PushState :=
  match l with
  | [] => Ok st
  | x :: l' => st ← step st x; run_steps step st l'
  end.

Definition initial_state (db : Db) (req : PushRequest) : PushState :=
  let access := initial_access (changes req) in
  mkState db access (initial_acl access) [] ∅ [].

(** The transaction. *)
Definition push_tx (db : Db) (req : PushRequest) : result Error PushState :=
  st ← run_steps change_step (initial_state db req) (changes req);
  run_steps delete_step st (deletes req).

(** The handler: the database after it, and the response with the activity
    entries and the vaults to announce. *)
Definition push (db0 : Db) (req : PushRequest) :
    Db * result Error (list PushResult * list (uuid * uuid * string * string * nat * list uuid) * gmap uuid Z) :=
  if (MAX_BATCH <? length (changes req) + length (deletes req))%nat then
    (db0, Err (TooLarge "At most 500 items per push"))
  else
    match push_tx db0 req with
    | Err e => (db0, Err e)
    | Ok st => (db st, Ok (results st, audit_flush (audited st), touched st))
    end.

(** ** Pull *)

Definition seq_le (a b : SyncEntity) : Prop := (seq a <= seq b)%Z.
#[export] Instance seq_le_dec a b : Decision (seq_le a b).
Proof. unfold seq_le. apply _. Defined.

(** [WHERE vault_id = $1 AND seq > $2 ORDER BY seq LIMIT $3]. *)
Definition page (db : Db) (vault : uuid) (since : Z) (n : nat) : list SyncEntity :=
  take n (merge_sort seq_le (filter (fun e => vault_id e = vault /\ since < seq e)
                               (map snd (map_to_list (rows db))))).

Definition readable (vault : uuid) : bool :=
  in_scope env vault &&
  match VaultAccess.access vault (rights env vault) with
  | Ok a => negb (VaultAccess.pending a)
  | Err _ => false
  end.

(** One round of the loop over the wanted vaults. *)
Definition pull_step (db : Db) (limit : nat) (r : PullResponse) (want : uuid * Z) : PullResponse :=
  let '(vault, since) := want in
  let cs := <[vault := since]> (new_cursors r) in
  if has_more r then mkPulled (entities r) cs true
  else if negb (readable vault) then mkPulled (entities r) cs false
  else
    let remaining := (limit - length (entities r))%nat in
    if (remaining =? 0)%nat then mkPulled (entities r) cs true
    else
      let found := page db vault since (remaining + 1) in
      let more := (remaining <? length found)%nat in
      let found := if more then take remaining found else found in
      let cs := match last found with Some e => <[vault := seq e]> cs | None => cs end in
      mkPulled (entities r ++ found) cs more.

Definition want_le (a b : uuid * Z) : Prop :=
  (fst a < fst b)%N \/ (fst a = fst b /\ snd a <= snd b)%Z.
#[export] Instance want_le_dec a b : Decision (want_le a b).
Proof. unfold want_le. apply _. Defined.

Definition clamp_limit (l : option Z) : nat :=
  Z.to_nat (clamp (default (Z.of_nat MAX_BATCH) l) 1 (Z.of_nat MAX_BATCH)).

Definition pull (db : Db) (req : PullRequest) : PullResponse :=
  fold_left (pull_step db (clamp_limit (limit req))) (merge_sort want_le (map_to_list (cursors req)))
    (mkPulled [] ∅ false).
End Push.

(** ** What a step does *)

(** One write: the entity gets the vault's next sequence number, and is new
    or the next version of the stored one. *)
Record write (db db' : Db) (e : SyncEntity) : Prop := {
  w_seq : exists s, vault_seq db !! vault_id e = Some s /\ seq e = s + 1 /\
            db' = mkDb (<[id e := e]> (rows db)) (<[vault_id e := s + 1]> (vault_seq db));
  w_version : (rows db !! id e = None /\ version e = 1) \/
    exists old, rows db !! id e = Some old /\ vault_id old = vault_id e /\ version e = version old + 1
}.

Lemma next_seq_ok db v db' s : next_seq db v = Ok (db', s) ->
  exists s0, vault_seq db !! v = Some s0 /\ s = s0 + 1 /\
    db' = mkDb (rows db) (<[v := s0 + 1]> (vault_seq db)).
Proof. unfold next_seq. destruct (vault_seq db !! v) as [s0|]; [|done]. intros [= <- <-]. eauto. Qed.

(** The next test of a handler. *)
Ltac next_case := match goal with |- context [if ?b then _ else _] => destruct b end.
Ltac next_if := match goal with |- (if ?b then _ else _) = _ -> _ => destruct b end.

Section Facts.
Context (env : Env).

(** The maps hold what the queries answered. *)
Record maps_ok (st : PushState) : Prop := {
  mo_access : forall v a, access st !! v = Some a -> a = resolve_access env v;
  mo_acl : forall v m, acl st !! v = Some m -> m = modes_of env v;
  mo_team : forall v a, access st !! v = Some (Some a) -> is_Some (VaultAccess.team_id a) ->
    acl st !! v = Some (modes_of env v)
}.

(** Who may write an entity of a vault. *)
Definition may_write (vault entity : uuid) : Prop :=
  exists a, resolve_access env vault = Some a /\
    (is_Some (VaultAccess.team_id a) ->
     forall mode, modes_of env vault !! entity = Some mode -> VaultAccess.blocks_write mode = false).

(** The answer describes the stored row. *)
Definition truthful (db : Db) (r : PushResult) : Prop :=
  match r with
  | PushOk i v s => exists e, rows db !! i = Some e /\ version e = v /\ seq e = s
  | PushConflict i e => rows db !! i = Some e
  | PushError _ _ => True
  end.

(** The effect of one item: its answer, and a permitted write or none. *)
Definition step_effect (item : uuid) (st st' : PushState) : Prop :=
  maps_ok st' /\
  ((db st' = db st /\ exists r, results st' = results st ++ [r] /\ result_id r = item /\ truthful (db st) r) \/
   (exists e, write (db st) (db st') e /\ id e = item /\ may_write (vault_id e) item /\
      results st' = results st ++ [PushOk item (version e) (seq e)])).

Lemma maps_ok_same st st' : access st' = access st -> acl st' = acl st -> maps_ok st -> maps_ok st'.
Proof. intros E1 E2 [? ? ?]. split; rewrite ?E1, ?E2; done. Qed.

Lemma answer_effect item st r : maps_ok st -> result_id r = item -> truthful (db st) r ->
  step_effect item st (answer st r).
Proof. intros Hm Hr Ht. split; [by apply (maps_ok_same st)|]. left. eauto. Qed.

Lemma blocked_may_write st v entity a : maps_ok st -> access st !! v = Some (Some a) ->
  blocked (acl st) v entity = false -> may_write v entity.
Proof.
  intros [Ha Hc Ht] Hacc Hb. exists a. split; [by apply Ha in Hacc|].
  intros Hteam mode Hm. unfold blocked in Hb. rewrite (Ht v a Hacc Hteam), Hm in Hb. done.
Qed.

Lemma applied_effect st a action k e db' s : maps_ok st ->
  next_seq (db st) (vault_id e) = Ok (db', s) -> seq e = s ->
  ((rows (db st) !! id e = None /\ version e = 1) \/
   exists old, rows (db st) !! id e = Some old /\ vault_id old = vault_id e /\ version e = version old + 1) ->
  may_write (vault_id e) (id e) -> step_effect (id e) st (applied st db' a action k e).
Proof.
  intros Hm (s0 & E1 & -> & ->)%next_seq_ok Hs Hv Hw. split; [by apply (maps_ok_same st)|]. right. exists e.
  split_and!; [|done|done|done]. split; [|done]. exists s0. split_and!; done.
Qed.

Lemma change_step_effect st c st' : maps_ok st -> change_step env st c = Ok st' ->
  step_effect (c_id c) st st'.
Proof.
  intros Hm. unfold change_step.
  destruct (access st !! c_vault_id c) as [[a|]|] eqn:Ea; cbn [default from_option Datatypes.id];
    [|intros [= <-]; by apply answer_effect..].
  destruct (negb (is_known_kind _)); [intros [= <-]; by apply answer_effect|].
  do 2 (next_if; [intros [= <-]; by apply answer_effect|]).
  destruct (blocked _ _ _) eqn:Eb; [intros [= <-]; by apply answer_effect|].
  pose proof (blocked_may_write st _ _ a Hm Ea Eb) as Hw. unfold write_change, fetch_entity.
  destruct (rows (db st) !! c_id c) as [e|] eqn:Ee.
  - destruct (negb (bool_decide (vault_id e = c_vault_id c))) eqn:Ev; [intros [= <-]; by apply answer_effect|].
    apply negb_false_iff, bool_decide_eq_true in Ev.
    destruct (bool_decide _); [|intros [= <-]; by apply answer_effect].
    intros ([db' s] & Hn & [= <-])%bind_ok. rewrite <- Ev in *.
    match goal with |- step_effect _ _ (applied _ _ _ _ _ ?e') => apply (applied_effect st a _ _ e' db' s) end; try done.
    cbn. right. eauto.
  - destruct (c_base_version c); [intros [= <-]; by apply answer_effect|].
    intros ([db' s] & Hn & [= <-])%bind_ok.
    match goal with |- step_effect _ _ (applied _ _ _ _ _ ?e') => apply (applied_effect st a _ _ e' db' s) end; try done.
    cbn. by left.
Qed.

Lemma learn_access_ok st v st' a : maps_ok st -> learn_access env st v = (st', a) ->
  db st' = db st /\ results st' = results st /\ acl st' = acl st /\ a = resolve_access env v /\
  access st' = <[v := a]> (access st).
Proof.
  intros Hm. unfold learn_access. destruct (access st !! v) as [a0|] eqn:E; intros [= <- <-]; [|done].
  split_and!; try done; [by apply (mo_access st Hm)|by rewrite insert_id].
Qed.

Lemma learn_acl_ok st a v : (forall m, acl st !! v = Some m -> m = modes_of env v) ->
  let st' := learn_acl env st a v in
  db st' = db st /\ results st' = results st /\ access st' = access st /\
  acl st' = if bool_decide (is_Some (VaultAccess.team_id a)) then <[v := modes_of env v]> (acl st) else acl st.
Proof.
  intros Hc. unfold learn_acl. destruct (bool_decide (is_Some (VaultAccess.team_id a))); [|done].
  destruct (acl st !! v) as [m|] eqn:E; cbn; [|done].
  rewrite insert_id; [done|]. rewrite E. f_equal. by apply Hc.
Qed.

Lemma learned_maps st v st' a : maps_ok st -> learn_access env st v = (st', Some a) ->
  maps_ok (learn_acl env st' a v) /\ access (learn_acl env st' a v) !! v = Some (Some a).
Proof.
  intros Hm Hl. destruct (learn_access_ok st v st' (Some a) Hm Hl) as (_ & _ & Eacl & Er & Eacc).
  destruct Hm as [Ha Hc Ht].
  destruct (learn_acl_ok st' a v) as (_ & _ & E1 & E2); [intros m; rewrite Eacl; apply Hc|].
  rewrite Eacl in E2. rewrite Eacc in E1. split; [|by rewrite E1, lookup_insert_eq]. split.
  - intros v' a'. rewrite E1. destruct (decide (v = v')) as [<-|?]; [rewrite lookup_insert_eq; congruence|].
    rewrite lookup_insert_ne by done. apply Ha.
  - intros v' m. rewrite E2. case_bool_decide; [|apply Hc].
    destruct (decide (v = v')) as [<-|?]; [rewrite lookup_insert_eq; congruence|].
    rewrite lookup_insert_ne by done. apply Hc.
  - intros v' a'. rewrite E1, E2. destruct (decide (v = v')) as [<-|?].
    + rewrite lookup_insert_eq. intros [= <-] Hteam. rewrite bool_decide_eq_true_2 by done. by rewrite lookup_insert_eq.
    + rewrite lookup_insert_ne by done. intros Hacc Hteam.
      case_bool_decide; [rewrite lookup_insert_ne by done|]; by apply (Ht v' a').
Qed.

Lemma denied_maps st v st' : maps_ok st -> learn_access env st v = (st', None) -> maps_ok st'.
Proof.
  intros Hm Hl. destruct (learn_access_ok st v st' None Hm Hl) as (_ & _ & Eacl & Er & Eacc).
  destruct Hm as [Ha Hc Ht]. split; rewrite ?Eacc, ?Eacl; [|done|].
  - intros v' a'. destruct (decide (v = v')) as [<-|?]; [rewrite lookup_insert_eq; congruence|].
    rewrite lookup_insert_ne by done. apply Ha.
  - intros v' a'. destruct (decide (v = v')) as [<-|?]; [by rewrite lookup_insert_eq|].
    rewrite lookup_insert_ne by done. apply Ht.
Qed.

Lemma step_effect_from item st0 st st' : db st = db st0 -> results st = results st0 ->
  step_effect item st st' -> step_effect item st0 st'.
Proof. intros E1 E2. unfold step_effect. by rewrite E1, E2. Qed.

(** Row keys are the ids. *)
Definition keyed (db : Db) : Prop := forall i e, rows db !! i = Some e -> id e = i.

Lemma delete_step_effect st d st' : maps_ok st -> keyed (db st) -> delete_step env st d = Ok st' ->
  step_effect (d_id d) st st'.
Proof.
  intros Hm Hk. unfold delete_step, fetch_entity.
  destruct (rows (db st) !! d_id d) as [e|] eqn:Ee; [|intros [= <-]; by apply answer_effect].
  destruct (learn_access env st (vault_id e)) as [st1 [a|]] eqn:El.
  - destruct (learned_maps _ _ _ _ Hm El) as [Hm2 Hacc2].
    destruct (learn_access_ok _ _ _ _ Hm El) as (Ed & Er & Eacl & _ & _).
    destruct (learn_acl_ok st1 a (vault_id e)) as (Ed2 & Er2 & _ & _);
      [intros m; rewrite Eacl; apply (mo_acl st Hm)|].
    set (st2 := learn_acl env st1 a (vault_id e)) in *. intros H.
    apply (step_effect_from _ st st2); [congruence..|]. revert H.
    destruct (blocked _ _ _) eqn:Eb; [intros [= <-]; by apply answer_effect|].
    rewrite <- Ed, <- Ed2 in Ee. destruct (deleted e); [intros [= <-]; apply answer_effect; cbn; eauto|].
    next_if; [intros [= <-]; by apply answer_effect|].
    intros ([db' s] & Hn & [= <-])%bind_ok.
    match goal with |- step_effect _ _ (applied _ _ _ _ _ ?e') => apply (applied_effect st2 a _ _ e' db' s) end; try done.
    + right. by exists e.
    + by apply (blocked_may_write st2 _ _ a).
  - intros [= <-]. destruct (learn_access_ok _ _ _ _ Hm El) as (Ed & Er & _).
    apply (step_effect_from _ st st1); [done..|]. apply answer_effect; [by eapply denied_maps|done|exact I].
Qed.

(** The effects of a run of items. *)
Inductive effects : list uuid -> PushState -> PushState -> Prop :=
| effects_nil st : effects [] st st
| effects_cons i l st st1 st2 :
    step_effect i st st1 -> effects l st1 st2 -> effects (i :: l) st st2.

Lemma effects_app l1 l2 st st1 st2 :
  effects l1 st st1 -> effects l2 st1 st2 -> effects (l1 ++ l2) st st2.
Proof. induction 1; [done|]. intros. econstructor; eauto. Qed.

Lemma effect_keyed i st st' : step_effect i st st' -> keyed (db st) -> keyed (db st').
Proof.
  intros [_ [[-> _]|(e & [(s & _ & _ & ->) _] & _)]] Hk; [done|].
  intros j e'. cbn. intros [[<- <-]|[_ Hj]]%lookup_insert_Some; [done|]. by apply Hk.
Qed.

Lemma run_effects {X} (step : PushState -> X -> result Error PushState) (item : X -> uuid) l :
  (forall st x st', maps_ok st -> keyed (db st) -> step st x = Ok st' -> step_effect (item x) st st') ->
  forall st st', maps_ok st -> keyed (db st) -> run_steps step st l = Ok st' ->
  effects (map item l) st st' /\ maps_ok st' /\ keyed (db st').
Proof.
  intros Hstep. induction l as [|x l IH]; intros st st' Hm Hk; cbn.
  - intros [= <-]. split_and!; [constructor|done..].
  - intros (st1 & H1 & H2)%bind_ok. pose proof (Hstep _ _ _ Hm Hk H1) as He.
    destruct (IH st1 st') as (? & ? & ?); [by destruct He|by eapply effect_keyed|done|].
    split_and!; [by econstructor|done..].
Qed.

Lemma initial_maps db req : maps_ok (initial_state env db req).
Proof.
  unfold initial_state, initial_access. split; cbn.
  - intros v a Hv. by apply lookup_set_to_map in Hv as (? & _ & [= -> <-]); [|intros ?? _ _ [= ->]].
  - intros v m Hv. unfold initial_acl in Hv. rewrite map_lookup_imap in Hv.
    apply bind_Some in Hv as (a & _ & Hv). destruct (in_team a); congruence.
  - intros v a Hv Ht. unfold initial_acl. rewrite map_lookup_imap, Hv. cbn. by rewrite bool_decide_eq_true_2.
Qed.

Lemma push_tx_effects db0 req st : keyed db0 -> push_tx env db0 req = Ok st ->
  effects (map c_id (changes req) ++ map d_id (deletes req)) (initial_state env db0 req) st.
Proof.
  intros Hk (st1 & H1 & H2)%bind_ok.
  destruct (run_effects (change_step env) c_id (changes req)
    (fun st x st' Hm _ => change_step_effect st x st' Hm) _ _ (initial_maps db0 req) Hk H1) as (E1 & Hm1 & Hk1).
  destruct (run_effects (delete_step env) d_id (deletes req) delete_step_effect _ _ Hm1 Hk1 H2) as (E2 & _ & _).
  by eapply effects_app.
Qed.

Lemma push_cases db0 req : 
  (exists e, push env db0 req = (db0, Err e)) \/
  (exists st, push_tx env db0 req = Ok st /\
     push env db0 req = (db st, Ok (results st, audit_flush (audited st), touched st))).
Proof. unfold push. next_case; [eauto|]. destruct (push_tx env db0 req); eauto. Qed.
End Facts.

(** ** The invariant of the tables *)

Record db_inv (db : Db) : Prop := {
  di_keyed : keyed db;
  di_rows : forall i e, rows db !! i = Some e -> 1 <= version e /\
    exists s, vault_seq db !! vault_id e = Some s /\ seq e <= s;
  di_seq : forall i j e e', rows db !! i = Some e -> rows db !! j = Some e' ->
    vault_id e = vault_id e' -> seq e = seq e' -> i = j
}.

(** No row is lost, and a row that changed is a later version, sequenced after
    everything its vault had. *)
Record db_grows (db db' : Db) : Prop := {
  dg_rows : forall i e, rows db !! i = Some e -> exists e', rows db' !! i = Some e' /\
    vault_id e' = vault_id e /\ (e' = e \/ version e < version e');
  dg_new : forall i e', rows db' !! i = Some e' -> rows db !! i = Some e' \/
    (forall s, vault_seq db !! vault_id e' = Some s -> s < seq e');
  dg_seq : forall v s, vault_seq db !! v = Some s -> exists s', vault_seq db' !! v = Some s' /\ s <= s'
}.

Lemma write_inv db db' e : write db db' e -> db_inv db -> db_inv db'.
Proof.
  intros [(s & Hs & Hseq & ->) Hv] [Hk Hr Hu]. split; cbn.
  - intros j e'. cbn. intros [[<- <-]|[_ Hj]]%lookup_insert_Some; [done|]. by apply Hk.
  - intros j e' [[<- <-]|[_ Hj]]%lookup_insert_Some.
    + split; [|exists (s + 1); rewrite lookup_insert_eq; split; [done|lia]].
      destruct Hv as [[_ ->]|(old & Ho & _ & ->)]; [lia|]. apply Hr in Ho as [? _]. lia.
    + destruct (Hr j e' Hj) as [H1 (s' & H2 & H3)]. split; [done|].
      destruct (decide (vault_id e = vault_id e')) as [E|E].
      * exists (s + 1). rewrite E, lookup_insert_eq. split; [done|].
        assert (s' = s) as -> by congruence. lia.
      * exists s'. by rewrite lookup_insert_ne.
  - assert (Hlt : forall j e', rows db !! j = Some e' -> vault_id e' = vault_id e -> seq e' < seq e).
    { intros j e' Hj E. destruct (Hr j e' Hj) as [_ (s' & H2 & H3)].
      assert (s' = s) as -> by congruence. lia. }
    intros i j e1 e2 [[<- <-]|[_ Hi]]%lookup_insert_Some [[<- <-]|[_ Hj]]%lookup_insert_Some E1 E2; [done|..].
    + specialize (Hlt j e2 Hj (eq_sym E1)). lia.
    + specialize (Hlt i e1 Hi E1). lia.
    + by apply (Hu i j e1 e2).
Qed.

Lemma write_grows db db' e : keyed db -> write db db' e -> db_grows db db'.
Proof.
  intros Hk [(s & Hs & Hseq & ->) Hv]. split; cbn.
  - intros i old Hi. destruct (decide (id e = i)) as [E|?].
    + exists e. rewrite E, lookup_insert_eq. split; [done|].
      destruct Hv as [[Hn _]|(old' & Ho & Hvo & Hver)]; [congruence|].
      assert (old' = old) as -> by congruence. split; [done|]. right. lia.
    + exists old. rewrite lookup_insert_ne by done. auto.
  - intros i e' [[<- <-]|[_ Hi]]%lookup_insert_Some; [|auto]. right. intros s' Hs'.
    assert (s' = s) as -> by congruence. lia.
  - intros v s' Hv'. destruct (decide (vault_id e = v)) as [E|?].
    + exists (s + 1). rewrite E, lookup_insert_eq. split; [done|]. subst v.
      assert (s' = s) as -> by congruence. lia.
    + exists s'. rewrite lookup_insert_ne by done. split; [done|lia].
Qed.

#[export] Instance db_grows_refl : Reflexive db_grows.
Proof. intros d. split; eauto with lia. Qed.

#[export] Instance db_grows_trans : Transitive db_grows.
Proof.
  intros d1 d2 d3 [A1 B1 C1] [A2 B2 C2]. split.
  - intros i e Hi. destruct (A1 i e Hi) as (e2 & H2 & V2 & D2). destruct (A2 i e2 H2) as (e3 & H3 & V3 & D3).
    exists e3. split; [done|]. split; [congruence|]. destruct D2 as [->|?], D3 as [->|?]; auto. right. lia.
  - intros i e H3. destruct (B2 i e H3) as [H2|Hnew]; [by apply B1|]. right. intros s Hs.
    destruct (C1 _ _ Hs) as (s' & Hs' & ?). specialize (Hnew _ Hs'). lia.
  - intros v s Hs. destruct (C1 _ _ Hs) as (s' & Hs' & ?). destruct (C2 _ _ Hs') as (s2 & ? & ?).
    exists s2. split; [done|lia].
Qed.

Lemma effects_inv env l st st' : effects env l st st' -> db_inv (db st) ->
  db_inv (db st') /\ db_grows (db st) (db st').
Proof.
  induction 1 as [st|i l st st1 st2 [_ He] Hl IH]; intros Hi; [done|].
  assert (db_inv (db st1) /\ db_grows (db st) (db st1)) as [Hi1 Hg].
  { destruct He as [[-> _]|(e & Hw & _)]; [done|].
    split; [by eapply write_inv|eapply write_grows; [apply Hi|done]]. }
  destruct (IH Hi1) as [? ?]. split; [done|by etransitivity].
Qed.

Lemma effects_results env l st st' : effects env l st st' ->
  map result_id (results st') = map result_id (results st) ++ l.
Proof.
  induction 1 as [st|i l st st1 st2 [_ He] Hl IH]; [by rewrite app_nil_r|].
  rewrite IH, (cons_middle i), app_assoc. f_equal.
  destruct He as [(_ & r & -> & <- & _)|(e & _ & <- & _ & ->)]; by rewrite map_app.
Qed.

Lemma effects_authorized env l st st' : effects env l st st' ->
  forall i, rows (db st') !! i = rows (db st) !! i \/
    (i ∈ l /\ exists e, rows (db st') !! i = Some e /\ may_write env (vault_id e) i).
Proof.
  induction 1 as [st|j l st st1 st2 [_ He] Hl IH]; intros i; [by left|].
  destruct (IH i) as [E|[Hin ?]]; [|right; split; [by right|done]]. rewrite E.
  destruct He as [[-> _]|(e & [(s & _ & _ & ->) _] & <- & Hw & _)]; [by left|]. cbn.
  destruct (decide (id e = i)) as [<-|?]; [|rewrite lookup_insert_ne by done; by left].
  right. split; [by left|]. rewrite lookup_insert_eq. eauto.
Qed.

(** What an answer still says of the table some writes later. *)
Definition holds_later (db : Db) (r : PushResult) : Prop :=
  match r with
  | PushOk i v s => exists e, rows db !! i = Some e /\ v <= version e /\ (version e = v -> seq e = s)
  | PushConflict i e => exists e', rows db !! i = Some e' /\ version e <= version e'
  | PushError _ _ => True
  end.

Lemma truthful_later db r : truthful db r -> holds_later db r.
Proof. destruct r; cbn; [intros (e & ? & <- & <-)|intros ?|done]; eauto with lia. Qed.

Lemma later_grows db db' r : db_grows db db' -> holds_later db r -> holds_later db' r.
Proof.
  intros [Hr _ _]. destruct r as [i v s|i e|i c]; cbn; [intros (e & He & Hv & Hs)|intros (e1 & He & Hv)|done];
    destruct (Hr _ _ He) as (e' & He' & _ & Hd); exists e'; (split; [done|]);
    destruct Hd as [->|?]; try done; lia.
Qed.

Lemma effects_truth env l st st' : effects env l st st' -> db_inv (db st) ->
  Forall (holds_later (db st)) (results st) -> Forall (holds_later (db st')) (results st').
Proof.
  induction 1 as [st|i l st st1 st2 He Hl IH]; intros Hi Hr; [done|].
  destruct (effects_inv env [i] st st1) as [Hi1 Hg]; [by econstructor; [|constructor]|done|].
  apply IH; [done|]. assert (Forall (holds_later (db st1)) (results st)) as Hr1.
  { eapply Forall_impl; [exact Hr|]. intros r. by apply later_grows. }
  destruct He as [_ [(E & r & -> & _ & Ht)|(e & [(s & _ & _ & E) _] & Hid & _ & ->)]];
    apply Forall_app; (split; [done|]); apply Forall_singleton.
  - rewrite E. by apply truthful_later.
  - apply truthful_later. cbn. exists e. by rewrite E, <- Hid; cbn; rewrite lookup_insert_eq.
Qed.

(** The answer to an accepted push has one result per item, in the order
    of the request (changes, then deletes), and every result is true of the
    stored tables: an [Ok] names a row that is stored with that version and
    sequence number or a later version, a [Conflict] carries a copy of a row
    that is stored at that version or a later one. *)
Theorem push_answers_every_item env db0 req db' rs activity announced :
  db_inv db0 -> push env db0 req = (db', Ok (rs, activity, announced)) ->
  map result_id rs = map c_id (changes req) ++ map d_id (deletes req) /\ Forall (holds_later db') rs.
Proof.
  intros Hi Hp. destruct (push_cases env db0 req) as [[e E]|(st & Ht & E)]; rewrite E in Hp; simplify_eq.
  pose proof (push_tx_effects env db0 req st (di_keyed _ Hi) Ht) as He. split.
  - by rewrite (effects_results _ _ _ _ He).
  - by apply (effects_truth _ _ _ _ He); [|constructor].
Qed.

Lemma push_tables env db0 req : db_inv db0 ->
  db_inv (fst (push env db0 req)) /\ db_grows db0 (fst (push env db0 req)).
Proof.
  intros Hi. destruct (push_cases env db0 req) as [[e ->]|(st & Ht & ->)]; cbn; [done|].
  pose proof (push_tx_effects env db0 req st (di_keyed _ Hi) Ht) as He.
  by apply (effects_inv _ _ _ _ He).
Qed.

(** C9: Whatever a push asks for, the tables stay well formed (row keys are
    ids, versions start at 1, no row's sequence number exceeds its vault's
    counter, and no two rows of a vault share one), no row disappears or
    changes vault, a row that changed has a higher version and a sequence
    number above everything its vault had before, and the vaults' counters
    never decrease. *)
Theorem push_preserves_tables env db0 req :
  db_inv db0 -> db_inv (fst (push env db0 req)) /\ db_grows db0 (fst (push env db0 req)).
Proof. apply push_tables. Qed.

(** C12: A row a push changed is one the request names, of a vault that is in
    the requester's scope and that they may write, where no entity rule of a
    team vault puts them below [edit]; every other row is untouched. *)
Theorem push_writes_only_where_allowed env db0 req i :
  keyed db0 -> rows (fst (push env db0 req)) !! i <> rows db0 !! i ->
  i ∈ map c_id (changes req) ++ map d_id (deletes req) /\
  exists e, rows (fst (push env db0 req)) !! i = Some e /\ may_write env (vault_id e) i.
Proof.
  intros Hk. destruct (push_cases env db0 req) as [[e ->]|(st & Ht & ->)]; cbn; [done|].
  intros Hd. pose proof (push_tx_effects env db0 req st Hk Ht) as He.
  by destruct (effects_authorized _ _ _ _ He i).
Qed.

(** ** Concurrent edits *)

(** A change the checks before the lookup let through. *)
Record acceptable (env : Env) (c : EntityChange) : Prop := {
  ac_may : may_write env (c_vault_id c) (c_id c);
  ac_kind : is_known_kind (c_kind c) = true;
  ac_size : (String.length (c_data c) <= max_entity_bytes env)%nat;
  ac_b64 : unb64 env (c_data c) = true;
  ac_key : forall a, resolve_access env (c_vault_id c) = Some a -> c_key_version c = VaultAccess.key_version a
}.

Definition single (c : EntityChange) : PushRequest := mkPush [c] [].

Lemma push_single env db0 c :
  push env db0 (single c) =
  match change_step env (initial_state env db0 (single c)) c with
  | Ok st => (db st, Ok (results st, audit_flush (audited st), touched st))
  | Err e => (db0, Err e)
  end.
Proof.
  unfold push, push_tx. cbn [changes deletes length single run_steps Nat.add]. change (MAX_BATCH <? 1)%nat with false. cbn iota.
  destruct (change_step _ _ _); done.
Qed.

Lemma initial_access_single env db0 c :
  access (initial_state env db0 (single c)) !! c_vault_id c = Some (resolve_access env (c_vault_id c)).
Proof.
  unfold initial_state, initial_access. cbn [access]. apply lookup_set_to_map; [by intros ?? _ _ [= ->]|].
  exists (c_vault_id c). split; [cbn; set_solver|done].
Qed.

Lemma change_step_acceptable env db0 c : acceptable env c ->
  exists a, change_step env (initial_state env db0 (single c)) c = 
            write_change env (initial_state env db0 (single c)) a c.
Proof.
  intros [(a & Ha & Hb) Hk Hs H64 Hv]. exists a. unfold change_step.
  rewrite initial_access_single, Ha. cbn [default from_option Datatypes.id].
  rewrite Hk, H64, (Hv a Ha), bool_decide_eq_true_2 by done.
  replace (max_entity_bytes env <? String.length (c_data c))%nat with false by (symmetry; apply Nat.ltb_ge; lia).
  cbn [negb orb]. unfold blocked. destruct (acl _ !! c_vault_id c) as [m|] eqn:E; [|done].
  pose proof (mo_acl env _ (initial_maps env db0 (single c)) _ _ E) as ->.
  cbn in E. unfold initial_acl in E. rewrite map_lookup_imap in E.
  apply bind_Some in E as (a' & E1 & E2). pose proof (initial_access_single env db0 c) as E3. cbn in E3.
  rewrite E3, Ha in E1. injection E1 as <-. cbn in E2.
  case_bool_decide as Ht; [|done]. destruct (modes_of env (c_vault_id c) !! c_id c) as [mode|] eqn:Em; [|done].
  by rewrite (Hb Ht mode eq_refl).
Qed.

(** A change not based on the stored version is never written. *)
Lemma change_step_stale env st c e : rows (db st) !! c_id c = Some e -> c_base_version c <> Some (version e) ->
  exists r, change_step env st c = Ok (answer st r) /\ forall i v s, r <> PushOk i v s.
Proof.
  intros He Hb. unfold change_step, write_change, fetch_entity. rewrite He.
  rewrite (bool_decide_eq_false_2 (c_base_version c = _)) by done.
  destruct (default None _) as [a|]; [|by eexists].
  repeat first [by eexists|next_case].
Qed.

Lemma write_change_accepted env st a c st' i v s :
  write_change env st a c = Ok st' -> results st' = results st ++ [PushOk i v s] ->
  i = c_id c /\ exists e, rows (db st') !! i = Some e /\ vault_id e = c_vault_id c /\ version e = v /\ seq e = s /\
    data e = c_data c /\ kind e = c_kind c /\
    (c_base_version c = None /\ v = 1 \/ c_base_version c = Some (v - 1)).
Proof.
  unfold write_change, fetch_entity. destruct (rows (db st) !! c_id c) as [e|] eqn:Ee.
  - destruct (negb _) eqn:Ev; [intros [= <-] [=]%(app_inv_head (results st))|].
    apply negb_false_iff, bool_decide_eq_true in Ev.
    case_bool_decide as Eb; [|intros [= <-] [=]%(app_inv_head (results st))].
    intros ([db' s'] & Hn & [= <-])%bind_ok. cbn. intros [= -> <- <-]%(app_inv_head (results st)). split; [done|].
    eexists. rewrite lookup_insert_eq. split_and!; try done; cbn. right. rewrite Eb. f_equal. lia.
  - destruct (c_base_version c) eqn:Eb; [intros [= <-] [=]%(app_inv_head (results st))|].
    intros ([db' s'] & Hn & [= <-])%bind_ok. cbn. intros [= -> <- <-]%(app_inv_head (results st)). split; [done|].
    eexists. rewrite lookup_insert_eq. split_and!; try done; by left.
Qed.

Lemma change_step_accepted env st c st' i v s :
  change_step env st c = Ok st' -> results st' = results st ++ [PushOk i v s] ->
  exists a, write_change env st a c = Ok st'.
Proof.
  unfold change_step. destruct (default None _) as [a|]; [|by intros [= <-] [=]%(app_inv_head (results st))].
  do 4 (next_if; [by intros [= <-] [=]%(app_inv_head (results st))|]). eauto.
Qed.

(** C1: Two clients edit the same copy of an item: once the first push is
    accepted, the second, whoever sends it, changes nothing and is never
    answered [Ok]; when its checks pass it is answered with a [Conflict] that
    carries the first writer's payload at its new version, so no accepted edit
    is lost. *)
Theorem second_writer_gets_the_conflict env1 env2 db0 c1 c2 db1 i v s act ann :
  push env1 db0 (single c1) = (db1, Ok ([PushOk i v s], act, ann)) ->
  c_id c2 = c_id c1 -> c_base_version c2 = c_base_version c1 ->
  (exists rs, push env2 db1 (single c2) = (db1, Ok (rs, [], ∅)) /\ forall i' v' s', PushOk i' v' s' ∉ rs) /\
  (acceptable env2 c2 -> c_vault_id c2 = c_vault_id c1 ->
   exists e, rows db1 !! i = Some e /\ data e = c_data c1 /\ version e = v /\ seq e = s /\
     push env2 db1 (single c2) = (db1, Ok ([PushConflict i e], [], ∅))).
Proof.
  rewrite push_single. destruct (change_step env1 _ c1) as [st|] eqn:E; [|done]. intros [= <- Hr _ _] Hid Hb.
  destruct (change_step_accepted _ _ _ _ i v s E Hr) as [a Hw].
  destruct (write_change_accepted _ _ _ _ _ _ _ _ Hw Hr) as (-> & e & He & Hv & Hver & Hs & Hdata & _ & Hbase).
  assert (c_base_version c2 <> Some (version e)) as Hne.
  { rewrite Hb, Hver. destruct Hbase as [[-> ->]| ->]; [done|]. intros [= ?]. lia. }
  rewrite push_single. rewrite <- Hid in He. split.
  - destruct (change_step_stale env2 (initial_state env2 (db st) (single c2)) c2 e He Hne) as (r & -> & Hok).
    exists [r]. split; [done|]. intros i' v' s' [= Hin]%list_elem_of_singleton. by apply (Hok i' v' s').
  - intros Hacc Hvault. exists e. rewrite <- Hid. split_and!; try done.
    destruct (change_step_acceptable env2 (db st) c2 Hacc) as [a2 ->].
    unfold write_change, fetch_entity. cbn [db initial_state]. rewrite He.
    rewrite bool_decide_eq_true_2 by congruence. cbn [negb]. by rewrite bool_decide_eq_false_2.
Qed.

(** An edit that says nothing about the secret's rotation (no
    [secret_rotated_at]) is stored with the rotation date set to the server's
    clock, whatever date was stored: the [COALESCE] that should keep the
    stored date never sees a NULL, because [LEAST] ignores the NULL argument. *)
Theorem edit_without_rotation_date_resets_it env st a c e st' i v s :
  fetch_entity (db st) (c_id c) = Some e -> c_secret_rotated_at c = None ->
  write_change env st a c = Ok st' -> results st' = results st ++ [PushOk i v s] ->
  exists e', rows (db st') !! c_id c = Some e' /\ secret_rotated_at e' = Some (now env).
Proof.
  intros He Hn. unfold write_change. rewrite He, Hn. next_if; [by intros [= <-] [=]%(app_inv_head (results st))|].
  next_if; [|by intros [= <-] [=]%(app_inv_head (results st))].
  intros ([db' s'] & _ & [= <-])%bind_ok _. cbn. rewrite lookup_insert_eq. eauto.
Qed.

(** ** Pages *)

#[export] Instance seq_le_total : Total seq_le.
Proof. intros a b. unfold seq_le. lia. Qed.
#[export] Instance seq_le_trans : Transitive seq_le.
Proof. intros a b c. unfold seq_le. lia. Qed.

(** The rows of a vault past a cursor, in order. *)
Definition pending_rows (db : Db) (v : uuid) (since : Z) : list SyncEntity :=
  merge_sort seq_le (filter (fun e => vault_id e = v /\ since < seq e) (map snd (map_to_list (rows db)))).

Definition seq_lt (a b : SyncEntity) : Prop := seq a < seq b.

Lemma strict_sorted l : StronglySorted seq_le l -> NoDup (map seq l) -> StronglySorted seq_lt l.
Proof. apply (strict_sorted_by seq). Qed.

Lemma pending_elem db v since e : keyed db ->
  e ∈ pending_rows db v since <-> rows db !! id e = Some e /\ vault_id e = v /\ since < seq e.
Proof.
  intros Hk. unfold pending_rows. rewrite merge_sort_Permutation, list_elem_of_filter, list_elem_of_fmap.
  split.
  - intros [[? ?] ([i e'] & -> & Hi)]. apply elem_of_map_to_list in Hi. cbn in *.
    by rewrite (Hk i e' Hi).
  - intros (He & ? & ?). split; [done|]. exists (id e, e). split; [done|]. by apply elem_of_map_to_list.
Qed.

Lemma pending_nodup db v since : keyed db -> NoDup (pending_rows db v since).
Proof.
  intros Hk. unfold pending_rows. rewrite merge_sort_Permutation. apply NoDup_filter.
  apply (NoDup_fmap_2_strong snd); [|apply NoDup_map_to_list].
  intros [i x] [j y] Hx%elem_of_map_to_list Hy%elem_of_map_to_list ?. cbn in *. subst y.
  by rewrite <- (Hk i x Hx), <- (Hk j x Hy).
Qed.

Lemma pending_sorted db v since : db_inv db -> StronglySorted seq_lt (pending_rows db v since).
Proof.
  intros [Hk _ Hu]. apply strict_sorted; [apply StronglySorted_merge_sort; apply _|].
  apply (NoDup_fmap_2_strong seq); [|by apply pending_nodup].
  intros x y (Hx & Hvx & _)%pending_elem (Hy & Hvy & _)%pending_elem E; [|done..].
  assert (id x = id y) as Ei by (apply (Hu _ _ _ _ Hx Hy); congruence). congruence.
Qed.

(** A prefix of a strictly sorted list is what lies up to its last element. *)
Lemma take_cut n l e : StronglySorted seq_lt l ->
  e ∈ take n l <-> e ∈ l /\ exists x, last (take n l) = Some x /\ seq e <= seq x.
Proof. apply (take_cut_by seq). Qed.

Section Pull.
Context (env : Env) (db0 : Db) (Hdb : db_inv db0) (lim : nat) (Hlim : (1 <= lim)%nat).

(** One round, with the page cut to what is left of the limit. *)
Lemma pull_step_eq r v since :
  let cs := <[v := since]> (new_cursors r) in
  let k := (lim - length (entities r))%nat in
  let L := pending_rows db0 v since in
  pull_step env db0 lim r (v, since) =
  if has_more r || negb (readable env v) then mkPulled (entities r) cs (has_more r)
  else mkPulled (entities r ++ take k L)
         (match last (take k L) with Some e => <[v := seq e]> cs | None => cs end)
         ((k =? 0)%nat || (k <? length L)%nat).
Proof.
  intros cs k L. unfold pull_step. fold cs k. destruct (has_more r) eqn:Em; cbn [orb]; [done|].
  destruct (readable env v); cbn [negb]; [|done].
  destruct (k =? 0)%nat eqn:Ek; cbn [orb].
  - apply Nat.eqb_eq in Ek as ->. cbn. by rewrite app_nil_r.
  - change (page db0 v since (k + 1)) with (take (k + 1) L). rewrite length_take.
    destruct (k <? length L)%nat eqn:E1.
    + apply Nat.ltb_lt in E1. rewrite (proj2 (Nat.ltb_lt k ((k + 1) `min` length L)%nat)) by lia.
      rewrite take_take. replace (k `min` (k + 1))%nat with k by lia. done.
    + apply Nat.ltb_ge in E1. rewrite (proj2 (Nat.ltb_ge k ((k + 1) `min` length L)%nat)) by lia.
      rewrite !take_ge by lia. done.
Qed.

(** A row the response owes for a wanted vault. *)
Definition owed (v : uuid) (since : Z) (e : SyncEntity) : Prop :=
  rows db0 !! id e = Some e /\ vault_id e = v /\ readable env v = true /\ since < seq e.

Lemma owed_pending v since e : readable env v = true ->
  e ∈ pending_rows db0 v since <-> owed v since e.
Proof. intros Hr. rewrite pending_elem by apply Hdb. unfold owed. tauto. Qed.

(** A cursor that stayed, or moved up to a stored row. *)
Definition reached (v : uuid) (since new : Z) : Prop :=
  new = since \/ (since < new /\ exists e, rows db0 !! id e = Some e /\ vault_id e = v /\ seq e = new).

Lemma reached_le v since new : reached v since new -> since <= new.
Proof using Type. intros [->|[H _]]; [reflexivity|exact (Z.lt_le_incl _ _ H)]. Qed.

(** The response after the vaults [done]. *)
Record pulled_ok (done : list (uuid * Z)) (r : PullResponse) : Prop := {
  po_cursors : forall v, is_Some (new_cursors r !! v) <-> v ∈ map fst done;
  po_from : forall v since, (v, since) ∈ done -> exists new, new_cursors r !! v = Some new /\ reached v since new;
  po_entities : forall e, e ∈ entities r <-> exists since new, (vault_id e, since) ∈ done /\
    new_cursors r !! vault_id e = Some new /\ owed (vault_id e) since e /\ seq e <= new;
  po_nodup : NoDup (entities r);
  po_limit : (length (entities r) <= lim)%nat;
  po_full : has_more r = true -> length (entities r) = lim;
  po_all : has_more r = false -> forall v since e, (v, since) ∈ done -> owed v since e -> e ∈ entities r
}.

(** What one round does to the cursor and the rows of its vault. *)
Lemma round_cut v since (cs : gmap uuid Z) k : let L := pending_rows db0 v since in
  exists new, match last (take k L) with Some e => <[v := seq e]> (<[v := since]> cs) | None => <[v := since]> cs end
              = <[v := new]> cs /\ reached v since new /\
  (readable env v = true -> forall e, e ∈ take k L <-> owed v since e /\ seq e <= new).
Proof.
  intros L. assert (HL := pending_sorted db0 v since Hdb). destruct (last (take k L)) as [x|] eqn:El.
  - assert (x ∈ take k L) as Hx by (apply last_Some in El as [l' ->]; apply elem_of_app; right; by left).
    assert (reached v since (seq x)) as Hreach.
    { apply (sublist_elem _ L) in Hx; [|apply sublist_take]. apply pending_elem in Hx as (? & ? & ?); [|apply Hdb].
      right. eauto. }
    exists (seq x). rewrite insert_insert_eq. split_and!; [done|done|]. intros Hr e.
    rewrite (take_cut k L e HL), El. unfold L. rewrite (owed_pending v since e Hr). split.
    + intros [? (x' & [= <-] & ?)]. done.
    + intros [? ?]. eauto.
  - exists since. apply last_None in El. rewrite El. split_and!; [done|by left|]. intros _ e. split.
    + by intros ?%elem_of_nil.
    + intros [(_ & _ & _ & ?) ?]. lia.
Qed.

(** What a round adds, whatever branch it takes. *)
Lemma round_shape r v since : (length (entities r) <= lim)%nat -> (has_more r = true -> length (entities r) = lim) ->
  exists P new m, pull_step env db0 lim r (v, since) = mkPulled (entities r ++ P) (<[v := new]> (new_cursors r)) m /\
    reached v since new /\ NoDup P /\ (forall e, e ∈ P <-> owed v since e /\ seq e <= new) /\
    (length (entities r ++ P) <= lim)%nat /\ (m = true -> length (entities r ++ P) = lim) /\
    (m = false -> has_more r = false /\ forall e, owed v since e -> e ∈ P).
Proof.
  intros Hle Hfull. rewrite pull_step_eq. destruct (has_more r || negb (readable env v)) eqn:Ec.
  - exists [], since, (has_more r). rewrite app_nil_r. split_and!; try done; [by left|constructor| |].
    + intros e. split; [by intros ?%elem_of_nil|]. intros [(_ & _ & _ & ?) ?]. lia.
    + intros Em. split; [done|]. rewrite Em in Ec. cbn in Ec. apply negb_true_iff in Ec.
      intros e (_ & _ & ? & _). congruence.
  - apply orb_false_iff in Ec as [Em Hr%negb_false_iff].
    set (k := (lim - length (entities r))%nat). set (L := pending_rows db0 v since).
    destruct (round_cut v since (new_cursors r) k) as (new & E & Hn & Hin). fold L in E, Hin. rewrite E.
    exists (take k L), new. eexists. split; [done|]. rewrite length_app, length_take.
    split_and!; [done| |by apply Hin| | |].
    + eapply sublist_NoDup; [apply pending_nodup, Hdb|apply sublist_take].
    + unfold k. lia.
    + intros [?%Nat.eqb_eq|?%Nat.ltb_lt]%orb_prop; unfold k in *; lia.
    + intros [_ Hk%Nat.ltb_ge]%orb_false_iff. split; [done|]. intros e He.
      rewrite take_ge by done. by apply owed_pending.
Qed.

Lemma pulled_add done r v since : pulled_ok done r -> v ∉ map fst done ->
  pulled_ok (done ++ [(v, since)]) (pull_step env db0 lim r (v, since)).
Proof.
  intros [Hc Hf He Hnd Hl Hfull Hall] Hv.
  destruct (round_shape r v since Hl Hfull) as (P & new & m & -> & Hn & HP & Hin & Hl' & Hfull' & Hall').
  assert (Hne : forall w s, (w, s) ∈ done -> w <> v).
  { intros w s Hw ->. apply Hv. by apply (list_elem_of_fmap_2 fst _ (v, s)). }
  split; cbn [new_cursors entities has_more]; try done.
  - intros w. rewrite map_app, elem_of_app. cbn [map fst]. rewrite list_elem_of_singleton.
    destruct (decide (w = v)) as [->|?]; [rewrite lookup_insert_eq; split; eauto|].
    rewrite lookup_insert_ne by done. rewrite Hc. split; [auto|intros [?|?]; done].
  - intros w s [Hw|[= -> ->]%list_elem_of_singleton]%elem_of_app; [|rewrite lookup_insert_eq; eauto].
    rewrite lookup_insert_ne by (apply not_eq_sym; eauto). eauto.
  - intros e. rewrite elem_of_app, He, Hin. setoid_rewrite elem_of_app. setoid_rewrite list_elem_of_singleton.
    split.
    + intros [(s & n & Hd & Hcs & ? & ?)|[Ho ?]].
      * exists s, n. rewrite lookup_insert_ne by (apply not_eq_sym; eauto). auto.
      * pose proof Ho as (_ & -> & _). exists since, new. rewrite lookup_insert_eq. auto.
    + intros (s & n & [Hd|[= Ev ->]] & Hcs & Ho & ?).
      * left. rewrite lookup_insert_ne in Hcs by (apply not_eq_sym; eauto). eauto 6.
      * right. rewrite Ev, lookup_insert_eq in Hcs. injection Hcs as ->. by rewrite Ev in Ho.
  - apply NoDup_app. split_and!; [done| |done]. intros e (s & n & Hd & _)%He [(_ & Ev & _) _]%Hin.
    by apply (Hne _ _ Hd).
  - intros Em w s e [Hw|[= -> ->]%list_elem_of_singleton]%elem_of_app Ho; apply elem_of_app.
    + left. apply Hall' in Em as [Em _]. eauto.
    + right. apply Hall' in Em as [_ Em]. auto.
Qed.

Lemma pulled_nil : pulled_ok [] (mkPulled [] ∅ false).
Proof.
  split; cbn.
  - intros v. rewrite lookup_empty. split; [by intros [? ?]|by intros ?%elem_of_nil].
  - by intros v s ?%elem_of_nil.
  - intros e. split; [by intros ?%elem_of_nil|by intros (? & ? & ?%elem_of_nil & _)].
  - constructor.
  - lia.
  - done.
  - by intros _ v s e ?%elem_of_nil.
Qed.

Lemma pulled_fold todo done r : pulled_ok done r -> NoDup (map fst (done ++ todo)) ->
  pulled_ok (done ++ todo) (fold_left (pull_step env db0 lim) todo r).
Proof.
  revert done r. induction todo as [|[v since] todo IH]; intros done r Hr Hnd; [by rewrite app_nil_r|].
  cbn [fold_left]. rewrite cons_middle, app_assoc in *. apply IH; [|done]. apply pulled_add; [done|].
  rewrite !map_app in Hnd. apply NoDup_app in Hnd as [Hnd _]. apply NoDup_app in Hnd as (_ & Hnd & _).
  intros Hin. apply (Hnd v Hin). by left.
Qed.
End Pull.

(** A request is served vault by vault within the clamped limit. *)
Lemma clamp_limit_bounds l : (1 <= clamp_limit l <= MAX_BATCH)%nat.
Proof.
  unfold clamp_limit.
  pose proof (clamp_bounds (default (Z.of_nat MAX_BATCH) l) 1 (Z.of_nat MAX_BATCH) ltac:(done)). lia.
Qed.

Definition wanted (req : PullRequest) : list (uuid * Z) := merge_sort want_le (map_to_list (cursors req)).

Lemma wanted_elem req v since : (v, since) ∈ wanted req <-> cursors req !! v = Some since.
Proof. unfold wanted. rewrite merge_sort_Permutation. apply elem_of_map_to_list. Qed.

Lemma pull_pulled_ok env db0 req : db_inv db0 ->
  pulled_ok env db0 (clamp_limit (limit req)) (wanted req) (pull env db0 req).
Proof.
  intros Hdb. destruct (clamp_limit_bounds (limit req)) as [Hlim _].
  apply (pulled_fold env db0 Hdb _ Hlim (wanted req) []); [by apply pulled_nil|].
  change (NoDup ((wanted req).*1)). unfold wanted. rewrite merge_sort_Permutation. apply NoDup_fst_map_to_list.
Qed.

(** C14: A pull returns exactly the rows between the old and the new cursor:
    each wanted vault gets a cursor that did not go back, and a row is in the
    response (once) iff it is stored in a wanted vault that the requester may
    read, with a sequence number past the cursor sent and up to the cursor
    returned. At most 500 rows are returned; [has_more] is only set on a
    non-empty page, and without it nothing of any readable wanted vault is
    missing. *)
Theorem pull_returns_the_rows_between_cursors env db0 req : db_inv db0 ->
  let r := pull env db0 req in
  (forall v since, cursors req !! v = Some since -> exists new, new_cursors r !! v = Some new /\ since <= new) /\
  (forall e, e ∈ entities r <-> exists since new, cursors req !! vault_id e = Some since /\
     new_cursors r !! vault_id e = Some new /\ rows db0 !! id e = Some e /\
     readable env (vault_id e) = true /\ since < seq e <= new) /\
  NoDup (entities r) /\ (length (entities r) <= MAX_BATCH)%nat /\
  (has_more r = true -> entities r <> []) /\
  (has_more r = false -> forall e since, cursors req !! vault_id e = Some since -> rows db0 !! id e = Some e ->
     readable env (vault_id e) = true -> since < seq e -> e ∈ entities r).
Proof.
  intros Hdb r. destruct (clamp_limit_bounds (limit req)) as [Hlim Hmax].
  destruct (pull_pulled_ok env db0 req Hdb) as [_ Hf He Hnd Hl Hfull Hall]. fold r in Hf, He, Hnd, Hl, Hfull, Hall.
  split_and!; try done; [| |lia| |].
  - intros v since (new & ? & ?%reached_le)%wanted_elem%Hf. eauto.
  - intros e. rewrite He. split; intros (since & new & H1 & H2 & H3); exists since, new.
    + apply wanted_elem in H1. destruct H3 as [(? & _ & ? & ?) ?]. split_and!; done.
    + destruct H3 as (? & ? & ? & ?). rewrite wanted_elem. unfold owed. split_and!; done.
  - intros Hm E. specialize (Hfull Hm). rewrite E in Hfull. cbn in Hfull. lia.
  - intros Hm e since Hv Hs Hr Hlt. apply (Hall Hm (vault_id e) since); [by apply wanted_elem|]. by unfold owed.
Qed.

(** ** A concrete server *)

(** An editor of the team vault 7 with two rules; the vault 8 is not theirs. *)
Definition ex_env (device : uuid) : Env :=
  mkEnv (fun _ => true)
    (fun v => if decide (v = 7%N) then
       Some (VaultAccess.mkRow "team" (Some 1%N) 2 (Some "editor") (Some false) None None true false) else None)
    (fun v => [VaultAccess.mkRule v 43 "host" "role" "read"; VaultAccess.mkRule v 42 "host" "member" "edit"])
    device 1000 64 (fun _ => true).

Definition ex_row (i : uuid) (version seq : Z) : SyncEntity :=
  mkEntity (Some 10) i "host" 7 version seq false 2 "old" 5 None.
Definition ex_db : Db := mkDb (list_to_map [(42%N, ex_row 42 3 4); (43%N, ex_row 43 1 5)]) {[7%N := 5]}.

Definition ex_change (base : option Z) (data : string) : EntityChange :=
  mkChange None 42 "host" 7 base 2 data 900.

Lemma ex_rows i e : rows ex_db !! i = Some e ->
  (i = 42%N /\ e = ex_row 42 3 4) \/ (i = 43%N /\ e = ex_row 43 1 5).
Proof.
  cbn. intros [[<- <-]|[_ [[<- <-]|[_ H]]%lookup_insert_Some]]%lookup_insert_Some; auto.
  by rewrite lookup_empty in H.
Qed.

Lemma ex_db_inv : db_inv ex_db.
Proof.
  split.
  - intros i e [[-> ->]|[-> ->]]%ex_rows; done.
  - intros i e [[-> ->]|[-> ->]]%ex_rows; (split; [done|]); exists 5; done.
  - intros i j e e' [[-> ->]|[-> ->]]%ex_rows [[-> ->]|[-> ->]]%ex_rows; done.
Qed.

Definition ex_req : PushRequest :=
  mkPush [ex_change (Some 3) "new"; ex_change (Some 3) "late"] [mkDelete 43 1; mkDelete 44 1].

Lemma push_answers_every_item_witness :
  map result_id [PushOk 42 4 6; PushConflict 42 (mkEntity (Some 1000) 42 "host" 7 4 6 false 2 "new" 900 (Some 9%N));
                 PushError 43 "forbidden"; PushError 44 "not_found"] = [42; 42; 43; 44]%N.
Proof.
  eapply (push_answers_every_item (ex_env 9) ex_db ex_req); [exact ex_db_inv|vm_compute; reflexivity].
Defined.

Lemma push_preserves_tables_witness : db_inv (fst (push (ex_env 9) ex_db ex_req)).
Proof. apply (push_preserves_tables (ex_env 9) ex_db ex_req). exact ex_db_inv. Defined.

Lemma push_writes_only_where_allowed_witness : exists e,
  rows (fst (push (ex_env 9) ex_db ex_req)) !! 42%N = Some e /\ may_write (ex_env 9) (vault_id e) 42.
Proof.
  apply (push_writes_only_where_allowed (ex_env 9) ex_db ex_req 42); [apply ex_db_inv|].
  vm_compute. intros [=].
Defined.

Lemma second_writer_gets_the_conflict_witness : exists db1 e,
  push (ex_env 9) ex_db (single (ex_change (Some 3) "mine")) =
    (db1, Ok ([PushOk 42 4 6], [(7, 1, "entity.updated", "host", 1%nat, [42])]%N, {[7%N := 6]})) /\
  data e = "mine" /\
  push (ex_env 10) db1 (single (ex_change (Some 3) "yours")) = (db1, Ok ([PushConflict 42 e], [], ∅)).
Proof.
  eexists.
  destruct (second_writer_gets_the_conflict (ex_env 9) (ex_env 10) ex_db (ex_change (Some 3) "mine")
    (ex_change (Some 3) "yours") (fst (push (ex_env 9) ex_db (single (ex_change (Some 3) "mine")))) 42 4 6
    [(7, 1, "entity.updated", "host", 1%nat, [42])]%N {[7%N := 6]}) as [_ H];
    [vm_compute; reflexivity|reflexivity|reflexivity|].
  destruct H as (e & _ & Hd & _ & _ & Hp); [|reflexivity|exists e; split; [vm_compute; reflexivity|split; [exact Hd|exact Hp]]].
  split; [|reflexivity|vm_compute; lia|reflexivity|].
  - eexists. split; [vm_compute; reflexivity|]. intros _ mode. vm_compute. by intros [= <-].
  - intros a. vm_compute. by intros [= <-].
Defined.

Lemma edit_without_rotation_date_resets_it_witness :
  exists st' e', change_step (ex_env 9) (initial_state (ex_env 9) ex_db (single (ex_change (Some 3) "renamed")))
    (ex_change (Some 3) "renamed") = Ok st' /\ rows (db st') !! 42%N = Some e' /\ secret_rotated_at e' = Some 1000.
Proof.
  eexists.
  destruct (edit_without_rotation_date_resets_it (ex_env 9)
    (initial_state (ex_env 9) ex_db (single (ex_change (Some 3) "renamed")))
    (VaultAccess.mkAccess 7 VaultAccess.Team (Some 1%N) VaultAccess.Editor 2 false)
    (ex_change (Some 3) "renamed") (ex_row 42 3 4)
    (default (initial_state (ex_env 9) ex_db (single (ex_change (Some 3) "renamed")))
       (match change_step (ex_env 9) (initial_state (ex_env 9) ex_db (single (ex_change (Some 3) "renamed")))
          (ex_change (Some 3) "renamed") with Ok st' => Some st' | Err _ => None end)) 42 4 6)
    as (e' & H1 & H2); [vm_compute; reflexivity..|].
  exists e'. split; [vm_compute; reflexivity|split; [exact H1|exact H2]].
Defined.

Lemma pull_returns_the_rows_between_cursors_witness :
  has_more (pull (ex_env 9) ex_db (mkPull {[7%N := 4]} (Some 3))) = false /\
  ex_row 43 1 5 ∈ entities (pull (ex_env 9) ex_db (mkPull {[7%N := 4]} (Some 3))).
Proof.
  split; [vm_compute; reflexivity|].
  apply (pull_returns_the_rows_between_cursors (ex_env 9) ex_db (mkPull {[7%N := 4]} (Some 3)) ex_db_inv).
  exists 4, 5. split_and!; vm_compute; (reflexivity || discriminate).
Defined.
