(* ===== verification/ClientStore.v ===== *)
(** * The device's local database

    [crates/termoso-core/src/store/mod.rs] (vaults and their keys) and
    [store/entities.rs] (entities, and the rows the sync engine works with).
    The SQLite tables are finite maps, so an upsert is an insert and [ON DELETE
    CASCADE] a filter; a foreign key the database refuses is [Db]. Payloads go
    through [Envelope]; serde and the text of a uuid are parameters, the
    clock and the random values arguments. *)
From S2P Require Import Prelude Text Envelope SyncTypes.
From S2P Require Import VaultAccess.

#[local] Open Scope string_scope.
#[local] Open Scope list_scope.
Abbreviation uuid := N.

Inductive CoreError : Type :=
| Db | Crypto (e : CryptoError) | Json | NotFound (what : string) | Invalid (msg : string)
| VaultLocked (vault : uuid) | VaultReadOnly (vault : uuid) | Api (code : string)
| HostKeyRejected (host : string) | NotSignedIn.
Abbreviation core := (result CoreError).

Definition crypto {A} (r : result CryptoError A) : core A :=
  match r with Ok a => Ok a | Err e => Err (Crypto e) end.

(** ** Vaults *)

Inductive LocalVaultKind : Type := Local | Personal | Team.
#[export] Instance LocalVaultKind_eq_dec : EqDecision LocalVaultKind.
Proof. solve_decision. Defined.

Definition as_str (k : LocalVaultKind) : string :=
  match k with Local => "local" | Personal => "personal" | Team => "team" end.
Definition is_synced (k : LocalVaultKind) : bool := negb (bool_decide (k = Local)).

(** A row of [vaults]. *)
Record VaultRow := mkVaultRow {
  vr_kind : LocalVaultKind; vr_name : string; vr_team : option uuid; vr_role : VaultRole;
  wrapped_key : option string; vr_key_version : Z; vr_cursor : Z; vr_session_logging : bool;
  vr_logs_cursor : Z; vr_is_default : bool
}.

Record LocalVault := mkVault {
  lv_id : uuid; lv_kind : LocalVaultKind; lv_name : string; lv_team : option uuid; lv_role : VaultRole;
  unlocked : bool; lv_key_version : Z; cursor : Z; session_logging : bool; logs_cursor : Z; is_default : bool
}.

(** ** Entities *)

Record EntityRow := mkRow {
  id : uuid; kind : string; vault_id : uuid; version : Z; seq : Z; deleted : bool;
  key_version : Z; data : string; updated_at : Z; dirty : bool
}.
#[export] Instance EntityRow_eq_dec : EqDecision EntityRow.
Proof. solve_decision. Defined.

Definition to_change (r : EntityRow) : EntityChange :=
  mkChange None (id r) (kind r) (vault_id r) (if 0 <? version r then Some (version r) else None)%Z
    (key_version r) (data r) (updated_at r).
Definition to_delete (r : EntityRow) : EntityDelete := SyncTypes.mkDelete (id r) (version r).

Record EntityFilter := mkFilter { f_vault : option uuid; f_kind : option string; include_deleted : bool }.

Record Store := mkStore {
  master : bytes; vault_rows : gmap uuid VaultRow; keys : gmap uuid bytes; ents : gmap uuid EntityRow
}.
Definition with_ents (s : Store) (f : gmap uuid EntityRow -> gmap uuid EntityRow) : Store :=
  mkStore (master s) (vault_rows s) (keys s) (f (ents s)).
Definition with_vaults (s : Store) (f : gmap uuid VaultRow -> gmap uuid VaultRow) : Store :=
  mkStore (master s) (f (vault_rows s)) (keys s) (ents s).

(** The entity as a caller sees it. *)
Record Entity (T : Type) := mkEntityOf {
  e_id : uuid; e_vault : uuid; e_version : Z; e_updated_at : Z; e_dirty : bool; e_data : T
}.
Arguments mkEntityOf {T}. Arguments e_id {T}. Arguments e_vault {T}. Arguments e_version {T}.
Arguments e_updated_at {T}. Arguments e_dirty {T}. Arguments e_data {T}.

(** [trait Payload], with what serde derives for it. *)
Class Payload (T : Type) := {
  KIND : string; to_json : T -> option string; from_json : string -> option T
}.
Arguments KIND T {_}.

(** ** Vault operations *)

Definition view (i : uuid) (v : VaultRow) : LocalVault :=
  mkVault i (vr_kind v) (vr_name v) (vr_team v) (vr_role v) (bool_decide (is_Some (wrapped_key v)))
    (vr_key_version v) (vr_cursor v) (vr_session_logging v) (vr_logs_cursor v) (vr_is_default v).

(** [ORDER BY kind = 'local' DESC, kind, name]; "local" is also the first of
    the three kinds in text order. *)
Definition kind_rank (k : LocalVaultKind) : nat := match k with Local => 0 | Personal => 1 | Team => 2 end.
Definition vault_le (a b : LocalVault) : Prop :=
  (kind_rank (lv_kind a) < kind_rank (lv_kind b))%nat \/
  (kind_rank (lv_kind a) = kind_rank (lv_kind b) /\ String.leb (lv_name a) (lv_name b) = true).
#[export] Instance vault_le_dec a b : Decision (vault_le a b).
Proof. unfold vault_le. apply _. Defined.

Definition vaults (s : Store) : list LocalVault :=
  merge_sort vault_le (map (fun p => view (fst p) (snd p)) (map_to_list (vault_rows s))).
Definition local_vault (s : Store) : core LocalVault :=
  match list_find (fun v => lv_kind v = Local) (vaults s) with
  | Some (_, v) => Ok v
  | None => Err (NotFound "local vault")
  end.
Definition personal_vault (s : Store) : option LocalVault :=
  snd <$> list_find (fun v => lv_kind v = Personal) (vaults s).
Definition vault (s : Store) (i : uuid) : core LocalVault :=
  match vault_rows s !! i with Some v => Ok (view i v) | None => Err (NotFound "vault") end.
Definition vault_key (s : Store) (i : uuid) : core bytes := ok_or (keys s !! i) (VaultLocked i).

Definition remove_vault (s : Store) (i : uuid) : core Store :=
  v ← vault s i;
  if decide (lv_kind v = Local) then Err (Invalid "cannot remove the local vault")
  else Ok (mkStore (master s) (delete i (vault_rows s)) (delete i (keys s))
             (filter (fun p => vault_id (snd p) <> i) (ents s))).

Definition alter_vault (s : Store) (i : uuid) (f : VaultRow -> VaultRow) : Store :=
  with_vaults s (alter f i).
Definition set_vault_cursor (s : Store) (i : uuid) (c : Z) : Store :=
  alter_vault s i (fun v => mkVaultRow (vr_kind v) (vr_name v) (vr_team v) (vr_role v) (wrapped_key v)
    (vr_key_version v) c (vr_session_logging v) (vr_logs_cursor v) (vr_is_default v)).
Definition set_vault_logs_cursor (s : Store) (i : uuid) (c : Z) : Store :=
  alter_vault s i (fun v => mkVaultRow (vr_kind v) (vr_name v) (vr_team v) (vr_role v) (wrapped_key v)
    (vr_key_version v) (vr_cursor v) (vr_session_logging v) c (vr_is_default v)).
Definition set_vault_session_logging (s : Store) (i : uuid) (on : bool) : Store :=
  alter_vault s i (fun v => mkVaultRow (vr_kind v) (vr_name v) (vr_team v) (vr_role v) (wrapped_key v)
    (vr_key_version v) (vr_cursor v) on (vr_logs_cursor v) (vr_is_default v)).
Definition set_vault_default (s : Store) (i : uuid) (on : bool) : Store :=
  alter_vault s i (fun v => mkVaultRow (vr_kind v) (vr_name v) (vr_team v) (vr_role v) (wrapped_key v)
    (vr_key_version v) (vr_cursor v) (vr_session_logging v) (vr_logs_cursor v) on).

(** ** Raw rows *)

Definition row (s : Store) (i : uuid) : option EntityRow := ents s !! i.

Definition newer_first (a b : EntityRow) : Prop := (updated_at b <= updated_at a)%Z.
Definition older_first (a b : EntityRow) : Prop := (updated_at a <= updated_at b)%Z.
#[export] Instance newer_first_dec a b : Decision (newer_first a b).
Proof. unfold newer_first. apply _. Defined.
#[export] Instance older_first_dec a b : Decision (older_first a b).
Proof. unfold older_first. apply _. Defined.

Definition matches (f : EntityFilter) (r : EntityRow) : Prop :=
  match f_vault f with Some v => vault_id r = v | None => True end /\
  match f_kind f with Some k => kind r = k | None => True end /\
  (include_deleted f = true \/ deleted r = false).
#[export] Instance matches_dec f r : Decision (matches f r).
Proof. unfold matches. destruct (f_vault f), (f_kind f); apply _. Defined.

Definition all_rows (s : Store) : list EntityRow := map snd (map_to_list (ents s)).
Definition rows (s : Store) (f : EntityFilter) : list EntityRow :=
  merge_sort newer_first (filter (matches f) (all_rows s)).
Definition dirty_rows (s : Store) (v : uuid) : list EntityRow :=
  merge_sort older_first (filter (fun r => vault_id r = v /\ dirty r = true) (all_rows s)).
Definition pending_changes (s : Store) : nat := length (filter (fun r => dirty r = true) (all_rows s)).

Definition set_pushed (version seq : Z) (dirty : bool) (r : EntityRow) : EntityRow :=
  mkRow (id r) (kind r) (vault_id r) version seq (deleted r) (key_version r) (data r) (updated_at r) dirty.

Definition mark_pushed (s : Store) (i : uuid) (version seq : Z) : Store :=
  match ents s !! i with
  | Some r =>
      if deleted r then with_ents s (delete i)
      else with_ents s (alter (set_pushed version seq false) i)
  | None => s
  end.

Definition rebase_local (s : Store) (i : uuid) (version seq : Z) : Store :=
  with_ents s (alter (set_pushed version seq true) i).

Definition apply_remote (s : Store) (e : SyncEntity) : core Store :=
  if SyncTypes.deleted e then Ok (with_ents s (delete (SyncTypes.id e)))
  else
    match vault_rows s !! SyncTypes.vault_id e with
    | None => Err Db
    | Some _ =>
        Ok (with_ents s (<[SyncTypes.id e :=
              mkRow (SyncTypes.id e) (SyncTypes.kind e) (SyncTypes.vault_id e) (SyncTypes.version e)
                (SyncTypes.seq e) false (SyncTypes.key_version e) (SyncTypes.data e) (SyncTypes.updated_at e)
                false]>))
    end.

(** ** Payloads *)

Section Payloads.
Context (seal unseal : bytes -> bytes -> bytes -> bytes -> option bytes).
Context (b64_encode : bytes -> string) (b64_decode : string -> option bytes).
Context (uuid_text : uuid -> string).

Definition wrap_aad (v : uuid) : string := label ["local"; "vault-key"; uuid_text v].

Definition upsert_vault (s : Store) (i : uuid) (k : LocalVaultKind) (name : string) (team : option uuid)
    (role : VaultRole) (key : option bytes) (key_version : Z) (nonce : bytes) : core Store :=
  if decide (k = Local) then Err (Invalid "cannot upsert the local vault")
  else
    wrapped ← match key with
              | Some key => Some <$> crypto (wrap_key seal b64_encode (master s) (wrap_aad i) nonce key)
              | None => Ok None
              end;
    let row :=
      match vault_rows s !! i with
      | None => mkVaultRow k name team role wrapped key_version 0 false 0 false
      | Some v =>
          mkVaultRow k name team role (match wrapped with Some w => Some w | None => wrapped_key v end)
            key_version (vr_cursor v) (vr_session_logging v) (vr_logs_cursor v) (vr_is_default v)
      end in
    Ok (mkStore (master s) (<[i := row]> (vault_rows s))
          (match key with Some key => <[i := key]> (keys s) | None => keys s end) (ents s)).

(** Viewers are refused before anything is written. *)
Definition writable_vault (s : Store) (v : uuid) : core LocalVault :=
  lv ← vault s v;
  if is_synced (lv_kind lv) && bool_decide (lv_role lv = Viewer) then Err (VaultReadOnly v) else Ok lv.

Definition encrypt_json (s : Store) (v : uuid) (k : string) (i : uuid) (json : option string) (nonce : bytes) :
    core (string * Z) :=
  key ← vault_key s v;
  lv ← vault s v;
  plaintext ← ok_or json Json;
  ct ← crypto (encrypt_str seal b64_encode key (entity_aad k (uuid_text i)) nonce plaintext);
  Ok (ct, lv_key_version lv).

Definition encrypt_payload {T} `{Payload T} (s : Store) (v : uuid) (k : string) (i : uuid) (d : T)
    (nonce : bytes) : core (string * Z) := encrypt_json s v k i (to_json d) nonce.

Definition decrypt_row {T} `{Payload T} (s : Store) (r : EntityRow) : core (Entity T) :=
  key ← vault_key s (vault_id r);
  plaintext ← crypto (decrypt_str unseal b64_decode key (entity_aad (kind r) (uuid_text (id r))) (data r));
  d ← ok_or (from_json plaintext) Json;
  Ok (mkEntityOf (id r) (vault_id r) (version r) (updated_at r) (dirty r) d).

Definition put_json (s : Store) (now : Z) (nonce : bytes) (v : uuid) (k : string) (i : uuid)
    (json : option string) : core Store :=
  if negb (is_known_kind k) then Err (Invalid ("unknown entity kind " +:+ k))
  else
    '(ct, kv) ← encrypt_json s v k i json nonce;
    lv ← writable_vault s v;
    let d := is_synced (lv_kind lv) in
    Ok (with_ents s (<[i :=
          match ents s !! i with
          | None => mkRow i k v 0 0 false kv ct now d
          | Some r => mkRow i k v (version r) (seq r) false kv ct now d
          end]>)).

Definition put_raw {T} `{Payload T} (s : Store) (now : Z) (nonce : bytes) (v : uuid) (k : string) (i : uuid)
    (d : T) : core Store := put_json s now nonce v k i (to_json d).

Definition put_with_id {T} `{Payload T} (s : Store) (now : Z) (nonce : bytes) (v i : uuid) (d : T) : core Store :=
  put_raw s now nonce v (KIND T) i d.

(** [id] is the random uuid drawn. *)
Definition insert {T} `{Payload T} (s : Store) (now : Z) (nonce : bytes) (v i : uuid) (d : T) :
    core (Store * uuid) := (fun s => (s, i)) <$> put_with_id s now nonce v i d.

Definition update {T} `{Payload T} (s : Store) (now : Z) (nonce : bytes) (i : uuid) (d : T) : core Store :=
  r ← ok_or (row s i) (NotFound "entity");
  if decide (kind r = KIND T) then put_raw s now nonce (vault_id r) (KIND T) i d
  else Err (Invalid "entity of another kind").

Definition get {T} `{Payload T} (s : Store) (i : uuid) : core (option (Entity T)) :=
  match row s i with
  | Some r => if negb (deleted r) && bool_decide (kind r = KIND T) then Some <$> decrypt_row s r else Ok None
  | None => Ok None
  end.

Definition require {T} `{Payload T} (s : Store) (i : uuid) : core (Entity T) :=
  o ← get (T := T) s i; ok_or o (NotFound (KIND T)).

Definition get_in {T} `{Payload T} (s : Store) (i v : uuid) : core (option (Entity T)) :=
  match row s i with
  | Some r =>
      if negb (deleted r) && bool_decide (kind r = KIND T) then
        if decide (vault_id r = v) then Some <$> decrypt_row s r
        else Err (Invalid (KIND T +:+ " belongs to another vault"))
      else Ok None
  | None => Ok None
  end.

Definition require_in {T} `{Payload T} (s : Store) (i v : uuid) : core (Entity T) :=
  o ← get_in (T := T) s i v; ok_or o (NotFound (KIND T)).

(** Entities of locked vaults are skipped, any other error is returned. *)
Fixpoint decrypt_rows {T} `{Payload T} (s : Store) (l : list EntityRow) : core (list (Entity T)) :=
  match l with
  | [] => Ok []
  | r :: l' =>
      match decrypt_row s r with
      | Ok e => cons e <$> decrypt_rows s l'
      | Err (VaultLocked _) => decrypt_rows s l'
      | Err e => Err e
      end
  end.
Definition list_of {T} `{Payload T} (s : Store) (v : option uuid) : core (list (Entity T)) :=
  decrypt_rows s (rows s (mkFilter v (Some (KIND T)) false)).

(** [delete]. *)
Definition remove (s : Store) (now : Z) (i : uuid) : core Store :=
  match row s i with
  | None => Ok s
  | Some r =>
      lv ← writable_vault s (vault_id r);
      if is_synced (lv_kind lv) && (0 <? version r)%Z then
        Ok (with_ents s (<[i := mkRow (id r) (kind r) (vault_id r) (version r) (seq r) true (key_version r) ""
                                  now true]>))
      else Ok (with_ents s (delete i))
  end.

(** [new_id] is the random uuid drawn; the JSON value is kept as its text.
    The copy is written before the old row is removed, and stays when the
    removal is refused. *)
Definition move_to_vault (s : Store) (now : Z) (nonce : bytes) (i new_id v : uuid) : Store * core uuid :=
  match
    r ← ok_or (row s i) (NotFound "entity");
    key ← vault_key s (vault_id r);
    json ← crypto (decrypt_str unseal b64_decode key (entity_aad (kind r) (uuid_text (id r))) (data r));
    put_json s now nonce v (kind r) new_id (Some json)
  with
  | Err e => (s, Err e)
  | Ok s => match remove s now i with Ok s => (s, Ok new_id) | Err e => (s, Err e) end
  end.

(** One row of [reencrypt_vault]; a row the old key does not open is left. *)
Definition reencrypt_row (s : Store) (old_key new_key nonce : bytes) (kv : Z) (r : EntityRow) : core (option EntityRow) :=
  let a := entity_aad (kind r) (uuid_text (id r)) in
  raw ← crypto (unb64 b64_decode (data r));
  match decrypt unseal old_key a raw with
  | Err _ => Ok None
  | Ok pt =>
      ct ← crypto (encrypt_b64 seal b64_encode new_key a nonce pt);
      Ok (Some (mkRow (id r) (kind r) (vault_id r) (version r) (seq r) (deleted r) kv ct (updated_at r) true))
  end.

(** The loop; [None] for the result when it stops with an error, the rows it
    had written staying written. *)
Fixpoint reencrypt_rows (s : Store) (old_key new_key : bytes) (kv : Z) (nonces : nat -> bytes) (done : nat)
    (l : list EntityRow) : Store * core nat :=
  match l with
  | [] => (s, Ok done)
  | r :: l' =>
      match reencrypt_row s old_key new_key (nonces done) kv r with
      | Err e => (s, Err e)
      | Ok None => reencrypt_rows s old_key new_key kv nonces done l'
      | Ok (Some r') => reencrypt_rows (with_ents s (<[id r := r']>)) old_key new_key kv nonces (S done) l'
      end
  end.

Definition reencrypt_vault (s : Store) (v : uuid) (old_key : bytes) (nonces : nat -> bytes) : Store * core nat :=
  match vault_key s v, vault s v with
  | Ok new_key, Ok lv =>
      reencrypt_rows s old_key new_key (lv_key_version lv) nonces 0
        (filter (fun r => key_version r <> lv_key_version lv) (rows s (mkFilter (Some v) None false)))
  | Err e, _ | _, Err e => (s, Err e)
  end.
End Payloads.

(** ** What a write leaves *)

(** Row keys are the ids. *)
Definition keyed (s : Store) : Prop := forall i r, ents s !! i = Some r -> id r = i.

Section Facts.
Context (seal unseal : bytes -> bytes -> bytes -> bytes -> option bytes).
Context (b64_encode : bytes -> string) (b64_decode : string -> option bytes).
Context (uuid_text : uuid -> string).

Lemma put_json_ok s now nonce v k i json s' :
  put_json seal b64_encode uuid_text s now nonce v k i json = Ok s' ->
  exists key lv pt ct, is_known_kind k = true /\ keys s !! v = Some key /\ vault s v = Ok lv /\ json = Some pt /\
    encrypt_str seal b64_encode key (entity_aad k (uuid_text i)) nonce pt = Ok ct /\
    (is_synced (lv_kind lv) = true -> lv_role lv <> Viewer) /\
    s' = with_ents s (<[i :=
      mkRow i k v (match ents s !! i with Some r => version r | None => 0 end)
        (match ents s !! i with Some r => seq r | None => 0 end) false (lv_key_version lv) ct now
        (is_synced (lv_kind lv))]>).
Proof.
  unfold put_json. destruct (is_known_kind k) eqn:Ek; cbn [negb]; [|done].
  intros ([ct kv] & He & H)%bind_ok. unfold encrypt_json in He.
  apply bind_ok in He as (key & Hkey%ok_or_ok & He). apply bind_ok in He as (lv & Hlv & He).
  apply bind_ok in He as (pt & Hpt%ok_or_ok & He). apply bind_ok in He as (ct' & Hct & [= -> <-]).
  unfold crypto in Hct. destruct (encrypt_str _ _ _ _ _ _) as [c|] eqn:Ec; [|done]. injection Hct as ->.
  apply bind_ok in H as (lv' & Hw & [= <-]). unfold writable_vault in Hw. rewrite Hlv in Hw. cbn in Hw.
  destruct (is_synced (lv_kind lv) && bool_decide (lv_role lv = Viewer)) eqn:Er; [done|]. injection Hw as <-.
  exists key, lv, pt, ct. split_and!; try done.
  - intros Hs Hv. rewrite Hs, bool_decide_eq_true_2 in Er by done. done.
  - by destruct (ents s !! i).
Qed.

(** The row written decrypts to its entity. *)
Lemma decrypt_written {T} `{Payload T} (laws : cipher_laws seal unseal b64_encode b64_decode)
    (json_roundtrip : forall x j, to_json x = Some j -> from_json j = Some x /\ valid_utf8 (as_bytes j) = true)
    s vkey nonce (d : T) pt (r : EntityRow) :
  length nonce = NONCE_LEN -> all_bytes nonce -> keys s !! vault_id r = Some vkey -> to_json d = Some pt ->
  encrypt_str seal b64_encode vkey (entity_aad (kind r) (uuid_text (id r))) nonce pt = Ok (data r) ->
  decrypt_row (T := T) unseal b64_decode uuid_text s r =
    Ok (mkEntityOf (id r) (vault_id r) (version r) (updated_at r) (dirty r) d).
Proof.
  intros Hn Hnb Hkey Hpt Hct. destruct (json_roundtrip d pt Hpt) as [Hj Hu]. unfold decrypt_row, vault_key.
  rewrite Hkey. cbn [ok_or]. pose proof (decrypt_str_encrypt_str _ _ _ _ laws vkey _ nonce pt _ Hn Hnb Hu Hct) as Hd.
  cbn [mbind result_bind]. rewrite Hd. cbn [crypto mbind result_bind]. rewrite Hj. done.
Qed.

(** What [put_with_id] stores, [get] returns: after a successful write the
    entity reads back with its payload, its server version unchanged (0 for a
    new one) and the dirty flag set exactly when its vault is synced; every
    other row, the vaults and the keys are untouched; and the vault was
    unlocked and, when synced, not view-only. *)
Theorem put_then_get {T} `{Payload T} s now nonce v i (d : T) s'
    (laws : cipher_laws seal unseal b64_encode b64_decode)
    (json_roundtrip : forall x j, to_json x = Some j -> from_json j = Some x /\ valid_utf8 (as_bytes j) = true) :
  length nonce = NONCE_LEN -> all_bytes nonce ->
  put_with_id seal b64_encode uuid_text s now nonce v i d = Ok s' ->
  exists lv, vault s v = Ok lv /\ is_Some (keys s !! v) /\ (is_synced (lv_kind lv) = true -> lv_role lv <> Viewer) /\
    get (T := T) unseal b64_decode uuid_text s' i =
      Ok (Some (mkEntityOf i v (match row s i with Some r => version r | None => 0 end) now
                  (is_synced (lv_kind lv)) d)) /\
    (forall j, j <> i -> row s' j = row s j) /\ vault_rows s' = vault_rows s /\ keys s' = keys s.
Proof.
  intros Hn Hnb (key & lv & pt & ct & _ & Hkey & Hlv & Hpt & Hct & Hrole & ->)%put_json_ok.
  exists lv. split; [done|]. split; [by eexists|]. split; [done|]. split; [|split; [|done]].
  - unfold get, row. cbn [ents with_ents]. rewrite lookup_insert_eq. cbn [deleted kind negb andb].
    rewrite bool_decide_eq_true_2 by done.
    by rewrite (decrypt_written laws json_roundtrip) with (pt := pt) (nonce := nonce) (vkey := key) (d := d).
  - intros j Hj. unfold row. cbn [ents with_ents]. by rewrite lookup_insert_ne.
Qed.
End Facts.

(** A tag's payload in a team vault. *)
Definition ex_vault (role : VaultRole) : VaultRow := mkVaultRow Team "Ops" (Some 1%N) role None 2 0 false 0 false.
Definition ex_store : Store := mkStore [] {[7%N := ex_vault Editor]} {[7%N := [1; 2; 3]]} ∅.

#[local] Instance ex_text : Payload {s : string | valid_utf8 (as_bytes s) = true} := {|
  KIND := "tag";
  to_json := fun s => Some (proj1_sig s);
  from_json := fun j =>
    match bool_dec (valid_utf8 (as_bytes j)) true with left E => Some (exist _ j E) | right _ => None end
|}.

Lemma ex_json (x : {s : string | valid_utf8 (as_bytes s) = true}) j : to_json x = Some j ->
  from_json j = Some x /\ valid_utf8 (as_bytes j) = true.
Proof.
  cbn. intros [= <-]. destruct x as [s E]; cbn. split; [|done].
  destruct (bool_dec _ _) as [E'|]; [|done]. do 2 f_equal. apply (proof_irrel E' E).
Qed.

Definition ex_value : {s : string | valid_utf8 (as_bytes s) = true} := exist _ "[1]" eq_refl.

Lemma put_then_get_witness : exists s',
  put_with_id toy_seal0 toy_b64 (fun _ => "id") ex_store 5 (replicate NONCE_LEN 9) 7 42 ex_value = Ok s' /\
  get (T := {s : string | valid_utf8 (as_bytes s) = true}) toy_unseal0 toy_unb64 (fun _ => "id") s' 42 =
    Ok (Some (mkEntityOf 42%N 7%N 0 5 true ex_value)).
Proof.
  eexists. split; [vm_compute; reflexivity|].
  destruct (put_then_get toy_seal0 toy_unseal0 toy_b64 toy_unb64 (fun _ => "id") ex_store 5 (replicate NONCE_LEN 9)
    7 42 ex_value _ toy_laws ex_json eq_refl ltac:(by repeat constructor) eq_refl)
    as (lv & Hv & _ & _ & Hg & _). vm_compute in Hv. injection Hv as <-. exact Hg.
Defined.
