(* ===== verification/Hosts.v ===== *)
(** * Hosts: what a connection uses

    Host resolution of [crates/termoso-core/src/store/entities.rs]
    ([resolve_group_ssh], [resolve_host_in], [merge_ssh]) on the payloads of
    [crates/termoso-proto/src/entities.rs] and the kinds of [model.rs]. What
    serde derives for a payload is the class [Serde]; the account's SSH ID
    handle is read from the metadata table, an argument here. *)
From S2P Require Import Prelude Envelope SyncTypes.
From S2P Require ClientStore.
Import ClientStore.

#[local] Open Scope string_scope.
#[local] Open Scope list_scope.

(** ** Payloads *)

Record Group := mkGroup {
  g_label : string; parent_id : option uuid; g_ssh_config_id : option uuid; g_telnet_config_id : option uuid;
  g_sort_order : Z; g_external_id : option string
}.

Record Host := mkHost {
  h_label : string; address : string; group_id : option uuid; h_ssh_config_id : option uuid;
  h_telnet_config_id : option uuid; webdav_config_id : option uuid; serial_config_id : option uuid;
  tag_ids : list uuid; notes : string; os_name : option string; icon : option string; ip_version : string;
  backspace : option string; cloud_instance_id : option string; cloud_instance_type : option string;
  startup_snippet_id : option uuid; h_sort_order : Z; h_external_id : option string; files_provider : bool
}.

Record SshConfig := mkSsh {
  port : option Z; identity_id : option uuid; host_chain_id : option uuid; proxy_id : option uuid;
  port_knocking_id : option uuid; charset : option string; color_scheme : option string; font_size : option Z;
  cursor_blink : option bool; agent_forwarding : bool; forward_x11 : bool; use_mosh : bool;
  mosh_server_command : option string; env_variables : list (string * string);
  keep_alive_interval : option Z; timeout : option Z; extra_options : list string
}.
Definition default_ssh : SshConfig :=
  mkSsh None None None None None None None None None false false false None [] None None [].

Record TelnetConfig := mkTelnet {
  t_port : option Z; t_identity_id : option uuid; t_charset : option string; t_color_scheme : option string
}.
Definition default_telnet : TelnetConfig := mkTelnet None None None None.

Record WebDavConfig := mkWebDav {
  url : string; w_port : option Z; w_path : string; http : bool; tls_server_name : option string;
  ca_certificate : option string; w_identity_id : option uuid; certificate_fingerprint : option string
}.

Record SerialConfig := mkSerial {
  s_path : string; baud_rate : Z; data_bits : Z; stop_bits : Z; parity : string; flow_control : string;
  s_charset : string
}.

Inductive SshIdKeyType : Type := Ed25519 | Ecdsa | Rsa | EcdsaSk | Ed25519Sk.
Record ClientCertificate := mkClientCert { cc_certificate : string; cc_private_key : string }.

Record Identity := mkIdentity {
  i_label : string; username : string; password : option string; ssh_key_id : option uuid;
  ssh_certificate_id : option uuid; is_visible : bool; i_ssh_id : bool; ssh_id_key_type : option SshIdKeyType;
  bearer_token : option string; client_certificate : option ClientCertificate; totp_secret : option string
}.

Record SshKey := mkKey {
  k_label : string; private_key : string; public_key : option string; passphrase : option string;
  key_type : string; fido2_credential_id : option string; k_ssh_id : bool
}.

Record SshCertificate := mkCertificate { c_label : string; certificate_text : string; c_ssh_key_id : option uuid }.

Record Proxy := mkProxy {
  p_kind : string; p_host : string; p_port : Z; p_identity_id : option uuid; p_username : option string;
  p_password : option string
}.

Record HostChain := mkChain { hc_label : string; host_ids : list uuid }.
Record Tag := mkTag { tag_label : string; color : option string }.
Record TagHost := mkTagHost { th_host_id : uuid; th_tag_id : uuid }.

(** [.map(|c| c.data)]. *)
Definition data_of {T} (o : option (Entity T)) : option T :=
  match o with Some e => Some (e_data e) | None => None end.

(** What serde derives. *)
Class Serde (T : Type) := { serialize : T -> option string; deserialize : string -> option T }.
Definition payload (T : Type) `{Serde T} (kind : string) : Payload T :=
  {| KIND := kind; to_json := serialize; from_json := deserialize |}.

Record ResolvedHost := mkResolved {
  host : Entity Host; ssh : SshConfig; identity : option (Entity Identity); key : option (Entity SshKey);
  certificate : option (Entity SshCertificate); ssh_id_handle : option string; proxy : option (Entity Proxy);
  chain : list (Entity Host); telnet : option TelnetConfig; serial : option SerialConfig;
  webdav : option WebDavConfig; webdav_identity : option (Entity Identity); group_path : list string;
  tags : list string
}.

(** ** Merging *)

(** [if from.f.is_some() { into.f = from.f.clone() }] *)
Definition over {A} (from into : option A) : option A := match from with Some _ => from | None => into end.
Definition over_list {A} (from into : list A) : list A := match from with [] => into | _ => from end.

(** [merge_ssh(into, from)]. *)
Definition merge_ssh (into from : SshConfig) : SshConfig :=
  mkSsh (over (port from) (port into)) (over (identity_id from) (identity_id into))
    (over (host_chain_id from) (host_chain_id into)) (over (proxy_id from) (proxy_id into))
    (over (port_knocking_id from) (port_knocking_id into)) (over (charset from) (charset into))
    (over (color_scheme from) (color_scheme into)) (over (font_size from) (font_size into))
    (over (cursor_blink from) (cursor_blink into)) (agent_forwarding from || agent_forwarding into)
    (forward_x11 from || forward_x11 into) (use_mosh from || use_mosh into)
    (over (mosh_server_command from) (mosh_server_command into))
    (over_list (env_variables from) (env_variables into))
    (over (keep_alive_interval from) (keep_alive_interval into)) (over (timeout from) (timeout into))
    (over_list (extra_options from) (extra_options into)).

Definition merge_telnet (into from : TelnetConfig) : TelnetConfig :=
  mkTelnet (over (t_port from) (t_port into)) (over (t_identity_id from) (t_identity_id into))
    (over (t_charset from) (t_charset into)) (over (t_color_scheme from) (t_color_scheme into)).

Definition str_le (a b : string) : Prop := String.leb a b = true.
#[export] Instance str_le_dec a b : Decision (str_le a b).
Proof. unfold str_le. apply _. Defined.

(** [Vec::dedup]. *)
Fixpoint dedup (l : list string) : list string :=
  match l with
  | [] => []
  | x :: l' =>
      match dedup l' with
      | [] => [x]
      | y :: _ as r => if decide (x = y) then r else x :: r
      end
  end.

(** ** Resolution *)

Section Resolve.
Context (unseal : bytes -> bytes -> bytes -> bytes -> option bytes).
Context (b64_decode : string -> option bytes) (uuid_text : uuid -> string).
Context `{Serde Group} `{Serde Host} `{Serde SshConfig} `{Serde TelnetConfig} `{Serde WebDavConfig}
  `{Serde SerialConfig} `{Serde Identity} `{Serde SshKey} `{Serde SshCertificate} `{Serde Proxy}
  `{Serde HostChain} `{Serde Tag} `{Serde TagHost}.

#[local] Instance Group_payload : Payload Group := payload Group "group".
#[local] Instance Host_payload : Payload Host := payload Host "host".
#[local] Instance SshConfig_payload : Payload SshConfig := payload SshConfig "ssh_config".
#[local] Instance TelnetConfig_payload : Payload TelnetConfig := payload TelnetConfig "telnet_config".
#[local] Instance WebDavConfig_payload : Payload WebDavConfig := payload WebDavConfig "webdav_config".
#[local] Instance SerialConfig_payload : Payload SerialConfig := payload SerialConfig "serial_config".
#[local] Instance Identity_payload : Payload Identity := payload Identity "identity".
#[local] Instance SshKey_payload : Payload SshKey := payload SshKey "ssh_key".
#[local] Instance SshCertificate_payload : Payload SshCertificate := payload SshCertificate "ssh_certificate".
#[local] Instance Proxy_payload : Payload Proxy := payload Proxy "proxy".
#[local] Instance HostChain_payload : Payload HostChain := payload HostChain "host_chain".
#[local] Instance Tag_payload : Payload Tag := payload Tag "tag".
#[local] Instance TagHost_payload : Payload TagHost := payload TagHost "tag_host".

Context (s : Store) (handle : core (option string)).

Definition get_in {T} `{Payload T} (i v : uuid) : core (option (Entity T)) :=
  ClientStore.get_in unseal b64_decode uuid_text s i v.
Definition list_in {T} `{Payload T} (v : uuid) : core (list (Entity T)) :=
  ClientStore.list_of unseal b64_decode uuid_text s (Some v).

(** [match id { Some(id) => self.get_in(id, vault)?, None => None }]. *)
Definition follow {T} `{Payload T} (i : option uuid) (v : uuid) : core (option (Entity T)) :=
  match i with Some i => get_in i v | None => Ok None end.

Definition find_id {T} (l : list (Entity T)) (i : uuid) : option (Entity T) :=
  snd <$> list_find (fun e => e_id e = i) l.

Definition MAX_HOPS : nat := 64.

(** The groups from [cursor] to the root, [MAX_HOPS] at most. *)
Fixpoint walk (fuel : nat) (groups : list (Entity Group)) (cursor : option uuid) : list (Entity Group) :=
  match fuel, cursor with
  | S fuel', Some gid =>
      match find_id groups gid with
      | Some g => g :: walk fuel' groups (parent_id (e_data g))
      | None => []
      end
  | _, _ => []
  end.

Fixpoint ssh_configs (v : uuid) (ids : list uuid) : core (list SshConfig) :=
  match ids with
  | [] => Ok []
  | i :: ids' =>
      c ← get_in (T := SshConfig) i v; cs ← ssh_configs v ids';
      Ok (match c with Some c => e_data c :: cs | None => cs end)
  end.
Fixpoint telnet_configs (v : uuid) (ids : list uuid) : core (list TelnetConfig) :=
  match ids with
  | [] => Ok []
  | i :: ids' =>
      c ← get_in (T := TelnetConfig) i v; cs ← telnet_configs v ids';
      Ok (match c with Some c => e_data c :: cs | None => cs end)
  end.

Definition resolve_group_ssh (gid : uuid) : core (SshConfig * list string) :=
  group ← ClientStore.require (T := Group) unseal b64_decode uuid_text s gid;
  groups ← list_in (T := Group) (e_vault group);
  let path := walk MAX_HOPS groups (Some gid) in
  let ids := omap (fun g => g_ssh_config_id (e_data g)) path in
  cs ← ssh_configs (e_vault group) (rev ids);
  Ok (fold_left merge_ssh cs default_ssh, rev (map (fun g => g_label (e_data g)) path)).

Definition require_host_in (i : uuid) (v : option uuid) : core (Entity Host) :=
  match v with
  | Some v => ClientStore.require_in (T := Host) unseal b64_decode uuid_text s i v
  | None => ClientStore.require (T := Host) unseal b64_decode uuid_text s i
  end.

(** Certificates live next to their key unless the identity names one. *)
Definition find_certificate (v : uuid) (identity : option (Entity Identity)) (k : option (Entity SshKey)) :
    core (option (Entity SshCertificate)) :=
  match identity ≫= (fun i => ssh_certificate_id (e_data i)) with
  | Some c => get_in c v
  | None =>
      match k with
      | Some k =>
          l ← list_in (T := SshCertificate) v;
          Ok (snd <$> list_find (fun c => c_ssh_key_id (e_data c) = Some (e_id k)) l)
      | None => Ok None
      end
  end.

Fixpoint jump_hosts (v host_id : uuid) (ids : list uuid) : core (list (Entity Host)) :=
  match ids with
  | [] => Ok []
  | i :: ids' =>
      if decide (i = host_id) then jump_hosts v host_id ids'
      else
        h ← get_in (T := Host) i v; hs ← jump_hosts v host_id ids';
        Ok (match h with Some h => h :: hs | None => hs end)
  end.

Definition host_tags (h : Entity Host) (host_id : uuid) (links : list (Entity TagHost)) (all : list (Entity Tag)) :
    list string :=
  let ids := tag_ids (e_data h) ++
    map (fun l => th_tag_id (e_data l)) (filter (fun l => th_host_id (e_data l) = host_id) links) in
  dedup (merge_sort str_le (map (fun t => tag_label (e_data t)) (omap (find_id all) ids))).

Definition resolve_telnet (v : uuid) (d : Host) (chain_telnet : list uuid) : core (option TelnetConfig) :=
  if bool_decide (is_Some (h_telnet_config_id d)) || negb (bool_decide (chain_telnet = [])) then
    ts ← telnet_configs v (rev chain_telnet ++ option_list (h_telnet_config_id d));
    Ok (Some (fold_left merge_telnet ts default_telnet))
  else Ok None.

Definition resolve_serial (v : uuid) (d : Host) : core (option SerialConfig) :=
  match serial_config_id d, h_ssh_config_id d with
  | Some c, None => c ← get_in (T := SerialConfig) c v; Ok (data_of c)
  | _, _ => Ok None
  end.

(** Telnet credentials stand in only on a host without an SSH config. *)
Definition identity_of (d : Host) (ssh : SshConfig) (telnet : option TelnetConfig) : option uuid :=
  over (identity_id ssh)
    (match h_ssh_config_id d with None => telnet ≫= t_identity_id | Some _ => None end).

Definition resolve_handle (identity : option (Entity Identity)) : core (option string) :=
  match identity with Some i => if i_ssh_id (e_data i) then handle else Ok None | None => Ok None end.

Definition resolve_chain (v host_id : uuid) (chain_id : option uuid) : core (list (Entity Host)) :=
  hc ← follow (T := HostChain) chain_id v;
  match hc with Some hc => jump_hosts v host_id (host_ids (e_data hc)) | None => Ok [] end.

Definition resolve_host_in (host_id : uuid) (expected : option uuid) : core ResolvedHost :=
  h ← require_host_in host_id expected;
  let v := e_vault h in
  let d := e_data h in
  groups ← list_in (T := Group) v;
  let path := walk MAX_HOPS groups (group_id d) in
  let chain_ssh := omap (fun g => g_ssh_config_id (e_data g)) path in
  let chain_telnet := omap (fun g => g_telnet_config_id (e_data g)) path in
  cs ← ssh_configs v (rev chain_ssh ++ option_list (h_ssh_config_id d));
  let ssh := fold_left merge_ssh cs default_ssh in
  telnet ← resolve_telnet v d chain_telnet;
  serial ← resolve_serial v d;
  w ← follow (T := WebDavConfig) (webdav_config_id d) v;
  let webdav := data_of w in
  webdav_identity ← follow (T := Identity) (webdav ≫= w_identity_id) v;
  identity ← follow (T := Identity) (identity_of d ssh telnet) v;
  k ← follow (T := SshKey) (identity ≫= (fun i => ssh_key_id (e_data i))) v;
  certificate ← find_certificate v identity k;
  ssh_id ← resolve_handle identity;
  proxy ← follow (T := Proxy) (proxy_id ssh) v;
  jumps ← resolve_chain v host_id (host_chain_id ssh);
  links ← list_in (T := TagHost) v;
  all ← list_in (T := Tag) v;
  Ok (mkResolved h ssh identity k certificate ssh_id proxy jumps telnet serial webdav webdav_identity
        (rev (map (fun g => g_label (e_data g)) path)) (host_tags h host_id links all)).

Definition resolve_host (host_id : uuid) : core ResolvedHost := resolve_host_in host_id None.
End Resolve.

(** [ResolvedHost::protocol], [::port] and [::username]. *)
Definition protocol (r : ResolvedHost) : string :=
  if bool_decide (is_Some (h_ssh_config_id (e_data (host r)))) then "ssh"
  else if bool_decide (is_Some (serial r)) then "serial"
  else if bool_decide (is_Some (telnet r)) then "telnet"
  else if bool_decide (is_Some (webdav r)) then "webdav"
  else "ssh".
Definition ssh_port (r : ResolvedHost) : Z := default 22 (port (ssh r)).
Definition login (r : ResolvedHost) : option string :=
  over (u ← (fun i => username (e_data i)) <$> identity r; if String.eqb u "" then None else Some u)
    (ssh_id_handle r).

(** ** Merged configurations *)

(** [c] is what the configs [cs], from the root to the host, amount to: the
    last one that sets an optional field or a list wins, a flag is on when any
    of them turns it on. *)
Definition last_set {A} (l : list (option A)) : option A := last (omap (fun x => x) l).
Definition last_list {A} (l : list (list A)) : list A := default [] (last (filter (fun x => x <> []) l)).

Record effective (cs : list SshConfig) (c : SshConfig) : Prop := {
  ef_port : port c = last_set (map port cs);
  ef_identity : identity_id c = last_set (map identity_id cs);
  ef_chain : host_chain_id c = last_set (map host_chain_id cs);
  ef_proxy : proxy_id c = last_set (map proxy_id cs);
  ef_knocking : port_knocking_id c = last_set (map port_knocking_id cs);
  ef_charset : charset c = last_set (map charset cs);
  ef_scheme : color_scheme c = last_set (map color_scheme cs);
  ef_font : font_size c = last_set (map font_size cs);
  ef_blink : cursor_blink c = last_set (map cursor_blink cs);
  ef_mosh_command : mosh_server_command c = last_set (map mosh_server_command cs);
  ef_keep_alive : keep_alive_interval c = last_set (map keep_alive_interval cs);
  ef_timeout : timeout c = last_set (map timeout cs);
  ef_agent : agent_forwarding c = existsb agent_forwarding cs;
  ef_x11 : forward_x11 c = existsb forward_x11 cs;
  ef_mosh : use_mosh c = existsb use_mosh cs;
  ef_env : env_variables c = last_list (map env_variables cs);
  ef_options : extra_options c = last_list (map extra_options cs)
}.

Lemma last_set_snoc {A} (l : list (option A)) x : last_set (l ++ [x]) = over x (last_set l).
Proof.
  unfold last_set. rewrite omap_app. destruct x as [a|]; cbn; [by rewrite last_snoc|by rewrite app_nil_r].
Qed.

Lemma last_list_snoc {A} (l : list (list A)) x : last_list (l ++ [x]) = over_list x (last_list l).
Proof.
  unfold last_list. rewrite filter_app, filter_cons, filter_nil. destruct x as [|a x]; cbn.
  - rewrite decide_False by (intros H; by apply H). by rewrite app_nil_r.
  - rewrite decide_True by done. by rewrite last_snoc.
Qed.

Lemma existsb_snoc {A} (f : A -> bool) l x : existsb f (l ++ [x]) = f x || existsb f l.
Proof. rewrite existsb_app. cbn. rewrite orb_false_r. apply orb_comm. Qed.

Lemma merge_effective cs : effective cs (fold_left merge_ssh cs default_ssh).
Proof.
  induction cs as [|x cs IH] using rev_ind; [by split|]. rewrite fold_left_app. cbn [fold_left].
  destruct IH. split; rewrite ?map_app; cbn [map];
    rewrite ?last_set_snoc, ?last_list_snoc, ?existsb_snoc; cbn; congruence.
Qed.

(** ** References stay in the vault *)

Section Facts.
Context (unseal : bytes -> bytes -> bytes -> bytes -> option bytes).
Context (b64_decode : string -> option bytes) (uuid_text : uuid -> string) (s : Store).

Lemma decrypt_row_vault {T} `{Payload T} r e : decrypt_row (T := T) unseal b64_decode uuid_text s r = Ok e ->
  e_vault e = vault_id r /\ e_id e = id r /\ is_Some (keys s !! vault_id r).
Proof.
  unfold decrypt_row, vault_key. destruct (keys s !! vault_id r) as [k|]; [|done]. cbn [ok_or].
  intros H1. apply bind_ok in H1 as (k' & _ & H1). apply bind_ok in H1 as (pt & _ & H1).
  apply bind_ok in H1 as (d & _ & [= <-]). split_and!; [done|done|eauto].
Qed.

(** What [get_in] answers, and that it refuses a live row of another vault. *)
Lemma get_in_vault {T} `{Payload T} i v o : get_in unseal b64_decode uuid_text s i v = Ok o ->
  (forall e : Entity T, o = Some e -> e_vault e = v) /\
  (forall r, row s i = Some r -> deleted r = false -> kind r = KIND T -> vault_id r = v).
Proof.
  unfold get_in, ClientStore.get_in. destruct (row s i) as [r|]; [|intros [= <-]; by split].
  destruct (negb (deleted r) && bool_decide (kind r = KIND T)) eqn:Ek.
  - destruct (decide (vault_id r = v)) as [<-|]; [|done].
    destruct (decrypt_row _ _ _ _ _) as [e|] eqn:Ed; cbn; [|done]. intros [= <-].
    apply decrypt_row_vault in Ed as (? & _). split; [by intros e' [= <-]|by intros r' [= <-]].
  - intros [= <-]. split; [done|]. intros r' [= <-] Hd Hk. rewrite Hd, Hk, bool_decide_eq_true_2 in Ek by done. done.
Qed.

Lemma follow_vault {T} `{Payload T} i v o : follow unseal b64_decode uuid_text s i v = Ok o ->
  (forall e : Entity T, o = Some e -> e_vault e = v) /\
  (forall j r, i = Some j -> row s j = Some r -> deleted r = false -> kind r = KIND T -> vault_id r = v).
Proof.
  destruct i as [i|]; cbn.
  - intros [He Hr]%get_in_vault. split; [done|]. by intros j r [= <-]; apply Hr.
  - intros [= <-]. by split.
Qed.

Lemma list_in_vault {T} `{Payload T} v l : list_in unseal b64_decode uuid_text s v = Ok l ->
  Forall (fun e : Entity T => e_vault e = v) l.
Proof.
  unfold list_in, list_of, rows. intros Hl.
  assert (Hrows : forall r, r ∈ merge_sort newer_first (filter (matches (mkFilter (Some v) (Some (KIND T)) false)) (all_rows s)) ->
    vault_id r = v).
  { intros r. rewrite merge_sort_Permutation, list_elem_of_filter. intros [[? _] _]. done. }
  revert l Hl Hrows. generalize (merge_sort newer_first (filter (matches (mkFilter (Some v) (Some (KIND T)) false)) (all_rows s))).
  intros rs. induction rs as [|r rs IH]; intros l; cbn; [intros [= <-] _; constructor|].
  intros Hl Hr. destruct (decrypt_row _ _ _ _ _) as [e|err] eqn:Ed.
  - destruct (decrypt_rows _ _ _ _ rs) as [l'|] eqn:El; cbn in Hl; [|done]. injection Hl as <-.
    constructor; [|apply IH; [done|intros; apply Hr; by right]].
    apply decrypt_row_vault in Ed as (-> & _). apply Hr. by left.
  - destruct err; try done. apply IH; [done|]. intros. apply Hr. by right.
Qed.
End Facts.

#[local] Existing Instances Group_payload Host_payload SshConfig_payload TelnetConfig_payload WebDavConfig_payload
  SerialConfig_payload Identity_payload SshKey_payload SshCertificate_payload Proxy_payload HostChain_payload
  Tag_payload TagHost_payload.

Section Properties.
Context (unseal : bytes -> bytes -> bytes -> bytes -> option bytes).
Context (b64_decode : string -> option bytes) (uuid_text : uuid -> string).
Context `{Serde Group} `{Serde Host} `{Serde SshConfig} `{Serde TelnetConfig} `{Serde WebDavConfig}
  `{Serde SerialConfig} `{Serde Identity} `{Serde SshKey} `{Serde SshCertificate} `{Serde Proxy}
  `{Serde HostChain} `{Serde Tag} `{Serde TagHost}.
Context (s : Store) (handle : core (option string)).

(** The parts of a successful resolution. *)
Record resolved (host_id : uuid) (expected : option uuid) (r : ResolvedHost) : Prop := {
  rs_host : require_host_in unseal b64_decode uuid_text s host_id expected = Ok (host r);
  rs_ssh : exists groups cs, list_in unseal b64_decode uuid_text s (e_vault (host r)) = Ok groups /\
    ssh_configs unseal b64_decode uuid_text s (e_vault (host r))
      (rev (omap (fun g => g_ssh_config_id (e_data g)) (walk MAX_HOPS groups (group_id (e_data (host r))))) ++
       option_list (h_ssh_config_id (e_data (host r)))) = Ok cs /\
    ssh r = fold_left merge_ssh cs default_ssh /\
    group_path r = rev (map (fun g => g_label (e_data g)) (walk MAX_HOPS groups (group_id (e_data (host r)))));
  rs_identity : follow unseal b64_decode uuid_text s (identity_of (e_data (host r)) (ssh r) (telnet r))
    (e_vault (host r)) = Ok (identity r);
  rs_webdav : exists i, follow unseal b64_decode uuid_text s i (e_vault (host r)) = Ok (webdav_identity r);
  rs_key : exists i, follow unseal b64_decode uuid_text s i (e_vault (host r)) = Ok (key r);
  rs_certificate : find_certificate unseal b64_decode uuid_text s (e_vault (host r)) (identity r) (key r) =
    Ok (certificate r);
  rs_proxy : follow unseal b64_decode uuid_text s (proxy_id (ssh r)) (e_vault (host r)) = Ok (proxy r);
  rs_chain : resolve_chain unseal b64_decode uuid_text s (e_vault (host r)) host_id (host_chain_id (ssh r)) =
    Ok (chain r)
}.

Lemma resolve_host_ok host_id expected r :
  resolve_host_in unseal b64_decode uuid_text s handle host_id expected = Ok r -> resolved host_id expected r.
Proof.
  unfold resolve_host_in. intros Hr.
  apply bind_ok in Hr as (h & Hh & Hr). apply bind_ok in Hr as (groups & Hg & Hr).
  apply bind_ok in Hr as (cs & Hcs & Hr). apply bind_ok in Hr as (tn & _ & Hr).
  apply bind_ok in Hr as (sr & _ & Hr). apply bind_ok in Hr as (w & _ & Hr).
  apply bind_ok in Hr as (wi & Hwi & Hr). apply bind_ok in Hr as (i & Hi & Hr).
  apply bind_ok in Hr as (k & Hk & Hr). apply bind_ok in Hr as (c & Hc & Hr).
  apply bind_ok in Hr as (sid & _ & Hr). apply bind_ok in Hr as (p & Hp & Hr).
  apply bind_ok in Hr as (ch & Hch & Hr). apply bind_ok in Hr as (links & _ & Hr).
  apply bind_ok in Hr as (all & _ & [= <-]). split; cbn; eauto 8.
Qed.

Lemma walk_length fuel groups cur : (length (walk fuel groups cur) <= fuel)%nat.
Proof.
  revert cur. induction fuel as [|fuel IH]; intros [g|]; cbn; try lia.
  destruct (find_id groups g) as [e|]; cbn; [|lia]. specialize (IH (parent_id (e_data e))). lia.
Qed.

Lemma find_certificate_vault v i k c : find_certificate unseal b64_decode uuid_text s v i k = Ok (Some c) ->
  e_vault c = v.
Proof.
  unfold find_certificate. destruct (i ≫= _) as [ci|].
  - intros [He _]%get_in_vault. by apply He.
  - destruct k as [k|]; [|done]. intros (l & Hl%list_in_vault & [= E])%bind_ok.
    destruct (list_find _ l) as [[n c']|] eqn:Ef; [|done]. cbn in E. injection E as ->.
    apply list_find_elem in Ef as [Hc _]. rewrite Forall_forall in Hl. by apply Hl.
Qed.

Lemma jump_hosts_vault v host_id ids hs : jump_hosts unseal b64_decode uuid_text s v host_id ids = Ok hs ->
  Forall (fun h => e_vault h = v) hs.
Proof.
  revert hs. induction ids as [|i ids IH]; intros hs; cbn; [intros [= <-]; constructor|].
  case_decide; [apply IH|]. intros (h & [He _]%get_in_vault & Hh)%bind_ok.
  apply bind_ok in Hh as (hs' & Hh & [= <-]). specialize (IH _ Hh).
  destruct h as [h|]; [|done]. constructor; [by apply He|done].
Qed.

Lemma resolve_chain_vault v host_id i hs : resolve_chain unseal b64_decode uuid_text s v host_id i = Ok hs ->
  Forall (fun h => e_vault h = v) hs.
Proof.
  unfold resolve_chain. intros (hc & _ & Hh)%bind_ok. destruct hc as [hc|]; [|injection Hh as <-; constructor].
  by eapply jump_hosts_vault.
Qed.

Lemma require_host_vault host_id v h : require_host_in unseal b64_decode uuid_text s host_id (Some v) = Ok h ->
  e_vault h = v.
Proof.
  cbn. unfold require_in. intros (o & [He _]%get_in_vault & Ho)%bind_ok.
  destruct o as [e|]; [|done]. injection Ho as <-. by apply He.
Qed.

(** C30: everything a connection to a host uses lives in the host's own vault.
    When resolution succeeds, the host is in the expected vault and its
    identity, key, certificate, proxy, WebDAV identity and jump hosts are in
    the vault of the host; the identity and the proxy the effective SSH config
    points at are rows of that vault whenever they are live, so a reference
    into another vault fails the resolution instead of being skipped. *)
Theorem resolve_host_stays_in_vault host_id expected r :
  resolve_host_in unseal b64_decode uuid_text s handle host_id expected = Ok r ->
  (forall v, expected = Some v -> e_vault (host r) = v) /\
  (forall e, identity r = Some e -> e_vault e = e_vault (host r)) /\
  (forall e, key r = Some e -> e_vault e = e_vault (host r)) /\
  (forall e, certificate r = Some e -> e_vault e = e_vault (host r)) /\
  (forall e, proxy r = Some e -> e_vault e = e_vault (host r)) /\
  (forall e, webdav_identity r = Some e -> e_vault e = e_vault (host r)) /\
  Forall (fun h => e_vault h = e_vault (host r)) (chain r) /\
  (forall i er, identity_of (e_data (host r)) (ssh r) (telnet r) = Some i -> row s i = Some er ->
     deleted er = false -> kind er = "identity" -> vault_id er = e_vault (host r)) /\
  (forall i er, proxy_id (ssh r) = Some i -> row s i = Some er ->
     deleted er = false -> kind er = "proxy" -> vault_id er = e_vault (host r)).
Proof.
  intros [Hh _ Hi (wi & Hw) (ki & Hk) Hc Hp Hch]%resolve_host_ok.
  apply follow_vault in Hi as [Hi Hi'], Hw as [Hw _], Hk as [Hk _], Hp as [Hp Hp'].
  split_and!; [|done|done| |done|done|by eapply resolve_chain_vault|done|done].
  - intros v ->. by apply require_host_vault in Hh.
  - intros e He. rewrite He in Hc. by apply find_certificate_vault in Hc.
Qed.

(** the SSH config of a resolved host is the effective one: the configs of
    its group chain from the root down and its own, the last that sets an
    optional field or a list winning, a flag on as soon as one turns it on; the
    port is the nearest one, 22 when none of them sets it; the group path names the groups the configs came from, root first, and is
    at most [MAX_HOPS] long even when the groups form a cycle. *)
Theorem resolved_ssh_is_nearest host_id expected r :
  resolve_host_in unseal b64_decode uuid_text s handle host_id expected = Ok r ->
  exists groups cs, list_in unseal b64_decode uuid_text s (e_vault (host r)) = Ok groups /\
    let up := walk MAX_HOPS groups (group_id (e_data (host r))) in
    ssh_configs unseal b64_decode uuid_text s (e_vault (host r))
      (rev (omap (fun g => g_ssh_config_id (e_data g)) up) ++ option_list (h_ssh_config_id (e_data (host r)))) =
      Ok cs /\
    effective cs (ssh r) /\
    ssh_port r = default 22 (last_set (map port cs)) /\
    group_path r = rev (map (fun g => g_label (e_data g)) up) /\
    (length (group_path r) <= MAX_HOPS)%nat.
Proof.
  intros [_ (groups & cs & Hg & Hcs & Hs & Hp) _ _ _ _ _ _]%resolve_host_ok.
  exists groups, cs. cbn zeta. rewrite Hs, Hp, length_rev, length_map.
  split_and!; [done|done|apply merge_effective| |done|apply walk_length].
  unfold ssh_port. by rewrite Hs, (ef_port _ _ (merge_effective cs)).
Qed.
End Properties.

(** ** A host in a group that is its own parent *)

Module Sample.
(** Payloads of one text each. *)
Definition text_of {T} (name : string) (x : T) : Serde T :=
  {| serialize := fun _ => Some name; deserialize := fun j => if String.eqb j name then Some x else None |}.
Definition no_serde {T} : Serde T := {| serialize := fun _ => None; deserialize := fun _ => None |}.

Definition ex_group : Group := mkGroup "prod" (Some 20%N) (Some 11%N) None 0 None.
Definition ex_host : Host :=
  mkHost "web" "10.0.0.1" (Some 20%N) (Some 12%N) None None None [] "" None None "auto" None None None None 0 None false.
Definition group_ssh : SshConfig :=
  mkSsh (Some 2222) None None None None None None None None false true false None [("A", "1")] None None [].
Definition host_ssh : SshConfig :=
  mkSsh None (Some 13%N) None None None None None None None false false false None [] (Some 30) None [].
Definition ex_identity : Identity :=
  mkIdentity "ops" "root" None None None true false None None None None.

#[export] Instance group_serde : Serde Group := text_of "g" ex_group.
#[export] Instance host_serde : Serde Host := text_of "h" ex_host.
#[export] Instance ssh_serde : Serde SshConfig :=
  {| serialize := fun c => Some (if forward_x11 c then "G" else "H");
     deserialize := fun j =>
       if String.eqb j "G" then Some group_ssh else if String.eqb j "H" then Some host_ssh else None |}.
#[export] Instance identity_serde : Serde Identity := text_of "i" ex_identity.
#[export] Instance telnet_serde : Serde TelnetConfig := no_serde.
#[export] Instance webdav_serde : Serde WebDavConfig := no_serde.
#[export] Instance serial_serde : Serde SerialConfig := no_serde.
#[export] Instance key_serde : Serde SshKey := no_serde.
#[export] Instance certificate_serde : Serde SshCertificate := no_serde.
#[export] Instance proxy_serde : Serde Proxy := no_serde.
#[export] Instance chain_serde : Serde HostChain := no_serde.
#[export] Instance tag_serde : Serde Tag := no_serde.
#[export] Instance tag_host_serde : Serde TagHost := no_serde.

Definition ex_put {T} `{Payload T} (i : uuid) (d : T) (s : Store) : core Store :=
  put_with_id toy_seal0 toy_b64 (fun _ => "id") s 5 (replicate NONCE_LEN 9) 7 i d.
Definition ex_rows : core Store :=
  s ← ex_put 20%N ex_group ex_store; s ← ex_put 10%N ex_host s; s ← ex_put 11%N group_ssh s;
  s ← ex_put 12%N host_ssh s; ex_put 13%N ex_identity s.
Definition ex_hosts : Store := match ex_rows with Ok s => s | Err _ => ex_store end.
Definition ex_resolve : core ResolvedHost :=
  resolve_host_in toy_unseal0 toy_unb64 (fun _ => "id") ex_hosts (Ok None) 10%N (Some 7%N).
End Sample.
Import Sample.

Lemma resolve_host_stays_in_vault_witness : exists r e, ex_resolve = Ok r /\ identity r = Some e /\
  username (e_data e) = "root" /\ e_vault e = e_vault (host r).
Proof.
  destruct ex_resolve as [r|] eqn:E; [|by vm_compute in E].
  pose proof (resolve_host_stays_in_vault toy_unseal0 toy_unb64 (fun _ => "id") ex_hosts (Ok None) 10%N (Some 7%N)
    r E) as (_ & Hi & _).
  vm_compute in E. injection E as <-. do 2 eexists. split_and!; [done|done|done|]. by apply Hi.
Defined.

Lemma resolved_ssh_is_nearest_witness : exists r, ex_resolve = Ok r /\
  port (ssh r) = Some 2222 /\ identity_id (ssh r) = Some 13%N /\ forward_x11 (ssh r) = true /\
  length (group_path r) = MAX_HOPS /\ (length (group_path r) <= MAX_HOPS)%nat.
Proof.
  destruct ex_resolve as [r|] eqn:E; [|by vm_compute in E].
  pose proof (resolved_ssh_is_nearest toy_unseal0 toy_unb64 (fun _ => "id") ex_hosts (Ok None) 10%N (Some 7%N)
    r E) as (_ & _ & _ & _ & _ & _ & _ & Hl).
  vm_compute in E. injection E as <-. eexists. split_and!; [done|done|done|done|done|exact Hl].
Defined.
