(* ===== verification/ClientSync.v ===== *)
(** * The sync engine of a device

    [crates/termoso-core/src/sync.rs], entities: push of the dirty rows in
    batches, conflict resolution, pull by cursor, the credentials kept off the
    server. The server is an interface ([Remote]): a call takes the requests to
    an answer, and may find the device's store changed when it returns, since
    the user keeps editing while the engine waits. [SyncServer] implements it.
    The mutex serialises passes, so one pass is a function of the state. *)
From S2P Require Import Prelude Envelope SyncTypes.
From S2P Require VaultAccess ClientStore SyncServer.
Import ClientStore.

#[local] Open Scope string_scope.
#[local] Open Scope list_scope.

Definition STALE_KEY_VERSION : string := "stale_key_version".
Definition NOT_FOUND : string := "not_found".

Inductive ConflictPolicy : Type := NewestWins | LocalWins | ServerWins.

Record SyncOptions := mkOptions { conflict : ConflictPolicy; batch : nat; sync_credentials : bool }.

(** [SyncEngine::new]. *)
Definition new_options (o : SyncOptions) : SyncOptions :=
  mkOptions (conflict o) (Nat.max 1 (Nat.min (batch o) MAX_BATCH)) (sync_credentials o).

Record SyncReport := mkReport { pushed : nat; pulled : nat; conflicts : nat; errors : list (uuid * string) }.
Definition default_report : SyncReport := mkReport 0 0 0 [].

(** What the engine calls. *)
Class Remote (R : Type) := {
  sync_push : PushRequest -> R -> Store -> R * Store * core (list PushResult);
  sync_pull : PullRequest -> R -> Store -> R * Store * core PullResponse;
  refresh_vaults : R -> Store -> R * Store * core unit
}.

(** ** Computations of the engine *)

Section Monad.
Context {R : Type}.

Record St := mkSt { remote : R; store : Store; report : SyncReport }.

(** A computation of the engine: the state it leaves, and [?]'s early error. *)
Definition M (A : Type) : Type := St -> St * core A.
#[export] Instance M_ret : MRet M := fun _ a st => (st, Ok a).
#[export] Instance M_bind : MBind M := fun _ _ k m st =>
  match m st with (st, Ok a) => k a st | (st, Err e) => (st, Err e) end.

Definition throw {A} (e : CoreError) : M A := fun st => (st, Err e).
Definition with_store (f : Store -> Store) : M unit :=
  fun st => (mkSt (remote st) (f (store st)) (report st), Ok tt).
Definition try_store (f : Store -> core Store) : M unit :=
  fun st => match f (store st) with
            | Ok s => (mkSt (remote st) s (report st), Ok tt)
            | Err e => (st, Err e)
            end.
Definition with_report (f : SyncReport -> SyncReport) : M unit :=
  fun st => (mkSt (remote st) (store st) (f (report st)), Ok tt).
Definition call {A} (f : R -> Store -> R * Store * core A) : M A :=
  fun st => let '(r, s, a) := f (remote st) (store st) in (mkSt r s (report st), a).
Definition try_read {A} (f : Store -> core A) : M A := fun st => (st, f (store st)).
Definition reads {A} (f : Store -> A) : M A := fun st => (st, Ok (f (store st))).

(** A [for] loop with the variables it assigns. *)
Fixpoint for_each {X A} (f : A -> X -> M A) (a : A) (l : list X) : M A :=
  match l with
  | [] => mret a
  | x :: l' => a ← f a x; for_each f a l'
  end.

End Monad.
Arguments St : clear implicits.
Arguments M : clear implicits.

Section Engine.
Context {R : Type} `{Remote R} (opts : SyncOptions).

(** ** Rules *)

Definition local_credentials_vault (s : Store) : option uuid :=
  if sync_credentials opts then None else lv_id <$> personal_vault s.

Definition keeps_local (local_vault : option uuid) (r : EntityRow) : bool :=
  bool_decide (local_vault = Some (vault_id r)) && negb (deleted r) && is_credential_kind (kind r).

Definition keep_local (l : EntityRow) (e : SyncEntity) : bool :=
  match conflict opts with
  | LocalWins => true
  | ServerWins => false
  | NewestWins => (SyncTypes.updated_at e <? updated_at l)%Z
  end.

Definition resolve_conflict (l : EntityRow) (e : SyncEntity) : M R bool :=
  if keep_local l e then
    _ ← with_store (fun s => rebase_local s (id l) (SyncTypes.version e) (SyncTypes.seq e)); mret true
  else
    _ ← try_store (fun s => apply_remote s e); mret false.

(** ** Push *)

(** The request of a chunk, and the rows it forgets before the call. *)
Definition chunk_request (chunk : list EntityRow) : PushRequest :=
  mkPush (map to_change (filter (fun r => deleted r = false) chunk))
         (map to_delete (filter (fun r => deleted r = true /\ (0 < version r)%Z) chunk)).
Definition forget_unseen (chunk : list EntityRow) (s : Store) : Store :=
  fold_left (fun s r => if deleted r && negb (0 <? version r)%Z then mark_pushed s (id r) 0 0 else s) chunk s.

Definition by_id (chunk : list EntityRow) : gmap uuid EntityRow :=
  list_to_map (rev (map (fun r => (id r, r)) chunk)).

Definition handle_result (rows : gmap uuid EntityRow) (flags : bool * bool) (res : PushResult) : M R (bool * bool) :=
  let '(retry, stale_key) := flags in
  match res with
  | PushOk i version seq =>
      _ ← with_store (fun s => mark_pushed s i version seq);
      _ ← with_report (fun r => mkReport (S (pushed r)) (pulled r) (conflicts r) (errors r));
      mret flags
  | PushConflict i server =>
      _ ← with_report (fun r => mkReport (pushed r) (pulled r) (S (conflicts r)) (errors r));
      match rows !! i with
      | None => mret flags
      | Some l => again ← resolve_conflict l server; mret (retry || again, stale_key)
      end
  | PushError i code =>
      if decide (code = NOT_FOUND) then
        match rows !! i with
        | Some r =>
            if deleted r then _ ← with_store (fun s => mark_pushed s i 0 0); mret flags
            else _ ← with_store (fun s => rebase_local s i 0 0); mret (true, stale_key)
        | None => mret flags
        end
      else
        _ ← with_report (fun r => mkReport (pushed r) (pulled r) (conflicts r) (errors r ++ [(i, code)]));
        mret (retry, stale_key || bool_decide (code = STALE_KEY_VERSION))
  end.

Definition push_chunk (flags : bool * bool) (chunk : list EntityRow) : M R (bool * bool) :=
  let req := chunk_request chunk in
  _ ← with_store (forget_unseen chunk);
  if bool_decide (changes req = []) && bool_decide (deletes req = []) then mret flags
  else
    results ← call (sync_push req);
    for_each (handle_result (by_id chunk)) flags results.

Definition rows_to_push (s : Store) (v : uuid) : list EntityRow :=
  filter (fun r => keeps_local (local_credentials_vault s) r = false) (dirty_rows s v).

Definition push_entities_into (v : uuid) : M R bool :=
  rows ← reads (fun s => rows_to_push s v);
  '(retry, stale_key) ← for_each push_chunk (false, false) (chunks (batch opts) rows);
  _ ← (if (stale_key : bool) then call refresh_vaults else mret tt);
  mret retry.

(** Conflicts won locally are pushed again, three times at most. *)
Fixpoint push_rounds (n : nat) (v : uuid) : M R unit :=
  match n with
  | O => mret tt
  | S n' => again ← push_entities_into v; if (again : bool) then push_rounds n' v else mret tt
  end.
Definition sync_vault_into (v : uuid) : M R unit := push_rounds 3 v.

(** ** Pull *)

Definition apply_pulled (e : SyncEntity) : M R bool :=
  l ← reads (fun s => row s (SyncTypes.id e));
  match l with
  | None =>
      if SyncTypes.deleted e then mret false else _ ← try_store (fun s => apply_remote s e); mret true
  | Some l =>
      if negb (dirty l) then
        if (SyncTypes.version e <=? version l)%Z && negb (SyncTypes.deleted e) then mret false
        else _ ← try_store (fun s => apply_remote s e); mret true
      else if (SyncTypes.version e <=? version l)%Z then mret false
      else again ← resolve_conflict l e; mret (negb again)
  end.

(** The vaults that changed, for the events. *)
Definition pull_one (local_vault : option uuid) (touched : list uuid) (e : SyncEntity) : M R (list uuid) :=
  if bool_decide (local_vault = Some (SyncTypes.vault_id e)) && is_credential_kind (SyncTypes.kind e) then mret touched
  else
    changed ← apply_pulled e;
    if (changed : bool) then
      _ ← with_report (fun r => mkReport (pushed r) (S (pulled r)) (conflicts r) (errors r));
      mret (if decide (SyncTypes.vault_id e ∈ touched) then touched else touched ++ [SyncTypes.vault_id e])
    else mret touched.

Definition move_cursor (cursors : gmap uuid Z) (c : uuid * Z) : M R (gmap uuid Z) :=
  match cursors !! fst c with
  | Some l =>
      if (l <? snd c)%Z then
        _ ← with_store (fun s => set_vault_cursor s (fst c) (snd c)); mret (<[fst c := snd c]> cursors)
      else mret cursors
  | None => mret cursors
  end.

(** The loop until the server has nothing more; [None] is out of fuel. *)
Fixpoint pull_loop (fuel : nat) (local_vault : option uuid) (cs : gmap uuid Z) (touched : list uuid) :
    M R (option (list uuid)) :=
  match fuel with
  | O => mret None
  | S fuel' =>
      resp ← call (sync_pull (mkPull cs (Some (Z.of_nat (batch opts)))));
      touched ← for_each (pull_one local_vault) touched (entities resp);
      cs ← for_each move_cursor cs (map_to_list (new_cursors resp));
      if has_more resp then pull_loop fuel' local_vault cs touched else mret (Some touched)
  end.

Fixpoint start_cursors (s : Store) (l : list uuid) : core (gmap uuid Z) :=
  match l with
  | [] => Ok ∅
  | v :: l' => lv ← vault s v; cs ← start_cursors s l'; Ok (<[v := cursor lv]> cs)
  end.

Definition pull_entities_into (fuel : nat) (vaults : list uuid) : M R (option (list uuid)) :=
  match vaults with
  | [] => mret (Some [])
  | _ =>
      cs ← try_read (fun s => start_cursors s vaults);
      local_vault ← reads local_credentials_vault;
      pull_loop fuel local_vault cs []
  end.

Definition sync_vault (fuel : nat) (v : uuid) : M R (option (list uuid)) :=
  _ ← sync_vault_into v; pull_entities_into fuel [v].

(** The passes of [sync_all] over the vaults. *)
Definition synced_vault_ids (s : Store) : list uuid :=
  map lv_id (filter (fun v => is_synced (lv_kind v) && unlocked v = true) (vaults s)).
Definition sync_entities (fuel : nat) : M R (option (list uuid)) :=
  ids ← reads synced_vault_ids;
  _ ← for_each (fun _ v => sync_vault_into v) tt ids;
  pull_entities_into fuel ids.

Definition resync_credentials (fuel : nat) : M R (option (list uuid)) :=
  pv ← reads personal_vault;
  match pv with
  | Some v =>
      if unlocked v then _ ← with_store (fun s => set_vault_cursor s (lv_id v) 0); sync_vault fuel (lv_id v)
      else mret (Some [])
  | None => mret (Some [])
  end.

(** ** Taking the credentials off the server *)

Definition purge_result (acc : list EntityRow * nat) (res : PushResult) : M R (list EntityRow * nat) :=
  let '(retry, purged) := acc in
  match res with
  | PushOk i version seq => _ ← with_store (fun s => rebase_local s i version seq); mret (retry, S purged)
  | PushConflict i server =>
      _ ← with_store (fun s => rebase_local s i (SyncTypes.version server) (SyncTypes.seq server));
      r ← reads (fun s => row s i);
      mret (match r with Some r => retry ++ [r] | None => retry end, purged)
  | PushError i code =>
      if decide (code = NOT_FOUND) then _ ← with_store (fun s => rebase_local s i 0 0); mret acc
      else throw (Invalid ("purge: " +:+ code))
  end.

Definition purge_chunk (acc : list EntityRow * nat) (chunk : list EntityRow) : M R (list EntityRow * nat) :=
  results ← call (sync_push (mkPush [] (map to_delete chunk)));
  for_each purge_result acc results.

Fixpoint purge_rounds (n : nat) (pending : list EntityRow) (purged : nat) : M R (list EntityRow * nat) :=
  match n, pending with
  | S n', _ :: _ =>
      '(retry, purged) ← for_each purge_chunk ([], purged) (chunks (batch opts) pending);
      purge_rounds n' retry purged
  | _, _ => mret (pending, purged)
  end.

Definition purge_credentials : M R nat :=
  pv ← reads personal_vault;
  match pv with
  | Some v =>
      if unlocked v then
        pending ← reads (fun s => filter (fun r => is_credential_kind (kind r) = true /\ (0 < version r)%Z)
                                     (rows s (mkFilter (Some (lv_id v)) None false)));
        '(remaining, purged) ← purge_rounds 3 pending 0;
        if bool_decide (remaining = []) then mret purged
        else throw (Invalid "credentials kept changing on the server while purging")
      else mret 0%nat
  | None => mret 0%nat
  end.
End Engine.

(** ** Running to a result

    [runs m st Q]: from [st], [m] returns a value, and [Q] holds of it and of
    the state it leaves. *)
Section Runs.
Context {R : Type}.

Definition runs {A} (m : M R A) (st : St R) (Q : A -> St R -> Prop) : Prop :=
  exists a st', m st = (st', Ok a) /\ Q a st'.

Lemma runs_ret {A} (a : A) st (Q : A -> St R -> Prop) : Q a st -> runs (mret a) st Q.
Proof. intros HQ. by exists a, st. Qed.

Lemma runs_bind {A B} (m : M R A) (k : A -> M R B) st Q :
  runs m st (fun a st => runs (k a) st Q) -> runs (m ≫= k) st Q.
Proof.
  intros (a & st' & Hm & b & st2 & Hk & HQ). exists b, st2. split; [|done].
  unfold mbind, M_bind. by rewrite Hm.
Qed.

Lemma runs_mono {A} (m : M R A) st (Q Q' : A -> St R -> Prop) :
  runs m st Q -> (forall a st, Q a st -> Q' a st) -> runs m st Q'.
Proof. intros (a & st' & Hm & HQ) HQ'. exists a, st'. auto. Qed.

Lemma runs_with_store (f : Store -> Store) st (Q : unit -> St R -> Prop) :
  Q tt (mkSt (remote st) (f (store st)) (report st)) -> runs (with_store f) st Q.
Proof. intros HQ. by eexists _, _. Qed.

Lemma runs_try_store (f : Store -> core Store) s' st (Q : unit -> St R -> Prop) :
  f (store st) = Ok s' -> Q tt (mkSt (remote st) s' (report st)) -> runs (try_store f) st Q.
Proof. intros Hf HQ. eexists _, _. unfold try_store. rewrite Hf. by split. Qed.

Lemma runs_with_report f st (Q : unit -> St R -> Prop) :
  Q tt (mkSt (remote st) (store st) (f (report st))) -> runs (with_report f) st Q.
Proof. intros HQ. by eexists _, _. Qed.

Lemma runs_reads {A} (f : Store -> A) st (Q : A -> St R -> Prop) : Q (f (store st)) st -> runs (reads f) st Q.
Proof. intros HQ. by eexists _, _. Qed.

Lemma runs_try_read {A} (f : Store -> core A) a st (Q : A -> St R -> Prop) :
  f (store st) = Ok a -> Q a st -> runs (try_read f) st Q.
Proof. intros Hf HQ. eexists _, _. unfold try_read. rewrite Hf. by split. Qed.

(** A loop: the invariant is indexed by what was processed. *)
Lemma runs_for_each {X A} (f : A -> X -> M R A) (I : list X -> A -> St R -> Prop) l :
  (forall done x a st, x ∈ l -> I done a st -> runs (f a x) st (I (done ++ [x]))) ->
  forall done a st, I done a st -> runs (for_each f a l) st (I (done ++ l)).
Proof.
  induction l as [|x l IH]; intros Hf done a st Ha; cbn [for_each].
  - apply runs_ret. by rewrite app_nil_r.
  - apply runs_bind. eapply runs_mono; [apply (Hf done x); [by left|done]|].
    intros a' st' Ha'. cbn beta. rewrite (cons_middle x), app_assoc. apply IH; [|done].
    intros d y b s Hy. apply Hf. by right.
Qed.
End Runs.

(** ** Edits made while the engine works *)

(** Run the computations of the engine by their definitions. *)
Ltac run_m :=
  cbv beta iota zeta delta [mbind M_bind mret M_ret try_store with_store with_report reads call fst snd].

Lemma dirty_rows_elem s v r : r ∈ dirty_rows s v <->
  exists i, ents s !! i = Some r /\ vault_id r = v /\ dirty r = true.
Proof.
  unfold dirty_rows, all_rows. rewrite merge_sort_Permutation, list_elem_of_filter, list_elem_of_fmap. split.
  - intros [[? ?] ([i r'] & -> & Hi%elem_of_map_to_list)]. by exists i.
  - intros (i & Hi & ? & ?). split; [done|]. exists (i, r). split; [done|]. by apply elem_of_map_to_list.
Qed.

(** The local content of a row; the server's version may be rebased. *)
Definition kept (r r' : EntityRow) : Prop :=
  id r' = id r /\ kind r' = kind r /\ vault_id r' = vault_id r /\ deleted r' = deleted r /\
  key_version r' = key_version r /\ data r' = data r /\ updated_at r' = updated_at r /\ dirty r' = true.

Section Edits.
Context {R : Type} (opts : SyncOptions).

Lemma for_each_stays {X A} (f : A -> X -> M R A) (P : St R -> Prop) l a st :
  (forall a x st, x ∈ l -> P st -> P (fst (f a x st))) -> P st -> P (fst (for_each f a l st)).
Proof.
  revert a st. induction l as [|x l IH]; intros a st Hf HP; [done|]. cbn [for_each]. unfold mbind, M_bind.
  pose proof (Hf a x st ltac:(by left) HP) as H1. destruct (f a x st) as [st1 [a1|]]; [|done].
  apply IH; [|done]. intros a2 y st2 Hy. apply Hf. by right.
Qed.

(** What pulling [e] may do to the store. *)
Inductive pulled_step (e : SyncEntity) (s : Store) : Store -> Prop :=
| ps_same : pulled_step e s s
| ps_rebase l : row s (SyncTypes.id e) = Some l -> dirty l = true -> keep_local opts l e = true ->
    pulled_step e s (rebase_local s (id l) (SyncTypes.version e) (SyncTypes.seq e))
| ps_remote s' : apply_remote s e = Ok s' ->
    (forall l, row s (SyncTypes.id e) = Some l -> dirty l = true -> keep_local opts l e = false) ->
    pulled_step e s s'.

Lemma pull_one_step lv touched e (st : St R) :
  pulled_step e (store st) (store (fst (pull_one opts lv touched e st))).
Proof.
  unfold pull_one. destruct (_ && _); [apply ps_same|]. unfold apply_pulled, resolve_conflict. run_m.
  destruct (row (store st) (SyncTypes.id e)) as [l|] eqn:El.
  - destruct (dirty l) eqn:Ed; cbn [negb]; (destruct (_ <=? _)%Z; cbn [andb]; [try apply ps_same|]).
    + destruct (keep_local opts l e) eqn:Ek; [by eapply ps_rebase|].
      destruct (apply_remote (store st) e) as [s'|] eqn:E; [|constructor]. apply (ps_remote _ _ s' E). congruence.
    + destruct (negb (SyncTypes.deleted e)); [apply ps_same|].
      destruct (apply_remote (store st) e) as [s'|] eqn:E; [|constructor]. apply (ps_remote _ _ s' E). congruence.
    + destruct (apply_remote (store st) e) as [s'|] eqn:E; [|constructor]. apply (ps_remote _ _ s' E). congruence.
  - destruct (SyncTypes.deleted e); [apply ps_same|].
    destruct (apply_remote (store st) e) as [s'|] eqn:E; [|constructor]. apply (ps_remote _ _ s' E). congruence.
Qed.

Lemma apply_remote_other s e s' : apply_remote s e = Ok s' ->
  (keyed s -> keyed s') /\ forall i, i <> SyncTypes.id e -> ents s' !! i = ents s !! i.
Proof.
  unfold apply_remote. destruct (SyncTypes.deleted e).
  - intros [= <-]. cbn. split; [|intros i ?; by rewrite lookup_delete_ne].
    intros Hk i r. cbn. intros [_ Hi]%lookup_delete_Some. by apply Hk.
  - destruct (vault_rows s !! SyncTypes.vault_id e); [|done]. intros [= <-]. cbn.
    split; [|intros i ?; by rewrite lookup_insert_ne].
    intros Hk i r. cbn. intros [[<- <-]|[_ Hi]]%lookup_insert_Some; [done|by apply Hk].
Qed.

Lemma rebase_keyed s i v q : keyed s -> keyed (rebase_local s i v q).
Proof.
  intros Hk j r. unfold rebase_local. cbn. destruct (decide (j = i)) as [->|?].
  - rewrite lookup_alter_eq. destruct (ents s !! i) as [r0|] eqn:E; [|done]. cbn. intros [= <-]. exact (Hk i r0 E).
  - rewrite lookup_alter_ne by done. apply Hk.
Qed.

(** A pending edit, after one pulled entity. *)
Lemma pulled_step_kept e s s' i r l : pulled_step e s s' -> keyed s -> ents s !! i = Some l -> kept r l ->
  keyed s' /\ ((exists l', ents s' !! i = Some l' /\ kept r l') \/ (SyncTypes.id e = i /\ keep_local opts r e = false)).
Proof.
  intros Hstep Hk Hl Hr.
  assert (Hcmp : keep_local opts l e = keep_local opts r e).
  { unfold keep_local. destruct Hr as (_ & _ & _ & _ & _ & _ & -> & _). done. }
  destruct Hstep as [|l0 H0 Hd Hkeep|s' Hs' Hlose].
  - split; [done|]. left. eauto.
  - split; [by apply rebase_keyed|]. left. unfold row in H0. rewrite (Hk _ _ H0). unfold rebase_local. cbn.
    destruct (decide (i = SyncTypes.id e)) as [->|?]; [|rewrite lookup_alter_ne by done; eauto].
    rewrite lookup_alter_eq, Hl. cbn. eexists. split; [done|]. unfold kept in *. cbn. tauto.
  - apply apply_remote_other in Hs' as [Hk' Hne]. split; [auto|].
    destruct (decide (i = SyncTypes.id e)) as [->|?]; [|left; rewrite Hne by done; eauto].
    right. split; [done|]. rewrite <- Hcmp. apply Hlose; [done|]. by apply Hr.
Qed.

(** C17: Pulling never drops a pending edit the conflict policy keeps: after a
    page of pulled entities, whether or not it was applied to the end, a row
    that was dirty still has its content and is still dirty, unless the page
    holds the same entity and the policy gives it the win (never under
    [LocalWins]; under [NewestWins] only when it is at least as new). *)
Theorem pull_keeps_pending_edits lv touched page (st : St R) i r :
  keyed (store st) -> row (store st) i = Some r -> dirty r = true ->
  (exists r', row (store (fst (for_each (pull_one opts lv) touched page st))) i = Some r' /\ kept r r') \/
  (exists e, e ∈ page /\ SyncTypes.id e = i /\
     match conflict opts with
     | LocalWins => False
     | NewestWins => (updated_at r <= SyncTypes.updated_at e)%Z
     | ServerWins => True
     end).
Proof.
  intros Hk Hr Hd.
  assert (keyed (store (fst (for_each (pull_one opts lv) touched page st))) /\
    ((exists r', row (store (fst (for_each (pull_one opts lv) touched page st))) i = Some r' /\ kept r r') \/
     exists e, e ∈ page /\ SyncTypes.id e = i /\ keep_local opts r e = false)) as [_ [?|(e & He & Hi & Hkl)]].
  - apply (for_each_stays _ (fun st => keyed (store st) /\ ((exists r', row (store st) i = Some r' /\ kept r r') \/
      exists e, e ∈ page /\ SyncTypes.id e = i /\ keep_local opts r e = false))).
    + intros a e st1 He [Hk1 Hor]. pose proof (pull_one_step lv a e st1) as Hs.
      destruct Hor as [(l & Hl & Hkept)|Hlost].
      * destruct (pulled_step_kept _ _ _ i r l Hs Hk1 Hl Hkept) as [Hk2 [?|[??]]]; eauto 6.
      * split; [|by right]. destruct Hs as [|l0 _ _ _|s' Hs' _]; [done|by apply rebase_keyed|].
        by apply apply_remote_other in Hs' as [Hk' _]; apply Hk'.
    + split; [done|]. left. exists r. split; [done|]. by unfold kept.
  - by left.
  - right. exists e. split; [done|]. split; [done|]. unfold keep_local in Hkl.
    destruct (conflict opts); [by apply Z.ltb_ge in Hkl|done|done].
Qed.
End Edits.

(** While a push waits for the server the user can edit the row again, or
    delete it. The acknowledgement then clears the dirty flag of the newer
    content, or drops the tombstone: the pass ends well, with nothing to
    retry, and the newer edit (or the deletion) is no longer pending, so it is
    never sent. *)
Theorem edit_during_push_is_forgotten {R} `{Remote R} opts v (st : St R) r rem1 s1 r1 version seq :
  (1 <= batch opts)%nat -> rows_to_push opts (store st) v = [r] -> deleted r = false ->
  sync_push (chunk_request [r]) (remote st) (store st) = (rem1, s1, Ok [PushOk (id r) version seq]) ->
  keyed s1 -> row s1 (id r) = Some r1 ->
  runs (push_entities_into opts v) st (fun retry st' => retry = false /\
    row (store st') (id r) = (if deleted r1 then None else Some (set_pushed version seq false r1)) /\
    forall w r', r' ∈ dirty_rows (store st') w -> id r' <> id r).
Proof.
  intros Hb Hrows Hd Hpush Hk Hr1. unfold push_entities_into. apply runs_bind, runs_reads. rewrite Hrows.
  assert (chunks (batch opts) [r] = [[r]]) as ->.
  { rewrite chunks_step by done. destruct (batch opts) as [|n]; [lia|]. cbn. by rewrite take_nil, drop_nil. }
  eexists _, _. split.
  - unfold push_chunk, chunk_request, forget_unseen in *. cbn [for_each fold_left]. rewrite Hd. cbn [andb].
    rewrite !filter_cons, !filter_nil, Hd in *. cbn [map changes deletes] in *.
    rewrite (decide_True (P := false = false)) in * by done.
    rewrite (decide_False (P := false = true /\ _)) in * by (by intros [? _]).
    rewrite bool_decide_eq_false_2 by done. run_m. cbn [andb map remote store] in *. rewrite Hpush. reflexivity.
  - cbn. split; [done|]. unfold mark_pushed. unfold row in Hr1 |- *. rewrite Hr1. split.
    + destruct (deleted r1); cbn; [by rewrite lookup_delete_eq|by rewrite lookup_alter_eq, Hr1].
    + intros w r' (i & Hi & _ & Hdr)%dirty_rows_elem E. destruct (deleted r1); cbn in Hi.
      * apply lookup_delete_Some in Hi as [Hne Hi]. apply Hk in Hi. congruence.
      * destruct (decide (i = id r)) as [->|Hne].
        -- rewrite lookup_alter_eq, Hr1 in Hi. cbn in Hi. by injection Hi as <-.
        -- rewrite lookup_alter_ne in Hi by done. apply Hk in Hi. congruence.
Qed.

(** ** What a push sends *)

(** A server whose requests are written down. *)
Definition recorder {R} (server : Remote R) : Remote (list PushRequest * R) := {|
  sync_push q '(l, r) s := let '(r, s, a) := sync_push q r s in ((l ++ [q], r), s, a);
  sync_pull q '(l, r) s := let '(r, s, a) := sync_pull q r s in ((l, r), s, a);
  refresh_vaults '(l, r) s := let '(r, s, a) := refresh_vaults r s in ((l, r), s, a)
|}.
Definition sent {R} (st : St (list PushRequest * R)) : list PushRequest := fst (remote st).

Definition request_ids (q : PushRequest) : list uuid := map c_id (changes q) ++ map d_id (deletes q).
Definition answers (q : PushRequest) (res : PushResult) : Prop :=
  match res with
  | PushOk i _ _ => i ∈ request_ids q
  | PushConflict i e => i ∈ request_ids q /\ SyncTypes.id e = i
  | PushError i _ => i ∈ request_ids q
  end.

(** The server answers what it was asked, and nobody but the engine breaks [P]
    of the row while the engine waits. *)
Record undisturbed {R} `{Remote R} (P : option EntityRow -> Prop) (i : uuid) : Prop := {
  push_answers : forall q r s results, snd (sync_push q r s) = Ok results -> Forall (answers q) results;
  push_leaves : forall q r s, P (row s i) -> P (row (snd (fst (sync_push q r s))) i);
  refresh_leaves : forall r s, P (row s i) -> P (row (snd (fst (refresh_vaults r s))) i)
}.

(** A credential of the Personal vault. *)
Definition private (personal : uuid) (r : EntityRow) : Prop :=
  vault_id r = personal /\ deleted r = false /\ is_credential_kind (kind r) = true.

Section Pushing.
Context {R : Type} {server : Remote R} (opts : SyncOptions).
#[local] Existing Instance recorder | 0.
Abbreviation State := (St (list PushRequest * R)).

Lemma handle_result_remote rows flags res (st : State) : remote (fst (handle_result opts rows flags res st)) = remote st.
Proof.
  unfold handle_result, resolve_conflict. destruct flags, res as [i v q|i e|i c]; run_m; [done| |].
  - destruct (rows !! i) as [l|]; [|done]. destruct (keep_local opts l e); [done|]. by destruct (apply_remote _ _).
  - destruct (decide _); [|done]. destruct (rows !! i) as [r|]; [|done]. by destruct (deleted r).
Qed.

Lemma push_chunk_sent flags chunk (st : State) :
  sent (fst (push_chunk opts flags chunk st)) = sent st ++
    (if bool_decide (changes (chunk_request chunk) = []) && bool_decide (deletes (chunk_request chunk) = []) then []
     else [chunk_request chunk]).
Proof.
  unfold push_chunk. run_m. destruct (_ && _); [by rewrite app_nil_r|]. destruct st as [[l r] s rep]. cbn [remote store report].
  cbn [sync_push recorder]. destruct (sync_push _ _ _) as [[r1 s1] [results|e]]; [|done].
  apply (for_each_stays _ (fun st => sent st = l ++ [chunk_request chunk])); [|done].
  intros a x st1 _ E. unfold sent. by rewrite handle_result_remote.
Qed.

Lemma push_chunks_sent chunks flags (st : State) : let '(st', a) := for_each (push_chunk opts) flags chunks st in
  exists new, sent st' = sent st ++ new /\ (forall q, q ∈ new -> exists c, c ∈ chunks /\ q = chunk_request c) /\
    (forall x, a = Ok x -> forall c, c ∈ chunks -> changes (chunk_request c) = [] /\ deletes (chunk_request c) = [] \/ chunk_request c ∈ new).
Proof.
  revert flags st. induction chunks as [|c chunks IH]; intros flags st; cbn [for_each].
  - exists []. rewrite app_nil_r. split; [done|]. split; [by intros ? ?%elem_of_nil|by intros ? _ ? ?%elem_of_nil].
  - unfold mbind, M_bind. pose proof (push_chunk_sent flags c st) as E. destruct (push_chunk opts flags c st) as [st1 [f|e]].
    + specialize (IH f st1). destruct (for_each _ _ _ _) as [st' a]. destruct IH as (new & En & Hn & Ha). cbn [fst] in E.
      rewrite E, <- app_assoc in En. eexists. split; [exact En|]. split.
      * intros q [Hq|(d & Hd & ->)%Hn]%elem_of_app; [|exists d; split; [by right|done]].
        destruct (_ && _); [by apply elem_of_nil in Hq|apply list_elem_of_singleton in Hq as ->]. exists c. split; [by left|done].
      * intros x Hx d [->|Hd]%elem_of_cons; [|destruct (Ha x Hx d Hd); [by left|right; apply elem_of_app; by right]].
        destruct (_ && _) eqn:Eb; [left|right; apply elem_of_app; left; by apply list_elem_of_singleton].
        apply andb_true_iff in Eb as [?%bool_decide_eq_true ?%bool_decide_eq_true]. done.
    + eexists. split; [exact E|]. split; [|done]. intros q Hq.
      destruct (_ && _); [by apply elem_of_nil in Hq|apply list_elem_of_singleton in Hq as ->]. exists c. split; [by left|done].
Qed.

(** Rows a request does not name are left to the user. *)
Lemma by_id_id chunk i r : by_id chunk !! i = Some r -> id r = i.
Proof.
  unfold by_id. intros H%elem_of_list_to_map_2. rewrite list_elem_of_In, <- in_rev, <- list_elem_of_In in H.
  by apply list_elem_of_fmap in H as (x & [= -> ->] & _).
Qed.

Lemma mark_pushed_other s i v q j : j <> i -> row (mark_pushed s i v q) j = row s j.
Proof.
  intros H. unfold mark_pushed, row. destruct (ents s !! i) as [r|]; [|done].
  destruct (deleted r); cbn; [by rewrite lookup_delete_ne|by rewrite lookup_alter_ne].
Qed.

Lemma rebase_local_other s i v q j : j <> i -> row (rebase_local s i v q) j = row s j.
Proof. intros H. unfold rebase_local, row. cbn. by rewrite lookup_alter_ne. Qed.

Lemma request_ids_chunk chunk i : i ∈ request_ids (chunk_request chunk) -> i ∈ map id chunk.
Proof.
  unfold request_ids. rewrite elem_of_app. cbn. rewrite !map_map. intros [H|H]; apply list_elem_of_fmap in H as (r & -> & Hr);
    apply list_elem_of_filter in Hr as [_ Hr]; apply list_elem_of_fmap; by exists r.
Qed.

Lemma handle_result_other chunk flags res (st : State) i : answers (chunk_request chunk) res -> i ∉ map id chunk ->
  row (store (fst (handle_result opts (by_id chunk) flags res st))) i = row (store st) i.
Proof.
  intros Ha Hi. assert (N : forall j, j ∈ request_ids (chunk_request chunk) -> i <> j)
    by (intros j Hj%request_ids_chunk ->; done).
  unfold handle_result, resolve_conflict. destruct flags, res as [j v q|j e|j c]; cbn in Ha; run_m; cbn [store fst].
  - by apply mark_pushed_other, N.
  - destruct Ha as [Hj He]. destruct (by_id chunk !! j) as [l|] eqn:El; [|done]. apply by_id_id in El.
    destruct (keep_local opts l e); cbn; [apply rebase_local_other; rewrite El; by apply N|].
    destruct (apply_remote _ _) as [s'|] eqn:Es; [|done]. cbn. apply apply_remote_other in Es as [_ Hs].
    apply Hs. rewrite He. by apply N.
  - destruct (decide _); [|done]. destruct (by_id chunk !! j) as [r|]; [|done].
    destruct (deleted r); cbn; [by apply mark_pushed_other, N|by apply rebase_local_other, N].
Qed.

Lemma forget_unseen_other chunk s i : i ∉ map id chunk -> row (forget_unseen chunk s) i = row s i.
Proof.
  unfold forget_unseen. revert s. induction chunk as [|r chunk IH]; intros s Hi; cbn; [done|].
  cbn in Hi. apply not_elem_of_cons in Hi as [Hn Hi]. rewrite IH by done. destruct (_ && _); [by apply mark_pushed_other|done].
Qed.

Lemma push_chunk_other P flags chunk (st : State) i : @undisturbed R server P i -> i ∉ map id chunk ->
  P (row (store st) i) -> P (row (store (fst (push_chunk opts flags chunk st))) i).
Proof.
  intros [Ha Hp _] Hi HP. unfold push_chunk. run_m. rewrite <- (forget_unseen_other chunk) in HP by done.
  destruct (_ && _); [done|]. destruct st as [[l r] s rep]. cbn [remote store report] in *. cbn [sync_push recorder].
  specialize (Ha (chunk_request chunk) r (forget_unseen chunk s)). apply (Hp (chunk_request chunk) r) in HP.
  destruct (sync_push _ _ _) as [[r1 s1] [results|e]]; [|done]. cbn [fst snd] in *. specialize (Ha results eq_refl).
  apply (for_each_stays _ (fun st => P (row (store st) i))); [|done].
  intros a res st1 Hres H1. rewrite Forall_forall in Ha. by rewrite handle_result_other by auto.
Qed.

Lemma push_chunks_other chunks flags (st : State) P i : @undisturbed R server P i -> (forall c, c ∈ chunks -> i ∉ map id c) ->
  P (row (store st) i) -> P (row (store (fst (for_each (push_chunk opts) flags chunks st))) i).
Proof.
  intros Hu Hi. apply (for_each_stays _ (fun st => P (row (store st) i))). intros a c st1 Hc. by apply push_chunk_other, Hi.
Qed.

Lemma dirty_rows_row s v r : keyed s -> r ∈ dirty_rows s v -> row s (id r) = Some r.
Proof. intros Hk (i & Hi & _)%dirty_rows_elem. by rewrite (Hk i r Hi). Qed.

Lemma dirty_rows_keyed s v r r' : keyed s -> r ∈ dirty_rows s v -> r' ∈ dirty_rows s v -> id r = id r' -> r = r'.
Proof. intros Hk H1%dirty_rows_row H2%dirty_rows_row E; [|done..]. rewrite E in H1. congruence. Qed.

Lemma rows_to_push_elem s v pv r : local_credentials_vault opts s = Some pv ->
  r ∈ rows_to_push opts s v <-> r ∈ dirty_rows s v /\ ~ private pv r.
Proof.
  intros Hlv. unfold rows_to_push, keeps_local, private. rewrite Hlv, list_elem_of_filter, !andb_false_iff, bool_decide_eq_false,
    negb_false_iff. assert (Some pv = Some (vault_id r) <-> vault_id r = pv) as -> by (split; congruence).
  destruct (decide (vault_id r = pv)), (deleted r), (is_credential_kind (kind r)); naive_solver.
Qed.

(** A pass is its chunks, and then perhaps a refresh of the vaults. *)
Lemma push_entities_into_chunks v (st : State) :
  let '(st1, a1) := for_each (push_chunk opts) (false, false) (chunks (batch opts) (rows_to_push opts (store st) v)) st in
  let '(st', a) := push_entities_into opts v st in
  sent st' = sent st1 /\ (forall P i, @undisturbed R server P i -> P (row (store st1) i) -> P (row (store st') i)) /\
  forall retry, a = Ok retry -> exists flags, a1 = Ok flags.
Proof.
  unfold push_entities_into, mbind, M_bind. cbn [reads].
  destruct (for_each _ _ _ _) as [[[l r] s rep] [[retry stale]|e]]; [|done].
  destruct stale; [|split; [done|]; split; [done|]; by eexists].
  unfold call. cbn. destruct (refresh_vaults r s) as [[r' s'] [u|e]] eqn:E; cbn; (split; [done|]; split; [|by eauto]);
    intros P i [_ _ Hr] HP; specialize (Hr r s HP); by rewrite E in Hr.
Qed.
End Pushing.

(** C28: With credential sync off, a push sends no identity, key or certificate
    of the Personal vault, not even encrypted. Of whatever server, each change
    a pass over a vault puts on the wire is that of a row that was pending in
    the vault, and not of a credential of the Personal vault; each deletion is
    of a pending deletion. A credential that was pending is in no request, and
    the pass leaves its row alone: nothing but an edit while the engine waits
    changes it, as long as the server answers what it was asked. And a pass
    that ends well has sent every other pending row, but for deletions of rows
    the server never had. *)
Theorem credentials_stay_on_device {R} {server : Remote R} opts v (st : St (list PushRequest * R)) pv :
  keyed (store st) -> sync_credentials opts = false -> personal_vault (store st) = Some pv ->
  let '(st', a) := @push_entities_into _ (recorder server) opts v st in
  let pending := dirty_rows (store st) v in
  exists new, sent st' = sent st ++ new
  /\ (forall q c, q ∈ new -> c ∈ changes q -> exists r, r ∈ pending /\ c = to_change r /\ deleted r = false /\ ~ private (lv_id pv) r)
  /\ (forall q d, q ∈ new -> d ∈ deletes q -> exists r, r ∈ pending /\ d = to_delete r /\ deleted r = true)
  /\ (forall r, r ∈ pending -> private (lv_id pv) r ->
        (forall q, q ∈ new -> id r ∉ request_ids q)
        /\ forall P, undisturbed P (id r) -> P (Some r) -> P (row (store st') (id r)))
  /\ (forall retry, a = Ok retry -> forall r, r ∈ pending ->
        if deleted r then (0 < version r)%Z -> exists q, q ∈ new /\ to_delete r ∈ deletes q
        else ~ private (lv_id pv) r -> exists q, q ∈ new /\ to_change r ∈ changes q).
Proof.
  intros Hk Hc Hp. assert (Hlv : local_credentials_vault opts (store st) = Some (lv_id pv))
    by (unfold local_credentials_vault; by rewrite Hc, Hp).
  pose proof (fun r => rows_to_push_elem opts (store st) v (lv_id pv) r Hlv) as Hrows.
  pose proof (push_entities_into_chunks opts v st) as Hpass.
  pose proof (push_chunks_sent opts (chunks (batch opts) (rows_to_push opts (store st) v)) (false, false) st) as Hsent.
  pose proof (push_chunks_other opts (chunks (batch opts) (rows_to_push opts (store st) v)) (false, false) st) as Hother.
  set (cs := chunks (batch opts) (rows_to_push opts (store st) v)) in *.
  assert (Hcs : forall c r, c ∈ cs -> r ∈ c -> r ∈ dirty_rows (store st) v /\ ~ private (lv_id pv) r)
    by (intros c r Hcc Hr; apply Hrows; by eapply chunks_elem).
  destruct (for_each _ _ cs st) as [st1 a1], (push_entities_into _ _ _) as [st' a]. destruct Hpass as (Es & HP & Hok).
  destruct Hsent as (new & En & Hnew & Hall). cbv zeta. exists new. rewrite Es. split; [done|]. split_and!.
  - intros q c (ch & Hch & ->)%Hnew Hin. cbn in Hin. apply list_elem_of_fmap in Hin as (r & -> & [Hd Hr]%list_elem_of_filter).
    exists r. destruct (Hcs ch r Hch Hr). done.
  - intros q d (ch & Hch & ->)%Hnew Hin. cbn in Hin. apply list_elem_of_fmap in Hin as (r & -> & [[Hd _] Hr]%list_elem_of_filter).
    exists r. by destruct (Hcs ch r Hch Hr).
  - intros r Hr Hpr. assert (Hout : forall ch, ch ∈ cs -> id r ∉ map id ch).
    { intros ch Hch (r2 & Hid & Hr2)%list_elem_of_fmap. destruct (Hcs ch r2 Hch Hr2) as [Hr2d Hn]. apply Hn.
      by rewrite <- (dirty_rows_keyed _ _ _ _ Hk Hr Hr2d Hid). }
    split; [intros q (ch & Hch & ->)%Hnew Hi%request_ids_chunk; by apply (Hout ch)|].
    intros P HPi H0. apply HP; [done|]. apply (Hother P (id r)); [done|done|]. by rewrite (dirty_rows_row _ _ _ Hk Hr).
  - intros retry Ha r Hr. destruct (Hok retry Ha) as [flags Hf].
    assert (Hch : ~ private (lv_id pv) r -> exists ch, ch ∈ cs /\ r ∈ ch).
    { intros Hn. apply chunks_cover. by apply Hrows. }
    destruct (deleted r) eqn:Hd.
    + intros Hv. destruct Hch as (ch & Hc1 & Hc2); [intros (_ & ? & _); congruence|].
      assert (Hin : to_delete r ∈ deletes (chunk_request ch))
        by (cbn; apply list_elem_of_fmap; exists r; split; [done|]; by apply list_elem_of_filter).
      destruct (Hall flags Hf ch Hc1) as [[_ E]|Hq]; [rewrite E in Hin; by apply elem_of_nil in Hin|]. by eexists.
    + intros Hn. destruct (Hch Hn) as (ch & Hc1 & Hc2).
      assert (Hin : to_change r ∈ changes (chunk_request ch))
        by (cbn; apply list_elem_of_fmap; exists r; split; [done|]; by apply list_elem_of_filter).
      destruct (Hall flags Hf ch Hc1) as [[E _]|Hq]; [rewrite E in Hin; by apply elem_of_nil in Hin|]. by eexists.
Qed.

(** ** A device with an edit of host 42 *)

Definition ex_local (data : string) (deleted : bool) : EntityRow :=
  mkRow 42 "host" 7 3 4 deleted 2 data 800 true.
Definition ex_team_vault : VaultRow := mkVaultRow Team "Ops" (Some 1%N) VaultAccess.Editor None 2 5 false 0 false.
Definition ex_personal : VaultRow := mkVaultRow Personal "Me" None VaultAccess.Manager (Some "w") 1 0 false 0 false.
Definition ex_device (r : EntityRow) : Store := mkStore [] {[7%N := ex_team_vault]} ∅ {[42%N := r]}.
Definition ex_opts (c : ConflictPolicy) : SyncOptions := mkOptions c 100 true.

(** The server of the examples; the user saves [edit] while a push is away. *)
#[local] Instance ex_server (edit : EntityRow) : Remote SyncServer.Db := {|
  sync_push req db s :=
    match SyncServer.push (SyncServer.ex_env 9) db req with
    | (db, Ok (rs, _, _)) => (db, with_ents s (<[id edit := edit]>), Ok rs)
    | (db, Err _) => (db, s, Err (Api "internal"))
    end;
  sync_pull req db s := (db, s, Ok (SyncServer.pull (SyncServer.ex_env 9) db req));
  refresh_vaults db s := (db, s, Ok tt)
|}.

Lemma ex_keyed r : keyed (ex_device r) <-> id r = 42%N.
Proof.
  split; [intros Hk; by apply (Hk 42%N r)|]. intros Hr i r'. cbn. intros [<- <-]%lookup_singleton_Some. done.
Qed.

Lemma edit_during_push_is_forgotten_witness : exists retry st',
  @push_entities_into _ (ex_server (ex_local "second" false)) (ex_opts NewestWins) 7%N
    (mkSt SyncServer.ex_db (ex_device (ex_local "first" false)) default_report) = (st', Ok retry) /\
  row (store st') 42%N = Some (set_pushed 4 6 false (ex_local "second" false)) /\
  forall w r', r' ∈ dirty_rows (store st') w -> id r' <> 42%N.
Proof.
  destruct (@edit_during_push_is_forgotten _ (ex_server (ex_local "second" false)) (ex_opts NewestWins) 7%N
    (mkSt SyncServer.ex_db (ex_device (ex_local "first" false)) default_report) (ex_local "first" false)
    (fst (SyncServer.push (SyncServer.ex_env 9) SyncServer.ex_db (chunk_request [ex_local "first" false])))
    (ex_device (ex_local "second" false)) (ex_local "second" false) 4 6)
    as (retry & st' & E & _ & Hrow & Hnone); [cbn; lia|vm_compute; reflexivity..| | |].
  - apply ex_keyed. reflexivity.
  - reflexivity.
  - exists retry, st'. split; [exact E|]. split; [exact Hrow|exact Hnone].
Defined.

Lemma pull_keeps_pending_edits_witness :
  exists r', row (store (fst (for_each (pull_one (ex_opts NewestWins) None) []
      [SyncServer.ex_row 42 9 8] (mkSt tt (ex_device (ex_local "mine" false)) default_report)))) 42%N = Some r' /\
    kept (ex_local "mine" false) r'.
Proof.
  destruct (pull_keeps_pending_edits (ex_opts NewestWins) None [] [SyncServer.ex_row 42 9 8]
    (mkSt tt (ex_device (ex_local "mine" false)) default_report) 42 (ex_local "mine" false))
    as [H|(e & ->%list_elem_of_singleton & _ & Hle)]; [by apply ex_keyed|reflexivity|reflexivity|exact H|].
  cbn in Hle. lia.
Defined.

Definition ex_key_row : EntityRow := mkRow 5 "ssh_key" 1 0 0 false 1 "k" 7 true.
Definition ex_host_row : EntityRow := mkRow 6 "host" 1 0 0 false 1 "h" 8 true.
Definition ex_local_store : Store :=
  mkStore [] {[1%N := ex_personal]} ∅ {[5%N := ex_key_row; 6%N := ex_host_row]}.


(** A server that takes whatever it is sent. *)
Definition ex_taking : Remote unit := {|
  sync_push q r s := (r, s, Ok (map (fun c => PushOk (c_id c) 1 1) (changes q)));
  sync_pull q r s := (r, s, Err (Api "offline"));
  refresh_vaults r s := (r, s, Ok tt)
|}.

Lemma ex_taking_undisturbed P i : @undisturbed _ ex_taking P i.
Proof.
  split; cbn; [|done|done]. intros q _ _ results [= <-]. apply Forall_forall. intros res (c & -> & Hc)%list_elem_of_fmap.
  cbn. apply elem_of_app. left. apply list_elem_of_fmap. by exists c.
Qed.

(** The key stays, the host goes. *)
Lemma credentials_stay_on_device_witness : exists st' new,
  @push_entities_into _ (recorder ex_taking) (mkOptions NewestWins 100 false) 1%N (mkSt ([], tt) ex_local_store default_report)
    = (st', Ok false) /\
  sent st' = [] ++ new /\ (forall q, q ∈ new -> 5%N ∉ request_ids q) /\ row (store st') 5 = Some ex_key_row /\
  exists q, q ∈ new /\ to_change ex_host_row ∈ changes q.
Proof.
  set (st := mkSt ([], tt) ex_local_store default_report).
  assert (Hk : keyed (store st)) by (intros i r H; cbn in H; apply lookup_insert_Some in H as [[<- <-]|[_ H]]; [|apply lookup_singleton_Some in H as [<- <-]]; reflexivity).
  pose proof (credentials_stay_on_device (server := ex_taking) (mkOptions NewestWins 100 false) 1%N st (view 1 ex_personal)
    Hk eq_refl ltac:(vm_compute; reflexivity)) as H.
  destruct (push_entities_into _ _ _) as [st' a] eqn:E.
  assert (Ea : a = Ok false) by (apply (f_equal snd) in E; cbn [snd] in E; rewrite <- E; vm_compute; reflexivity). subst a.
  destruct H as (new & En & _ & _ & Hkept & Hsent). exists st', new. split; [reflexivity|]. split; [exact En|].
  destruct (Hkept ex_key_row) as [H1 H2];
    [apply dirty_rows_elem; exists 5%N; split; [reflexivity|by split]|by repeat split|].
  split; [exact H1|]. split; [apply (H2 (fun o => o = Some ex_key_row)); [apply ex_taking_undisturbed|reflexivity]|].
  apply (Hsent false eq_refl ex_host_row); [apply dirty_rows_elem; exists 6%N; split; [reflexivity|by split]|].
  by intros (_ & _ & ?).
Defined.
