(* ===== verification/Replica.v ===== *)
(** * A device's replica follows the server

    The client's pull ([ClientSync]) against the server's ([SyncServer]): the
    server is the [Remote] a device with no edits of its own pulls from. *)
From S2P Require Import Prelude SyncTypes.
From S2P Require VaultAccess SyncServer ClientStore ClientSync.
Import ClientSync.

Abbreviation Db := SyncServer.Db.
Abbreviation Store := ClientStore.Store.
Abbreviation EntityRow := ClientStore.EntityRow.
Abbreviation ents := ClientStore.ents.
Abbreviation vault_rows := ClientStore.vault_rows.

(** The server as a device's remote: its answers for one signed-in user, the
    device's store not edited meanwhile. *)
Definition server (env : SyncServer.Env) : Remote Db := {|
  sync_push req db s :=
    match SyncServer.push env db req with
    | (db, Ok (rs, _, _)) => (db, s, Ok rs)
    | (db, Err (SyncServer.TooLarge _)) => (db, s, Err (ClientStore.Api "payload_too_large"))
    | (db, Err SyncServer.Internal) => (db, s, Err (ClientStore.Api "internal"))
    end;
  sync_pull req db s := (db, s, Ok (SyncServer.pull env db req));
  refresh_vaults db s := (db, s, Ok tt)
|}.

(** ** Mirrored rows *)

(** The row the store keeps for an entity of the server. *)
Definition remote_row (e : SyncEntity) : EntityRow :=
  ClientStore.mkRow (id e) (kind e) (vault_id e) (version e) (seq e) false (key_version e) (data e) (updated_at e) false.

(** A clean copy, the local time of the last edit aside. *)
Definition agrees (r : EntityRow) (e : SyncEntity) : Prop :=
  r = ClientStore.mkRow (id e) (kind e) (vault_id e) (version e) (seq e) false (key_version e) (data e)
        (ClientStore.updated_at r) false.

(** The store holds what the server holds of an entity. *)
Definition holds (s : Store) (e : SyncEntity) : Prop :=
  if deleted e then ents s !! id e = None else exists r, ents s !! id e = Some r /\ agrees r e.

(** The rows of the vaults [V] are clean copies of rows of the server, current
    or outdated; the entities [seen] are current. *)
Record mirror (db : Db) (V : gset uuid) (seen : SyncEntity -> Prop) (s : Store) : Prop := {
  mi_local : forall i r, ents s !! i = Some r -> ClientStore.vault_id r ∈ V ->
    ClientStore.dirty r = false /\ exists e, SyncServer.rows db !! i = Some e /\ vault_id e = ClientStore.vault_id r /\
      ClientStore.version r <= version e /\ (ClientStore.version r = version e -> deleted e = false /\ agrees r e);
  mi_vault : forall i r e, ents s !! i = Some r -> SyncServer.rows db !! i = Some e -> vault_id e ∈ V ->
    ClientStore.vault_id r ∈ V;
  mi_seen : forall i e, SyncServer.rows db !! i = Some e -> vault_id e ∈ V -> seen e -> holds s e
}.

Definition put_remote (s : Store) (e : SyncEntity) : Store :=
  ClientStore.with_ents s (if deleted e then delete (id e) else <[id e := remote_row e]>).

Lemma put_remote_holds s e : holds (put_remote s e) e.
Proof.
  unfold holds, put_remote. destruct (deleted e) eqn:Ed; cbn; rewrite ?Ed.
  - by rewrite lookup_delete_eq.
  - exists (remote_row e). by rewrite lookup_insert_eq.
Qed.

Lemma put_remote_ne s e i : i <> id e -> ents (put_remote s e) !! i = ents s !! i.
Proof.
  intros Hi. unfold put_remote. destruct (deleted e); cbn;
    [by rewrite lookup_delete_ne|by rewrite lookup_insert_ne].
Qed.

Section Mirror.
Context (db : Db) (V : gset uuid) (Hk : SyncServer.keyed db).

Lemma mirror_weaken seen seen' s : (forall e, SyncServer.rows db !! id e = Some e -> vault_id e ∈ V -> seen' e -> seen e) ->
  mirror db V seen s -> mirror db V seen' s.
Proof.
  intros Hs [H1 H2 H3]. split; [done|done|]. intros i e Hi Hv Hs'. eapply H3; [done|done|].
  apply Hs; [|done|done]. by rewrite (Hk _ _ Hi).
Qed.

(** Taking over an entity of the server. *)
Lemma mirror_put seen s e : SyncServer.rows db !! id e = Some e -> vault_id e ∈ V -> mirror db V seen s ->
  mirror db V (fun e' => seen e' \/ e' = e) (put_remote s e).
Proof.
  intros He Hv [H1 H2 H3]. split.
  - intros i r Hi Hr. destruct (decide (i = id e)) as [->|Hne]; [|rewrite put_remote_ne in Hi by done; by apply H1].
    pose proof (put_remote_holds s e) as Hh. unfold holds in Hh. destruct (deleted e) eqn:Ed; [congruence|].
    destruct Hh as (r' & Hr' & Ha). assert (r' = r) as -> by congruence.
    split; [by rewrite Ha|]. exists e. rewrite Ha. cbn. by rewrite He.
  - intros i r e' Hi He' Hv'. destruct (decide (i = id e)) as [->|Hne];
      [|rewrite put_remote_ne in Hi by done; by eapply H2].
    pose proof (put_remote_holds s e) as Hh. unfold holds in Hh. destruct (deleted e) eqn:Ed; [congruence|].
    destruct Hh as (r' & Hr' & Ha). assert (r' = r) as -> by congruence. by rewrite Ha.
  - intros i e' Hi Hv' Hs. pose proof (Hk _ _ Hi) as <-. destruct (decide (id e' = id e)) as [E|Hne].
    + rewrite E in Hi. assert (e' = e) as -> by congruence. apply put_remote_holds.
    + unfold holds. rewrite put_remote_ne by done. destruct Hs as [Hs| ->]; [|done]. by apply (H3 _ _ Hi).
Qed.

(** An entity that is already mirrored. *)
Lemma mirror_same seen s e : holds s e -> mirror db V seen s -> mirror db V (fun e' => seen e' \/ e' = e) s.
Proof. intros He [H1 H2 H3]. split; [done|done|]. intros i e' Hi Hv [Hs| ->]; [by apply (H3 i)|done]. Qed.

(** ** Applying what was pulled *)

(** What applying pulled rows leaves alone. *)
Definition same_frame (st st' : St Db) : Prop :=
  remote st' = remote st /\ vault_rows (store st') = vault_rows (store st) /\
  ClientStore.keys (store st') = ClientStore.keys (store st).

Lemma same_frame_trans st1 st2 st3 : same_frame st1 st2 -> same_frame st2 st3 -> same_frame st1 st3.
Proof. intros (? & ? & ?) (? & ? & ?). unfold same_frame. split_and!; congruence. Qed.

Lemma apply_remote_put s e : is_Some (vault_rows s !! vault_id e) ->
  ClientStore.apply_remote s e = Ok (put_remote s e).
Proof.
  intros [v Hv]. unfold ClientStore.apply_remote, put_remote. destruct (deleted e); [done|].
  change (ClientStore.vault_rows s !! vault_id e = Some v) in Hv. by rewrite Hv.
Qed.

Lemma apply_pulled_mirror opts seen e st : SyncServer.rows db !! id e = Some e -> vault_id e ∈ V ->
  is_Some (vault_rows (store st) !! vault_id e) -> mirror db V seen (store st) ->
  runs (apply_pulled opts e) st (fun _ st' => same_frame st st' /\
    mirror db V (fun e' => seen e' \/ e' = e) (store st')).
Proof.
  intros He Hv Hrow Hm. unfold apply_pulled. apply runs_bind, runs_reads.
  assert (Hput : runs (_ ← try_store (fun s => ClientStore.apply_remote s e); mret true) st
    (fun _ st' => same_frame st st' /\ mirror db V (fun e' => seen e' \/ e' = e) (store st'))).
  { apply runs_bind. eapply runs_try_store; [by apply apply_remote_put|]. apply runs_ret.
    split; [done|]. by apply mirror_put. }
  unfold ClientStore.row. destruct (ClientStore.ents (store st) !! id e) as [l|] eqn:El.
  - pose proof (mi_vault db V seen _ Hm _ _ _ El He Hv) as Hlv.
    destruct (mi_local db V seen _ Hm _ _ El Hlv) as (Hd & e' & He' & _ & Hle & Hsame).
    assert (e' = e) as -> by congruence. change (ClientStore.dirty l) with (ClientStore.dirty l) in *.
    rewrite Hd. cbn [negb]. destruct (_ && _) eqn:Eskip; [|done]. apply runs_ret. split; [done|].
    apply mirror_same; [|done]. apply andb_true_iff in Eskip as [Hge%Z.leb_le Hnd%negb_true_iff].
    unfold holds. rewrite Hnd. exists l. split; [done|]. apply Hsame. lia.
  - destruct (deleted e) eqn:Ed; [|done]. apply runs_ret. split; [done|].
    apply mirror_same; [|done]. unfold holds. by rewrite Ed.
Qed.

Lemma pull_one_mirror opts touched seen e st : SyncServer.rows db !! id e = Some e -> vault_id e ∈ V ->
  is_Some (vault_rows (store st) !! vault_id e) -> mirror db V seen (store st) ->
  runs (pull_one opts None touched e) st (fun _ st' => same_frame st st' /\
    mirror db V (fun e' => seen e' \/ e' = e) (store st')).
Proof.
  intros He Hv Hrow Hm. unfold pull_one. rewrite bool_decide_eq_false_2 by done. cbn [andb].
  apply runs_bind. eapply runs_mono; [by apply (apply_pulled_mirror opts seen)|].
  intros [|] st' [Hf Hm']; cbn beta iota; [|by apply runs_ret].
  apply runs_bind, runs_with_report, runs_ret. by split.
Qed.

Lemma pull_page_mirror opts touched seen l st :
  (forall e, e ∈ l -> SyncServer.rows db !! id e = Some e /\ vault_id e ∈ V) ->
  (forall v, v ∈ V -> is_Some (vault_rows (store st) !! v)) -> mirror db V seen (store st) ->
  runs (for_each (pull_one opts None) touched l) st (fun _ st' => same_frame st st' /\
    mirror db V (fun e => seen e \/ e ∈ l) (store st')).
Proof.
  intros Hl HV Hm.
  apply (runs_for_each (pull_one opts None) (fun done _ st' => same_frame st st' /\
    mirror db V (fun e => seen e \/ e ∈ done) (store st')) l) with (done := []).
  - intros done e a st' Hin [Hf Hm']. destruct (Hl e Hin) as [He Hv].
    eapply runs_mono; [apply (pull_one_mirror opts a (fun e => seen e \/ e ∈ done) e); [done|done| |done]|].
    + destruct Hf as (_ & -> & _). auto.
    + intros _ st2 [Hf2 Hm2]. split; [by eapply same_frame_trans|].
      eapply mirror_weaken; [|exact Hm2]. intros e' _ _ [Hs|[Hd|Hs%list_elem_of_singleton]%elem_of_app]; auto.
  - split; [done|]. eapply mirror_weaken; [|exact Hm]. by intros e _ _ [?|?%elem_of_nil].
Qed.
End Mirror.

(** ** Cursors *)

Definition below (cs : gmap uuid Z) (e : SyncEntity) : Prop := exists c, cs !! vault_id e = Some c /\ seq e <= c.

(** The cursors of the vaults [V], as the store has them. *)
Record linked (V : gset uuid) (s : Store) (cs : gmap uuid Z) : Prop := {
  li_dom : forall v, v ∈ V <-> is_Some (cs !! v);
  li_row : forall v c, cs !! v = Some c -> exists r, vault_rows s !! v = Some r /\ ClientStore.vr_cursor r = c
}.

(** The cursors move up to those the server answered, never back. *)
Definition moved (cs new cs' : gmap uuid Z) (v : uuid) : Prop :=
  forall c, cs !! v = Some c -> forall n, new !! v = Some n -> cs' !! v = Some (Z.max c n).

Lemma linked_set V s cs v n : v ∈ V -> linked V s cs ->
  linked V (ClientStore.set_vault_cursor s v n) (<[v := n]> cs).
Proof.
  intros Hv [H1 H2]. split.
  - intros w. destruct (decide (w = v)) as [->|?]; [rewrite lookup_insert_eq; split; eauto|].
    rewrite lookup_insert_ne by done. apply H1.
  - intros w c Hw. unfold ClientStore.set_vault_cursor, ClientStore.alter_vault, ClientStore.with_vaults. cbn.
    destruct (decide (w = v)) as [->|?].
    + rewrite lookup_insert_eq in Hw. injection Hw as <-. apply H1 in Hv as [c0 Hc].
      destruct (H2 _ _ Hc) as (r & Hr & _). cbn in Hr. rewrite lookup_alter_eq, Hr. cbn. eauto.
    + rewrite lookup_insert_ne in Hw by done. rewrite lookup_alter_ne by done. by apply H2.
Qed.

Lemma move_cursor_step V (cs : gmap uuid Z) v n (st : St Db) : linked V (store st) cs ->
  runs (move_cursor cs (v, n)) st (fun cs' st' => remote st' = remote st /\
    ents (store st') = ents (store st) /\ linked V (store st') cs' /\
    cs' = match cs !! v with Some c => <[v := Z.max c n]> cs | None => cs end).
Proof.
  intros Hl. unfold move_cursor. cbn [fst snd]. destruct (cs !! v) as [c|] eqn:Ec; [|by apply runs_ret].
  destruct (Z.ltb_spec c n).
  - apply runs_bind, runs_with_store, runs_ret. cbn [remote store]. rewrite Z.max_r by lia.
    split_and!; try done. apply linked_set; [|done]. apply (li_dom _ _ _ Hl). eauto.
  - apply runs_ret. rewrite Z.max_l by lia. by rewrite insert_id.
Qed.

Lemma move_cursors V (cs new : gmap uuid Z) (st : St Db) : linked V (store st) cs ->
  runs (for_each move_cursor cs (map_to_list new)) st (fun cs' st' => remote st' = remote st /\
    ents (store st') = ents (store st) /\ linked V (store st') cs' /\ forall v, moved cs new cs' v).
Proof.
  intros Hl. eapply runs_mono.
  - apply (runs_for_each move_cursor (fun done cs' st' => remote st' = remote st /\
      ents (store st') = ents (store st) /\ linked V (store st') cs' /\
      (forall v c, cs !! v = Some c -> cs' !! v = Some c \/ exists n, new !! v = Some n /\ cs' !! v = Some (Z.max c n)) /\
      forall v n, (v, n) ∈ done -> new !! v = Some n /\
        forall c, cs !! v = Some c -> cs' !! v = Some (Z.max c n))) with (done := []).
    + intros done [v n] cs1 st1 Hin%elem_of_map_to_list (Hr & He & Hl1 & Hmax & Hdone).
      eapply runs_mono; [by apply (move_cursor_step V cs1)|].
      intros cs2 st2 (Hr2 & He2 & Hl2 & ->). split_and!; [congruence|congruence|done| |].
      * intros w c Hw. destruct (cs1 !! v) as [c1|] eqn:E1; [|by apply Hmax].
        destruct (decide (w = v)) as [->|?]; [|rewrite lookup_insert_ne by done; by apply Hmax].
        rewrite lookup_insert_eq. right. exists n. split; [done|]. f_equal.
        destruct (Hmax _ _ Hw) as [E|(n' & En & E)]; rewrite E1 in E; injection E as ->; [done|].
        assert (n' = n) as -> by congruence. lia.
      * intros w m [Hwm|[= -> ->]%list_elem_of_singleton]%elem_of_app.
        -- destruct (Hdone _ _ Hwm) as [Hnew Hc]. split; [done|]. intros c Hw. specialize (Hc c Hw).
           destruct (cs1 !! v) as [c1|] eqn:E1; [|done].
           destruct (decide (w = v)) as [->|?]; [|by rewrite lookup_insert_ne].
           assert (m = n) as -> by congruence. rewrite lookup_insert_eq. f_equal.
           rewrite E1 in Hc. injection Hc as ->. lia.
        -- split; [done|]. intros c Hw.
           destruct (Hmax _ _ Hw) as [E|(n' & En & E)]; rewrite E, lookup_insert_eq; [done|].
           assert (n' = n) as -> by congruence. f_equal. lia.
    + split_and!; try done; [by left|by intros ?? ?%elem_of_nil].
  - intros cs' st' (? & ? & ? & _ & Hdone). split_and!; try done.
    intros v c Hc n Hn. by apply (proj2 (Hdone v n (proj2 (elem_of_map_to_list _ _ _) Hn))).
Qed.

(** ** Rounds of the pull *)

Definition unseen (cs : gmap uuid Z) (e : SyncEntity) : Prop :=
  match cs !! vault_id e with Some c => c < seq e | None => False end.
#[export] Instance unseen_dec cs e : Decision (unseen cs e).
Proof. unfold unseen. destruct (cs !! vault_id e); apply _. Defined.

Definition stored (db : Db) : list SyncEntity := map snd (map_to_list (SyncServer.rows db)).
Definition remaining (db : Db) (cs : gmap uuid Z) : nat := length (filter (unseen cs) (stored db)).

Lemma stored_elem db e : SyncServer.rows db !! id e = Some e -> e ∈ stored db.
Proof. intros He. apply list_elem_of_fmap. exists (id e, e). split; [done|]. by apply elem_of_map_to_list. Qed.

(** A device in sync with some past of the server: its rows mirror it up to
    the cursors, which the vaults' counters have reached. *)
Record in_sync (db : Db) (V : gset uuid) (s : Store) (cs : gmap uuid Z) : Prop := {
  is_linked : linked V s cs;
  is_mirror : mirror db V (below cs) s;
  is_bounded : forall v c, cs !! v = Some c -> exists q, SyncServer.vault_seq db !! v = Some q /\ c <= q
}.

Section Pull.
Context (env : SyncServer.Env) (db : Db) (Hdb : SyncServer.db_inv db) (V : gset uuid)
  (HV : forall v, v ∈ V -> SyncServer.readable env v = true).

(** What the cursors and rows of a response say together. *)
Lemma response_facts cs batch : (forall v, v ∈ V <-> is_Some (cs !! v)) ->
  let r := SyncServer.pull env db (mkPull cs batch) in
  (forall e, e ∈ entities r -> SyncServer.rows db !! id e = Some e /\ vault_id e ∈ V) /\
  (forall v c, cs !! v = Some c -> exists n, new_cursors r !! v = Some n /\ SyncServer.reached db v c n) /\
  (forall e c n, SyncServer.rows db !! id e = Some e -> cs !! vault_id e = Some c ->
     new_cursors r !! vault_id e = Some n -> seq e <= n -> seq e <= c \/ e ∈ entities r) /\
  (has_more r = true -> exists e c n, e ∈ entities r /\ cs !! vault_id e = Some c /\
     new_cursors r !! vault_id e = Some n /\ c < seq e <= n) /\
  (has_more r = false -> forall e c, SyncServer.rows db !! id e = Some e -> cs !! vault_id e = Some c ->
     exists n, new_cursors r !! vault_id e = Some n /\ seq e <= n).
Proof.
  intros Hdom r. destruct (SyncServer.pull_pulled_ok env db (mkPull cs batch) Hdb) as [_ Hf He _ _ Hfull Hall].
  fold r in Hf, He, Hfull, Hall. setoid_rewrite SyncServer.wanted_elem in He.
  assert (Hfrom : forall v c, cs !! v = Some c -> exists n, new_cursors r !! v = Some n /\ SyncServer.reached db v c n).
  { intros v c Hc. apply Hf. by apply SyncServer.wanted_elem. }
  assert (Howed : forall e c, SyncServer.rows db !! id e = Some e -> cs !! vault_id e = Some c -> c < seq e ->
    SyncServer.owed env db (vault_id e) c e).
  { intros e c Hs Hc ?. split_and!; [done..| |done]. apply HV, Hdom. eauto. }
  split_and!; [| done | | |].
  - intros e (c & n & Hc & _ & (Hs & _) & _)%He. split; [done|]. apply Hdom. cbn in Hc. eauto.
  - intros e c n Hs Hc Hn Hle. destruct (Z.le_gt_cases (seq e) c); [by left|]. right. apply He.
    exists c, n. split_and!; [done..|by apply Howed|done].
  - intros Hm. specialize (Hfull Hm). destruct (entities r) as [|e l] eqn:El.
    + pose proof (SyncServer.clamp_limit_bounds (limit (mkPull cs batch))) as [? _]. cbn [length] in Hfull. lia.
    + assert (e ∈ e :: l) as Hin by (by left). apply He in Hin as (c & n & Hc & Hn & (_ & _ & _ & ?) & ?).
      exists e, c, n. split_and!; try done. by left.
  - intros Hm e c Hs Hc. destruct (Hfrom _ _ Hc) as (n & Hn & Hr%SyncServer.reached_le). exists n. split; [done|].
    destruct (Z.le_gt_cases (seq e) c); [lia|].
    assert (e ∈ entities r) as Hin by (apply (Hall Hm (vault_id e) c); [by apply SyncServer.wanted_elem|by apply Howed]).
    apply He in Hin as (c' & n' & _ & Hn' & _ & ?). assert (n' = n) as -> by congruence. done.
Qed.

(** What a page does to the cursors. *)
Lemma page_cursors cs batch cs' : (forall v, v ∈ V <-> is_Some (cs !! v)) -> (forall v, v ∈ V <-> is_Some (cs' !! v)) ->
  let r := SyncServer.pull env db (mkPull cs batch) in
  (forall v, moved cs (new_cursors r) cs' v) ->
  (forall v c, cs !! v = Some c -> exists n, new_cursors r !! v = Some n /\ cs' !! v = Some n /\
     SyncServer.reached db v c n).
Proof.
  intros Hd Hd' r Hm v c Hc. destruct (response_facts cs batch Hd) as (_ & Hf & _).
  destruct (Hf _ _ Hc) as (n & Hn & Hr). exists n. split; [done|]. split; [|done].
  rewrite (Hm v c Hc n Hn). f_equal. apply Z.max_r. by eapply SyncServer.reached_le.
Qed.

Lemma round_in_sync cs batch cs' s : linked V s cs' -> (forall v, v ∈ V <-> is_Some (cs !! v)) ->
  let r := SyncServer.pull env db (mkPull cs batch) in
  (forall v, moved cs (new_cursors r) cs' v) ->
  (forall v c, cs !! v = Some c -> exists q, SyncServer.vault_seq db !! v = Some q /\ c <= q) ->
  mirror db V (fun e => below cs e \/ e ∈ entities r) s -> in_sync db V s cs'.
Proof.
  intros Hl Hd r Hm Hb Hmir. pose proof (page_cursors cs batch cs' Hd (li_dom _ _ _ Hl) Hm) as Hp.
  destruct (response_facts cs batch Hd) as (_ & _ & Hseen & _). fold r in Hseen. split; [done| |].
  - eapply mirror_weaken; [apply Hdb| |exact Hmir]. intros e He Hv (n' & Hn' & Hle).
    apply Hd in Hv as [c Hc]. destruct (Hp _ _ Hc) as (n & Hn & Hcs' & _).
    assert (n' = n) as -> by congruence.
    destruct (Hseen e c n He Hc Hn Hle); [left|by right]. by exists c.
  - intros v n Hn. assert (is_Some (cs !! v)) as [c Hc] by (apply Hd, (li_dom _ _ _ Hl); eauto).
    destruct (Hp _ _ Hc) as (n' & _ & Hcs' & Hr). assert (n' = n) as -> by congruence.
    destruct Hr as [->|[_ (e & He & <- & <-)]]; [by apply Hb|].
    by apply (SyncServer.di_rows _ Hdb) in He as [_ ?].
Qed.

Lemma round_progress cs batch cs' : (forall v, v ∈ V <-> is_Some (cs !! v)) -> (forall v, v ∈ V <-> is_Some (cs' !! v)) ->
  let r := SyncServer.pull env db (mkPull cs batch) in
  (forall v, moved cs (new_cursors r) cs' v) ->
  (has_more r = true -> (remaining db cs' < remaining db cs)%nat) /\
  (has_more r = false -> forall e, SyncServer.rows db !! id e = Some e -> vault_id e ∈ V -> below cs' e).
Proof.
  intros Hd Hd' r Hm. pose proof (page_cursors cs batch cs' Hd Hd' Hm) as Hp.
  destruct (response_facts cs batch Hd) as (Hin & _ & _ & Hmore & Hdone). fold r in Hp, Hin, Hmore, Hdone. split.
  - intros Hh. destruct (Hmore Hh) as (e & c & n & He & Hc & Hn & Hlt). unfold remaining.
    destruct (Hp _ _ Hc) as (n' & Hn' & Hcs' & _). assert (n' = n) as -> by congruence.
    apply (filter_length_lt _ _ _ e).
    + intros y _. unfold unseen. destruct (cs' !! vault_id y) as [m|] eqn:Em; [|done]. intros Hlt'.
      assert (is_Some (cs !! vault_id y)) as [d Hdv] by (apply Hd, Hd'; eauto). rewrite Hdv.
      destruct (Hp _ _ Hdv) as (m' & _ & Hm' & Hle%SyncServer.reached_le).
      assert (m' = m) as -> by congruence. lia.
    + apply stored_elem, Hin, He.
    + unfold unseen. rewrite Hc. lia.
    + unfold unseen. rewrite Hcs'. lia.
  - intros Hh e He [c Hc]%Hd. destruct (Hdone Hh e c He Hc) as (n & Hn & Hle).
    destruct (Hp _ _ Hc) as (n' & Hn' & Hcs' & _). assert (n' = n) as -> by congruence. by exists n.
Qed.

(** The loop ends, with everything seen. *)
Lemma pull_loop_ends opts fuel cs touched st : (remaining db cs < fuel)%nat -> remote st = db ->
  in_sync db V (store st) cs ->
  runs (@pull_loop Db (server env) opts fuel None cs touched) st (fun t st' => is_Some t /\ remote st' = db /\
    exists cs', in_sync db V (store st') cs' /\
      forall e, SyncServer.rows db !! id e = Some e -> vault_id e ∈ V -> below cs' e).
Proof.
  revert cs touched st. induction fuel as [|fuel IH]; intros cs touched st Hf Hr [Hl Hm Hb]; [lia|].
  pose proof (li_dom _ _ _ Hl) as Hd. cbn [pull_loop]. apply runs_bind.
  set (batch := Some (Z.of_nat (batch opts))). set (r := SyncServer.pull env db (mkPull cs batch)).
  exists r, st. split; [destruct st; cbn in Hr; by subst|].
  destruct (response_facts cs batch Hd) as (Hin & _). fold r in Hin.
  apply runs_bind. eapply runs_mono.
  { apply (pull_page_mirror db V (SyncServer.di_keyed _ Hdb) opts touched (below cs) (entities r)); [done| |done].
    intros v [c Hc]%Hd. destruct (li_row _ _ _ Hl _ _ Hc) as (row & ? & _). eauto. }
  intros touched' st1 [(Hr1 & Hv1 & _) Hm1]. cbn beta. apply runs_bind. eapply runs_mono.
  { apply (move_cursors V cs (new_cursors r) st1). split; [done|]. rewrite Hv1. apply Hl. }
  intros cs' st2 (Hr2 & He2 & Hl2 & Hmv). cbn beta.
  assert (in_sync db V (store st2) cs') as Hs2.
  { apply (round_in_sync cs batch cs'); try done. fold r. destruct Hm1 as [A B C]. split; rewrite ?He2; [done..|].
    unfold holds in *. rewrite He2. exact C. }
  destruct (round_progress cs batch cs' Hd (li_dom _ _ _ Hl2) Hmv) as [Hmore Hdone]. fold r in Hmore, Hdone.
  destruct (has_more r).
  - apply IH; [|congruence|done]. specialize (Hmore eq_refl). lia.
  - apply runs_ret. split; [done|]. split; [congruence|]. exists cs'. auto.
Qed.
End Pull.

(** ** Catching up with the server *)

(** The store holds the live rows of the vaults, and nothing else of them. *)
Record replica (db : Db) (V : gset uuid) (s : Store) : Prop := {
  rp_holds : forall i e, SyncServer.rows db !! i = Some e -> vault_id e ∈ V -> holds s e;
  rp_only : forall i r, ents s !! i = Some r -> ClientStore.vault_id r ∈ V ->
    exists e, SyncServer.rows db !! i = Some e /\ vault_id e = ClientStore.vault_id r /\ deleted e = false /\ agrees r e
}.

Definition ids_kept_apart (db : Db) (V : gset uuid) (s : Store) : Prop :=
  forall i r e, ents s !! i = Some r -> SyncServer.rows db !! i = Some e -> vault_id e ∈ V ->
    ClientStore.vault_id r ∈ V.

Lemma in_sync_grows db db' V s cs : SyncServer.db_grows db db' -> ids_kept_apart db' V s ->
  in_sync db V s cs -> in_sync db' V s cs.
Proof.
  intros [Hr Hn Hs] Hids [Hl [H1 H2 H3] Hb]. split; [done| |].
  - split; [|exact Hids|].
    + intros i r Hi Hv. destruct (H1 i r Hi Hv) as (Hd & e & He & Hve & Hle & Hsame). split; [done|].
      destruct (Hr i e He) as (e' & He' & Hve' & Hd'). exists e'. split; [done|]. split; [congruence|].
      destruct Hd' as [->|?]; [done|]. split; [lia|]. intros E. lia.
    + intros i e He Hv (c & Hc & Hle). destruct (Hn i e He) as [He0|Hnew]; [apply (H3 i); [done..|by exists c]|].
      destruct (Hb _ _ Hc) as (q & Hq & ?). specialize (Hnew q Hq). lia.
  - intros v c Hc. destruct (Hb _ _ Hc) as (q & Hq & ?). destruct (Hs _ _ Hq) as (q' & Hq' & ?).
    exists q'. split; [done|lia].
Qed.

Lemma seen_replica db V s cs : in_sync db V s cs ->
  (forall e, SyncServer.rows db !! id e = Some e -> vault_id e ∈ V -> below cs e) -> SyncServer.keyed db ->
  replica db V s.
Proof.
  intros [_ [H1 H2 H3] _] Hall Hk.
  assert (Hh : forall i e, SyncServer.rows db !! i = Some e -> vault_id e ∈ V -> holds s e).
  { intros i e He Hv. apply (H3 i); [done..|]. apply Hall; [|done]. by rewrite (Hk _ _ He). }
  split; [done|]. intros i r Hi Hv. destruct (H1 i r Hi Hv) as (_ & e & He & Hve & _).
  exists e. split; [done|]. split; [done|]. pose proof (Hh i e He ltac:(congruence)) as Hhe.
  unfold holds in Hhe. rewrite (Hk _ _ He), Hi in Hhe. destruct (deleted e); [done|].
  destruct Hhe as (r' & [= <-] & Ha). done.
Qed.

Lemma start_cursors_spec s vs : (forall v, v ∈ vs -> is_Some (vault_rows s !! v)) ->
  exists m, start_cursors s vs = Ok m /\
    (forall v, v ∈ vs -> m !! v = ClientStore.vr_cursor <$> (vault_rows s !! v)) /\
    (forall v, v ∉ vs -> m !! v = None).
Proof.
  induction vs as [|w vs IH]; intros Hv; cbn.
  - exists ∅. split; [done|]. split; [by intros v ?%elem_of_nil|]. intros v _. apply lookup_empty.
  - destruct (Hv w ltac:(by left)) as [r Hr]. unfold ClientStore.vault. cbn in Hr. rewrite Hr. cbn.
    destruct IH as (m & -> & H1 & H2); [intros v ?; apply Hv; by right|]. cbn.
    eexists. split; [done|]. split.
    + intros v Hin. destruct (decide (v = w)) as [->|?]; [rewrite lookup_insert_eq; cbn; by rewrite Hr|].
      rewrite lookup_insert_ne by done. apply H1. by apply elem_of_cons in Hin as [?|?].
    + intros v Hnot. rewrite lookup_insert_ne by (intros ->; apply Hnot; by left). apply H2. intros ?. apply Hnot. by right.
Qed.

Lemma start_cursors_linked s vs cs : linked (list_to_set vs) s cs -> start_cursors s vs = Ok cs.
Proof.
  intros [Hd Hl]. assert (Hcs : forall v, v ∈ vs <-> is_Some (cs !! v)).
  { intros v. rewrite <- Hd. symmetry. apply elem_of_list_to_set. }
  destruct (start_cursors_spec s vs) as (m & -> & H1 & H2).
  - intros v [c Hc]%Hcs. destruct (Hl _ _ Hc) as (r & ? & _). eauto.
  - f_equal. apply map_eq. intros v. destruct (decide (v ∈ vs)) as [Hv|Hv].
    + rewrite (H1 v Hv). apply Hcs in Hv as [c Hc]. rewrite Hc. destruct (Hl _ _ Hc) as (r & -> & <-). done.
    + rewrite (H2 v Hv). destruct (cs !! v) as [c|] eqn:E; [|done]. destruct Hv. apply Hcs. eauto.
Qed.

(** C2: A device without edits of its own that was in sync with the server at
    some point, and pulls after any further history of the server's tables,
    ends its pull with exactly the server's live rows of the wanted vaults
    (same payload, version, sequence number, key version; no row the server
    deleted), and is in sync for the next pull. The loop over the pages ends
    after at most one round more than there are rows. *)
Theorem replica_follows_server env db db' vs opts cs st :
  SyncServer.db_inv db' -> SyncServer.db_grows db db' -> sync_credentials opts = true ->
  (forall v, v ∈ vs -> SyncServer.readable env v = true) ->
  remote st = db' -> in_sync db (list_to_set vs) (store st) cs -> ids_kept_apart db' (list_to_set vs) (store st) ->
  runs (@pull_entities_into Db (server env) opts (S (length (stored db'))) vs) st (fun t st' =>
    is_Some t /\ remote st' = db' /\ replica db' (list_to_set vs) (store st') /\
    exists cs', in_sync db' (list_to_set vs) (store st') cs').
Proof.
  intros Hdb Hg Hcred HV Hr Hsync Hids. apply (in_sync_grows db db') in Hsync; [|done..].
  destruct vs as [|v vs].
  - apply runs_ret. split; [done|]. split; [done|]. split; [|by exists cs].
    split; [by intros i e _ ?%elem_of_empty|by intros i r _ ?%elem_of_empty].
  - unfold pull_entities_into. apply runs_bind. eapply runs_try_read; [by apply start_cursors_linked, Hsync|].
    apply runs_bind, runs_reads. unfold local_credentials_vault. rewrite Hcred.
    eapply runs_mono; [apply (pull_loop_ends env db' Hdb (list_to_set (v :: vs)))|].
    + intros w Hw%elem_of_list_to_set. by apply HV.
    + unfold remaining. pose proof (length_filter (unseen cs) (stored db')). lia.
    + done.
    + done.
    + intros t st' (Ht & Hr' & cs' & Hs & Hall). split_and!; [done|done| |by exists cs'].
      by eapply seen_replica; [..|apply Hdb].
Qed.

(** ** A device that pulls after an edit elsewhere *)

Definition ex_store : Store :=
  ClientStore.mkStore [] {[7%N := ClientStore.mkVaultRow ClientStore.Team "Ops" (Some 1%N) VaultAccess.Editor
    None 2 0 false 0 false]} ∅ ∅.
Definition ex_db' : Db := fst (SyncServer.push (SyncServer.ex_env 10) SyncServer.ex_db SyncServer.ex_req).
Definition ex_opts : SyncOptions := mkOptions NewestWins 1 true.

Lemma ex_in_sync : in_sync SyncServer.ex_db (list_to_set [7%N]) ex_store {[7%N := 0]}.
Proof.
  assert (Hv : forall v c, ({[7%N := 0]} : gmap uuid Z) !! v = Some c -> v = 7%N /\ c = 0).
  { intros v c [<- <-]%lookup_singleton_Some. done. }
  split; [split| |].
  - intros v. rewrite elem_of_list_to_set, list_elem_of_singleton. split; [intros ->; by eexists|].
    by intros [c [-> _]%Hv].
  - intros v c [-> ->]%Hv. by eexists.
  - split.
    + intros i r [=].
    + intros i r e [=].
    + intros i e He _ (c & [_ ->]%Hv & Hle). by apply SyncServer.ex_rows in He as [[-> ->]|[-> ->]].
  - intros v c [-> ->]%Hv. by exists 5.
Qed.

Lemma replica_follows_server_witness : exists touched st',
  @pull_entities_into Db (server (SyncServer.ex_env 9)) ex_opts (S (length (stored ex_db'))) [7%N]
    (mkSt ex_db' ex_store default_report) = (st', Ok (Some touched)) /\
  length (map_to_list (ents (store st'))) = 2%nat /\
  replica ex_db' (list_to_set [7%N]) (store st').
Proof.
  destruct (replica_follows_server (SyncServer.ex_env 9) SyncServer.ex_db ex_db' [7%N] ex_opts {[7%N := 0]}
    (mkSt ex_db' ex_store default_report)) as (t & st' & E & Ht & _ & Hrep & _).
  - apply SyncServer.push_tables, SyncServer.ex_db_inv.
  - apply SyncServer.push_tables, SyncServer.ex_db_inv.
  - reflexivity.
  - intros v ->%list_elem_of_singleton. vm_compute. reflexivity.
  - reflexivity.
  - exact ex_in_sync.
  - intros i r e [=].
  - destruct t as [touched|]; [|destruct (is_Some_None Ht)]. exists touched, st'. split; [exact E|].
    split; [|exact Hrep]. assert (st' = fst (@pull_entities_into Db (server (SyncServer.ex_env 9)) ex_opts
      (S (length (stored ex_db'))) [7%N] (mkSt ex_db' ex_store default_report))) as -> by (rewrite E; reflexivity).
    vm_compute. reflexivity.
Defined.
