(* ===== verification/LiveRelay.v ===== *)
(** * The live relay

    [crates/termoso-server/src/live.rs]: shared terminals. A host registers a
    session, everyone connects to its socket, and opaque frames travel over a
    bus (a Redis channel) to every connection, which decides what it passes on.
    Presence lives in a Redis hash per session, with a time to live.

    A connection runs [serve]: the checks and the entry in the hash ([join]),
    then the loop [pump], one arm of its [select!] at a time ([on_frame],
    [on_message], [on_tick]), then [leave]. [step] interleaves the connections
    of all API instances, each reading the bus at its own pace; a subscriber
    more than [BUS_CAPACITY] frames behind loses the oldest. A failing send ends
    the connection, which is the step [Drop_]. Times are in seconds. What the
    session validation, the users and the teams tables answer, the token hash,
    the JSON of the frames and base64 are the environment [Env]. *)
From S2P Require Import Prelude SyncTypes.

#[local] Open Scope string_scope.
#[local] Open Scope list_scope.
#[local] Open Scope Z_scope.

Definition SESSION_TTL : Z := 24 * 60 * 60.
Definition PRESENCE_TTL : Z := 6 * 60 * 60.
Definition IDLE_TIMEOUT : Z := 90.
Definition MAX_ACTIVE_PER_HOST : nat := 10.
(** [broadcast::channel(4096)] of [state.rs]. *)
Definition BUS_CAPACITY : nat := 4096.

(** ** The bus *)

Inductive BusKind : Type := BData | BPresence | BControl | BEnded.
Definition tag (k : BusKind) : Z := match k with BData => 0 | BPresence => 1 | BControl => 2 | BEnded => 3 end.
Definition from_tag (t : Z) : option BusKind :=
  match t with 0 => Some BData | 1 => Some BPresence | 2 => Some BControl | 3 => Some BEnded | _ => None end.

#[export] Instance BusKind_eq_dec : EqDecision BusKind.
Proof. solve_decision. Defined.

Record BusFrame := mkBus {
  b_session : uuid; b_from : uuid; b_to : option uuid; b_kind : BusKind; b_data : bytes
}.

(** [Uuid::as_bytes], [Uuid::from_slice] on 16 bytes, [Uuid::nil]. *)
Definition uuid_bytes (u : uuid) : bytes := be_bytes 16 (Z.of_N u).
Definition uuid_from (l : bytes) : uuid := Z.to_N (from_be l).
Definition nil_uuid : uuid := 0%N.

Definition encode (f : BusFrame) : bytes :=
  uuid_bytes (b_session f) ++ uuid_bytes (b_from f) ++ uuid_bytes (default nil_uuid (b_to f)) ++
  [tag (b_kind f)] ++ b_data f.

Definition decode (raw : bytes) : option BusFrame :=
  if (length raw <? 49)%nat then None
  else
    let uuid_at i := uuid_from (take 16 (drop (i * 16) raw)) in
    let to := uuid_at 2%nat in
    t ← raw !! 48%nat;
    kind ← from_tag t;
    Some (mkBus (uuid_at 0%nat) (uuid_at 1%nat) (if decide (to = nil_uuid) then None else Some to) kind (drop 49 raw)).

(** ** Messages of the socket *)

Record LiveParticipant := mkParticipant {
  lp_user : uuid; lp_email : string; lp_name : option string; lp_avatar : option string;
  lp_is_host : bool; lp_can_write : bool
}.
Inductive LiveClientMessage : Type :=
| Auth (token : string) (join_token : option string)
| Ping
| Control (user : uuid) (enabled : bool)
| Direct (user : uuid) (data : string).
Inductive LiveServerMessage : Type :=
| Hello (session user : uuid) (is_host : bool) (all : list LiveParticipant)
| Participants (all : list LiveParticipant)
| ControlIs (can_write : bool)
| Ended
| Pong
| Error (code message : string).

(** What a socket receives, and what is sent on it. *)
Inductive Message : Type := Text (t : string) | Binary (data : bytes) | Close | WsControl.
Inductive Out : Type := Send (m : LiveServerMessage) | SendBinary (data : bytes) | SendPing | Shut.

(** ** Tables and presence *)

Record Row := mkRow {
  host_user_id : uuid; join_token_hash : string; created_at : Z; expires_at : Z; ended_at : option Z
}.
Record Presence := mkPresence {
  p_user : uuid; p_email : string; p_name : option string; p_avatar : option string;
  p_is_host : bool; p_can_write : bool; p_conn : uuid; p_joined_at : Z
}.
Record Audit := mkAudit {
  a_team : uuid; a_actor : uuid; a_device : option uuid; a_action : string; a_user : uuid; a_session : uuid
}.

(** The sessions, the presence hash of each with the time it expires, the
    frames published so far (oldest first) and the audit rows. *)
Record Relay := mkRelay {
  sessions : gmap uuid Row; presence : gmap uuid (Z * gmap uuid Presence); bus : list BusFrame; audit : list Audit
}.
Definition with_presence (r : Relay) (f : gmap uuid (Z * gmap uuid Presence) -> gmap uuid (Z * gmap uuid Presence)) :=
  mkRelay (sessions r) (f (presence r)) (bus r) (audit r).
Definition publish (r : Relay) (f : BusFrame) : Relay :=
  mkRelay (sessions r) (presence r) (bus r ++ [f]) (audit r).

Record User := mkUser { email : string; display_name : option string; avatar_tag : option string }.
Record Info := mkInfo { user_id : uuid; device_id : uuid; bridge_id : option uuid; disabled : bool }.
Record Env := mkEnv {
  validate : string -> option Info;
  user_of : uuid -> option User;
  multiplayer_disabled : uuid -> bool;
  teams_of : uuid -> list uuid;
  hash_token : string -> string;
  parse : string -> option LiveClientMessage;
  b64_decode : string -> option bytes
}.

Inductive ApiError : Type :=
| Forbidden (m : string) | BadRequest (m : string) | ApiConflict (m : string) | NotFound (m : string)
| MultiplayerDisabled.

Definition active (row : Row) (now : Z) : bool := bool_decide (ended_at row = None) && (now <? expires_at row).

(** The hash of a session, gone once it has expired. *)
Definition members (r : Relay) (now : Z) (session : uuid) : gmap uuid Presence :=
  match presence r !! session with Some (until, m) => if now <? until then m else ∅ | None => ∅ end.
Definition hset (r : Relay) (now : Z) (session field : uuid) (p : Presence) : Relay :=
  with_presence r (<[session := (now + PRESENCE_TTL, <[field := p]> (members r now session))]>).
Definition hdel (r : Relay) (session user : uuid) : Relay :=
  with_presence r (alter (fun x => (fst x, delete user (snd x))) session).

Definition dto (p : Presence) : LiveParticipant :=
  mkParticipant (p_user p) (p_email p) (p_name p) (p_avatar p) (p_is_host p) (p_can_write p).

(** The host first, then by arrival. *)
Definition before (a b : Presence) : Prop :=
  (p_is_host a = true /\ p_is_host b = false) \/ (p_is_host a = p_is_host b /\ p_joined_at a <= p_joined_at b).
#[export] Instance before_dec a b : Decision (before a b).
Proof. unfold before. apply _. Defined.

Definition participants (r : Relay) (now : Z) (session : uuid) : list LiveParticipant :=
  map dto (merge_sort before (map snd (map_to_list (members r now session)))).

Definition presence_changed (r : Relay) (session by_ : uuid) : Relay :=
  publish r (mkBus session by_ None BPresence []).

Definition load (r : Relay) (id : uuid) : result ApiError Row :=
  ok_or (sessions r !! id) (NotFound "Live session").

Section Relay.
Context (env : Env).

Definition ensure_allowed (user : uuid) : result ApiError unit :=
  if multiplayer_disabled env user then Err MultiplayerDisabled else Ok ().

Definition audit_multiplayer (r : Relay) (host actor : uuid) (device : option uuid) (action : string)
    (session : uuid) : Relay :=
  mkRelay (sessions r) (presence r) (bus r)
    (audit r ++ map (fun t => mkAudit t actor device action host session) (teams_of env host)).

Definition end_session (r : Relay) (now : Z) (session by_ : uuid) : Relay :=
  let updated := match sessions r !! session with Some row => bool_decide (ended_at row = None) | None => false end in
  let set row := match ended_at row with
                 | None => mkRow (host_user_id row) (join_token_hash row) (created_at row) (expires_at row) (Some now)
                 | Some _ => row
                 end in
  let r := mkRelay (alter set session (sessions r)) (delete session (presence r)) (bus r) (audit r) in
  if updated then publish r (mkBus session by_ None BEnded []) else r.

(** ** REST *)

Definition running (r : Relay) (now : Z) (user : uuid) : list (uuid * Row) :=
  filter (fun p => host_user_id (snd p) = user /\ active (snd p) now = true) (map_to_list (sessions r)).

(** [POST /live]; [id] is the random id drawn. *)
Definition create (r : Relay) (now : Z) (user device id : uuid) (join_token : string) : result ApiError Relay :=
  _ ← ensure_allowed user;
  if (String.length join_token <? 32)%nat || (256 <? String.length join_token)%nat then
    Err (BadRequest "Invalid join token")
  else if (MAX_ACTIVE_PER_HOST <=? length (running r now user))%nat then
    Err (ApiConflict "Too many active multiplayer sessions")
  else
    let row := mkRow user (hash_token env join_token) now (now + SESSION_TTL) None in
    let r := mkRelay (<[id := row]> (sessions r)) (presence r) (bus r) (audit r) in
    Ok (audit_multiplayer r user user (Some device) "multiplayer.started" id).

(** [GET /live]: newest first. *)
Definition newer (a b : uuid * Row) : Prop := created_at (snd b) <= created_at (snd a).
#[export] Instance newer_dec a b : Decision (newer a b).
Proof. unfold newer. apply _. Defined.
Definition list_sessions (r : Relay) (now : Z) (user : uuid) : list (uuid * Row) :=
  merge_sort newer (running r now user).

(** [POST /live/{id}/stop]. *)
Definition stop (r : Relay) (now : Z) (user device id : uuid) : result ApiError Relay :=
  row ← load r id;
  if decide (host_user_id row = user) then
    Ok (audit_multiplayer (end_session r now id user) (host_user_id row) user (Some device)
          "multiplayer.stopped" id)
  else Err (Forbidden "Only the host can stop multiplayer").

(** ** A connection *)

Record Conn := mkConn {
  c_id : uuid; c_session : uuid; c_user : uuid; c_host_user : uuid; c_is_host : bool; c_can_write : bool
}.

Definition close_with (code message : string) : list Out := [Send (Error code message); Shut].

(** [serve] up to [pump]; [first] is the first frame when it came in time and
    [id] the connection's random id. The position is where its subscription to
    the bus starts. *)
Definition join (r : Relay) (now : Z) (session id : uuid) (first : option Message) :
    Relay * list Out * option (Conn * nat) :=
  match first with
  | Some (Text t) =>
      match parse env t with
      | Some (Auth token join_token) =>
          match validate env token with
          | Some i =>
              if disabled i || bool_decide (is_Some (bridge_id i)) then
                (r, close_with "unauthorized" "Invalid session", None)
              else
                match sessions r !! session with
                | None => (r, close_with "not_found" "Unknown session", None)
                | Some row =>
                    if negb (active row now) then (r, close_with "ended" "Multiplayer has ended", None)
                    else
                      let is_host := bool_decide (host_user_id row = user_id i) in
                      let ok := match join_token with
                                | Some t => bool_decide (hash_token env t = join_token_hash row)
                                | None => false
                                end in
                      if negb is_host && negb ok then (r, close_with "forbidden" "Invalid link", None)
                      else
                        match ensure_allowed (user_id i) with
                        | Err _ => (r, close_with "multiplayer_disabled" "Multiplayer is disabled for your team", None)
                        | Ok _ =>
                            match user_of env (user_id i) with
                            | None => (r, [], None)
                            | Some u =>
                                let p := mkPresence (user_id i) (email u) (display_name u) (avatar_tag u)
                                           is_host is_host id now in
                                let r := hset r now session (user_id i) p in
                                let r := if is_host then r else
                                  audit_multiplayer r (host_user_id row) (user_id i) (Some (device_id i))
                                    "multiplayer.joined" session in
                                let pos := length (bus r) in
                                let r := presence_changed r session (user_id i) in
                                (r, [Send (Hello session (user_id i) is_host (participants r now session))],
                                 Some (mkConn id session (user_id i) (host_user_id row) is_host is_host, pos))
                            end
                        end
                end
          | None => (r, close_with "unauthorized" "Invalid session", None)
          end
      | _ => (r, close_with "auth_required" "First frame must be auth", None)
      end
  | _ => (r, close_with "auth_required" "First frame must be auth", None)
  end.

(** [serve] after [pump]. *)
Definition leave (r : Relay) (now : Z) (c : Conn) : Relay :=
  match members r now (c_session c) !! c_user c with
  | Some p =>
      if decide (p_conn p = c_id c) then
        let r := hdel r (c_session c) (c_user c) in
        if c_is_host c then
          match sessions r !! c_session c with
          | Some _ => end_session r now (c_session c) (c_user c)
          | None => r
          end
        else presence_changed r (c_session c) (c_user c)
      else r
  | None => r
  end.

Definition set_control (r : Relay) (now : Z) (host : Conn) (user : uuid) (enabled : bool) : Relay :=
  match members r now (c_session host) !! user with
  | None => r
  | Some p =>
      if p_is_host p || Bool.eqb (p_can_write p) enabled then r
      else
        let p := mkPresence (p_user p) (p_email p) (p_name p) (p_avatar p) (p_is_host p) enabled (p_conn p)
                   (p_joined_at p) in
        presence_changed (hset r now (c_session host) user p) (c_session host) (c_user host)
  end.

(** A frame of the bus; the second component is the new write flag, [None]
    when the loop returns. *)
Definition on_frame (r : Relay) (now : Z) (c : Conn) (can_write : bool) (f : BusFrame) : list Out * option bool :=
  if negb (bool_decide (b_session f = c_session c)) then ([], Some can_write)
  else
    match b_kind f with
    | BData =>
        let for_me := match b_to f with
                      | Some to => bool_decide (to = c_user c) && negb (bool_decide (b_from f = c_user c))
                      | None => negb (c_is_host c) && bool_decide (b_from f = c_host_user c)
                      end in
        (if for_me then [SendBinary (b_data f)] else [], Some can_write)
    | BPresence =>
        let all := participants r now (c_session c) in
        match list_find (fun p => lp_user p = c_user c) all with
        | Some (_, me) =>
            if Bool.eqb (lp_can_write me) can_write then ([Send (Participants all)], Some can_write)
            else ([Send (ControlIs (lp_can_write me)); Send (Participants all)], Some (lp_can_write me))
        | None => ([Send (Participants all)], Some can_write)
        end
    | BControl =>
        if bool_decide (b_to f = Some (c_user c)) then
          let w := bool_decide (head (b_data f) = Some 1) in ([Send (ControlIs w)], Some w)
        else ([], Some can_write)
    | BEnded => ([Send Ended; Shut], None)
    end.

(** A message of the socket; the flag says whether the loop goes on. *)
Definition on_message (r : Relay) (now : Z) (c : Conn) (can_write : bool) (m : Message) : Relay * list Out * bool :=
  match m with
  | Binary data =>
      if c_is_host c then (publish r (mkBus (c_session c) (c_user c) None BData data), [], true)
      else if can_write then
        (publish r (mkBus (c_session c) (c_user c) (Some (c_host_user c)) BData data), [], true)
      else (r, [], true)
  | Text t =>
      match parse env t with
      | Some Ping => (r, [Send Pong], true)
      | Some (Control user enabled) =>
          if c_is_host c then (set_control r now c user enabled, [], true) else (r, [], true)
      | Some (Direct user data) =>
          if c_is_host c then
            match b64_decode env data with
            | None => (r, [], true)
            | Some b => (publish r (mkBus (c_session c) (c_user c) (Some user) BData b), [], true)
            end
          else (r, [], true)
      | Some (Auth _ _) => (r, close_with "protocol" "Already authenticated", false)
      | None => (r, close_with "protocol" "Malformed frame", false)
      end
  | Close => (r, [], false)
  | WsControl => (r, [], true)
  end.

Definition on_tick (idle : Z) : list Out * bool :=
  if IDLE_TIMEOUT <? idle then ([Shut], false) else ([SendPing], true).
End Relay.

(** ** The relay as a whole

    [l_pos] is how far a connection has read the bus. The log is a history of
    what matters to the theorems: who was let in with which first frame, what a
    host granted, which payload a connection was sent. *)

Record Live := mkLive { l_conn : Conn; l_write : bool; l_pos : nat }.
Inductive Event : Type :=
| Joined (c : Conn) (first : option Message)
| Granted (session user : uuid)
| Delivered (c : Conn) (f : BusFrame).

Record World := mkWorld { relay : Relay; lives : gmap uuid Live; log : list Event; clock : Z }.
Definition empty_world : World := mkWorld (mkRelay ∅ ∅ [] []) ∅ [] 0.

Section System.
Context (env : Env) (lossy : bool).

(** What a host's message grants. *)
Definition grants (c : Conn) (m : Message) : list Event :=
  match m with
  | Text t =>
      match parse env t with
      | Some (Control user true) => if c_is_host c then [Granted (c_session c) user] else []
      | _ => []
      end
  | _ => []
  end.
Definition deliveries (c : Conn) (f : BusFrame) (outs : list Out) : list Event :=
  match outs with SendBinary _ :: _ => [Delivered c f] | _ => [] end.

(** The connection [id] goes on with flag [w] at [pos], or is over. *)
Definition continue (w : World) (now : Z) (r : Relay) (id : uuid) (l : Live) (flag : option bool) (pos : nat)
    (evs : list Event) : World :=
  match flag with
  | Some b => mkWorld r (<[id := mkLive (l_conn l) b pos]> (lives w)) (log w ++ evs) now
  | None => mkWorld (leave r now (l_conn l)) (delete id (lives w)) (log w ++ evs) now
  end.

Inductive step : World -> World -> Prop :=
| Create w now user device id token r :
    clock w <= now -> sessions (relay w) !! id = None ->
    create env (relay w) now user device id token = Ok r ->
    step w (mkWorld r (lives w) (log w) now)
| Stop w now user device id r :
    clock w <= now -> stop env (relay w) now user device id = Ok r ->
    step w (mkWorld r (lives w) (log w) now)
| Join w now session id first r outs c pos :
    clock w <= now -> lives w !! id = None ->
    join env (relay w) now session id first = (r, outs, Some (c, pos)) ->
    step w (mkWorld r (<[id := mkLive c (c_can_write c) pos]> (lives w)) (log w ++ [Joined c first]) now)
| Refused w now session id first r outs :
    clock w <= now -> join env (relay w) now session id first = (r, outs, None) ->
    step w (mkWorld r (lives w) (log w) now)
| Frame w now id l f outs flag :
    clock w <= now -> lives w !! id = Some l -> bus (relay w) !! l_pos l = Some f ->
    on_frame (relay w) now (l_conn l) (l_write l) f = (outs, flag) ->
    step w (continue w now (relay w) id l flag (S (l_pos l)) (deliveries (l_conn l) f outs))
| Lagged w id l :
    lossy = true -> lives w !! id = Some l -> (l_pos l + BUS_CAPACITY < length (bus (relay w)))%nat ->
    step w (mkWorld (relay w)
              (<[id := mkLive (l_conn l) (l_write l) (length (bus (relay w)) - BUS_CAPACITY)]> (lives w))
              (log w) (clock w))
| Incoming w now id l m r outs (go : bool) :
    clock w <= now -> lives w !! id = Some l ->
    on_message env (relay w) now (l_conn l) (l_write l) m = (r, outs, go) ->
    step w (continue w now r id l (if go then Some (l_write l) else None) (l_pos l) (grants (l_conn l) m))
| Dropped w now id l :
    clock w <= now -> lives w !! id = Some l ->
    step w (continue w now (relay w) id l None (l_pos l) []).

Definition reachable : World -> Prop := rtc step empty_world.

(** ** Invariants *)

(** What never changes about a session: its host and the hash of its token. *)
Definition key (r : Relay) (s : uuid) : option (uuid * string) :=
  (fun row => (host_user_id row, join_token_hash row)) <$> sessions r !! s.

Definition frame_ok (lg : list Event) (k : uuid -> option (uuid * string)) (f : BusFrame) : Prop :=
  b_kind f <> BControl /\
  (b_kind f = BData -> exists h, k (b_session f) = Some h /\
     (b_from f = fst h \/ (b_to f = Some (fst h) /\ Granted (b_session f) (b_from f) ∈ lg))).

Definition presence_ok (lg : list Event) (k : uuid -> option (uuid * string)) (s u : uuid) (p : Presence) : Prop :=
  p_user p = u /\ exists h, k s = Some h /\ p_is_host p = bool_decide (fst h = u) /\
  (p_can_write p = true -> fst h = u \/ Granted s u ∈ lg).

(** The connection was let in properly. *)
Definition admitted (lg : list Event) (k : uuid -> option (uuid * string)) (c : Conn) : Prop :=
  exists h t token jt i, k (c_session c) = Some h /\ Joined c (Some (Text t)) ∈ lg /\
    parse env t = Some (Auth token jt) /\ validate env token = Some i /\ user_id i = c_user c /\
    disabled i = false /\ bridge_id i = None /\ multiplayer_disabled env (c_user c) = false /\
    (fst h = c_user c \/ exists secret, jt = Some secret /\ hash_token env secret = snd h).

Definition conn_ok (lg : list Event) (k : uuid -> option (uuid * string)) (c : Conn) : Prop :=
  admitted lg k c /\ exists h, k (c_session c) = Some h /\ c_host_user c = fst h /\
    c_is_host c = bool_decide (fst h = c_user c) /\ c_can_write c = c_is_host c.

Definition live_ok (lg : list Event) (k : uuid -> option (uuid * string)) (n : nat) (l : Live) : Prop :=
  conn_ok lg k (l_conn l) /\ (l_pos l <= n)%nat /\
  (l_write l = true -> c_is_host (l_conn l) = true \/ Granted (c_session (l_conn l)) (c_user (l_conn l)) ∈ lg).

(** Who may be sent what: a viewer only what the host wrote, the host only what
    viewers it gave control to wrote. *)
Definition delivery_ok (lg : list Event) (k : uuid -> option (uuid * string)) (c : Conn) (f : BusFrame) : Prop :=
  conn_ok lg k c /\ b_session f = c_session c /\
  if c_is_host c then b_from f <> c_user c /\ b_to f = Some (c_user c) /\ Granted (c_session c) (b_from f) ∈ lg
  else b_from f = c_host_user c /\ (b_to f = None \/ b_to f = Some (c_user c)).

Record relay_ok (lg : list Event) (r : Relay) : Prop := {
  ro_bus : forall f, f ∈ bus r -> frame_ok lg (key r) f;
  ro_presence : forall s t m u p, presence r !! s = Some (t, m) -> m !! u = Some p -> presence_ok lg (key r) s u p
}.

Record world_ok (w : World) : Prop := {
  wo_relay : relay_ok (log w) (relay w);
  wo_lives : forall id l, lives w !! id = Some l -> live_ok (log w) (key (relay w)) (length (bus (relay w))) l;
  wo_log : forall c f, Delivered c f ∈ log w -> delivery_ok (log w) (key (relay w)) c f
}.
End System.

(** ** What a relay keeps when it moves on *)

Definition extends (r r' : Relay) : Prop :=
  (forall s h, key r s = Some h -> key r' s = Some h) /\ bus r `prefix_of` bus r'.
#[export] Instance extends_preorder : PreOrder extends.
Proof.
  split; [by intros r; split|]. intros r1 r2 r3 [H1 H2] [H3 H4]. split; [naive_solver|by etrans].
Qed.

Lemma extends_same r r' : sessions r' = sessions r -> bus r' = bus r -> extends r r'.
Proof. intros E1 E2. split; [intros s h; unfold key; by rewrite E1|by rewrite E2]. Qed.
Lemma extends_publish r f : extends r (publish r f).
Proof. split; [done|]. by apply prefix_app_r. Qed.
Lemma extends_presence r f : extends r (with_presence r f).
Proof. by apply extends_same. Qed.
Lemma extends_audit env r h a d x s : extends r (audit_multiplayer env r h a d x s).
Proof. by apply extends_same. Qed.

Lemma key_end_session r now s b t : key (end_session r now s b) t = key r t.
Proof.
  unfold key. transitivity ((fun row => (host_user_id row, join_token_hash row)) <$>
    sessions (mkRelay (alter (fun row => match ended_at row with
      | None => mkRow (host_user_id row) (join_token_hash row) (created_at row) (expires_at row) (Some now)
      | Some _ => row end) s (sessions r)) (delete s (presence r)) (bus r) (audit r)) !! t).
  - unfold end_session. by destruct (match sessions r !! s with Some _ => _ | None => _ end).
  - cbn. destruct (decide (s = t)) as [->|Hn]; [|by rewrite lookup_alter_ne].
    rewrite lookup_alter_eq. destruct (sessions r !! t) as [row|]; [|done]. cbn. by destruct (ended_at row).
Qed.

Lemma extends_end_session r now s b : extends r (end_session r now s b).
Proof.
  split; [intros t h; by rewrite key_end_session|].
  unfold end_session. destruct (match sessions r !! s with Some _ => _ | None => _ end); [by apply prefix_app_r|done].
Qed.

Lemma extends_leave r now c : extends r (leave r now c).
Proof.
  unfold leave. destruct (members r now (c_session c) !! c_user c) as [p|]; [|done].
  destruct (decide (p_conn p = c_id c)); [|done].
  assert (extends r (hdel r (c_session c) (c_user c))) as H1 by apply extends_presence.
  destruct (c_is_host c); [|etrans; [exact H1|apply extends_publish]].
  destruct (sessions _ !! _); [|done]. etrans; [exact H1|apply extends_end_session].
Qed.

Lemma extends_set_control r now c u b : extends r (set_control r now c u b).
Proof.
  unfold set_control. destruct (members r now (c_session c) !! u) as [p|]; [|done].
  destruct (p_is_host p || Bool.eqb (p_can_write p) b); [done|].
  etrans; [apply extends_presence|apply extends_publish].
Qed.

#[export] Hint Resolve extends_publish extends_presence extends_audit extends_end_session extends_leave
  extends_set_control : termoso.

Lemma extends_message env r now c w m r' outs go : on_message env r now c w m = (r', outs, go) -> extends r r'.
Proof.
  destruct m as [t|data| |]; cbn; intros E.
  - destruct (parse env t) as [[]|]; repeat case_match; simplify_eq; auto with termoso; reflexivity.
  - repeat case_match; simplify_eq; auto with termoso; reflexivity.
  - by simplify_eq.
  - by simplify_eq.
Qed.

Lemma extends_create env r now user device id token r' : sessions r !! id = None ->
  create env r now user device id token = Ok r' -> extends r r'.
Proof.
  intros Hid. unfold create, ensure_allowed. destruct (multiplayer_disabled env user); [done|]. cbn [mbind result_bind].
  destruct ((String.length token <? 32)%nat || (256 <? String.length token)%nat); [done|].
  destruct (MAX_ACTIVE_PER_HOST <=? length (running r now user))%nat; [done|].
  intros [= <-].
  split; [|done]. intros s h Hs. unfold key in *. cbn [sessions audit_multiplayer].
  rewrite lookup_insert_ne; [exact Hs|]. intros ->. by rewrite Hid in Hs.
Qed.

Lemma extends_stop env r now user device id r' : stop env r now user device id = Ok r' -> extends r r'.
Proof.
  unfold stop, load. destruct (sessions r !! id) as [row|]; [|done]. cbn. case_decide; [|done].
  intros [= <-]. etrans; [apply extends_end_session|apply extends_audit].
Qed.

(** ** The invariant *)

Section Invariant.
Context (env : Env).

Lemma frame_ok_mono lg lg' k k' f : lg ⊆ lg' -> (forall s h, k s = Some h -> k' s = Some h) ->
  frame_ok lg k f -> frame_ok lg' k' f.
Proof. intros Hl Hk [H1 H2]. split; [done|]. intros (h & Hh & Hf)%H2. exists h. split; [auto|].
  destruct Hf as [?|[??]]; auto. Qed.

Lemma presence_ok_mono lg lg' k k' s u p : lg ⊆ lg' -> (forall s h, k s = Some h -> k' s = Some h) ->
  presence_ok lg k s u p -> presence_ok lg' k' s u p.
Proof.
  intros Hl Hk [H1 (h & H2 & H3 & H4)]. split; [done|]. exists h. split_and!; [auto|done|]. intros [?|?]%H4; auto.
Qed.

Lemma conn_ok_mono lg lg' k k' c : lg ⊆ lg' -> (forall s h, k s = Some h -> k' s = Some h) ->
  conn_ok env lg k c -> conn_ok env lg' k' c.
Proof.
  intros Hl Hk [(h & t & token & jt & i & H1 & H2 & H3) (h' & H4 & H5)]. split.
  - exists h, t, token, jt, i. split_and!; [auto|auto|apply H3..].
  - exists h'. auto.
Qed.

Lemma live_ok_mono lg lg' k k' n n' l : lg ⊆ lg' -> (forall s h, k s = Some h -> k' s = Some h) -> (n <= n')%nat ->
  live_ok env lg k n l -> live_ok env lg' k' n' l.
Proof.
  intros Hl Hk Hn (H1 & H2 & H3). split_and!; [by eapply conn_ok_mono|lia|]. intros [?|?]%H3; auto.
Qed.

Lemma delivery_ok_mono lg lg' k k' c f : lg ⊆ lg' -> (forall s h, k s = Some h -> k' s = Some h) ->
  delivery_ok env lg k c f -> delivery_ok env lg' k' c f.
Proof.
  intros Hl Hk (H1 & H2 & H3). split_and!; [by eapply conn_ok_mono|done|]. destruct (c_is_host c); [|done].
  destruct H3 as (? & ? & ?). auto.
Qed.

Lemma relay_ok_mono lg lg' r : lg ⊆ lg' -> relay_ok lg r -> relay_ok lg' r.
Proof.
  intros Hl [H1 H2]. split.
  - intros f Hf. eapply frame_ok_mono; [done| |by apply H1]. done.
  - intros s t m u p Hs Hm. eapply presence_ok_mono; [done| |by eapply H2]. done.
Qed.

(** A relay step that keeps the hashes and adds good frames. *)
Lemma relay_ok_step lg r r' : relay_ok lg r -> extends r r' ->
  (forall s t m u p, presence r' !! s = Some (t, m) -> m !! u = Some p ->
     (exists t m, presence r !! s = Some (t, m) /\ m !! u = Some p) \/ presence_ok lg (key r') s u p) ->
  (forall f, f ∈ bus r' -> f ∈ bus r \/ frame_ok lg (key r') f) -> relay_ok lg r'.
Proof.
  intros [H1 H2] [Hk _] Hp Hb. split.
  - intros f [Hf|Hf]%Hb; [|done]. eapply frame_ok_mono; [done|exact Hk|by apply H1].
  - intros s t m u p Hs Hm. destruct (Hp _ _ _ _ _ Hs Hm) as [(t' & m' & Hs' & Hm')|Hok]; [|done].
    eapply presence_ok_mono; [done|exact Hk|by eapply H2].
Qed.

Lemma relay_ok_publish lg r f : relay_ok lg r -> frame_ok lg (key r) f -> relay_ok lg (publish r f).
Proof.
  intros Hr Hf. eapply relay_ok_step; [done|apply extends_publish| |].
  - intros s t m u p Hs Hm. left. by exists t, m.
  - intros g [Hg|Hg]%elem_of_app; [by left|]. right. by apply list_elem_of_singleton in Hg as ->.
Qed.

Lemma relay_ok_note lg r s b k : relay_ok lg r -> k <> BControl -> k <> BData ->
  relay_ok lg (publish r (mkBus s b None k [])).
Proof. intros Hr H1 H2. by apply relay_ok_publish. Qed.

Lemma members_raw r now s u p : members r now s !! u = Some p ->
  exists t m, presence r !! s = Some (t, m) /\ m !! u = Some p /\ now < t /\ members r now s = m.
Proof.
  unfold members. destruct (presence r !! s) as [[t m]|]; [|done]. destruct (Z.ltb_spec now t); [|done]. eauto 6.
Qed.

Lemma relay_ok_hset lg r now s u p : relay_ok lg r -> presence_ok lg (key r) s u p -> relay_ok lg (hset r now s u p).
Proof.
  intros Hr Hp. eapply relay_ok_step; [done|apply extends_presence| |by left].
  intros s' t m u' p'. cbn. destruct (decide (s = s')) as [->|Hn]; [|rewrite lookup_insert_ne by done; left; eauto].
  rewrite lookup_insert_eq. intros [= <- <-]. destruct (decide (u = u')) as [->|Hn].
  - rewrite lookup_insert_eq. intros [= <-]. by right.
  - rewrite lookup_insert_ne by done. intros (t & m & Hm & Hu & _)%members_raw. left. eauto.
Qed.

Lemma relay_ok_hdel lg r s u : relay_ok lg r -> relay_ok lg (hdel r s u).
Proof.
  intros Hr. eapply relay_ok_step; [done|apply extends_presence| |by left].
  intros s' t m u' p'. cbn. destruct (decide (s = s')) as [->|Hn]; [|rewrite lookup_alter_ne by done; left; eauto].
  rewrite lookup_alter_eq. destruct (presence r !! s') as [[t0 m0]|]; [|done]. cbn. intros [= <- <-].
  intros [_ Hu]%lookup_delete_Some. left. eauto.
Qed.

Lemma relay_ok_audit lg r h a d x s : relay_ok lg r -> relay_ok lg (audit_multiplayer env r h a d x s).
Proof. intros [H1 H2]. by split. Qed.

Lemma relay_ok_end lg r now s b : relay_ok lg r -> relay_ok lg (end_session r now s b).
Proof.
  intros Hr. eapply relay_ok_step; [done|apply extends_end_session| |].
  - intros s' t m u p Hs Hm. left. exists t, m. split; [|done]. revert Hs. unfold end_session.
    destruct (match sessions r !! s with Some _ => _ | None => _ end); cbn; by intros [_ ?]%lookup_delete_Some.
  - intros f. unfold end_session.
    destruct (match sessions r !! s with Some _ => _ | None => _ end); cbn; [|by left].
    intros [Hf|Hf]%elem_of_app; [by left|]. right. by apply list_elem_of_singleton in Hf as ->.
Qed.

Lemma relay_ok_leave lg r now c : relay_ok lg r -> relay_ok lg (leave r now c).
Proof.
  intros Hr. unfold leave. destruct (members r now (c_session c) !! c_user c) as [p|]; [|done].
  destruct (decide (p_conn p = c_id c)); [|done]. apply (relay_ok_hdel _ _ (c_session c) (c_user c)) in Hr.
  destruct (c_is_host c); [|by apply relay_ok_note].
  destruct (sessions _ !! _); [by apply relay_ok_end|done].
Qed.

Definition conn_right (k : uuid -> option (uuid * string)) (c : Conn) : Prop :=
  exists h, k (c_session c) = Some h /\ c_host_user c = fst h /\ c_is_host c = bool_decide (fst h = c_user c).

Lemma relay_ok_set_control lg r now c u (b : bool) : relay_ok lg r ->
  (b = true -> Granted (c_session c) u ∈ lg) -> relay_ok lg (set_control r now c u b).
Proof.
  intros Hr Hb. unfold set_control. destruct (members r now (c_session c) !! u) as [p|] eqn:Hp; [|done].
  destruct (p_is_host p || Bool.eqb (p_can_write p) b); [done|].
  apply relay_ok_note; [|done|done]. apply relay_ok_hset; [done|].
  apply members_raw in Hp as (t & m & Hs & Hm & _). destruct Hr as [_ H2].
  destruct (H2 _ _ _ _ _ Hs Hm) as (Hu & h & Hh & Hi & _). split; [done|]. exists h. cbn. auto.
Qed.

Lemma relay_ok_message lg r now c w m r' outs go : relay_ok lg r -> conn_right (key r) c ->
  (w = true -> c_is_host c = true \/ Granted (c_session c) (c_user c) ∈ lg) ->
  on_message env r now c w m = (r', outs, go) -> relay_ok (lg ++ grants env c m) r'.
Proof.
  intros Hr (h & Hh & Hhost & His) Hw.
  assert (relay_ok (lg ++ grants env c m) r) as Hr' by (eapply relay_ok_mono; [|done]; apply list_subseteq_app_l; done).
  assert (c_is_host c = true -> c_user c = fst h) as Hme
    by (rewrite His; intros ?%bool_decide_eq_true; done).
  destruct m as [t|data| |]; cbn [on_message]; intros E; [| |by simplify_eq|by simplify_eq].
  - destruct (parse env t) as [m|] eqn:Hm; [|by simplify_eq].
    destruct m as [| |u b|u data]; [by simplify_eq|by simplify_eq| |];
      destruct (c_is_host c) eqn:Hc; try by simplify_eq.
    + simplify_eq. apply relay_ok_set_control; [done|]. intros ->. apply elem_of_app. right. cbn. rewrite Hm, Hc. by left.
    + destruct (b64_decode env data) as [bs|]; simplify_eq; [|done].
      apply relay_ok_publish; [done|]. split; [done|]. intros _. exists h. cbn. auto.
  - destruct (c_is_host c) eqn:Hc; [|destruct w]; simplify_eq; [| |done].
    + apply relay_ok_publish; [done|]. split; [done|]. intros _. exists h. cbn. auto.
    + apply relay_ok_publish; [done|]. split; [done|]. intros _. exists h. cbn. split; [done|]. right.
      rewrite Hhost. split; [done|]. apply elem_of_app. left. by destruct Hw.
Qed.

(** What [join] does when it lets a connection in. *)
Lemma join_inv r now s id first r' outs c pos : join env r now s id first = (r', outs, Some (c, pos)) ->
  exists t token jt i u row, first = Some (Text t) /\ parse env t = Some (Auth token jt) /\
    validate env token = Some i /\ disabled i = false /\ bridge_id i = None /\
    sessions r !! s = Some row /\ multiplayer_disabled env (user_id i) = false /\
    user_of env (user_id i) = Some u /\
    let is_host := bool_decide (host_user_id row = user_id i) in
    (is_host = true \/ exists secret, jt = Some secret /\ hash_token env secret = join_token_hash row) /\
    c = mkConn id s (user_id i) (host_user_id row) is_host is_host /\
    let r1 := hset r now s (user_id i)
      (mkPresence (user_id i) (email u) (display_name u) (avatar_tag u) is_host is_host id now) in
    let r2 := if is_host then r1 else
      audit_multiplayer env r1 (host_user_id row) (user_id i) (Some (device_id i)) "multiplayer.joined" s in
    pos = length (bus r) /\ r' = presence_changed r2 s (user_id i).
Proof.
  unfold join, ensure_allowed. destruct first as [[t| | |]|]; try done.
  destruct (parse env t) as [[token jt| | |]|] eqn:Hp; try done.
  destruct (validate env token) as [i|] eqn:Hv; [|done].
  destruct (disabled i) eqn:Hd; cbn [orb]; [done|].
  destruct (bool_decide_reflect (is_Some (bridge_id i))) as [|Hb]; [done|]. apply eq_None_not_Some in Hb.
  destruct (sessions r !! s) as [row|] eqn:Hs; [|done].
  destruct (active row now); cbn [negb]; [|done].
  destruct (negb _ && negb _) eqn:Hok; [done|].
  destruct (multiplayer_disabled env (user_id i)) eqn:Hm; [done|].
  destruct (user_of env (user_id i)) as [u|] eqn:Hu; [|done]. intros [= <- _ <- <-].
  exists t, token, jt, i, u, row. split_and!; try done.
  - apply andb_false_iff in Hok as [Hh%negb_false_iff|Ht%negb_false_iff]; [by left|]. right.
    destruct jt as [secret|]; [|done]. apply bool_decide_eq_true in Ht. eauto.
  - by destruct (bool_decide (host_user_id row = user_id i)).
Qed.

Lemma join_ok lg r now s id first r' outs c pos : relay_ok lg r ->
  join env r now s id first = (r', outs, Some (c, pos)) ->
  relay_ok lg r' /\ extends r r' /\ conn_ok env (lg ++ [Joined c first]) (key r') c /\
  (pos < length (bus r'))%nat /\ bus r' !! pos = Some (mkBus s (c_user c) None BPresence []).
Proof.
  intros Hr (t & token & jt & i & u & row & -> & Hp & Hv & Hd & Hb & Hs & Hm & Hu & Hok & -> & -> & ->)%join_inv.
  set (p := mkPresence _ _ _ _ _ _ _ _). set (r1 := hset _ _ _ _ _).
  assert (key r s = Some (host_user_id row, join_token_hash row)) as Hk by (unfold key; by rewrite Hs).
  assert (relay_ok lg r1 /\ extends r r1) as [H1 H2].
  { split; [|apply extends_presence]. apply relay_ok_hset; [done|]. split; [done|].
    eexists. split_and!; [exact Hk|done|]. cbn. intros ?%bool_decide_eq_true. by left. }
  assert (bus r1 = bus r) as Hbus by done.
  set (r2 := if bool_decide _ then _ else _).
  assert (relay_ok lg r2 /\ extends r r2 /\ bus r2 = bus r) as (H3 & H4 & H5).
  { unfold r2. case_bool_decide; [done|]. split_and!; [by apply relay_ok_audit|etrans; [done|apply extends_audit]|done]. }
  assert (extends r (presence_changed r2 s (user_id i))) as H6 by (etrans; [done|apply extends_publish]).
  split_and!; [by apply relay_ok_note|done| | |].
  - assert (key (presence_changed r2 s (user_id i)) s = Some (host_user_id row, join_token_hash row)) as Hk'
      by (by apply H6).
    split; [|exists (host_user_id row, join_token_hash row); by cbn].
    exists (host_user_id row, join_token_hash row), t, token, jt, i. cbn. split_and!; try done; [apply elem_of_app; right; by left|].
    destruct Hok as [?%bool_decide_eq_true|?]; [by left|by right].
  - cbn. rewrite H5, length_app. cbn. lia.
  - cbn. rewrite H5, lookup_app_r by lia. by rewrite Nat.sub_diag.
Qed.

Lemma join_refused r now s id first r' outs : join env r now s id first = (r', outs, None) -> r' = r.
Proof. unfold join. intros E. repeat case_match; by simplify_eq. Qed.

(** A payload is only passed on to the connections it is for. *)
Lemma on_frame_delivery lg r now c w f outs flag : relay_ok lg r -> conn_ok env lg (key r) c ->
  f ∈ bus r -> on_frame r now c w f = (outs, flag) ->
  forall c' f', Delivered c' f' ∈ deliveries c f outs -> delivery_ok env lg (key r) c' f'.
Proof.
  intros [Hr _] Hc Hf E c' f'. destruct (Hr _ Hf) as [_ Hd].
  pose proof Hc as (_ & h & Hh & Hhost & His & _).
  unfold on_frame in E. destruct (bool_decide_reflect (b_session f = c_session c)) as [Es|]; cbn [negb] in E;
    [|simplify_eq; by intros ?%elem_of_nil].
  destruct (b_kind f) eqn:Ek; try (repeat case_match; simplify_eq; by intros ?%elem_of_nil).
  destruct (Hd eq_refl) as (h' & Hh' & Hfrom). rewrite Es, Hh in Hh'. injection Hh' as <-.
  destruct (match b_to f with Some _ => _ | None => _ end) eqn:Em; simplify_eq; [|by intros ?%elem_of_nil].
  cbn [deliveries]. intros [= -> ->]%list_elem_of_singleton. split_and!; [done|done|].
  rewrite Es in Hfrom. destruct (b_to f) as [to|].
  - apply andb_true_iff in Em as [->%bool_decide_eq_true Hn%negb_true_iff%bool_decide_eq_false].
    rewrite His. case_bool_decide as Hhu.
    + split_and!; [done|done|]. destruct Hfrom as [Hfrom|[_ ?]]; [|done]. by rewrite Hfrom in Hn.
    + split; [|by right]. destruct Hfrom as [Hfrom|[[= Hu] _]]; congruence.
  - apply andb_true_iff in Em as [->%negb_true_iff ?%bool_decide_eq_true]. auto.
Qed.

(** The flag a presence frame leaves. *)
Lemma on_frame_write lg r now c w f outs b : relay_ok lg r -> conn_ok env lg (key r) c ->
  (w = true -> c_is_host c = true \/ Granted (c_session c) (c_user c) ∈ lg) ->
  f ∈ bus r -> on_frame r now c w f = (outs, Some b) ->
  b = true -> c_is_host c = true \/ Granted (c_session c) (c_user c) ∈ lg.
Proof.
  intros [Hr Hp] Hc Hw Hf E ->. destruct (Hr _ Hf) as [Hk _]. pose proof Hc as (_ & h & Hh & Hhost & His & _).
  unfold on_frame in E. destruct (negb _); [simplify_eq; auto|].
  destruct (b_kind f); [repeat case_match; simplify_eq; auto| |done|done].
  destruct (list_find _ _) as [[n me]|] eqn:Ef; [|simplify_eq; auto].
  destruct (Bool.eqb _ _); simplify_eq; [auto|].
  apply list_find_elem in Ef as [(p & -> & Hin)%list_elem_of_fmap Hu].
  rewrite merge_sort_Permutation in Hin. apply list_elem_of_fmap in Hin as ([u q] & -> & Hin).
  apply elem_of_map_to_list, members_raw in Hin as (t & m & Hs & Hm & _). cbn in *.
  destruct (Hp _ _ _ _ _ Hs Hm) as (<- & h' & Hh' & _ & Hcw).
  rewrite Hh in Hh'. injection Hh' as <-. rewrite Hu in Hcw.
  destruct Hcw as [?|?]; [done| |by right]. left. rewrite His. by apply bool_decide_eq_true.
Qed.

Lemma world_ok_later lg r r' ls now now' lg' : relay_ok lg' r' -> extends r r' -> lg ⊆ lg' ->
  (forall c f, Delivered c f ∈ lg' -> Delivered c f ∈ lg \/ delivery_ok env lg' (key r') c f) ->
  world_ok env (mkWorld r ls lg now) -> world_ok env (mkWorld r' ls lg' now').
Proof.
  intros Hr' [Hk Hb] Hl Hd [_ Hlv Hlog]. split; cbn in *; [done| |].
  - intros id l Hid. eapply live_ok_mono; [exact Hl|exact Hk| |by eapply Hlv]. by apply prefix_length.
  - intros c f [Hc|?]%Hd; [|done]. eapply delivery_ok_mono; [exact Hl|exact Hk|by apply Hlog].
Qed.

Lemma world_ok_lives r ls ls' lg now : world_ok env (mkWorld r ls lg now) ->
  (forall id l, ls' !! id = Some l -> ls !! id = Some l \/ live_ok env lg (key r) (length (bus r)) l) ->
  world_ok env (mkWorld r ls' lg now).
Proof. intros [Hr Hl Hlog] H. split; cbn in *; [done| |done]. intros id l [?|?]%H; eauto. Qed.

Lemma continue_ok w now r id l flag pos evs : world_ok env w -> extends (relay w) r ->
  relay_ok (log w ++ evs) r -> lives w !! id = Some l -> (pos <= length (bus r))%nat ->
  (forall c f, Delivered c f ∈ evs -> delivery_ok env (log w ++ evs) (key r) c f) ->
  (flag = Some true -> c_is_host (l_conn l) = true \/
     Granted (c_session (l_conn l)) (c_user (l_conn l)) ∈ log w ++ evs) ->
  world_ok env (continue w now r id l flag pos evs).
Proof.
  intros Hw He Hr Hl Hpos Hd Hf. destruct w as [r0 ls lg cl]. cbn [relay lives log] in *.
  pose proof (wo_lives _ _ Hw _ _ Hl) as (Hc & _). cbn in Hc.
  assert (lg ⊆ lg ++ evs) as Hsub by (intros e; rewrite elem_of_app; by left).
  destruct flag as [b|]; unfold continue; cbn [relay lives log].
  - apply (world_ok_lives r ls).
    + eapply world_ok_later; [exact Hr|exact He|done| |exact Hw]. intros c f [?|?]%elem_of_app; auto.
    + intros id' l' [[<- <-]|[_ ?]]%lookup_insert_Some; [right|by left].
      split_and!; [eapply conn_ok_mono; [exact Hsub|apply He|exact Hc]|done|]. cbn. intros ->. by apply Hf.
  - apply (world_ok_lives _ ls); [|intros id' l' [_ ?]%lookup_delete_Some; by left].
    eapply world_ok_later; [by apply relay_ok_leave|etrans; [exact He|apply extends_leave]|done| |exact Hw].
    intros c f [?|?]%elem_of_app; [by left|]. right.
    apply (delivery_ok_mono (lg ++ evs) _ (key r)); [done|apply (extends_leave r now (l_conn l))|by apply Hd].
Qed.

Lemma relay_ok_create lg r now user device id token r' : relay_ok lg r -> sessions r !! id = None ->
  create env r now user device id token = Ok r' -> relay_ok lg r' /\ extends r r'.
Proof.
  intros Hr Hid E. pose proof (extends_create _ _ _ _ _ _ _ _ Hid E) as He. split; [|done].
  unfold create, ensure_allowed in E. destruct (multiplayer_disabled env user); [done|]. cbn [mbind result_bind] in E.
  destruct ((String.length token <? 32)%nat || (256 <? String.length token)%nat); [done|].
  destruct (MAX_ACTIVE_PER_HOST <=? length (running r now user))%nat; [done|]. injection E as <-.
  eapply relay_ok_step; [done|done| |by left]. intros s t m u p Hs Hm. left. by exists t, m.
Qed.

Lemma relay_ok_stop lg r now user device id r' : relay_ok lg r ->
  stop env r now user device id = Ok r' -> relay_ok lg r' /\ extends r r'.
Proof.
  intros Hr E. pose proof (extends_stop _ _ _ _ _ _ _ E) as He. split; [|done].
  unfold stop, load in E. destruct (sessions r !! id) as [row|]; [|done]. cbn in E.
  case_decide; [|done]. injection E as <-. by apply relay_ok_audit, relay_ok_end.
Qed.

Lemma no_delivery_grants c m c' f : Delivered c' f ∉ grants env c m.
Proof. unfold grants. repeat case_match; rewrite ?list_elem_of_singleton, ?elem_of_nil; naive_solver. Qed.

Lemma step_ok lossy w w' : step env lossy w w' -> world_ok env w -> world_ok env w'.
Proof.
  intros Hs Hw. destruct Hs as
    [w now user device id token r _ Hid E|w now user device id r _ E|w now s id first r outs c pos _ Hid E
    |w now s id first r outs _ E|w now id l f outs flag _ Hl Hf E|w id l _ Hl Hlag
    |w now id l m r outs go _ Hl E|w now id l _ Hl]; pose proof (wo_relay _ _ Hw) as Hr.
  - destruct (relay_ok_create _ _ _ _ _ _ _ _ Hr Hid E). destruct w. eapply world_ok_later; eauto.
  - destruct (relay_ok_stop _ _ _ _ _ _ _ Hr E). destruct w. eapply world_ok_later; eauto.
  - destruct (join_ok _ _ _ _ _ _ _ _ _ _ Hr E) as (H1 & H2 & H3 & H4 & _). destruct w as [r0 ls lg cl].
    cbn [relay lives log] in *.
    assert (lg ⊆ lg ++ [Joined c first]) as Hsub by (intros e; rewrite elem_of_app; by left).
    apply (world_ok_lives _ ls).
    + eapply world_ok_later; [by eapply relay_ok_mono|done|done| |exact Hw].
      intros c' f [?|[=]%list_elem_of_singleton]%elem_of_app; by left.
    + intros id' l' [[<- <-]|[_ ?]]%lookup_insert_Some; [right|by left]. split_and!; [done|cbn; lia|].
      cbn. destruct H3 as [_ (h & _ & _ & _ & ->)]. by left.
  - apply join_refused in E as ->. destruct w. eapply world_ok_later; eauto; reflexivity.
  - pose proof (wo_lives _ _ Hw _ _ Hl) as (Hc & Hpos & Hwr).
    assert (f ∈ bus (relay w)) as Hin by (by eapply list_elem_of_lookup_2).
    assert (log w ⊆ log w ++ deliveries (l_conn l) f outs) as Hsub by (intros e; rewrite elem_of_app; by left).
    apply continue_ok; [done|done|by eapply relay_ok_mono|done|by eapply lookup_lt_Some| |].
    + intros c' f' Hd. eapply delivery_ok_mono; [exact Hsub|done|]. by eapply on_frame_delivery.
    + intros ->. destruct (on_frame_write _ _ _ _ _ _ _ _ Hr Hc Hwr Hin E eq_refl); [by left|right]. by apply Hsub.
  - destruct w as [r0 ls lg cl]. apply (world_ok_lives _ ls); [exact Hw|].
    intros id' l' [[<- <-]|[_ ?]]%lookup_insert_Some; [right|by left].
    pose proof (wo_lives _ _ Hw _ _ Hl) as (Hc & Hpos & Hwr). cbn in *. split_and!; [done|cbn; lia|done].
  - pose proof (wo_lives _ _ Hw _ _ Hl) as (Hc & Hpos & Hwr). pose proof (extends_message _ _ _ _ _ _ _ _ _ E) as He.
    assert (log w ⊆ log w ++ grants env (l_conn l) m) as Hsub by (intros e; rewrite elem_of_app; by left).
    apply continue_ok; [done|done| |done| | |].
    + destruct Hc as (_ & h & H1 & H2 & H3 & _). eapply relay_ok_message; [done|by exists h|done|done].
    + destruct He as [_ Hb%prefix_length]. lia.
    + by intros c' f' Hd%no_delivery_grants.
    + destruct go; [|done]. intros [= Hwt]. destruct (Hwr Hwt); [by left|right]. by apply Hsub.
  - pose proof (wo_lives _ _ Hw _ _ Hl) as (_ & Hpos & _).
    apply continue_ok; [done|done| |done|done| |done].
    + by rewrite app_nil_r.
    + by intros c' f' ?%elem_of_nil.
Qed.

Lemma reachable_ok lossy w : reachable env lossy w -> world_ok env w.
Proof.
  unfold reachable. intros Hr.
  assert (world_ok env empty_world) as H0.
  { split; cbn; [split; cbn| |].
    - by intros f ?%elem_of_nil.
    - intros s t m u p Hs. by rewrite lookup_empty in Hs.
    - intros id l Hl. by rewrite lookup_empty in Hl.
    - by intros c f ?%elem_of_nil. }
  revert H0. induction Hr; eauto using step_ok.
Qed.
End Invariant.
#[export] Hint Resolve relay_ok_hdel relay_ok_audit relay_ok_end relay_ok_leave relay_ok_note : termoso.

(** ** Control settles

    The write flag of a connection follows the presence entry of its user,
    unless a presence frame of its session is still to be read. *)

Definition pending (r : Relay) (l : Live) : Prop :=
  exists n f, (l_pos l <= n)%nat /\ bus r !! n = Some f /\ b_kind f = BPresence /\
    b_session f = c_session (l_conn l).
Definition settled (r : Relay) (now : Z) (l : Live) : Prop :=
  forall p, members r now (c_session (l_conn l)) !! c_user (l_conn l) = Some p ->
    l_write l = p_can_write p \/ pending r l.

(** Entries only change together with a presence frame. *)
Definition announced (r r' : Relay) (s : uuid) : Prop :=
  exists n f, (length (bus r) <= n)%nat /\ bus r' !! n = Some f /\ b_kind f = BPresence /\ b_session f = s.
Definition announcing (r : Relay) (now : Z) (r' : Relay) (now' : Z) : Prop :=
  extends r r' /\ forall s u p, members r' now' s !! u = Some p -> members r now s !! u = Some p \/ announced r r' s.

Lemma members_later r now now' s u p : now <= now' -> members r now' s !! u = Some p -> members r now s !! u = Some p.
Proof.
  intros Hn (t & m & Hs & Hm & Ht & _)%members_raw. unfold members. rewrite Hs.
  destruct (Z.ltb_spec now t); [done|lia].
Qed.

Lemma announcing_wait r now now' : now <= now' -> announcing r now r now'.
Proof. intros Hn. split; [done|]. intros s u p Hp. left. by eapply members_later. Qed.

Lemma announcing_trans r1 n1 r2 n2 r3 n3 :
  announcing r1 n1 r2 n2 -> announcing r2 n2 r3 n3 -> announcing r1 n1 r3 n3.
Proof.
  intros [H1 H2] [H3 H4]. split; [by etrans|]. destruct H1 as [_ Hb1%prefix_length], H3 as [_ Hb2].
  intros s u p [Hp|(n & f & Hn & Hf)]%H4; [|right; exists n, f; split; [lia|done]].
  destruct (H2 _ _ _ Hp) as [?|(n & f & Hn & Hf & Hk)]; [by left|]. right. exists n, f. split_and!; [done| |apply Hk..].
  by eapply prefix_lookup_Some.
Qed.

(** A write to the hash followed by its announcement. *)
Lemma announcing_note r now r1 s b : extends r r1 -> bus r1 = bus r ->
  (forall t u p, s <> t -> members r1 now t !! u = Some p -> members r now t !! u = Some p) ->
  announcing r now (presence_changed r1 s b) now.
Proof.
  intros He Hb Hm. split; [etrans; [exact He|apply extends_publish]|]. intros t u p Hp.
  destruct (decide (s = t)) as [->|Hn]; [right|left; by eapply Hm].
  exists (length (bus r)), (mkBus t b None BPresence []). split_and!; [done| |done|done].
  cbn. rewrite Hb, lookup_app_r by lia. by rewrite Nat.sub_diag.
Qed.

(** Only entries disappear. *)
Lemma announcing_less r now r' : extends r r' ->
  (forall s u p, members r' now s !! u = Some p -> members r now s !! u = Some p) -> announcing r now r' now.
Proof. intros He Hm. split; [done|]. intros s u p Hp. left. by apply Hm. Qed.

Lemma members_hset r now s u p t : s <> t -> members (hset r now s u p) now t = members r now t.
Proof. intros Hn. unfold members, hset. cbn. by rewrite lookup_insert_ne. Qed.
Lemma members_hdel r now s u t v p : members (hdel r s u) now t !! v = Some p -> members r now t !! v = Some p.
Proof.
  unfold members, hdel. cbn. destruct (decide (s = t)) as [->|Hn]; [|by rewrite lookup_alter_ne].
  rewrite lookup_alter_eq. destruct (presence r !! t) as [[e m]|]; [|done]. cbn.
  destruct (now <? e); [|done]. by intros [_ ?]%lookup_delete_Some.
Qed.
Lemma members_end_session r now s b t v p :
  members (end_session r now s b) now t !! v = Some p -> members r now t !! v = Some p.
Proof.
  assert (presence (end_session r now s b) = delete s (presence r)) as E.
  { unfold end_session. by destruct (match sessions r !! s with Some _ => _ | None => _ end). }
  unfold members. rewrite E. destruct (decide (s = t)) as [->|Hn]; [by rewrite lookup_delete_eq|].
  by rewrite lookup_delete_ne.
Qed.

Lemma announcing_leave r now c : announcing r now (leave r now c) now.
Proof.
  pose proof (extends_leave r now c) as He. revert He. unfold leave.
  destruct (members r now (c_session c) !! c_user c) as [p|]; [|by intros; apply announcing_wait].
  destruct (decide (p_conn p = c_id c)); [|by intros; apply announcing_wait].
  intros He. destruct (c_is_host c).
  - apply announcing_less; [done|]. intros s u q Hq. eapply members_hdel.
    destruct (sessions _ !! _); [by eapply members_end_session|done].
  - apply announcing_note; [apply extends_presence|done|]. intros t u q _. apply members_hdel.
Qed.

Lemma announcing_set_control r now c u b : announcing r now (set_control r now c u b) now.
Proof.
  unfold set_control. destruct (members r now (c_session c) !! u) as [p|]; [|by apply announcing_wait].
  destruct (p_is_host p || Bool.eqb (p_can_write p) b); [by apply announcing_wait|].
  apply announcing_note; [apply extends_presence|done|]. intros t v q Hn. by rewrite members_hset.
Qed.

Lemma announcing_publish r now f : announcing r now (publish r f) now.
Proof. by apply announcing_less; [apply extends_publish|]. Qed.

Lemma announcing_message env r now c w m r' outs go :
  on_message env r now c w m = (r', outs, go) -> announcing r now r' now.
Proof.
  assert (announcing r now r now) as Hr by (by apply announcing_wait).
  destruct m as [t|data| |]; cbn; intros E; [| |by simplify_eq|by simplify_eq].
  - destruct (parse env t) as [[]|]; repeat case_match; simplify_eq;
      auto using announcing_set_control, announcing_publish.
  - repeat case_match; simplify_eq; auto using announcing_publish.
Qed.

Lemma announcing_join env r now s id first r' outs c pos :
  join env r now s id first = (r', outs, Some (c, pos)) -> announcing r now r' now.
Proof.
  intros (t & token & jt & i & u & row & _ & _ & _ & _ & _ & _ & _ & _ & _ & _ & _ & ->)%join_inv.
  destruct (bool_decide _); (apply announcing_note; [|done|
    intros t' v q Hn; unfold members; cbn; by rewrite lookup_insert_ne]).
  - apply extends_presence.
  - etrans; [apply extends_presence|apply extends_audit].
Qed.

Lemma announcing_create env r now user device id token r' : sessions r !! id = None ->
  create env r now user device id token = Ok r' -> announcing r now r' now.
Proof.
  intros Hid E. apply announcing_less; [by eapply extends_create|].
  unfold create, ensure_allowed in E. destruct (multiplayer_disabled env user); [done|]. cbn [mbind result_bind] in E.
  destruct ((String.length token <? 32)%nat || (256 <? String.length token)%nat); [done|].
  destruct (MAX_ACTIVE_PER_HOST <=? length (running r now user))%nat; [done|]. by injection E as <-.
Qed.

Lemma announcing_stop env r now user device id r' : stop env r now user device id = Ok r' -> announcing r now r' now.
Proof.
  intros E. apply announcing_less; [by eapply extends_stop|].
  unfold stop, load in E. destruct (sessions r !! id) as [row|]; [|done]. cbn in E.
  case_decide; [|done]. injection E as <-. intros s u p. apply members_end_session.
Qed.

(** ** Settling, step by step *)

Lemma settled_later r now r' now' l : announcing r now r' now' -> (l_pos l <= length (bus r))%nat ->
  settled r now l -> settled r' now' l.
Proof.
  intros [[_ Hb] Ha] Hn Hs p Hp. destruct (Ha _ _ _ Hp) as [Hp'|(n & f & Hle & Hf)]; [|right; exists n, f; split; [lia|done]].
  destruct (Hs _ Hp') as [?|(n & f & Hle & Hf & Hk)]; [by left|]. right. exists n, f. split_and!; [done| |apply Hk..].
  by eapply prefix_lookup_Some.
Qed.

(** Reading a frame keeps a connection settled. *)
Lemma on_frame_settled env lg r now l f outs b : relay_ok lg r -> conn_ok env lg (key r) (l_conn l) ->
  bus r !! l_pos l = Some f -> on_frame r now (l_conn l) (l_write l) f = (outs, Some b) ->
  settled r now l -> settled r now (mkLive (l_conn l) b (S (l_pos l))).
Proof.
  intros Hr Hc Hf E Hs p Hp. cbn [l_conn l_write l_pos] in *.
  assert (b_session f = c_session (l_conn l) -> b_kind f = BPresence -> b = p_can_write p) as Hread.
  { intros Es Ek. unfold on_frame in E. rewrite Es, Ek, bool_decide_eq_true_2 in E by done. cbn [negb] in E.
    assert (forall q, q ∈ participants r now (c_session (l_conn l)) -> lp_user q = c_user (l_conn l) ->
      lp_can_write q = p_can_write p) as Hq.
    { intros q (p' & -> & Hin)%list_elem_of_fmap Hu. rewrite merge_sort_Permutation in Hin.
      apply list_elem_of_fmap in Hin as ([u p2] & -> & Hin). apply elem_of_map_to_list in Hin. cbn in *.
      pose proof (members_raw _ _ _ _ _ Hin) as (t & m & Hs' & Hm & _).
      destruct (ro_presence _ _ Hr _ _ _ _ _ Hs' Hm) as (<- & _). rewrite Hu, Hp in Hin. by injection Hin as <-. }
    destruct (list_find _ _) as [[n me]|] eqn:Ef.
    - apply list_find_elem in Ef as [Hin Hu]. specialize (Hq _ Hin Hu).
      destruct (Bool.eqb (lp_can_write me) (l_write l)) eqn:Eb; simplify_eq; [|done].
      apply eqb_prop in Eb. congruence.
    - exfalso. pose proof (members_raw _ _ _ _ _ Hp) as (t & m & Hs' & Hm & _).
      destruct (ro_presence _ _ Hr _ _ _ _ _ Hs' Hm) as (Hu & _).
      apply (list_find_none _ _ Ef (dto p)); [|done]. apply list_elem_of_fmap_2. rewrite merge_sort_Permutation.
      apply list_elem_of_fmap. exists (c_user (l_conn l), p). split; [done|]. by apply elem_of_map_to_list. }
  destruct (decide (b_session f = c_session (l_conn l) /\ b_kind f = BPresence)) as [[Es Ek]|Hn]; [left; by apply Hread|].
  assert (b = l_write l) as ->.
  { destruct (ro_bus _ _ Hr f) as [Hk _]; [by eapply list_elem_of_lookup_2|]. unfold on_frame in E.
    destruct (bool_decide_reflect (b_session f = c_session (l_conn l))) as [Es|]; cbn [negb] in E; [|by simplify_eq].
    destruct (b_kind f); [by simplify_eq|by destruct Hn|done|done]. }
  destruct (Hs _ Hp) as [?|(n & g & Hle & Hg & Hk)]; [by left|]. right. exists n, g. split_and!; [|done|apply Hk..].
  cbn. destruct (decide (n = l_pos l)) as [->|]; [|lia]. rewrite Hf in Hg. injection Hg as <-. destruct Hn. tauto.
Qed.

Definition all_settled (w : World) : Prop :=
  forall id l, lives w !! id = Some l -> settled (relay w) (clock w) l.

Lemma all_settled_later env w r now : world_ok env w -> announcing (relay w) (clock w) r now ->
  all_settled w -> forall id l, lives w !! id = Some l -> settled r now l.
Proof.
  intros Hw Ha Hs id l Hl. eapply settled_later; [exact Ha| |by eapply Hs]. by destruct (wo_lives _ _ Hw _ _ Hl) as (_ & ? & _).
Qed.

Lemma step_settled env w w' : step env false w w' -> world_ok env w -> all_settled w -> all_settled w'.
Proof.
  intros Hst Hw Hs.
  assert (forall now r, clock w <= now -> announcing (relay w) now r now -> announcing (relay w) (clock w) r now) as Hwait
    by (intros now r Hn; apply announcing_trans, announcing_wait, Hn).
  destruct Hst as
    [w now user device id token r Hn Hid E|w now user device id r Hn E|w now s id first r outs c pos Hn Hid E
    |w now s id first r outs Hn E|w now id l f outs flag Hn Hl Hf E|w id l Hlossy Hl Hlag
    |w now id l m r outs go Hn Hl E|w now id l Hn Hl]; try done.
  - exact (all_settled_later _ _ _ _ Hw (Hwait _ _ Hn (announcing_create _ _ _ _ _ _ _ _ Hid E)) Hs).
  - exact (all_settled_later _ _ _ _ Hw (Hwait _ _ Hn (announcing_stop _ _ _ _ _ _ _ E)) Hs).
  - intros id' l'. cbn [lives relay clock]. intros [[<- <-]|[_ Hl']]%lookup_insert_Some.
    + intros p _. right. destruct (join_ok _ _ _ _ _ _ _ _ _ _ _ (wo_relay _ _ Hw) E) as (_ & _ & _ & _ & Hb).
      apply join_inv in E as (t & token & jt & i & u & row & _ & _ & _ & _ & _ & _ & _ & _ & _ & -> & _).
      eexists pos, _. split_and!; [done|exact Hb|done|done].
    + exact (all_settled_later _ _ _ _ Hw (Hwait _ _ Hn (announcing_join _ _ _ _ _ _ _ _ _ _ E)) Hs _ _ Hl').
  - apply join_refused in E as ->.
    exact (all_settled_later _ _ _ _ Hw (announcing_wait _ _ _ Hn) Hs).
  - pose proof (all_settled_later _ _ _ _ Hw (announcing_wait _ _ _ Hn) Hs) as Hs'.
    pose proof (wo_lives _ _ Hw _ _ Hl) as (Hc & _). destruct flag as [b|]; intros id' l'; cbn [continue lives relay clock].
    + intros [[<- <-]|[_ Hl']]%lookup_insert_Some; [|by eapply Hs'].
      eapply on_frame_settled; [apply (wo_relay _ _ Hw)|exact Hc|done|done|by eapply Hs'].
    + intros [_ Hl']%lookup_delete_Some.
      exact (all_settled_later _ _ _ _ Hw (Hwait _ _ Hn (announcing_leave _ _ _)) Hs _ _ Hl').
  - pose proof (announcing_message _ _ _ _ _ _ _ _ _ E) as Ha. destruct go; intros id' l'; cbn [continue lives relay clock].
    + intros [[<- <-]|[_ Hl']]%lookup_insert_Some.
      * pose proof (all_settled_later _ _ _ _ Hw (Hwait _ _ Hn Ha) Hs _ _ Hl) as H. by destruct l.
      * exact (all_settled_later _ _ _ _ Hw (Hwait _ _ Hn Ha) Hs _ _ Hl').
    + intros [_ Hl']%lookup_delete_Some.
      exact (all_settled_later _ _ _ _ Hw (Hwait _ _ Hn (announcing_trans _ _ _ _ _ _ Ha (announcing_leave _ _ _)))
        Hs _ _ Hl').
  - intros id' l'. cbn [continue lives relay clock]. intros [_ Hl']%lookup_delete_Some.
    exact (all_settled_later _ _ _ _ Hw (Hwait _ _ Hn (announcing_leave _ _ _)) Hs _ _ Hl').
Qed.

Lemma reachable_settled env w : reachable env false w -> all_settled w.
Proof.
  unfold reachable. apply (rtc_ind_r (fun w => all_settled w)).
  - intros i l' Hl. cbn in Hl. by rewrite lookup_empty in Hl.
  - intros w1 w2 H1 H2 IH. eapply step_settled; [done|by eapply reachable_ok|done].
Qed.

(** ** Theorems *)

(** C18: whatever interleaving of connections, requests, lags and expiries, a
    connection is only sent what it may see. It was let in with a valid account
    session that is no bridge, multiplayer is not disabled for its user, and
    unless it is the host's it presented the link's join token. A viewer is only
    sent what the host wrote, to everybody or to that viewer; the host is only
    sent what viewers wrote to whom a host connection granted control before. *)
Theorem relay_delivers_only_as_granted env lossy w c f :
  reachable env lossy w -> Delivered c f ∈ log w -> delivery_ok env (log w) (key (relay w)) c f.
Proof. intros Hr%reachable_ok Hd. by apply (wo_log _ _ Hr). Qed.

(** C34: control settles: as long as no subscriber falls [BUS_CAPACITY] frames
    behind, a connection that has read the whole bus holds exactly the write
    permission the presence entry of its user says, so a revocation takes
    effect no later than that. *)
Theorem control_settles env w id l p : reachable env false w -> lives w !! id = Some l ->
  l_pos l = length (bus (relay w)) ->
  members (relay w) (clock w) (c_session (l_conn l)) !! c_user (l_conn l) = Some p ->
  l_write l = p_can_write p.
Proof.
  intros Hs%reachable_settled.
  intros Hl Hpos Hp. destruct (Hs _ _ Hl _ Hp) as [?|(n & f & Hn & Hf & _)]; [done|].
  apply lookup_lt_Some in Hf. lia.
Qed.

Lemma incoming env lossy w now id l m : clock w <= now -> lives w !! id = Some l ->
  let x := on_message env (relay w) now (l_conn l) (l_write l) m in
  step env lossy w (continue w now (fst (fst x)) id l (if snd x then Some (l_write l) else None) (l_pos l)
    (grants env (l_conn l) m)).
Proof. 
  intros Hn Hl x. apply (Incoming _ _ _ _ _ _ _ _ (snd (fst x))); [done|done|]. fold x. by destruct x as [[r o] g].
Qed.

(** A host can put any number of frames on the bus. *)
Lemma host_prints env lossy w now id l n : lives w !! id = Some l -> c_is_host (l_conn l) = true -> clock w <= now ->
  rtc (step env lossy) w (mkWorld (mkRelay (sessions (relay w)) (presence (relay w))
    (bus (relay w) ++ replicate n (mkBus (c_session (l_conn l)) (c_user (l_conn l)) None BData []))
    (audit (relay w))) (lives w) (log w) (if decide (n = 0%nat) then clock w else now)).
Proof.
  intros Hl Hh Hn. induction n as [|n IH].
  - rewrite app_nil_r, decide_True by done. by destruct w as [[] ? ? ?].
  - etrans; [exact IH|]. apply rtc_once. rewrite (decide_False (P := S n = 0%nat)) by done.
    set (w1 := mkWorld _ _ _ _). assert (lives w1 !! id = Some l) as Hl1 by done.
    assert (clock w1 <= now) as Hc by (cbn; case_decide; lia).
    pose proof (incoming env lossy w1 now id l (Binary []) Hc Hl1) as Hst. revert Hst.
    cbn [on_message]. rewrite Hh. unfold continue. cbn [fst snd grants].
    replace (<[id := mkLive (l_conn l) (l_write l) (l_pos l)]> (lives w1)) with (lives w1)
      by (symmetry; apply insert_id; by destruct l).
    rewrite app_nil_r. unfold publish, w1. cbn [relay sessions presence bus audit log lives].
    by rewrite <- app_assoc, <- replicate_S_end.
Qed.

(** a viewer that falls behind keeps the control it was told to give up. A
    host revokes the control of a viewer that has read everything and goes on
    printing; once [BUS_CAPACITY] frames lie behind the revocation, the viewer's
    subscription loses the presence frame that carried it ([Lagged] only logs and
    goes on): the entry says no control, nothing left on the bus says so, and
    what the viewer sends still goes to the host's terminal. *)
Theorem lagging_viewer_keeps_control env w now hid h vid v p t :
  reachable env true w -> clock w <= now ->
  lives w !! hid = Some h -> c_is_host (l_conn h) = true ->
  lives w !! vid = Some v -> c_is_host (l_conn v) = false -> c_session (l_conn v) = c_session (l_conn h) ->
  l_write v = true -> l_pos v = length (bus (relay w)) ->
  members (relay w) now (c_session (l_conn v)) !! c_user (l_conn v) = Some p ->
  p_is_host p = false -> p_can_write p = true ->
  parse env t = Some (Control (c_user (l_conn v)) false) ->
  exists w' v' q, reachable env true w' /\ lives w' !! vid = Some v' /\ l_conn v' = l_conn v /\ l_write v' = true /\
    members (relay w') (clock w') (c_session (l_conn v)) !! c_user (l_conn v) = Some q /\ p_can_write q = false /\
    (forall n f, (l_pos v' <= n)%nat -> bus (relay w') !! n = Some f -> b_kind f = BData) /\
    forall data, exists r outs, on_message env (relay w') (clock w') (l_conn v') (l_write v') (Binary data) =
        (r, outs, true) /\
      last (bus r) = Some (mkBus (c_session (l_conn v)) (c_user (l_conn v)) (Some (c_host_user (l_conn v))) BData data).
Proof.
  intros Hr Hn Hh Hhost Hv Hviewer Hsess Hw Hpos Hp Hph Hpw Ht.
  set (s := c_session (l_conn v)) in *. set (u := c_user (l_conn v)) in *.
  set (q := mkPresence (p_user p) (p_email p) (p_name p) (p_avatar p) false false (p_conn p) (p_joined_at p)).
  set (r1 := presence_changed (hset (relay w) now s u q) s (c_user (l_conn h))).
  set (w1 := mkWorld r1 (lives w) (log w) now).
  assert (step env true w w1) as H1.
  { pose proof (incoming env true w now hid h (Text t) Hn Hh) as Hst. revert Hst.
    cbn [on_message]. unfold grants, continue. rewrite Ht, Hhost. unfold set_control. rewrite <- Hsess. fold s.
    rewrite Hp, Hph, Hpw. cbn [orb Bool.eqb fst snd].
    rewrite app_nil_r, (insert_id (lives w)) by (by destruct h). done. }
  pose proof (host_prints env true w1 now hid h (S BUS_CAPACITY) Hh Hhost (Z.le_refl _)) as H2.
  rewrite decide_False in H2 by done. revert H2. set (w2 := mkWorld _ _ _ _). intros H2.
  assert (length (bus (relay w2)) = l_pos v + 2 + BUS_CAPACITY)%nat as Hlen.
  { cbn [w2 relay bus w1 r1 presence_changed publish hset with_presence].
    rewrite !length_app, length_replicate, Hpos. cbn [length]. lia. }
  pose proof (Lagged env true w2 vid v eq_refl Hv ltac:(rewrite Hlen; lia)) as H3.
  rewrite Hlen in H3. revert H3. set (v' := mkLive _ _ _). set (w3 := mkWorld _ _ _ _). intros H3.
  exists w3, v', q. split_and!; [|apply lookup_insert_eq|done|exact Hw| |done| |].
  - unfold reachable in *. etrans; [exact Hr|]. eapply rtc_l; [exact H1|]. etrans; [exact H2|]. by apply rtc_once.
  - unfold members. cbn. rewrite lookup_insert_eq. apply members_raw in Hp as (e & m & Hs & _ & He & _).
    unfold PRESENCE_TTL. destruct (Z.ltb_spec now (now + 6 * 60 * 60)); [|lia]. apply lookup_insert_eq.
  - intros n f. cbn [v' l_pos w3 relay bus w2 w1 r1 presence_changed publish hset with_presence].
    intros Hle Hf. rewrite lookup_app_r in Hf by (rewrite length_app; cbn [length]; lia).
    apply lookup_replicate in Hf as [-> _]. done.
  - intros data. cbn [on_message v' l_conn l_write]. rewrite Hviewer, Hw. eexists _, _. split; [done|].
    cbn [publish bus]. by rewrite last_snoc.
Qed.

(** ** The frames between instances *)

Definition is_uuid (u : uuid) : Prop := in_width 128 (Z.of_N u).

Lemma uuid_from_bytes u rest : is_uuid u -> uuid_from (take 16 (uuid_bytes u ++ rest)) = u.
Proof.
  intros Hu. unfold uuid_from, uuid_bytes. rewrite take_app_length' by (symmetry; apply length_be_bytes).
  rewrite from_be_be_bytes by exact Hu. apply N2Z.id.
Qed.

Lemma drop_uuid u rest : drop 16 (uuid_bytes u ++ rest) = rest.
Proof. unfold uuid_bytes. by rewrite drop_app_length' by (symmetry; apply length_be_bytes). Qed.

(** a frame put on the channel is read back by every instance, data of any
    length included; the one thing the layout cannot tell from a broadcast is a
    frame to the nil uuid. Anything shorter than its 49 byte header, or with an
    unknown kind, is no frame. *)
Theorem bus_frame_roundtrip f : is_uuid (b_session f) -> is_uuid (b_from f) ->
  is_uuid (default nil_uuid (b_to f)) ->
  decode (encode f) = Some (if decide (b_to f = Some nil_uuid)
    then mkBus (b_session f) (b_from f) None (b_kind f) (b_data f) else f) /\
  forall raw, decode raw = None <-> (length raw < 49)%nat \/ from_tag (nth 48 raw 0) = None.
Proof.
  intros Hs Hf Ht. split.
  - assert (length (encode f) = 49 + length (b_data f))%nat as Hlen.
    { unfold encode, uuid_bytes. rewrite !length_app, !length_be_bytes. cbn [length]. lia. }
    unfold decode. rewrite (proj2 (Nat.ltb_ge _ _)) by lia.
    assert (encode f !! 48%nat = Some (tag (b_kind f))) as ->.
    { unfold encode, uuid_bytes. do 3 (rewrite lookup_app_r by (rewrite !length_be_bytes; lia)).
      by rewrite !length_be_bytes. }
    cbn [mbind option_bind].
    assert (from_tag (tag (b_kind f)) = Some (b_kind f)) as -> by (by destruct (b_kind f)).
    change (2 * 16)%nat with (16 + 16)%nat. change (1 * 16)%nat with 16%nat. change (0 * 16)%nat with 0%nat.
    change 49%nat with (16 + (16 + (16 + 1)))%nat. rewrite <- !drop_drop, drop_0. unfold encode.
    rewrite !drop_uuid, !uuid_from_bytes by done. cbn [app drop].
    clear. destruct f as [? ? [to|] ? ?]; cbn; [|by rewrite decide_True].
    destruct (decide (to = nil_uuid)) as [->|]; [by rewrite !decide_True|].
    rewrite !decide_False by congruence. done.
  - intros raw. unfold decode. destruct (Nat.ltb_spec (length raw) 49) as [Hl|Hl].
    + split; [by left|done].
    + destruct (raw !! 48%nat) as [t|] eqn:E; [|apply lookup_ge_None in E; lia].
      erewrite nth_lookup_Some by exact E. cbn. destruct (from_tag t); cbn; split; auto; [done|].
      intros [?|?]; [lia|done].
Qed.

Lemma bus_frame_roundtrip_witness :
  decode (encode (mkBus 1%N 2%N (Some 3%N) BData [104; 105])) = Some (mkBus 1%N 2%N (Some 3%N) BData [104; 105]).
Proof.
  apply (bus_frame_roundtrip (mkBus 1%N 2%N (Some 3%N) BData [104; 105])); unfold is_uuid, in_width; cbn; lia.
Defined.

(** ** A run: a host shares, a viewer joins and is given control *)

Module Run.
Definition secret : string := "0123456789abcdef0123456789abcdef".
Definition env : Env := mkEnv
  (fun t => if String.eqb t "host" then Some (mkInfo 1%N 100%N None false)
            else if String.eqb t "viewer" then Some (mkInfo 2%N 200%N None false) else None)
  (fun u => Some (mkUser "a@b.c" None None)) (fun _ => false) (fun _ => [7%N]) (fun t => t)
  (fun t => if String.eqb t "h" then Some (Auth "host" None)
            else if String.eqb t "v" then Some (Auth "viewer" (Some secret))
            else if String.eqb t "grant" then Some (Control 2%N true)
            else if String.eqb t "revoke" then Some (Control 2%N false) else None)
  (fun _ => None).

Definition created : Relay :=
  match create env (relay empty_world) 0 1%N 100%N 9%N secret with Ok r => r | Err _ => relay empty_world end.
Definition w1 : World := mkWorld created ∅ [] 0.
(** [id] joins with its first frame. *)
Definition joins (w : World) (id : uuid) (first : option Message) : World :=
  match join env (relay w) 1 9%N id first with
  | (r, _, Some (c, pos)) =>
      mkWorld r (<[id := mkLive c (c_can_write c) pos]> (lives w)) (log w ++ [Joined c first]) 1
  | (r, _, None) => mkWorld r (lives w) (log w) 1
  end.
Definition w2 : World := joins w1 10%N (Some (Text "h")).
Definition w3 : World := joins w2 20%N (Some (Text "v")).
(** A message of [id], and [id] reading the next frame. *)
Definition says (w : World) (id : uuid) (m : Message) : World :=
  match lives w !! id with
  | Some l =>
      match on_message env (relay w) 1 (l_conn l) (l_write l) m with
      | (r, _, go) => continue w 1 r id l (if go then Some (l_write l) else None) (l_pos l) (grants env (l_conn l) m)
      end
  | None => w
  end.
Definition reads (w : World) (id : uuid) : World :=
  match lives w !! id with
  | Some l =>
      match bus (relay w) !! l_pos l with
      | Some f =>
          match on_frame (relay w) 1 (l_conn l) (l_write l) f with
          | (outs, flag) => continue w 1 (relay w) id l flag (S (l_pos l)) (deliveries (l_conn l) f outs)
          end
      | None => w
      end
  | None => w
  end.

Lemma joins_step lossy w id first : clock w <= 1 -> lives w !! id = None -> step env lossy w (joins w id first).
Proof.
  intros Hc Hl. unfold joins. destruct (join _ _ _ _ _ _) as [[r o] [[c pos]|]] eqn:E.
  - by apply Join with (now := 1) (session := 9%N) (outs := o).
  - by apply Refused with (now := 1) (session := 9%N) (id := id) (first := first) (outs := o).
Qed.
Lemma says_step lossy w id m : clock w <= 1 -> is_Some (lives w !! id) -> step env lossy w (says w id m).
Proof.
  intros Hc [l Hl]. unfold says. rewrite Hl. destruct (on_message _ _ _ _ _ _) as [[r o] go] eqn:E.
  by apply Incoming with (outs := o).
Qed.
Lemma reads_step lossy w id l f : clock w <= 1 -> lives w !! id = Some l -> bus (relay w) !! l_pos l = Some f ->
  step env lossy w (reads w id).
Proof.
  intros Hc Hl Hf. unfold reads. rewrite Hl, Hf. destruct (on_frame _ _ _ _ _) as [outs flag] eqn:E.
  by apply Frame with (f := f).
Qed.

Definition w4 : World := reads (reads (says w3 10%N (Text "grant")) 20%N) 20%N.
(** The viewer types and the host's connection reads on. *)
Definition w5 : World := reads (reads (reads (reads (says w4 20%N (Binary [108; 115])) 10%N) 10%N) 10%N) 10%N.

Ltac run := vm_compute; first [reflexivity | discriminate | eauto].
Lemma w4_reachable lossy : reachable env lossy w4.
Proof.
  unfold reachable. eapply rtc_l.
  { apply Create with (now := 0) (user := 1%N) (device := 100%N) (id := 9%N) (token := secret) (r := created); run. }
  eapply rtc_l; [apply (joins_step _ w1 10%N (Some (Text "h"))); run|].
  eapply rtc_l; [apply (joins_step _ w2 20%N (Some (Text "v"))); run|].
  eapply rtc_l; [apply (says_step _ w3 10%N (Text "grant")); run|].
  eapply rtc_l; [eapply (reads_step _ (says w3 10%N (Text "grant")) 20%N); run|].
  apply rtc_once. eapply (reads_step _ (reads (says w3 10%N (Text "grant")) 20%N) 20%N); run.
Qed.
Lemma w5_reachable lossy : reachable env lossy w5.
Proof.
  unfold reachable. etrans; [apply (w4_reachable lossy)|].
  eapply rtc_l; [apply (says_step _ w4 20%N (Binary [108; 115])); run|].
  do 3 (eapply rtc_l; [eapply (reads_step _ _ 10%N); run|]).
  apply rtc_once. eapply (reads_step _ _ 10%N); run.
Qed.
End Run.

Lemma relay_delivers_only_as_granted_witness :
  delivery_ok Run.env (log Run.w5) (key (relay Run.w5)) (mkConn 10%N 9%N 1%N 1%N true true)
    (mkBus 9%N 2%N (Some 1%N) BData [108; 115]).
Proof.
  apply (relay_delivers_only_as_granted Run.env false); [apply Run.w5_reachable|].
  vm_compute. repeat (apply list_elem_of_here || apply list_elem_of_further).
Defined.

Lemma control_settles_witness : exists l p, lives Run.w4 !! 20%N = Some l /\
  members (relay Run.w4) (clock Run.w4) 9%N !! 2%N = Some p /\ l_write l = true /\ l_write l = p_can_write p.
Proof.
  do 2 eexists. split_and!; [vm_compute; reflexivity|vm_compute; reflexivity|reflexivity|].
  eapply (control_settles Run.env Run.w4 20%N); [apply Run.w4_reachable|vm_compute; reflexivity..].
Defined.

Lemma lagging_viewer_keeps_control_witness : exists w' v' q, reachable Run.env true w' /\
  lives w' !! 20%N = Some v' /\ l_write v' = true /\
  members (relay w') (clock w') 9%N !! 2%N = Some q /\ p_can_write q = false.
Proof.
  destruct (lagging_viewer_keeps_control Run.env Run.w4 1 10%N (mkLive (mkConn 10%N 9%N 1%N 1%N true true) true 0) 20%N
    (mkLive (mkConn 20%N 9%N 2%N 1%N false false) true 3) (mkPresence 2%N "a@b.c" None None false true 20%N 1) "revoke")
    as (w' & v' & q & H1 & H2 & _ & H3 & H4 & H5 & _); try (vm_compute; first [reflexivity | discriminate]); [apply Run.w4_reachable|].
  exists w', v', q. split_and!; [exact H1|exact H2|exact H3|exact H4|exact H5].
Defined.
