(* ===== verification/LiveShare.v ===== *)
(** * Sharing a terminal

    The clients of the relay, [crates/termoso-core/src/live.rs]: the host's loop
    ([host_loop]) mirrors its terminal into sealed frames and applies what
    controlling viewers send, the viewer's terminal and loop ([ViewerTerminal],
    [viewer_loop]) do the reverse. Frames are those of [Envelope], relay messages
    those of [LiveRelay]. Each arm of a [select!] is a function to the new state
    and the effects in order; random nonces are drawn from an argument, sends
    that the code ignores the failure of are effects. The cipher, base64 and the
    JSON of [Meta] are parameters. Connecting and the link's URL are not
    modelled. *)
From Stdlib Require Ascii.
From S2P Require Import Prelude Text SyncTypes Envelope.
From S2P Require Telnet LiveRelay.
Import LiveRelay(LiveParticipant, lp_user, lp_is_host, LiveClientMessage, LiveServerMessage, uuid_from, uuid_bytes,
  uuid_from_bytes).

#[local] Open Scope string_scope.
#[local] Open Scope list_scope.
#[local] Open Scope Z_scope.

Abbreviation TermSize := Telnet.TermSize.
Abbreviation mkSize := Telnet.mkSize.

Definition REPLAY_BYTES : nat := Z.to_nat (128 * 1024).

Inductive LiveEvent : Type :=
| Participants (all : list LiveParticipant)
| Control (can_write : bool)
| Resized (cols rows : Z)
| Title (title : string)
| Typing (user : uuid)
| Ended (reason message : string).

Record Meta := mkMeta { m_cols : option Z; m_rows : option Z; m_title : option string; m_typing : option uuid }.

(** [typing_due] at [now], in milliseconds: whether, and the new time. *)
Definition typing_due (at_ : option Z) (now : Z) : bool * option Z :=
  match at_ with
  | Some t => if sat_sub now t <? 1000 then (false, at_) else (true, Some now)
  | None => (true, Some now)
  end.

Inductive Incoming : Type := Msg (m : LiveServerMessage) | Frame (b : bytes) | Closed.

Section Share.
Context (seal unseal : bytes -> bytes -> bytes -> bytes -> option bytes).
Context (b64_encode : bytes -> string) (meta_json : Meta -> bytes) (meta_parse : bytes -> option Meta).
Context (key : bytes) (sid : string).

(** ** The host *)

Inductive HostCmd : Type :=
| CmdOutput (b : bytes) | CmdResize (size : TermSize) | CmdTitle (title : string)
| CmdControl (user : uuid) (enabled : bool) | CmdTyping | CmdStop.

Record HostLoop := mkHost {
  size : TermSize; title : string; seen : gset uuid; me : uuid; controllers : gset uuid; replay : bytes
}.
Definition with_size (h : HostLoop) (s : TermSize) : HostLoop :=
  mkHost s (title h) (seen h) (me h) (controllers h) (replay h).

(** What the loop does to the relay, the terminal, the server and the UI. *)
Inductive Fx : Type :=
| FxFrame (f : bytes) | FxMsg (m : LiveClientMessage) | FxWrite (data : bytes) | FxResize (s : TermSize)
| FxEvent (e : LiveEvent) | FxStopSession.

Definition host_seal (k : FrameKind) (nonce payload : bytes) : result CryptoError bytes :=
  seal_frame seal key sid FromHost k nonce payload.
Definition meta (h : HostLoop) (nonce : bytes) : result CryptoError bytes :=
  host_seal Envelope.Meta nonce
    (meta_json (mkMeta (Some (Telnet.cols (size h))) (Some (Telnet.rows (size h))) (Some (title h)) None)).
Definition typing_frame (user : uuid) (nonce : bytes) : result CryptoError bytes :=
  host_seal Envelope.Meta nonce (meta_json (mkMeta None None None (Some user))).

(** [if let Ok(f) = … { let _ = socket.send_frame(f).await; }] *)
Definition send_ok (f : result CryptoError bytes) : list Fx := match f with Ok f => [FxFrame f] | Err _ => [] end.

(** The last [REPLAY_BYTES] bytes. *)
Definition keep_recent (b : bytes) : bytes := drop (length b - REPLAY_BYTES) b.

Definition disconnected : string * string := ("disconnected", "Lost connection to the relay").
Definition stopped : string * string := ("stopped", "Multiplayer stopped").

(** A command; [alive] says whether the relay task still takes messages. The
    last component is set when the loop ends. *)
Definition on_cmd (rnd : nat -> bytes) (alive : bool) (h : HostLoop) (cmd : HostCmd) :
    HostLoop * list Fx * option (string * string) :=
  match cmd with
  | CmdOutput b =>
      let h := mkHost (size h) (title h) (seen h) (me h) (controllers h) (keep_recent (replay h ++ b)) in
      match host_seal Output (rnd 0%nat) b with
      | Ok f => if alive then (h, [FxFrame f], None) else (h, [], Some disconnected)
      | Err _ => (h, [], None)
      end
  | CmdResize s => let h := with_size h s in (h, send_ok (meta h (rnd 0%nat)), None)
  | CmdTitle t =>
      let h := mkHost (size h) t (seen h) (me h) (controllers h) (replay h) in
      (h, send_ok (meta h (rnd 0%nat)), None)
  | CmdTyping => (h, send_ok (typing_frame (me h) (rnd 0%nat)), None)
  | CmdControl user enabled =>
      (mkHost (size h) (title h) (seen h) (me h)
         (if enabled then {[user]} ∪ controllers h else controllers h ∖ {[user]}) (replay h),
       [FxMsg (LiveRelay.Control user enabled)], None)
  | CmdStop => (h, [FxStopSession], Some stopped)
  end.

(** [Uuid::from_slice]. *)
Definition uuid_slice (b : bytes) : option uuid := if (length b =? 16)%nat then Some (uuid_from b) else None.

(** A frame of a viewer. *)
Definition on_viewer_frame (rnd : nat -> bytes) (h : HostLoop) (b : bytes) : HostLoop * list Fx :=
  match open_frame unseal key sid FromViewer b with
  | Ok (Input, data) => (h, [FxWrite data])
  | Ok (Envelope.Typing, data) =>
      match uuid_slice data with
      | Some user =>
          if decide (user ∈ seen h) then
            (h, FxEvent (Typing user) :: send_ok (typing_frame user (rnd 0%nat)))
          else (h, [])
      | None => (h, [])
      end
  | Ok (Envelope.Resize, data) =>
      if (length data =? 20)%nat then
        let cols := Z.max (from_be (take 2 (drop 16 data))) 2 in
        let rows := Z.max (from_be (drop 18 data)) 1 in
        match uuid_slice (take 16 data) with
        | Some user =>
            if bool_decide (user ∈ controllers h) &&
               (negb (Telnet.cols (size h) =? cols) || negb (Telnet.rows (size h) =? rows)) then
              let h := with_size h (mkSize cols rows) in
              (h, FxResize (mkSize cols rows) :: send_ok (meta h (rnd 0%nat)) ++ [FxEvent (Resized cols rows)])
            else (h, [])
        | None => (h, [])
        end
      else (h, [])
  | Ok _ => (h, [])
  | Err _ => (h, [])
  end.

(** What a participant not seen before is sent. *)
Definition catch_up (rnd : nat -> bytes) (h : HostLoop) (user : uuid) : list Fx :=
  let direct f := match f with Ok f => [FxMsg (LiveRelay.Direct user (b64_encode f))] | Err _ => [] end in
  direct (meta h (rnd 0%nat)) ++
  (if decide (replay h = []) then [] else direct (host_seal Output (rnd 1%nat) (replay h))).

Fixpoint greet (rnd : nat -> bytes) (h : HostLoop) (all : list LiveParticipant) : HostLoop * list Fx :=
  match all with
  | [] => (h, [])
  | p :: all' =>
      if negb (lp_is_host p) && negb (bool_decide (lp_user p ∈ seen h)) then
        let h' := mkHost (size h) (title h) ({[lp_user p]} ∪ seen h) (me h) (controllers h) (replay h) in
        let fx := catch_up rnd h' (lp_user p) in
        let '(h'', fx') := greet (fun n => rnd (2 + n)%nat) h' all' in
        (h'', fx ++ fx')
      else greet rnd h all'
  end.

Definition on_incoming (rnd : nat -> bytes) (h : HostLoop) (i : Incoming) :
    HostLoop * list Fx * option (string * string) :=
  match i with
  | Frame b => let '(h, fx) := on_viewer_frame rnd h b in (h, fx, None)
  | Msg (LiveRelay.Participants all) =>
      let '(h, fx) := greet rnd h all in (h, fx ++ [FxEvent (Participants all)], None)
  | Msg LiveRelay.Ended => (h, [], Some stopped)
  | Msg (LiveRelay.Error _ _) => (h, [], Some ("error", "Relay error"))
  | Msg _ => (h, [], None)
  | Closed => (h, [], Some disconnected)
  end.

(** One round of the loop: the arm that is ready, and its random bytes. *)
Inductive Arm : Type :=
| InCmd (rnd : nat -> bytes) (alive : bool) (cmd : HostCmd) | InRelay (rnd : nat -> bytes) (i : Incoming).
Definition round (h : HostLoop) (i : Arm) : HostLoop * list Fx * option (string * string) :=
  match i with InCmd rnd alive c => on_cmd rnd alive h c | InRelay rnd i => on_incoming rnd h i end.

Fixpoint host_loop (h : HostLoop) (ins : list Arm) : HostLoop * list Fx :=
  match ins with
  | [] => (h, [])
  | i :: ins' =>
      match round h i with
      | (h, fx, Some (reason, message)) => (h, fx ++ [FxEvent (Ended reason message)])
      | (h, fx, None) => let '(h, fx') := host_loop h ins' in (h, fx ++ fx')
      end
  end.

(** [HostShare::start]'s loop: everybody present at the handshake is seen. *)
Definition host_start (s : TermSize) (t : string) (user : uuid) (all : list LiveParticipant) : HostLoop :=
  mkHost s t (list_to_set (map lp_user all)) user ∅ [].

(** ** The viewer *)

Definition viewer_seal (k : FrameKind) (nonce payload : bytes) : result CryptoError bytes :=
  seal_frame seal key sid FromViewer k nonce payload.

(** [ViewerTerminal::write]: the frames queued, the answer and the time of the
    last typing notice; [room] says whether the queue takes a notice. *)
Definition viewer_write (rnd : nat -> bytes) (can_write room : bool) (user : uuid) (at_ : option Z) (now : Z)
    (data : bytes) : list bytes * result CryptoError unit * option Z :=
  if negb can_write then ([], Ok tt, at_)
  else
    match viewer_seal Envelope.Input (rnd 0%nat) data with
    | Err e => ([], Err e, at_)
    | Ok f =>
        match typing_due at_ now with
        | (false, at_) => ([f], Ok tt, at_)
        | (true, at_) =>
            match viewer_seal Envelope.Typing (rnd 1%nat) (uuid_bytes user) with
            | Ok g => (if room then [f; g] else [f], Ok tt, at_)
            | Err e => ([f], Err e, at_)
            end
        end
    end.

(** [ViewerTerminal::resize]. *)
Definition viewer_resize (rnd : nat -> bytes) (can_write : bool) (user : uuid) (s : TermSize) :
    result CryptoError (list bytes) :=
  if negb can_write then Ok []
  else
    f ← viewer_seal Envelope.Resize (rnd 0%nat)
          (uuid_bytes user ++ be_bytes 2 (Telnet.cols s) ++ be_bytes 2 (Telnet.rows s));
    Ok [f].

Inductive ViewerFx : Type :=
| VOutput (b : bytes) | VFrame (f : bytes) | VEvent (e : LiveEvent) | VNotice (message : string) | VClosed.

(** A message of the relay: the new flag, the effects, and whether it ends. *)
Definition viewer_incoming (can_write : bool) (i : Incoming) : bool * list ViewerFx * option (string * string) :=
  match i with
  | Frame b =>
      match open_frame unseal key sid FromHost b with
      | Ok (Output, data) => (can_write, [VOutput data], None)
      | Ok (Envelope.Meta, data) =>
          match meta_parse data with
          | Some m =>
              (can_write,
               match m_cols m, m_rows m with Some c, Some r => [VEvent (Resized c r)] | _, _ => [] end ++
               match m_title m with Some t => [VEvent (Title t)] | None => [] end ++
               match m_typing m with Some u => [VEvent (Typing u)] | None => [] end, None)
          | None => (can_write, [], None)
          end
      | Ok _ => (can_write, [], None)
      | Err _ => (can_write, [], None)
      end
  | Msg (LiveRelay.Participants all) => (can_write, [VEvent (Participants all)], None)
  | Msg (LiveRelay.ControlIs w) => (w, [VEvent (Control w)], None)
  | Msg LiveRelay.Ended => (can_write, [], Some ("stopped", "The host stopped multiplayer"))
  | Msg (LiveRelay.Error _ message) => (can_write, [], Some ("error", message))
  | Msg _ => (can_write, [], None)
  | Closed => (can_write, [], Some disconnected)
  end.

(** After the loop. *)
Definition crlf : string := String (Ascii.ascii_of_nat 13) (String (Ascii.ascii_of_nat 10) "").
Definition viewer_end (ended : option (string * string)) : list ViewerFx :=
  match ended with
  | Some (reason, message) => [VEvent (Ended reason message); VNotice (crlf +:+ "[" +:+ message +:+ "]" +:+ crlf)]
  | None => []
  end ++ [VClosed].

(** The arm that is ready: the relay ([tab] says whether the terminal's tab
    still takes output), a queued frame ([alive] as for the host), the queue
    closed or the tab cancelled. *)
Inductive ViewerArm : Type := VRelay (i : Incoming) (tab : bool) | VQueued (f : bytes) (alive : bool) | VCancelled.
Definition is_output (fx : list ViewerFx) : bool := match fx with VOutput _ :: _ => true | _ => false end.

Fixpoint viewer_loop (can_write : bool) (ins : list ViewerArm) : list ViewerFx :=
  match ins with
  | [] => []
  | VRelay i tab :: ins' =>
      match viewer_incoming can_write i with
      | (w, fx, None) => if is_output fx && negb tab then viewer_end None else fx ++ viewer_loop w ins'
      | (_, fx, Some e) => fx ++ viewer_end (Some e)
      end
  | VQueued f alive :: ins' =>
      if alive then VFrame f :: viewer_loop can_write ins' else viewer_end (Some disconnected)
  | VCancelled :: _ => viewer_end None
  end.
End Share.

(** ** The state of the host's loop *)

Section Host.
Context (seal unseal : bytes -> bytes -> bytes -> bytes -> option bytes).
Context (b64_encode : bytes -> string) (meta_json : Meta -> bytes) (key : bytes) (sid : string).
Abbreviation on_cmd := (on_cmd seal meta_json key sid).
Abbreviation on_viewer_frame := (on_viewer_frame seal unseal meta_json key sid).
Abbreviation greet := (greet seal b64_encode meta_json key sid).
Abbreviation on_incoming := (on_incoming seal unseal b64_encode meta_json key sid).
Abbreviation round := (round seal unseal b64_encode meta_json key sid).

Definition run (h : HostLoop) (ins : list Arm) : HostLoop := fold_left (fun h i => fst (fst (round h i))) ins h.

(** What was printed, and the last word on a viewer's control. *)
Definition printed (ins : list Arm) : bytes :=
  flat_map (fun i => match i with InCmd _ _ (CmdOutput b) => b | _ => [] end) ins.
Definition control_of (user : uuid) (ins : list Arm) : bool :=
  fold_left (fun b i => match i with
    | InCmd _ _ (CmdControl u e) => if decide (u = user) then e else b
    | _ => b
    end) ins false.

Lemma keep_recent_app a b : keep_recent (keep_recent a ++ b) = keep_recent (a ++ b).
Proof.
  unfold keep_recent. destruct (decide (length a <= REPLAY_BYTES)%nat) as [Hl|Hl].
  - by replace (length a - REPLAY_BYTES)%nat with 0%nat by lia.
  - rewrite !length_app, length_drop.
    rewrite <- (drop_app_le a b (length a - REPLAY_BYTES)) by lia. rewrite drop_drop. f_equal. lia.
Qed.

Lemma keep_recent_bound b : (length (keep_recent b) <= REPLAY_BYTES)%nat.
Proof. unfold keep_recent. rewrite length_drop. lia. Qed.

Lemma replay_bytes_pos : (0 < REPLAY_BYTES)%nat.
Proof. unfold REPLAY_BYTES. lia. Qed.

Lemma keep_recent_nil b : keep_recent b = [] -> b = [].
Proof.
  intros E%(f_equal length). unfold keep_recent in E. rewrite length_drop in E.
  pose proof replay_bytes_pos. destruct b as [|x b]; [done|]. exfalso. change (length (@nil Z)) with 0%nat in E.
  assert (length (x :: b) <> 0%nat) by done. lia.
Qed.

(** What the loop's relay side leaves alone. *)
Lemma viewer_frame_state rnd h b h' fx : on_viewer_frame rnd h b = (h', fx) ->
  replay h' = replay h /\ controllers h' = controllers h /\ seen h' = seen h.
Proof. unfold on_viewer_frame. intros E. repeat case_match; by simplify_eq. Qed.

Lemma greet_state rnd h all h' fx : greet rnd h all = (h', fx) ->
  replay h' = replay h /\ controllers h' = controllers h /\ seen h ⊆ seen h' /\ size h' = size h /\ title h' = title h.
Proof.
  revert rnd h h' fx. induction all as [|p all IH]; intros rnd h h' fx; cbn; [by intros [= <- <-]|].
  destruct (negb (lp_is_host p) && _); [|apply IH].
  destruct (greet _ _ all) as [h2 fx2] eqn:E. intros [= <- <-]. apply IH in E as (? & ? & Hs & ? & ?). cbn in *.
  split_and!; try done. intros u Hu. apply Hs. by apply elem_of_union_r.
Qed.

Lemma incoming_state rnd h i h' fx e : on_incoming rnd h i = (h', fx, e) ->
  replay h' = replay h /\ controllers h' = controllers h /\ seen h ⊆ seen h'.
Proof.
  destruct i as [m|b|]; cbn; [|destruct (on_viewer_frame rnd h b) as [h2 fx2] eqn:E|by intros [= <- _ _]].
  - destruct m as [|all| | | |]; try by intros [= <- _ _].
    destruct (greet rnd h all) as [h2 fx2] eqn:E. intros [= <- _ _]. apply greet_state in E. tauto.
  - intros [= <- _ _]. apply viewer_frame_state in E as (? & ? & ->). done.
Qed.

Lemma cmd_state rnd alive h c h' fx e : on_cmd rnd alive h c = (h', fx, e) ->
  replay h' = match c with CmdOutput b => keep_recent (replay h ++ b) | _ => replay h end /\
  controllers h' = match c with
                   | CmdControl u true => {[u]} ∪ controllers h
                   | CmdControl u false => controllers h ∖ {[u]}
                   | _ => controllers h
                   end /\ seen h' = seen h.
Proof.
  destruct c as [b|s|t|u en| |]; cbn; try by intros [= <- _ _].
  intros E. destruct (host_seal _ _ _); [destruct alive|]; by injection E as <- _ _.
Qed.

Lemma run_snoc h ins i : run h (ins ++ [i]) = fst (fst (round (run h ins) i)).
Proof. unfold run. by rewrite fold_left_app. Qed.

Lemma run_replay h ins : replay h = [] -> replay (run h ins) = keep_recent (printed ins).
Proof.
  intros Hh. induction ins as [|i ins IH] using rev_ind; [done|].
  rewrite run_snoc. unfold printed. rewrite flat_map_app. fold (printed ins). cbn [flat_map]. rewrite app_nil_r.
  destruct (round (run h ins) i) as [[h' fx] e] eqn:E. cbn [fst].
  destruct i as [rnd alive c|rnd inc]; cbn [round] in E.
  - apply cmd_state in E as (-> & _). destruct c; rewrite ?IH, ?app_nil_r; try done. apply keep_recent_app.
  - apply incoming_state in E as (-> & _). by rewrite IH, app_nil_r.
Qed.

Lemma run_controllers h ins user : controllers h = ∅ ->
  user ∈ controllers (run h ins) <-> control_of user ins = true.
Proof.
  intros Hh. induction ins as [|i ins IH] using rev_ind; [cbn; by rewrite Hh, elem_of_empty|].
  rewrite run_snoc. unfold control_of. rewrite fold_left_app. fold (control_of user ins). cbn [fold_left].
  destruct (round (run h ins) i) as [[h' fx] e] eqn:E. cbn [fst].
  destruct i as [rnd alive c|rnd inc]; cbn [round] in E.
  - apply cmd_state in E as (_ & -> & _). destruct c as [| | |u [|]| |]; try exact IH; rewrite ?elem_of_union, ?elem_of_difference, elem_of_singleton, IH; case_decide; intuition congruence.
  - apply incoming_state in E as (_ & -> & _). exact IH.
Qed.
End Host.

(** ** From one terminal to the other *)

Section EndToEnd.
Context (seal unseal : bytes -> bytes -> bytes -> bytes -> option bytes).
Context (b64_encode : bytes -> string) (b64_decode : string -> option bytes).
Context (meta_json : Meta -> bytes) (meta_parse : bytes -> option Meta) (key : bytes) (sid : string).
Context (laws : cipher_laws seal unseal b64_encode b64_decode).
Context (meta_law : forall m, meta_parse (meta_json m) = Some m).
Context (sealing : forall n a m, is_Some (seal key n a m)).

Lemma open_seal d k nonce p f : length nonce = NONCE_LEN -> seal_frame seal key sid d k nonce p = Ok f ->
  open_frame unseal key sid d f = Ok (k, p).
Proof.
  intros Hn Hf. unfold open_frame. rewrite (decrypt_encrypt seal unseal b64_encode b64_decode laws _ _ _ _ _ Hn Hf).
  cbn. by rewrite from_tag_tag.
Qed.

Lemma seal_ok d k nonce p : length nonce = NONCE_LEN -> exists f,
  seal_frame seal key sid d k nonce p = Ok f /\ open_frame unseal key sid d f = Ok (k, p).
Proof.
  intros Hn. destruct (sealing nonce (as_bytes (aad sid d)) ([tag k] ++ p)) as [c Hc].
  exists ([ENVELOPE_V1] ++ nonce ++ c).
  assert (seal_frame seal key sid d k nonce p = Ok ([ENVELOPE_V1] ++ nonce ++ c)) as E.
  { unfold seal_frame, encrypt. by rewrite Hc. }
  split; [exact E|by eapply open_seal].
Qed.

(** C27: two terminals joined by the relay behave as one: what the host's
    terminal prints comes out of the viewer's as the same bytes; what a viewer
    in control types goes into the host's terminal as the same bytes, followed
    at most by a notice that somebody types, which writes nothing; a viewer
    without control sends nothing. *)
Theorem shared_terminal_end_to_end rnd h data (w room : bool) user at_ now :
  (forall n, length (rnd n) = NONCE_LEN) ->
  (exists f, on_cmd seal meta_json key sid rnd true h (CmdOutput data) =
       (mkHost (size h) (title h) (seen h) (me h) (controllers h) (keep_recent (replay h ++ data)), [FxFrame f], None) /\
     viewer_incoming unseal meta_parse key sid w (Frame f) = (w, [VOutput data], None)) /\
  (exists f gs at', viewer_write seal key sid rnd true room user at_ now data = (f :: gs, Ok tt, at') /\
     (forall rnd', on_viewer_frame seal unseal meta_json key sid rnd' h f = (h, [FxWrite data])) /\
     forall g rnd' h' x, g ∈ gs -> ~ FxWrite x ∈ snd (on_viewer_frame seal unseal meta_json key sid rnd' h' g)) /\
  viewer_write seal key sid rnd false room user at_ now data = ([], Ok tt, at_).
Proof.
  intros Hn. split_and!; [| |done].
  - destruct (seal_ok FromHost Output (rnd 0%nat) data (Hn _)) as (f & Hf & Ho). exists f. cbn.
    unfold host_seal. by rewrite Hf, Ho.
  - destruct (seal_ok FromViewer Input (rnd 0%nat) data (Hn _)) as (f & Hf & Ho).
    destruct (seal_ok FromViewer Envelope.Typing (rnd 1%nat) (uuid_bytes user) (Hn _)) as (g & Hg & Hog).
    unfold viewer_write, viewer_seal. cbn [negb]. rewrite Hf.
    assert (forall rnd', on_viewer_frame seal unseal meta_json key sid rnd' h f = (h, [FxWrite data])) as Hw
      by (intros rnd'; unfold on_viewer_frame; by rewrite Ho).
    destruct (typing_due at_ now) as [[|] at'].
    + rewrite Hg. exists f, (if room then [g] else []), at'. split_and!; [by destruct room|done|].
      intros g' rnd' h' x Hg'. assert (g' = g) as -> by (destruct room; [by apply list_elem_of_singleton in Hg'|by apply elem_of_nil in Hg']).
      unfold on_viewer_frame, send_ok. rewrite Hog.
      repeat case_match; cbn; rewrite ?elem_of_cons, ?elem_of_nil; intros Hx; repeat destruct Hx as [Hx|Hx]; done.
    + exists f, [], at'. split_and!; [done|done|]. by intros g' rnd' h' x ?%elem_of_nil.
Qed.

(** a participant the host has not seen before is caught up: the relay is
    asked to hand that participant two frames, from which the viewer's side
    learns the size and the title and prints the last [REPLAY_BYTES] bytes the
    host's terminal has printed so far. *)
Theorem late_joiner_sees_recent_output s t user all0 ins p before after rnd (w : bool) :
  (forall n, length (rnd n) = NONCE_LEN) ->
  let h := run seal unseal b64_encode meta_json key sid (host_start s t user all0) ins in
  lp_is_host p = false -> lp_user p ∉ seen h -> lp_user p ∉ map lp_user before -> printed ins <> [] ->
  exists f g fx1 fx2 h', on_incoming seal unseal b64_encode meta_json key sid rnd h
      (Msg (LiveRelay.Participants (before ++ p :: after))) =
      (h', fx1 ++ [FxMsg (LiveRelay.Direct (lp_user p) (b64_encode f));
                   FxMsg (LiveRelay.Direct (lp_user p) (b64_encode g))] ++ fx2, None) /\
    viewer_incoming unseal meta_parse key sid w (Frame f) =
      (w, [VEvent (Resized (Telnet.cols (size h)) (Telnet.rows (size h))); VEvent (Title (title h))], None) /\
    viewer_incoming unseal meta_parse key sid w (Frame g) = (w, [VOutput (keep_recent (printed ins))], None) /\
    (length (keep_recent (printed ins)) <= REPLAY_BYTES)%nat.
Proof.
  intros Hn h Hp Hnew Hfirst Hprint.
  assert (replay h = keep_recent (printed ins)) as Hrep by (by apply run_replay).
  assert (replay h <> []) as Hne.
  { rewrite Hrep. by intros ?%keep_recent_nil. }
  clearbody h. cbn [on_incoming].
  enough (exists f g fx1 fx2 h', greet seal b64_encode meta_json key sid rnd h (before ++ p :: after) =
      (h', fx1 ++ [FxMsg (LiveRelay.Direct (lp_user p) (b64_encode f));
                   FxMsg (LiveRelay.Direct (lp_user p) (b64_encode g))] ++ fx2) /\
    open_frame unseal key sid FromHost f = Ok (Envelope.Meta, meta_json (mkMeta (Some (Telnet.cols (size h)))
      (Some (Telnet.rows (size h))) (Some (title h)) None)) /\
    open_frame unseal key sid FromHost g = Ok (Output, replay h)) as (f & g & fx1 & fx2 & h' & -> & Hf & Hg).
  { exists f, g, fx1, (fx2 ++ [FxEvent (Participants (before ++ p :: after))]), h'. split_and!.
    - by rewrite <- !app_assoc.
    - cbn. by rewrite Hf, meta_law.
    - cbn. by rewrite Hg, Hrep.
    - apply keep_recent_bound. }
  clear Hrep Hprint. revert rnd h Hn Hnew Hne. induction before as [|q before IH]; intros rnd h Hn Hnew Hne.
  - cbn [app greet]. rewrite Hp, bool_decide_eq_false_2 by done. cbn [negb andb].
    unfold catch_up. rewrite decide_False by done. unfold meta, host_seal. cbn [size title replay].
    destruct (seal_ok FromHost Envelope.Meta (rnd 0%nat) (meta_json (mkMeta (Some (Telnet.cols (size h)))
      (Some (Telnet.rows (size h))) (Some (title h)) None)) (Hn _)) as (f & -> & Hf).
    destruct (seal_ok FromHost Output (rnd 1%nat) (replay h) (Hn _)) as (g & -> & Hg).
    destruct (greet _ _ _ _ _ _ _ after) as [h' fx]. exists f, g, [], fx, h'. done.
  - apply not_elem_of_cons in Hfirst as [Hq Hfirst]. cbn [app greet].
    destruct (negb (lp_is_host q) && _).
    + destruct (IH Hfirst (fun n => rnd (2 + n)%nat)
        (mkHost (size h) (title h) ({[lp_user q]} ∪ seen h) (me h) (controllers h) (replay h)))
        as (f & g & fx1 & fx2 & h' & E & Hf & Hg); [intros; apply Hn| |done|].
      { cbn. rewrite elem_of_union, elem_of_singleton. by intros [?|?]. }
      rewrite E. eexists f, g, (_ ++ fx1), fx2, h'. split_and!; [by rewrite <- app_assoc|done|done].
    + by apply IH.
Qed.
End EndToEnd.

(** ** Who may resize, who is caught up *)

Section Safety.
Context (seal unseal : bytes -> bytes -> bytes -> bytes -> option bytes).
Context (b64_encode : bytes -> string) (meta_json : Meta -> bytes) (key : bytes) (sid : string).

(** the host's terminal follows the grid of viewers in control only: when a
    frame of a viewer resizes it, the frame names a participant whose last word
    from the host was to have control, the size is a real one (two columns and a
    row at least) and becomes the announced size; it never resizes to the size it
    has. *)
Theorem grid_follows_controllers s0 t user all0 ins rnd b h' fx s :
  let h := run seal unseal b64_encode meta_json key sid (host_start s0 t user all0) ins in
  on_viewer_frame seal unseal meta_json key sid rnd h b = (h', fx) -> FxResize s ∈ fx ->
  (exists u, control_of u ins = true) /\ 2 <= Telnet.cols s /\ 1 <= Telnet.rows s /\ size h' = s /\ s <> size h.
Proof.
  intros h E Hs.
  assert (forall u, u ∈ controllers h -> control_of u ins = true) as Hc
    by (intros u Hu; apply run_controllers in Hu; done).
  clearbody h. unfold on_viewer_frame in E. destruct (open_frame _ _ _ _ _) as [[k data]|]; [|simplify_eq; by apply elem_of_nil in Hs].
  destruct k; simplify_eq; try (by repeat apply elem_of_cons in Hs as [|Hs]; try apply elem_of_nil in Hs).
  - unfold send_ok in E. repeat case_match; simplify_eq; rewrite ?elem_of_cons, ?elem_of_nil in Hs;
      repeat destruct Hs as [Hs|Hs]; done.
  - destruct (length data =? 20)%nat; [|simplify_eq; by apply elem_of_nil in Hs].
    destruct (uuid_slice _) as [u|]; [|simplify_eq; by apply elem_of_nil in Hs].
    destruct (bool_decide_reflect (u ∈ controllers h)) as [Hu|]; cbn [andb] in E; [|simplify_eq; by apply elem_of_nil in Hs].
    destruct (negb _ || negb _) eqn:Ed; [|simplify_eq; by apply elem_of_nil in Hs]. injection E as <- <-.
    assert (s = mkSize (Z.max (from_be (take 2 (drop 16 data))) 2) (Z.max (from_be (drop 18 data)) 1)) as ->.
    { apply elem_of_cons in Hs as [[=]|[Hs|Hs]%elem_of_app]; [done| |].
      - unfold send_ok in Hs. case_match; [by apply list_elem_of_singleton in Hs|by apply elem_of_nil in Hs].
      - by apply list_elem_of_singleton in Hs. }
    split_and!; [exists u; auto|cbn; lia|cbn; lia|done|]. intros Heq. rewrite <- Heq in Ed. cbn in Ed.
    rewrite !Z.eqb_refl in Ed. done.
Qed.

Lemma catch_up_user rnd h u v d : FxMsg (LiveRelay.Direct v d) ∈ catch_up seal b64_encode meta_json key sid rnd h u -> v = u.
Proof.
  unfold catch_up. intros Hv. repeat case_match; cbn in Hv;
    rewrite ?elem_of_cons, ?elem_of_nil in Hv; repeat destruct Hv as [Hv|Hv]; by simplify_eq.
Qed.

Lemma greet_direct rnd h all h' fx u d : greet seal b64_encode meta_json key sid rnd h all = (h', fx) ->
  u ∈ seen h -> FxMsg (LiveRelay.Direct u d) ∉ fx.
Proof.
  revert rnd h h' fx. induction all as [|p all IH]; intros rnd h h' fx; cbn [greet]; [intros [= <- <-] _; by intros ?%elem_of_nil|].
  destruct (negb (lp_is_host p) && _) eqn:Ep; [|apply IH].
  destruct (greet _ _ _ _ _ _ _ all) as [h2 fx2] eqn:E. intros [= <- <-] Hu [Hd|Hd]%elem_of_app.
  - apply catch_up_user in Hd. subst u. apply andb_true_iff in Ep as [_ Hn].
    by rewrite bool_decide_eq_true_2 in Hn.
  - eapply IH in E; [by apply E|]. cbn. by apply elem_of_union_r.
Qed.

Lemma round_direct h i h' fx e u d : round seal unseal b64_encode meta_json key sid h i = (h', fx, e) ->
  u ∈ seen h -> (FxMsg (LiveRelay.Direct u d) ∉ fx) /\ u ∈ seen h'.
Proof.
  intros E Hu. destruct i as [rnd alive c|rnd inc]; cbn [round] in E.
  - apply cmd_state in E as Hst. destruct Hst as (_ & _ & ->). split; [|done].
    destruct c; cbn in E; unfold send_ok in E; repeat case_match; simplify_eq;
      rewrite ?elem_of_cons, ?elem_of_nil; intros Hd; repeat destruct Hd as [Hd|Hd]; done.
  - apply incoming_state in E as Hst. destruct Hst as (_ & _ & Hs). split; [|by apply Hs].
    destruct inc as [m|b|]; cbn in E; [|destruct (on_viewer_frame _ _ _ _ _ _ _ _) as [h2 fx2] eqn:Ef|simplify_eq; by intros ?%elem_of_nil].
    + destruct m as [|all| | | |]; try (simplify_eq; by intros ?%elem_of_nil).
      destruct (greet _ _ _ _ _ _ _ _) as [h2 fx2] eqn:Eg. injection E as <- <- <-.
      intros [Hd|Hd]%elem_of_app; [by eapply greet_direct|]. by apply list_elem_of_singleton in Hd.
    + injection E as <- <- <-. unfold on_viewer_frame, send_ok in Ef. repeat case_match; simplify_eq;
        rewrite ?elem_of_cons, ?elem_of_app, ?elem_of_cons, ?elem_of_nil; intros Hd; repeat destruct Hd as [Hd|Hd]; done.
Qed.

(** a viewer that comes back sees an empty terminal. Once a participant was
    on a list the host received, nothing is ever addressed to it again, whatever
    happens: neither when it has left nor when it joins a second time, so the
    size, the title and the recent output only reach it with the next change. *)
Theorem rejoining_viewer_sees_nothing rnd h all p ins d :
  p ∈ all -> lp_is_host p = false ->
  let h1 := fst (fst (on_incoming seal unseal b64_encode meta_json key sid rnd h (Msg (LiveRelay.Participants all)))) in
  FxMsg (LiveRelay.Direct (lp_user p) d) ∉ snd (host_loop seal unseal b64_encode meta_json key sid h1 ins).
Proof.
  intros Hin Hp h1.
  assert (lp_user p ∈ seen h1) as Hseen.
  { subst h1. cbn. revert rnd h. induction all as [|q all IH]; intros rnd h; [by apply elem_of_nil in Hin|]. cbn [greet].
    destruct (negb (lp_is_host q) && negb (bool_decide (lp_user q ∈ seen h))) eqn:Eq.
    - set (h0 := mkHost _ _ _ _ _ _). specialize (fun H => IH H (fun n => rnd (2 + n)%nat) h0).
      destruct (greet _ _ _ _ _ _ h0 all) as [h2 fx2] eqn:E. cbn [fst].
      apply greet_state in E as (_ & _ & Hs & _).
      apply elem_of_cons in Hin as [->|Hin]; [|exact (IH Hin)].
      apply Hs. cbn. apply elem_of_union_l. by apply elem_of_singleton.
    - specialize (fun H => IH H rnd h). destruct (greet _ _ _ _ _ _ h all) as [h2 fx2] eqn:E. cbn [fst].
      apply elem_of_cons in Hin as [->|Hin]; [|exact (IH Hin)]. rewrite Hp in Eq. cbn in Eq.
      apply negb_false_iff, bool_decide_eq_true in Eq.
      apply greet_state in E as (_ & _ & Hs & _). by apply Hs. }
  clearbody h1. revert h1 Hseen. induction ins as [|i ins IH]; intros h1 Hseen; cbn; [by intros ?%elem_of_nil|].
  destruct (round _ _ _ _ _ _ h1 i) as [[h2 fx] e] eqn:E.
  destruct (round_direct _ _ _ _ _ _ d E Hseen) as [Hd Hs]. destruct e as [[reason message]|].
  - intros [?|?%list_elem_of_singleton]%elem_of_app; done.
  - specialize (IH h2 Hs). destruct (host_loop _ _ _ _ _ _ h2 ins) as [h3 fx3]. cbn in *.
    by intros [?|?]%elem_of_app.
Qed.
End Safety.

(** ** Examples *)

Module Sample.
Definition rnd (n : nat) : bytes := replicate NONCE_LEN 3.
Definition tuple (m : Meta) := (m_cols m, m_rows m, m_title m, m_typing m).
Definition meta_json (m : Meta) : bytes := [Z.pos (encode (tuple m))].
Definition meta_parse (b : bytes) : option Meta :=
  match b with
  | [Z.pos p] => (fun x : option Z * option Z * option string * option uuid =>
      let '(c, r, t, u) := x in mkMeta c r t u) <$> decode p
  | _ => None
  end.
Lemma meta_law m : meta_parse (meta_json m) = Some m.
Proof. unfold meta_parse, meta_json. rewrite decode_encode. by destruct m. Qed.
Lemma sealing n a m : is_Some (toy_seal0 [1] n a m).
Proof. by eexists. Qed.
Definition viewer : LiveParticipant := LiveRelay.mkParticipant 2%N "v@b.c" None None false false.
Definition start : HostLoop := host_start (mkSize 80 24) "sh" 1%N [].
End Sample.

Lemma shared_terminal_end_to_end_witness : exists f,
  on_cmd toy_seal0 Sample.meta_json [1] "s" Sample.rnd true Sample.start (CmdOutput [104; 105]) =
    (mkHost (mkSize 80 24) "sh" ∅ 1%N ∅ (keep_recent [104; 105]), [FxFrame f], None) /\
  viewer_incoming toy_unseal0 Sample.meta_parse [1] "s" false (Frame f) = (false, [VOutput [104; 105]], None).
Proof.
  destruct (shared_terminal_end_to_end toy_seal0 toy_unseal0 toy_b64 toy_unb64 Sample.meta_json Sample.meta_parse [1]
    "s" toy_laws Sample.sealing Sample.rnd Sample.start [104; 105] false true 2%N None 0 ltac:(done)) as ((f & H1 & H2) & _).
  exists f. split; [exact H1|exact H2].
Defined.

Lemma late_joiner_sees_recent_output_witness : exists f g fx1 fx2 h',
  on_incoming toy_seal0 toy_unseal0 toy_b64 Sample.meta_json [1] "s" Sample.rnd
    (run toy_seal0 toy_unseal0 toy_b64 Sample.meta_json [1] "s" Sample.start [InCmd Sample.rnd true (CmdOutput [104])])
    (Msg (LiveRelay.Participants [Sample.viewer])) =
  (h', fx1 ++ [FxMsg (LiveRelay.Direct 2%N (toy_b64 f)); FxMsg (LiveRelay.Direct 2%N (toy_b64 g))] ++ fx2, None) /\
  viewer_incoming toy_unseal0 Sample.meta_parse [1] "s" false (Frame g) =
    (false, [VOutput (keep_recent [104])], None).
Proof.
  destruct (late_joiner_sees_recent_output toy_seal0 toy_unseal0 toy_b64 toy_unb64 Sample.meta_json Sample.meta_parse [1]
    "s" toy_laws Sample.meta_law Sample.sealing (mkSize 80 24) "sh" 1%N [] [InCmd Sample.rnd true (CmdOutput [104])]
    Sample.viewer [] [] Sample.rnd false ltac:(done) eq_refl ltac:(done) ltac:(apply not_elem_of_nil) ltac:(done))
    as (f & g & fx1 & fx2 & h' & H1 & _ & H2 & _).
  exists f, g, fx1, fx2, h'. split; [exact H1|exact H2].
Defined.

Lemma grid_follows_controllers_witness : exists b h' fx,
  viewer_resize toy_seal0 [1] "s" Sample.rnd true 2%N (mkSize 100 40) = Ok [b] /\
  on_viewer_frame toy_seal0 toy_unseal0 Sample.meta_json [1] "s" Sample.rnd
    (run toy_seal0 toy_unseal0 toy_b64 Sample.meta_json [1] "s" Sample.start
       [InCmd Sample.rnd true (CmdControl 2%N true)]) b = (h', fx) /\
  FxResize (mkSize 100 40) ∈ fx /\ size h' = mkSize 100 40.
Proof.
  destruct (viewer_resize toy_seal0 [1] "s" Sample.rnd true 2%N (mkSize 100 40)) as [[|b [|b2 bs]]|] eqn:E;
    try (by vm_compute in E).
  exists b. destruct (on_viewer_frame _ _ _ _ _ _ _ b) as [h' fx] eqn:Ef. exists h', fx.
  assert (FxResize (mkSize 100 40) ∈ fx) as Hin.
  { vm_compute in E. injection E as <-. vm_compute in Ef. injection Ef as _ <-. by left. }
  split_and!; [done|done|exact Hin|].
  apply (grid_follows_controllers toy_seal0 toy_unseal0 toy_b64 Sample.meta_json [1] "s" (mkSize 80 24) "sh" 1%N []
    [InCmd Sample.rnd true (CmdControl 2%N true)] Sample.rnd b h' fx (mkSize 100 40) Ef Hin).
Defined.

Lemma rejoining_viewer_sees_nothing_witness :
  FxMsg (LiveRelay.Direct 2%N "AA==") ∉ snd (host_loop toy_seal0 toy_unseal0 toy_b64 Sample.meta_json [1] "s"
    (fst (fst (on_incoming toy_seal0 toy_unseal0 toy_b64 Sample.meta_json [1] "s" Sample.rnd Sample.start
       (Msg (LiveRelay.Participants [Sample.viewer])))))
    [InRelay Sample.rnd (Msg (LiveRelay.Participants [])); InCmd Sample.rnd true (CmdOutput [104]);
     InRelay Sample.rnd (Msg (LiveRelay.Participants [Sample.viewer]))]).
Proof.
  apply (rejoining_viewer_sees_nothing toy_seal0 toy_unseal0 toy_b64 Sample.meta_json [1] "s" Sample.rnd Sample.start
    [Sample.viewer] Sample.viewer); [by left|done].
Defined.
