(* ===== verification/Fido.v ===== *)
(** * Talking to security keys

    [crates/termoso-core/src/fido2/hid.rs] (CTAPHID framing over 64 byte
    reports) and [nfc.rs] (CTAP over ISO 7816 APDUs), with [Fido2Error] of
    [fido2/mod.rs]. What the device sends is a script the functions read from:
    for HID the outcome of every [read] with the time it is asked for, for NFC
    the answer to every APDU. A script that runs out stands for a device that
    stays silent until the deadline. Random bytes are arguments. *)
From Stdlib Require Ascii.
From stdpp Require Import pretty.
From S2P Require Import Prelude.

#[local] Open Scope string_scope.
#[local] Open Scope list_scope.
#[local] Open Scope Z_scope.

Inductive Fido2Error : Type :=
| NoDevice | DeviceGone (m : string) | PinRequired | PinInvalid (retries : option Z) | PinBlocked | PinNotSet
| Timeout | Denied | WrongDevice | Unsupported (m : string) | Other (m : string).

Abbreviation res := (result Fido2Error).

(** [{:02x}] and [{:04x}]. *)
Definition hex_digit (d : Z) : Ascii.ascii := Ascii.ascii_of_N (Z.to_N (if d <? 10 then 48 + d else 87 + d)).
Fixpoint hex (n : nat) (z : Z) : string :=
  match n with O => "" | S n' => String (hex_digit (Z.shiftr z (4 * Z.of_nat n') `mod` 16)) (hex n' z) end.

(** [Fido2Error::from_status]. *)
Definition from_status (code : Z) : Fido2Error :=
  match code with
  | 34 | 46 => WrongDevice
  | 25 => Other "this device is already registered"
  | 38 => Unsupported "algorithm"
  | 43 | 44 => Unsupported "option"
  | 39 | 45 => Denied
  | 5 | 47 | 58 => Timeout
  | 49 | 51 | 63 => PinInvalid None
  | 50 | 52 | 60 => PinBlocked
  | 53 => PinNotSet
  | 54 => PinRequired
  | 6 => Other "device busy"
  | 40 => Other "key store full"
  | 59 => Other "user presence required"
  | 64 => Other "PIN token lacks permission"
  | other => Other ("CTAP error 0x" +:+ hex 2 other)
  end.

(** ** CTAPHID *)

Definition PACKET_SIZE : nat := 64.
Definition INIT_DATA : nat := PACKET_SIZE - 7.
Definition CONT_DATA : nat := PACKET_SIZE - 5.
Definition BROADCAST_CID : Z := 4294967295.
Definition CMD_INIT : Z := 6.
Definition CMD_CBOR : Z := 16.
Definition CMD_CANCEL : Z := 17.
Definition CMD_KEEPALIVE : Z := 59.
Definition CMD_ERROR : Z := 63.

(** [Vec::resize(PACKET_SIZE, 0)]. *)
Definition pad (l : bytes) : bytes := take PACKET_SIZE (l ++ replicate (PACKET_SIZE - length l) 0).
Fixpoint continuations (cid : Z) (seq : nat) (cs : list bytes) : list bytes :=
  match cs with
  | [] => []
  | c :: cs' => pad (be_bytes 4 cid ++ [wrap8 (Z.of_nat seq)] ++ c) :: continuations cid (S seq) cs'
  end.

Definition frame (cid cmd : Z) (data : bytes) : list bytes :=
  let first := Nat.min (length data) INIT_DATA in
  pad (be_bytes 4 cid ++ [Z.lor 128 cmd] ++ be_bytes 2 (wrap16 (Z.of_nat (length data))) ++ take first data)
  :: continuations cid 0 (chunks CONT_DATA (drop first data)).

Definition hid_error (code : Z) : Fido2Error :=
  match code with
  | 6 => Other "device busy (another client holds it)"
  | 45 => Denied
  | 5 => Timeout
  | other => Other ("CTAPHID error 0x" +:+ hex 2 other)
  end.

Record Reassembler := mkAsm { a_cid : Z; a_cmd : Z; a_len : nat; a_data : bytes; a_seq : Z; a_started : bool }.
Definition asm_new (cid : Z) : Reassembler := mkAsm cid 0 0 [] 0 false.

(** [p[i]], after the length checks. *)
Definition at_ (p : bytes) (i : nat) : Z := nth i p 0.

(** [Reassembler::push]. *)
Definition push (a : Reassembler) (packet : bytes) : Reassembler * res (option (Z * bytes)) :=
  if (length packet <? 5)%nat then (a, Err (Other "short HID report"))
  else if negb (from_be (take 4 packet) =? a_cid a) then (a, Ok None)
  else
    let finish a :=
      if (a_len a <=? length (a_data a))%nat then
        (mkAsm (a_cid a) (a_cmd a) (a_len a) [] (a_seq a) false, Ok (Some (a_cmd a, a_data a)))
      else (a, Ok None) in
    if negb (Z.land (at_ packet 4) 128 =? 0) then
      if (length packet <? 7)%nat then (a, Err (Other "short HID report"))
      else
        let n := Z.to_nat (from_be (take 2 (drop 5 packet))) in
        let k := Nat.min n (length packet - 7) in
        finish (mkAsm (a_cid a) (Z.land (at_ packet 4) 127) n (take k (drop 7 packet)) 0 true)
    else if negb (a_started a) then (a, Ok None)
    else if negb (at_ packet 4 =? a_seq a) then
      (mkAsm (a_cid a) (a_cmd a) (a_len a) (a_data a) (a_seq a) false, Err (Other "CTAPHID sequence error"))
    else
      let k := Nat.min (a_len a - length (a_data a)) (length packet - 5) in
      finish (mkAsm (a_cid a) (a_cmd a) (a_len a) (a_data a ++ take k (drop 5 packet)) (wrap8 (a_seq a + 1)) (a_started a)).

(** What the device does at the reads to come: the time the read is asked for
    and its outcome, [None] when it timed out. *)
Abbreviation script := (list (Z * res (option bytes))).

Section Hid.
(** [HidPackets::write]. *)
Context (io_write : bytes -> res unit).

Fixpoint write_all (ps : list bytes) : res unit :=
  match ps with [] => Ok () | p :: ps' => _ ← io_write p; write_all ps' end.
Definition write_message (cid cmd : Z) (data : bytes) : res unit :=
  if 7609 <? Z.of_nat (length data) then Err (Other "CTAPHID message too large") else write_all (frame cid cmd data).

(** The rest of the script goes to the next read. *)
Fixpoint read_loop (a : Reassembler) (c deadline : Z) (s : script) : res (Z * Z * bytes) * script :=
  match s with
  | [] => (Err Timeout, [])
  | (now, r) :: s' =>
      if deadline <=? now then (Err Timeout, s)
      else
        match r with
        | Err e => (Err e, s')
        | Ok None => read_loop a c deadline s'
        | Ok (Some packet) =>
            match push a packet with
            | (_, Err e) => (Err e, s')
            | (_, Ok (Some (cmd, data))) => (Ok (c, cmd, data), s')
            | (a, Ok None) => read_loop a c deadline s'
            end
        end
  end.
Definition read_message (c deadline : Z) (s : script) : res (Z * Z * bytes) * script :=
  read_loop (asm_new c) c deadline s.

Fixpoint open_loop (fuel : nat) (nonce : bytes) (deadline : Z) (s : script) : res Z * script :=
  match fuel with
  | O => (Err Timeout, s)
  | S fuel' =>
      match read_message BROADCAST_CID deadline s with
      | (Err e, s) => (Err e, s)
      | (Ok (c, cmd, data), s) =>
          if negb (c =? BROADCAST_CID) || negb (cmd =? CMD_INIT) then open_loop fuel' nonce deadline s
          else if (length data <? 17)%nat then (Err (Other "short CTAPHID_INIT response"), s)
          else if negb (bool_decide (take 8 data = nonce)) then open_loop fuel' nonce deadline s
          else if negb (at_ data 12 =? 2) then (Err (Unsupported ("CTAPHID protocol version " +:+ pretty (at_ data 12))), s)
          else if Z.land (at_ data 16) 4 =? 0 then (Err (Unsupported "device speaks U2F only"), s)
          else (Ok (from_be (take 4 (drop 8 data))), s)
      end
  end.

(** [HidTransport::open]: the channel. *)
Definition hid_open (now : Z) (nonce : bytes) (s : script) : res Z * script :=
  match write_message BROADCAST_CID CMD_INIT nonce with
  | Err e => (Err e, s)
  | Ok _ => open_loop (S (length s)) nonce (now + 3000) s
  end.

(** The flag says whether a cancel is sent. *)
Fixpoint cbor_loop (fuel : nat) (c deadline : Z) (s : script) : res bytes * script * bool :=
  match fuel with
  | O => (Err Timeout, s, true)
  | S fuel' =>
      match read_message c deadline s with
      | (Err Timeout, s) => (Err Timeout, s, true)
      | (Err e, s) => (Err e, s, false)
      | (Ok (c', cmd, data), s) =>
          if negb (c' =? c) then cbor_loop fuel' c deadline s
          else if cmd =? CMD_KEEPALIVE then cbor_loop fuel' c deadline s
          else if cmd =? CMD_CBOR then (Ok data, s, false)
          else if cmd =? CMD_ERROR then (Err (hid_error (at_ data 0)), s, false)
          else (Err (Other ("unexpected CTAPHID command 0x" +:+ hex 2 cmd)), s, false)
      end
  end.

(** [HidTransport::cbor]. *)
Definition hid_cbor (now user_timeout c : Z) (payload : bytes) (s : script) : res bytes * script * bool :=
  match write_message c CMD_CBOR payload with
  | Err e => (Err e, s, false)
  | Ok _ => cbor_loop (S (length s)) c (now + user_timeout) s
  end.
End Hid.

(** ** NFC *)

Definition FIDO_AID : bytes := [160; 0; 0; 6; 71; 47; 0; 1].
Definition CLA : Z := 128.
Definition CLA_CHAINED : Z := 144.
Definition INS_MSG : Z := 16.
Definition INS_GET_RESPONSE_CTAP : Z := 17.
Definition SW_OK : Z := 36864.
Definition SW_PROCESSING : Z := 37120.
Definition SHORT_MAX : nat := 255.

Definition short_apdu (cla : Z) (data : bytes) : bytes :=
  [cla; INS_MSG; 0; 0; wrap8 (Z.of_nat (length data))] ++ data ++ [0].

Definition split_sw (response : bytes) : res (bytes * Z) :=
  if (length response <? 2)%nat then Err (Other "short APDU response")
  else let n := (length response - 2)%nat in Ok (take n response, from_be (drop n response)).

(** The answers of the tag to come, each with the time it arrives; a command
    with no answer left ends the exchange. *)
Abbreviation answers := (list (Z * res bytes)).
Definition gone : Fido2Error := DeviceGone "tag".
Definition transceive (s : answers) : res (Z * bytes) * answers :=
  match s with [] => (Err gone, []) | (t, r) :: s' => (pair t <$> r, s') end.

(** The result, the answers left and the commands sent. *)
Abbreviation exchanged A := (res A * answers * list bytes)%type.

(** [NfcTransport::open]; [utf8_lossy] is [String::from_utf8_lossy], [debug]
    the [Debug] form of a string. *)
Definition nfc_open (utf8_lossy : bytes -> string) (debug : string -> string) (s : answers) : exchanged unit :=
  let select := [0; 164; 4; 0; Z.of_nat (length FIDO_AID)] ++ FIDO_AID ++ [0] in
  match transceive s with
  | (Err e, s) => (Err e, s, [select])
  | (Ok (_, r), s) =>
      match split_sw r with
      | Err e => (Err e, s, [select])
      | Ok (data, sw) =>
          if negb (sw =? SW_OK) then
            (Err (Unsupported ("not a FIDO tag (SELECT → 0x" +:+ hex 4 sw +:+ ")")), s, [select])
          else
            let version := utf8_lossy data in
            if negb (String.prefix "FIDO_2_0" version) && negb (String.prefix "U2F_V2" version) then
              (Err (Unsupported ("unknown FIDO applet version " +:+ debug version)), s, [select])
            else (Ok (), s, [select])
      end
  end.

(** Command chaining: the answer to the last chunk and when it came. *)
Fixpoint chain (cs : list bytes) (s : answers) : exchanged (Z * bytes) :=
  match cs with
  | [] => (Ok (0, []), s, [])
  | c :: cs' =>
      let cla := match cs' with [] => CLA | _ => CLA_CHAINED end in
      let apdu := short_apdu cla c in
      match transceive s with
      | (Err e, s) => (Err e, s, [apdu])
      | (Ok r, s) =>
          match cs' with
          | [] => (Ok r, s, [apdu])
          | _ =>
              match split_sw (snd r) with
              | Err e => (Err e, s, [apdu])
              | Ok (_, sw) =>
                  if negb (sw =? SW_OK) then
                    (Err (Other ("APDU chaining rejected (0x" +:+ hex 4 sw +:+ ")")), s, [apdu])
                  else let '(r, s, sent) := chain cs' s in (r, s, apdu :: sent)
              end
          end
      end
  end.

(** [collect]: one answer per round; while the token is processing, the time is
    that of the answer at hand ([t]). *)
Fixpoint collect (fuel : nat) (t deadline : Z) (out response : bytes) (s : answers) : exchanged bytes :=
  match fuel with
  | O => (Err gone, s, [])
  | S fuel' =>
      match split_sw response with
      | Err e => (Err e, s, [])
      | Ok (data, sw) =>
          let next apdu out :=
            match s with
            | [] => (Err gone, [], [apdu])
            | (_, Err e) :: s' => (Err e, s', [apdu])
            | (t', Ok r) :: s' => let '(r, s', sent) := collect fuel' t' deadline out r s' in (r, s', apdu :: sent)
            end in
          if sw =? SW_OK then (Ok (out ++ data), s, [])
          else if Z.shiftr sw 8 =? 97 then next [0; 192; 0; 0; Z.land sw 255] (out ++ data)
          else if sw =? SW_PROCESSING then
            if deadline <=? t then (Err Timeout, s, [])
            else next [CLA; INS_GET_RESPONSE_CTAP; 0; 0; 0] out
          else if sw =? 28416 then (Err (Other "token reported a failure"), s, [])
          else (Err (Other ("unexpected APDU status 0x" +:+ hex 4 sw)), s, [])
      end
  end.

(** The first command of [exchange]. *)
Definition first_command (extended : bool) (payload : bytes) (s : answers) : exchanged (Z * bytes) :=
  if extended || (length payload <=? SHORT_MAX)%nat then
    let apdu :=
      if extended && (SHORT_MAX <? length payload)%nat then
        [CLA; INS_MSG; 0; 0; 0] ++ be_bytes 2 (wrap16 (Z.of_nat (length payload))) ++ payload ++ [0; 0]
      else short_apdu CLA payload in
    let '(r, s) := transceive s in (r, s, [apdu])
  else chain (chunks SHORT_MAX payload) s.

Definition exchange (now user_timeout : Z) (extended : bool) (payload : bytes) (s : answers) : exchanged bytes :=
  match first_command extended payload s with
  | (Err e, s, sent) => (Err e, s, sent)
  | (Ok (t, r), s, sent) =>
      let '(r, s, sent') := collect (S (length s)) t (now + user_timeout) [] r s in (r, s, sent ++ sent')
  end.

(** ** Packets *)

Lemma length_pad l : length (pad l) = PACKET_SIZE.
Proof.
  unfold pad. rewrite length_take, length_app, length_replicate. unfold PACKET_SIZE. lia.
Qed.

(** A packet is its header and the padded rest. *)
Definition fill (n : nat) (l : bytes) : bytes := take n (l ++ replicate (n - length l) 0).
Lemma fill_take n l : (length l <= n)%nat -> take (length l) (fill n l) = l.
Proof. intros H. unfold fill. rewrite take_take, Nat.min_l by lia. apply take_app_length. Qed.

(** ** Reassembly *)

Definition channel (p : bytes) : Z := from_be (take 4 p).

Definition init_packet (c cmd : Z) (data : bytes) : bytes :=
  pad (be_bytes 4 c ++ [Z.lor 128 cmd] ++ be_bytes 2 (wrap16 (Z.of_nat (length data))) ++ take INIT_DATA data).
Definition cont_packet (c seq : Z) (chunk : bytes) : bytes := pad (be_bytes 4 c ++ [seq] ++ chunk).

Lemma init_packet_bytes c cmd data : init_packet c cmd data =
  be_bytes 4 c ++ [Z.lor 128 cmd] ++ be_bytes 2 (wrap16 (Z.of_nat (length data))) ++ fill INIT_DATA (take INIT_DATA data).
Proof. done. Qed.
Lemma cont_packet_bytes c seq chunk : cont_packet c seq chunk = be_bytes 4 c ++ [seq] ++ fill CONT_DATA chunk.
Proof. done. Qed.

Lemma frame_packets c cmd data :
  frame c cmd data = init_packet c cmd data :: continuations c 0 (chunks CONT_DATA (drop INIT_DATA data)).
Proof.
  unfold frame, init_packet. destruct (decide (length data <= INIT_DATA)%nat).
  - rewrite Nat.min_l by done. by rewrite (take_ge data INIT_DATA), (take_ge data (length data)), !drop_ge by lia.
  - by rewrite Nat.min_r by lia.
Qed.

Lemma lor_128 cmd : 0 <= cmd < 128 -> Z.land (Z.lor 128 cmd) 128 = 128 /\ Z.land (Z.lor 128 cmd) 127 = cmd /\ Z.land cmd 128 = 0.
Proof.
  intros H.
  assert (Z.land cmd 128 = 0) as E.
  { apply Z.bits_inj'. intros n Hn. rewrite Z.land_spec, Z.bits_0. destruct (decide (n = 7)) as [->|Hn7].
    - rewrite (Z.bits_above_log2 cmd 7); [done|lia|]. destruct (decide (cmd = 0)) as [->|]; [done|].
      apply Z.log2_lt_pow2; lia.
    - change 128 with (2 ^ 7). by rewrite Z.pow2_bits_false, andb_false_r by lia. }
  rewrite !Z.land_lor_distr_l, E. change (Z.land 128 128) with 128. change (Z.land 128 127) with 0.
  change 127 with (Z.ones 7). by rewrite Z.land_ones, (Z.mod_small cmd) by lia.
Qed.

(** The reassembler after [got] of a message whose rest is [rem]. *)
Definition midway (c cmd : Z) (got rem : bytes) (seq : Z) : Reassembler :=
  mkAsm c cmd (length got + length rem) got seq true.

Lemma push_init a c cmd d : is_u32 c -> a_cid a = c -> 0 <= cmd < 128 -> Z.of_nat (length d) < 65536 ->
  exists a', push a (init_packet c cmd d) =
    if (length d <=? INIT_DATA)%nat then (a', Ok (Some (cmd, d)))
    else (midway c cmd (take INIT_DATA d) (drop INIT_DATA d) 0, Ok None).
Proof.
  intros Hc Ha Hcmd Hlen. destruct (lor_128 cmd Hcmd) as (H1 & H2 & _).
  assert (from_be (be_bytes 4 c) = c) as Hch by (by apply (from_be_be_bytes 4)).
  assert (from_be (be_bytes 2 (wrap16 (Z.of_nat (length d)))) = Z.of_nat (length d)) as Hn.
  { rewrite (from_be_be_bytes 2) by (apply wrap_range; lia). apply wrap_small. unfold in_width. lia. }
  pose proof (fill_take INIT_DATA (take INIT_DATA d) ltac:(rewrite length_take; lia)) as Hd.
  assert (length (init_packet c cmd d) = 64%nat) as Hp by apply length_pad.
  unfold push. rewrite Hp, init_packet_bytes, Ha. unfold at_.
  set (x := fill INIT_DATA (take INIT_DATA d)) in *. clearbody x.
  set (P := be_bytes 4 c ++ [Z.lor 128 cmd] ++ _).
  assert (take 4 P = be_bytes 4 c /\ nth 4 P 0 = Z.lor 128 cmd /\ drop 7 P = x /\
    take 2 (drop 5 P) = be_bytes 2 (wrap16 (Z.of_nat (length d)))) as (-> & -> & -> & ->) by done.
  rewrite Hch, Hn, Z.eqb_refl, H1, H2, Nat2Z.id.
  cbn [negb Z.eqb Nat.ltb Nat.leb Nat.sub]. change (64 - 7)%nat with INIT_DATA. rewrite length_take, Nat.min_comm in Hd.
  change (Nat.min (length d) 57) with (Nat.min (length d) INIT_DATA). rewrite Hd.
  cbn [a_len a_data a_cmd a_cid a_seq]. rewrite length_take. destruct (Nat.leb_spec (length d) INIT_DATA) as [Hl|Hl].
  - rewrite Nat.min_r by done. rewrite Nat.leb_refl, take_ge by done. by eexists.
  - rewrite Nat.min_l by lia. rewrite (proj2 (Nat.leb_gt _ _)) by lia. exists a. unfold midway.
    rewrite length_take, length_drop. do 3 f_equal. lia.
Qed.

Lemma push_cont c cmd got rem seq : is_u32 c -> 0 <= seq < 128 ->
  exists a', push (midway c cmd got rem seq) (cont_packet c seq (take CONT_DATA rem)) =
    if (length rem <=? CONT_DATA)%nat then (a', Ok (Some (cmd, got ++ rem)))
    else (midway c cmd (got ++ take CONT_DATA rem) (drop CONT_DATA rem) (seq + 1), Ok None).
Proof.
  intros Hc Hs. destruct (lor_128 seq Hs) as (_ & _ & H0).
  assert (from_be (be_bytes 4 c) = c) as Hch by (by apply (from_be_be_bytes 4)).
  pose proof (fill_take CONT_DATA (take CONT_DATA rem) ltac:(rewrite length_take; lia)) as Hd.
  assert (length (cont_packet c seq (take CONT_DATA rem)) = 64%nat) as Hp by apply length_pad.
  unfold push. rewrite Hp, cont_packet_bytes. unfold at_, midway. cbn [a_cid a_cmd a_len a_data a_seq a_started].
  set (x := fill CONT_DATA (take CONT_DATA rem)) in *. clearbody x.
  set (P := be_bytes 4 c ++ [seq] ++ x).
  assert (take 4 P = be_bytes 4 c /\ nth 4 P 0 = seq /\ drop 5 P = x) as (-> & -> & ->) by done.
  rewrite Hch, H0, !Z.eqb_refl.
  cbn [negb Z.eqb Nat.ltb Nat.leb]. rewrite Nat.add_sub'. rewrite length_take, Nat.min_comm in Hd.
  change (64 - 5)%nat with CONT_DATA. rewrite Hd.
  unfold wrap. rewrite (Z.mod_small (seq + 1)) by lia. rewrite length_app, length_take.
  destruct (Nat.leb_spec (length rem) CONT_DATA) as [Hl|Hl].
  - rewrite Nat.min_r by done. rewrite Nat.leb_refl, take_ge by done. by eexists.
  - rewrite Nat.min_l by lia. rewrite (proj2 (Nat.leb_gt _ _)) by lia. exists (asm_new c).
    rewrite ?length_app, ?length_take, ?length_drop.
    by replace (length got + CONT_DATA + (length rem - CONT_DATA))%nat with (length got + length rem)%nat by lia.
Qed.

(** Reads that bring the packets [ps] of channel [c] in order, among silences
    and packets of other channels, all before [deadline]; the last read brings
    the last packet. *)
Inductive delivers (c deadline : Z) : script -> list bytes -> Prop :=
| last_packet now p : now < deadline -> channel p = c -> delivers c deadline [(now, Ok (Some p))] [p]
| silence now s ps : now < deadline -> delivers c deadline s ps -> delivers c deadline ((now, Ok None) :: s) ps
| foreign now p s ps : now < deadline -> (5 <= length p)%nat -> channel p <> c ->
    delivers c deadline s ps -> delivers c deadline ((now, Ok (Some p)) :: s) ps
| packet now p s ps : now < deadline -> channel p = c ->
    delivers c deadline s ps -> delivers c deadline ((now, Ok (Some p)) :: s) (p :: ps).

Lemma read_silence a c deadline now s : now < deadline ->
  read_loop a c deadline ((now, Ok None) :: s) = read_loop a c deadline s.
Proof. intros H. cbn. by rewrite (proj2 (Z.leb_gt _ _)) by done. Qed.

Lemma read_foreign a c deadline now p s : a_cid a = c -> now < deadline -> (5 <= length p)%nat -> channel p <> c ->
  read_loop a c deadline ((now, Ok (Some p)) :: s) = read_loop a c deadline s.
Proof.
  intros Ha H Hp Hc. cbn. rewrite (proj2 (Z.leb_gt _ _)) by done. unfold push.
  rewrite (proj2 (Nat.ltb_ge _ _)) by done. unfold channel in Hc. rewrite Ha, (proj2 (Z.eqb_neq _ _)) by done. done.
Qed.

Lemma read_packet a c deadline now p s : now < deadline -> read_loop a c deadline ((now, Ok (Some p)) :: s) =
  match push a p with
  | (_, Err e) => (Err e, s)
  | (_, Ok (Some (cmd, data))) => (Ok (c, cmd, data), s)
  | (a, Ok None) => read_loop a c deadline s
  end.
Proof. intros H. cbn. by rewrite (proj2 (Z.leb_gt _ _)) by done. Qed.

Lemma delivers_nil c deadline s ps : delivers c deadline s ps -> ps <> [].
Proof. by induction 1. Qed.

Lemma continuations_step c n rem : rem <> [] -> continuations c n (chunks CONT_DATA rem) =
  cont_packet c (wrap8 (Z.of_nat n)) (take CONT_DATA rem) :: continuations c (S n) (chunks CONT_DATA (drop CONT_DATA rem)).
Proof. intros Hr. rewrite chunks_step by (unfold CONT_DATA, PACKET_SIZE; lia). by destruct rem. Qed.

(** The rest of a message: at most 128 continuation packets. *)
Lemma read_rest c cmd deadline s ps got rem n rest : is_u32 c -> delivers c deadline s ps ->
  ps = continuations c n (chunks CONT_DATA rem) -> (CONT_DATA * n + length rem <= CONT_DATA * 128)%nat -> rem <> [] ->
  read_loop (midway c cmd got rem (Z.of_nat n)) c deadline (s ++ rest) = (Ok (c, cmd, got ++ rem), rest).
Proof.
  intros Hc Hs. revert n got rem.
  assert (forall n (rem : bytes), rem <> [] -> (CONT_DATA * n + length rem <= CONT_DATA * 128)%nat ->
    wrap8 (Z.of_nat n) = Z.of_nat n /\ 0 <= Z.of_nat n < 128) as Hn.
  { intros n [|x rem] Hr Hl; [done|]. cbn [length] in Hl. assert (n < 128)%nat by (unfold CONT_DATA, PACKET_SIZE in Hl; lia).
    split; [|lia]. apply wrap_small. unfold in_width. lia. }
  induction Hs as [now p Hnow Hp|now s ps Hnow Hs IH|now p s ps Hnow Hlp Hp Hs IH|now p s ps Hnow Hp Hs IH];
    intros n got rem E Hl Hr; destruct (Hn n rem Hr Hl) as [Hw Hrange].
  - rewrite continuations_step in E by done. injection E as -> E. rewrite Hw. cbn [app]. rewrite read_packet by done.
    destruct (push_cont c cmd got rem (Z.of_nat n) Hc Hrange) as [a' ->].
    destruct (Nat.leb_spec (length rem) CONT_DATA) as [Hle|Hlt]; [done|]. exfalso.
    rewrite continuations_step in E; [done|]. intros Ed%(f_equal length). rewrite length_drop in Ed. cbn [length] in Ed. lia.
  - cbn [app]. rewrite read_silence by done. by apply IH.
  - cbn [app]. rewrite read_foreign by done. by apply IH.
  - rewrite continuations_step in E by done. injection E as -> E. rewrite Hw. cbn [app]. rewrite read_packet by done.
    destruct (push_cont c cmd got rem (Z.of_nat n) Hc Hrange) as [a' ->].
    destruct (Nat.leb_spec (length rem) CONT_DATA) as [Hle|Hlt].
    { exfalso. apply (delivers_nil _ _ _ _ Hs). rewrite E, drop_ge by done. done. }
    replace (Z.of_nat n + 1) with (Z.of_nat (S n)) by lia.
    rewrite (IH (S n)); [by rewrite <- app_assoc, take_drop|done| |].
    + rewrite length_drop. lia.
    + intros Ed%(f_equal length). rewrite length_drop in Ed. cbn [length] in Ed. lia.
Qed.

(** A whole message is read, and what follows it is left alone. *)
Lemma read_whole a c cmd d deadline s rest : is_u32 c -> a_cid a = c -> 0 <= cmd < 128 -> Z.of_nat (length d) <= 7609 ->
  delivers c deadline s (frame c cmd d) -> read_loop a c deadline (s ++ rest) = (Ok (c, cmd, d), rest).
Proof.
  intros Hc Ha Hcmd Hlen Hs. rewrite frame_packets in Hs. remember (_ :: _) as ps eqn:E.
  assert (length (drop INIT_DATA d) <= CONT_DATA * 128)%nat as Hmax.
  { rewrite length_drop. unfold INIT_DATA, CONT_DATA, PACKET_SIZE. lia. }
  induction Hs as [now p Hnow Hp|now s ps Hnow Hs IH|now p s ps Hnow Hlp Hp Hs IH|now p s ps Hnow Hp Hs IH].
  - injection E as -> E. cbn [app]. rewrite read_packet by done.
    destruct (push_init a c cmd d Hc Ha Hcmd ltac:(lia)) as [a' ->].
    destruct (Nat.leb_spec (length d) INIT_DATA) as [Hle|Hlt]; [done|]. exfalso.
    rewrite continuations_step in E; [done|]. intros Ed%(f_equal length). rewrite length_drop in Ed. cbn [length] in Ed. lia.
  - cbn [app]. rewrite read_silence by done. by apply IH.
  - cbn [app]. rewrite read_foreign by done. by apply IH.
  - injection E as -> E. cbn [app]. rewrite read_packet by done.
    destruct (push_init a c cmd d Hc Ha Hcmd ltac:(lia)) as [a' ->].
    destruct (Nat.leb_spec (length d) INIT_DATA) as [Hle|Hlt].
    { exfalso. apply (delivers_nil _ _ _ _ Hs). rewrite E, drop_ge by done. done. }
    change 0 with (Z.of_nat 0). erewrite read_rest; [by rewrite take_drop|done|exact Hs|exact E|lia|].
    intros Ed%(f_equal length). rewrite length_drop in Ed. cbn [length] in Ed. lia.
Qed.

(** ** Exchanges *)

Lemma delivers_length c deadline s ps : delivers c deadline s ps -> (0 < length s)%nat.
Proof. by destruct 1; cbn; lia. Qed.

Lemma write_all_ok io ps : (forall p, io p = Ok ()) -> write_all io ps = Ok ().
Proof. intros H. induction ps as [|p ps IH]; [done|]. cbn. by rewrite H. Qed.

(** a CTAPHID exchange returns what the key answers: however the answer's
    packets are mixed with silences, with packets of other channels and with
    keep-alives, as long as they come before the deadline, [cbor] returns the
    message, whole and unchanged, or the error the key reports, and reads
    nothing beyond it. The framing is [frame]'s, so both directions of the
    transport are inverse for messages of up to 7609 bytes. *)
Theorem hid_exchange_returns_the_answer io c payload now timeout (keepalives : list bytes) cmd d segments rest :
  (forall p, io p = Ok ()) -> is_u32 c -> Z.of_nat (length payload) <= 7609 -> cmd = CMD_CBOR \/ cmd = CMD_ERROR ->
  Forall2 (fun s m => Z.of_nat (length (snd m)) <= 7609 /\ delivers c (now + timeout) s (frame c (fst m) (snd m)))
    segments (map (pair CMD_KEEPALIVE) keepalives ++ [(cmd, d)]) ->
  hid_cbor io now timeout c payload (concat segments ++ rest) =
    (if cmd =? CMD_CBOR then Ok d else Err (hid_error (nth 0 d 0)), rest, false).
Proof.
  intros Hio Hc Hlen Hcmd Hall. unfold hid_cbor, write_message.
  rewrite (proj2 (Z.ltb_ge _ _)) by done. rewrite write_all_ok by done.
  assert (length segments < S (length (concat segments ++ rest)))%nat as Hfuel.
  { rewrite length_app. assert (length segments <= length (concat segments))%nat; [|lia].
    clear -Hall. induction Hall as [|s m ss ms [_ Hs%delivers_length] _ IH]; [done|]. cbn. rewrite length_app. lia. }
  revert Hfuel. generalize (S (length (concat segments ++ rest))) as fuel. intros fuel Hfuel.
  revert segments fuel Hall Hfuel. induction keepalives as [|k ks IH]; intros segments fuel Hall Hfuel.
  - apply Forall2_cons_inv_r in Hall as (s & ss & [Hd Hs] & Hnil & ->). apply Forall2_nil_inv_r in Hnil as ->.
    destruct fuel as [|fuel]; [cbn in Hfuel; lia|]. cbn [cbor_loop concat]. rewrite app_nil_r. unfold read_message.
    rewrite (read_whole (asm_new c) c cmd d) by (done || (destruct Hcmd as [-> | ->]; unfold CMD_CBOR, CMD_ERROR; lia)).
    rewrite Z.eqb_refl. destruct Hcmd as [-> | ->]; done.
  - apply Forall2_cons_inv_r in Hall as (s & ss & [Hd Hs] & Hall & ->). cbn [fst snd] in *.
    destruct fuel as [|fuel]; [cbn in Hfuel; lia|]. cbn [cbor_loop concat]. unfold read_message. rewrite <- app_assoc.
    rewrite (read_whole (asm_new c) c CMD_KEEPALIVE k) by (done || (unfold CMD_KEEPALIVE; lia)).
    rewrite Z.eqb_refl. cbn [negb]. rewrite Z.eqb_refl. apply IH; [done|]. cbn [length] in Hfuel. lia.
Qed.

Definition asm_ok (a : Reassembler) : Prop := (length (a_data a) <= a_len a)%nat /\ Z.of_nat (a_len a) < 65536.

Lemma from_be_2 l : all_bytes l -> (length l <= 2)%nat -> 0 <= from_be l < 65536.
Proof.
  intros Hl Hlen. destruct l as [|b [|b' [|]]]; [done| | |cbn in Hlen; lia].
  - inversion Hl as [|? ? Hb]; subst. unfold in_width in Hb. change (from_be [b]) with (Z.lor (Z.shiftl 0 8) b).
    rewrite Z.shiftl_0_l, Z.lor_0_l. lia.
  - change [b; b'] with ([b] ++ [b']). inversion Hl as [|? ? Hb Hr]; subst. inversion Hr as [|? ? Hb']; subst.
    rewrite from_be_app by exact Hr. unfold in_width in *.
    change (from_be [b]) with (Z.lor (Z.shiftl 0 8) b). change (from_be [b']) with (Z.lor (Z.shiftl 0 8) b').
    rewrite !Z.shiftl_0_l, !Z.lor_0_l. change (2 ^ (8 * Z.of_nat (length [b']))) with 256. lia.
Qed.

Lemma push_ok a p : asm_ok a -> all_bytes p -> asm_ok (fst (push a p)) /\
  forall cmd d, snd (push a p) = Ok (Some (cmd, d)) -> Z.of_nat (length d) < 65536.
Proof.
  intros [H1 H2] Hp. unfold push. destruct (length p <? 5)%nat; [by split|]. destruct (negb _); [by split|].
  assert (forall a', asm_ok a' -> let x := (if (a_len a' <=? length (a_data a'))%nat
    then (mkAsm (a_cid a') (a_cmd a') (a_len a') [] (a_seq a') false, Ok (Some (a_cmd a', a_data a')))
    else (a', Ok None)) : Reassembler * res (option (Z * bytes)) in
    asm_ok (fst x) /\ forall cmd d, snd x = Ok (Some (cmd, d)) -> Z.of_nat (length d) < 65536) as Hfin.
  { intros a' [H3 H4]. cbn. destruct (_ <=? _)%nat; cbn; [|by split]. split; [split; cbn; lia|].
    intros cmd d [= <- <-]. lia. }
  destruct (negb _).
  - destruct (length p <? 7)%nat; [by split|]. apply Hfin.
    assert (0 <= from_be (take 2 (drop 5 p)) < 65536).
    { apply from_be_2; [|rewrite length_take; lia]. by apply Forall_take, Forall_drop. }
    split; cbn; [|lia]. rewrite length_take. lia.
  - destruct (negb (a_started a)); [by split|]. destruct (negb _); [by split|]. apply Hfin.
    split; cbn; [|done]. rewrite length_app, length_take. lia.
Qed.

(** no device can make the reassembler go wrong: after any packets, what it
    holds never exceeds the announced length (so the subtraction of what is
    missing does not wrap), which fits 16 bits, and neither does a message it
    returns. *)
Theorem reassembler_bounded c (packets : list bytes) a : Forall all_bytes packets ->
  a = fold_left (fun a p => fst (push a p)) packets (asm_new c) ->
  (length (a_data a) <= a_len a)%nat /\ Z.of_nat (a_len a) < 65536 /\
  forall p cmd d, all_bytes p -> snd (push a p) = Ok (Some (cmd, d)) -> Z.of_nat (length d) < 65536.
Proof.
  intros Hall ->. assert (asm_ok (asm_new c)) as H0 by (split; cbn; lia). revert H0.
  generalize (asm_new c) as a. induction Hall as [|p ps Hp _ IH]; intros a Ha; cbn.
  - destruct Ha as [H1 H2]. split_and!; [done|done|]. intros p cmd d Hp. by apply push_ok.
  - apply IH. by apply push_ok.
Qed.

(** ** A tag's answer in parts *)

(** A part of an answer with more to come ([61 le]), or "still processing"
    ([91 00]); the command that asks for what follows. *)
Inductive part : Type := More (d : bytes) (le : Z) | Busy (d : bytes).
Definition answer_of (p : part) : bytes := match p with More d le => d ++ [97; le] | Busy d => d ++ [145; 0] end.
Definition next_command (p : part) : bytes :=
  match p with More _ le => [0; 192; 0; 0; le] | Busy _ => [CLA; INS_GET_RESPONSE_CTAP; 0; 0; 0] end.
Definition piece (p : part) : bytes := match p with More d _ => d | Busy _ => [] end.
Definition in_time (deadline : Z) (x : Z * part) : Prop :=
  match snd x with More _ le => is_byte le | Busy _ => fst x < deadline end.
Definition answers_of (parts : list (Z * part)) (t : Z) (d : bytes) : list (Z * bytes) :=
  map (fun x => (fst x, answer_of (snd x))) parts ++ [(t, d ++ [144; 0])].
Definition arrive (l : list (Z * bytes)) : answers := map (fun x => (fst x, Ok (snd x))) l.

Lemma split_sw_app d a b : is_byte b -> split_sw (d ++ [a; b]) = Ok (d, a * 256 + b).
Proof.
  intros Hb. unfold split_sw. rewrite length_app. cbn [length].
  rewrite (proj2 (Nat.ltb_ge _ _)) by lia. replace (length d + 2 - 2)%nat with (length d) by lia.
  rewrite take_app_length, drop_app_length. f_equal. f_equal.
  change [a; b] with ([a] ++ [b]). rewrite from_be_app by (apply Forall_singleton; exact Hb).
  change (from_be [a]) with (Z.lor (Z.shiftl 0 8) a). change (from_be [b]) with (Z.lor (Z.shiftl 0 8) b).
  rewrite !Z.shiftl_0_l, !Z.lor_0_l. change (2 ^ (8 * Z.of_nat (length [b]))) with 256. lia.
Qed.

Lemma collect_parts deadline parts : Forall (in_time deadline) parts -> forall t d out fuel rest first more,
  answers_of parts t d = first :: more -> (length parts < fuel)%nat ->
  collect fuel (fst first) deadline out (snd first) (arrive more ++ rest) =
    (Ok (out ++ concat (map (fun x => piece (snd x)) parts) ++ d), rest, map (fun x => next_command (snd x)) parts).
Proof.
  induction 1 as [|[t0 p] parts Hp Hall IH]; intros t d out fuel rest first more E Hf; (destruct fuel as [|fuel]; [cbn in Hf; lia|]).
  - injection E as <- <-. cbn [collect snd arrive map app]. by rewrite split_sw_app by (by unfold in_width).
  - injection E as <- <-. fold (answers_of parts t d).
    destruct (answers_of parts t d) as [|[t1 r1] more] eqn:Em; [by destruct parts|].
    cbn [length] in Hf. specialize (fun out => IH t d out fuel rest _ _ Em ltac:(lia)). cbn [fst snd] in IH.
    destruct p as [d0 le|d0]; cbn [collect fst snd answer_of]; unfold in_time in Hp; cbn [fst snd] in Hp.
    + rewrite split_sw_app by done.
      assert ((97 * 256 + le =? SW_OK) = false /\ Z.shiftr (97 * 256 + le) 8 = 97 /\ Z.land (97 * 256 + le) 255 = le)
        as (-> & -> & ->).
      { unfold in_width in Hp. change (2 ^ 8) with 256 in Hp. split_and!.
        - apply Z.eqb_neq. unfold SW_OK. lia.
        - rewrite Z.shiftr_div_pow2 by lia. change (2 ^ 8) with 256. rewrite Z.div_add_l, Z.div_small by lia. lia.
        - rewrite land_255, Z.add_comm, Z_mod_plus_full. by apply Z.mod_small. }
      cbn [Z.eqb arrive map app fst snd]. change (97 =? 97) with true. fold (arrive more). rewrite IH. cbn [piece map concat next_command].
      by rewrite !app_assoc.
    + rewrite split_sw_app by (by unfold in_width). change (145 * 256 + 0 =? SW_OK) with false.
      change (Z.shiftr (145 * 256 + 0) 8 =? 97) with false. change (145 * 256 + 0 =? SW_PROCESSING) with true. cbv iota.
      rewrite (proj2 (Z.leb_gt _ _)) by done. cbn [arrive map app fst snd]. fold (arrive more). rewrite IH. done.
Qed.

(** What [exchange] splits a message into. *)
Definition commands (payload : bytes) : list bytes :=
  if (length payload <=? SHORT_MAX)%nat then [payload] else chunks SHORT_MAX payload.
Fixpoint chained (cs : list bytes) : list bytes :=
  match cs with
  | [] => []
  | [c] => [short_apdu CLA c]
  | c :: cs' => short_apdu CLA_CHAINED c :: chained cs'
  end.

Lemma chain_step c c' cs t r b s : split_sw r = Ok (b, SW_OK) -> chain (c :: c' :: cs) ((t, Ok r) :: s) =
  let '(res, s, sent) := chain (c' :: cs) s in (res, s, short_apdu CLA_CHAINED c :: sent).
Proof. intros Hb. cbn [chain transceive fmap result_fmap snd]. by rewrite Hb, Z.eqb_refl. Qed.

Lemma chain_ok cs acks t r s : length cs = S (length acks) ->
  Forall (fun x => exists b, split_sw (snd x) = Ok (b, SW_OK)) acks ->
  chain cs (arrive acks ++ (t, Ok r) :: s) = (Ok (t, r), s, chained cs).
Proof.
  revert acks. induction cs as [|c cs IH]; intros acks Hl Ha; [done|]. destruct acks as [|[t0 a] acks].
  - destruct cs as [|? ?]; [done|cbn in Hl; lia].
  - destruct cs as [|c' cs]; [cbn in Hl; lia|]. apply Forall_cons in Ha as [(b & Hb) Ha]. cbn [snd] in Hb.
    change (arrive ((t0, a) :: acks) ++ (t, Ok r) :: s) with ((t0, Ok a) :: (arrive acks ++ (t, Ok r) :: s)).
    rewrite (chain_step _ _ _ _ _ _ _ Hb), IH; [done| |done]. cbn in *. lia.
Qed.

Lemma first_command_chain payload s : first_command false payload s = chain (commands payload) s.
Proof.
  unfold first_command, commands. cbn [orb andb]. destruct (length payload <=? SHORT_MAX)%nat; [|done].
  cbn [chain]. destruct s as [|[t [r|e]] s]; done.
Qed.

(** an exchange with an NFC token sends the message and returns the answer,
    both whole: the commands carry the payload in chunks of at most 255 bytes
    whose length byte is exact and of which all but the last are marked as
    chained; when the token acknowledges each and then answers in any number of
    parts, polling in between while it waits for a touch, the result is the
    concatenation of the parts, each asked for with the length the token
    named. *)
Theorem nfc_exchange_whole now timeout payload acks parts t d rest :
  length (commands payload) = S (length acks) ->
  Forall (fun x => exists b, split_sw (snd x) = Ok (b, SW_OK)) acks -> Forall (in_time (now + timeout)) parts ->
  exchange now timeout false payload (arrive (acks ++ answers_of parts t d) ++ rest) =
    (Ok (concat (map (fun x => piece (snd x)) parts) ++ d), rest,
     chained (commands payload) ++ map (fun x => next_command (snd x)) parts) /\
  concat (commands payload) = payload /\
  Forall (fun c => (length c <= SHORT_MAX)%nat /\ at_ (short_apdu CLA c) 4 = Z.of_nat (length c)) (commands payload).
Proof.
  intros Hl Ha Hp. split_and!.
  - destruct (answers_of parts t d) as [|[t1 r1] more] eqn:Em; [by destruct parts|].
    unfold exchange. rewrite first_command_chain. unfold arrive at 1. rewrite map_app. fold (arrive acks).
    cbn [map fst snd]. rewrite <- app_assoc. cbn [app]. rewrite (chain_ok _ acks) by done.
    fold (arrive more). rewrite (collect_parts _ _ Hp _ _ [] _ rest _ _ Em); [done|].
    rewrite length_app. unfold arrive. rewrite length_map.
    assert (length (answers_of parts t d) = S (length parts)) as El.
    { unfold answers_of. rewrite length_app, length_map. cbn. lia. }
    rewrite Em in El. cbn in El. lia.
  - unfold commands. destruct (length payload <=? SHORT_MAX)%nat; [cbn; by rewrite app_nil_r|].
    apply concat_chunks.
  - apply Forall_forall. intros c Hc. assert (length c <= SHORT_MAX)%nat as Hb.
    { unfold commands in Hc. destruct (Nat.leb_spec (length payload) SHORT_MAX); [by apply list_elem_of_singleton in Hc as ->|].
      pose proof (chunks_le SHORT_MAX payload ltac:(unfold SHORT_MAX; lia)) as Hle. rewrite Forall_forall in Hle. by apply Hle. }
    split; [done|]. unfold at_, short_apdu. cbn [app nth]. apply wrap_small. unfold in_width, SHORT_MAX in *. lia.
Qed.

(** ** Examples *)

Definition ex_packet (c cmd : Z) (d : bytes) : bytes := nth 0 (frame c cmd d) [].

Lemma hid_exchange_returns_the_answer_witness :
  hid_cbor (fun _ => Ok ()) 0 60000 7 [4]
    ([(1, Ok None); (2, Ok (Some (ex_packet 7 CMD_KEEPALIVE [2])))] ++
     [(3, Ok (Some (ex_packet 8 CMD_CBOR [9]))); (4, Ok (Some (ex_packet 7 CMD_CBOR [0; 1; 2])))] ++ [(5, Ok None)]) =
  (Ok [0; 1; 2], [(5, Ok None)], false).
Proof.
  apply (hid_exchange_returns_the_answer (fun _ => Ok ()) 7 [4] 0 60000 [[2]] CMD_CBOR [0; 1; 2]
    [[(1, Ok None); (2, Ok (Some (ex_packet 7 CMD_KEEPALIVE [2])))];
     [(3, Ok (Some (ex_packet 8 CMD_CBOR [9]))); (4, Ok (Some (ex_packet 7 CMD_CBOR [0; 1; 2])))]] [(5, Ok None)]).
  - done.
  - unfold in_width. lia.
  - cbn. lia.
  - by left.
  - apply Forall2_cons_2; [split; [cbn; lia|]|apply Forall2_cons_2; [split; [cbn; lia|]|constructor]].
    + apply silence; [lia|]. apply last_packet; [lia|vm_compute; reflexivity].
    + apply foreign; [lia|vm_compute; lia|vm_compute; done|]. apply last_packet; [lia|vm_compute; reflexivity].
Defined.

Lemma reassembler_bounded_witness :
  Z.of_nat (a_len (fst (push (asm_new 1) (ex_packet 1 CMD_CBOR [9])))) < 65536.
Proof.
  apply (reassembler_bounded 1 [ex_packet 1 CMD_CBOR [9]] (fst (push (asm_new 1) (ex_packet 1 CMD_CBOR [9]))));
    [|reflexivity].
  apply Forall_singleton. unfold all_bytes. vm_compute. repeat constructor; try done; lia.
Defined.

Lemma nfc_exchange_whole_witness :
  fst (fst (exchange 0 60000 false [4] (arrive ([] ++ answers_of [(1, Busy []); (2, More [0; 161] 1)] 3 [5]) ++ []))) =
    Ok [0; 161; 5].
Proof.
  destruct (nfc_exchange_whole 0 60000 [4] [] [(1, Busy []); (2, More [0; 161] 1)] 3 [5] [] eq_refl
    ltac:(constructor)) as (E & _).
  - repeat constructor; cbn; unfold in_width; try lia.
  - by rewrite E.
Defined.
