(* ===== verification/Net.v ===== *)
(** * Addresses

    What the components use of [std::net]: parsing an IP address out of a
    string and printing one, on the bytes of the text. *)
From stdpp Require Import pretty.
From S2P Require Import Prelude Text.

#[local] Open Scope string_scope.
#[local] Open Scope list_scope.
#[local] Open Scope Z_scope.

(** [IpAddr]: four octets, or eight segments of 16 bits. *)
Inductive IpAddr : Type := V4 (octets : bytes) | V6 (segments : list Z).

#[export] Instance IpAddr_eq_dec : EqDecision IpAddr.
Proof. solve_decision. Defined.

(** [Ipv4Addr::octets], [Ipv6Addr::octets]. *)
Definition octets (ip : IpAddr) : bytes := match ip with V4 o => o | V6 s => flat_map (be_bytes 2) s end.
(** [From<[u8; 16]>]. *)
Definition segments_of (o : bytes) : list Z := map from_be (chunks 2 o).

(** ** Parsing

    The parsers return what they read and the rest. *)

Definition hex_value (b : Z) : option Z :=
  if (48 <=? b) && (b <=? 57) then Some (b - 48)
  else if (97 <=? b) && (b <=? 102) then Some (b - 87)
  else if (65 <=? b) && (b <=? 70) then Some (b - 55)
  else None.
Definition digit_in (radix b : Z) : option Z := d ← hex_value b; if d <? radix then Some d else None.

Fixpoint span_digits (radix : Z) (l : bytes) : list Z * bytes :=
  match l with
  | [] => ([], [])
  | b :: l' => match digit_in radix b with
               | Some d => let '(ds, rest) := span_digits radix l' in (d :: ds, rest)
               | None => ([], l)
               end
  end.

Definition read_number (radix : Z) (max_digits : nat) (max : Z) (zero_prefix : bool) (l : bytes) : option (Z * bytes) :=
  let '(ds, rest) := span_digits radix l in
  let n := fold_left (fun acc d => acc * radix + d) ds 0 in
  if (max_digits <? length ds)%nat || (length ds =? 0)%nat || (max <? n) then None
  else if negb zero_prefix && bool_decide (head ds = Some 0) && (1 <? length ds)%nat then None
  else Some (n, rest).

(** A separator is read before every part but the first. *)
Definition separated {A} (sep : Z) (first : bool) (p : bytes -> option (A * bytes)) (l : bytes) : option (A * bytes) :=
  if first then p l else match l with b :: l' => if b =? sep then p l' else None | [] => None end.

Fixpoint read_octets (n : nat) (first : bool) (l : bytes) : option (bytes * bytes) :=
  match n with
  | O => Some ([], l)
  | S n' =>
      '(o, l) ← separated 46 first (read_number 10 3 255 false) l;
      '(os, l) ← read_octets n' false l;
      Some (o :: os, l)
  end.
Definition read_ipv4 (l : bytes) : option (bytes * bytes) := read_octets 4 true l.

(** Up to [n] groups; the flag tells whether the last two are an IPv4 address. *)
Fixpoint read_groups (n : nat) (first : bool) (l : bytes) : list Z * bool * bytes :=
  match n with
  | O => ([], false, l)
  | S n' =>
      match (if (1 <=? n')%nat then separated 58 first read_ipv4 l else None) with
      | Some (o, rest) => (segments_of o, true, rest)
      | None =>
          match separated 58 first (read_number 16 4 65535 true) l with
          | Some (g, rest) => let '(gs, v4, rest) := read_groups n' false rest in (g :: gs, v4, rest)
          | None => ([], false, l)
          end
      end
  end.

Definition read_ipv6 (l : bytes) : option (list Z * bytes) :=
  let '(front, v4, rest) := read_groups 8 true l in
  if (length front =? 8)%nat then Some (front, rest)
  else if v4 then None
  else
    match rest with
    | 58 :: 58 :: rest =>
        let '(back, _, rest) := read_groups (7 - length front) true rest in
        Some (front ++ replicate (8 - length front - length back) 0 ++ back, rest)
    | _ => None
    end.

(** [str::parse::<Ipv4Addr>] and [str::parse::<IpAddr>]. *)
Definition parse_ipv4 (s : string) : option bytes :=
  match read_ipv4 (as_bytes s) with Some (o, []) => Some o | _ => None end.
Definition parse_ip (s : string) : option IpAddr :=
  match read_ipv4 (as_bytes s) with
  | Some (o, []) => Some (V4 o)
  | Some _ => None
  | None => match read_ipv6 (as_bytes s) with Some (g, []) => Some (V6 g) | _ => None end
  end.

(** ** Printing *)

Fixpoint intercalate (sep : string) (l : list string) : string :=
  match l with [] => "" | [s] => s | s :: l' => s +:+ sep +:+ intercalate sep l' end.

Definition show_ipv4 (o : bytes) : string := intercalate "." (map pretty o).

Definition hex_char (d : Z) : string := of_bytes [if d <? 10 then 48 + d else 87 + d].
(** [{:x}] of a 16-bit number. *)
Definition hex16 (z : Z) : string :=
  let ds := map (fun i => Z.shiftr z (4 * i) `mod` 16) [3; 2; 1; 0] in
  fold_right (fun d s => hex_char d +:+ s) "" (match ds with
    | [a; b; c; d] => if negb (a =? 0) then ds else if negb (b =? 0) then [b; c; d] else if negb (c =? 0) then [c; d] else [d]
    | _ => ds
    end).

(** The first of the longest runs of zero segments: where it starts and its
    length. *)
Fixpoint zero_run (i : nat) (cur best : nat * nat) (l : list Z) : nat * nat :=
  match l with
  | [] => best
  | g :: l' =>
      if g =? 0 then
        let cur := (if (snd cur =? 0)%nat then i else fst cur, S (snd cur)) in
        zero_run (S i) cur (if (snd best <? snd cur)%nat then cur else best) l'
      else zero_run (S i) (0, 0)%nat best l'
  end.

Definition show_ipv6 (s : list Z) : string :=
  let groups l := intercalate ":" (map hex16 l) in
  match s with
  | [0; 0; 0; 0; 0; 65535; a; b] => "::ffff:" +:+ show_ipv4 (be_bytes 2 a ++ be_bytes 2 b)
  | _ =>
      let '(start, len) := zero_run 0 (0, 0)%nat (0, 0)%nat s in
      if (1 <? len)%nat then groups (take start s) +:+ "::" +:+ groups (drop (start + len) s)
      else groups s
  end.

(** [IpAddr]'s [Display]. *)
Definition show_ip (ip : IpAddr) : string := match ip with V4 o => show_ipv4 o | V6 s => show_ipv6 s end.

(** ** Facts *)

Lemma span_digits_spec radix l ds rest : span_digits radix l = (ds, rest) -> Forall (fun d => 0 <= d) ds.
Proof.
  revert ds. induction l as [|b l IH]; intros ds; cbn; [by intros [= <- <-]|].
  destruct (digit_in radix b) as [d|] eqn:E; [|by intros [= <- <-]].
  destruct (span_digits radix l) as [ds' r]. intros [= <- <-]. constructor; [|by apply IH].
  unfold digit_in, hex_value in E. repeat case_match; simplify_eq/=; case_match; simplify_eq; lia.
Qed.

Lemma read_number_range radix k max z l n rest : 0 <= radix ->
  read_number radix k max z l = Some (n, rest) -> 0 <= n <= max.
Proof.
  intros Hr. unfold read_number. destruct (span_digits radix l) as [ds r] eqn:E.
  destruct (_ || (max <? _)) eqn:E1; [done|]. apply orb_false_iff in E1 as [_ E1].
  destruct (_ && _); [done|]. intros [= <- <-]. split; [|lia].
  apply span_digits_spec in E. clear E1.
  assert (forall acc, 0 <= acc -> 0 <= fold_left (fun acc d => acc * radix + d) ds acc) as H; [|by apply H].
  induction E as [|d ds Hd _ IH]; intros acc Ha; cbn; [done|]. apply IH. nia.
Qed.

Lemma separated_inv {A} sep first (p : bytes -> option (A * bytes)) l x : separated sep first p l = Some x -> exists l', p l' = Some x.
Proof. unfold separated. destruct first; [by eauto|]. destruct l as [|b l]; [done|]. destruct (b =? sep); [by eauto|done]. Qed.

Lemma read_octets_spec n first l o rest : read_octets n first l = Some (o, rest) -> length o = n /\ all_bytes o.
Proof.
  revert first l o. induction n as [|n IH]; intros first l o; cbn [read_octets]; [intros [= <-]; repeat constructor|].
  destruct (separated _ _ _ l) as [[x l1]|] eqn:Ex; [|done]. cbn. destruct (read_octets n false l1) as [[os l2]|] eqn:E; [|done].
  cbn. intros [= <- <-]. destruct (IH _ _ _ E) as [H1 H2]. split; [cbn; lia|]. constructor; [|done].
  apply separated_inv in Ex as [l' Ex]. apply read_number_range in Ex; [|done]. unfold in_width. lia.
Qed.

Lemma segments_of_ipv4 o : length o = 4%nat -> all_bytes o -> length (segments_of o) = 2%nat /\ Forall is_u16 (segments_of o).
Proof.
  destruct o as [|a [|b [|c [|d [|e o]]]]]; try done. intros _ H. apply (all_bytes_app [a; b] [c; d]) in H as [H1 H2].
  split; [done|]. unfold segments_of. cbn. repeat constructor; by apply (from_be_range [_; _]).
Qed.

Lemma read_groups_spec n first l g v4 rest : read_groups n first l = (g, v4, rest) ->
  (length g <= n)%nat /\ Forall is_u16 g.
Proof.
  revert first l g v4 rest. induction n as [|n IH]; intros first l g v4 rest; cbn [read_groups]; [intros [= <- <- <-]; by split|].
  destruct (if (1 <=? n)%nat then _ else None) as [[o r]|] eqn:E4.
  { destruct (Nat.leb_spec 1 n); [|done]. intros [= <- <- <-]. apply separated_inv in E4 as [l' E4].
    apply read_octets_spec in E4 as [H1 H2]. destruct (segments_of_ipv4 o H1 H2). split; [lia|done]. }
  destruct (separated 58 first (read_number 16 4 65535 true) l) as [[x r]|] eqn:E; [|intros [= <- <- <-]; split; [cbn; lia|done]].
  destruct (read_groups n false r) as [[gs v] r'] eqn:Eg. intros [= <- <- <-]. destruct (IH _ _ _ _ _ Eg).
  apply separated_inv in E as [l' E]. apply read_number_range in E; [|done].
  split; [cbn; lia|]. constructor; [unfold in_width; lia|done].
Qed.

Lemma read_ipv6_spec l g rest : read_ipv6 l = Some (g, rest) -> length g = 8%nat /\ Forall is_u16 g.
Proof.
  unfold read_ipv6. destruct (read_groups 8 true l) as [[front v4] r] eqn:E. apply read_groups_spec in E as [H1 H2].
  destruct (Nat.eqb_spec (length front) 8); [by intros [= <- <-]|]. destruct v4; [done|].
  destruct r as [|[|p|p] r]; try done; repeat (destruct p as [p|p|]; try done).
  destruct r as [|[|p|p] r]; try done; repeat (destruct p as [p|p|]; try done).
  destruct (read_groups (7 - length front) true r) as [[back v] r'] eqn:E. apply read_groups_spec in E as [H3 H4].
  intros [= <- <-]. split; [rewrite !length_app, length_replicate; lia|].
  rewrite !Forall_app. split; [done|]. split; [|done]. by apply Forall_replicate.
Qed.

Lemma segments_of_octets s : Forall is_u16 s -> segments_of (flat_map (be_bytes 2) s) = s.
Proof.
  unfold segments_of. induction 1 as [|g s Hg _ IH]; [done|]. cbn [flat_map].
  change (chunks 2 (be_bytes 2 g ++ flat_map (be_bytes 2) s)) with (chunks 2 (be_bytes 2 g ++ flat_map (be_bytes 2) s)).
  rewrite chunks_step by lia. change (be_bytes 2 g ++ flat_map (be_bytes 2) s) with
    (Z.land (Z.shiftr g 8) 255 :: Z.land (Z.shiftr g 0) 255 :: flat_map (be_bytes 2) s) at 1.
  cbv iota. change (take 2 (be_bytes 2 g ++ _)) with (be_bytes 2 g). change (drop 2 (be_bytes 2 g ++ ?x)) with (drop 0 x).
  rewrite drop_0. cbn [map]. by rewrite IH, (from_be_be_bytes 2) by exact Hg.
Qed.

(** What a parsed address looks like on the wire, and back. *)
Definition well_formed (ip : IpAddr) : Prop :=
  match ip with V4 o => length o = 4%nat /\ all_bytes o | V6 s => length s = 8%nat /\ Forall is_u16 s end.

Lemma parse_ip_ok s ip : parse_ip s = Some ip -> well_formed ip.
Proof.
  unfold parse_ip, read_ipv4. destruct (read_octets _ _ _) as [[o [|]]|] eqn:E; [|done|].
  - intros [= <-]. by eapply read_octets_spec.
  - destruct (read_ipv6 _) as [[g [|]]|] eqn:E6; [|done|done]. intros [= <-]. by eapply read_ipv6_spec.
Qed.

Lemma parse_ipv4_length s o : parse_ipv4 s = Some o -> length o = 4%nat.
Proof.
  unfold parse_ipv4, read_ipv4. destruct (read_octets _ _ _) as [[? [|]]|] eqn:E; [|done|done].
  intros [= ->]. by eapply read_octets_spec.
Qed.

Lemma octets_length ip : well_formed ip -> length (octets ip) = match ip with V4 _ => 4%nat | V6 _ => 16%nat end.
Proof.
  destruct ip as [o|s]; intros [H1 H2]; [done|]. cbn [octets]. clear H2.
  do 9 (destruct s as [|? s]; try done).
Qed.

Lemma octets_back ip : well_formed ip -> match ip with V4 _ => V4 (octets ip) | V6 _ => V6 (segments_of (octets ip)) end = ip.
Proof. destruct ip as [o|s]; intros [H1 H2]; [done|]. cbn [octets]. by rewrite segments_of_octets. Qed.

Lemma octets_bytes ip : well_formed ip -> all_bytes (octets ip).
Proof.
  destruct ip as [o|s]; intros [H1 H2]; [done|]. cbn [octets]. clear. unfold all_bytes.
  induction s as [|g s IH]; [constructor|]. cbn [flat_map]. apply Forall_app. split; [apply be_bytes_all|done].
Qed.

Lemma addresses_read_and_printed :
  map (fun s => show_ip <$> parse_ip s)
    ["10.0.0.7"; "::1"; "fe80:0:0:1:0:0:0:a"; "::ffff:1.2.3.4"; "1:2:3:4:5:6:7:8"; "2001:DB8::"; "::"] =
  [Some "10.0.0.7"; Some "::1"; Some "fe80:0:0:1::a"; Some "::ffff:1.2.3.4"; Some "1:2:3:4:5:6:7:8";
   Some "2001:db8::"; Some "::"] /\
  map parse_ip ["1.2.3.04"; "1.2.3"; "1::2::3"; "256.1.1.1"; "1:2:3:4:5:6:7"; "localhost"; ""; "::1%eth0"] =
  replicate 8 None.
Proof. vm_compute. done. Qed.
