(* ===== verification/Conv.v ===== *)
(** * Conversations over a stream

    The code that talks to a peer over a socket before the bytes of a session
    flow: reads of an exact number of bytes, reads of one byte, writes, opening
    the other end, and finally [copy_bidirectional]. [Io] is the monad such a
    function is written in: a tree of calls, the [?] operator its bind. A read
    past the end of the stream fails the conversation; a failing write, which
    does the same, is not modelled.

    [run] is what a conversation does with a given input. [step] lets two of
    them talk to each other over two streams, one call at a time in any order;
    [conversation_determined] shows that the order does not matter. *)
From S2P Require Import Prelude.

(** The members of [CoreError] these conversations end with. *)
Inductive CoreError : Type := Ssh (m : string) | Invalid (m : string) | IoError (m : string).
#[export] Instance CoreError_eq_dec : EqDecision CoreError.
Proof. solve_decision. Defined.

(** [UnexpectedEof] of [read_exact]. *)
Definition eof : CoreError := IoError "early eof".

(** [D] is what can be connected to. *)
Inductive Io (D A : Type) : Type :=
| Done (r : result CoreError A)
| WriteAll (b : bytes) (k : Io D A)
| ReadExact (n : nat) (k : bytes -> Io D A)
| ReadByte (k : option Z -> Io D A)
| Connect (d : D) (k : result CoreError unit -> Io D A)
| WriteDest (b : bytes) (k : Io D A)
| Pipe (k : Io D A).
Arguments Done {D A} r.
Arguments WriteAll {D A} b k.
Arguments ReadExact {D A} n k.
Arguments ReadByte {D A} k.
Arguments Connect {D A} d k.
Arguments WriteDest {D A} b k.
Arguments Pipe {D A} k.

Fixpoint io_bind {D A B} (f : A -> Io D B) (m : Io D A) : Io D B :=
  match m with
  | Done (Ok a) => f a
  | Done (Err e) => Done (Err e)
  | WriteAll b k => WriteAll b (io_bind f k)
  | ReadExact n k => ReadExact n (fun b => io_bind f (k b))
  | ReadByte k => ReadByte (fun b => io_bind f (k b))
  | Connect d k => Connect d (fun r => io_bind f (k r))
  | WriteDest b k => WriteDest b (io_bind f k)
  | Pipe k => Pipe (io_bind f k)
  end.
#[export] Instance io_mbind {D} : MBind (Io D) := fun _ _ => io_bind.
#[export] Instance io_mret {D} : MRet (Io D) := fun _ a => Done (Ok a).

Definition fail {D A} (e : CoreError) : Io D A := Done (Err e).
Definition write_all {D} (b : bytes) : Io D unit := WriteAll b (mret ()).
Definition read_exact {D} (n : nat) : Io D bytes := ReadExact n mret.
Definition read_byte {D} : Io D (option Z) := ReadByte mret.
Definition connect_to {D} (d : D) : Io D (result CoreError unit) := Connect d mret.
Definition write_dest {D} (b : bytes) : Io D unit := WriteDest b (mret ()).
Definition pipe {D} : Io D unit := Pipe (mret ()).
Definition lift {D A} (r : result CoreError A) : Io D A := Done r.

(** What a conversation does. *)
Inductive Event (D : Type) : Type := Wrote (b : bytes) | Connected (d : D) | Sent (b : bytes) | Piped.
Arguments Wrote {D} b.
Arguments Connected {D} d.
Arguments Sent {D} b.
Arguments Piped {D}.

Definition written {D} (es : list (Event D)) : bytes := flat_map (fun e => match e with Wrote b => b | _ => [] end) es.

Section Semantics.
Context {D : Type} (answer : D -> result CoreError unit).

(** What [m] does when it is sent [input] and the stream ends: its calls, its
    result and what it left unread. *)
Fixpoint run {A} (m : Io D A) (input : bytes) : list (Event D) * result CoreError A * bytes :=
  match m with
  | Done r => ([], r, input)
  | WriteAll b k => let '(es, r, rest) := run k input in (Wrote b :: es, r, rest)
  | ReadExact n k =>
      if (n <=? length input)%nat then run (k (take n input)) (drop n input) else ([], Err eof, [])
  | ReadByte k => match input with [] => run (k None) [] | b :: input' => run (k (Some b)) input' end
  | Connect d k => let '(es, r, rest) := run (k (answer d)) input in (Connected d :: es, r, rest)
  | WriteDest b k => let '(es, r, rest) := run k input in (Sent b :: es, r, rest)
  | Pipe k => let '(es, r, rest) := run k input in (Piped :: es, r, rest)
  end.

(** One call, while the stream is open: a read waits for its bytes. *)
Definition advance {A} (m : Io D A) (input : bytes) : option (Io D A * bytes * list (Event D)) :=
  match m with
  | Done _ => None
  | WriteAll b k => Some (k, input, [Wrote b])
  | ReadExact n k => if (n <=? length input)%nat then Some (k (take n input), drop n input, []) else None
  | ReadByte k => match input with [] => None | b :: input' => Some (k (Some b), input', []) end
  | Connect d k => Some (k (answer d), input, [Connected d])
  | WriteDest b k => Some (k, input, [Sent b])
  | Pipe k => Some (k, input, [Piped])
  end.

Lemma run_bind {A B} (m : Io D A) (f : A -> Io D B) input :
  run (m ≫= f) input =
  let '(es, r, rest) := run m input in
  match r with
  | Ok a => let '(es', r', rest') := run (f a) rest in (es ++ es', r', rest')
  | Err e => (es, Err e, rest)
  end.
Proof.
  change (m ≫= f) with (io_bind f m).
  revert input. induction m as [[a|e]|b k IH|n k IH|k IH|d k IH|b k IH|k IH]; intros input; cbn [io_bind run].
  - by destruct (run (f a) input) as [[? ?] ?].
  - done.
  - rewrite IH. destruct (run k input) as [[es [a|e]] rest]; [|done]. by destruct (run (f a) rest) as [[? ?] ?].
  - destruct (n <=? length input)%nat; [apply IH|done].
  - destruct input; apply IH.
  - rewrite IH. destruct (run (k (answer d)) input) as [[es [a|e]] rest]; [|done]. by destruct (run (f a) rest) as [[? ?] ?].
  - rewrite IH. destruct (run k input) as [[es [a|e]] rest]; [|done]. by destruct (run (f a) rest) as [[? ?] ?].
  - rewrite IH. destruct (run k input) as [[es [a|e]] rest]; [|done]. by destruct (run (f a) rest) as [[? ?] ?].
Qed.

Lemma run_read {A} n (k : bytes -> Io D A) input :
  run (read_exact n ≫= k) input =
  if (n <=? length input)%nat then run (k (take n input)) (drop n input) else ([], Err eof, []).
Proof. done. Qed.
Lemma run_read_app {A} (k : bytes -> Io D A) n l rest : length l = n ->
  run (read_exact n ≫= k) (l ++ rest) = run (k l) rest.
Proof.
  intros <-. by rewrite run_read, length_app, (proj2 (Nat.leb_le _ _)), take_app_length, drop_app_length by lia.
Qed.

Lemma advance_more {A} (m m' : Io D A) input rest es extra :
  advance m input = Some (m', rest, es) -> advance m (input ++ extra) = Some (m', rest ++ extra, es).
Proof.
  destruct m as [r|b k|n k|k|d k|b k|k]; cbn; try (intros [= <- <- <-]; done).
  - rewrite length_app. destruct (Nat.leb_spec n (length input)); [|done]. intros [= <- <- <-].
    rewrite (proj2 (Nat.leb_le _ _)) by lia. by rewrite take_app_le, drop_app_le by done.
  - destruct input; [done|]. by intros [= <- <- <-].
Qed.

Lemma advance_wf {A} (m : Io D A) : Acc (fun m' m => exists i r es, advance m i = Some (m', r, es)) m.
Proof.
  induction m as [r|b k IH|n k IH|k IH|d k IH|b k IH|k IH]; constructor; intros m' (i & s & es & E); cbn in E.
  - done.
  - by injection E as <- _ _.
  - destruct (n <=? length i)%nat; [|done]. injection E as <- _ _. apply IH.
  - destruct i; [done|]. injection E as <- _ _. apply IH.
  - injection E as <- _ _. apply IH.
  - by injection E as <- _ _.
  - by injection E as <- _ _.
Qed.
End Semantics.

(** ** Two ends of one connection *)

Record Pair (D1 A D2 B : Type) := mkPair {
  left_ : Io D1 A; right_ : Io D2 B; to_left : bytes; to_right : bytes; did : list (Event D1); done_ : list (Event D2)
}.
Arguments mkPair {D1 A D2 B} left_ right_ to_left to_right did done_.

Section Talk.
Context {D1 A D2 B : Type} (answer1 : D1 -> result CoreError unit) (answer2 : D2 -> result CoreError unit).

Inductive step : Pair D1 A D2 B -> Pair D1 A D2 B -> Prop :=
| Left_ l l' r i i' o es fs es' :
    advance answer1 l i = Some (l', i', es') ->
    step (mkPair l r i o es fs) (mkPair l' r i' (o ++ written es') (es ++ es') fs)
| Right_ l r r' i o o' es fs fs' :
    advance answer2 r o = Some (r', o', fs') ->
    step (mkPair l r i o es fs) (mkPair l r' (i ++ written fs') o' es (fs ++ fs')).

Lemma talk_ends (p : Pair D1 A D2 B) : sn step p.
Proof.
  destruct p as [l r i o es fs]. revert r i o es fs. induction (advance_wf answer1 l) as [l _ IHl]. intros r.
  induction (advance_wf answer2 r) as [r _ IHr]. intros i o es fs. constructor. intros q Hq.
  inversion Hq as [? l' ? ? i' ? ? ? es' E|? ? r' ? ? o' ? ? fs' E]; subst; [apply IHl|apply IHr]; eauto.
Qed.

Lemma talk_confluent : confluent step.
Proof.
  apply locally_confluent_confluent; [apply talk_ends|]. intros p q1 q2 H1 H2.
  destruct H1 as [l l1 r i i1 o es fs e1 E1|l r r1 i o o1 es fs f1 E1];
    inversion H2 as [? l2 ? ? i2 ? ? ? e2 E2|? ? r2 ? ? o2 ? ? f2 E2]; subst.
  - rewrite E1 in E2. injection E2 as <- <- <-. eauto using rtc_refl.
  - exists (mkPair l1 r2 (i1 ++ written f2) (o2 ++ written e1) (es ++ e1) (fs ++ f2)).
    split; apply rtc_once; constructor; by apply advance_more.
  - exists (mkPair l2 r1 (i2 ++ written f1) (o1 ++ written e2) (es ++ e2) (fs ++ f1)).
    split; apply rtc_once; constructor; by apply advance_more.
  - rewrite E1 in E2. injection E2 as <- <- <-. eauto using rtc_refl.
Qed.

(** Running a schedule. *)
Section Schedule.
Context (z : Pair D1 A D2 B).
Abbreviation goes p := (rtc step p z).

Lemma left_write b k r i o es fs :
  goes (mkPair k r i (o ++ b) (es ++ [Wrote b]) fs) -> goes (mkPair (WriteAll b k) r i o es fs).
Proof. intros H. eapply rtc_l; [by constructor|]. cbn. by rewrite app_nil_r. Qed.
Lemma left_read l k r i o es fs n : n = length l ->
  goes (mkPair (k l) r i o es fs) -> goes (mkPair (ReadExact n k) r (l ++ i) o es fs).
Proof.
  intros -> H. eapply rtc_l; [apply (Left_ _ (k l) _ _ i _ _ _ [])|by rewrite !app_nil_r].
  cbn. by rewrite length_app, (proj2 (Nat.leb_le _ _)), take_app_length, drop_app_length by lia.
Qed.
Lemma right_write b l k i o es fs :
  goes (mkPair l k (i ++ b) o es (fs ++ [Wrote b])) -> goes (mkPair l (WriteAll b k) i o es fs).
Proof. intros H. eapply rtc_l; [by constructor|]. cbn. by rewrite app_nil_r. Qed.
Lemma right_read b l k i o es fs n : n = length b ->
  goes (mkPair l (k b) i o es fs) -> goes (mkPair l (ReadExact n k) i (b ++ o) es fs).
Proof.
  intros -> H. eapply rtc_l; [apply (Right_ _ _ (k b) _ _ o _ _ [])|by rewrite !app_nil_r].
  cbn. by rewrite length_app, (proj2 (Nat.leb_le _ _)), take_app_length, drop_app_length by lia.
Qed.
Lemma right_connect d l k i o es fs :
  goes (mkPair l (k (answer2 d)) i o es (fs ++ [Connected d])) -> goes (mkPair l (Connect d k) i o es fs).
Proof. intros H. eapply rtc_l; [by constructor|]. cbn. by rewrite app_nil_r. Qed.
Lemma right_pipe l k i o es fs :
  goes (mkPair l k i o es (fs ++ [Piped])) -> goes (mkPair l (Pipe k) i o es fs).
Proof. intros H. eapply rtc_l; [by constructor|]. cbn. by rewrite app_nil_r. Qed.
End Schedule.

(** One schedule that ends decides them all: no schedule gets stuck before,
    runs for ever or ends otherwise. *)
Lemma conversation_determined p z : rtc step p z -> nf step z ->
  sn step p /\ forall q, rtc step p q -> rtc step q z.
Proof.
  intros Hz Hnf. split; [apply talk_ends|]. intros q Hq.
  destruct (talk_confluent p q z Hq Hz) as (y & Hy & Hzy). by rewrite (rtc_nf z y Hzy Hnf).
Qed.

Lemma both_done (x : result CoreError A) (y : result CoreError B) i o es fs :
  nf step (mkPair (Done x) (Done y) i o es fs).
Proof. intros [q Hq]. by inversion Hq. Qed.
End Talk.
