(* ===== verification/Proxy.v ===== *)
(** * Proxies and forwards

    [crates/termoso-core/src/ssh/proxy.rs], the client's side of HTTP CONNECT,
    SOCKS4(a) and SOCKS5, and of [forward.rs] the forwarding rules and the
    SOCKS5 server of a dynamic forward, as conversations ([Conv]). Opening the
    TCP connection, the SSH channel and base64 are arguments. *)
From stdpp Require Import pretty.
From Stdlib Require Import Ascii.
From S2P Require Import Prelude Text Net Conv.

#[local] Open Scope string_scope.
#[local] Open Scope list_scope.
#[local] Open Scope Z_scope.

Inductive ProxyKind : Type := Http | Socks4 | Socks5.

(** [ProxyKind::parse]. *)
Definition parse (s : string) : option ProxyKind :=
  let l := of_bytes (lowercase (as_bytes s)) in
  if decide (l ∈ ["http"; "https"]) then Some Http
  else if decide (l ∈ ["socks4"; "socks4a"]) then Some Socks4
  else if decide (l ∈ ["socks"; "socks5"; "socks5h"]) then Some Socks5
  else None.
Definition supports_password (k : ProxyKind) : bool := match k with Socks4 => false | _ => true end.
Definition label (k : ProxyKind) : string := match k with Http => "HTTP" | Socks4 => "SOCKS4" | Socks5 => "SOCKS5" end.

Record ProxyConfig := mkProxy {
  kind : ProxyKind; proxy_host : string; proxy_port : Z; username : option string; password : option string
}.

Definition crlf : bytes := [13; 10].
Definition MAX_HEAD : Z := 16 * 1024.
Definition nul : ascii := Ascii.zero.
Definition lenZ (s : string) : Z := Z.of_nat (length (as_bytes s)).

Section Client.
Context {D : Type} (b64 : bytes -> string).
Abbreviation conv := (Io D).

(** ** HTTP CONNECT *)

Definition http_request (proxy : ProxyConfig) (host : string) (port : Z) : bytes :=
  let at_ := as_bytes (host +:+ ":" +:+ pretty port) in
  as_bytes "CONNECT " ++ at_ ++ as_bytes " HTTP/1.1" ++ crlf ++ as_bytes "Host: " ++ at_ ++ crlf ++
  (match username proxy with
   | Some user =>
       let pw := default "" (password proxy) in
       as_bytes "Proxy-Authorization: Basic " ++ as_bytes (b64 (as_bytes (user +:+ ":" +:+ pw))) ++ crlf
   | None => []
   end) ++ crlf.

(** [buf.ends_with(b"\r\n\r\n")]. *)
Definition ends_head (buf : bytes) : bool := bool_decide (drop (length buf - 4) buf = [13; 10; 13; 10]).

(** One byte per round; [buf] is refused before it reaches the fuel. *)
Fixpoint read_head (fuel : nat) (buf : bytes) : conv bytes :=
  if ends_head buf then mret buf
  else if MAX_HEAD <? Z.of_nat (length buf) then fail (Ssh "proxy: response headers too large")
  else
    match fuel with
    | O => fail (Ssh "proxy: response headers too large")
    | S fuel' =>
        b ← read_byte;
        match b with
        | None => fail (Ssh "proxy: connection closed during CONNECT")
        | Some b => read_head fuel' (buf ++ [b])
        end
    end.

(** The status of a response head. *)
Definition status (head : bytes) : option Z :=
  word ← split_whitespace (first_line (as_bytes (from_utf8_lossy head))) !! 1%nat;
  parse_uint 65535 word.
Definition verdict (head : bytes) : result CoreError unit :=
  match status head with
  | None => Err (Ssh "proxy: malformed CONNECT response")
  | Some s =>
      if (200 <=? s) && (s <? 300) then Ok ()
      else Err (Ssh ("proxy: CONNECT failed with HTTP " +:+ pretty s))
  end.

Definition http_connect (proxy : ProxyConfig) (host : string) (port : Z) : conv unit :=
  write_all (http_request proxy host port);;
  head ← read_head (Z.to_nat (MAX_HEAD + 2)) [];
  lift (verdict head).

(** ** SOCKS4 *)

Definition socks4_reply (resp : bytes) : result CoreError unit :=
  if negb (nth 0 resp 0 =? 0) then Err (Ssh ("socks4: bad reply version " +:+ pretty (nth 0 resp 0)))
  else
    match nth 1 resp 0 with
    | 90 => Ok ()
    | 91 => Err (Ssh "socks4: request rejected or failed")
    | 92 => Err (Ssh "socks4: rejected — proxy cannot reach identd on the client")
    | 93 => Err (Ssh "socks4: rejected — user id does not match identd")
    | c => Err (Ssh ("socks4: unexpected reply 0x" +:+ hex16 c))
    end.

Definition socks4_connect (proxy : ProxyConfig) (host : string) (port : Z) : conv unit :=
  let user := default "" (username proxy) in
  if contains_char nul user then fail (Ssh "socks4: user id contains NUL")
  else
    let v4 := parse_ipv4 host in
    let req := [4; 1] ++ be_bytes 2 port ++ default [0; 0; 0; 1] v4 ++ as_bytes user ++ [0] in
    req ← (match v4 with
           | Some _ => mret req
           | None =>
               if contains_char nul host then fail (Ssh "socks4: hostname contains NUL")
               else mret (req ++ as_bytes host ++ [0])
           end);
    write_all req;;
    resp ← read_exact 8;
    lift (socks4_reply resp).

(** ** SOCKS5 *)

Definition socks5_auth (proxy : ProxyConfig) : conv unit :=
  let user := default "" (username proxy) in
  let pw := default "" (password proxy) in
  if (255 <? lenZ user) || (255 <? lenZ pw) then fail (Ssh "socks5: credentials too long")
  else
    write_all ([1; wrap8 (lenZ user)] ++ as_bytes user ++ [wrap8 (lenZ pw)] ++ as_bytes pw);;
    r ← read_exact 2;
    if negb (nth 1 r 0 =? 0) then fail (Ssh "socks5: authentication rejected") else mret ().

(** The CONNECT request: the address, or the name for the proxy to resolve. *)
Definition socks5_address (host : string) : result CoreError bytes :=
  match parse_ip host with
  | Some (V4 _ as ip) => Ok (1 :: octets ip)
  | Some (V6 _ as ip) => Ok (4 :: octets ip)
  | None =>
      if 255 <? lenZ host then Err (Ssh "socks5: hostname too long")
      else Ok ([3; wrap8 (lenZ host)] ++ as_bytes host)
  end.

Definition socks5_reason (code : Z) : string :=
  match code with
  | 1 => "general failure" | 2 => "connection not allowed" | 3 => "network unreachable" | 4 => "host unreachable"
  | 5 => "connection refused" | 6 => "TTL expired" | 7 => "command not supported" | 8 => "address type not supported"
  | _ => "unknown error"
  end.

(** After the method is settled. *)
Definition socks5_bound (head : bytes) : conv unit :=
  if negb (nth 1 head 0 =? 0) then fail (Ssh ("socks5: " +:+ socks5_reason (nth 1 head 0)))
  else
    addr_len ← (match nth 3 head 0 with
                | 1 => mret 4%nat
                | 4 => mret 16%nat
                | 3 => l ← read_exact 1; mret (Z.to_nat (nth 0 l 0))
                | t => fail (Ssh ("socks5: bad bound address type " +:+ pretty t))
                end);
    read_exact (addr_len + 2);;
    mret ().
Definition socks5_request (host : string) (port : Z) : conv unit :=
  addr ← lift (socks5_address host);
  write_all ([5; 1; 0] ++ addr ++ be_bytes 2 port);;
  head ← read_exact 4;
  socks5_bound head.

Definition socks5_connect (proxy : ProxyConfig) (host : string) (port : Z) : conv unit :=
  write_all (match username proxy with Some _ => [5; 2; 0; 2] | None => [5; 1; 0] end);;
  resp ← read_exact 2;
  if negb (nth 0 resp 0 =? 5) then fail (Ssh "socks5: bad version")
  else
    (match nth 1 resp 0 with
     | 0 => mret ()
     | 2 => socks5_auth proxy
     | 255 => fail (Ssh "socks5: no acceptable auth method")
     | m => fail (Ssh ("socks5: unexpected auth method " +:+ pretty m))
     end);;
    socks5_request host port.

(** [connect]; [tcp] is the outcome of [TcpStream::connect] to the proxy. *)
Definition connect (proxy : ProxyConfig) (tcp : result string unit) (host : string) (port : Z) : conv unit :=
  match tcp with
  | Err e => fail (Ssh ("proxy " +:+ proxy_host proxy +:+ ":" +:+ pretty (proxy_port proxy) +:+ ": " +:+ e))
  | Ok _ =>
      match kind proxy with
      | Http => http_connect proxy host port
      | Socks4 => socks4_connect proxy host port
      | Socks5 => socks5_connect proxy host port
      end
  end.
End Client.

(** ** Forwards *)

Record PfRule := mkRule {
  rule_label : string; rule_host_id : N; rule_kind : string; bound_address : string; local_port : Z;
  remote_host : string; remote_port : Z; auto_start : bool
}.
Inductive ForwardSpec : Type :=
| Local (bind : string) (port : Z) (remote_host : string) (remote_port : Z)
| Remote (bind : string) (port : Z) (local_host : string) (local_port : Z)
| Dynamic (bind : string) (port : Z).

(** [{:?}] of a string is [debug]. *)
Definition from_rule (debug : string -> string) (rule : PfRule) : result CoreError ForwardSpec :=
  let bind := if decide (bound_address rule = "") then "127.0.0.1" else bound_address rule in
  if decide (rule_kind rule = "local") then Ok (Local bind (local_port rule) (remote_host rule) (remote_port rule))
  else if decide (rule_kind rule = "remote") then
    Ok (Remote (if decide (bound_address rule = "127.0.0.1") then "localhost" else bound_address rule)
          (remote_port rule)
          (if decide (remote_host rule = "") then "127.0.0.1" else remote_host rule) (local_port rule))
  else if decide (rule_kind rule = "dynamic") then Ok (Dynamic bind (local_port rule))
  else Err (Invalid ("unknown forwarding kind " +:+ debug (rule_kind rule))).

(** What a dynamic forward connects to: [direct_tcpip] to a host and port. *)
Abbreviation target := (string * Z)%type.

Definition refused (code : Z) : bytes := [5; code; 0; 1; 0; 0; 0; 0; 0; 0].

(** The address of the request. *)
Definition socks5_host (kind : Z) : Io target string :=
  match kind with
  | 1 => a ← read_exact 4; mret (show_ip (V4 a))
  | 4 => a ← read_exact 16; mret (show_ip (V6 (segments_of a)))
  | 3 => l ← read_exact 1; name ← read_exact (Z.to_nat (nth 0 l 0)); mret (from_utf8_lossy name)
  | _ => write_all (refused 8);; fail (Invalid "socks: bad address type")
  end.

Definition serve_request : Io target unit :=
  req ← read_exact 4;
  if negb (nth 1 req 0 =? 1) then
    write_all (refused 7);; fail (Invalid "socks: only CONNECT supported")
  else
    host ← socks5_host (nth 3 req 0);
    p ← read_exact 2;
    r ← connect_to (host, from_be p);
    match r with
    | Ok _ => write_all (refused 0);; pipe
    | Err e => write_all (refused 5);; fail e
    end.
Definition socks5_serve : Io target unit :=
  hdr ← read_exact 2;
  if negb (nth 0 hdr 0 =? 5) then fail (Invalid "socks: not version 5")
  else
    methods ← read_exact (Z.to_nat (nth 1 hdr 0));
    if bool_decide (0 ∈ methods) then write_all [5; 0];; serve_request
    else write_all [5; 255];; fail (Invalid "socks: client requires auth").

(** ** A client of a dynamic forward *)

(** What the forward is asked to connect to. *)
Definition named (host : string) : string := match parse_ip host with Some ip => show_ip ip | None => host end.

(** The server reads the host back out of the address of a request. *)
Lemma host_of_address host addr : socks5_address host = Ok addr -> valid_utf8 (as_bytes host) = true ->
  exists t a, addr = t :: a /\
  forall D (answer1 : D -> result CoreError unit) answer2 A B (l : Io D A) (k : string -> Io target B) i o es fs z,
    rtc (step answer1 answer2) (mkPair l (k (named host)) i o es fs) z ->
    rtc (step answer1 answer2) (mkPair l (socks5_host t ≫= k) i (a ++ o) es fs) z.
Proof.
  unfold socks5_address, named. intros Ha Hv. destruct (parse_ip host) as [ip|] eqn:E.
  - pose proof (parse_ip_ok _ _ E) as Hw. pose proof (octets_length ip Hw) as Hl. pose proof (octets_back ip Hw) as Hb.
    destruct ip as [o|s]; injection Ha as <-; eexists _, _; (split; [done|]); intros * H.
    + by apply (right_read _ _ _ o _ (fun a => k (show_ip (V4 a)))).
    + apply (right_read _ _ _ (octets (V6 s)) _ (fun a => k (show_ip (V6 (segments_of a))))); [done|].
      assert (segments_of (octets (V6 s)) = s) as -> by congruence. done.
  - destruct (255 <? lenZ host) eqn:Hlen; [done|]. injection Ha as <-. eexists _, _. split; [done|]. intros * H. cbn.
    assert (wrap8 (lenZ host) = lenZ host) as -> by (apply wrap_small; unfold in_width, lenZ in *; lia).
    apply (right_read _ _ _ [lenZ host]); [done|]. cbn. apply right_read; [unfold lenZ; lia|].
    by rewrite from_utf8_lossy_valid.
Qed.

Section Through.
Context {D : Type} (answer1 : D -> result CoreError unit) (answer2 : target -> result CoreError unit).
Abbreviation goes p z := (rtc (step (A := unit) (B := unit) answer1 answer2) p z).

Definition greeting (proxy : ProxyConfig) : bytes :=
  match username proxy with Some _ => [5; 2; 0; 2] | None => [5; 1; 0] end.

Lemma handshake proxy host port z :
  goes (mkPair (socks5_request host port) serve_request [] [] [Wrote (greeting proxy)] [Wrote [5; 0]]) z ->
  goes (mkPair (socks5_connect proxy host port) socks5_serve [] [] [] []) z.
Proof.
  intros H. unfold socks5_connect. apply left_write. unfold greeting in H. destruct (username proxy).
  - apply (right_read _ _ _ [5; 2] _ _ _ [0; 2]); [done|]. apply (right_read _ _ _ [0; 2] _ _ _ []); [done|].
    apply right_write. by apply (left_read _ _ _ [5; 0] _ _ []).
  - apply (right_read _ _ _ [5; 1] _ _ _ [0]); [done|]. apply (right_read _ _ _ [0] _ _ _ []); [done|].
    apply right_write. by apply (left_read _ _ _ [5; 0] _ _ []).
Qed.

(** How the exchange of request and answer ends on either side, what the
    client has not read, and what the server did last. *)
Definition outcome (r : result CoreError unit) : result CoreError unit * result CoreError unit * bytes * list (Event target) :=
  match r with
  | Ok _ => (Ok (), Ok (), [], [Wrote (refused 0); Piped])
  | Err e => (Err (Ssh "socks5: connection refused"), Err e, replicate 6 0, [Wrote (refused 5)])
  end.

Lemma exchange host port addr es fs :
  socks5_address host = Ok addr -> valid_utf8 (as_bytes host) = true -> is_u16 port ->
  let dest := (named host, port) in
  let '(mine, theirs, unread, does) := outcome (answer2 dest) in
  goes (mkPair (socks5_request host port) serve_request [] [] es fs)
    (mkPair (Done mine) (Done theirs) unread [] (es ++ [Wrote ([5; 1; 0] ++ addr ++ be_bytes 2 port)])
       (fs ++ [Connected dest] ++ does)).
Proof.
  intros Ha Hv Hp dest. destruct (host_of_address host addr Ha Hv) as (t & a & -> & Hread).
  destruct (outcome (answer2 dest)) as [[[mine theirs] unread] does] eqn:E. unfold socks5_request. rewrite Ha.
  apply left_write. apply (right_read _ _ _ [5; 1; 0; t] _ _ _ (a ++ be_bytes 2 port)); [done|].
  apply Hread. rewrite <- (app_nil_r (be_bytes 2 port)) at 1. apply right_read; [done|]. apply right_connect.
  rewrite (from_be_be_bytes 2) by exact Hp. fold dest. unfold outcome in E. destruct (answer2 dest) as [u|e]; injection E as <- <- <- <-.
  - apply right_write, right_pipe. apply (left_read _ _ _ [5; 0; 0; 1] _ _ [0; 0; 0; 0; 0; 0]); [done|].
    apply (left_read _ _ _ [0; 0; 0; 0; 0; 0] _ _ []); [done|]. by rewrite <- !app_assoc.
  - apply right_write. apply (left_read _ _ _ [5; 5; 0; 1] _ _ [0; 0; 0; 0; 0; 0]); [done|]. by rewrite <- !app_assoc.
Qed.
End Through.

(** C23: A SOCKS5 client (with or without credentials) and the server of a
    dynamic forward, over one connection: under every interleaving both end, the
    same way. The server is asked once to open exactly the host and port the
    client wanted (an address in its canonical form), the client learns whether
    that worked, credentials are not sent, and after a success no byte of the
    session that follows has been read. *)
Theorem socks5_through_forward {D} (answer1 : D -> result CoreError unit) answer2 proxy host port addr :
  socks5_address host = Ok addr -> valid_utf8 (as_bytes host) = true -> is_u16 port ->
  let start := mkPair (socks5_connect proxy host port) socks5_serve [] [] [] [] in
  let step := step answer1 answer2 in
  let dest := (named host, port) in
  let '(mine, theirs, unread, does) := outcome (answer2 dest) in
  let end_ := mkPair (Done mine) (Done theirs) unread []
                [Wrote (greeting proxy); Wrote ([5; 1; 0] ++ addr ++ be_bytes 2 port)]
                ([Wrote [5; 0]; Connected dest] ++ does) in
  sn step start /\ forall q, rtc step start q -> rtc step q end_.
Proof.
  intros Ha Hv Hp start step0 dest.
  pose proof (exchange answer1 answer2 host port addr [Wrote (greeting proxy)] [Wrote [5; 0]] Ha Hv Hp) as H.
  cbv zeta in H. fold dest in H. destruct (outcome (answer2 dest)) as [[[mine theirs] unread] does].
  apply conversation_determined; [|apply both_done]. by apply handshake.
Qed.

(** ** HTTP CONNECT *)

(** The head of a response ends after [n] bytes. *)
Definition first_end (input : bytes) (n : nat) : Prop :=
  (n <= length input)%nat /\ ends_head (take n input) = true /\ forall m, (m < n)%nat -> ends_head (take m input) = false.

Lemma read_head_run {D} (answer : D -> result CoreError unit) fuel buf input :
  Z.of_nat (length buf) <= MAX_HEAD + 1 -> MAX_HEAD + 2 <= Z.of_nat (fuel + length buf) ->
  (forall m, (m < length buf)%nat -> ends_head (take m (buf ++ input)) = false) ->
  (exists n, first_end (buf ++ input) n /\ Z.of_nat n <= MAX_HEAD + 1 /\ (length buf <= n)%nat /\
     run answer (read_head fuel buf) input = ([], Ok (take n (buf ++ input)), drop n (buf ++ input))) \/
  ((forall n, first_end (buf ++ input) n -> MAX_HEAD + 1 < Z.of_nat n) /\
   run answer (read_head fuel buf) input =
     ([], Err (Ssh (if MAX_HEAD <? Z.of_nat (length (buf ++ input)) then "proxy: response headers too large"
                    else "proxy: connection closed during CONNECT")),
      drop (Z.to_nat (MAX_HEAD + 1)) (buf ++ input))).
Proof.
  revert buf input. induction fuel as [|fuel IH]; intros buf input Hb Hf Hno; [lia|].
  cbn [read_head]. destruct (ends_head buf) eqn:Ee.
  { left. exists (length buf). rewrite take_app_length, drop_app_length. split_and!; try done.
    unfold first_end. rewrite length_app, take_app_length. split_and!; [lia|done|done]. }
  destruct (Z.ltb_spec MAX_HEAD (Z.of_nat (length buf))) as [Hl|Hl].
  { right. assert (Z.to_nat (MAX_HEAD + 1) = length buf) as Hn by lia. split.
    - intros n (H1 & H2 & H3). destruct (decide (Z.of_nat n <= MAX_HEAD + 1)) as [Hle|]; [|lia].
      destruct (decide (n = length buf)) as [->|]; [by rewrite take_app_length, Ee in H2|].
      rewrite Hno in H2 by lia. done.
    - rewrite Hn, drop_app_length, length_app. cbn.
      by rewrite (proj2 (Z.ltb_lt _ _)) by lia. }
  change (run answer (b ← read_byte; _) input) with
    (match input with [] => run (D := D) answer (A := bytes) (fail (Ssh "proxy: connection closed during CONNECT")) []
     | b :: input' => run answer (read_head fuel (buf ++ [b])) input' end).
  destruct input as [|b input].
  { right. rewrite app_nil_r in *. split.
    - intros n (H1 & H2 & H3). destruct (decide (n = length buf)) as [->|]; [by rewrite take_ge, Ee in H2 by lia|].
      rewrite Hno in H2 by lia. done.
    - rewrite drop_ge by lia. cbn. by rewrite (proj2 (Z.ltb_ge _ _)) by lia. }
  replace (buf ++ b :: input) with ((buf ++ [b]) ++ input) in * by (by rewrite <- app_assoc).
  destruct (IH (buf ++ [b]) input) as [(n & H1 & H2 & H3 & H4)|H].
  - rewrite length_app. cbn. lia.
  - rewrite length_app. cbn. lia.
  - intros m Hm. rewrite length_app in Hm. cbn in Hm. destruct (decide (m = length buf)) as [->|]; [|apply Hno; lia].
    by rewrite <- app_assoc, take_app_length.
  - left. exists n. split_and!; try done. rewrite length_app in H3. lia.
  - by right.
Qed.

(** C36: CONNECT writes its request and reads exactly the head of the answer, up
    to the first empty line and never a byte of the session behind it; the
    status in its first line decides. A head longer than 16 KiB + 1 byte, or a
    stream that ends before the empty line, is an error, so it always ends. *)
Theorem http_connect_reads_one_head {D} (answer : D -> result CoreError unit) b64 proxy host port input :
  let '(es, r, rest) := run answer (http_connect b64 proxy host port) input in
  es = [Wrote (http_request b64 proxy host port)] /\
  ((exists n, first_end input n /\ Z.of_nat n <= MAX_HEAD + 1 /\ r = verdict (take n input) /\ rest = drop n input) \/
   ((forall n, first_end input n -> MAX_HEAD + 1 < Z.of_nat n) /\ rest = drop (Z.to_nat (MAX_HEAD + 1)) input /\
    r = Err (Ssh (if MAX_HEAD <? Z.of_nat (length input) then "proxy: response headers too large"
                  else "proxy: connection closed during CONNECT")))).
Proof.
  unfold http_connect. rewrite run_bind. cbn [run write_all mret io_mret]. cbv beta iota. rewrite run_bind.
  set (fuel := Z.to_nat (MAX_HEAD + 2)).
  destruct (read_head_run answer fuel [] input) as [(n & H1 & H2 & _ & E)|[H E]];
    [unfold MAX_HEAD; cbn; lia|unfold fuel, MAX_HEAD; cbn; lia|cbn; lia| |]; rewrite E; cbn [app]; split; try done.
  - left. by exists n.
  - by right.
Qed.

(** ** SOCKS4 *)

(** A SOCKS4a server's reading of a request: the port, the address or the name,
    and the user id; nothing may follow. *)
Definition marks_name (ip : bytes) : bool :=
  bool_decide (take 3 ip = [0; 0; 0]) && negb (bool_decide (drop 3 ip = [0])).
Definition socks4_server (req : bytes) : option (Z * (bytes + bytes) * bytes) :=
  match req with
  | 4 :: 1 :: p1 :: p2 :: req =>
      let ip := take 4 req in
      '(user, rest) ← split_once_bytes 0 (drop 4 req);
      if marks_name ip then
        '(name, rest) ← split_once_bytes 0 rest;
        if decide (rest = []) then Some (from_be [p1; p2], inr name, user) else None
      else if decide (rest = []) then Some (from_be [p1; p2], inl ip, user) else None
  | _ => None
  end.

Lemma split_at_first b l r : b ∉ l -> split_once_bytes b (l ++ b :: r) = Some (l, r).
Proof.
  induction l as [|c l IH]; intros H; cbn; [by rewrite Z.eqb_refl|].
  apply not_elem_of_cons in H as [H1 H2]. rewrite (proj2 (Z.eqb_neq c b)) by done. by rewrite IH.
Qed.

Lemma no_nul s : contains_char nul s = false -> 0 ∉ as_bytes s.
Proof. unfold contains_char. by intros ?%bool_decide_eq_false. Qed.

Lemma socks4_reply_ok resp : socks4_reply resp = Ok () <-> nth 0 resp 0 = 0 /\ nth 1 resp 0 = 90.
Proof.
  unfold socks4_reply. destruct (Z.eqb_spec (nth 0 resp 0) 0) as [H|H]; cbn; [|by split; [|intros []]].
  split; [|by intros [_ ->]]. intros E. split; [done|].
  destruct (nth 1 resp 0) as [|q|q]; try done. repeat (destruct q as [q|q|]; try done).
Qed.

Lemma socks4_tail {D} (answer : D -> result CoreError unit) req input :
  let '(es, r, rest) := run answer (write_all req;; resp ← read_exact 8; lift (socks4_reply resp)) input in
  es = [Wrote req] /\
  if (8 <=? length input)%nat then rest = drop 8 input /\ r = socks4_reply (take 8 input) /\
    (r = Ok () <-> nth 0 input 0 = 0 /\ nth 1 input 0 = 90)
  else rest = [] /\ r = Err eof.
Proof.
  unfold write_all, read_exact, lift, mbind, io_mbind. cbn [io_bind mret io_mret run].
  destruct (Nat.leb_spec 8 (length input)) as [H|H]; [|done]. split_and!; [done..|].
  pose proof (socks4_reply_ok (take 8 input)) as Hok. do 8 (destruct input as [|? input]; [cbn in H; lia|]). exact Hok.
Qed.

(** A SOCKS4 request is read back by the server as exactly the port, the
    address (or, for anything that is not an IPv4 literal, the name) and the
    user id it was made from: a user id or name with a NUL, which would end the
    field early, is refused before anything is sent. The answer is the next
    eight bytes, and only code 90 of version 0 is a success. *)
Theorem socks4_request_unambiguous {D} (answer : D -> result CoreError unit) proxy host port input :
  is_u16 port ->
  let user := default "" (username proxy) in
  let '(es, r, rest) := run answer (socks4_connect proxy host port) input in
  (es = [] /\ is_ok r = false /\ rest = input /\
   (contains_char nul user = true \/ parse_ipv4 host = None /\ contains_char nul host = true)) \/
  (exists req, es = [Wrote req] /\
   match parse_ipv4 host with
   | Some ip => marks_name ip = false -> socks4_server req = Some (port, inl ip, as_bytes user)
   | None => socks4_server req = Some (port, inr (as_bytes host), as_bytes user)
   end /\
   if (8 <=? length input)%nat then rest = drop 8 input /\ r = socks4_reply (take 8 input) /\
     (r = Ok () <-> nth 0 input 0 = 0 /\ nth 1 input 0 = 90)
   else rest = [] /\ r = Err eof).
Proof.
  intros Hp user.
  assert (Hport : forall x, be_bytes 2 port ++ x = Z.land (Z.shiftr port 8) 255 :: Z.land (Z.shiftr port 0) 255 :: x) by done.
  assert (from_be [Z.land (Z.shiftr port 8) 255; Z.land (Z.shiftr port 0) 255] = port) as Hback
    by (apply (from_be_be_bytes 2), Hp).
  unfold socks4_connect. fold user. destruct (contains_char nul user) eqn:Hu; [cbn; left; auto|].
  apply no_nul in Hu. destruct (parse_ipv4 host) as [ip|] eqn:Hip; [|destruct (contains_char nul host) eqn:Hh; [cbn; left; auto 10|]].
  - pose proof (parse_ipv4_length _ _ Hip) as Hl.
    pose proof (socks4_tail answer ([4; 1] ++ be_bytes 2 port ++ ip ++ as_bytes user ++ [0]) input) as H.
    cbn [default from_option id]. change (run answer (_ ← mret _; _) input) with
      (run answer (write_all ([4; 1] ++ be_bytes 2 port ++ ip ++ as_bytes user ++ [0]);; resp ← read_exact 8;
         lift (socks4_reply resp)) input).
    destruct (run _ _ input) as [[es r] rest]. destruct H as [-> H]. right. eexists. split; [done|]. split; [|done].
    intros Hm. rewrite Hport. cbn [app socks4_server]. rewrite Hback.
    rewrite (take_app_length' ip), (drop_app_length' ip) by done.
    rewrite split_at_first by done. cbn [mbind option_bind]. rewrite Hm. by rewrite decide_True.
  - apply no_nul in Hh.
    pose proof (socks4_tail answer (([4; 1] ++ be_bytes 2 port ++ [0; 0; 0; 1] ++ as_bytes user ++ [0]) ++ as_bytes host ++ [0]) input) as H.
    cbn [default from_option id]. change (run answer (_ ← mret _; _) input) with
      (run answer (write_all (([4; 1] ++ be_bytes 2 port ++ [0; 0; 0; 1] ++ as_bytes user ++ [0]) ++ as_bytes host ++ [0]);;
         resp ← read_exact 8; lift (socks4_reply resp)) input).
    destruct (run _ _ input) as [[es r] rest]. destruct H as [-> H]. right. eexists. split; [done|]. split; [|done].
    rewrite <- !app_assoc, Hport. cbn [app socks4_server drop take]. rewrite Hback, drop_0, split_at_first by done. cbn.
    rewrite split_at_first by done. cbn. done.
Qed.

(** ** What a SOCKS5 client accepts *)

Inductive auth_part (proxy : ProxyConfig) : bytes -> Prop :=
| NoAuth : auth_part proxy [5; 0]
| UserPass v :
    lenZ (default "" (username proxy)) <= 255 -> lenZ (default "" (password proxy)) <= 255 ->
    auth_part proxy [5; 2; v; 0].
Inductive bound_part : bytes -> Prop :=
| Bound4 a : length a = 6%nat -> bound_part (1 :: a)
| Bound6 a : length a = 18%nat -> bound_part (4 :: a)
| BoundName l a : length a = (Z.to_nat l + 2)%nat -> bound_part (3 :: l :: a).

Section Accepts.
Context {D : Type} (answer : D -> result CoreError unit).
Abbreviation succeeds m stream rest := (exists es, run answer m stream = (es, Ok (), rest)).

Lemma succeeds_read n (k : bytes -> Io D unit) stream rest :
  succeeds (ReadExact n k) stream rest <-> exists a s, length a = n /\ stream = a ++ s /\ succeeds (k a) s rest.
Proof.
  cbn [run]. split.
  - intros [es E]. destruct (Nat.leb_spec n (length stream)); [|done]. exists (take n stream), (drop n stream).
    rewrite take_drop, length_take. split; [lia|]. by eauto.
  - intros (a & s & <- & -> & es & E). exists es. rewrite length_app, (proj2 (Nat.leb_le _ _)) by lia.
    by rewrite take_app_length, drop_app_length.
Qed.

Lemma succeeds_write b (k : Io D unit) stream rest : succeeds (WriteAll b k) stream rest <-> succeeds k stream rest.
Proof.
  cbn [run]. destruct (run answer k stream) as [[es r] s]. split; intros [es' E]; simplify_eq; by eexists.
Qed.

Lemma succeeds_done stream rest : succeeds (Done (Ok ())) stream rest <-> stream = rest.
Proof. cbn. split; [by intros [? [= _ <-]]|intros ->; by eexists]. Qed.
Lemma succeeds_fail e stream rest : ~ succeeds (Done (Err e)) stream rest.
Proof. by intros [? [=]]. Qed.

Lemma succeeds_bound head t stream rest : length head = 3%nat ->
  succeeds (socks5_bound (head ++ [t])) stream rest <->
  nth 1 head 0 = 0 /\ exists b, bound_part b /\ t :: stream = b ++ rest.
Proof.
  destruct head as [|v [|c [|x [|y head]]]]; try done. intros _. unfold socks5_bound. cbn [nth app].
  destruct (Z.eqb_spec c 0) as [->|Hc]; cbn [negb]; [|split; [by intros ?%succeeds_fail|by intros [? _]]].
  assert (forall k stream, succeeds (read_exact k;; mret ()) stream rest <-> exists a, length a = k /\ stream = a ++ rest) as Hskip.
  { intros k stream'. unfold mbind, io_mbind, read_exact. cbn [io_bind mret io_mret]. rewrite succeeds_read.
    setoid_rewrite succeeds_done. split; [intros (a & s & ? & -> & ->)|intros (a & ? & ->)]; eauto 10. }
  split.
  - intros H. split; [done|]. destruct (decide (t = 1)) as [->|H1].
    { apply (Hskip 6%nat) in H as (a & Ha & ->). exists (1 :: a). split; [by constructor|done]. }
    destruct (decide (t = 4)) as [->|H4].
    { apply (Hskip 18%nat) in H as (a & Ha & ->). exists (4 :: a). split; [by constructor|done]. }
    destruct (decide (t = 3)) as [->|H3].
    { apply (succeeds_read 1) in H as ([|l [|? ?]] & s & Hl & -> & H); try done.
      apply (Hskip (Z.to_nat l + 2)%nat) in H as (a & Ha & ->). exists (3 :: l :: a). split; [by constructor|done]. }
    exfalso. destruct t as [|q|q]; try (by apply succeeds_fail in H);
      repeat (destruct q as [q|q|]; try (by apply succeeds_fail in H); try done).
  - intros [_ (b & Hb & E)]. destruct Hb as [a Ha|a Ha|l a Ha]; injection E as -> ->.
    + apply (Hskip 6%nat). eauto.
    + apply (Hskip 18%nat). eauto.
    + apply (succeeds_read 1). exists [l], (a ++ rest). split_and!; try done. apply (Hskip (Z.to_nat l + 2)%nat). eauto.
Qed.

Lemma succeeds_request host port stream rest :
  succeeds (socks5_request host port) stream rest <->
  is_ok (socks5_address host) = true /\ exists v x b, bound_part b /\ stream = [v; 0; x] ++ b ++ rest.
Proof.
  unfold socks5_request. destruct (socks5_address host) as [addr|e];
    [|cbn; split; [by intros ?%succeeds_fail|by intros [? _]]].
  change (succeeds (lift (Ok addr) ≫= _) stream rest) with
    (succeeds (WriteAll ([5; 1; 0] ++ addr ++ be_bytes 2 port) (ReadExact 4 socks5_bound)) stream rest).
  rewrite succeeds_write, succeeds_read. split.
  - intros (a & s & Ha & -> & H). split; [done|]. destruct a as [|v [|c [|x [|t [|? ?]]]]]; try done.
    apply (succeeds_bound [v; c; x] t) in H as [Hc (b & Hb & E)]; [|done]. cbn in Hc. subst c.
    exists v, x, b. split; [done|]. cbn. by rewrite <- E.
  - intros [_ (v & x & b & Hb & ->)]. assert (exists t b', b = t :: b') as (t & b' & ->) by (destruct Hb; eauto).
    exists [v; 0; x; t], (b' ++ rest). split_and!; try done. apply (succeeds_bound [v; 0; x] t); [done|]. eauto.
Qed.

Lemma succeeds_auth proxy (k : Io D unit) stream rest :
  succeeds (socks5_auth proxy;; k) stream rest <->
  lenZ (default "" (username proxy)) <= 255 /\ lenZ (default "" (password proxy)) <= 255 /\
  exists v s, stream = [v; 0] ++ s /\ succeeds k s rest.
Proof.
  unfold socks5_auth. destruct (_ || _) eqn:E.
  { split; [by intros ?%succeeds_fail|]. intros (H1 & H2 & _). apply orb_true_iff in E. lia. }
  apply orb_false_iff in E. unfold mbind, io_mbind, write_all, read_exact. cbn [io_bind mret io_mret].
  rewrite succeeds_write, succeeds_read. split.
  - intros (a & s & Ha & -> & H). split; [lia|]. split; [lia|]. destruct a as [|v [|c [|? ?]]]; try done. cbn [nth] in H.
    destruct (Z.eqb_spec c 0) as [->|]; cbn [negb] in H; [|by apply succeeds_fail in H]. by exists v, s.
  - intros (_ & _ & v & s & -> & H). by exists [v; 0], s.
Qed.
End Accepts.

(** The SOCKS5 client succeeds on exactly the streams of the reference
    grammar: method 0, or method 2 and an accepted login when its credentials
    fit a byte; then an answer with code 0 and a bound address, which is
    skipped whole, so that the session starts at its first byte. Every other
    stream is an error, as is a name of more than 255 bytes. *)
Theorem socks5_accepts_exactly {D} (answer : D -> result CoreError unit) proxy host port stream rest :
  (exists es, run answer (socks5_connect proxy host port) stream = (es, Ok (), rest)) <->
  is_ok (socks5_address host) = true /\
  exists auth v x bound, auth_part proxy auth /\ bound_part bound /\ stream = auth ++ [v; 0; x] ++ bound ++ rest.
Proof.
  unfold socks5_connect. unfold write_all at 1, read_exact at 1, mbind at 1 2, io_mbind. cbn [io_bind mret io_mret].
  rewrite succeeds_write, succeeds_read. split.
  - intros (a & s & Ha & -> & H). destruct a as [|b [|m [|? ?]]]; try done. cbn [nth] in H.
    destruct (Z.eqb_spec b 5) as [->|]; cbn [negb] in H; [|by apply succeeds_fail in H].
    destruct (decide (m = 0)) as [->|H0].
    { apply succeeds_request in H as [Hok (v & x & bd & Hb & ->)]. split; [done|]. exists [5; 0], v, x, bd.
      split_and!; try done. constructor. }
    destruct (decide (m = 2)) as [->|H2].
    { apply succeeds_auth in H as (Hu & Hp & v0 & s' & -> & H). apply succeeds_request in H as [Hok (v & x & bd & Hb & ->)].
      split; [done|]. exists [5; 2; v0; 0], v, x, bd. split_and!; try done. by constructor. }
    exfalso. destruct m as [|q|q]; try done; try (by apply succeeds_fail in H);
      repeat (destruct q as [q|q|]; try (by apply succeeds_fail in H); try done).
  - intros [Hok (auth & v & x & bd & Ha & Hb & ->)]. destruct Ha as [|v0 Hu Hp].
    + exists [5; 0], ([v; 0; x] ++ bd ++ rest). split_and!; try done. apply succeeds_request. eauto 10.
    + exists [5; 2], ([v0; 0] ++ [v; 0; x] ++ bd ++ rest). split_and!; try done. apply succeeds_auth.
      split_and!; [done..|]. exists v0, ([v; 0; x] ++ bd ++ rest). split; [done|]. apply succeeds_request. eauto 10.
Qed.

(** ** Concrete inputs *)

Module Sample.
Definition proxy : ProxyConfig := mkProxy Socks5 "proxy.example" 1080 (Some "alice") (Some "pw").
Definition answer (t : target) : result CoreError unit :=
  if decide (t = ("2001:db8::1", 22)) then Ok () else Err (Ssh "administratively prohibited").
Definition nowhere (d : unit) : result CoreError unit := Ok ().
End Sample.

Lemma socks5_through_forward_witness :
  let start := mkPair (socks5_connect (D := unit) Sample.proxy "2001:DB8:0::1" 22) socks5_serve [] [] [] [] in
  let addr := 4 :: [32; 1; 13; 184] ++ replicate 11 0 ++ [1] in
  let end_ := mkPair (Done (Ok ())) (Done (Ok ())) [] []
                [Wrote [5; 2; 0; 2]; Wrote ([5; 1; 0] ++ addr ++ [0; 22])]
                [Wrote [5; 0]; Connected ("2001:db8::1", 22); Wrote (refused 0); Piped] in
  sn (step Sample.nowhere Sample.answer) start /\
  forall q, rtc (step Sample.nowhere Sample.answer) start q -> rtc (step Sample.nowhere Sample.answer) q end_.
Proof.
  intros start addr end_.
  exact (socks5_through_forward Sample.nowhere Sample.answer Sample.proxy "2001:DB8:0::1" 22 addr
           ltac:(by vm_compute) ltac:(by vm_compute) ltac:(by vm_compute)).
Defined.

Lemma socks4_request_unambiguous_witness :
  is_u16 22 /\
  (let '(es, r, rest) := run Sample.nowhere (socks4_connect Sample.proxy "host.example" 22) [0; 90; 0; 0; 0; 0; 0; 0; 83] in
   (es = [] /\ is_ok r = false /\ rest = [0; 90; 0; 0; 0; 0; 0; 0; 83] /\
    (contains_char nul "alice" = true \/ parse_ipv4 "host.example" = None /\ contains_char nul "host.example" = true)) \/
   (exists req, es = [Wrote req] /\ socks4_server req = Some (22, inr (as_bytes "host.example"), as_bytes "alice") /\
    rest = [83] /\ r = Ok () /\ (r = Ok () <-> 0 = 0 /\ 90 = 90))).
Proof.
  split; [by vm_compute|].
  exact (socks4_request_unambiguous Sample.nowhere Sample.proxy "host.example" 22 [0; 90; 0; 0; 0; 0; 0; 0; 83] ltac:(by vm_compute)).
Defined.

(** What the other two accept and refuse. *)
Lemma answers_of_proxies :
  run Sample.nowhere (http_connect (fun _ => "YWxpY2U6cHc=") Sample.proxy "host.example" 22)
    (as_bytes "HTTP/1.1 200 Connection established" ++ crlf ++ as_bytes "X: y" ++ crlf ++ crlf ++ [83; 83; 72]) =
    ([Wrote (http_request (fun _ => "YWxpY2U6cHc=") Sample.proxy "host.example" 22)], Ok (), [83; 83; 72]) /\
  snd (fst (run Sample.nowhere (http_connect (fun _ => "") Sample.proxy "host.example" 22)
    (as_bytes "HTTP/1.1 407 Proxy Authentication Required" ++ crlf ++ crlf))) = Err (Ssh "proxy: CONNECT failed with HTTP 407") /\
  run Sample.nowhere (socks5_connect Sample.proxy "host.example" 22) ([5; 2; 1; 0] ++ [5; 0; 0; 3; 2; 65; 66; 0; 0] ++ [83]) =
    ([Wrote [5; 2; 0; 2]; Wrote ([1; 5] ++ as_bytes "alice" ++ [2] ++ as_bytes "pw");
      Wrote ([5; 1; 0; 3; 12] ++ as_bytes "host.example" ++ [0; 22])], Ok (), [83]).
Proof. vm_compute. done. Qed.
