(* ===== verification/X11.v ===== *)
(** * X11 forwarding

    [crates/termoso-core/src/ssh/x11.rs]: the local display, the connection
    setup an X client sends, the swap of the fake cookie for the real one, and
    the Xauthority file. A channel is a conversation ([Conv]); connecting to the
    display is its [Connect]. Reading the environment and the file, and drawing
    the fake cookie, are arguments. *)
From stdpp Require Import pretty.
From Stdlib Require Import Ascii.
From S2P Require Import Prelude Text Conv.

#[local] Open Scope string_scope.
#[local] Open Scope list_scope.
#[local] Open Scope Z_scope.

Definition AUTH_PROTOCOL : string := "MIT-MAGIC-COOKIE-1".
Definition MAX_SETUP : nat := Z.to_nat (12 + 4 * 1024).
Definition slash : ascii := "/".
Definition colon : ascii := ":".
Definition dot : ascii := ".".

(** ** The display *)

Inductive DisplayTarget : Type := Unix (path : string) | Tcp (host : string) (port : Z).
Record LocalDisplay := mkDisplay { target : DisplayTarget; number : Z; screen : Z }.

(** [6000 + number as u16], wrapping as the release profile does. *)
Definition tcp_port (number : Z) : Z := wrap16 (6000 + wrap16 number).

(** [LocalDisplay::parse] on Windows or not; [{:?}] of a string is [debug]. *)
Definition u32_max : Z := 2 ^ 32 - 1.
Definition parse_display (windows : bool) (debug : string -> string) (display : string) :
    result CoreError LocalDisplay :=
  let display := trim display in
  let bad := Ssh ("invalid DISPLAY " +:+ debug display) in
  '(host, rest) ← ok_or (rsplit_once colon display) bad;
  let '(number, screen) := default (rest, "0") (split_once dot rest) in
  number ← ok_or (parse_uint u32_max (as_bytes number)) bad;
  screen ← ok_or (parse_uint u32_max (as_bytes screen)) bad;
  let host :=
    match rsplit_once slash host with
    | Some (proto, h) =>
        if contains_char slash proto || contains_char slash h || String.prefix "/" proto then host else h
    | None => host
    end in
  let target :=
    if String.prefix "/" host then Unix host
    else if bool_decide (host = "") || bool_decide (host = "unix") then
      if windows then Tcp "127.0.0.1" (tcp_port number)
      else Unix ("/tmp/.X11-unix/X" +:+ pretty number)
    else Tcp host (tcp_port number) in
  Ok (mkDisplay target number screen).

(** [detect]; [env] is [$DISPLAY]. *)
Definition not_blank (d : string) : bool := negb (bool_decide (trim d = "")).
Definition detect (windows : bool) (debug : string -> string) (override_display env : option string) :
    option LocalDisplay :=
  let given o := match o with Some d => if not_blank d then Some d else None | None => None end in
  value ← (match given override_display, given env with
           | Some d, _ => Some d
           | None, Some d => Some d
           | None, None => if windows then Some "127.0.0.1:0" else None
           end);
  match parse_display windows debug value with Ok d => Some d | Err _ => None end.

(** ** The connection setup *)

Record Setup := mkSetup { little_endian : bool; major : Z; minor : Z; name : bytes; data : bytes }.

Definition pad4 (n : nat) : nat := ((4 - n mod 4) mod 4)%nat.
Definition order (b : Z) : option bool := match b with 108 => Some true | 66 => Some false | _ => None end.
Definition malformed : CoreError := Ssh "malformed X11 connection setup".

(** [u16::from_le_bytes] or [from_be_bytes] of the two bytes at [i]. *)
Definition u16_at (little : bool) (p : bytes) (i : nat) : Z :=
  let b := take 2 (drop i p) in from_be (if little then rev b else b).
Definition u16_bytes (little : bool) (v : Z) : bytes := if little then rev (be_bytes 2 v) else be_bytes 2 v.

(** [Setup::parse]. *)
Definition parse_setup (p : bytes) : result CoreError Setup :=
  if (length p <? 12)%nat then Err malformed
  else
    match order (nth 0 p 0) with
    | None => Err malformed
    | Some little =>
        let n := Z.to_nat (u16_at little p 6) in
        let d := Z.to_nat (u16_at little p 8) in
        let name_end := (12 + n)%nat in
        let data_start := (name_end + pad4 n)%nat in
        let data_end := (data_start + d)%nat in
        if (length p <? data_end)%nat then Err malformed
        else Ok (mkSetup little (u16_at little p 2) (u16_at little p 4) (take n (drop 12 p)) (take d (drop data_start p)))
    end.

Definition with_auth (s : Setup) (name data : bytes) : bytes :=
  [if little_endian s then 108 else 66; 0] ++
  flat_map (u16_bytes (little_endian s))
    [major s; minor s; wrap16 (Z.of_nat (length name)); wrap16 (Z.of_nat (length data))] ++
  [0; 0] ++ name ++ replicate (pad4 (length name)) 0 ++ data ++ replicate (pad4 (length data)) 0.

Definition read_setup {D} : Io D bytes :=
  head ← read_exact 12;
  match order (nth 0 head 0) with
  | None => fail malformed
  | Some little =>
      let n := Z.to_nat (u16_at little head 6) in
      let d := Z.to_nat (u16_at little head 8) in
      let rest := (n + pad4 n + d + pad4 d)%nat in
      if (MAX_SETUP <? 12 + rest)%nat then fail (Ssh "oversized X11 connection setup")
      else body ← read_exact rest; mret (head ++ body)
  end.

(** ** Forwarding *)

Record X11Forward := mkForward { display : LocalDisplay; fake : bytes; real : option bytes }.

Definition rewrite_setup (f : X11Forward) (packet : bytes) : result CoreError bytes :=
  setup ← parse_setup packet;
  if negb (bool_decide (name setup = as_bytes AUTH_PROTOCOL)) || negb (bool_decide (data setup = fake f)) then
    Err (Ssh "X11 connection presented an unknown cookie")
  else
    Ok (match real f with
        | Some real => with_auth setup (as_bytes AUTH_PROTOCOL) real
        | None => with_auth setup [] []
        end).

(** [bridge]. *)
Definition bridge (f : X11Forward) : Io DisplayTarget unit :=
  setup ← read_setup;
  setup ← lift (rewrite_setup f setup);
  local ← connect_to (target (display f));
  lift local;;
  write_dest setup;;
  pipe.

(** ** The Xauthority file *)

Definition FAMILY_LOCAL : Z := 256.
Definition FAMILY_WILD : Z := 65535.

Record XauthEntry := mkXauth { x_family : Z; x_number : bytes; x_name : bytes; x_data : bytes }.

(** A field and what follows it. *)
Definition field (b : bytes) : option (bytes * bytes) :=
  if (length b <? 2)%nat then None
  else
    let n := Z.to_nat (from_be (take 2 b)) in
    if (length b <? 2 + n)%nat then None else Some (take n (drop 2 b), drop (2 + n) b).

Definition entry (b : bytes) : option (XauthEntry * bytes) :=
  '(_, b1) ← field (drop 2 b); '(number, b2) ← field b1; '(name, b3) ← field b2; '(data, b4) ← field b3;
  Some (mkXauth (from_be (take 2 b)) number name data, b4).

(** Each round takes at least two bytes. *)
Fixpoint xauth_entries (fuel : nat) (b : bytes) : list XauthEntry :=
  match fuel with
  | O => []
  | S fuel' =>
      if (length b <? 2)%nat then []
      else match entry b with None => [] | Some (e, b') => e :: xauth_entries fuel' b' end
  end.
Definition parse_xauthority (b : bytes) : list XauthEntry := xauth_entries (length b) b.

(** The loop of [find_cookie]. *)
Fixpoint pick (unix : bool) (number : bytes) (fallback : option bytes) (es : list XauthEntry) : option bytes :=
  match es with
  | [] => fallback
  | e :: es' =>
      if negb (bool_decide (x_name e = as_bytes AUTH_PROTOCOL)) then pick unix number fallback es'
      else if negb (bool_decide (x_number e = [])) && negb (bool_decide (x_number e = number)) then
        pick unix number fallback es'
      else
        let local := bool_decide (x_family e = FAMILY_LOCAL) || bool_decide (x_family e = FAMILY_WILD) in
        if Bool.eqb local unix then Some (x_data e)
        else pick unix number (match fallback with Some d => Some d | None => Some (x_data e) end) es'
  end.
Definition find_cookie (xauth : bytes) (d : LocalDisplay) : option bytes :=
  let unix := match target d with Unix _ => true | Tcp _ _ => false end in
  pick unix (as_bytes (pretty (number d))) None (parse_xauthority xauth).

(** [X11Forward::new], with the file's content when it could be read. *)
Definition with_cookies (d : LocalDisplay) (fake : bytes) (real : option bytes) : X11Forward := mkForward d fake real.
Definition new (d : LocalDisplay) (fake : bytes) (file : option bytes) : X11Forward :=
  with_cookies d fake (b ← file; find_cookie b d).

(** ** Facts *)

Lemma pad4_mod n : ((n + pad4 n) mod 4 = 0)%nat.
Proof.
  unfold pad4. pose proof (Nat.mod_upper_bound n 4 ltac:(lia)) as Hb. pose proof (Nat.div_mod_eq n 4) as He.
  set (q := (n / 4)%nat) in *. set (r := (n mod 4)%nat) in *. rewrite He. clearbody q r. clear He.
  replace (4 * q + r + (4 - r) mod 4)%nat with (r + (4 - r) mod 4 + q * 4)%nat by lia. rewrite Nat.Div0.mod_add.
  do 4 (destruct r as [|r]; [done|]). lia.
Qed.

Lemma u16_pair little v : exists a b, u16_bytes little v = [a; b] /\
  (is_u16 v -> from_be (if little then rev [a; b] else [a; b]) = v).
Proof.
  unfold u16_bytes. destruct little; eexists _, _; (split; [reflexivity|]); intros H; by apply (from_be_be_bytes 2).
Qed.

(** The header of a setup, and what it says. *)
Lemma header_bytes s (n d : bytes) : is_u16 (major s) -> is_u16 (minor s) ->
  Z.of_nat (length n) < 65536 -> Z.of_nat (length d) < 65536 ->
  exists h, length h = 12%nat /\ nth 0 h 0 = (if little_endian s then 108 else 66) /\
    with_auth s n d = h ++ n ++ replicate (pad4 (length n)) 0 ++ d ++ replicate (pad4 (length d)) 0 /\
    forall l, u16_at (little_endian s) (h ++ l) 2 = major s /\ u16_at (little_endian s) (h ++ l) 4 = minor s /\
      u16_at (little_endian s) (h ++ l) 6 = Z.of_nat (length n) /\ u16_at (little_endian s) (h ++ l) 8 = Z.of_nat (length d).
Proof.
  intros H1 H2 Hn Hd. unfold with_auth. set (t := if little_endian s then 108 else 66).
  rewrite !(wrap_small 16) by (unfold in_width; lia).
  destruct (u16_pair (little_endian s) (major s)) as (a1 & a2 & Ea & Va), (u16_pair (little_endian s) (minor s)) as (b1 & b2 & Eb & Vb),
    (u16_pair (little_endian s) (Z.of_nat (length n))) as (c1 & c2 & Ec & Vc),
    (u16_pair (little_endian s) (Z.of_nat (length d))) as (d1 & d2 & Ed & Vd).
  exists [t; 0; a1; a2; b1; b2; c1; c2; d1; d2; 0; 0]. cbn [flat_map]. rewrite Ea, Eb, Ec, Ed.
  split_and!; [done..|]. intros l. unfold u16_at. cbn [drop take app].
  split_and!; [exact (Va H1)|exact (Vb H2)|apply Vc|apply Vd]; unfold in_width; lia.
Qed.

Lemma order_of (b : bool) : order (if b then 108 else 66) = Some b.
Proof. by destruct b. Qed.

Lemma parse_with_auth s n d rest :
  is_u16 (major s) -> is_u16 (minor s) -> Z.of_nat (length n) < 65536 -> Z.of_nat (length d) < 65536 ->
  parse_setup (with_auth s n d ++ rest) = Ok (mkSetup (little_endian s) (major s) (minor s) n d).
Proof.
  intros H1 H2 Hn Hd. destruct (header_bytes s n d H1 H2 Hn Hd) as (h & Hl & H0 & -> & Hh).
  set (body := n ++ replicate (pad4 (length n)) 0 ++ d ++ replicate (pad4 (length d)) 0).
  assert (length body = (length n + pad4 (length n) + length d + pad4 (length d))%nat) as Hb.
  { unfold body. rewrite !length_app, !length_replicate. lia. }
  assert (nth 0 (h ++ body ++ rest) 0 = nth 0 h 0) as H0'. { apply app_nth1. lia. }
  unfold parse_setup. rewrite <- app_assoc, H0', H0, order_of. specialize (Hh (body ++ rest)).
  destruct Hh as (-> & -> & -> & ->). rewrite !Nat2Z.id, !length_app, Hl, Hb.
  rewrite !(proj2 (Nat.ltb_ge _ _)) by lia. unfold body. rewrite <- !app_assoc.
  rewrite (drop_app_length' h) by done. rewrite take_app_length. do 2 f_equal.
  rewrite (app_assoc n), (app_assoc h). rewrite drop_app_length', take_app_length; [done|].
  rewrite !length_app, length_replicate. lia.
Qed.

(** What [with_auth] writes, [Setup::parse] reads back (whatever follows),
    it is padded to whole words, and [read_setup] takes exactly it off the
    channel. *)
Theorem setup_roundtrip {D} (answer : D -> result CoreError unit) s n d rest :
  is_u16 (major s) -> is_u16 (minor s) -> Z.of_nat (length n) < 65536 -> Z.of_nat (length d) < 65536 ->
  parse_setup (with_auth s n d ++ rest) = Ok (mkSetup (little_endian s) (major s) (minor s) n d) /\
  (length (with_auth s n d) mod 4 = 0)%nat /\
  run answer read_setup (with_auth s n d ++ rest) =
    if (length (with_auth s n d) <=? MAX_SETUP)%nat then ([], Ok (with_auth s n d), rest)
    else ([], Err (Ssh "oversized X11 connection setup"), drop 12 (with_auth s n d ++ rest)).
Proof.
  intros H1 H2 Hn Hd. split; [by apply parse_with_auth|].
  destruct (header_bytes s n d H1 H2 Hn Hd) as (h & Hl & H0 & -> & Hh).
  set (body := n ++ replicate (pad4 (length n)) 0 ++ d ++ replicate (pad4 (length d)) 0).
  assert (length body = (length n + pad4 (length n) + length d + pad4 (length d))%nat) as Hb.
  { unfold body. rewrite !length_app, !length_replicate. lia. }
  split.
  - rewrite length_app, Hl, Hb. pose proof (pad4_mod (length n)) as P1. pose proof (pad4_mod (length d)) as P2.
    replace (12 + (length n + pad4 (length n) + length d + pad4 (length d)))%nat
      with ((length n + pad4 (length n)) + (length d + pad4 (length d)) + 3 * 4)%nat by lia.
    rewrite Nat.Div0.mod_add, Nat.Div0.add_mod, P1, P2. done.
  - unfold read_setup. rewrite <- app_assoc, run_read_app by done. rewrite H0, order_of.
    specialize (Hh []). rewrite app_nil_r in Hh. destruct Hh as (_ & _ & -> & ->). rewrite !Nat2Z.id, <- Hb, length_app, Hl.
    rewrite Nat.ltb_antisym. destruct (12 + length body <=? MAX_SETUP)%nat; cbn [negb]; [by rewrite run_read_app|].
    by rewrite (drop_app_length' h).
Qed.

Lemma read_setup_inv {D} (answer : D -> result CoreError unit) input :
  let '(es, r, rest) := run answer read_setup input in
  es = [] /\ forall p, r = Ok p -> input = p ++ rest /\ (length p <= MAX_SETUP)%nat.
Proof.
  unfold read_setup. rewrite run_read. destruct (Nat.leb_spec 12 (length input)) as [Hl|]; [|done].
  destruct (order _) as [little|]; [|done].
  set (h := take 12 input) in *. set (k := (Z.to_nat (u16_at little h 6) + _ + _ + _)%nat).
  destruct (Nat.ltb_spec MAX_SETUP (12 + k)); [done|]. rewrite run_read.
  destruct (Nat.leb_spec k (length (drop 12 input))) as [Hk|]; [|done]. cbn [run mret io_mret].
  split; [done|]. intros p [= <-]. unfold h. rewrite <- app_assoc, !take_drop. split; [done|].
  rewrite length_app, !length_take. lia.
Qed.

Lemma u16_at_range little p i : all_bytes p -> is_u16 (u16_at little p i).
Proof.
  intros Hp. assert (forall l, all_bytes l -> (length l <= 2)%nat -> is_u16 (from_be l)) as H.
  { intros l Hl Hn. apply from_be_range in Hl. unfold in_width in *.
    assert (2 ^ (8 * Z.of_nat (length l)) <= 2 ^ 16) by (apply Z.pow_le_mono_r; lia). lia. }
  assert (all_bytes (take 2 (drop i p))) as Hb by (by apply Forall_take, Forall_drop).
  assert (length (take 2 (drop i p)) <= 2)%nat as Hn by (rewrite length_take; lia).
  unfold u16_at. destruct little; apply H; try done; [by apply List.Forall_rev|by rewrite length_rev].
Qed.

Lemma parse_setup_range p s : all_bytes p -> parse_setup p = Ok s -> is_u16 (major s) /\ is_u16 (minor s).
Proof.
  unfold parse_setup. intros Hp. destruct (_ <? _)%nat; [done|]. destruct (order _); [|done].
  cbv zeta. case_match; [done|]. intros [= <-]. split; by apply u16_at_range.
Qed.

(** The cookie a connection to the display carries. *)
Definition auth_of (f : X11Forward) : bytes * bytes :=
  match real f with Some c => (as_bytes AUTH_PROTOCOL, c) | None => ([], []) end.

(** C22: Whatever a channel carries, nothing is written back to it before the
    display answers, and the display is contacted only when the channel starts
    with a setup presenting the fake cookie. Then the display reads the same
    setup with the real cookie in its place (or none), and the rest of the
    channel is relayed from the first byte behind the packet. *)
Theorem bridge_swaps_the_cookie answer f input :
  all_bytes input -> Z.of_nat (length (snd (auth_of f))) < 65536 ->
  let display := target (display f) in
  let '(es, r, rest) := run answer (bridge f) input in
  written es = [] /\
  (es = [] /\ is_ok r = false \/
   exists packet s sent, input = packet ++ rest /\ (length packet <= MAX_SETUP)%nat /\
     parse_setup packet = Ok s /\ name s = as_bytes AUTH_PROTOCOL /\ data s = fake f /\
     parse_setup sent = Ok (mkSetup (little_endian s) (major s) (minor s) (fst (auth_of f)) (snd (auth_of f))) /\
     (es, r) = match answer display with
               | Ok _ => ([Connected display; Sent sent; Piped], Ok ())
               | Err e => ([Connected display], Err e)
               end).
Proof.
  intros Hi Hlen display. unfold bridge. rewrite run_bind. pose proof (read_setup_inv answer input) as Hr.
  destruct (run answer read_setup input) as [[es [p|e]] rest]; [|by destruct Hr as [-> _]; split; [|left]].
  destruct Hr as [-> Hr]. destruct (Hr p eq_refl) as [-> Hp]. apply all_bytes_app in Hi as [Hi _].
  rewrite run_bind. unfold rewrite_setup. destruct (parse_setup p) as [s|e] eqn:Es; [|by cbn; split; [|left]].
  cbn [mbind result_bind].
  case_bool_decide as E1; [|by cbn; split; [|left]]. case_bool_decide as E2; [|by cbn; split; [|left]].
  cbn [negb orb].
  destruct (parse_setup_range p s Hi Es) as [Hma Hmi].
  set (sent := match real f with Some real => with_auth s (as_bytes AUTH_PROTOCOL) real | None => with_auth s [] [] end).
  assert (parse_setup sent = Ok (mkSetup (little_endian s) (major s) (minor s) (fst (auth_of f)) (snd (auth_of f)))) as Hsent.
  { assert (sent = with_auth s (fst (auth_of f)) (snd (auth_of f)) ++ []) as ->.
    { rewrite app_nil_r. unfold sent, auth_of. by destruct (real f). }
    apply parse_with_auth; try done. unfold auth_of. by destruct (real f). }
  cbn. fold display. destruct (answer display) as [u|e] eqn:Ea; cbn; (split; [done|]); right; exists p, s, sent; by split_and!.
Qed.

(** ** The Xauthority file *)

Definition xauth_field (b : bytes) : bytes := be_bytes 2 (Z.of_nat (length b)) ++ b.
(** An entry as [xauth] writes it, with the address it is for. *)
Definition xauth_entry (x : bytes * XauthEntry) : bytes :=
  be_bytes 2 (x_family (snd x)) ++ xauth_field (fst x) ++ xauth_field (x_number (snd x)) ++
  xauth_field (x_name (snd x)) ++ xauth_field (x_data (snd x)).
Definition short (b : bytes) : Prop := Z.of_nat (length b) < 65536.
Definition writable (x : bytes * XauthEntry) : Prop :=
  is_u16 (x_family (snd x)) /\ short (fst x) /\ short (x_number (snd x)) /\ short (x_name (snd x)) /\ short (x_data (snd x)).

Lemma field_read b rest : short b -> field (xauth_field b ++ rest) = Some (b, rest).
Proof.
  intros H. unfold field, xauth_field. rewrite <- app_assoc.
  set (h := be_bytes 2 _). assert (length h = 2%nat) as Hl by apply length_be_bytes.
  rewrite (take_app_length' h), (drop_app_length' h) by done.
  assert (from_be h = Z.of_nat (length b)) as ->.
  { apply (from_be_be_bytes 2). unfold short, in_width in *. lia. }
  rewrite Nat2Z.id, !length_app, Hl, !(proj2 (Nat.ltb_ge _ _)) by lia. rewrite take_app_length, app_assoc.
  by rewrite drop_app_length' by (rewrite length_app; lia).
Qed.

Lemma field_more b v r extra : field b = Some (v, r) -> field (b ++ extra) = Some (v, r ++ extra).
Proof.
  unfold field. rewrite length_app. destruct (Nat.ltb_spec (length b) 2); [done|].
  rewrite (take_app_le b) by lia. set (n := Z.to_nat _). destruct (Nat.ltb_spec (length b) (2 + n)); [done|].
  intros [= <- <-]. rewrite !(proj2 (Nat.ltb_ge _ _)) by lia.
  rewrite !drop_app_le, take_app_le by (try rewrite length_drop; lia). done.
Qed.

Lemma entry_read x rest : writable x -> entry (xauth_entry x ++ rest) = Some (snd x, rest).
Proof.
  destruct x as [a [f k n d]]. intros (Hf & Ha & Hk & Hn & Hd). unfold entry, xauth_entry. cbn [fst snd x_family x_number x_name x_data] in *.
  rewrite <- !app_assoc. assert (length (be_bytes 2 f) = 2%nat) as Hl by apply length_be_bytes.
  rewrite (take_app_length' (be_bytes 2 f)), (drop_app_length' (be_bytes 2 f)) by done.
  rewrite !field_read by done. cbn [mbind option_bind]. rewrite !field_read by done. cbn [mbind option_bind].
  rewrite !field_read by done. cbn [mbind option_bind]. rewrite !field_read by done. cbn [mbind option_bind].
  by rewrite (from_be_be_bytes 2).
Qed.

Lemma entry_more b e r extra : (2 <= length b)%nat -> entry b = Some (e, r) -> entry (b ++ extra) = Some (e, r ++ extra).
Proof.
  intros Hb. unfold entry. rewrite take_app_le, drop_app_le by done.
  destruct (field (drop 2 b)) as [[a b1]|] eqn:E1; [|done]. cbn [mbind option_bind].
  destruct (field b1) as [[k b2]|] eqn:E2; [|done]. cbn [mbind option_bind].
  destruct (field b2) as [[n b3]|] eqn:E3; [|done]. cbn [mbind option_bind].
  destruct (field b3) as [[d b4]|] eqn:E4; [|done]. cbn [mbind option_bind]. intros [= <- <-].
  rewrite (field_more _ _ _ extra E1). cbn [mbind option_bind]. rewrite (field_more _ _ _ extra E2). cbn [mbind option_bind].
  rewrite (field_more _ _ _ extra E3). cbn [mbind option_bind]. by rewrite (field_more _ _ _ extra E4).
Qed.

Lemma entry_length x : (2 <= length (xauth_entry x))%nat.
Proof. unfold xauth_entry. rewrite length_app, length_be_bytes. lia. Qed.

Lemma entry_cut x k : writable x -> (k < length (xauth_entry x))%nat -> forall fuel, xauth_entries fuel (take k (xauth_entry x)) = [].
Proof.
  intros Hx Hk [|fuel]; [done|]. cbn [xauth_entries]. destruct (Nat.ltb_spec (length (take k (xauth_entry x))) 2); [done|].
  destruct (entry _) as [[e r]|] eqn:E; [|done]. apply (entry_more _ _ _ (drop k (xauth_entry x))) in E; [|done].
  rewrite take_drop in E. pose proof (entry_read x [] Hx) as E'. rewrite app_nil_r, E in E'. injection E' as _ E'.
  apply app_eq_nil in E' as [_ E']. apply (f_equal length) in E'. rewrite length_drop in E'. change (length (@nil Z)) with 0%nat in E'. lia.
Qed.

Lemma parse_xauthority_read l cut k : Forall writable l -> writable cut -> (k < length (xauth_entry cut))%nat ->
  parse_xauthority (flat_map xauth_entry l ++ take k (xauth_entry cut)) = map snd l.
Proof.
  intros Hl Hc Hk. unfold parse_xauthority. set (tail := take k (xauth_entry cut)).
  assert (forall fuel, (length (flat_map xauth_entry l ++ tail) <= fuel)%nat ->
    xauth_entries fuel (flat_map xauth_entry l ++ tail) = map snd l) as H; [|by apply H].
  induction Hl as [|x l Hx Hl IH]; intros fuel Hf; [by apply entry_cut|]. cbn [flat_map] in *.
  rewrite <- app_assoc in *. pose proof (entry_length x) as Hx2. rewrite length_app in Hf.
  destruct fuel as [|fuel]; [lia|]. cbn [xauth_entries]. rewrite length_app, (proj2 (Nat.ltb_ge _ _)), entry_read by (done || lia).
  cbn [map]. f_equal. apply IH. lia.
Qed.

Lemma pick_spec unix number fallback es :
  pick unix number fallback es =
  let mine := filter (fun e => x_name e = as_bytes AUTH_PROTOCOL /\ (x_number e = [] \/ x_number e = number)) es in
  match list_find (fun e => bool_decide (x_family e = FAMILY_LOCAL \/ x_family e = FAMILY_WILD) = unix) mine with
  | Some (_, e) => Some (x_data e)
  | None => match fallback with Some d => Some d | None => x_data <$> head mine end
  end.
Proof.
  revert fallback. induction es as [|e es IH]; intros fallback; cbn [pick]; [by destruct fallback|].
  rewrite filter_cons. case_bool_decide as E1; cbn [negb]; [|rewrite decide_False by tauto; apply IH].
  destruct (decide (x_number e = [] \/ x_number e = number)) as [E2|E2].
  - rewrite decide_True by done. assert (negb (bool_decide (x_number e = [])) && negb (bool_decide (x_number e = number)) = false) as ->.
    { destruct E2 as [E|E]; rewrite (bool_decide_eq_true_2 _ E); [done|apply andb_false_r]. }
    rewrite <- bool_decide_or. cbv zeta. cbn [list_find]. destruct (bool_decide (x_family e = FAMILY_LOCAL \/ _)) eqn:El, unix; cbn [Bool.eqb];
      try (by rewrite decide_True by done); rewrite decide_False by done; rewrite IH; cbv zeta;
      destruct (list_find _ _) as [[? ?]|]; cbn; by destruct fallback.
  - rewrite decide_False by tauto. assert (negb (bool_decide (x_number e = [])) && negb (bool_decide (x_number e = number)) = true) as ->.
    { rewrite !bool_decide_eq_false_2 by tauto. done. } apply IH.
Qed.

(** From a file of entries as xauth writes them, even cut off in the middle
    of one, the cookie is that of the first entry of the protocol for the
    display's number (or for any number) whose family fits how the display is
    reached, else that of the first entry for it at all. *)
Theorem find_cookie_first_match l cut k d : Forall writable l -> writable cut -> (k < length (xauth_entry cut))%nat ->
  let mine := filter (fun e => x_name e = as_bytes AUTH_PROTOCOL /\
                        (x_number e = [] \/ x_number e = as_bytes (pretty (number d)))) (map snd l) in
  let unix := match target d with Unix _ => true | Tcp _ _ => false end in
  find_cookie (flat_map xauth_entry l ++ take k (xauth_entry cut)) d =
  match list_find (fun e => bool_decide (x_family e = FAMILY_LOCAL \/ x_family e = FAMILY_WILD) = unix) mine with
  | Some (_, e) => Some (x_data e)
  | None => x_data <$> head mine
  end.
Proof. intros Hl Hc Hk. cbv zeta. unfold find_cookie. rewrite parse_xauthority_read by done. by rewrite pick_spec. Qed.

(** The port of a TCP display is 6000 plus its number only up to number
    59535: the 32-bit number is cut to 16 bits and the sum wraps, so a larger
    one silently names another port. *)
Theorem display_port_wraps windows debug s d host port :
  parse_display windows debug s = Ok d -> target d = Tcp host port ->
  0 <= number d < 2 ^ 32 /\ is_u16 port /\ port = (6000 + number d) mod 2 ^ 16 /\
  (port = 6000 + number d <-> number d <= 59535).
Proof.
  unfold parse_display. intros H Ht.
  apply bind_ok in H as ([h rest] & _ & H). destruct (default (rest, "0") (split_once dot rest)) as [n sc].
  apply bind_ok in H as (num & Hn & H). apply bind_ok in H as (scr & _ & H). apply ok_or_ok in Hn.
  apply parse_uint_range in Hn; [|by compute]. unfold u32_max in Hn. injection H as <-. cbn [target number] in *.
  assert (port = tcp_port num) as ->. { repeat case_match; simplify_eq; done. }
  assert (tcp_port num = (6000 + num) mod 2 ^ 16) as ->.
  { unfold tcp_port, wrap. by rewrite Z.add_mod_idemp_r. }
  pose proof (Z.mod_pos_bound (6000 + num) (2 ^ 16) ltac:(lia)) as Hb. unfold in_width.
  split_and!; [lia..|done|]. split; intros E; [|apply Z.mod_small]; lia.
Qed.

(** ** Concrete inputs *)

Module Sample.
Definition debug (s : string) : string := s.
Definition answer (d : DisplayTarget) : result CoreError unit := Ok ().
Definition local : LocalDisplay := mkDisplay (Unix "/tmp/.X11-unix/X0") 0 0.
Definition fake : bytes := replicate 16 7.
Definition forward : X11Forward := mkForward local fake (Some [1; 2; 3]).
Definition blank (little : bool) : Setup := mkSetup little 11 0 [] [].
Definition packet : bytes := with_auth (blank true) (as_bytes AUTH_PROTOCOL) fake.
Definition inet : bytes * XauthEntry := ([10; 0; 0; 1], mkXauth 0 [48] (as_bytes AUTH_PROTOCOL) [1; 1]).
Definition unix0 : bytes * XauthEntry := ([104], mkXauth FAMILY_LOCAL [48] (as_bytes AUTH_PROTOCOL) [2; 2]).
End Sample.

Lemma setup_roundtrip_witness :
  parse_setup (with_auth (Sample.blank false) [65; 66] [1; 2; 3] ++ [9]) = Ok (mkSetup false 11 0 [65; 66] [1; 2; 3]) /\
  Nat.modulo (length (with_auth (Sample.blank false) [65; 66] [1; 2; 3])) 4 = 0%nat /\
  run Sample.answer read_setup (with_auth (Sample.blank false) [65; 66] [1; 2; 3] ++ [9]) =
    ([], Ok (with_auth (Sample.blank false) [65; 66] [1; 2; 3]), [9]).
Proof. apply (setup_roundtrip Sample.answer (Sample.blank false) [65; 66] [1; 2; 3] [9]); by vm_compute. Defined.

(** A client presenting the fake cookie gets through, one without is not. *)
Lemma bridge_swaps_the_cookie_witness :
  (let display := Unix "/tmp/.X11-unix/X0" in
   let '(es, r, rest) := run Sample.answer (bridge Sample.forward) (Sample.packet ++ [5; 6]) in
   written es = [] /\
   (es = [] /\ is_ok r = false \/
    exists packet s sent, Sample.packet ++ [5; 6] = packet ++ rest /\ (length packet <= MAX_SETUP)%nat /\
      parse_setup packet = Ok s /\ name s = as_bytes AUTH_PROTOCOL /\ data s = Sample.fake /\
      parse_setup sent = Ok (mkSetup (little_endian s) (major s) (minor s) (as_bytes AUTH_PROTOCOL) [1; 2; 3]) /\
      (es, r) = ([Connected display; Sent sent; Piped], Ok ()))) /\
  run Sample.answer (bridge Sample.forward) (Sample.packet ++ [5; 6]) =
    ([Connected (target Sample.local); Sent (with_auth (Sample.blank true) (as_bytes AUTH_PROTOCOL) [1; 2; 3]); Piped],
     Ok (), [5; 6]) /\
  is_ok (snd (fst (run Sample.answer (bridge Sample.forward) (with_auth (Sample.blank true) [] [])))) = false.
Proof.
  split; [|by vm_compute].
  apply (bridge_swaps_the_cookie Sample.answer Sample.forward (Sample.packet ++ [5; 6])); [|by vm_compute].
  apply Forall_forall. intros b Hb. assert (forallb (fun b => (0 <=? b) && (b <? 256)) (Sample.packet ++ [5; 6]) = true) as H by by vm_compute.
  apply forallb_forall with (x := b) in H; [unfold in_width; change (2 ^ 8) with 256; lia|by apply list_elem_of_In].
Defined.

Lemma find_cookie_first_match_witness :
  find_cookie (flat_map xauth_entry [Sample.inet; Sample.unix0] ++ take 7 (xauth_entry Sample.inet)) Sample.local = Some [2; 2].
Proof.
  refine (find_cookie_first_match [Sample.inet; Sample.unix0] Sample.inet 7 Sample.local _ _ _).
  - repeat constructor; by vm_compute.
  - repeat constructor; by vm_compute.
  - vm_compute. lia.
Defined.

Lemma display_port_wraps_witness :
  exists d, parse_display false Sample.debug "desk:60000.1" = Ok d /\ target d = Tcp "desk" 464 /\
    0 <= number d < 2 ^ 32 /\ is_u16 464 /\ 464 = (6000 + number d) mod 2 ^ 16 /\ (464 = 6000 + number d <-> number d <= 59535).
Proof.
  exists (mkDisplay (Tcp "desk" 464) 60000 1). split; [by vm_compute|]. split; [done|].
  apply (display_port_wraps false Sample.debug "desk:60000.1" (mkDisplay (Tcp "desk" 464) 60000 1) "desk" 464); by vm_compute.
Defined.
