(* ===== verification/Import.v ===== *)
(** * Imports

    What the parsers of [crates/termoso-core/src/import/] share
    ([import/mod.rs]): the preview they fill, and decoding a file's bytes into
    text. Text is its UTF-8 bytes here. The id of a preview, keys and known
    hosts, which no parser sets, and the flags of [seal] are kept as the source
    has them. *)
From S2P Require Import Prelude Text.

#[local] Open Scope Z_scope.

Abbreviation text := bytes.

Inductive PfKind : Type := PfLocal | PfRemote | PfDynamic.
Inductive ImportSource : Type := SshConfig | Putty | Csv | Mobaxterm | Securecrt | Zoc.

Record ImportedProxy := mkImportedProxy {
  ip_kind : text; ip_host : text; ip_port : Z; ip_username : text; ip_password : option text; ip_has_password : bool
}.
Record ImportedHost := mkImportedHost {
  label : text; address : text; protocol : text; port : option Z; username : text; password : option text;
  has_password : bool; group_path : list text; tags : list text; key_path : option text; jump_hosts : list text;
  proxy : option ImportedProxy; agent_forwarding : bool; forward_x11 : bool; env_variables : list (text * text);
  keep_alive_interval : option Z; timeout : option Z; notes : text; host_warnings : list text
}.
(** [ImportedHost::default()]. *)
Definition default_host : ImportedHost :=
  mkImportedHost [] [] [] None [] None false [] [] None [] None false false [] None None [] [].

Record ImportedKey := mkImportedKey {
  k_path : text; k_name : text; k_type : text; k_bits : N; k_fingerprint : text; k_encrypted : bool;
  k_public_key : text; k_agent_backed : bool
}.
Record ImportedKnownHost := mkKnownHost { kh_hostname : text; kh_type : text; kh_fingerprint : text; kh_line : text }.
Record ImportedPfRule := mkPfRule {
  host_label : text; pf_kind : PfKind; bound_address : text; local_port : Z; remote_host : text; remote_port : Z
}.
Record ImportPreview := mkPreview {
  id : N; source : ImportSource; origin : text; hosts : list ImportedHost; keys : list ImportedKey;
  known_hosts : list ImportedKnownHost; pf_rules : list ImportedPfRule; warnings : list text
}.

(** [ImportPreview::new]; [i] is the random id drawn. *)
Definition preview_new (i : N) (source : ImportSource) (origin : text) : ImportPreview :=
  mkPreview i source origin [] [] [] [] [].
Definition is_empty (p : ImportPreview) : bool :=
  bool_decide (hosts p = []) && bool_decide (keys p = []) && bool_decide (known_hosts p = []) &&
  bool_decide (pf_rules p = []).

(** [preview.hosts.push], [warnings.push], [pf_rules.push]. *)
Definition push_host (h : ImportedHost) (p : ImportPreview) : ImportPreview :=
  mkPreview (id p) (source p) (origin p) (hosts p ++ [h]) (keys p) (known_hosts p) (pf_rules p) (warnings p).
Definition warn (w : text) (p : ImportPreview) : ImportPreview :=
  mkPreview (id p) (source p) (origin p) (hosts p) (keys p) (known_hosts p) (pf_rules p) (warnings p ++ [w]).
Definition push_rules (rs : list ImportedPfRule) (p : ImportPreview) : ImportPreview :=
  mkPreview (id p) (source p) (origin p) (hosts p) (keys p) (known_hosts p) (pf_rules p ++ rs) (warnings p).

(** [seal]: the flags the UI sees instead of the secrets. *)
Definition some_text (p : option text) : bool := match p with Some (_ :: _) => true | _ => false end.
Definition seal_proxy (p : ImportedProxy) : ImportedProxy :=
  mkImportedProxy (ip_kind p) (ip_host p) (ip_port p) (ip_username p) (ip_password p) (some_text (ip_password p)).
Definition seal_host (h : ImportedHost) : ImportedHost :=
  mkImportedHost (label h) (address h) (protocol h) (port h) (username h) (password h) (some_text (password h))
    (group_path h) (tags h) (key_path h) (jump_hosts h) (seal_proxy <$> proxy h) (agent_forwarding h) (forward_x11 h)
    (env_variables h) (keep_alive_interval h) (timeout h) (notes h) (host_warnings h).
Definition seal (p : ImportPreview) : ImportPreview :=
  mkPreview (id p) (source p) (origin p) (map seal_host (hosts p)) (keys p) (known_hosts p) (pf_rules p) (warnings p).

(** ** Decoding files *)

(** A code point as UTF-8. *)
Definition utf8_bytes (c : Z) : bytes :=
  if c <? 128 then [c]
  else if c <? 2048 then [192 + c / 64; 128 + c mod 64]
  else if c <? 65536 then [224 + c / 4096; 128 + c / 64 mod 64; 128 + c mod 64]
  else [240 + c / 262144; 128 + c / 4096 mod 64; 128 + c / 64 mod 64; 128 + c mod 64].

Definition high (u : Z) : bool := (55296 <=? u) && (u <? 56320).
Definition low (u : Z) : bool := (56320 <=? u) && (u <? 57344).
Definition replacement : bytes := [239; 191; 189].

(** [String::from_utf16_lossy]. *)
Fixpoint from_utf16_lossy (l : list Z) : bytes :=
  match l with
  | [] => []
  | u :: l' =>
      if high u then
        match l' with
        | v :: l'' =>
            if low v then utf8_bytes (65536 + (u - 55296) * 1024 + (v - 56320)) ++ from_utf16_lossy l''
            else replacement ++ from_utf16_lossy l'
        | [] => replacement
        end
      else if low u then replacement ++ from_utf16_lossy l'
      else utf8_bytes u ++ from_utf16_lossy l'
  end.

(** [as_chunks::<2>().0]: a last odd byte is left out. *)
Fixpoint units (little : bool) (l : bytes) : list Z :=
  match l with
  | a :: b :: l' => from_be (if little then [b; a] else [a; b]) :: units little l'
  | _ => []
  end.
Definition utf16 (l : bytes) (little : bool) : text := from_utf16_lossy (units little l).

(** [bytes.iter().skip(1).step_by(2)]. *)
Fixpoint odd_bytes (l : bytes) : bytes := match l with _ :: b :: l' => b :: odd_bytes l' | _ => [] end.

Definition bom : bytes := [239; 187; 191].
Definition decode_text (l : bytes) : text :=
  match l with
  | 255 :: 254 :: l' => utf16 l' true
  | 254 :: 255 :: l' => utf16 l' false
  | _ =>
      if (4 <=? length l)%nat && forallb (fun b => b =? 0) (take 64 (odd_bytes l)) then utf16 l true
      else
        let t := as_bytes (from_utf8_lossy l) in
        if decide (take 3 t = bom) then drop 3 t else t
  end.

(** ** Facts *)

(** Plain UTF-8 text is taken as it is, less a byte order mark. *)
Lemma decode_plain l : all_bytes l -> valid_utf8 l = true -> 0 ∉ l ->
  decode_text l = if decide (take 3 l = bom) then drop 3 l else l.
Proof.
  intros Hb Hv H0. unfold decode_text.
  assert (as_bytes (from_utf8_lossy l) = l) as E.
  { unfold from_utf8_lossy. rewrite lossy_valid by done. by apply as_of_bytes. }
  assert ((4 <=? length l)%nat && forallb (fun b => b =? 0) (take 64 (odd_bytes l)) = false) as Hz.
  { destruct l as [|a [|b [|c [|d l]]]]; try done. apply andb_false_iff. right. cbn.
    rewrite (proj2 (Z.eqb_neq b 0)); [done|]. intros ->. apply H0. right. by left. }
  rewrite Hz, E. destruct l as [|a l]; [done|].
  assert (a <> 255 /\ a <> 254) as [Ha1 Ha2].
  { split; intros ->; destruct l as [|? [|? [|? ?]]]; done. }
  destruct a as [|p|p]; try done. do 8 (destruct p as [p|p|]; try done).
Qed.
