(* ===== verification/Csv.v ===== *)
(** * CSV imports

    [crates/termoso-core/src/import/csv.rs]: the record reader, the guess of the
    delimiter, the columns and [parse_into]. The characters the reader compares
    with are ASCII, so its loop over characters is one over bytes. [{:?}] of a
    string is an argument. *)
From stdpp Require Import pretty.
From S2P Require Import Prelude Text Import Conv.

#[local] Open Scope string_scope.
#[local] Open Scope list_scope.
#[local] Open Scope Z_scope.

Definition MAX_ROWS : Z := 50000.

(** ** Records *)

Definition count (b : Z) (l : bytes) : nat := length (filter (fun c => c = b) l).
Definition comma : Z := 44.
Definition semicolon : Z := 59.
Definition tab : Z := 9.
Definition quote : Z := 34.

Definition detect_delimiter (t : text) : Z :=
  let first := default [] (head (lines t)) in
  let commas := count comma first in
  let semis := count semicolon first in
  let tabs := count tab first in
  if (commas <? tabs)%nat && (semis <? tabs)%nat then tab
  else if (commas <? semis)%nat then semicolon
  else comma.

(** The loop of [records]: rows so far, the row and the field begun. *)
Fixpoint scan (d : Z) (rows : list (list text)) (row : list text) (field : text) (quoted : bool) (l : text) :
    list (list text) :=
  match l with
  | [] => if negb (bool_decide (field = [])) || negb (bool_decide (row = [])) then rows ++ [row ++ [field]] else rows
  | c :: l' =>
      if quoted then
        if c =? quote then
          match l' with
          | c' :: l'' => if c' =? quote then scan d rows row (field ++ [quote]) true l'' else scan d rows row field false l'
          | [] => scan d rows row field false l'
          end
        else scan d rows row (field ++ [c]) true l'
      else if (c =? quote) && bool_decide (field = []) then scan d rows row field true l'
      else if c =? d then scan d rows (row ++ [field]) [] false l'
      else if c =? 13 then scan d rows row field false l'
      else if c =? 10 then
        let rows := rows ++ [row ++ [field]] in
        if MAX_ROWS <? Z.of_nat (length rows) then rows else scan d rows [] [] false l'
      else scan d rows row (field ++ [c]) false l'
  end.

Definition not_blank (row : list text) : bool := existsb (fun f => negb (bool_decide (trim_bytes f = []))) row.
Definition records (t : text) : list (list text) :=
  List.filter not_blank (scan (detect_delimiter t) [] [] [] false t).

(** ** Columns *)

(** [trim_start_matches] of the byte order mark, and the letters and digits. *)
Fixpoint skip_bom (fuel : nat) (l : text) : text :=
  match fuel with
  | O => l
  | S fuel' => if decide (take 3 l = bom) then skip_bom fuel' (drop 3 l) else l
  end.
Definition alphanumeric (b : Z) : bool :=
  ((48 <=? b) && (b <=? 57)) || ((65 <=? b) && (b <=? 90)) || ((97 <=? b) && (b <=? 122)).
Definition normalise (h : text) : text :=
  let t := trim_bytes h in
  lowercase (List.filter alphanumeric (skip_bom (length t) t)).

Inductive Col : Type := CGroups | CLabel | CTags | CAddress | CProtocol | CPort | CUsername | CPassword.
#[export] Instance Col_eq_dec : EqDecision Col.
Proof. solve_decision. Defined.

(** [Columns]: the position of each column. *)
Definition Columns : Type := Col -> option nat.

Definition one_of (l : text) (names : list string) : bool := bool_decide (l ∈ map as_bytes names).
Definition slot (name : text) : option Col :=
  if one_of name ["groups"; "group"; "folder"; "folders"; "path"; "parentgroup"] then Some CGroups
  else if one_of name ["label"; "name"; "alias"; "title"; "session"; "sessionname"] then Some CLabel
  else if one_of name ["tags"; "tag"; "labels"] then Some CTags
  else if one_of name ["hostnameip"; "hostname"; "host"; "address"; "ip"; "ipaddress"; "server"] then Some CAddress
  else if one_of name ["protocol"; "type"] then Some CProtocol
  else if one_of name ["port"] then Some CPort
  else if one_of name ["username"; "user"; "login"] then Some CUsername
  else if one_of name ["password"; "pass"; "passwd"] then Some CPassword
  else None.

Definition set_slot (c : Columns) (k : Col) (i : nat) : Columns :=
  fun k' => if decide (k' = k) then match c k with None => Some i | s => s end else c k'.
Fixpoint columns_from (i : nat) (c : Columns) (header : list text) : Columns :=
  match header with
  | [] => c
  | h :: header' =>
      columns_from (S i) (match slot (normalise h) with Some k => set_slot c k i | None => c end) header'
  end.
Definition columns (header : list text) : Columns := columns_from 0 (fun _ => None) header.

(** ** Rows *)

Definition cell (row : list text) (i : option nat) : text :=
  match i ≫= (fun i => row !! i) with Some s => trim_bytes s | None => [] end.
Definition pieces (seps : list Z) (s : text) : list text :=
  List.filter (fun t => negb (bool_decide (t = []))) (map trim_bytes (split_any seps s)).
Definition bar : Z := 124.
Definition split_list (s : text) : list text := pieces [comma; semicolon; bar] s.
Definition show_nat (n : nat) : text := as_bytes (pretty (Z.of_nat n)).

Section Parse.
Context (debug : text -> text).

(** The port of a row; the warning when it is not one. *)
Definition row_port (n : nat) (port_text : text) (p : ImportPreview) : option Z * ImportPreview :=
  if decide (port_text = []) then (None, p)
  else
    match parse_uint 65535 port_text with
    | Some v =>
        if 0 <? v then (Some v, p)
        else (None, warn (as_bytes "Row " ++ show_nat (n + 1) ++ as_bytes ": port " ++ debug port_text ++ as_bytes " ignored") p)
    | None =>
        (None, warn (as_bytes "Row " ++ show_nat (n + 1) ++ as_bytes ": port " ++ debug port_text ++ as_bytes " ignored") p)
    end.

Definition or_else (a b : text) : text := if decide (a = []) then b else a.
Definition row_host (cols : Columns) (row : list text) (address protocol : text) (port : option Z) : ImportedHost :=
  let password := cell row (cols CPassword) in
  mkImportedHost (or_else (cell row (cols CLabel)) address) address protocol port (cell row (cols CUsername))
    (if decide (password = []) then None else Some password) false
    (pieces [47; 92; 62] (cell row (cols CGroups))) (split_list (cell row (cols CTags)))
    None [] None false false [] None None [] [].

(** A data row; [n] is its position among the records. *)
Definition on_row (cols : Columns) (addr_col n : nat) (row : list text) (st : ImportPreview * nat) : ImportPreview * nat :=
  let '(p, skipped) := st in
  let address := cell row (Some addr_col) in
  if decide (address = []) then (p, S skipped)
  else
    let protocol := lowercase (cell row (cols CProtocol)) in
    if one_of protocol [""; "ssh"] then
      let '(port, p) := row_port n (cell row (cols CPort)) p in
      (push_host (row_host cols row address (as_bytes "ssh") port) p, skipped)
    else if one_of protocol ["telnet"] then
      let '(port, p) := row_port n (cell row (cols CPort)) p in
      (push_host (row_host cols row address (as_bytes "telnet") port) p, skipped)
    else
      (warn (as_bytes "Row " ++ show_nat (n + 1) ++ as_bytes ": protocol " ++ debug protocol ++
             as_bytes " is not supported, skipped") p, skipped).

Fixpoint on_rows (cols : Columns) (addr_col n : nat) (rows : list (list text)) (st : ImportPreview * nat) :
    ImportPreview * nat :=
  match rows with
  | [] => st
  | row :: rows' => on_rows cols addr_col (S n) rows' (on_row cols addr_col n row st)
  end.

Definition no_host_column : string :=
  "No host column found — the first row must be a header like `Groups,Label,Tags,Hostname/IP,Protocol,Port,Username,Password`".

Definition parse_into (t : text) (preview : ImportPreview) : result CoreError ImportPreview :=
  match records t with
  | [] => Err (Invalid "The CSV file is empty")
  | header :: rows =>
      let cols := columns header in
      match cols CAddress with
      | None => Err (Invalid no_host_column)
      | Some addr_col =>
          let '(p, skipped) := on_rows cols addr_col 1 rows (preview, 0%nat) in
          Ok (if (0 <? skipped)%nat then
                warn (show_nat skipped ++ as_bytes " row(s) without a host name skipped") p
              else p)
      end
  end.
End Parse.

(** ** Reading back what a writer quotes

    The reference writer puts every field in quotes and doubles the quotes in
    it; fields may hold delimiters, quotes and line breaks. *)

Definition escape (f : text) : text := flat_map (fun b => if b =? quote then [quote; quote] else [b]) f.
Definition quote_field (f : text) : text := [quote] ++ escape f ++ [quote].
Fixpoint join (sep : Z) (l : list text) : text :=
  match l with [] => [] | [f] => f | f :: l' => f ++ [sep] ++ join sep l' end.
Definition write_row (d : Z) (row : list text) : text := join d (map quote_field row) ++ [10].
Definition write (d : Z) (rows : list (list text)) : text := flat_map (write_row d) rows.

(** What may follow a field. *)
Definition ends_field (d : Z) (rest : text) : Prop := exists b rest', rest = b :: rest' /\ (b = d \/ b = 10).

Lemma scan_escaped d rows row acc f rest : d <> quote -> ends_field d rest ->
  scan d rows row acc true (escape f ++ [quote] ++ rest) = scan d rows row (acc ++ f) false rest.
Proof.
  intros Hd Hr. revert acc. induction f as [|b f IH]; intros acc; cbn [escape flat_map app].
  - rewrite app_nil_r. cbn [scan]. rewrite Z.eqb_refl. destruct Hr as (c & rest' & -> & Hc).
    destruct (Z.eqb_spec c quote) as [->|]; [|done]. destruct Hc; [congruence|done].
  - fold (escape f). destruct (Z.eqb_spec b quote) as [->|Hb]; cbn [app scan].
    + rewrite !Z.eqb_refl. rewrite IH. by rewrite <- app_assoc.
    + rewrite (proj2 (Z.eqb_neq b quote)) by done. rewrite IH. by rewrite <- app_assoc.
Qed.

Lemma scan_field d rows row f rest : d <> quote -> ends_field d rest ->
  scan d rows row [] false (quote_field f ++ rest) = scan d rows row f false rest.
Proof.
  intros Hd Hr. unfold quote_field. rewrite <- !app_assoc. cbn [app scan]. rewrite Z.eqb_refl, bool_decide_eq_true_2 by done.
  cbn [andb]. by apply scan_escaped.
Qed.

(** A delimiter the reader can detect. *)
Definition delimiter (d : Z) : Prop := d = comma \/ d = semicolon \/ d = tab.

Lemma scan_delimiter d rows row f rest : delimiter d ->
  scan d rows row f false (d :: rest) = scan d rows (row ++ [f]) [] false rest.
Proof. intros Hd. cbn [scan]. rewrite Z.eqb_refl. by destruct Hd as [->|[->| ->]]. Qed.

Lemma scan_newline d rows row f rest : delimiter d -> Z.of_nat (length rows) < MAX_ROWS ->
  scan d rows row f false (10 :: rest) = scan d (rows ++ [row ++ [f]]) [] [] false rest.
Proof.
  intros Hd Hn. cbn [scan]. rewrite length_app. cbn [length].
  rewrite (proj2 (Z.ltb_ge MAX_ROWS _)) by lia. by destruct Hd as [->|[->| ->]].
Qed.

Lemma scan_row d rows row0 row rest : delimiter d -> row <> [] -> Z.of_nat (length rows) < MAX_ROWS ->
  scan d rows row0 [] false (write_row d row ++ rest) = scan d (rows ++ [row0 ++ row]) [] [] false rest.
Proof.
  intros Hd Hne Hn. assert (d <> quote) as Hq by (by destruct Hd as [->|[->| ->]]). unfold write_row.
  revert row0. induction row as [|f row IH]; intros row0; [done|]. destruct row as [|g row].
  - cbn [map join]. rewrite <- app_assoc, scan_field by (done || (exists 10; eauto)). by apply scan_newline.
  - change (join d (map quote_field (f :: g :: row))) with (quote_field f ++ [d] ++ join d (map quote_field (g :: row))).
    rewrite <- !app_assoc, scan_field by (done || (exists d; eauto)). cbn [app]. rewrite scan_delimiter by done.
    specialize (IH ltac:(done) (row0 ++ [f])). rewrite <- app_assoc in IH. cbn [app] in IH. rewrite IH.
    by rewrite <- app_assoc.
Qed.

Lemma scan_write d rows new : delimiter d -> Forall (fun r => r <> []) new -> Z.of_nat (length rows + length new) <= MAX_ROWS ->
  scan d rows [] [] false (write d new) = rows ++ new.
Proof.
  intros Hd Hne. revert rows. induction Hne as [|r new Hr Hne IH]; intros rows Hn; [by rewrite app_nil_r|].
  cbn [write flat_map length] in *. rewrite scan_row by (done || lia). cbn [app]. unfold write in IH. rewrite IH.
  - by rewrite <- app_assoc.
  - rewrite length_app. cbn. lia.
Qed.

Lemma first_line_of l rest : 10 ∉ l -> head (lines (l ++ 10 :: rest)) = Some (chop_cr l).
Proof. intros Hl. by rewrite lines_cons. Qed.

(** A table of at most 50000 rows reads back as itself, whatever its fields
    hold; only rows without any text are left out. *)
Lemma records_write d rows :
  delimiter d -> detect_delimiter (write d rows) = d -> Forall (fun r => r <> []) rows ->
  Z.of_nat (length rows) <= MAX_ROWS ->
  records (write d rows) = List.filter not_blank rows.
Proof. intros Hd Hdet Hne Hn. unfold records. rewrite Hdet. by rewrite scan_write. Qed.

(** ** Exporting hosts and importing them *)

Definition header : list text :=
  map as_bytes ["Groups"; "Label"; "Tags"; "Hostname/IP"; "Protocol"; "Port"; "Username"; "Password"].
Definition row_of (h : ImportedHost) : list text :=
  [join 47 (group_path h); label h; join comma (tags h); address h; protocol h;
   match port h with Some p => as_bytes (pretty p) | None => [] end; username h; default [] (password h)].
Definition export (hs : list ImportedHost) : text := write comma (header :: map row_of hs).

(** Text that trimming leaves alone; an element of a list with separators. *)
Definition clean (t : text) : Prop := trim_bytes t = t.
Definition item (seps : list Z) (t : text) : Prop := t <> [] /\ clean t /\ Forall (fun b => b ∉ seps) t.

(** The hosts a CSV file can carry. *)
Record exportable (h : ImportedHost) : Prop := {
  e_label : label h <> [] /\ clean (label h);
  e_address : address h <> [] /\ clean (address h);
  e_protocol : protocol h = as_bytes "ssh" \/ protocol h = as_bytes "telnet";
  e_port : match port h with Some p => 0 < p < 65536 | None => True end;
  e_username : clean (username h);
  e_password : match password h with Some p => p <> [] /\ clean p | None => True end;
  e_groups : Forall (item [47; 92; 62]) (group_path h) /\ clean (join 47 (group_path h));
  e_tags : Forall (item [comma; semicolon; bar]) (tags h) /\ clean (join comma (tags h));
  e_rest : h = mkImportedHost (label h) (address h) (protocol h) (port h) (username h) (password h) false
                 (group_path h) (tags h) None [] None false false [] None None [] []
}.

Lemma pieces_join seps sep xs : sep ∈ seps -> Forall (item seps) xs -> pieces seps (join sep xs) = xs.
Proof.
  intros Hs Hx. unfold pieces. destruct xs as [|x xs]; [done|].
  assert (split_any seps (join sep (x :: xs)) = x :: xs) as ->.
  { revert x Hx. induction xs as [|y xs IH]; intros x [(_ & _ & Hx) Hxs]%Forall_cons;
      rewrite Forall_forall in Hx; [by apply split_any_none|].
    change (join sep (x :: y :: xs)) with (x ++ sep :: join sep (y :: xs)). rewrite split_any_app by done. by rewrite IH. }
  induction Hx as [|y ys (Hy & Hc & _) Hys IH]; [done|]. cbn [map List.filter]. rewrite Hc, bool_decide_eq_false_2 by done.
  cbn [negb]. by rewrite IH.
Qed.

Lemma cell_at row i t : row !! i = Some t -> clean t -> cell row (Some i) = t.
Proof. unfold cell. cbn. by intros -> ->. Qed.

Lemma columns_header k : columns header k = Some match k with
  | CGroups => 0 | CLabel => 1 | CTags => 2 | CAddress => 3 | CProtocol => 4 | CPort => 5 | CUsername => 6 | CPassword => 7
  end%nat.
Proof. destruct k; vm_compute; reflexivity. Qed.

Lemma clean_nil : clean [].
Proof. done. Qed.

Lemma row_port_written debug n h p : exportable h ->
  row_port debug n (match port h with Some v => as_bytes (pretty v) | None => [] end) p = (port h, p).
Proof.
  intros H. pose proof (e_port h H) as Hp. destruct (port h) as [v|]; [|done]. unfold row_port.
  destruct (pretty_graphic v ltac:(lia)) as [_ Hne]. rewrite decide_False by done. rewrite parse_uint_pretty by lia.
  by rewrite (proj2 (Z.ltb_lt _ _)) by lia.
Qed.

Lemma row_host_written h : exportable h -> row_host (columns header) (row_of h) (address h) (protocol h) (port h) = h.
Proof.
  intros H. destruct (e_label h H) as [Hl1 Hl2], (e_groups h H) as [Hg1 Hg2], (e_tags h H) as [Ht1 Ht2].
  pose proof (e_password h H) as Hpw. unfold row_host. rewrite !columns_header.
  rewrite (cell_at _ 1 (label h)), (cell_at _ 6 (username h)), (cell_at _ 0 (join 47 (group_path h))),
    (cell_at _ 2 (join comma (tags h))) by (done || apply H).
  rewrite (cell_at _ 7 (default [] (password h))) by (done || (destruct (password h); [apply Hpw|done])).
  unfold or_else. rewrite decide_False by done. rewrite pieces_join by (done || by left).
  unfold split_list. rewrite pieces_join by (done || by left). etransitivity; [|symmetry; apply (e_rest h H)].
  f_equal. destruct (password h) as [pw|]; cbn; [|done]. destruct Hpw. by rewrite decide_False.
Qed.

Lemma on_row_written debug n h p k : exportable h -> on_row debug (columns header) 3 n (row_of h) (p, k) = (push_host h p, k).
Proof.
  intros H. destruct (e_address h H) as [Ha1 Ha2]. unfold on_row. rewrite !columns_header.
  rewrite (cell_at _ 3 (address h)) by done. rewrite decide_False by done.
  pose proof (row_port_written debug n h p H) as Hp. pose proof (row_host_written h H) as Hh.
  rewrite (cell_at _ 5 (match port h with Some v => as_bytes (pretty v) | None => [] end)), Hp.
  2: done. 2: { pose proof (e_port h H). destruct (port h); [|done]. by apply trim_bytes_graphic, pretty_graphic; lia. }
  destruct (e_protocol h H) as [E|E]; rewrite (cell_at _ 4 (protocol h)) by (done || (rewrite E; by vm_compute));
    rewrite E in Hh |- *; cbv iota; by rewrite Hh.
Qed.

Lemma on_rows_written debug n hs p k : Forall exportable hs ->
  on_rows debug (columns header) 3 n (map row_of hs) (p, k) =
    (mkPreview (id p) (source p) (origin p) (hosts p ++ hs) (keys p) (known_hosts p) (pf_rules p) (warnings p), k).
Proof.
  intros H. revert n p. induction H as [|h hs Hh _ IH]; intros n p; [rewrite app_nil_r; by destruct p|].
  cbn [map on_rows]. rewrite on_row_written, IH by done. unfold push_host. cbn. by rewrite <- app_assoc.
Qed.

Lemma export_delimiter hs : detect_delimiter (export hs) = comma.
Proof.
  assert (head (lines (export hs)) = Some (chop_cr (join comma (map quote_field header)))) as E.
  { unfold export, write. cbn [flat_map]. unfold write_row at 1. rewrite <- app_assoc. change ([10] ++ ?x) with (10 :: x).
    apply first_line_of. apply (bool_decide_unpack _). by vm_compute. }
  unfold detect_delimiter. rewrite E. by vm_compute.
Qed.

Lemma row_of_not_blank h : exportable h -> not_blank (row_of h) = true.
Proof.
  intros H. destruct (e_address h H) as [Ha Hc]. apply existsb_exists. exists (address h). split; [cbn; auto|].
  rewrite Hc. by rewrite bool_decide_eq_false_2.
Qed.

(** C35: Hosts written as a CSV file (up to 49999, with labels, passwords and the
    like holding any delimiters, quotes and line breaks) are imported as
    exactly those hosts, in order and without a warning. *)
Theorem csv_import_roundtrip debug hs p :
  Forall exportable hs -> Z.of_nat (length hs) < MAX_ROWS ->
  parse_into debug (export hs) p =
    Ok (mkPreview (id p) (source p) (origin p) (hosts p ++ hs) (keys p) (known_hosts p) (pf_rules p) (warnings p)).
Proof.
  intros H Hn. unfold parse_into, export. rewrite records_write.
  - assert (not_blank header = true) as Hh by by vm_compute. cbn [List.filter]. rewrite Hh.
    assert (List.filter not_blank (map row_of hs) = map row_of hs) as ->.
    { induction H as [|h hs Hx _ IH]; [done|]. cbn [map List.filter length] in *. rewrite row_of_not_blank by done.
      by rewrite IH by lia. }
    rewrite columns_header, on_rows_written by done. done.
  - by left.
  - apply export_delimiter.
  - constructor; [done|]. apply Forall_map, Forall_true. done.
  - cbn [length]. rewrite length_map. lia.
Qed.

(** ** What comes out of any file *)

Record imported_ok (h : ImportedHost) : Prop := {
  o_label : label h <> []; o_address : address h <> [];
  o_protocol : protocol h = as_bytes "ssh" \/ protocol h = as_bytes "telnet";
  o_port : match port h with Some p => 0 < p < 65536 | None => True end;
  o_password : password h <> Some [];
  o_lists : ([] ∉ group_path h) /\ ([] ∉ tags h);
  o_rest : key_path h = None /\ jump_hosts h = [] /\ proxy h = None /\ env_variables h = []
}.

Lemma pieces_nonempty seps t : [] ∉ pieces seps t.
Proof.
  unfold pieces. rewrite list_elem_of_In, filter_In. intros [_ H]. by rewrite bool_decide_eq_true_2 in H.
Qed.

Lemma row_host_ok cols row a protocol port : a <> [] -> (protocol = as_bytes "ssh" \/ protocol = as_bytes "telnet") ->
  match port with Some p => 0 < p < 65536 | None => True end -> imported_ok (row_host cols row a protocol port).
Proof.
  intros Ha Hp Hport. split; cbn; try done.
  - unfold or_else. by case_decide.
  - case_decide; congruence.
  - split; apply pieces_nonempty.
Qed.

(** The rows of a file, however many: a row begun, a field begun, whether it is
    in quotes, and the text to come. *)
Fixpoint table (d : Z) (row : list text) (field : text) (quoted : bool) (l : text) : list (list text) :=
  match l with
  | [] => if bool_decide (field = []) && bool_decide (row = []) then [] else [row ++ [field]]
  | c :: l' =>
      if quoted then
        if c =? quote then
          match l' with
          | c' :: l'' => if c' =? quote then table d row (field ++ [quote]) true l'' else table d row field false l'
          | [] => table d row field false l'
          end
        else table d row (field ++ [c]) true l'
      else if (c =? quote) && bool_decide (field = []) then table d row field true l'
      else if c =? d then table d (row ++ [field]) [] false l'
      else if c =? 10 then (row ++ [field]) :: table d [] [] false l'
      else table d row (if c =? 13 then field else field ++ [c]) false l'
  end.
Definition all_rows (t : text) : list (list text) := table (detect_delimiter t) [] [] false t.

(** The reader stops after 50001 rows. *)
Lemma scan_table d : d <> 10 -> d <> 13 -> forall l rows row field quoted, Z.of_nat (length rows) <= 50000 ->
  scan d rows row field quoted l = take (Z.to_nat 50001) (rows ++ table d row field quoted l).
Proof.
  intros Hd10 Hd13 l. induction l as [l IH] using (induction_ltof1 _ (@length Z)). unfold ltof in IH.
  intros rows row field quoted Hn. destruct l as [|c l'].
  { cbn [scan table]. case_bool_decide; case_bool_decide; cbn [negb andb orb];
      rewrite ?app_nil_r, take_ge; try done; rewrite ?length_app; cbn [length]; lia. }
  pose proof (fun rows row field quoted => IH l' ltac:(cbn; lia) rows row field quoted) as IH1.
  cbn [scan table]. destruct quoted.
  - destruct (Z.eqb_spec c quote) as [->|Hc]; cbn [andb negb].
    + destruct l' as [|c' l'']; [by apply IH1|]. destruct (c' =? quote); [|by apply IH1]. apply IH; [cbn; lia|done].
    + by apply IH1.
  - destruct ((c =? quote) && bool_decide (field = [])); [by apply IH1|].
    destruct (c =? d); [by apply IH1|]. destruct (Z.eqb_spec c 13) as [->|Hc]; [by apply IH1|].
    destruct (Z.eqb_spec c 10) as [->|Hc']; [|by apply IH1].
    cbv zeta. rewrite (cons_middle _ rows (table d [] [] false l')), (app_assoc rows).
    destruct (Z.ltb_spec MAX_ROWS (Z.of_nat (length (rows ++ [row ++ [field]])))) as [H|H]; unfold MAX_ROWS in H.
    + symmetry. apply take_app_length'. rewrite length_app in *. cbn [length] in *. lia.
    + by apply IH1.
Qed.

Lemma records_rows t : records t = List.filter not_blank (take (Z.to_nat 50001) (all_rows t)).
Proof.
  unfold records, all_rows. f_equal. apply (scan_table _) with (rows := []); [| |done];
    unfold detect_delimiter; (destruct (_ && _); [done|]); by destruct (_ <? _)%nat.
Qed.

(** What the port of a row may give, and the warning. *)
Inductive port_read (debug : text -> text) (n : nat) (t : text) : option Z -> list text -> Prop :=
| port_none : t = [] -> port_read debug n t None []
| port_some v : t <> [] -> parse_uint 65535 t = Some v -> 0 < v -> port_read debug n t (Some v) []
| port_bad : t <> [] -> (forall v, parse_uint 65535 t = Some v -> v = 0) ->
    port_read debug n t None [as_bytes "Row " ++ show_nat (n + 1) ++ as_bytes ": port " ++ debug t ++ as_bytes " ignored"].

(** How a data row is accounted for: the hosts and the warnings it gives. [n]
    is its place among the rows with text, the header's being 0. *)
Inductive accounted (debug : text -> text) (cols : Columns) (a n : nat) (row : list text) : list ImportedHost -> list text -> Prop :=
| no_address : cell row (Some a) = [] -> accounted debug cols a n row [] []
| unsupported :
    cell row (Some a) <> [] -> lowercase (cell row (cols CProtocol)) ∉ [[]; as_bytes "ssh"; as_bytes "telnet"] ->
    accounted debug cols a n row []
      [as_bytes "Row " ++ show_nat (n + 1) ++ as_bytes ": protocol " ++ debug (lowercase (cell row (cols CProtocol))) ++
       as_bytes " is not supported, skipped"]
| host proto port ws h :
    cell row (Some a) <> [] ->
    (lowercase (cell row (cols CProtocol)) ∈ [[]; as_bytes "ssh"] /\ proto = as_bytes "ssh"
     \/ lowercase (cell row (cols CProtocol)) = as_bytes "telnet" /\ proto = as_bytes "telnet") ->
    port_read debug n (cell row (cols CPort)) port ws ->
    h = mkImportedHost (if decide (cell row (cols CLabel) = []) then cell row (Some a) else cell row (cols CLabel))
          (cell row (Some a)) proto port (cell row (cols CUsername))
          (if decide (cell row (cols CPassword) = []) then None else Some (cell row (cols CPassword))) false
          (pieces [47; 92; 62] (cell row (cols CGroups))) (pieces [comma; semicolon; bar] (cell row (cols CTags)))
          None [] None false false [] None None [] [] ->
    imported_ok h -> accounted debug cols a n row [h] ws.

(** The preview with what the rows gave. *)
Definition extend (p : ImportPreview) (hs : list ImportedHost) (ws : list text) : ImportPreview :=
  mkPreview (id p) (source p) (origin p) (hosts p ++ hs) (keys p) (known_hosts p) (pf_rules p) (warnings p ++ ws).

Lemma extend_nil p : extend p [] [] = p.
Proof. unfold extend. rewrite !app_nil_r. by destruct p. Qed.
Lemma extend_extend p hs ws hs' ws' : extend (extend p hs ws) hs' ws' = extend p (hs ++ hs') (ws ++ ws').
Proof. unfold extend. cbn. by rewrite !app_assoc. Qed.
Lemma extend_host p h ws : push_host h (extend p [] ws) = extend p [h] ws.
Proof. unfold extend, push_host. cbn. by rewrite app_nil_r. Qed.
Lemma extend_warn p w : warn w p = extend p [] [w].
Proof. unfold extend, warn. by rewrite app_nil_r. Qed.

Lemma row_port_read debug n t p o p' : row_port debug n t p = (o, p') ->
  exists ws, port_read debug n t o ws /\ p' = extend p [] ws /\ match o with Some v => 0 < v < 65536 | None => True end.
Proof.
  unfold row_port. case_decide as Ht; [intros [= <- <-]; exists []; rewrite extend_nil; by split; [constructor|]|].
  destruct (parse_uint 65535 t) as [v|] eqn:E.
  - pose proof (parse_uint_range 65535 t v ltac:(done) E) as Hr. destruct (Z.ltb_spec 0 v); intros [= <- <-].
    + exists []. rewrite extend_nil. split; [by econstructor|]. split; [done|lia].
    + eexists. rewrite extend_warn. split; [|done]. constructor; [done|]. intros v'. rewrite E. intros [= <-]. lia.
  - intros [= <- <-]. eexists. rewrite extend_warn. split; [|done]. constructor; [done|]. intros v'. by rewrite E.
Qed.

Definition no_addresses (a : nat) (rows : list (list text)) : nat := length (filter (fun r => cell r (Some a) = []) rows).

Lemma on_row_accounted debug cols a n row p k : exists hs ws, accounted debug cols a n row hs ws /\
  on_row debug cols a n row (p, k) = (extend p hs ws, (k + no_addresses a [row])%nat).
Proof.
  unfold on_row, no_addresses. rewrite filter_cons, filter_nil. destruct (decide (cell row (Some a) = [])) as [Ea|Ea].
  { exists [], []. rewrite extend_nil. split; [by constructor|]. f_equal. cbn. lia. }
  cbn [length]. rewrite Nat.add_0_r. unfold one_of.
  destruct (row_port debug n _ p) as [o q] eqn:Er. apply row_port_read in Er as (ws & Hw & -> & Ho).
  assert (Hh : forall pr, (lowercase (cell row (cols CProtocol)) ∈ [[]; as_bytes "ssh"] /\ pr = as_bytes "ssh"
     \/ lowercase (cell row (cols CProtocol)) = as_bytes "telnet" /\ pr = as_bytes "telnet") ->
     accounted debug cols a n row [row_host cols row (cell row (Some a)) pr o] ws).
  { intros pr Hpr. apply (host _ _ _ _ _ pr o); try done. apply row_host_ok; [done| |done]. naive_solver. }
  destruct (bool_decide (_ ∈ map as_bytes [""; "ssh"])) eqn:B1; [|destruct (bool_decide (_ ∈ map as_bytes ["telnet"])) eqn:B2].
  - apply bool_decide_eq_true in B1. eexists _, ws. rewrite extend_host. split; [apply Hh; by left|done].
  - apply bool_decide_eq_true, list_elem_of_singleton in B2. eexists _, ws. rewrite extend_host.
    split; [|done]. apply Hh. right. split; [exact B2|done].
  - apply bool_decide_eq_false in B1, B2. eexists [], [_]. rewrite <- extend_warn. split; [|done]. constructor; [done|].
    cbn in B1, B2. set_solver.
Qed.

Lemma on_rows_accounted debug cols a n rows p k : exists outcomes,
  on_rows debug cols a n rows (p, k) =
    (extend p (concat (map fst outcomes)) (concat (map snd outcomes)), (k + no_addresses a rows)%nat) /\
  length outcomes = length rows /\
  forall i row, rows !! i = Some row -> exists hs ws, outcomes !! i = Some (hs, ws) /\ accounted debug cols a (n + i) row hs ws.
Proof.
  revert n p k. induction rows as [|row rows IH]; intros n p k; cbn [on_rows].
  { exists []. cbn. by rewrite extend_nil, Nat.add_0_r. }
  destruct (on_row_accounted debug cols a n row p k) as (hs & ws & Ha & ->).
  destruct (IH (S n) (extend p hs ws) (k + no_addresses a [row])%nat) as (outs & -> & Hl & Hi).
  exists ((hs, ws) :: outs). cbn [map concat fst snd length]. rewrite extend_extend. split_and!; [|by rewrite Hl|].
  - f_equal. unfold no_addresses. rewrite (filter_app _ [row] rows : filter _ (row :: rows) = _), length_app. lia.
  - intros [|i] r; cbn; [intros [= <-]; rewrite Nat.add_0_r; by exists hs, ws|].
    intros H. destruct (Hi i r H) as (hs' & ws' & ? & ?). exists hs', ws'. by rewrite Nat.add_succ_r.
Qed.

(** C39: Every row of a file is accounted for, up to the 50001st. The rows that
    count are those with any text among the first 50001 rows of the file; the
    first is the header. An import fails only without one, or when the header
    names no host column. Otherwise the preview grows by exactly what its data
    rows give, in order: a row without an address gives nothing and is counted
    in the last warning; one with another protocol gives the warning that names
    it; and any other gives one host, with the fields of its columns, well
    formed, and the warning about its port if that is no port. What follows the
    50001st row is lost without a warning. *)
Theorem csv_import_well_formed debug t p :
  match List.filter not_blank (take (Z.to_nat 50001) (all_rows t)) with
  | [] => parse_into debug t p = Err (Invalid "The CSV file is empty")
  | header :: rows =>
      match columns header CAddress with
      | None => parse_into debug t p = Err (Invalid no_host_column)
      | Some a =>
          exists outcomes, length outcomes = length rows
          /\ (forall i row, rows !! i = Some row -> exists hs ws, outcomes !! i = Some (hs, ws)
                /\ accounted debug (columns header) a (1 + i) row hs ws)
          /\ parse_into debug t p = Ok (extend p (concat (map fst outcomes)) (concat (map snd outcomes) ++
                if (0 <? no_addresses a rows)%nat
                then [show_nat (no_addresses a rows) ++ as_bytes " row(s) without a host name skipped"] else []))
      end
  end.
Proof.
  unfold parse_into. rewrite records_rows. destruct (List.filter _ _) as [|header rows]; [done|].
  destruct (columns header CAddress) as [a|]; [|done].
  destruct (on_rows_accounted debug (columns header) a 1 rows p 0) as (outs & -> & Hl & Hi).
  exists outs. split; [done|]. split; [done|]. rewrite Nat.add_0_l.
  destruct (0 <? _)%nat; [|by rewrite app_nil_r]. by rewrite extend_warn, extend_extend, app_nil_r.
Qed.

(** ** Concrete inputs *)

Module Sample.
Definition preview : ImportPreview := preview_new 1 Csv (as_bytes "hosts.csv").
(** A label with a line break, a password with the delimiter and a quote. *)
Definition host : ImportedHost :=
  mkImportedHost (as_bytes "two" ++ [10] ++ as_bytes "lines") (as_bytes "10.0.0.5") (as_bytes "ssh") (Some 2222)
    (as_bytes "root") (Some (as_bytes "p,;" ++ [quote] ++ as_bytes "w")) false [as_bytes "Prod"; as_bytes "DB"]
    [as_bytes "pg"; as_bytes "a b"] None [] None false false [] None None [] [].
Definition plain : ImportedHost :=
  mkImportedHost (as_bytes "sw") (as_bytes "sw.lab") (as_bytes "telnet") None [] None false [] [] None [] None false false
    [] None None [] [].
End Sample.

Lemma csv_import_roundtrip_witness :
  Forall exportable [Sample.host; Sample.plain] /\
  parse_into (fun t => t) (export [Sample.host; Sample.plain]) Sample.preview =
    Ok (mkPreview 1 Csv (as_bytes "hosts.csv") [Sample.host; Sample.plain] [] [] [] []).
Proof.
  assert (Forall exportable [Sample.host; Sample.plain]) as H.
  { constructor; [|constructor; [|done]]; split; try by vm_compute.
    all: first [by left | by right | unfold item, clean; apply (bool_decide_unpack _); by vm_compute]. }
  split; [exact H|]. exact (csv_import_roundtrip (fun t => t) [Sample.host; Sample.plain] Sample.preview H ltac:(by vm_compute)).
Defined.
