(* ===== verification/SshConfig.v ===== *)
(** * ssh_config imports

    [crates/termoso-core/src/import/ssh_config.rs]: reading the directives into
    blocks, [Host] patterns, the directives that apply to an alias, and the
    hosts and forwards built from them. What the files an [Include] names hold,
    the environment and Unicode lower-casing are arguments. Text is its UTF-8
    bytes; where the code walks characters to find ASCII ones or white space,
    this walks bytes. *)
From stdpp Require Import pretty.
From S2P Require Import Prelude Text Import.

#[local] Open Scope string_scope.
#[local] Open Scope list_scope.
#[local] Open Scope Z_scope.

Definition MAX_INCLUDE_DEPTH : nat := 8.
Definition MULTI_VALUED : list text :=
  map as_bytes ["identityfile"; "localforward"; "remoteforward"; "dynamicforward"; "sendenv"; "setenv"].

Record Directive := mkDirective { key : text; args : list text }.
(** [Host] patterns, empty for the global block; [None] for [Match]. *)
Record Block := mkBlock { patterns : option (list text); directives : list Directive }.
Record Parsed := mkParsed { blocks : list Block; matches : nat; includes : nat; missing_includes : list text }.

Definition eq_ignore_case (a b : text) : bool := bool_decide (lowercase a = lowercase b).
Definition is_text (t : text) (s : string) : bool := bool_decide (t = as_bytes s).

(** ** Lines *)

(** The loop of [split_args]. *)
Fixpoint args_from (fuel : nat) (out : list text) (cur : text) (quoted had_quote : bool) (l : text) : list text :=
  let finish := if negb (bool_decide (cur = [])) || had_quote then out ++ [cur] else out in
  match fuel, l with
  | S fuel', b :: l' =>
      if b =? 34 then args_from fuel' out cur (negb quoted) true l'
      else if negb (space_at l =? 0)%nat && negb quoted then
        if negb (bool_decide (cur = [])) || had_quote then
          args_from fuel' (out ++ [cur]) [] quoted false (drop (space_at l) l)
        else args_from fuel' out cur quoted had_quote (drop (space_at l) l)
      else if (b =? 35) && negb quoted && bool_decide (cur = []) then finish
      else args_from fuel' out (cur ++ [b]) quoted had_quote l'
  | _, _ => finish
  end.
Definition split_args (s : text) : list text := args_from (length s) [] [] false false s.

(** Up to white space or [=]. *)
Fixpoint key_of (l : text) : text * text :=
  match l with
  | [] => ([], [])
  | b :: l' =>
      if negb (space_at l =? 0)%nat || (b =? 61) then ([], l)
      else let '(k, rest) := key_of l' in (b :: k, rest)
  end.

Definition tokenize (line : text) : option Directive :=
  let line := trim_bytes line in
  if bool_decide (line = []) || bool_decide (head line = Some 35) then None
  else
    let '(key, rest) := key_of line in
    if decide (key = []) then None
    else
      let rest := default (trim_start rest) (strip_prefix [61] (trim_start rest)) in
      Some (mkDirective (lowercase key) (split_args (trim_bytes rest))).

(** ** Blocks *)

Definition push_block (b : Block) (p : Parsed) : Parsed :=
  mkParsed (blocks p ++ [b]) (matches p) (includes p) (missing_includes p).
(** [blocks.last_mut()]. *)
Definition push_directive (d : Directive) (p : Parsed) : Parsed :=
  match last (blocks p) with
  | Some b => mkParsed (removelast (blocks p) ++ [mkBlock (patterns b) (directives b ++ [d])])
                (matches p) (includes p) (missing_includes p)
  | None => p
  end.

Section Read.
(** The files an [Include] argument expands to: their text, [None] when one
    cannot be read. *)
Context (include_files : text -> list (option text)).

(** [n] is how much deeper includes may go. *)
Fixpoint read (n : nat) (t : text) (out : Parsed) : Parsed :=
  fold_left (fun out raw =>
    match tokenize raw with
    | None => out
    | Some d =>
        if is_text (key d) "host" then push_block (mkBlock (Some (args d)) []) out
        else if is_text (key d) "match" then
          push_block (mkBlock None []) (mkParsed (blocks out) (S (matches out)) (includes out) (missing_includes out))
        else if is_text (key d) "include" then
          let out := mkParsed (blocks out) (matches out) (S (includes out)) (missing_includes out) in
          match n with
          | O => out
          | S n' =>
              fold_left (fun out pat =>
                let files := include_files pat in
                let out := if decide (files = []) then
                             mkParsed (blocks out) (matches out) (includes out) (missing_includes out ++ [pat])
                           else out in
                fold_left (fun out f => match f with Some t => read n' t out | None => out end) files out) (args d) out
          end
        else push_directive d out
    end) (lines t) out.
End Read.

(** ** Patterns *)

Definition star : bytes := [42].
Definition question : bytes := [63].

(** [go] of [glob_match], on characters. *)
Fixpoint glob (p : list bytes) : list bytes -> bool :=
  match p with
  | [] => fun t => match t with [] => true | _ => false end
  | c :: p' =>
      if decide (c = star) then
        fix go t := glob p' t || match t with [] => false | _ :: t' => go t' end
      else if decide (c = question) then
        fun t => match t with [] => false | _ :: t' => glob p' t' end
      else
        fun t => match t with [] => false | d :: t' => eq_ignore_case c d && glob p' t' end
  end.
Definition glob_match (pattern t : text) : bool := glob (chars pattern) (chars t).

Fixpoint patterns_from (positive : bool) (patterns : list text) (name : text) : bool :=
  match patterns with
  | [] => positive
  | p :: ps =>
      match strip_prefix [33] p with
      | Some neg => if glob_match neg name then false else patterns_from positive ps name
      | None => patterns_from (positive || glob_match p name) ps name
      end
  end.
Definition patterns_match (patterns : list text) (name : text) : bool := patterns_from false patterns name.

Definition is_pattern (alias : text) : bool := existsb (fun b => (b =? 42) || (b =? 63) || (b =? 33)) alias.

(** ** What applies to an alias *)

Record Effective := mkEffective { single : list (text * list text); multi : list (text * list text) }.

Definition applies (b : Block) (alias : text) : bool :=
  match patterns b with
  | None => false
  | Some [] => true
  | Some p => patterns_match p alias
  end.
Definition add_directive (eff : Effective) (d : Directive) : Effective :=
  if bool_decide (key d ∈ MULTI_VALUED) then mkEffective (single eff) (multi eff ++ [(key d, args d)])
  else if existsb (fun x => bool_decide (fst x = key d)) (single eff) then eff
  else mkEffective (single eff ++ [(key d, args d)]) (multi eff).
Definition compute (p : Parsed) (alias : text) : Effective :=
  fold_left (fun eff b => if applies b alias then fold_left add_directive (directives b) eff else eff)
    (blocks p) (mkEffective [] []).

Definition get (e : Effective) (key : string) : option text :=
  '(_, x) ← list_find (fun x => fst x = as_bytes key) (single e); head (snd x).
Definition all (e : Effective) (key : string) : list (list text) :=
  map snd (filter (fun x => fst x = as_bytes key) (multi e)).

Definition yes (v : option text) : bool :=
  match v with Some s => eq_ignore_case s (as_bytes "yes") || eq_ignore_case s (as_bytes "true") | None => false end.

(** ** Hosts *)

Definition split_bind_port (s : text) : option (text * Z) :=
  match strip_prefix [91] s ≫= split_once_at (as_bytes "]:") with
  | Some (host, port) => p ← parse_uint 65535 port; Some (host, p)
  | None =>
      match rsplit_once_any [58] s with
      | Some (bind, port) => p ← parse_uint 65535 port; Some (bind, p)
      | None =>
          match rsplit_once_any [47] s with
          | Some (bind, port) => p ← parse_uint 65535 port; Some (bind, p)
          | None => p ← parse_uint 65535 s; Some ([], p)
          end
      end
  end.
Definition split_host_port (s : text) : option (text * Z) :=
  match strip_prefix [91] s ≫= split_once_at (as_bytes "]:") with
  | Some (host, port) => p ← parse_uint 65535 port; Some (host, p)
  | None =>
      '(host, port) ← rsplit_once_any [58; 47] s;
      if decide (host = []) then None else p ← parse_uint 65535 port; Some (host, p)
  end.

Definition forward (kind : PfKind) (alias : text) (args : list text) : option ImportedPfRule :=
  '(bind, local_port) ← head args ≫= split_bind_port;
  '(remote_host, remote_port) ← (match kind with
                                 | PfDynamic => Some ([], 0)
                                 | _ => args !! 1%nat ≫= split_host_port
                                 end);
  Some (mkPfRule alias kind bind local_port remote_host remote_port).

Section Build.
Context (to_lowercase : text -> text) (env : text -> option text).

Definition positive_u32 (v : option text) : option Z :=
  s ← v; n ← parse_uint (2 ^ 32 - 1) s; if 0 <? n then Some n else None.

(** [setenv], then [sendenv] for the names not set yet. *)
Definition set_env (acc : list (text * text)) (kv : text) : list (text * text) :=
  match split_once_bytes 61 kv with Some (k, v) => acc ++ [(k, v)] | None => acc end.
Definition send_env (acc : list (text * text)) (name : text) : list (text * text) :=
  if bool_decide (head name = Some 45) || existsb (fun b => (b =? 42) || (b =? 63)) name then acc
  else
    match env name with
    | Some v => if existsb (fun x => bool_decide (fst x = name)) acc then acc else acc ++ [(name, v)]
    | None => acc
    end.

Definition jumps (v : option text) : list text :=
  match v with
  | Some jump =>
      if eq_ignore_case jump (as_bytes "none") then []
      else List.filter (fun t => negb (bool_decide (t = []))) (map trim_bytes (split_any [44] jump))
  | None => []
  end.

Definition host_of (eff : Effective) (alias : text) : ImportedHost :=
  let address := match get eff "hostname" with Some h => replace (as_bytes "%h") alias h | None => alias end in
  let key_path :=
    '(_, p) ← list_find (fun p => eq_ignore_case p (as_bytes "none") = false)
                (omap head (all eff "identityfile"));
    Some (replace (as_bytes "%h") alias (replace (as_bytes "%d") (as_bytes "~") p)) in
  let env_variables := fold_left send_env (concat (all eff "sendenv")) (fold_left set_env (concat (all eff "setenv")) []) in
  mkImportedHost alias address (as_bytes "ssh") (get eff "port" ≫= parse_uint 65535) (default [] (get eff "user"))
    None false [] [] key_path (jumps (get eff "proxyjump")) None (yes (get eff "forwardagent"))
    (yes (get eff "forwardx11") || yes (get eff "forwardx11trusted")) env_variables
    (positive_u32 (get eff "serveraliveinterval")) (positive_u32 (get eff "connecttimeout")) []
    (match get eff "proxycommand" with Some _ => [as_bytes "ProxyCommand ignored"] | None => [] end).

Definition rules_of (eff : Effective) (alias : text) : list ImportedPfRule :=
  omap (forward PfLocal alias) (all eff "localforward") ++
  omap (forward PfRemote alias) (all eff "remoteforward") ++
  omap (forward PfDynamic alias) (all eff "dynamicforward").

(** The aliases seen, the hosts with a [ProxyCommand], the preview. *)
Definition BuildState : Type := list text * nat * ImportPreview.
Definition on_alias (parsed : Parsed) (st : BuildState) (alias : text) : BuildState :=
  let '(seen, commands, preview) := st in
  if is_pattern alias then st
  else if bool_decide (to_lowercase alias ∈ seen) then st
  else
    let eff := compute parsed alias in
    (to_lowercase alias :: seen,
     match get eff "proxycommand" with Some _ => S commands | None => commands end,
     push_host (host_of eff alias) (push_rules (rules_of eff alias) preview)).
Definition on_block (parsed : Parsed) (st : BuildState) (b : Block) : BuildState :=
  match patterns b with None => st | Some ps => fold_left (on_alias parsed) ps st end.

Definition build (parsed : Parsed) (preview : ImportPreview) : ImportPreview :=
  let '(_, commands, preview) := fold_left (on_block parsed) (blocks parsed) ([], 0%nat, preview) in
  let preview :=
    if (0 <? commands)%nat then
      warn (as_bytes ("ProxyCommand is not supported and was ignored for " +:+ pretty (Z.of_nat commands) +:+ " host(s)")) preview
    else preview in
  if (0 <? includes parsed)%nat then
    warn (as_bytes (pretty (Z.of_nat (includes parsed)) +:+ " Include directive(s) expanded")) preview
  else preview.

Definition empty_config : Parsed := mkParsed [mkBlock (Some []) []] 0 0 [].

Definition parse_into (include_files : text -> list (option text)) (t : text) (preview : ImportPreview) : ImportPreview :=
  let parsed := read include_files MAX_INCLUDE_DEPTH t empty_config in
  let preview := build parsed preview in
  let preview :=
    if (0 <? matches parsed)%nat then
      warn (as_bytes (pretty (Z.of_nat (matches parsed)) +:+ " Match block(s) ignored — Termoso matches hosts by alias only")) preview
    else preview in
  fold_left (fun p inc => warn (as_bytes "Include " ++ inc ++ as_bytes " not found, skipped") p)
    (missing_includes parsed) preview.
End Build.

Lemma args_enough fuel fuel' out cur q h l : (length l <= fuel)%nat -> (length l <= fuel')%nat ->
  args_from fuel out cur q h l = args_from fuel' out cur q h l.
Proof.
  revert fuel' out cur q h l. induction fuel as [|fuel IH]; intros [|fuel'] out cur q h [|b l] H1 H2; cbn [length] in *;
    try done; try lia. cbn [args_from]. destruct (b =? 34); [apply IH; lia|].
  destruct (space_at (b :: l)) as [|n]; cbn [Nat.eqb negb andb].
  - destruct (_ && _ && _); [done|]. apply IH; lia.
  - destruct q; cbn [negb].
    + rewrite andb_false_r. cbn [andb]. apply IH; lia.
    + destruct (_ || _); apply IH; rewrite length_drop; cbn [length]; lia.
Qed.

(** ** Patterns: what they mean *)

Inductive pattern_matches : list bytes -> list bytes -> Prop :=
| P_end : pattern_matches [] []
| P_star p s t : pattern_matches p t -> pattern_matches (star :: p) (s ++ t)
| P_question p c t : pattern_matches p t -> pattern_matches (question :: p) (c :: t)
| P_char c d p t : c <> star -> c <> question -> lowercase c = lowercase d ->
    pattern_matches p t -> pattern_matches (c :: p) (d :: t).

Lemma glob_star p t : glob (star :: p) t = glob p t || match t with [] => false | _ :: t' => glob (star :: p) t' end.
Proof. by destruct t. Qed.

Lemma glob_spec p t : glob p t = true <-> pattern_matches p t.
Proof.
  split.
  - revert t. induction p as [|c p IH]; intros t; [by destruct t; [constructor|]|].
    destruct (decide (c = star)) as [->|Hs].
    { induction t as [|d t IHt]; rewrite glob_star; intros [H|H]%orb_true_iff; try done.
      - by apply (P_star p []), IH.
      - by apply (P_star p []), IH.
      - specialize (IHt H). inversion IHt as [|? s t' Hm E1 E2|? ? ? ? E1|? ? ? ? ? ? ? ? E1]; subst; try done.
        by apply (P_star p (d :: s)). }
    cbn [glob]. rewrite decide_False by done. destruct (decide (c = question)) as [->|Hq].
    + destruct t as [|d t]; [done|]. intros H. by constructor; apply IH.
    + destruct t as [|d t]; [done|]. intros [H1 H2]%andb_true_iff. constructor; try done; [|by apply IH].
      by apply bool_decide_eq_true_1 in H1.
  - induction 1 as [|p s t Hm IH|p c t Hm IH|c d p t Hs Hq Hc Hm IH]; [done| | |].
    + induction s as [|d s IHs]; cbn [app]; rewrite glob_star; [by rewrite IH|]. by rewrite IHs, orb_true_r.
    + done.
    + cbn [glob]. rewrite !decide_False by done. unfold eq_ignore_case. by rewrite bool_decide_eq_true_2.
Qed.

(** A list of [Host] patterns applies to a name exactly when some positive
    pattern matches it and no negated one does, where [*] stands for any
    characters, [?] for one, and letters match in either case. *)
Theorem patterns_match_spec patterns name :
  patterns_match patterns name = true <->
  (exists p, p ∈ patterns /\ strip_prefix [33] p = None /\ pattern_matches (chars p) (chars name)) /\
  (forall p neg, p ∈ patterns -> strip_prefix [33] p = Some neg -> ~ pattern_matches (chars neg) (chars name)).
Proof.
  assert (forall positive, patterns_from positive patterns name = true <->
    (positive = true \/ exists p, p ∈ patterns /\ strip_prefix [33] p = None /\ pattern_matches (chars p) (chars name)) /\
    (forall p neg, p ∈ patterns -> strip_prefix [33] p = Some neg -> ~ pattern_matches (chars neg) (chars name))) as H.
  { induction patterns as [|p ps IH]; intros positive; cbn [patterns_from].
    - split; [intros ->; split; [by left|by intros ? ? ?%elem_of_nil]|]. intros [[H|(? & ?%elem_of_nil & _)] _]; done.
    - destruct (strip_prefix [33] p) as [neg|] eqn:E; unfold glob_match.
      + destruct (glob (chars neg) (chars name)) eqn:G.
        * split; [done|]. intros [_ H]. apply glob_spec in G. by destruct (H p neg ltac:(by left) E).
        * assert (~ pattern_matches (chars neg) (chars name)) as Hn by (intros ?%glob_spec; congruence).
          rewrite IH. split; intros [H1 H2]; split.
          -- destruct H1 as [H1|(q & Hq & H1)]; [by left|]. right. exists q. split; [by right|done].
          -- intros q n [->|Hq]%elem_of_cons; [congruence|by apply H2].
          -- destruct H1 as [H1|(q & [->|Hq]%elem_of_cons & H1 & H3)]; [by left|congruence|]. right. eauto.
          -- intros q n Hq. apply H2. by right.
      + rewrite IH, orb_true_iff, glob_spec. split; intros [H1 H2]; split.
        * destruct H1 as [[H1|H1]|(q & Hq & H1)]; [by left| |].
          -- right. exists p. split; [by left|done].
          -- right. exists q. split; [by right|done].
        * intros q n [->|Hq]%elem_of_cons; [congruence|by apply H2].
        * destruct H1 as [H1|(q & [->|Hq]%elem_of_cons & H1 & H3)]; [by left; left|by left; right|]. right. eauto.
        * intros q n Hq. apply H2. by right. }
  unfold patterns_match. rewrite H. split; intros [H1 H2]; (split; [|done]); [by destruct H1|by right].
Qed.

(** ** The directives of an alias *)

(** In file order, those of the blocks that apply. *)
Definition directives_for (p : Parsed) (alias : text) : list Directive :=
  flat_map (fun b => if applies b alias then directives b else []) (blocks p).

Lemma compute_fold p alias : compute p alias = fold_left add_directive (directives_for p alias) (mkEffective [] []).
Proof.
  unfold compute, directives_for. generalize (mkEffective [] []). induction (blocks p) as [|b bs IH]; intros eff; [done|].
  cbn [fold_left flat_map]. rewrite fold_left_app, IH. by destruct (applies b alias).
Qed.

Definition named (k : text) (l : list (text * list text)) : option (text * list text) :=
  snd <$> list_find (fun x => fst x = k) l.
Definition first_directive (k : text) (ds : list Directive) : option Directive :=
  snd <$> list_find (fun d => key d = k) ds.

Lemma named_snoc k l x : named k (l ++ [x]) = match named k l with Some y => Some y | None => if decide (fst x = k) then Some x else None end.
Proof.
  unfold named. destruct (list_find _ l) as [[i y]|] eqn:E.
  - by rewrite (list_find_app_l _ _ _ _ _ E).
  - rewrite (list_find_app_r _ _ _ E). cbn [list_find]. by destruct (decide (fst x = k)).
Qed.

Lemma named_single k ds eff : k ∉ MULTI_VALUED ->
  named k (single (fold_left add_directive ds eff)) =
  match named k (single eff) with
  | Some x => Some x
  | None => (fun d => (key d, args d)) <$> first_directive k ds
  end.
Proof.
  intros Hk. revert eff. induction ds as [|d ds IH]; intros eff; [cbn; by destruct (named k (single eff))|].
  cbn [fold_left]. rewrite IH. unfold first_directive. cbn [list_find].
  assert (named k (single (add_directive eff d)) =
    match named k (single eff) with Some x => Some x | None => if decide (key d = k) then Some (key d, args d) else None end) as ->.
  { unfold add_directive. case_bool_decide as Hm; cbn [single].
    - destruct (decide (key d = k)) as [<-|]; [done|]. by destruct (named k (single eff)).
    - destruct (existsb _ _) eqn:E; cbn [single]; [|by rewrite named_snoc].
      apply existsb_exists in E as (x & Hx & E%bool_decide_eq_true_1). destruct (named k (single eff)) eqn:En; [done|].
      destruct (decide (key d = k)) as [<-|]; [|done]. unfold named in En. apply fmap_None in En.
      by destruct (list_find_none _ _ En x ltac:(by apply list_elem_of_In)). }
  destruct (named k (single eff)); [done|]. destruct (decide (key d = k)); [done|].
  destruct (list_find _ ds) as [[? ?]|]; done.
Qed.

Lemma all_multi k ds eff : k ∈ MULTI_VALUED ->
  map snd (filter (fun x => fst x = k) (multi (fold_left add_directive ds eff))) =
  map snd (filter (fun x => fst x = k) (multi eff)) ++ map args (filter (fun d => key d = k) ds).
Proof.
  intros Hk. revert eff. induction ds as [|d ds IH]; intros eff; [by rewrite app_nil_r|]. cbn [fold_left]. rewrite IH.
  rewrite filter_cons. unfold add_directive. case_bool_decide as Hm; cbn [multi].
  - rewrite filter_app, map_app, <- app_assoc, filter_cons, filter_nil. cbn [fst]. by destruct (decide (key d = k)).
  - rewrite decide_False by congruence. destruct (existsb _ _); done.
Qed.

(** The value of a directive for an alias is the first one given in any
    block that applies, in file order; the multi-valued directives are all
    kept, in order. *)
Theorem first_value_wins p alias k :
  let ds := directives_for p alias in
  (as_bytes k ∉ MULTI_VALUED -> get (compute p alias) k = first_directive (as_bytes k) ds ≫= fun d => head (args d)) /\
  (as_bytes k ∈ MULTI_VALUED ->
   all (compute p alias) k = map args (filter (fun d => key d = as_bytes k) ds)).
Proof.
  intros ds. rewrite compute_fold. fold ds. split; intros Hk.
  - pose proof (named_single (as_bytes k) ds (mkEffective [] []) Hk) as H. unfold get, named in *. cbn [single list_find fmap option_fmap option_map] in H.
    destruct (list_find _ (single _)) as [[i x]|]; cbn in H |- *; destruct (first_directive (as_bytes k) ds) as [d|]; cbn in H |- *;
      congruence || (by injection H as ->).
  - unfold all. by rewrite all_multi.
Qed.

(** ** The hosts *)

Fixpoint distinct (lower : text -> text) (seen : list text) (l : list text) : list text :=
  match l with
  | [] => []
  | a :: l' =>
      if bool_decide (lower a ∈ seen) then distinct lower seen l' else a :: distinct lower (lower a :: seen) l'
  end.
(** The aliases of the [Host] lines that are not patterns. *)
Definition aliases (p : Parsed) : list text :=
  List.filter (fun a => negb (is_pattern a)) (flat_map (fun b => default [] (patterns b)) (blocks p)).

Section Hosts.
Context (lower : text -> text) (env : text -> option text).

Lemma on_alias_fold parsed l seen n p :
  let '(_, _, p') := fold_left (on_alias lower env parsed) l (seen, n, p) in
  let new := distinct lower seen (List.filter (fun a => negb (is_pattern a)) l) in
  hosts p' = hosts p ++ map (fun a => host_of env (compute parsed a) a) new /\
  pf_rules p' = pf_rules p ++ flat_map (fun a => rules_of (compute parsed a) a) new.
Proof.
  revert seen n p. induction l as [|a l IH]; intros seen n p; [cbn; by rewrite !app_nil_r|]. cbn [fold_left List.filter].
  unfold on_alias at 2. destruct (is_pattern a); cbn [negb]; [apply IH|]. cbn [distinct].
  case_bool_decide as Hs; [apply IH|]. set (n' := match get _ _ with Some _ => _ | None => _ end).
  specialize (IH (lower a :: seen) n' (push_host (host_of env (compute parsed a) a) (push_rules (rules_of (compute parsed a) a) p))).
  destruct (fold_left _ _ _) as [[? ?] p']. destruct IH as [-> ->]. cbn. by rewrite <- !app_assoc.
Qed.

Lemma on_blocks_fold parsed bs st :
  fold_left (on_block lower env parsed) bs st =
  fold_left (on_alias lower env parsed) (flat_map (fun b => default [] (patterns b)) bs) st.
Proof.
  revert st. induction bs as [|b bs IH]; intros st; [done|]. cbn [fold_left flat_map]. rewrite fold_left_app, IH.
  unfold on_block. by destruct (patterns b).
Qed.

Lemma distinct_spec seen l :
  NoDup (map lower (distinct lower seen l)) /\
  (forall k, k ∈ map lower (distinct lower seen l) -> k ∉ seen) /\
  (forall a, a ∈ l -> lower a ∈ seen \/ lower a ∈ map lower (distinct lower seen l)) /\
  distinct lower seen l `sublist_of` l.
Proof.
  revert seen. induction l as [|a l IH]; intros seen; cbn [distinct map].
  { split_and!; [constructor|by intros k ?%elem_of_nil|by intros b ?%elem_of_nil|done]. }
  case_bool_decide as Hs.
  - destruct (IH seen) as (H1 & H2 & H3 & H4). split_and!; [done..| |by constructor].
    intros b [->|Hb]%elem_of_cons; [by left|by apply H3].
  - destruct (IH (lower a :: seen)) as (H1 & H2 & H3 & H4). split_and!.
    + cbn. constructor; [|done]. intros Hk. apply (H2 _ Hk). by left.
    + intros k [->|Hk]%elem_of_cons; [done|]. intros Hin. apply (H2 _ Hk). by right.
    + intros b [->|Hb]%elem_of_cons; [right; by left|]. destruct (H3 b Hb) as [[->|H]%elem_of_cons|H]; [right; by left|by left|right; by right].
    + by constructor.
Qed.

(** An import makes one host of every alias on a [Host] line that is not a
    pattern, in file order, the first of those that differ only in case, with
    the forwards its directives ask for; nothing else is added. *)
Theorem one_host_per_alias parsed preview :
  let new := distinct lower [] (aliases parsed) in
  hosts (build lower env parsed preview) = hosts preview ++ map (fun a => host_of env (compute parsed a) a) new /\
  pf_rules (build lower env parsed preview) = pf_rules preview ++ flat_map (fun a => rules_of (compute parsed a) a) new /\
  NoDup (map lower new) /\ new `sublist_of` aliases parsed /\ (forall a, a ∈ aliases parsed -> lower a ∈ map lower new).
Proof.
  intros new. destruct (distinct_spec [] (aliases parsed)) as (H1 & _ & H3 & H4). fold new in H1, H3, H4.
  unfold build. rewrite on_blocks_fold.
  pose proof (on_alias_fold parsed (flat_map (fun b => default [] (patterns b)) (blocks parsed)) [] 0 preview) as H.
  destruct (fold_left _ _ _) as [[seen n] p']. destruct H as [Hh Hr]. fold (aliases parsed) in Hh, Hr. fold new in Hh, Hr.
  split_and!; try done.
  - destruct (0 <? n)%nat, (0 <? includes parsed)%nat; exact Hh.
  - destruct (0 <? n)%nat, (0 <? includes parsed)%nat; exact Hr.
  - intros a Ha. destruct (H3 a Ha) as [?%elem_of_nil|]; done.
Qed.
End Hosts.

(** ** Includes *)

Lemma last_split {A} (l : list A) x : last l = Some x -> l = removelast l ++ [x].
Proof.
  destruct l as [|y l] using rev_ind; [done|]. rewrite last_snoc. intros [= ->]. by rewrite removelast_last.
Qed.

Lemma directives_for_push d p b alias : last (blocks p) = Some b ->
  directives_for (push_directive d p) alias = directives_for p alias ++ (if applies b alias then [d] else []).
Proof.
  intros Hl. unfold directives_for, push_directive. rewrite Hl. cbn [blocks].
  rewrite (last_split _ _ Hl) at 2. rewrite !flat_map_app, <- app_assoc. f_equal. cbn [flat_map directives].
  rewrite !app_nil_r. unfold applies. cbn [patterns]. by destruct (match patterns b with Some _ => _ | None => _ end).
Qed.

(** A directive that follows an [Include] of a file with [Host] lines joins
    the last block of that file: although it stands outside every block of its
    own file, it applies only to that block's aliases. OpenSSH goes back to the
    including file's block. *)
Theorem include_captures_what_follows files n t pat inc line include_line d out b alias :
  lines t = [include_line; line] ->
  tokenize include_line = Some (mkDirective (as_bytes "include") [pat]) -> files pat = [Some inc] ->
  tokenize line = Some d -> is_text (key d) "host" = false -> is_text (key d) "match" = false ->
  is_text (key d) "include" = false ->
  last (blocks out) = Some (mkBlock (Some []) []) ->
  let included := read files n inc (mkParsed (blocks out) (matches out) (S (includes out)) (missing_includes out)) in
  last (blocks included) = Some b ->
  directives_for (read files (S n) t out) alias =
    directives_for included alias ++ (if applies b alias then [d] else []).
Proof.
  intros Hl Hi Hf Hd H1 H2 H3 Hg included Hb. cbn [read]. rewrite Hl. cbn [fold_left]. rewrite Hi. cbn [key].
  change (is_text (as_bytes "include") "host") with false. change (is_text (as_bytes "include") "match") with false.
  change (is_text (as_bytes "include") "include") with true. cbv iota. cbn [args fold_left]. rewrite Hf.
  rewrite decide_False by done. cbn [fold_left]. fold included. rewrite Hd, H1, H2, H3. by apply directives_for_push.
Qed.

(** ** Concrete inputs *)

Module Sample.
Definition nl : text := [10].
Definition files (pat : text) : list (option text) :=
  if decide (pat = as_bytes "extra") then [Some (as_bytes "Host b" ++ nl ++ as_bytes "  Port 2222" ++ nl)] else [].
Definition config : text := as_bytes "Include extra" ++ nl ++ as_bytes "User bob" ++ nl.
Definition user : Directive := mkDirective (as_bytes "user") [as_bytes "bob"].
Definition b : Block := mkBlock (Some [as_bytes "b"]) [mkDirective (as_bytes "port") [as_bytes "2222"]].
Definition preview : ImportPreview := preview_new 1 SshConfig (as_bytes "config").
Definition import (t : text) : ImportPreview := parse_into lowercase (fun _ => None) files t preview.
End Sample.

(** The user name given before [Host a] reaches [b], not [a]. *)
Lemma include_captures_what_follows_witness :
  let included := read Sample.files 7 (as_bytes "Host b" ++ Sample.nl ++ as_bytes "  Port 2222" ++ Sample.nl)
                    (mkParsed (blocks empty_config) 0 1 []) in
  directives_for (read Sample.files 8 Sample.config empty_config) (as_bytes "a") = directives_for included (as_bytes "a") ++ [] /\
  map (fun h => (label h, username h)) (hosts (Sample.import (Sample.config ++ as_bytes "Host a"))) =
    [(as_bytes "b", as_bytes "bob"); (as_bytes "a", [])].
Proof.
  split; [|by vm_compute].
  exact (include_captures_what_follows Sample.files 7 Sample.config (as_bytes "extra")
    (as_bytes "Host b" ++ Sample.nl ++ as_bytes "  Port 2222" ++ Sample.nl) (as_bytes "User bob") (as_bytes "Include extra")
    Sample.user empty_config Sample.b (as_bytes "a") ltac:(by vm_compute) ltac:(by vm_compute) ltac:(by vm_compute)
    ltac:(by vm_compute) eq_refl eq_refl eq_refl eq_refl ltac:(by vm_compute)).
Defined.

Lemma config_read :
  hosts (Sample.import (as_bytes "Host web *.lan !db" ++ Sample.nl ++ as_bytes "  HostName=%h.example # main" ++ Sample.nl ++
           as_bytes "  Port 2200" ++ Sample.nl ++ as_bytes "Host *" ++ Sample.nl ++ as_bytes "  Port 22" ++ Sample.nl ++
           as_bytes "  ProxyJump gw, me@hop:2222" ++ Sample.nl ++ as_bytes "  DynamicForward [::1]:1080")) =
    [mkImportedHost (as_bytes "web") (as_bytes "web.example") (as_bytes "ssh") (Some 2200) [] None false [] [] None
       [as_bytes "gw"] None false false [] None None [] []] /\
  pf_rules (Sample.import (as_bytes "Host web" ++ Sample.nl ++ as_bytes "DynamicForward [::1]:1080")) =
    [mkPfRule (as_bytes "web") PfDynamic (as_bytes "::1") 1080 [] 0].
Proof. by vm_compute. Qed.
