(* ===== verification/Backend.v ===== *)
(** * What the API server's handlers share

    [cache.rs] (the Redis operations), [ratelimit.rs], the tables and the
    effects of the handlers of [crates/termoso-server/src]. A handler is a
    function of the [World] that answers a value or an error and leaves a
    world: a statement that ran before an error stays done, as it does on the
    server (only a transaction is undone). Times are milliseconds on one clock
    for the server, PostgreSQL and Redis. Random tokens, ids and codes come
    from a stream of which the world holds the position. *)
From S2P Require Import Prelude Text VaultAccess.

#[local] Open Scope string_scope.
#[local] Open Scope list_scope.
#[local] Open Scope Z_scope.

(** Case analysis on the comparisons of a goal. *)
Ltac z_cases :=
  repeat match goal with
         | |- context [?a <? ?b] => destruct (Z.ltb_spec a b)
         | |- context [?a <=? ?b] => destruct (Z.leb_spec a b)
         end; simpl; try done; try lia.

(** ** Errors of the API ([error.rs]) *)

Inductive ApiError : Type :=
| BadRequest (msg : string) | Conflict (msg : string) | Unauthorized | Denied (msg : string) | Missing (what : string)
| InvalidCredentials | InvalidMfa | InvalidCode | TokenExpired | RateLimited (retry_after : Z)
| AccountDisabled | EmailUnverified | ReauthRequired | FeatureDisabled (what : string)
| SsoRequired (provider : option string) | ClientUpdateRequired (required : string)
| IpNotAllowed (team : uuid) | DeviceRejected (team : uuid) | DevicePending (team : uuid)
| EmailTaken | RegistrationClosed | PermissionDenied (perm : string) | DomainNotAllowed (domains : list string) | TurnstileRequired | TurnstileFailed | Internal (what : string).
#[export] Instance ApiError_eq_dec : EqDecision ApiError.
Proof. solve_decision. Defined.

(** [Error::Status(..)]. *)
Definition is_status (e : ApiError) : bool := match e with Internal _ => false | _ => true end.

(** ** The cache

    One Redis database: a key holds a JSON body or a counter, until it
    expires. [J] is the type of the bodies. *)

Inductive Value (J : Type) : Type := Json (j : J) | Count (n : Z).
Arguments Json {J} j.
Arguments Count {J} n.

(** A value and the time from which it is gone. *)
Abbreviation Cache J := (gmap string (Value J * Z)).

Section Cache.
Context {J : Type}.
Implicit Types (c : Cache J) (k : string) (now ttl : Z).

Definition live now c k : option (Value J) :=
  match c !! k with Some (v, e) => if now <? e then Some v else None | None => None end.

(** [ttl.as_secs().max(1)] in milliseconds. *)
Definition ttl_ms ttl : Z := 1000 * Z.max ttl 1.

Definition set_json now k (v : J) ttl c : Cache J := <[k := (Json v, now + ttl_ms ttl)]> c.

(** [from_slice]: the body must be of the type [get_json] is called at. *)
Definition get_json {A} (as_a : J -> option A) now k c : result ApiError (option A) :=
  match live now c k with
  | None => Ok None
  | Some (Json j) => match as_a j with Some a => Ok (Some a) | None => Err (Internal "json") end
  | Some (Count _) => Err (Internal "json")
  end.

(** [GETDEL] removes the key before the body is parsed. *)
Definition take_json {A} (as_a : J -> option A) now k c : result ApiError (option A) * Cache J :=
  (get_json as_a now k c, delete k c).

Definition del k c : Cache J := delete k c.

Definition counter now k c : result ApiError Z :=
  match live now c k with
  | None => Ok 0
  | Some (Count n) => Ok n
  | Some (Json _) => Err (Internal "redis")
  end.

(** The largest value [INCR] reaches. *)
Definition i64_max : Z := 2 ^ 63 - 1.

(** [INCR]; [EXPIRE .. NX] gives a time to live to a key that has none, so a
    window starts with its first count; [TTL] rounds to seconds. *)
Definition incr_window now k window c : result ApiError (Z * Z) * Cache J :=
  let e := match c !! k with
           | Some (_, e) => if now <? e then e else now + ttl_ms window
           | None => now + ttl_ms window
           end in
  match counter now k c with
  | Ok n =>
      if n <? i64_max then
        (Ok (n + 1, Z.max 0 ((e - now + 500) / 1000)), <[k := (Count (n + 1), e)]> c)
      else (Err (Internal "redis"), c)
  | Err x => (Err x, c)
  end.

(** [DECR] without a time to live, then [DEL] when it went below zero. *)
Definition decr now k c : result ApiError unit * Cache J :=
  match counter now k c with
  | Ok n => (Ok tt, if n - 1 <? 0 then delete k c
                    else match c !! k with Some (_, e) => <[k := (Count (n - 1), e)]> c | None => c end)
  | Err x => (Err x, c)
  end.

(** Two caches a reader cannot tell apart from [now] on. *)
Definition same_from now c c' : Prop := forall t k, now <= t -> live t c k = live t c' k.

#[export] Instance same_from_equivalence now : Equivalence (same_from now).
Proof.
  split; [done|..].
  - intros c c' H t k Ht. by rewrite H.
  - intros c c' c'' H H' t k Ht. by rewrite H, H'.
Qed.

(** What expired stays expired: Redis may drop it whenever it wants. *)
Definition purge now c : Cache J := filter (fun x => now < snd (snd x)) c.

Lemma purge_same now c : same_from now c (purge now c).
Proof.
  intros t k Ht. unfold live, purge.
  destruct (c !! k) as [[v e]|] eqn:E; [|by rewrite map_lookup_filter, E].
  destruct (Z.ltb_spec t e).
  - rewrite (map_lookup_filter_Some_2 _ _ _ (v, e)); [|done|simpl; lia].
    by destruct (Z.ltb_spec t e); [|lia].
  - destruct (filter _ c !! k) as [[v' e']|] eqn:E'; [|done].
    apply map_lookup_filter_Some in E' as [E' _]. rewrite E in E'. injection E' as <- <-.
    by destruct (Z.ltb_spec t e); [lia|].
Qed.

#[export] Instance get_json_proper {A} (as_a : J -> option A) now k : Proper (same_from now ==> eq) (get_json as_a now k).
Proof. intros c c' H. unfold get_json. by rewrite (H now k) by lia. Qed.

#[export] Instance set_json_proper now k v ttl : Proper (same_from now ==> same_from now) (set_json now k v ttl).
Proof.
  intros c c' H t k' Ht. unfold live, set_json.
  destruct (decide (k = k')) as [->|Hn]; [by rewrite !lookup_insert_eq|].
  rewrite !lookup_insert_ne by done. apply (H t k' Ht).
Qed.

#[export] Instance del_proper now k : Proper (same_from now ==> same_from now) (del k).
Proof.
  intros c c' H t k' Ht. unfold live, del.
  destruct (decide (k = k')) as [->|Hn]; [by rewrite !lookup_delete_eq|].
  rewrite !lookup_delete_ne by done. apply (H t k' Ht).
Qed.

Lemma live_set now c k v ttl t : 
  live t (set_json now k v ttl c) k = if t <? now + ttl_ms ttl then Some (Json v) else None.
Proof. unfold live, set_json. by rewrite lookup_insert_eq. Qed.

Lemma live_set_ne now c k k' v ttl t : k <> k' -> live t (set_json now k v ttl c) k' = live t c k'.
Proof. intros H. unfold live, set_json. by rewrite lookup_insert_ne. Qed.

Lemma live_del c k t : live t (del k c) k = None.
Proof. unfold live, del. by rewrite lookup_delete_eq. Qed.

Lemma live_del_ne c k k' t : k <> k' -> live t (del k c) k' = live t c k'.
Proof. intros H. unfold live, del. by rewrite lookup_delete_ne. Qed.

Lemma incr_window_other now k window c k' t : k <> k' -> live t (snd (incr_window now k window c)) k' = live t c k'.
Proof.
  intros H. unfold incr_window. destruct (counter now k c) as [n|e]; [|done].
  destruct (n <? i64_max); [|done]. simpl. unfold live. by rewrite lookup_insert_ne.
Qed.

(** ** Rate limits *)

Record Limit := mkLimit { l_name : string; l_max : Z; l_window : Z }.

Definition rl_key (limit : Limit) (subject : string) : string := "rl:" +:+ l_name limit +:+ ":" +:+ subject.

Definition rl_check (limit : Limit) (subject : string) now c : result ApiError unit * Cache J :=
  match incr_window now (rl_key limit subject) (l_window limit) c with
  | (Ok (count, ttl), c') => (if l_max limit <? count then Err (RateLimited (Z.max ttl 1)) else Ok tt, c')
  | (Err e, c') => (Err e, c')
  end.

(** The answers to checks at the given times. *)
Fixpoint rl_checks (limit : Limit) (subject : string) (times : list Z) c : list bool * Cache J :=
  match times with
  | [] => ([], c)
  | t :: ts =>
      let '(r, c1) := rl_check limit subject t c in
      let '(rs, c2) := rl_checks limit subject ts c1 in (is_ok r :: rs, c2)
  end.
End Cache.

Definition AUDIT_EXPORT := mkLimit "audit_export" 10 3600.
Definition AUTH_IP := mkLimit "auth_ip" 30 60.
Definition AUTH_ACCOUNT := mkLimit "auth_acct" 10 300.
Definition EMAIL := mkLimit "email" 5 3600.
Definition CODE_GUESS := mkLimit "code" 6 900.
Definition API_USER := mkLimit "api" 1200 60.
Definition SYNC_PUSH := mkLimit "push" 120 60.
Definition AI_USER := mkLimit "ai" 10 60.
Definition ANON_IP := mkLimit "anon_ip" 240 60.

(** ** What the rate limits promise *)

Definition passes (rs : list bool) : Z := Z.of_nat (length (filter (fun b => b = true) rs)).

Lemma passes_app rs rs' : passes (rs ++ rs') = passes rs + passes rs'.
Proof. unfold passes. rewrite filter_app, length_app. lia. Qed.

Lemma passes_cons b rs : passes (b :: rs) = (if b then 1 else 0) + passes rs.
Proof.
  unfold passes. destruct b.
  - rewrite filter_cons_True by done. cbn [length]. lia.
  - by rewrite filter_cons_False.
Qed.

Section Windows.
Context {J : Type} (limit : Limit) (subject : string).
Implicit Types (c : Cache J).

Let k := rl_key limit subject.
Let window := ttl_ms (l_window limit).

Lemma rl_checks_app ts ts' c :
  rl_checks limit subject (ts ++ ts') c =
  (fst (rl_checks limit subject ts c) ++ fst (rl_checks limit subject ts' (snd (rl_checks limit subject ts c))),
   snd (rl_checks limit subject ts' (snd (rl_checks limit subject ts c)))).
Proof.
  revert c. induction ts as [|t ts IH]; intros c; simpl; [by destruct (rl_checks limit subject ts' c)|].
  destruct (rl_check limit subject t c) as [r c1]. rewrite IH.
  by destruct (rl_checks limit subject ts c1).
Qed.

(** The key of a subject holds a counter, if anything. *)
Definition counts c : Prop := forall v e, c !! k = Some (v, e) -> exists n, v = Count n /\ 0 <= n.

(** One check: the entry it finds decides. *)
Lemma rl_check_live t c n e : c !! k = Some (Count n, e) -> t < e ->
  exists r c', rl_check limit subject t c = (r, c')
    /\ (n < i64_max -> is_ok r = (n + 1 <=? l_max limit) /\ c' !! k = Some (Count (n + 1), e))
    /\ (i64_max <= n -> is_ok r = false /\ c' = c).
Proof.
  intros E Ht. unfold rl_check, incr_window, counter, live. fold k. rewrite E.
  destruct (Z.ltb_spec t e); [|lia].
  destruct (Z.ltb_spec n i64_max) as [Hn|Hn].
  - eexists _, _. split; [reflexivity|]. split; [|lia]. intros _. split.
    + by z_cases.
    + by rewrite lookup_insert_eq.
  - eexists _, _. split; [reflexivity|]. split; [lia|done].
Qed.

Lemma rl_check_dead t c : live t c k = None ->
  exists r, rl_check limit subject t c = (r, <[k := (Count 1, t + window)]> c)
    /\ is_ok r = (1 <=? l_max limit).
Proof.
  intros E. unfold rl_check, incr_window, counter. fold k. rewrite E.
  assert (He : match c !! k with Some (_, e) => if t <? e then e else t + window | None => t + window end = t + window).
  { unfold live in E. destruct (c !! k) as [[v e]|]; [|done]. by destruct (t <? e). }
  fold window. rewrite He.
  eexists. split; [reflexivity|]. by z_cases.
Qed.

(** While an entry lives it lets through what is left of the limit. *)
Lemma passes_live ts c n e : c !! k = Some (Count n, e) -> 0 <= n -> Forall (fun t => t < e) ts ->
  passes (fst (rl_checks limit subject ts c)) <= Z.max 0 (l_max limit - n)
  /\ (exists n', snd (rl_checks limit subject ts c) !! k = Some (Count n', e) /\ 0 <= n').
Proof.
  revert c n. induction ts as [|t ts IH]; intros c n E Hn Hts; simpl.
  { split; [unfold passes; simpl; lia|eauto]. }
  apply Forall_cons in Hts as [Ht Hts].
  destruct (rl_check_live t c n e E Ht) as (r & c' & -> & Hlow & Hhigh).
  destruct (decide (n < i64_max)) as [H|H].
  - destruct (Hlow H) as [Hr E']. destruct (IH c' (n + 1) E' ltac:(lia) Hts) as [Hp Hs].
    destruct (rl_checks limit subject ts c') as [rs c2]. simpl in *. split; [|done].
    rewrite passes_cons, Hr. destruct (Z.leb_spec (n + 1) (l_max limit)); lia.
  - destruct (Hhigh ltac:(lia)) as [Hr ->]. destruct (IH c n E Hn Hts) as [Hp Hs].
    destruct (rl_checks limit subject ts c) as [rs c2]. simpl in *. split; [|done].
    rewrite passes_cons, Hr. lia.
Qed.

Lemma passes_fresh t ts c : live t c k = None -> 0 <= l_max limit -> Forall (fun t' => t' < t + window) ts ->
  passes (fst (rl_checks limit subject (t :: ts) c)) <= l_max limit.
Proof.
  intros E Hm Hts. simpl. destruct (rl_check_dead t c E) as (r & -> & Hr).
  destruct (passes_live ts (<[k := (Count 1, t + window)]> c) 1 (t + window)) as [Hp _];
    [by rewrite lookup_insert_eq|lia|done|].
  destruct (rl_checks _ _ ts _) as [rs c2]. simpl in *. rewrite passes_cons, Hr.
  destruct (Z.leb_spec 1 (l_max limit)); lia.
Qed.

(** The answers within one window are exactly the first [l_max] ones. *)
Lemma checks_live ts c n e : c !! k = Some (Count n, e) -> Forall (fun t => t < e) ts ->
  n + Z.of_nat (length ts) <= i64_max ->
  fst (rl_checks limit subject ts c) = map (fun i => n + i + 1 <=? l_max limit) (seqZ 0 (Z.of_nat (length ts))).
Proof.
  revert c n. induction ts as [|t ts IH]; intros c n E Hts Hl; [done|].
  apply Forall_cons in Hts as [Ht Hts]. cbn [length] in *.
  destruct (rl_check_live t c n e E Ht) as (r & c' & Hr & Hlow & _). simpl. rewrite Hr.
  destruct (Hlow ltac:(lia)) as [Hok E'].
  rewrite seqZ_cons by lia. simpl.
  specialize (IH c' (n + 1) E' Hts ltac:(lia)).
  destruct (rl_checks limit subject ts c') as [rs c2]. simpl in *. f_equal.
  - rewrite Hok. by replace (n + 0 + 1) with (n + 1) by lia.
  - rewrite IH. replace (Z.pred (Z.of_nat (S (length ts)))) with (Z.of_nat (length ts)) by lia.
    rewrite <- (fmap_add_seqZ 1 0). rewrite <- list_fmap_compose. unfold compose.
    apply list_fmap_ext. intros i x _. simpl. f_equal. lia.
Qed.

Lemma split_before e ts : Sorted Z.le ts ->
  exists ts1 ts2, ts = ts1 ++ ts2 /\ Forall (fun t => t < e) ts1 /\ Forall (fun t => e <= t) ts2 /\ Sorted Z.le ts2.
Proof.
  intros Hs. apply Sorted_StronglySorted in Hs; [|intros x y z; lia].
  induction Hs as [|t ts Hs (ts1 & ts2 & -> & H1 & H2 & H3) Ht]; [exists [], []; auto|].
  destruct (decide (t < e)).
  - exists (t :: ts1), ts2. auto.
  - exists [], (t :: ts1 ++ ts2). split; [done|]. split; [done|]. split.
    + constructor; [lia|]. eapply Forall_impl; [exact Ht|]. simpl. intros. lia.
    + by apply StronglySorted_Sorted; constructor.
Qed.

(** Two windows at most meet a stretch shorter than one. *)
Lemma limit_burst c t0 ts : 0 <= l_max limit -> counts c -> Sorted Z.le ts ->
  Forall (fun t => t0 <= t < t0 + window) ts -> passes (fst (rl_checks limit subject ts c)) <= 2 * l_max limit.
Proof.
  intros Hm Hc Hs Hts. destruct ts as [|t ts]; [unfold passes; simpl; lia|].
  destruct (live t c k) as [v|] eqn:E.
  + unfold live in E. destruct (c !! k) as [[v' e]|] eqn:Ek; [|done].
    destruct (Hc _ _ Ek) as (n & -> & Hn).
    destruct (split_before e (t :: ts) Hs) as (ts1 & ts2 & Heq & H1 & H2 & H3). rewrite Heq in *.
    rewrite rl_checks_app. cbn [fst]. rewrite passes_app.
    destruct (passes_live ts1 c n e Ek Hn H1) as [Hp (n' & Ek' & Hn')].
    destruct ts2 as [|t2 ts2]; [unfold passes at 2; simpl; lia|].
    apply Forall_app in Hts as [_ Hts2]. apply Forall_cons in Hts2 as [Ht2 Hts2].
    apply Forall_cons in H2 as [He _].
    assert (passes (fst (rl_checks limit subject (t2 :: ts2) (snd (rl_checks limit subject ts1 c)))) <= l_max limit);
      [|lia].
    apply passes_fresh; [|done|].
    * unfold live. rewrite Ek'. by destruct (Z.ltb_spec t2 e); [lia|].
    * eapply Forall_impl; [exact Hts2|]. simpl. intros. lia.
  + assert (passes (fst (rl_checks limit subject (t :: ts) c)) <= l_max limit); [|lia].
    apply Forall_cons in Hts as [Ht Hts]. apply passes_fresh; [done..|].
    eapply Forall_impl; [exact Hts|]. simpl. intros. lia.
Qed.

(** a fixed-window limit bounds what gets through: in any stretch of time
    shorter than the window, whatever was counted before, at most twice the
    limit passes, and for a subject without a running window exactly the first
    [max] checks of the window pass and every further one is refused. *)
Theorem limit_bounds_the_burst c t0 ts : 0 <= l_max limit -> counts c -> Sorted Z.le ts ->
  Forall (fun t => t0 <= t < t0 + window) ts ->
  passes (fst (rl_checks limit subject ts c)) <= 2 * l_max limit
  /\ (live t0 c k = None -> forall ts', Forall (fun t => t0 <= t < t0 + window) ts' ->
      Z.of_nat (length ts') < i64_max ->
      fst (rl_checks limit subject (t0 :: ts') c) =
      map (fun i => i <? l_max limit) (seqZ 0 (1 + Z.of_nat (length ts')))).
Proof.
  intros Hm Hc Hs Hts. split; [by apply (limit_burst c t0)|].
  intros E ts' Hts' Hl. destruct (rl_check_dead t0 c E) as (r & Hr & Hok).
    cbn [rl_checks]. rewrite Hr.
    pose proof (checks_live ts' (<[k := (Count 1, t0 + window)]> c) 1 (t0 + window)) as H.
    rewrite lookup_insert_eq in H. specialize (H eq_refl).
    rewrite seqZ_cons by lia. cbn [map fmap list_fmap].
    destruct (rl_checks limit subject ts' _) as [rs c2]. simpl in *. f_equal.
    + rewrite Hok. by z_cases.
    + rewrite H; [|eapply Forall_impl; [exact Hts'|]; simpl; intros; lia|lia].
      replace (Z.pred (1 + Z.of_nat (length ts'))) with (Z.of_nat (length ts')) by lia.
      rewrite <- (fmap_add_seqZ 1 0). rewrite <- list_fmap_compose. unfold compose.
      apply list_fmap_ext. intros i x _. simpl.
      by z_cases.
Qed.
End Windows.

Lemma limit_bounds_the_burst_witness :
  passes (fst (rl_checks (J := unit) CODE_GUESS "a" [0; 1; 2; 3; 4; 5; 6; 899999]
                 {[rl_key CODE_GUESS "a" := (Count 5, 2)]})) = 7
  /\ passes (fst (rl_checks (J := unit) CODE_GUESS "a" [0; 1; 2; 3; 4; 5; 6; 899999]
                 {[rl_key CODE_GUESS "a" := (Count 5, 2)]})) <= 12.
Proof.
  split; [vm_compute; reflexivity|].
  apply (limit_bounds_the_burst CODE_GUESS "a" {[rl_key CODE_GUESS "a" := (Count 5, 2)]} 0
           [0; 1; 2; 3; 4; 5; 6; 899999]); [simpl; lia| | |].
  - intros v e. rewrite lookup_singleton_Some. intros [_ [= <- <-]]. exists 5. split; [done|lia].
  - repeat constructor; lia.
  - repeat constructor; vm_compute; congruence.
Defined.
