(* ===== verification/Server.v ===== *)
(** * State and effects of the API server's handlers

    The tables of [migrations/], the bodies kept in Redis and the monad in
    which [session.rs], [codes.rs], [trust.rs] and [routes/auth.rs] are
    written here. Cryptography, randomness, mail and the identity providers
    are the class [External]. *)
From Stdlib Require Import Ascii.
From stdpp Require Import pretty.
From S2P Require Import Prelude Text VaultAccess Backend.

#[local] Open Scope string_scope.
#[local] Open Scope list_scope.
#[local] Open Scope Z_scope.

(** ** What the handlers take from outside [src/crates/termoso-server] *)

Class External := {
  (** [blake3::hash(..).to_hex()] and [str::to_lowercase]. *)
  hash_token : string -> string;
  to_lowercase : string -> string;
  (** The stream of [random_token], [Uuid::new_v4] and [numeric_code(6)]. *)
  token_at : N -> string;
  uuid_at : N -> uuid;
  code_at : N -> string;
  (** The ten draws of a backup code, each below 31; a one-time password secret. *)
  backup_draws : N -> list nat;
  secret_at : N -> bytes;
  (** [termoso_crypto::opaque::Server] and [unb64_array::<32>]. *)
  opaque_registration_start : string -> string -> result ApiError string;
  opaque_registration_finish : string -> result ApiError bytes;
  opaque_login_start : string -> option bytes -> string -> N -> result ApiError (string * string);
  opaque_login_finish : string -> string -> string -> bool;
  is_key32 : string -> bool;
  is_b64 : string -> bool;
  b64_length : string -> option Z;
  (** [decrypt_secret("totp", ..)] and [Totp::check_current] at a time. *)
  decrypt_totp : bytes -> result ApiError bytes;
  totp_check : bytes -> Z -> string -> option Z;
  (** [encrypt_secret("totp", ..)] and the two steps to the address of a secret. *)
  encrypt_totp : bytes -> result ApiError bytes;
  totp_for : string -> bytes -> result ApiError unit;
  totp_url : string -> bytes -> result ApiError string;
  (** [webauthn_rs]: the state of a challenge for some passkeys; is this JSON an
      assertion; the id of the passkey it proves; a passkey after its use. *)
  passkey_id : string -> string;
  webauthn_start : list string -> N -> result ApiError (string * string);
  is_credential : string -> bool;
  webauthn_finish : string -> string -> option (string * string);
  update_credential : string -> string -> string;
  (** A challenge for a new passkey, and the passkey an answer registers. *)
  registration_start : string -> list string -> N -> result ApiError (string * string);
  registration_finish : string -> string -> result ApiError string;
  (** Does the mail server take a message to this address? *)
  mail_taken : string -> N -> bool;
  (** [siteverify] of Turnstile. *)
  turnstile_verdict : string -> option string -> result ApiError unit;
  (** The roles IdP groups give ([authz::apply_group_mappings], [jit_join]). *)
  idp_roles : uuid -> list string -> option uuid -> list (uuid * uuid * string) ->
              result ApiError (list (uuid * uuid * string))
}.

(** ** Bodies kept in the cache *)

Inductive Platform : Type := Windows | Linux | Macos | Android | Ios | Web | Cli.
#[export] Instance Platform_eq_dec : EqDecision Platform.
Proof. solve_decision. Defined.

Definition platform_str (p : Platform) : string :=
  match p with
  | Windows => "windows" | Linux => "linux" | Macos => "macos" | Android => "android"
  | Ios => "ios" | Web => "web" | Cli => "cli"
  end.

Definition parse_platform (s : string) : Platform :=
  if decide (s = "windows") then Windows else if decide (s = "linux") then Linux
  else if decide (s = "macos") then Macos else if decide (s = "android") then Android
  else if decide (s = "ios") then Ios else if decide (s = "cli") then Cli else Web.

Record DeviceInfo := mkDeviceInfo {
  di_name : string; di_platform : Platform; di_app_version : string; di_client : option uuid
}.

Record SessionInfo := mkInfo {
  session_id : uuid; si_user : uuid; si_device : uuid; expires_at : Z; is_admin : bool; disabled : bool;
  email_verified : bool; last_used_at : Z; created_at : option Z; reauth_at : option Z; bridge_id : option uuid
}.

Record SsoSession := mkSso {
  sso_provider : string; sso_subject : string; sso_email : string; sso_groups : list string; sso_team : option uuid
}.

Record LoginFlow := mkLoginFlow {
  lf_email : string; lf_user : option uuid; lf_state : string; lf_device : DeviceInfo; lf_sso_verified : bool;
  lf_sso : option SsoSession
}.

Record MfaFlow := mkMfaFlow {
  mf_user : uuid; mf_device : option DeviceInfo; mf_sso_verified : bool; mf_reauth : option uuid
}.

Record ApprovalFlow := mkApproval { af_user : uuid; af_device : uuid }.

Inductive ReauthMethod : Type := ByPassword | ByEmail | NoProof.
#[export] Instance ReauthMethod_eq_dec : EqDecision ReauthMethod.
Proof. solve_decision. Defined.

Record ReauthFlow := mkReauth {
  rf_session : uuid; rf_user : uuid; rf_method : ReauthMethod; rf_state : option string
}.

(** The payload of a code: a user id, an approval or an address. *)
Inductive CodePayload : Type := CUser (u : uuid) | CApproval (f : ApprovalFlow) | CEmail (e : string).
Record Stored := mkStored { code_hash : string; payload : CodePayload }.

Inductive Body : Type :=
| BSession (s : SessionInfo) | BSso (s : SsoSession) | BLogin (f : LoginFlow) | BMfa (f : MfaFlow)
| BWebauthn (state : string) | BCode (s : Stored) | BRecovery (user : uuid) | BReauth (f : ReauthFlow)
| BTotpSetup (encrypted : bytes) | BRegistration (state : string).

Definition as_session b := match b with BSession s => Some s | _ => None end.
Definition as_sso b := match b with BSso s => Some s | _ => None end.
Definition as_login b := match b with BLogin f => Some f | _ => None end.
Definition as_mfa b := match b with BMfa f => Some f | _ => None end.
Definition as_webauthn b := match b with BWebauthn s => Some s | _ => None end.
Definition as_code b := match b with BCode s => Some s | _ => None end.
Definition as_recovery b := match b with BRecovery u => Some u | _ => None end.
Definition as_totp_setup b := match b with BTotpSetup e => Some e | _ => None end.
Definition as_registration b := match b with BRegistration s => Some s | _ => None end.
Definition as_reauth b := match b with BReauth f => Some f | _ => None end.

(** ** Tables *)

(** [pr_provisioned] says whether [provisioned_at] is set: the account was
    created through SCIM. *)
Record Profile := mkProfile {
  pr_public_key : string; pr_display : option string; pr_managed_by : option uuid; pr_provisioned : bool
}.
Definition no_profile : Profile := mkProfile "" None None false.

Record UserRow := mkUser {
  u_id : uuid; u_email : string; u_verified : bool; u_record : option bytes;
  u_recovery_hash : string; u_recovery_wrapped : string; u_wrapped : string;
  u_totp : option bytes; u_totp_enabled : bool; u_admin : bool; u_disabled : bool; u_last_seen : option Z;
  u_profile : Profile
}.

Record DeviceRow := mkDevice {
  d_user : uuid; d_name : string; d_platform : string; d_version : string; d_last_seen : Z;
  d_last_ip : option string; d_approved : option Z
}.

Record SessionRow := mkSession {
  s_user : uuid; s_device : uuid; s_hash : string; s_created : Z; s_expires : Z; s_last_used : Z;
  s_revoked : option Z; s_reauth : option Z; s_bridge : option uuid
}.

Record Passkey := mkPasskey { pk_user : uuid; pk_name : string; pk_credential : string; pk_used : option Z }.
Record BackupCode := mkBackup { bc_user : uuid; bc_hash : string; bc_used : option Z }.

Inductive Event : Type := SessionRevoked (user session : uuid) | AccountUpdated (user : uuid) | TeamsUpdated (user : uuid).

(** [t_default_role] is the slug of the default role, [t_idp] whether
    [team_idp] holds an enabled provider. *)
Record TeamRow := mkTeam { t_name : string; t_created : Z; t_default_role : option string; t_idp : bool }.

Record Settings := mkSettings {
  session_ttl_days : Z; new_device_email_approval : bool; sso_only : bool; home_team_id : option uuid;
  registration_open : bool; allowed_domains : list string; sso_registration : bool
}.

Record Config := mkConfig {
  mailer : bool; webauthn_on : bool; bridges : bool; turnstile : bool; trust_proxy : bool;
  min_client_version : option string; admin_emails : list string; server_version : string;
  has_provider : string -> bool; discover_provider : string -> option string
}.

(** A row of [team_policies]: that of {!VaultAccess.PolicyRow} without the
    member's role, and the sign-in gates. *)
Record TeamPolicy := mkTeamPolicy {
  tp_row : PolicyRow; tp_allowlist : list string; tp_admin_approval : bool; tp_updated : Z
}.

(** A row of [team_invites] not yet accepted or gone: an accepted one keeps
    [i_accepted]. *)
Record InviteRow := mkInvite {
  i_id : uuid; i_team : uuid; i_email : string; i_role : string; i_vaults : list uuid; i_hash : string; i_expires : Z;
  i_accepted : option uuid
}.

(** [vaults] and [vault_members]: the sealed key of a user's personal vault,
    the team of a live team vault, and who is a member with which role. *)
Record VaultTables := mkVaults {
  personal : gmap uuid (uuid * string); team_vaults : gmap uuid uuid; vault_members : list (uuid * uuid * string)
}.

Record World := mkWorld {
  now : Z; cache : Cache Body; drawn : N; cfg : Config; settings : Settings;
  users : gmap uuid UserRow; devices : gmap uuid DeviceRow; sessions : gmap uuid SessionRow;
  passkeys : gmap uuid Passkey; backup_codes : list BackupCode; ssh_id_keys : list uuid;
  teams : gmap uuid TeamRow; team_members : list (uuid * uuid * string); policies : gmap uuid TeamPolicy;
  approvals : gmap (uuid * uuid) string; sso_identities : gmap (string * string) uuid;
  security : list (uuid * string * option uuid); mails : list (string * string * string);
  published : list Event; invites : list InviteRow; vaults : VaultTables
}.

Definition set_now (v : Z) (w : World) : World :=
  mkWorld v (cache w) (drawn w) (cfg w) (settings w) (users w) (devices w) (sessions w) (passkeys w)
    (backup_codes w) (ssh_id_keys w) (teams w) (team_members w) (policies w) (approvals w)
    (sso_identities w) (security w) (mails w) (published w) (invites w) (vaults w).
Definition set_cache (v : Cache Body) (w : World) : World :=
  mkWorld (now w) v (drawn w) (cfg w) (settings w) (users w) (devices w) (sessions w) (passkeys w)
    (backup_codes w) (ssh_id_keys w) (teams w) (team_members w) (policies w) (approvals w)
    (sso_identities w) (security w) (mails w) (published w) (invites w) (vaults w).
Definition set_drawn (v : N) (w : World) : World :=
  mkWorld (now w) (cache w) v (cfg w) (settings w) (users w) (devices w) (sessions w) (passkeys w)
    (backup_codes w) (ssh_id_keys w) (teams w) (team_members w) (policies w) (approvals w)
    (sso_identities w) (security w) (mails w) (published w) (invites w) (vaults w).
Definition set_cfg (v : Config) (w : World) : World :=
  mkWorld (now w) (cache w) (drawn w) v (settings w) (users w) (devices w) (sessions w) (passkeys w)
    (backup_codes w) (ssh_id_keys w) (teams w) (team_members w) (policies w) (approvals w)
    (sso_identities w) (security w) (mails w) (published w) (invites w) (vaults w).
Definition set_settings (v : Settings) (w : World) : World :=
  mkWorld (now w) (cache w) (drawn w) (cfg w) v (users w) (devices w) (sessions w) (passkeys w)
    (backup_codes w) (ssh_id_keys w) (teams w) (team_members w) (policies w) (approvals w)
    (sso_identities w) (security w) (mails w) (published w) (invites w) (vaults w).
Definition set_users (v : gmap uuid UserRow) (w : World) : World :=
  mkWorld (now w) (cache w) (drawn w) (cfg w) (settings w) v (devices w) (sessions w) (passkeys w)
    (backup_codes w) (ssh_id_keys w) (teams w) (team_members w) (policies w) (approvals w)
    (sso_identities w) (security w) (mails w) (published w) (invites w) (vaults w).
Definition set_devices (v : gmap uuid DeviceRow) (w : World) : World :=
  mkWorld (now w) (cache w) (drawn w) (cfg w) (settings w) (users w) v (sessions w) (passkeys w)
    (backup_codes w) (ssh_id_keys w) (teams w) (team_members w) (policies w) (approvals w)
    (sso_identities w) (security w) (mails w) (published w) (invites w) (vaults w).
Definition set_sessions (v : gmap uuid SessionRow) (w : World) : World :=
  mkWorld (now w) (cache w) (drawn w) (cfg w) (settings w) (users w) (devices w) v (passkeys w)
    (backup_codes w) (ssh_id_keys w) (teams w) (team_members w) (policies w) (approvals w)
    (sso_identities w) (security w) (mails w) (published w) (invites w) (vaults w).
Definition set_passkeys (v : gmap uuid Passkey) (w : World) : World :=
  mkWorld (now w) (cache w) (drawn w) (cfg w) (settings w) (users w) (devices w) (sessions w) v
    (backup_codes w) (ssh_id_keys w) (teams w) (team_members w) (policies w) (approvals w)
    (sso_identities w) (security w) (mails w) (published w) (invites w) (vaults w).
Definition set_backup_codes (v : list BackupCode) (w : World) : World :=
  mkWorld (now w) (cache w) (drawn w) (cfg w) (settings w) (users w) (devices w) (sessions w)
    (passkeys w) v (ssh_id_keys w) (teams w) (team_members w) (policies w) (approvals w)
    (sso_identities w) (security w) (mails w) (published w) (invites w) (vaults w).
Definition set_ssh_id_keys (v : list uuid) (w : World) : World :=
  mkWorld (now w) (cache w) (drawn w) (cfg w) (settings w) (users w) (devices w) (sessions w)
    (passkeys w) (backup_codes w) v (teams w) (team_members w) (policies w) (approvals w)
    (sso_identities w) (security w) (mails w) (published w) (invites w) (vaults w).
Definition set_teams (v : gmap uuid TeamRow) (w : World) : World :=
  mkWorld (now w) (cache w) (drawn w) (cfg w) (settings w) (users w) (devices w) (sessions w)
    (passkeys w) (backup_codes w) (ssh_id_keys w) v (team_members w) (policies w) (approvals w)
    (sso_identities w) (security w) (mails w) (published w) (invites w) (vaults w).
Definition set_team_members (v : list (uuid * uuid * string)) (w : World) : World :=
  mkWorld (now w) (cache w) (drawn w) (cfg w) (settings w) (users w) (devices w) (sessions w)
    (passkeys w) (backup_codes w) (ssh_id_keys w) (teams w) v (policies w) (approvals w)
    (sso_identities w) (security w) (mails w) (published w) (invites w) (vaults w).
Definition set_policies (v : gmap uuid TeamPolicy) (w : World) : World :=
  mkWorld (now w) (cache w) (drawn w) (cfg w) (settings w) (users w) (devices w) (sessions w)
    (passkeys w) (backup_codes w) (ssh_id_keys w) (teams w) (team_members w) v (approvals w)
    (sso_identities w) (security w) (mails w) (published w) (invites w) (vaults w).
Definition set_approvals (v : gmap (uuid * uuid) string) (w : World) : World :=
  mkWorld (now w) (cache w) (drawn w) (cfg w) (settings w) (users w) (devices w) (sessions w)
    (passkeys w) (backup_codes w) (ssh_id_keys w) (teams w) (team_members w) (policies w) v
    (sso_identities w) (security w) (mails w) (published w) (invites w) (vaults w).
Definition set_sso_identities (v : gmap (string * string) uuid) (w : World) : World :=
  mkWorld (now w) (cache w) (drawn w) (cfg w) (settings w) (users w) (devices w) (sessions w)
    (passkeys w) (backup_codes w) (ssh_id_keys w) (teams w) (team_members w) (policies w) (approvals w)
    v (security w) (mails w) (published w) (invites w) (vaults w).
Definition set_security (v : list (uuid * string * option uuid)) (w : World) : World :=
  mkWorld (now w) (cache w) (drawn w) (cfg w) (settings w) (users w) (devices w) (sessions w)
    (passkeys w) (backup_codes w) (ssh_id_keys w) (teams w) (team_members w) (policies w) (approvals w)
    (sso_identities w) v (mails w) (published w) (invites w) (vaults w).
Definition set_mails (v : list (string * string * string)) (w : World) : World :=
  mkWorld (now w) (cache w) (drawn w) (cfg w) (settings w) (users w) (devices w) (sessions w)
    (passkeys w) (backup_codes w) (ssh_id_keys w) (teams w) (team_members w) (policies w) (approvals w)
    (sso_identities w) (security w) v (published w) (invites w) (vaults w).
Definition set_published (v : list Event) (w : World) : World :=
  mkWorld (now w) (cache w) (drawn w) (cfg w) (settings w) (users w) (devices w) (sessions w)
    (passkeys w) (backup_codes w) (ssh_id_keys w) (teams w) (team_members w) (policies w) (approvals w)
    (sso_identities w) (security w) (mails w) v (invites w) (vaults w).
Definition set_invites (v : list InviteRow) (w : World) : World :=
  mkWorld (now w) (cache w) (drawn w) (cfg w) (settings w) (users w) (devices w) (sessions w)
    (passkeys w) (backup_codes w) (ssh_id_keys w) (teams w) (team_members w) (policies w) (approvals w)
    (sso_identities w) (security w) (mails w) (published w) v (vaults w).
Definition set_vaults (v : VaultTables) (w : World) : World :=
  mkWorld (now w) (cache w) (drawn w) (cfg w) (settings w) (users w) (devices w) (sessions w)
    (passkeys w) (backup_codes w) (ssh_id_keys w) (teams w) (team_members w) (policies w) (approvals w)
    (sso_identities w) (security w) (mails w) (published w) (invites w) v.

(** ** The monad of the handlers *)

Definition M (A : Type) : Type := World -> result ApiError A * World.

#[export] Instance M_ret : MRet M := fun A a w => (Ok a, w).
#[export] Instance M_bind : MBind M := fun A B k m w =>
  match m w with
  | (Ok a, w') => k a w'
  | (Err e, w') => (Err e, w')
  end.

Definition fail {A} (e : ApiError) : M A := fun w => (Err e, w).
Definition asks {A} (f : World -> A) : M A := fun w => (Ok (f w), w).
Definition modify (f : World -> World) : M unit := fun w => (Ok tt, f w).
Definition lift {A} (r : result ApiError A) : M A := fun w => (r, w).
Definition guard_or (b : bool) (e : ApiError) : M unit := if b then mret tt else fail e.
Definition of_option {A} (o : option A) (e : ApiError) : M A := lift (ok_or o e).
(** A call whose error the handler looks at. *)
Definition try_ {A} (m : M A) : M (result ApiError A) := fun w => let '(r, w') := m w in (Ok r, w').

(** A transaction: an error undoes what it wrote. *)
Definition transaction {A} (m : M A) : M A := fun w =>
  match m w with
  | (Ok a, w') => (Ok a, w')
  | (Err e, w') => (Err e, set_drawn (drawn w') w)
  end.

(** A cache operation. *)
Definition on_cache {A} (f : Z -> Cache Body -> result ApiError A * Cache Body) : M A := fun w =>
  let '(r, c) := f (now w) (cache w) in (r, set_cache c w).
Definition get_key {A} (as_a : Body -> option A) (k : string) : M (option A) := fun w =>
  (get_json as_a (now w) k (cache w), w).
Definition set_key (k : string) (b : Body) (ttl : Z) : M unit :=
  modify (fun w => set_cache (set_json (now w) k b ttl (cache w)) w).
Definition del_key (k : string) : M unit := modify (fun w => set_cache (del k (cache w)) w).
Definition limit (l : Limit) (subject : string) : M unit := on_cache (rl_check l subject).
Definition limit_ip (l : Limit) (ip : option string) : M unit := limit l (default "unknown" ip).

Section Draw.
Context {X : External}.
Definition draw {A} (at_ : N -> A) : M A := fun w => (Ok (at_ (drawn w)), set_drawn (drawn w + 1)%N w).
Definition random_token : M string := draw token_at.
Definition new_uuid : M uuid := draw uuid_at.
Definition numeric_code : M string := draw code_at.
End Draw.

Definition for_each {A} (l : list A) (f : A -> M unit) : M unit :=
  foldr (fun a m => f a ≫= fun _ => m) (mret tt) l.

(** ** Reasoning about handlers *)

Lemma bind_run {A B} (m : M A) (k : A -> M B) w :
  (m ≫= k) w = match m w with (Ok a, w') => k a w' | (Err e, w') => (Err e, w') end.
Proof. reflexivity. Qed.

Lemma bind_inv {A B} (m : M A) (k : A -> M B) w r w' : (m ≫= k) w = (r, w') ->
  (exists a w1, m w = (Ok a, w1) /\ k a w1 = (r, w')) \/ (exists e, m w = (Err e, w') /\ r = Err e).
Proof.
  rewrite bind_run. destruct (m w) as [[a|e] w1]; intros H; [left; eauto|right].
  injection H as <- <-. eauto.
Qed.

Lemma bind_ok_inv {A B} (m : M A) (k : A -> M B) w b w' : (m ≫= k) w = (Ok b, w') ->
  exists a w1, m w = (Ok a, w1) /\ k a w1 = (Ok b, w').
Proof. intros [H|(e & _ & H)]%bind_inv; [done|discriminate]. Qed.

Lemma bind_ret {A B} (a : A) (k : A -> M B) w : (mret a ≫= k) w = k a w.
Proof. reflexivity. Qed.
Lemma bind_fail {A B} e (k : A -> M B) w : (fail e ≫= k) w = (Err e, w).
Proof. reflexivity. Qed.
Lemma bind_asks {A B} (f : World -> A) (k : A -> M B) w : (asks f ≫= k) w = k (f w) w.
Proof. reflexivity. Qed.
Lemma bind_modify {B} f (k : unit -> M B) w : (modify f ≫= k) w = k tt (f w).
Proof. reflexivity. Qed.
Lemma bind_set_key {B} key b ttl (k : unit -> M B) w :
  (set_key key b ttl ≫= k) w = k tt (set_cache (set_json (now w) key b ttl (cache w)) w).
Proof. reflexivity. Qed.
Lemma bind_del_key {B} key (k : unit -> M B) w : (del_key key ≫= k) w = k tt (set_cache (del key (cache w)) w).
Proof. reflexivity. Qed.
Lemma bind_draw {A B} (f : N -> A) (k : A -> M B) w :
  (draw f ≫= k) w = k (f (drawn w)) (set_drawn (drawn w + 1)%N w).
Proof. reflexivity. Qed.
Lemma bind_get_key {A B} (as_a : Body -> option A) key (k : option A -> M B) w :
  (get_key as_a key ≫= k) w =
  match get_json as_a (now w) key (cache w) with Ok o => k o w | Err e => (Err e, w) end.
Proof. rewrite bind_run. unfold get_key. by destruct (get_json as_a (now w) key (cache w)). Qed.
Lemma bind_assoc {A B C} (m : M A) (k : A -> M B) (k' : B -> M C) w :
  ((m ≫= k) ≫= k') w = (m ≫= fun a => k a ≫= k') w.
Proof. rewrite !bind_run. destruct (m w) as [[a|e] w1]; [|done]. by rewrite bind_run. Qed.
Lemma for_each_cons {A} (a : A) l f w : for_each (a :: l) f w = (f a ≫= fun _ => for_each l f) w.
Proof. reflexivity. Qed.
Create Rewrite HintDb run.
Hint Rewrite @bind_ret @bind_fail @bind_asks @bind_modify @bind_set_key @bind_del_key @bind_draw @bind_get_key
  @bind_assoc : run.
(** Run the effects at the head of a handler. *)
Ltac run_m := autorewrite with run; cbn [fst snd].

(** [m] relates the world before and after it by [R], whatever it answers. *)
Definition keeps {A} (R : relation World) (m : M A) : Prop := forall w, R w (snd (m w)).

Section Keeps.
Context {R : relation World} `{!PreOrder R}.

Lemma keeps_ret {A} (a : A) : keeps R (mret a).
Proof. intros w. simpl. reflexivity. Qed.
Lemma keeps_fail {A} e : keeps R (fail (A := A) e).
Proof. intros w. simpl. reflexivity. Qed.
Lemma keeps_asks {A} (f : World -> A) : keeps R (asks f).
Proof. intros w. simpl. reflexivity. Qed.
Lemma keeps_lift {A} (r : result ApiError A) : keeps R (lift r).
Proof. intros w. simpl. reflexivity. Qed.
Lemma keeps_guard b e : keeps R (guard_or b e).
Proof. intros w. unfold guard_or. destruct b; simpl; reflexivity. Qed.
Lemma keeps_of_option {A} (o : option A) e : keeps R (of_option o e).
Proof. apply keeps_lift. Qed.
Lemma keeps_bind {A B} (m : M A) (k : A -> M B) : keeps R m -> (forall a, keeps R (k a)) -> keeps R (m ≫= k).
Proof.
  intros Hm Hk w. rewrite bind_run. specialize (Hm w).
  destruct (m w) as [[a|e] w1]; simpl in *; [|done]. etrans; [exact Hm|apply Hk].
Qed.
Lemma keeps_try {A} (m : M A) : keeps R m -> keeps R (try_ m).
Proof. intros Hm w. specialize (Hm w). unfold try_. by destruct (m w). Qed.
Lemma keeps_modify f : (forall w, R w (f w)) -> keeps R (modify f).
Proof. intros H w. apply H. Qed.
Lemma keeps_for_each {A} (l : list A) f : (forall a, keeps R (f a)) -> keeps R (for_each l f).
Proof.
  intros H. induction l; simpl; [apply keeps_ret|]. apply keeps_bind; [apply H|done].
Qed.
Lemma keeps_get_key {A} (as_a : Body -> option A) k : keeps R (get_key as_a k).
Proof. intros w. simpl. reflexivity. Qed.
Lemma keeps_if {A} (b : bool) (m m' : M A) : keeps R m -> keeps R m' -> keeps R (if b then m else m').
Proof. by destruct b. Qed.
End Keeps.

Create HintDb keeps.
#[export] Hint Resolve keeps_ret keeps_fail keeps_asks keeps_lift keeps_guard keeps_of_option keeps_bind
  keeps_try keeps_for_each keeps_get_key : keeps.

Ltac keeps_step :=
  match goal with
  | |- keeps _ (mbind _ _) => apply keeps_bind; [|intros ?]
  | |- keeps _ (match ?x with _ => _ end) => destruct x
  | |- keeps _ (let '_ := ?x in _) => destruct x
  | |- _ => solve [eauto with keeps typeclass_instances]
  end.

(** ** A concrete outside

    The simplest functions of the right shape, for the witnesses: tokens are
    numbered, a hash is the token itself, a password is accepted when it is
    the record, a one-time code when it is the digits of its time step. *)

Definition demo_external : External := {|
  hash_token := fun s => s;
  to_lowercase := fun s => of_bytes (lowercase (as_bytes s));
  token_at := fun n => "t" +:+ pretty n;
  uuid_at := fun n => (1000 + n)%N;
  code_at := fun n => pretty (100000 + n)%N;
  backup_draws := fun n => map (fun i => N.to_nat (N.modulo (N.div n (31 ^ i)) 31)) [0; 1; 2; 3; 4; 5; 6; 7; 8; 9]%N;
  secret_at := fun n => [Z.of_N n];
  opaque_registration_start := fun _ r => Ok r;
  opaque_registration_finish := fun u => Ok (as_bytes u);
  opaque_login_start := fun _ record _ _ => Ok ("response", match record with Some b => of_bytes b | None => "!" end);
  opaque_login_finish := fun _ st fin => bool_decide (st = fin);
  is_key32 := fun _ => true;
  is_b64 := fun _ => true;
  b64_length := fun s => Some (Z.of_nat (String.length s));
  decrypt_totp := fun b => Ok b;
  totp_check := fun _ t code => if bool_decide (code = pretty (t / 30000)) then Some (t / 30000) else None;
  encrypt_totp := fun b => Ok b;
  totp_for := fun _ _ => Ok tt;
  totp_url := fun email _ => Ok email;
  passkey_id := fun c => c;
  webauthn_start := fun ids _ => Ok ("challenge", String.concat "" ids);
  is_credential := fun _ => true;
  webauthn_finish := fun c st => if bool_decide (c = st) then Some (c, c) else None;
  update_credential := fun c _ => c;
  registration_start := fun _ ids _ => Ok ("challenge", String.concat "" ids);
  registration_finish := fun c _ => Ok c;
  mail_taken := fun _ _ => true;
  turnstile_verdict := fun _ _ => Ok tt;
  idp_roles := fun _ _ _ m => Ok m
|}.

Definition demo_config : Config := mkConfig true true true false false None [] "0.0.0" (fun _ => false) (fun _ => None).
Definition demo_world : World :=
  mkWorld 0 ∅ 0 demo_config (mkSettings 90 false false None true [] false) ∅ ∅ ∅ ∅ [] [] ∅ [] ∅ ∅ ∅ [] [] [] [] (mkVaults ∅ ∅ []).
