(* ===== verification/Sessions.v ===== *)
(** * Bearer sessions

    [crates/termoso-server/src/session.rs] (devices, issuing, validating
    through the Redis copy, sliding expiry, step-up, revoking) and
    [extract.rs] (the client's address, bridges, who may call what). *)
From Stdlib Require Import Ascii.
From S2P Require Import Prelude Text VaultAccess Backend Server Net.

#[local] Open Scope string_scope.
#[local] Open Scope list_scope.
#[local] Open Scope Z_scope.

Definition second : Z := 1000.
Definition CACHE_TTL : Z := 60.
Definition STEP_UP_TTL : Z := 5 * 60 * second.
Definition BRIDGE_TTL : Z := 365 * 20 * 24 * 3600 * second.

Definition step_up_fresh (t : Z) (i : SessionInfo) : bool :=
  match reauth_at i with Some at_ => t - at_ <? STEP_UP_TTL | None => false end.

Definition cache_key (token_hash : string) : string := "sess:" +:+ token_hash.

(** ** Devices *)

Definition upsert_device `{External} (user : uuid) (info : DeviceInfo) (ip : option string) : M (uuid * bool) :=
  fresh ← new_uuid;
  ds ← asks devices; t ← asks now;
  let insert (id : uuid) : M (uuid * bool) :=
    match ds !! id with
    | Some _ => fail (Internal "devices_pkey")
    | None =>
        _ ← modify (set_devices (<[id := mkDevice user (di_name info) (platform_str (di_platform info))
                                          (di_app_version info) t ip None]> ds));
        mret (id, true)
    end in
  match di_client info with
  | None => insert fresh
  | Some cid =>
      match ds !! cid with
      | Some d =>
          if decide (d_user d = user) then
            _ ← modify (set_devices (<[cid := mkDevice (d_user d) (di_name info) (platform_str (di_platform info))
                                               (di_app_version info) t ip (d_approved d)]> ds));
            mret (cid, false)
          else insert fresh
      | None => insert cid
      end
  end.

(** ** Issuing *)

Definition min_opt (a b : option Z) : option Z :=
  match a, b with Some x, Some y => Some (Z.min x y) | Some x, None | None, Some x => Some x | None, None => None end.

(** The policies of the user's teams, with the role held there. *)
Definition rows_for (w : World) (user : uuid) : list PolicyRow :=
  omap (fun '(team, u, role) =>
          if decide (u = user) then
            match policies w !! team with
            | Some p => let r := tp_row p in
                        Some (mkPolicy team role (p_mfa r) (p_local_keys r) (p_ttl r) (p_sso_only r) (p_provider r)
                                (p_domains r) (p_device_approval r) (p_recording r))
            | None => None
            end
          else None) (team_members w).

Definition session_ttl (w : World) (user : uuid) : Z :=
  let min_hours := foldr (fun r m => min_opt (p_ttl r) m) None (rows_for w user) in
  session_ttl_hours (session_ttl_days (settings w)) min_hours * 3600 * second.

(** [UPDATE sessions SET .. WHERE ..]: the rows a condition selects. *)
Definition update_sessions (cond : uuid -> SessionRow -> bool) (f : SessionRow -> SessionRow)
    (m : gmap uuid SessionRow) : gmap uuid SessionRow :=
  map_imap (fun id s => Some (if cond id s then f s else s)) m.
Definition select_sessions (cond : uuid -> SessionRow -> bool) (m : gmap uuid SessionRow) :
    list (uuid * SessionRow) :=
  filter (fun x => cond (fst x) (snd x) = true) (map_to_list m).

Definition revoke_at (t : Z) (s : SessionRow) : SessionRow :=
  mkSession (s_user s) (s_device s) (s_hash s) (s_created s) (s_expires s) (s_last_used s) (Some t) (s_reauth s)
    (s_bridge s).
Definition unrevoked (s : SessionRow) : bool := bool_decide (s_revoked s = None).

(** [INSERT INTO sessions]: the id and the hash are unique. *)
Definition insert_session (id : uuid) (s : SessionRow) : M unit :=
  m ← asks sessions;
  if bool_decide (m !! id = None) && bool_decide (select_sessions (fun _ x => bool_decide (s_hash x = s_hash s)) m = [])
  then modify (set_sessions (<[id := s]> m)) else fail (Internal "sessions_unique").

Definition approve_device (keep_first : bool) (device : uuid) : M unit :=
  t ← asks now; ds ← asks devices;
  modify (set_devices (alter (fun d => mkDevice (d_user d) (d_name d) (d_platform d) (d_version d) t (d_last_ip d)
      (match d_approved d with Some a => if keep_first then Some a else Some t | None => Some t end)) device ds)).

Section Issue.
Context {X : External}.

Definition issue (user device : uuid) : M (string * Z) :=
  token ← random_token;
  t ← asks now; ttl ← asks (fun w => session_ttl w user);
  let expires := t + ttl in
  _ ← modify (fun w => set_sessions (update_sessions (fun _ s => bool_decide (s_device s = device) && unrevoked s)
                                       (revoke_at t) (sessions w)) w);
  id ← new_uuid;
  _ ← insert_session id (mkSession user device (hash_token token) t expires t None (Some t) None);
  _ ← approve_device true device;
  mret (token, expires).

Definition issue_bridge (user device bridge : uuid) : M string :=
  token ← random_token;
  t ← asks now; id ← new_uuid;
  _ ← insert_session id (mkSession user device (hash_token token) t (t + BRIDGE_TTL) t None None (Some bridge));
  _ ← approve_device false device;
  mret token.

(** ** Validating *)

(** The row of a bearer, joined with its user. *)
Definition live_row (w : World) (h : string) : option SessionInfo :=
  match select_sessions (fun _ s => bool_decide (s_hash s = h) && unrevoked s && (now w <? s_expires s)) (sessions w) with
  | (id, s) :: _ =>
      u ← users w !! s_user s;
      Some (mkInfo id (s_user s) (s_device s) (s_expires s) (u_admin u) (u_disabled u) (u_verified u)
              (s_last_used s) (Some (s_created s)) (s_reauth s) (s_bridge s))
  | [] => None
  end.

Definition validate (token : string) : M SessionInfo :=
  let h := hash_token token in
  let key := cache_key h in
  cached ← get_key as_session key;
  t ← asks now;
  let miss : M SessionInfo :=
    row ← asks (fun w => live_row w h);
    match row with
    | None => fail Unauthorized
    | Some info => _ ← set_key key (BSession info) CACHE_TTL; mret info
    end in
  match cached with
  | Some info => if t <? expires_at info then mret info else miss
  | None => miss
  end.

Definition touch (info : SessionInfo) (ip : option string) : M unit :=
  t ← asks now;
  let first_bridge_use :=
    bool_decide (is_Some (bridge_id info))
    && match created_at info with Some c => last_used_at info <=? c | None => false end in
  if negb first_bridge_use && (t - last_used_at info <? 5 * 60 * second) then mret tt else
  ttl ← asks (fun w => session_ttl w (si_user info));
  let new_exp := match bridge_id info with Some _ => expires_at info | None => t + ttl end in
  _ ← modify (fun w => set_sessions (alter (fun s => mkSession (s_user s) (s_device s) (s_hash s) (s_created s)
         new_exp t (s_revoked s) (s_reauth s) (s_bridge s)) (session_id info) (sessions w)) w);
  _ ← modify (fun w => set_devices (alter (fun d => mkDevice (d_user d) (d_name d) (d_platform d) (d_version d) t
         (match ip with Some a => Some a | None => d_last_ip d end) (d_approved d)) (si_device info) (devices w)) w);
  modify (fun w => set_users (alter (fun u => mkUser (u_id u) (u_email u) (u_verified u) (u_record u) (u_recovery_hash u)
         (u_recovery_wrapped u) (u_wrapped u) (u_totp u) (u_totp_enabled u) (u_admin u) (u_disabled u) (Some t) (u_profile u))
         (si_user info) (users w)) w).

Definition mark_step_up (session : uuid) : M Z :=
  t ← asks now; m ← asks sessions;
  match m !! session with
  | Some s =>
      if unrevoked s && (t <? s_expires s) then
        _ ← modify (set_sessions (<[session := mkSession (s_user s) (s_device s) (s_hash s) (s_created s) (s_expires s)
                                     (s_last_used s) None (Some t) (s_bridge s)]> m));
        _ ← del_key (cache_key (s_hash s));
        mret (t + STEP_UP_TTL)
      else fail Unauthorized
  | None => fail Unauthorized
  end.

(** ** Revoking *)

Definition publish (e : Event) : M unit := modify (fun w => set_published (published w ++ [e]) w).
Definition forget_device (device : uuid) : M unit :=
  modify (fun w => set_ssh_id_keys (filter (fun d => d <> device) (ssh_id_keys w)) w).

(** [UPDATE sessions SET revoked_at = now() WHERE .. RETURNING ..]. *)
Definition revoke_where (cond : uuid -> SessionRow -> bool) : M (list (uuid * SessionRow)) :=
  t ← asks now; m ← asks sessions;
  let hit := fun id s => cond id s && unrevoked s in
  _ ← modify (set_sessions (update_sessions hit (revoke_at t) m));
  mret (select_sessions hit m).

Definition drop_cached (user : uuid) (rows : list (uuid * SessionRow)) : M unit :=
  for_each rows (fun '(id, s) => _ ← del_key (cache_key (s_hash s)); publish (SessionRevoked user id)).

Definition revoke_session (session : uuid) : M unit :=
  rows ← revoke_where (fun id _ => bool_decide (id = session));
  match rows with
  | [] => mret tt
  | (id, s) :: _ =>
      _ ← del_key (cache_key (s_hash s));
      live ← asks (fun w => select_sessions (fun _ x => bool_decide (s_device x = s_device s) && unrevoked x
                                                      && (now w <? s_expires x)) (sessions w));
      _ ← (match live with [] => forget_device (s_device s) | _ => mret tt end);
      publish (SessionRevoked (s_user s) id)
  end.

Definition revoke_device (user device : uuid) : M unit :=
  rows ← revoke_where (fun _ s => bool_decide (s_device s = device) && bool_decide (s_user s = user));
  _ ← forget_device device;
  drop_cached user rows.

Definition revoke_all (user : uuid) (keep : option uuid) : M unit :=
  rows ← revoke_where (fun id s => bool_decide (s_user s = user) && bool_decide (s_bridge s = None)
                                 && match keep with Some k => negb (bool_decide (id = k)) | None => true end);
  drop_cached user rows.

Definition is_revoked (w : World) (session : uuid) : bool :=
  match sessions w !! session with
  | Some s => negb (unrevoked s) || (s_expires s <=? now w)
  | None => true
  end.

Definition invalidate_user_cache (user : uuid) : M unit :=
  rows ← asks (fun w => select_sessions (fun _ s => bool_decide (s_user s = user) && unrevoked s && (now w <? s_expires s))
                          (sessions w));
  for_each rows (fun '(_, s) => del_key (cache_key (s_hash s))).
End Issue.

(** ** Requests ([extract.rs]) *)

Record Request := mkRequest {
  rq_authorization : option string; rq_method : string; rq_path : string; rq_forwarded : option string;
  rq_real_ip : option string; rq_socket : option IpAddr
}.
Record Auth := mkAuth { auth_session : SessionInfo; auth_ip : option string }.

Definition user_id (a : Auth) : uuid := si_user (auth_session a).
Definition device_id (a : Auth) : uuid := si_device (auth_session a).

Definition bearer (authorization : option string) : option string :=
  v ← authorization;
  t ← strip_prefix (as_bytes "Bearer ") (as_bytes v);
  let t := trim (of_bytes t) in
  if bool_decide (t = "") then None else Some t.

Definition API_PREFIX : string := "/api/v1".

Definition bridge_allowed (method path : string) : bool :=
  let path := match strip_prefix (as_bytes API_PREFIX) (as_bytes path) with Some p => of_bytes p | None => path end in
  (bool_decide (method = "POST") && bool_decide (path = "/sync/push"))
  || (bool_decide (method = "POST") && bool_decide (path = "/sync/pull"))
  || (bool_decide (method = "GET") && bool_decide (path = "/bridge/me")).

(** [str::parse::<SocketAddr>]. *)
Definition read_port (l : bytes) : bool :=
  match l with
  | 58 :: l' => match read_number 10 (length l') 65535 true l' with Some (_, []) => true | _ => false end
  | _ => false
  end.
Definition skip_scope (l : bytes) : option bytes :=
  match l with
  | 37 :: l' => match read_number 10 (length l') (2 ^ 32 - 1) true l' with Some (_, r) => Some r | None => None end
  | _ => Some l
  end.
Definition parse_socket_ip (s : string) : option IpAddr :=
  match read_ipv4 (as_bytes s) with
  | Some (o, l) => if read_port l then Some (V4 o) else None
  | None =>
      match as_bytes s with
      | 91 :: l =>
          '(g, l) ← read_ipv6 l;
          l ← skip_scope l;
          match l with 93 :: l => if read_port l then Some (V6 g) else None | _ => None end
      | _ => None
      end
  end.

Definition client_addr (v : string) : option IpAddr :=
  let v := trim v in
  match parse_ip (trim_matches [91; 93] v) with
  | Some ip => Some ip
  | None => parse_socket_ip v
  end.

Definition forwarded_ip (r : Request) : option IpAddr :=
  v ← match rq_forwarded r with
      | Some v => Some (match rsplit_once ","%char v with Some (_, last) => last | None => v end)
      | None => rq_real_ip r
      end;
  client_addr v.

Definition client_ip (r : Request) (trusted : bool) : option string :=
  match (if trusted then forwarded_ip r else None) with
  | Some ip => Some (show_ip ip)
  | None => show_ip <$> rq_socket r
  end.

Section Extract.
Context {X : External}.

Definition authenticate (r : Request) : M Auth :=
  token ← of_option (bearer (rq_authorization r)) Unauthorized;
  info ← validate token;
  if disabled info then fail AccountDisabled else
  on ← asks (fun w => bridges (cfg w));
  let bridge := bool_decide (is_Some (bridge_id info)) in
  if bridge && negb on then fail (Denied "API bridges are disabled on this server") else
  if bridge && negb (bridge_allowed (rq_method r) (rq_path r)) then
    fail (Denied "API bridge tokens may only sync and read /bridge/me") else
  trusted ← asks (fun w => trust_proxy (cfg w));
  let ip := client_ip r trusted in
  _ ← touch info ip;
  mret (mkAuth info ip).

Definition authenticate_optional (r : Request) : M (option Auth) :=
  match bearer (rq_authorization r) with
  | None => mret None
  | Some _ => a ← authenticate r; mret (Some a)
  end.

Definition require_step_up (a : Auth) : M unit :=
  t ← asks now; guard_or (step_up_fresh t (auth_session a)) ReauthRequired.

Definition step_up (r : Request) : M Auth :=
  a ← authenticate r; _ ← require_step_up a; mret a.

Definition admin (r : Request) : M Auth :=
  a ← authenticate r;
  _ ← guard_or (is_admin (auth_session a)) (Denied "Administrator access required");
  mret a.
End Extract.

(** ** Lemmas on the table *)

Lemma select_elem cond m id s : (id, s) ∈ select_sessions cond m <-> m !! id = Some s /\ cond id s = true.
Proof. unfold select_sessions. rewrite list_elem_of_filter, elem_of_map_to_list. simpl. tauto. Qed.

Lemma update_lookup cond f m id :
  update_sessions cond f m !! id = (fun s => if cond id s then f s else s) <$> m !! id.
Proof. unfold update_sessions. rewrite map_lookup_imap. by destruct (m !! id). Qed.

Lemma unrevoked_spec s : unrevoked s = true <-> s_revoked s = None.
Proof. unfold unrevoked. by rewrite bool_decide_eq_true. Qed.

(** No two sessions share a token. *)
Definition hashes_unique (m : gmap uuid SessionRow) : Prop :=
  forall id id' s s', m !! id = Some s -> m !! id' = Some s' -> s_hash s = s_hash s' -> id = id'.

(** A device has at most one live interactive session, and belongs to the
    user its sessions belong to. *)
Record tables_sound (w : World) : Prop := {
  unique : hashes_unique (sessions w);
  one_live : forall id id' s s', sessions w !! id = Some s -> sessions w !! id' = Some s' ->
    s_device s = s_device s' -> s_revoked s = None -> s_revoked s' = None ->
    s_bridge s = None -> s_bridge s' = None -> id = id';
  owned : forall id s, sessions w !! id = Some s -> exists d, devices w !! s_device s = Some d /\ d_user d = s_user s
}.

(** What every operation but the issuing of a session does to the tables: a
    session keeps its user, device, token and bridge, a revoked one stays
    revoked, none appears; a device keeps its owner. *)
Definition same_session (s s' : SessionRow) : Prop :=
  s_user s' = s_user s /\ s_device s' = s_device s /\ s_hash s' = s_hash s /\ s_bridge s' = s_bridge s
  /\ (s_revoked s' = None -> s_revoked s = None).
Record no_new_session (w w' : World) : Prop := {
  kept_sessions : forall id s', sessions w' !! id = Some s' -> exists s, sessions w !! id = Some s /\ same_session s s';
  kept_devices : forall id d, devices w !! id = Some d -> exists d', devices w' !! id = Some d' /\ d_user d' = d_user d
}.

Lemma same_session_refl s : same_session s s.
Proof. by repeat split. Qed.
#[export] Hint Resolve same_session_refl : keeps.

#[export] Instance no_new_session_preorder : PreOrder no_new_session.
Proof.
  split.
  - intros w. split; eauto with keeps.
  - intros w w1 w2 [Hs Hd] [Hs' Hd']. split.
    + intros id s2 H2. destruct (Hs' id s2 H2) as (s1 & H1 & E1). destruct (Hs id s1 H1) as (s & H & E).
      exists s. split; [done|]. unfold same_session in *. intuition congruence.
    + intros id d H. destruct (Hd id d H) as (d1 & H1 & E1). destruct (Hd' id d1 H1) as (d2 & H2 & E2).
      exists d2. split; [done|congruence].
Qed.

Lemma no_new_session_sound w w' : no_new_session w w' -> tables_sound w -> tables_sound w'.
Proof.
  intros [Hs Hd] [Hu Ho Hw].
  assert (Hback : forall id s', sessions w' !! id = Some s' -> exists s, sessions w !! id = Some s /\ same_session s s') by done.
  split.
  - intros id id' s s' H H' E. destruct (Hs _ _ H) as (s0 & H0 & E0), (Hs _ _ H') as (s1 & H1 & E1).
    unfold same_session in *. eapply Hu; [exact H0|exact H1|intuition congruence].
  - intros id id' s s' H H' Hdev Hr Hr' Hb Hb'.
    destruct (Hs _ _ H) as (s0 & H0 & E0), (Hs _ _ H') as (s1 & H1 & E1). unfold same_session in *.
    eapply Ho; [exact H0|exact H1|intuition congruence..].
  - intros id s H. destruct (Hs _ _ H) as (s0 & H0 & E0). destruct (Hw _ _ H0) as (d & H1 & E1).
    destruct (Hd _ _ H1) as (d' & H2 & E2). unfold same_session in E0. exists d'.
    destruct E0 as (-> & -> & _). split; [done|congruence].
Qed.

Lemma nns_other (f : World -> World) : (forall w, sessions (f w) = sessions w) -> (forall w, devices (f w) = devices w) ->
  keeps no_new_session (modify f).
Proof. intros Hs Hd w. simpl. split; rewrite ?Hs, ?Hd; eauto with keeps. Qed.

Lemma nns_on_cache {A} f : keeps no_new_session (on_cache (A := A) f).
Proof. intros w. unfold on_cache. destruct (f (now w) (cache w)) as [r c]. split; simpl; eauto with keeps. Qed.

Lemma nns_update cond f (Hf : forall s, same_session s (f s)) :
  keeps no_new_session (modify (fun w => set_sessions (update_sessions cond f (sessions w)) w)).
Proof.
  intros w. split; simpl; [|eauto].
  intros id s'. rewrite update_lookup. destruct (sessions w !! id) as [s|]; [|done]. simpl. intros [= <-].
  exists s. split; [done|]. destruct (cond id s); [apply Hf|apply same_session_refl].
Qed.

Lemma nns_alter_session f id (Hf : forall s, same_session s (f s)) :
  keeps no_new_session (modify (fun w => set_sessions (alter f id (sessions w)) w)).
Proof.
  intros w. split; simpl; [|eauto].
  intros id' s'. rewrite lookup_alter_Some. intros [(-> & s & H & ->)|[_ H]]; eauto with keeps.
Qed.

Lemma nns_alter_device f id (Hf : forall d, d_user (f d) = d_user d) :
  keeps no_new_session (modify (fun w => set_devices (alter f id (devices w)) w)).
Proof.
  intros w. split; simpl; [eauto with keeps|].
  intros id' d H. destruct (decide (id = id')) as [->|Hn].
  - rewrite lookup_alter_eq, H. simpl. eauto.
  - rewrite lookup_alter_ne by done. eauto.
Qed.

Lemma nns_revoked t s : same_session s (revoke_at t s).
Proof. by repeat split. Qed.

#[export] Hint Resolve nns_on_cache nns_revoked : keeps.
#[export] Hint Extern 3 (keeps no_new_session (modify _)) => (apply nns_other; reflexivity) : keeps.
#[export] Hint Extern 3 (keeps no_new_session (set_key _ _ _)) => (apply nns_other; reflexivity) : keeps.
#[export] Hint Extern 3 (keeps no_new_session (del_key _)) => (apply nns_other; reflexivity) : keeps.
#[export] Hint Extern 3 (keeps no_new_session (publish _)) => (apply nns_other; reflexivity) : keeps.
#[export] Hint Extern 3 (keeps no_new_session (forget_device _)) => (apply nns_other; reflexivity) : keeps.
#[export] Hint Extern 3 (keeps no_new_session (draw _)) =>
  (intros ?; split; simpl; eauto with keeps) : keeps.

Lemma nns_revoke_where cond : keeps no_new_session (revoke_where cond).
Proof.
  intros w. unfold revoke_where. cbn.
  apply (nns_update (fun id s => cond id s && unrevoked s) (revoke_at (now w)) (nns_revoked (now w)) w).
Qed.
#[export] Hint Resolve nns_revoke_where : keeps.

Lemma nns_approve b device : keeps no_new_session (approve_device b device).
Proof. intros w. unfold approve_device. cbn. refine (nns_alter_device _ device _ w). done. Qed.
#[export] Hint Resolve nns_approve : keeps.

Section Ops.
Context {X : External}.

Lemma nns_touch info ip : keeps no_new_session (touch info ip).
Proof.
  unfold touch. repeat keeps_step.
  - by apply nns_alter_session.
  - by apply nns_alter_device.
Qed.

Lemma nns_validate token : keeps no_new_session (validate token).
Proof. unfold validate. repeat keeps_step. Qed.

Lemma nns_mark_step_up id : keeps no_new_session (mark_step_up id).
Proof.
  intros w. unfold mark_step_up. run_m. destruct (sessions w !! id) as [s|] eqn:E; [|apply keeps_fail].
  destruct (unrevoked s && (now w <? s_expires s)) eqn:Hc; [|apply keeps_fail]. run_m.
  split; simpl; [|eauto]. intros id' s'. destruct (decide (id = id')) as [->|Hn].
  - rewrite lookup_insert_eq. intros [= <-]. exists s. split; [done|].
    apply andb_true_iff in Hc as [Hr%unrevoked_spec _]. by repeat split.
  - rewrite lookup_insert_ne by done. eauto with keeps.
Qed.

Lemma nns_drop_cached user rows : keeps no_new_session (drop_cached user rows).
Proof. apply keeps_for_each. intros [id s]. repeat keeps_step. Qed.
Hint Resolve nns_touch nns_validate nns_mark_step_up nns_drop_cached : keeps.

Lemma nns_revoke_session id : keeps no_new_session (revoke_session id).
Proof. unfold revoke_session. repeat keeps_step. Qed.
Lemma nns_revoke_device user device : keeps no_new_session (revoke_device user device).
Proof. unfold revoke_device. repeat keeps_step. Qed.
Lemma nns_revoke_all user keep : keeps no_new_session (revoke_all user keep).
Proof. unfold revoke_all. repeat keeps_step. Qed.
Lemma nns_invalidate user : keeps no_new_session (invalidate_user_cache user).
Proof. unfold invalidate_user_cache. repeat keeps_step. apply keeps_for_each. intros [id s]. repeat keeps_step. Qed.
Lemma nns_authenticate r : keeps no_new_session (authenticate r).
Proof. unfold authenticate. repeat keeps_step. Qed.
End Ops.

(** ** Issuing keeps the tables sound *)

Lemma insert_sound w id s : tables_sound w -> sessions w !! id = None ->
  (forall id' s', sessions w !! id' = Some s' -> s_hash s' <> s_hash s) ->
  (s_bridge s = None -> forall id' s', sessions w !! id' = Some s' -> s_device s' = s_device s -> s_bridge s' = None ->
     s_revoked s' <> None) ->
  (exists d, devices w !! s_device s = Some d /\ d_user d = s_user s) ->
  tables_sound (set_sessions (<[id := s]> (sessions w)) w).
Proof.
  intros [Hu Ho Hw] Hid Hh Hl Hd. split; simpl.
  - intros i j a b Ha Hb E. apply lookup_insert_Some in Ha as [[<- <-]|[Hi Ha]], Hb as [[<- <-]|[Hj Hb]]; try done.
    + by destruct (Hh _ _ Hb).
    + by destruct (Hh _ _ Ha).
    + eauto.
  - intros i j a b Ha Hb E Ra Rb Ba Bb.
    apply lookup_insert_Some in Ha as [[<- <-]|[Hi Ha]], Hb as [[<- <-]|[Hj Hb]]; try done.
    + by destruct (Hl Ba _ _ Hb (eq_sym E) Bb).
    + by destruct (Hl Bb _ _ Ha E Ba).
    + eauto.
  - intros i a Ha. apply lookup_insert_Some in Ha as [[<- <-]|[Hi Ha]]; eauto.
Qed.

Lemma insert_session_inv id s w r w' : insert_session id s w = (r, w') ->
  (exists e, r = Err e /\ w' = w)
  \/ (r = Ok tt /\ w' = set_sessions (<[id := s]> (sessions w)) w /\ sessions w !! id = None
      /\ forall id' s', sessions w !! id' = Some s' -> s_hash s' <> s_hash s).
Proof.
  unfold insert_session. run_m.
  destruct (_ && _) eqn:E; [|unfold fail; intros [= <- <-]; eauto].
  apply andb_true_iff in E as [E1%bool_decide_eq_true E2%bool_decide_eq_true].
  intros [= <- <-]. right. repeat split; [done|].
  intros id' s' H Hh. assert (Hin : (id', s') ∈ select_sessions (fun _ x => bool_decide (s_hash x = s_hash s)) (sessions w)).
  { apply select_elem. split; [done|]. by apply bool_decide_eq_true. }
  rewrite E2 in Hin. by apply not_elem_of_nil in Hin.
Qed.

Section IssueSound.
Context {X : External}.

Definition revoke_device_rows (device : uuid) (w : World) : World :=
  set_sessions (update_sessions (fun _ s => bool_decide (s_device s = device) && unrevoked s) (revoke_at (now w))
                  (sessions w)) w.

(** [issue] revokes what the device held, then adds the new session. *)
Lemma issue_run user device w r w' : issue user device w = (r, w') ->
  exists w1, now w1 = now w /\ sessions w1 = sessions (revoke_device_rows device w) /\ devices w1 = devices w
    /\ cache w1 = cache w
    /\ ((exists e, r = Err e /\ w' = w1)
        \/ exists id s w2, sessions w1 !! id = None
             /\ (forall id' s', sessions w1 !! id' = Some s' -> s_hash s' <> s_hash s)
             /\ s = mkSession user device (s_hash s) (now w) (now w + session_ttl w user) (now w) None (Some (now w)) None
             /\ w2 = set_sessions (<[id := s]> (sessions w1)) w1
             /\ w' = snd (approve_device true device w2)
             /\ exists token, s_hash s = hash_token token /\ r = Ok (token, now w + session_ttl w user)).
Proof.
  unfold issue, random_token, new_uuid. run_m. rewrite bind_run.
  destruct (insert_session _ _ _) as [ri wi] eqn:E.
  apply insert_session_inv in E as [(e & -> & ->)|(-> & -> & Hid & Hh)].
  - intros [= <- <-]. eexists. split; [|split; [|split; [|split]]]; [| | | |left; eexists; by split]; reflexivity.
  - rewrite bind_run. unfold approve_device. run_m. intros [= <- <-].
    eexists. split; [|split; [|split; [|split]]]; cycle 4.
    + right. eexists _, _, _. split; [exact Hid|]. split; [exact Hh|].
      split; [reflexivity|]. split; [reflexivity|]. split; [reflexivity|]. eexists. split; reflexivity.
    + reflexivity.
    + reflexivity.
    + reflexivity.
    + reflexivity.
Qed.

Lemma issue_sound user device w : tables_sound w ->
  (exists d, devices w !! device = Some d /\ d_user d = user) -> tables_sound (snd (issue user device w)).
Proof.
  intros Hs Hd. destruct (issue user device w) as [r w'] eqn:E.
  apply issue_run in E as (w1 & Hn & Hses & Hdev & _ & Hr). simpl.
  assert (Hs1 : tables_sound w1).
  { apply (no_new_session_sound w); [|done].
    pose proof (nns_update (fun _ s => bool_decide (s_device s = device) && unrevoked s) (revoke_at (now w))
                  (nns_revoked (now w)) w) as [H1 H2].
    split; simpl in *; rewrite ?Hses, ?Hdev; done. }
  destruct Hr as [(e & -> & ->)|(id & s & w2 & Hid & Hh & Es & -> & -> & _)]; [done|].
  eapply no_new_session_sound; [apply nns_approve|].
  apply insert_sound; [done..| |].
  - intros _ id' s' H Hsd Hb. rewrite Hses in H. simpl in H. rewrite update_lookup in H.
    destruct (sessions w !! id') as [s0|] eqn:E0; [|done]. simpl in H. injection H as <-.
    rewrite Es in Hsd. simpl in Hsd.
    destruct (bool_decide (s_device s0 = device) && unrevoked s0) eqn:Ec; simpl in *; [done|].
    apply andb_false_iff in Ec as [Ec|Ec].
    + rewrite Hsd in Ec. by rewrite bool_decide_eq_false in Ec.
    + unfold unrevoked in Ec. by apply bool_decide_eq_false in Ec.
  - rewrite Hdev, Es. simpl. done.
Qed.

Lemma issue_bridge_sound user device bridge w : tables_sound w ->
  (exists d, devices w !! device = Some d /\ d_user d = user) -> tables_sound (snd (issue_bridge user device bridge w)).
Proof.
  intros Hs Hd. unfold issue_bridge, random_token, new_uuid. run_m. rewrite bind_run.
  destruct (insert_session _ _ _) as [ri wi] eqn:E.
  assert (Hsame : forall n w0, tables_sound w0 -> tables_sound (set_drawn n w0)) by (intros n w0 [? ? ?]; by split).
  apply insert_session_inv in E as [(e & -> & ->)|(-> & -> & Hid & Hh)]; [by apply Hsame, Hsame|].
  rewrite bind_run. destruct (approve_device false device _) as [ra wa] eqn:Ea.
  assert (Hwa : tables_sound wa).
  { pose proof (nns_approve false device) as Hk. unfold keeps in Hk.
    match type of Ea with approve_device _ _ ?w0 = _ => specialize (Hk w0); assert (H0 : tables_sound w0) end.
    - apply insert_sound; [by apply Hsame, Hsame|done..].
    - rewrite Ea in Hk. by apply (no_new_session_sound _ _ Hk). }
  by destruct ra.
Qed.

(** every operation keeps the session tables sound: no two sessions share
    a token, a device holds at most one unrevoked interactive session, and a
    session's device belongs to the session's user. Issuing needs the device
    to belong to the user; the other operations need nothing. *)
Theorem operations_keep_tables_sound w : tables_sound w ->
  (forall user device, (exists d, devices w !! device = Some d /\ d_user d = user) ->
     tables_sound (snd (issue user device w)) /\ forall b, tables_sound (snd (issue_bridge user device b w)))
  /\ (forall token, tables_sound (snd (validate token w)))
  /\ (forall r, tables_sound (snd (authenticate r w)))
  /\ (forall i ip, tables_sound (snd (touch i ip w)))
  /\ (forall id, tables_sound (snd (mark_step_up id w)) /\ tables_sound (snd (revoke_session id w)))
  /\ (forall user device, tables_sound (snd (revoke_device user device w)))
  /\ (forall user keep, tables_sound (snd (revoke_all user keep w)))
  /\ (forall user, tables_sound (snd (invalidate_user_cache user w))).
Proof.
  intros Hs.
  assert (Hk : forall A (m : M A), keeps no_new_session m -> tables_sound (snd (m w))).
  { intros A m Hm. by apply (no_new_session_sound w _ (Hm w)). }
  split; [intros user device Hd; split; [by apply issue_sound|intros b; by apply issue_bridge_sound]|].
  split; [intros token; apply Hk, nns_validate|].
  split; [intros r; apply Hk, nns_authenticate|].
  split; [intros i ip; apply Hk, nns_touch|].
  split; [intros id; split; [apply Hk, nns_mark_step_up|apply Hk, nns_revoke_session]|].
  split; [intros user device; apply Hk, nns_revoke_device|].
  split; [intros user keep; apply Hk, nns_revoke_all|intros user; apply Hk, nns_invalidate].
Qed.
End IssueSound.

(** ** What validating answers *)

Lemma bind_publish {B} e (k : unit -> M B) w : (publish e ≫= k) w = k tt (set_published (published w ++ [e]) w).
Proof. reflexivity. Qed.

Section Validate.
Context {X : External}.

Definition info_of (id : uuid) (s : SessionRow) (u : UserRow) : SessionInfo :=
  mkInfo id (s_user s) (s_device s) (s_expires s) (u_admin u) (u_disabled u) (u_verified u)
    (s_last_used s) (Some (s_created s)) (s_reauth s) (s_bridge s).

Lemma live_row_sound w h i : live_row w h = Some i ->
  exists id s u, sessions w !! id = Some s /\ s_hash s = h /\ s_revoked s = None /\ now w < s_expires s
    /\ users w !! s_user s = Some u /\ i = info_of id s u.
Proof.
  unfold live_row. destruct (select_sessions _ _) as [|[id s] l] eqn:E; [done|].
  assert (H : (id, s) ∈ (id, s) :: l) by apply list_elem_of_here. rewrite <- E in H.
  apply select_elem in H as [Hs Hc]. apply andb_true_iff in Hc as [Hc Ht%Z.ltb_lt].
  apply andb_true_iff in Hc as [Hh%bool_decide_eq_true Hr%unrevoked_spec].
  intros (u & Hu & [= <-])%bind_Some. exists id, s, u. done.
Qed.

Lemma live_row_complete w id s u : hashes_unique (sessions w) -> sessions w !! id = Some s -> s_revoked s = None ->
  now w < s_expires s -> users w !! s_user s = Some u -> live_row w (s_hash s) = Some (info_of id s u).
Proof.
  intros Hq Hs Hr Ht Hu. unfold live_row.
  assert (H : (id, s) ∈ select_sessions (fun _ x => bool_decide (s_hash x = s_hash s) && unrevoked x
                                                   && (now w <? s_expires x)) (sessions w)).
  { apply select_elem. split; [done|]. rewrite bool_decide_true by done.
    rewrite (proj2 (unrevoked_spec s) Hr). simpl. by apply Z.ltb_lt. }
  destruct (select_sessions _ _) as [|[id' s'] l] eqn:E; [by apply not_elem_of_nil in H|].
  assert (H' : (id', s') ∈ (id', s') :: l) by apply list_elem_of_here. rewrite <- E in H'.
  apply select_elem in H' as [Hs' Hc]. apply andb_true_iff in Hc as [[Hh%bool_decide_eq_true _]%andb_true_iff _].
  assert (id' = id) as -> by (eapply Hq; eauto). rewrite Hs in Hs'. injection Hs' as <-. by rewrite Hu.
Qed.

Lemma validate_answer token w :
  fst (validate token w) =
  match get_json as_session (now w) (cache_key (hash_token token)) (cache w) with
  | Err e => Err e
  | Ok cached =>
      let fresh := ok_or (live_row w (hash_token token)) Unauthorized in
      match cached with Some i => if now w <? expires_at i then Ok i else fresh | None => fresh end
  end.
Proof.
  unfold validate. run_m. destruct (get_json _ _ _ _) as [[i|]|e]; [| |done]; run_m.
  - destruct (now w <? expires_at i); [done|]. run_m. destruct (live_row w (hash_token token)); [|done]. by run_m.
  - destruct (live_row w (hash_token token)); [|done]. by run_m.
Qed.

(** ** Signing out *)

Definition keys_of (rows : list (uuid * SessionRow)) : list string := map (fun x => cache_key (s_hash (snd x))) rows.

Lemma drop_cached_run user rows w :
  exists w', drop_cached user rows w = (Ok tt, w') /\ now w' = now w /\ sessions w' = sessions w /\ users w' = users w
    /\ forall k t, live t (cache w') k = if bool_decide (k ∈ keys_of rows) then None else live t (cache w) k.
Proof.
  unfold drop_cached. revert w. induction rows as [|[id s] rows IH]; intros w.
  { exists w. repeat split. }
  rewrite for_each_cons. run_m. rewrite bind_publish.
  match goal with |- context [for_each _ _ ?w0] => destruct (IH w0) as (w' & -> & Hn & Hs & Hu & Hl) end.
  exists w'. split; [done|]. split; [done|]. split; [done|]. split; [done|]. intros k t. rewrite Hl. simpl.
  destruct (decide (k ∈ keys_of rows)) as [Hin|Hin].
  - rewrite !bool_decide_true; [done| |done]. by apply list_elem_of_further.
  - rewrite (bool_decide_false (k ∈ keys_of rows)) by done.
    destruct (decide (k = cache_key (s_hash s))) as [->|Hk].
    + rewrite live_del, bool_decide_true; [done|]. apply list_elem_of_here.
    + rewrite live_del_ne by done. rewrite bool_decide_false; [done|]. intros H.
      by apply elem_of_cons in H as [H|H].
Qed.

Lemma cache_key_inj h h' : cache_key h = cache_key h' -> h = h'.
Proof. unfold cache_key. apply String.app_inj. Qed.

(** Revoking what [cond] selects and dropping the copies: the revoked tokens
    are refused from then on, every other answer is as before. *)
Lemma revoke_and_drop cond user w token t : hashes_unique (sessions w) ->
  let hit := fun id s => cond id s && unrevoked s in
  let w' := snd ((rows ← revoke_where cond; drop_cached user rows) w) in
  let named := exists id s, sessions w !! id = Some s /\ hit id s = true /\ s_hash s = hash_token token in
  (named -> fst (validate token (set_now t w')) = Err Unauthorized)
  /\ (~ named -> fst (validate token (set_now t w')) = fst (validate token (set_now t w))).
Proof.
  intros Hq hit. cbv zeta. unfold revoke_where. run_m.
  change (fun (id : uuid) (s : SessionRow) => cond id s && unrevoked s) with hit. clearbody hit.
  match goal with |- context [drop_cached user ?r ?w0] => destruct (drop_cached_run user r w0) as (w' & Hw & Hn & Hs & Hu & Hl) end.
  rewrite Hw. cbn [snd]. rewrite !validate_answer. unfold get_json. cbn [now cache set_now].
  rewrite Hl. cbn [cache set_sessions].
  assert (Hin : bool_decide (cache_key (hash_token token) ∈ keys_of (select_sessions hit (sessions w))) = true <->
                exists id s, sessions w !! id = Some s /\ hit id s = true /\ s_hash s = hash_token token).
  { rewrite bool_decide_eq_true. unfold keys_of. rewrite list_elem_of_In, in_map_iff. split.
    - intros ([id s] & Hk%cache_key_inj & Hm%list_elem_of_In%select_elem). simpl in *. exists id, s. tauto.
    - intros (id & s & H1 & H2 & H3). exists (id, s). simpl. split; [by rewrite H3|].
      by apply list_elem_of_In, select_elem. }
  assert (Hrow : forall i, live_row (set_now t w') (hash_token token) = Some i <->
      live_row (set_now t w) (hash_token token) = Some i
      /\ ~ exists id s, sessions w !! id = Some s /\ hit id s = true /\ s_hash s = hash_token token).
  { intros i. split.
    - intros H. apply live_row_sound in H as (id & s & u & H1 & H2 & H3 & H4 & H5 & ->). cbn in *.
      rewrite Hs in H1. simpl in H1. rewrite update_lookup in H1.
      destruct (sessions w !! id) as [s0|] eqn:E0; [|done]. simpl in H1. injection H1 as <-.
      destruct (hit id s0) eqn:Eh; [done|]. rewrite Hu in H5. split.
      + rewrite <- H2. by apply live_row_complete.
      + intros (id1 & s1 & G1 & G2 & G3). rewrite <- G3 in H2.
        assert (id1 = id) as -> by (eapply Hq; eauto). rewrite E0 in G1. injection G1 as <-. congruence.
    - intros [H Hno]. apply live_row_sound in H as (id & s & u & H1 & H2 & H3 & H4 & H5 & ->). cbn in *.
      assert (Hh : hit id s = false). { apply not_true_is_false. intros Hh. apply Hno. eauto. }
      rewrite <- H2. apply live_row_complete; cbn; [| |done..|by rewrite Hu].
      + rewrite Hs. simpl. intros i1 i2 s1 s2. rewrite !update_lookup.
        destruct (sessions w !! i1) as [a|] eqn:Ea, (sessions w !! i2) as [b|] eqn:Eb; simpl; try done.
        intros [= <-] [= <-] E. eapply Hq; [done..|]. destruct (hit i1 a), (hit i2 b); done.
      + rewrite Hs. cbn [sessions set_sessions]. rewrite update_lookup, H1. cbn [fmap option_fmap option_map]. by rewrite Hh. }
  assert (Hnone : (exists id s, sessions w !! id = Some s /\ hit id s = true /\ s_hash s = hash_token token) ->
                  live_row (set_now t w') (hash_token token) = None).
  { intros H. apply eq_None_not_Some. intros [i E]. by apply Hrow in E as [_ E]. }
  split; intros Hd.
  - rewrite (proj2 Hin Hd). by rewrite Hnone.
  - rewrite (not_true_is_false _ (fun H => Hd (proj1 Hin H))).
    assert (He : live_row (set_now t w') (hash_token token) = live_row (set_now t w) (hash_token token)).
    { apply option_eq. intros i. rewrite Hrow. tauto. }
    by rewrite He.
Qed.

(** signing everything out ([revoke_all], what a new password and an
    administrator's lock do) takes effect at once and hits exactly what it
    names: from then on the token of every unrevoked interactive session of
    the user, but the one kept, is refused as unauthorized at any time; the
    answer to every other token (bridges, other users, the kept session) is
    what it would have been. *)
Theorem revoke_all_signs_out user keep w token t : hashes_unique (sessions w) ->
  let named id s := s_user s = user /\ s_bridge s = None /\ keep <> Some id /\ s_revoked s = None in
  let w' := snd (revoke_all user keep w) in
  ((exists id s, sessions w !! id = Some s /\ named id s /\ s_hash s = hash_token token) ->
     fst (validate token (set_now t w')) = Err Unauthorized)
  /\ (~ (exists id s, sessions w !! id = Some s /\ named id s /\ s_hash s = hash_token token) ->
      fst (validate token (set_now t w')) = fst (validate token (set_now t w))).
Proof.
  intros Hq named w'. unfold w', revoke_all.
  assert (He : forall id s, bool_decide (s_user s = user) && bool_decide (s_bridge s = None)
      && match keep with Some k => negb (bool_decide (id = k)) | None => true end && unrevoked s = true <-> named id s).
  { intros id s. unfold named. rewrite !andb_true_iff, !bool_decide_eq_true, unrevoked_spec.
    destruct keep as [k|]; [|intuition congruence]. rewrite negb_true_iff, bool_decide_eq_false.
    intuition congruence. }
  destruct (revoke_and_drop (fun id s => bool_decide (s_user s = user) && bool_decide (s_bridge s = None)
      && match keep with Some k => negb (bool_decide (id = k)) | None => true end) user w token t Hq) as [Hy Hn].
  cbv zeta beta in Hy, Hn. setoid_rewrite He in Hy. setoid_rewrite He in Hn. by split.
Qed.
End Validate.

(** ** Validations that overlap with revocations

    [validate] reads the row and stores its copy in two round trips; in
    between, other requests run. A system is the world and the reads whose
    copy is not stored yet, each with the time it was made. *)

Record Sys := mkSys { world : World; reading : list (string * SessionInfo * Z) }.

(** Nothing but [validate] writes session copies. *)
Definition no_new_copy (w w' : World) : Prop :=
  now w <= now w'
  /\ forall h v e, cache w' !! cache_key h = Some (v, e) -> cache w !! cache_key h = Some (v, e).

#[export] Instance no_new_copy_preorder : PreOrder no_new_copy.
Proof.
  split; [split; [lia|done]|]. intros w w1 w2 [H1 G1] [H2 G2]. split; [lia|eauto].
Qed.

Inductive step (slowest : Z) : Sys -> Sys -> Prop :=
| step_read w rs h i : live_row w h = Some i ->
    step slowest (mkSys w rs) (mkSys w ((h, i, now w) :: rs))
| step_store w rs rs' h i t : now w - t <= slowest ->
    step slowest (mkSys w (rs ++ (h, i, t) :: rs'))
      (mkSys (set_cache (set_json (now w) (cache_key h) (BSession i) CACHE_TTL (cache w)) w) (rs ++ rs'))
| step_give_up w rs rs' x : step slowest (mkSys w (rs ++ x :: rs')) (mkSys w (rs ++ rs'))
| step_other w w' rs : no_new_copy w w' -> step slowest (mkSys w rs) (mkSys w' rs).

(** The worlds a system went through, the latest first. *)
Inductive run (slowest : Z) : list World -> Sys -> Prop :=
| run_start w : (forall h, cache w !! cache_key h = None) -> run slowest [] (mkSys w [])
| run_step past s s' : run slowest past s -> step slowest s s' -> run slowest (world s :: past) s'.

Definition copy_sound (slowest : Z) (past : list World) (w : World) (h : string) (i : SessionInfo) (read_at : Z) : Prop :=
  exists w0, w0 ∈ w :: past /\ live_row w0 h = Some i /\ now w0 = read_at.

Lemma run_invariant slowest past s : run slowest past s ->
  (forall h i t, (h, i, t) ∈ reading s -> copy_sound slowest past (world s) h i t)
  /\ (forall h v e, cache (world s) !! cache_key h = Some (v, e) ->
        exists i t, v = Json (BSession i) /\ e <= t + slowest + ttl_ms CACHE_TTL
                    /\ copy_sound slowest past (world s) h i t).
Proof.
  assert (Hmore : forall past w w' h i t, copy_sound slowest past w h i t -> copy_sound slowest (w :: past) w' h i t).
  { intros p w w' h i t (w0 & Hin & H). exists w0. split; [|done]. by apply list_elem_of_further. }
  induction 1 as [w Hw|past s s' Hrun [IHr IHc] Hstep].
  { split; [intros h i t H; by apply not_elem_of_nil in H|]. intros h v e H. by rewrite Hw in H. }
  destruct Hstep as [w rs h i Hi|w rs rs' h i t Ht|w rs rs' x|w w' rs [Hn Hc]]; simpl in *.
  - split.
    + intros h' i' t' [E|Hin]%elem_of_cons; [injection E as -> -> ->|by apply Hmore, IHr].
      exists w. split; [apply list_elem_of_here|done].
    + intros h' v e H. destruct (IHc _ _ _ H) as (i' & t' & -> & He & Hs). exists i', t'. eauto.
  - split.
    + intros h' i' t' Hin. apply Hmore, IHr. rewrite elem_of_app in *. rewrite elem_of_cons. tauto.
    + intros h' v e H. destruct (decide (h = h')) as [->|Hne].
      * unfold set_json in H. rewrite lookup_insert_eq in H. injection H as <- <-.
        exists i, t. split; [done|]. split; [lia|]. apply Hmore, IHr. rewrite elem_of_app, elem_of_cons. tauto.
      * unfold set_json in H. rewrite lookup_insert_ne in H by (intros E; by apply Hne, cache_key_inj).
        destruct (IHc _ _ _ H) as (i' & t' & -> & He & Hs). exists i', t'. eauto.
  - split.
    + intros h' i' t' Hin. apply Hmore, IHr. rewrite elem_of_app in *. rewrite elem_of_cons. tauto.
    + intros h' v e H. destruct (IHc _ _ _ H) as (i' & t' & -> & He & Hs). exists i', t'. eauto.
  - split; [intros h' i' t' Hin; by apply Hmore, IHr|].
    intros h' v e H. destruct (IHc _ _ _ (Hc _ _ _ H)) as (i' & t' & -> & He & Hs). exists i', t'. eauto.
Qed.

Section Interleaved.
Context {X : External}.

(** An undisturbed [validate] is a hit, or a read and its store. *)
Lemma validate_steps slowest token w rs : 0 <= slowest ->
  rtc (step slowest) (mkSys w rs) (mkSys (snd (validate token w)) rs).
Proof.
  intros Hd.
  assert (Hmiss : forall i, live_row w (hash_token token) = Some i ->
    rtc (step slowest) (mkSys w rs)
      (mkSys (set_cache (set_json (now w) (cache_key (hash_token token)) (BSession i) CACHE_TTL (cache w)) w) rs)).
  { intros i Hi. eapply rtc_l; [by apply step_read|]. apply rtc_once.
    apply (step_store slowest w [] rs (hash_token token) i (now w)). lia. }
  unfold validate. run_m. destruct (get_json _ _ _ _) as [[i|]|e]; run_m.
  - destruct (now w <? expires_at i); [apply rtc_refl|]. run_m.
    destruct (live_row w (hash_token token)) as [i'|] eqn:E; [|apply rtc_refl]. run_m. by apply Hmiss.
  - destruct (live_row w (hash_token token)) as [i'|] eqn:E; [|apply rtc_refl]. run_m. by apply Hmiss.
  - apply rtc_refl.
Qed.

Lemma nnc_other (f : World -> World) : (forall w, now (f w) = now w) -> (forall w, cache (f w) = cache w) ->
  keeps no_new_copy (modify f).
Proof. intros Hn Hc w. simpl. split; rewrite ?Hn, ?Hc; [lia|done]. Qed.
Lemma nnc_del_key k : keeps no_new_copy (del_key k).
Proof. intros w. split; simpl; [lia|]. intros h v e H. unfold del in H. by apply lookup_delete_Some in H as [_ H]. Qed.
Lemma nnc_draw {A} (f : N -> A) : keeps no_new_copy (draw f).
Proof. intros w. split; simpl; [lia|done]. Qed.
Hint Resolve nnc_del_key nnc_draw : keeps.
Hint Extern 3 (keeps no_new_copy (modify _)) => (apply nnc_other; reflexivity) : keeps.
Hint Extern 3 (keeps no_new_copy (publish _)) => (apply nnc_other; reflexivity) : keeps.
Hint Extern 3 (keeps no_new_copy (forget_device _)) => (apply nnc_other; reflexivity) : keeps.

(** Every other operation of this file is a [step_other]. *)
Lemma others_write_no_copy :
  (forall user device, keeps no_new_copy (issue user device))
  /\ (forall i ip, keeps no_new_copy (touch i ip)) /\ (forall id, keeps no_new_copy (mark_step_up id))
  /\ (forall id, keeps no_new_copy (revoke_session id)) /\ (forall u d, keeps no_new_copy (revoke_device u d))
  /\ (forall u k, keeps no_new_copy (revoke_all u k)) /\ (forall u, keeps no_new_copy (invalidate_user_cache u)).
Proof.
  assert (Hd : forall u rows, keeps no_new_copy (drop_cached u rows)).
  { intros u rows. apply keeps_for_each. intros [id s]. repeat keeps_step. }
  repeat split_and!; intros;
    unfold issue, random_token, new_uuid, insert_session, approve_device, touch, mark_step_up, revoke_session,
      revoke_device, revoke_all, revoke_where, invalidate_user_cache; repeat keeps_step.
  apply keeps_for_each. intros [id s]. repeat keeps_step.
Qed.

(** C13: a token is accepted only if its session was live a moment ago. However
    reads, stores, revocations, other handlers and time interleave, if no
    validation takes longer than [slowest] between its read and its store, an
    accepted token's session was in the table, unrevoked and unexpired, with
    exactly the answered data, less than a minute plus [slowest] earlier. *)
Theorem accepted_was_live slowest past s token i : 0 <= slowest -> run slowest past s ->
  fst (validate token (world s)) = Ok i ->
  exists w0, w0 ∈ world s :: past /\ live_row w0 (hash_token token) = Some i
    /\ now (world s) - now w0 < ttl_ms CACHE_TTL + slowest.
Proof.
  intros Hd Hrun. apply run_invariant in Hrun as [_ Hc]. rewrite validate_answer. unfold get_json, live.
  assert (Hfresh : ok_or (live_row (world s) (hash_token token)) Unauthorized = Ok i ->
    exists w0, w0 ∈ world s :: past /\ live_row w0 (hash_token token) = Some i
      /\ now (world s) - now w0 < ttl_ms CACHE_TTL + slowest).
  { intros H%ok_or_ok. exists (world s). split; [apply list_elem_of_here|]. split; [done|].
    change (ttl_ms CACHE_TTL) with 60000. lia. }
  destruct (cache (world s) !! cache_key (hash_token token)) as [[v e]|] eqn:E; [|exact Hfresh].
  destruct (Z.ltb_spec (now (world s)) e) as [He|_]; [|exact Hfresh].
  destruct (Hc _ _ _ E) as (i' & t & -> & Hle & w0 & Hin & Hl & Hn). simpl.
  destruct (now (world s) <? expires_at i'); [|exact Hfresh]. intros [= <-].
  exists w0. split; [done|]. split; [done|]. lia.
Qed.

(** Signing in again revokes the device's previous session in the table,
    but not its copy: for the rest of the copy's minute the replaced token is
    still accepted. *)
Theorem replaced_token_lives_on_in_the_cache user device token w s i e t : 
  sessions w !! session_id i = Some s -> s_device s = device -> s_revoked s = None ->
  cache w !! cache_key (hash_token token) = Some (Json (BSession i), e) ->
  t < e -> t < expires_at i ->
  let w' := snd (issue user device w) in
  is_revoked w' (session_id i) = true /\ fst (validate token (set_now t w')) = Ok i.
Proof.
  intros Hs Hd Hr Hc He Ht w'. unfold w'. destruct (issue user device w) as [r w1] eqn:E. cbn [snd].
  apply issue_run in E as (w2 & Hn & Hses & Hdev & Hcache & Hr').
  assert (H : cache w1 = cache w /\ exists s', sessions w1 !! session_id i = Some s' /\ s_revoked s' <> None).
  { assert (H2 : exists s', sessions w2 !! session_id i = Some s' /\ s_revoked s' <> None).
    { exists (revoke_at (now w) s). split; [|done]. rewrite Hses. simpl. rewrite update_lookup, Hs. simpl.
      by rewrite bool_decide_true, (proj2 (unrevoked_spec s) Hr). }
    destruct Hr' as [(e' & -> & ->)|(id & s1 & w3 & Hid & _ & _ & -> & -> & _)]; [done|].
    split; [done|]. destruct H2 as (s' & H2 & Hrev). exists s'. split; [|done].
    unfold approve_device. run_m. simpl. rewrite lookup_insert_ne; [done|]. congruence. }
  destruct H as [Hc1 (s' & Hs' & Hrev)]. split.
  - unfold is_revoked. rewrite Hs'. unfold unrevoked. by rewrite bool_decide_false.
  - rewrite validate_answer. unfold get_json, live. cbn [now cache set_now]. rewrite Hc1, Hc.
    destruct (Z.ltb_spec t e); [|lia]. simpl. by destruct (Z.ltb_spec t (expires_at i)); [|lia].
Qed.
End Interleaved.

Section Race.
Context {X : External}.

Definition same_now (w w' : World) : Prop := now w' = now w.
#[export] Instance same_now_preorder : PreOrder same_now.
Proof. split; [done|]. unfold same_now. intros ? ? ?. congruence. Qed.

Definition same_sessions (w w' : World) : Prop := sessions w' = sessions w.
#[export] Instance same_sessions_preorder : PreOrder same_sessions.
Proof. split; [done|]. unfold same_sessions. intros ? ? ?. congruence. Qed.

Lemma revoke_session_now id : keeps same_now (revoke_session id).
Proof.
  unfold revoke_session, revoke_where, forget_device, publish.
  repeat first [keeps_step | apply keeps_modify; intros ?; reflexivity].
Qed.

Lemma revoke_session_revokes id w s : sessions w !! id = Some s -> s_revoked s = None ->
  is_revoked (snd (revoke_session id w)) id = true.
Proof.
  intros Hs Hr. unfold revoke_session, revoke_where. run_m.
  set (hit := fun (id0 : uuid) (s0 : SessionRow) => bool_decide (id0 = id) && unrevoked s0).
  assert (Hok : forall w2, sessions w2 = update_sessions hit (revoke_at (now w)) (sessions w) -> is_revoked w2 id = true).
  { intros w2 H. unfold is_revoked. rewrite H, update_lookup, Hs. simpl. unfold hit.
    rewrite bool_decide_true, (proj2 (unrevoked_spec s) Hr) by done. done. }
  apply Hok. match goal with |- sessions (snd (?m ?w0)) = _ => assert (Hk : keeps same_sessions m) end; [|apply Hk].
  destruct (select_sessions hit (sessions w)) as [|[id' s'] l]; unfold forget_device, publish, del_key;
    repeat first [keeps_step | apply keeps_modify; intros ?; reflexivity].
Qed.

(** The price of reading and storing in two steps: when a revocation runs
    between them, the copy stored late makes the revoked token valid again. *)
Theorem late_store_revives_a_revoked_session w token i :
  live_row w (hash_token token) = Some i ->
  let w1 := snd (revoke_session (session_id i) w) in
  let s2 := mkSys (set_cache (set_json (now w1) (cache_key (hash_token token)) (BSession i) CACHE_TTL (cache w1)) w1) [] in
  rtc (step 0) (mkSys w []) s2
  /\ is_revoked (world s2) (session_id i) = true /\ fst (validate token (world s2)) = Ok i.
Proof.
  intros Hi w1 s2. unfold s2, w1. pose proof (revoke_session_now (session_id i) w) as Hn. unfold same_now in Hn.
  pose proof Hi as Hrow. apply live_row_sound in Hrow as (id & s & u & Hs & Hh & Hr & Ht & _ & Ei).
  assert (Eid : session_id i = id) by (by rewrite Ei). rewrite Eid in *.
  pose proof (revoke_session_revokes id w s Hs Hr) as Hrev.
  split; [|split].
  - eapply rtc_l; [by apply step_read|]. eapply rtc_l.
    + apply step_other. destruct others_write_no_copy as (_ & _ & _ & Hk & _). apply (Hk id w).
    + apply rtc_once. apply (step_store 0 _ [] [] (hash_token token) i (now w)). rewrite Hn. lia.
  - exact Hrev.
  - rewrite validate_answer. unfold get_json. cbn [world now cache set_cache]. rewrite live_set.
    destruct (Z.ltb_spec (now (snd (revoke_session id w))) (now (snd (revoke_session id w)) + ttl_ms CACHE_TTL)) as [_|H];
      [|change (ttl_ms CACHE_TTL) with 60000 in H; lia].
    simpl. rewrite Hn. assert (expires_at i = s_expires s) as -> by (by rewrite Ei).
    by destruct (Z.ltb_spec (now w) (s_expires s)); [|lia].
Qed.
End Race.

(** ** Witnesses *)

Definition demo_user : UserRow := mkUser 1 "a@b.c" true None "" "" "" None false false false None no_profile.
Definition demo_device : DeviceRow := mkDevice 1 "laptop" "linux" "1.0" 0 None None.
Definition signed_in : World :=
  set_users {[1%N := demo_user]} (set_devices {[7%N := demo_device]}
    (set_sessions {[5%N := mkSession 1 7 "tok" 0 1000000 0 None (Some 0) None;
                    6%N := mkSession 1 8 "bridge" 0 1000000 0 None None (Some 9%N)]} demo_world)).
#[local] Existing Instance demo_external.

Lemma operations_keep_tables_sound_witness :
  let w := set_sessions ∅ signed_in in
  tables_sound w /\ tables_sound (snd (issue 1 7 w)) /\ exists t, fst (issue 1 7 w) = Ok t.
Proof.
  cbv zeta. assert (H : tables_sound (set_sessions ∅ signed_in)).
  { split; simpl; [intros ? ? ? ? H|intros ? ? ? ? H|intros ? ? H]; by rewrite lookup_empty in H. }
  split; [exact H|]. split; [|vm_compute; eexists; reflexivity].
  refine (proj1 (proj1 (operations_keep_tables_sound _ H) 1%N 7%N _)).
  exists demo_device. split; [vm_compute; reflexivity|reflexivity].
Defined.

Lemma signed_in_unique : hashes_unique (sessions signed_in).
Proof.
  unfold signed_in, hashes_unique. cbn [sessions set_sessions set_users set_devices].
  intros id id' s s' [[<- <-]|[_ [<- <-]%lookup_singleton_Some]]%lookup_insert_Some
    [[<- <-]|[_ [<- <-]%lookup_singleton_Some]]%lookup_insert_Some; done.
Defined.

Lemma revoke_all_signs_out_witness :
  fst (validate "tok" (set_now 10 (snd (revoke_all 1 None signed_in)))) = Err Unauthorized
  /\ is_ok (fst (validate "bridge" (set_now 10 (snd (revoke_all 1 None signed_in))))) = true.
Proof.
  split.
  - apply (revoke_all_signs_out 1 None signed_in "tok" 10 signed_in_unique).
    eexists 5%N, _. split; [vm_compute; reflexivity|]. split; [|reflexivity]. repeat split. discriminate.
  - rewrite (proj2 (revoke_all_signs_out 1 None signed_in "bridge" 10 signed_in_unique)); [vm_compute; reflexivity|].
    intros (id & s & Hs & (_ & Hb & _) & Hh). unfold signed_in in Hs. cbn [sessions set_sessions set_users set_devices] in Hs.
    apply lookup_insert_Some in Hs as [[<- <-]|[_ [<- <-]%lookup_singleton_Some]]; [discriminate Hh|discriminate Hb].
Defined.

Lemma accepted_was_live_witness :
  exists past w i, run 5 past (mkSys w []) /\ fst (validate "tok" w) = Ok i
    /\ exists w0, w0 ∈ w :: past /\ live_row w0 "tok" = Some i /\ now w - now w0 < 60005.
Proof.
  pose (w1 := snd (validate "tok" signed_in)). pose (w2 := set_now 59999 (set_sessions ∅ w1)).
  assert (Hrun : run 5 [w1; signed_in; signed_in] (mkSys w2 [])).
  { apply (run_step 5 _ (mkSys w1 [])); [|].
    - apply (run_step 5 _ (mkSys signed_in [("tok", info_of 5 (mkSession 1 7 "tok" 0 1000000 0 None (Some 0) None) demo_user, 0)])).
      + apply (run_step 5 _ (mkSys signed_in [])); [|apply step_read; vm_compute; reflexivity].
        apply run_start. intros h. vm_compute. reflexivity.
      + apply (step_store 5 signed_in [] [] "tok"). vm_compute. discriminate.
    - apply step_other. split; [vm_compute; discriminate|]. intros h v e H. exact H. }
  exists [w1; signed_in; signed_in], w2, (info_of 5 (mkSession 1 7 "tok" 0 1000000 0 None (Some 0) None) demo_user).
  assert (Hv : fst (validate "tok" w2) = Ok (info_of 5 (mkSession 1 7 "tok" 0 1000000 0 None (Some 0) None) demo_user)).
  { vm_compute. reflexivity. }
  split; [exact Hrun|]. split; [exact Hv|].
  apply (accepted_was_live 5 _ _ "tok" _ ltac:(lia) Hrun Hv).
Defined.

Lemma replaced_token_lives_on_in_the_cache_witness :
  let w := snd (validate "tok" signed_in) in
  fst (validate "tok" (set_now 59999 (snd (issue 1 7 w)))) = fst (validate "tok" signed_in)
  /\ is_revoked (snd (issue 1 7 w)) 5 = true.
Proof.
  cbv zeta.
  destruct (replaced_token_lives_on_in_the_cache 1 7 "tok" (snd (validate "tok" signed_in))
     (mkSession 1 7 "tok" 0 1000000 0 None (Some 0) None)
     (info_of 5 (mkSession 1 7 "tok" 0 1000000 0 None (Some 0) None) demo_user) 60000 59999) as [H1 H2];
    [vm_compute; reflexivity..|]. split; [exact H2|exact H1].
Defined.

Lemma late_store_revives_a_revoked_session_witness :
  let i := info_of 5 (mkSession 1 7 "tok" 0 1000000 0 None (Some 0) None) demo_user in
  exists s, rtc (step 0) (mkSys signed_in []) s /\ is_revoked (world s) 5 = true /\ fst (validate "tok" (world s)) = Ok i.
Proof.
  cbv zeta. eexists. apply (late_store_revives_a_revoked_session signed_in "tok"
    (info_of 5 (mkSession 1 7 "tok" 0 1000000 0 None (Some 0) None) demo_user)). vm_compute. reflexivity.
Defined.
