(* ===== verification/Codes.v ===== *)
(** * One-time codes and flow tokens

    [crates/termoso-server/src/codes.rs] and the helpers of [util.rs]: codes
    mailed to a user, kept in Redis under a purpose and a token with the hash
    of the code, and the opaque tokens between the requests of a flow. *)
From Stdlib Require Import Ascii.
From S2P Require Import Prelude Text VaultAccess Backend Server.

#[local] Open Scope string_scope.
#[local] Open Scope list_scope.
#[local] Open Scope Z_scope.

(** ** Helpers ([util.rs]) *)

Definition is_alphanumeric (b : Z) : bool :=
  ((48 <=? b) && (b <=? 57)) || ((65 <=? b) && (b <=? 90)) || ((97 <=? b) && (b <=? 122)).
Definition normalize_code (code : string) : string :=
  of_bytes (lowercase (filter (fun b => is_alphanumeric b = true) (as_bytes code))).

Definition constant_time_eq (a b : string) : bool :=
  (String.length a =? String.length b)%nat && bool_decide (as_bytes a = as_bytes b).

Definition mask_email (email : string) : string :=
  match split_once "@"%char email with
  | Some (local, domain) => of_bytes (default [] (head (chars (as_bytes local)))) +:+ "***@" +:+ domain
  | None => "***"
  end.

Section Codes.
Context {X : External}.

Definition normalize_email (email : string) : option string :=
  let e := to_lowercase (trim email) in
  '(local, domain) ← split_once "@"%char e;
  if bool_decide (local = "") || bool_decide (domain = "") || negb (contains_char "."%char domain)
     || (254 <? String.length e)%nat
  then None
  else if existsb (fun c => negb (space_at c =? 0)%nat || bool_decide (c ∈ [[60]; [62]; [44]])) (chars (as_bytes e))
  then None else Some e.

(** ** Codes *)

Definition key (purpose token : string) : string := "code:" +:+ purpose +:+ ":" +:+ token.

(** [Stored<T>] read at a type of payload. *)
Definition as_stored {A} (as_a : CodePayload -> option A) (b : Body) : option (string * A) :=
  s ← as_code b; p ← as_a (payload s); Some (code_hash s, p).
Definition as_user p := match p with CUser u => Some u | _ => None end.
Definition as_approval p := match p with CApproval f => Some f | _ => None end.
Definition as_email p := match p with CEmail e => Some e | _ => None end.

Definition issue_for (purpose token : string) (p : CodePayload) (ttl : Z) : M string :=
  code ← numeric_code;
  _ ← set_key (key purpose token) (BCode (mkStored (hash_token code) p)) ttl;
  mret code.

Definition issue (purpose : string) (p : CodePayload) (ttl : Z) : M (string * string) :=
  token ← random_token;
  code ← issue_for purpose token p ttl;
  mret (token, code).

Definition peek {A} (as_a : CodePayload -> option A) (purpose token : string) : M A :=
  stored ← get_key (as_stored as_a) (key purpose token);
  stored ← of_option stored TokenExpired;
  mret (snd stored).

(** A fresh code for a token that is still there. *)
Definition reissue {A} (as_a : CodePayload -> option A) (of_a : A -> CodePayload) (purpose token : string) (ttl : Z) :
    M (A * string) :=
  stored ← get_key (as_stored as_a) (key purpose token);
  stored ← of_option stored TokenExpired;
  code ← numeric_code;
  _ ← set_key (key purpose token) (BCode (mkStored (hash_token code) (of_a (snd stored)))) ttl;
  mret (snd stored, code).

Definition guess_subject (purpose token : string) : string := purpose +:+ ":" +:+ hash_token token.

Definition verify {A} (as_a : CodePayload -> option A) (purpose token code : string) : M A :=
  _ ← limit CODE_GUESS (guess_subject purpose token);
  stored ← get_key (as_stored as_a) (key purpose token);
  stored ← of_option stored TokenExpired;
  if negb (constant_time_eq (fst stored) (hash_token (normalize_code code))) then fail InvalidCode else
  _ ← del_key (key purpose token);
  mret (snd stored).

(** ** Flow tokens *)

Definition put_flow (purpose : string) (b : Body) (ttl : Z) : M string :=
  token ← random_token; _ ← set_key (key purpose token) b ttl; mret token.
Definition take_flow {A} (as_a : Body -> option A) (purpose token : string) : M A :=
  o ← on_cache (fun t => take_json as_a t (key purpose token)); of_option o TokenExpired.
Definition get_flow {A} (as_a : Body -> option A) (purpose token : string) : M A :=
  o ← get_key as_a (key purpose token); of_option o TokenExpired.
Definition set_flow (purpose token : string) (b : Body) (ttl : Z) : M unit := set_key (key purpose token) b ttl.
Definition del_flow (purpose token : string) : M unit := del_key (key purpose token).
End Codes.

(** ** Keys *)

Definition no_colon (s : string) : Prop := Forall (fun b => b <> 58) (as_bytes s).

Lemma split_at_colon (a a' b b' : bytes) : Forall (fun x => x <> 58) a -> Forall (fun x => x <> 58) a' ->
  a ++ 58 :: b = a' ++ 58 :: b' -> a = a' /\ b = b'.
Proof.
  intros Ha Ha'. revert a' Ha'. induction Ha as [|x a Hx Ha IH]; intros a' Ha' E;
    destruct Ha' as [|x' a' Hx' Ha']; simplify_eq/=; [done|].
  match goal with H : _ ++ _ = _ ++ _ |- _ => by destruct (IH a' Ha' H) as [-> ->] end.
Qed.

(** Different purposes never meet, whatever token a client sends. *)
Lemma key_inj purpose purpose' token token' : no_colon purpose -> no_colon purpose' ->
  key purpose token = key purpose' token' -> purpose = purpose' /\ token = token'.
Proof.
  intros H H' E%(f_equal as_bytes). unfold key in E. rewrite !as_bytes_app in E. apply app_inv_head in E.
  apply split_at_colon in E as [E1%as_bytes_inj E2%as_bytes_inj]; done.
Qed.

Lemma key_not_rl purpose token l subject : key purpose token <> rl_key l subject.
Proof. unfold key, rl_key. discriminate. Qed.
Lemma key_not_session purpose token h : key purpose token <> "sess:" +:+ h.
Proof. unfold key. discriminate. Qed.
#[export] Hint Resolve key_not_rl key_not_session : termoso.

(** ** Guessing *)

Lemma rl_check_entry {J} l subject t (c c' : Cache J) : c !! rl_key l subject = c' !! rl_key l subject ->
  fst (rl_check l subject t c) = fst (rl_check l subject t c')
  /\ snd (rl_check l subject t c) !! rl_key l subject = snd (rl_check l subject t c') !! rl_key l subject.
Proof.
  intros E. unfold rl_check, incr_window, counter, live. rewrite E.
  destruct (match _ with Some _ => _ | None => _ end) as [n|e]; [|done].
  destruct (n <? i64_max); [|done]. destruct (l_max l <? n + 1); simpl; by rewrite !lookup_insert_eq.
Qed.

Lemma rl_check_elsewhere {J} l subject t (c : Cache J) k : k <> rl_key l subject -> snd (rl_check l subject t c) !! k = c !! k.
Proof.
  intros Hk. unfold rl_check, incr_window. destruct (counter _ _ _) as [n|x]; [|done].
  destruct (n <? i64_max); [destruct (_ <? _)|]; simpl; by rewrite ?lookup_insert_ne by done.
Qed.

Lemma limit_run l subject w : limit l subject w =
  (fst (rl_check l subject (now w) (cache w)), set_cache (snd (rl_check l subject (now w) (cache w))) w).
Proof. unfold limit, on_cache. by destruct (rl_check l subject (now w) (cache w)). Qed.

Lemma rl_check_errs {J} l subject t (c : Cache J) e : fst (rl_check l subject t c) = Err e ->
  (exists after, e = RateLimited after) \/ exists what, e = Internal what.
Proof.
  unfold rl_check, incr_window. destruct (counter _ _ _) as [n|x] eqn:Ec.
  - destruct (n <? i64_max); [destruct (_ <? _)|]; simpl; intros [= <-]; eauto.
  - simpl. intros [= <-]. unfold counter in Ec. destruct (live _ _ _) as [[j|n]|]; simplify_eq; eauto.
Qed.

Section Guessing.
Context {X : External} {A : Type} (as_a : CodePayload -> option A) (of_a : A -> CodePayload).
Context (purpose token : string).

Let k := rl_key CODE_GUESS (guess_subject purpose token).

(** What happens to a token over time: guesses, new codes for it, and
    anything else the server does that leaves the guess counter alone. *)
Inductive Op : Type := Guess (t : Z) (code : string) | Again (t ttl : Z) | Elsewhere (f : World -> World).

Definition leaves_counter (o : Op) : Prop :=
  match o with Elsewhere f => forall w, cache (f w) !! k = cache w !! k | _ => True end.

Fixpoint guess_times (ops : list Op) : list Z :=
  match ops with [] => [] | Guess t _ :: ops => t :: guess_times ops | _ :: ops => guess_times ops end.

(** The answers to the guesses. *)
Fixpoint play (ops : list Op) (w : World) : list (result ApiError A) :=
  match ops with
  | [] => []
  | Guess t code :: ops =>
      let '(r, w') := verify as_a purpose token code (set_now t w) in r :: play ops w'
  | Again t ttl :: ops => play ops (snd (reissue as_a of_a purpose token ttl (set_now t w)))
  | Elsewhere f :: ops => play ops (f w)
  end.

(** A guess whose code was compared with the one issued. *)
Definition compared (r : result ApiError A) : bool :=
  match r with Ok _ | Err InvalidCode => true | _ => false end.

Lemma reissue_entry ttl w : cache (snd (reissue as_a of_a purpose token ttl w)) !! k = cache w !! k.
Proof.
  unfold reissue, numeric_code. run_m. destruct (get_json _ _ _ _) as [o|e]; [|done]. unfold of_option.
  rewrite bind_run. destruct o as [[h a]|]; [|done]. unfold lift. cbn [ok_or]. run_m.
  unfold mret, M_ret. cbn. unfold set_json. rewrite lookup_insert_ne; [done|apply key_not_rl].
Qed.

Lemma verify_entry code w :
  cache (snd (verify as_a purpose token code w)) !! k
  = snd (rl_check CODE_GUESS (guess_subject purpose token) (now w) (cache w)) !! k
  /\ (compared (fst (verify as_a purpose token code w)) = true ->
      is_ok (fst (rl_check CODE_GUESS (guess_subject purpose token) (now w) (cache w))) = true).
Proof.
  unfold verify, limit, on_cache. rewrite bind_run.
  destruct (rl_check CODE_GUESS _ _ _) as [[u|e] c] eqn:E.
  - split; [|done]. run_m. destruct (get_json _ _ _ _) as [o|e]; [|done]. unfold of_option. rewrite bind_run.
    destruct o as [[h a]|]; [|done]. unfold lift. cbn [ok_or fst]. destruct (negb _); [done|]. run_m. cbn.
    unfold del. rewrite lookup_delete_ne; [done|apply key_not_rl].
  - split; [done|]. intros H. apply (f_equal fst), rl_check_errs in E. by destruct E as [[ra ->]|[what ->]].
Qed.

Lemma play_compared ops w (c : Cache Body) : Forall leaves_counter ops -> cache w !! k = c !! k ->
  passes (map compared (play ops w)) <= passes (fst (rl_checks CODE_GUESS (guess_subject purpose token) (guess_times ops) c)).
Proof.
  intros Hops. revert w c. induction Hops as [|o ops Ho Hops IH]; intros w c Ec; [done|].
  destruct o as [t code|t ttl|f]; cbn [play guess_times].
  - destruct (verify_entry code (set_now t w)) as [He Hc].
    destruct (rl_check_entry CODE_GUESS (guess_subject purpose token) t (cache w) c Ec) as [H1 H2].
    destruct (verify as_a purpose token code (set_now t w)) as [r w'] eqn:Ev. cbn [fst snd now cache set_now] in *.
    cbn [rl_checks map]. rewrite passes_cons.
    rewrite H1 in Hc.
    destruct (rl_check CODE_GUESS (guess_subject purpose token) t c) as [r1 c1] eqn:E1. cbn [fst snd] in *.
    specialize (IH w' c1). destruct (rl_checks _ _ (guess_times ops) c1) as [rs c2].
    cbn [fst] in *. rewrite passes_cons.
    assert (IH' := IH ltac:(by rewrite He)). destruct (compared r); [rewrite Hc by done; lia|].
    destruct (is_ok r1); lia.
  - apply IH. by rewrite reissue_entry.
  - apply IH. by rewrite (Ho w).
Qed.

(** C26: whatever the client sends and however often a new code is asked for,
    in any quarter of an hour at most twelve guesses for one purpose and token
    are compared with a code. *)
Theorem guesses_are_bounded ops w t0 : Forall leaves_counter ops -> counts CODE_GUESS (guess_subject purpose token) (cache w) ->
  Sorted Z.le (guess_times ops) -> Forall (fun t => t0 <= t < t0 + 15 * 60 * 1000) (guess_times ops) ->
  passes (map compared (play ops w)) <= 12.
Proof.
  intros Hops Hc Hs Ht. etrans; [by apply (play_compared ops w (cache w))|].
  assert (Hb : 0 <= l_max CODE_GUESS) by (simpl; lia).
  eapply limit_burst; [exact Hb|exact Hc|exact Hs|exact Ht].
Qed.
End Guessing.

Section Once.
Context {X : External} {A : Type} (as_a : CodePayload -> option A).

Lemma hash_eq_refl s : constant_time_eq s s = true.
Proof. unfold constant_time_eq. by rewrite Nat.eqb_refl, bool_decide_true. Qed.

(** The code issued for a token opens it once: presented before it
    expires, while the guess budget lasts, it yields the payload it was issued
    for, and any later guess for that token finds nothing. *)
Theorem issued_code_opens_once purpose token p a ttl w code w1 t t' other :
  issue_for purpose token p ttl w = (Ok code, w1) ->
  as_a p = Some a -> normalize_code (code_at (drawn w)) = code_at (drawn w) ->
  t < now w + ttl_ms ttl -> live t (cache w) (rl_key CODE_GUESS (guess_subject purpose token)) = None ->
  let answer := verify as_a purpose token code (set_now t w1) in
  fst answer = Ok a /\ compared (fst (verify as_a purpose token other (set_now t' (snd answer)))) = false.
Proof.
  unfold issue_for, numeric_code. run_m. intros [= <- <-] Ha Hn Ht Hl. cbv zeta.
  match goal with |- fst ?m = _ /\ _ =>
    enough (exists w2, m = (Ok a, w2) /\ compared (fst (verify as_a purpose token other (set_now t' w2))) = false)
      as (w2 & E & H); [rewrite !E; cbn [fst snd]; by split|] end.
  unfold verify at 1, limit, on_cache. rewrite bind_run. cbn [now cache set_now set_cache set_drawn drawn].
  assert (Hl' : live t (set_json (now w) (key purpose token) (BCode (mkStored (hash_token (code_at (drawn w))) p)) ttl (cache w))
            (rl_key CODE_GUESS (guess_subject purpose token)) = None).
  { rewrite live_set_ne; [done|apply key_not_rl]. }
  destruct (rl_check_dead CODE_GUESS (guess_subject purpose token) t _ Hl') as (r & Hr & Hok). rewrite Hr.
  destruct r as [u|e]; [|done]. run_m. cbn [now cache set_now set_cache].
  unfold get_json. unfold live at 1. rewrite lookup_insert_ne by (intros E; symmetry in E; by apply key_not_rl in E).
  unfold set_json at 1. rewrite lookup_insert_eq. destruct (Z.ltb_spec t (now w + ttl_ms ttl)); [|lia].
  unfold as_stored at 1. cbn [as_code mbind option_bind payload code_hash]. rewrite Ha. cbn [mbind option_bind].
  unfold of_option, lift. rewrite bind_run. cbn [ok_or fst snd]. rewrite Hn, hash_eq_refl. cbn [negb]. run_m.
  unfold mret, M_ret. eexists. split; [done|].
  unfold verify, limit, on_cache. rewrite bind_run. cbn [now cache set_now set_cache].
  match goal with |- context [rl_check _ _ t' ?c] => destruct (rl_check CODE_GUESS (guess_subject purpose token) t' c) as [r2 c2] eqn:E2 end.
  assert (Hdead : live t' c2 (key purpose token) = None).
  { apply (f_equal snd) in E2. simpl in E2. subst c2. unfold rl_check.
    match goal with |- live _ (snd (match ?i with _ => _ end)) _ = _ => destruct i as [[[n' ttl']|e'] c'] eqn:Ei end; simpl;
      apply (f_equal snd) in Ei; simpl in Ei; subst c';
      rewrite incr_window_other by (intros E; symmetry in E; by apply key_not_rl in E);
      unfold live, del; by rewrite lookup_delete_eq. }
  destruct r2 as [u2|e2].
  - run_m. unfold get_json. cbn [now cache set_now set_cache]. rewrite Hdead. done.
  - apply (f_equal fst), rl_check_errs in E2. by destruct E2 as [[ra ->]|[what ->]].
Qed.
End Once.

#[local] Existing Instance demo_external.

Lemma guesses_are_bounded_witness :
  let ops := repeat (Guess 5 "000000") 6 ++ [Again 6 600; Guess 7 "123456"; Elsewhere (set_drawn 0); Guess 899999 "1"] in
  passes (map compared (play as_user CUser "mfa_email" "t" ops demo_world)) <= 12.
Proof.
  cbv zeta. apply (guesses_are_bounded as_user CUser "mfa_email" "t" _ demo_world 0).
  - repeat constructor.
  - intros v e H. vm_compute in H. discriminate.
  - repeat constructor; lia.
  - repeat constructor; vm_compute; discriminate.
Defined.

Lemma issued_code_opens_once_witness :
  let w1 := snd (issue_for "email_verify" "u" (CUser 3%N) 1800 demo_world) in
  fst (verify as_user "email_verify" "u" "100000" (set_now 1799999 w1)) = Ok 3%N.
Proof.
  cbv zeta.
  refine (proj1 (issued_code_opens_once as_user "email_verify" "u" (CUser 3%N) 3%N 1800 demo_world "100000" _ 1799999
    1 "100000" _ _ _ _ _)); vm_compute; reflexivity.
Defined.
