(* ===== verification/Trust.v ===== *)
(** * Who may sign in at all

    [crates/termoso-server/src/trust.rs] (network allow-lists and devices an
    administrator has to approve), [enterprise.rs] (single sign-on only, the
    home team) and the sign-in half of [policy.rs]. *)
From Stdlib Require Import Ascii.
From stdpp Require Import pretty.
From S2P Require Import Prelude Text VaultAccess Backend Server Net Sessions.

#[local] Open Scope string_scope.
#[local] Open Scope list_scope.
#[local] Open Scope Z_scope.

(** ** Networks *)

Definition is_ipv4 (ip : IpAddr) : bool := match ip with V4 _ => true | V6 _ => false end.
Definition max_bits (ip : IpAddr) : Z := if is_ipv4 ip then 32 else 128.

Definition parse_cidr (s : string) : option (IpAddr * Z) :=
  '(ip, bits) ← match split_once "/"%char s with
                | Some (a, b) =>
                    ip ← parse_ip (trim a); bits ← parse_uint 255 (as_bytes (trim b)); Some (ip, bits)
                | None => ip ← parse_ip (trim s); Some (ip, max_bits ip)
                end;
  if bits <=? max_bits ip then Some (ip, bits) else None.

(** [uW::MAX << (W - bits)]. *)
Definition mask (width bits : Z) : Z := Z.land (Z.shiftl (2 ^ width - 1) (width - bits)) (2 ^ width - 1).

(** [Ipv6Addr::to_ipv4_mapped]. *)
Definition to_ipv4_mapped (segments : list Z) : option bytes :=
  match segments with
  | [0; 0; 0; 0; 0; 65535; a; b] => Some (be_bytes 2 a ++ be_bytes 2 b)
  | _ => None
  end.

Definition same_network (width bits : Z) (net ip : bytes) : bool :=
  (bits =? 0)
  || (Z.land (from_be net) (mask width bits) =? Z.land (from_be ip) (mask width bits)).

Definition cidr_contains (net : IpAddr) (bits : Z) (ip : IpAddr) : bool :=
  match net, ip with
  | V4 n, V4 i => same_network 32 bits n i
  | V6 n, V6 i => same_network 128 bits (octets (V6 n)) (octets (V6 i))
  | V4 n, V6 i => match to_ipv4_mapped i with Some i4 => same_network 32 bits n i4 | None => false end
  | V6 _, V4 _ => false
  end.

Definition ip_allowed (list : list string) (ip : option IpAddr) : bool :=
  match list with
  | [] => true
  | _ => match ip with
         | None => false
         | Some ip => existsb (fun '(n, b) => cidr_contains n b ip) (omap parse_cidr list)
         end
  end.

Definition MAX_ALLOWLIST : nat := 100.
Definition show_cidr (ip : IpAddr) (bits : Z) : string := show_ip ip +:+ "/" +:+ pretty bits.

Fixpoint normalize_entries (input out : list string) : result string (list string) :=
  match input with
  | [] => Ok out
  | raw :: input =>
      let s := trim raw in
      if bool_decide (s = "") then normalize_entries input out else
      match parse_cidr s with
      | None => Err (s +:+ " is not an IP address or CIDR")
      | Some (ip, bits) =>
          let norm := show_cidr ip bits in
          normalize_entries input (if bool_decide (norm ∈ out) then out else out ++ [norm])
      end
  end.
Definition normalize_allowlist (input : list string) : result string (list string) :=
  out ← normalize_entries input [];
  if (MAX_ALLOWLIST <? length out)%nat then Err "ip_allowlist holds at most 100 entries" else Ok out.

(** ** The gate *)

Record GateRow := mkGate { g_team : uuid; g_created : Z; g_name : string; g_allowlist : list string; g_admin : bool }.

Definition older (a b : GateRow) : Prop := g_created a <= g_created b.
#[export] Instance older_dec : RelDecision older.
Proof. intros a b. unfold older. apply _. Defined.

(** The teams of a user that gate sign-ins, oldest first. *)
Definition gate_rows (w : World) (user : uuid) : list GateRow :=
  merge_sort older
    (omap (fun '(team, u, _) =>
             if decide (u = user) then
               p ← policies w !! team; t ← teams w !! team;
               if (negb (bool_decide (tp_allowlist p = []))) || tp_admin_approval p
               then Some (mkGate team (t_created t) (t_name t) (tp_allowlist p) (tp_admin_approval p)) else None
             else None) (team_members w)).

Definition send_mail (to subject body : string) : M unit :=
  modify (fun w => set_mails (mails w ++ [(to, subject, body)]) w).

Definition notify_admins (team user : uuid) (name : string) : M unit :=
  on ← asks (fun w => mailer (cfg w));
  if negb on then mret tt else
  who ← asks (fun w => match users w !! user with Some u => u_email u | None => "" end);
  rows ← asks (fun w => take 20 (omap (fun '(t, u, role) =>
             if decide (t = team /\ (role = "owner" \/ role = "admin")) then u_email <$> users w !! u else None)
             (team_members w)));
  for_each rows (fun to => send_mail to ("New device waiting for approval: " +:+ name) who).

Definition gate_one (user device : uuid) (addr : option IpAddr) (g : GateRow) : M unit :=
  if negb (ip_allowed (g_allowlist g) addr) then fail (IpNotAllowed (g_team g)) else
  if negb (g_admin g) then mret tt else
  status ← asks (fun w => approvals w !! (g_team g, device));
  if bool_decide (status = Some "approved") then mret tt else
  if bool_decide (status = Some "rejected") then fail (DeviceRejected (g_team g)) else
  _ ← (if bool_decide (status = None) then
         _ ← modify (fun w => set_approvals (<[(g_team g, device) := "pending"]> (approvals w)) w);
         notify_admins (g_team g) user (g_name g)
       else mret tt);
  fail (DevicePending (g_team g)).

Definition gate (user device : uuid) (ip : option string) : M unit :=
  rows ← asks (fun w => gate_rows w user);
  for_each rows (gate_one user device (ip ≫= parse_ip)).

(** Devices with a session when a team switches the approval on. *)
Definition grandfather_devices (team : uuid) : M unit :=
  modify (fun w =>
    set_approvals (map_fold (fun id d acc =>
        if bool_decide ((team, d_user d) ∈ map fst (team_members w))
           && negb (bool_decide (select_sessions (fun _ s => bool_decide (s_device s = id)) (sessions w) = []))
           && bool_decide (acc !! (team, id) = None)
        then <[(team, id) := "approved"]> acc else acc) (approvals w) (devices w)) w).

(** ** Single sign-on *)

Definition updated_before (a b : uuid * TeamPolicy) : Prop := tp_updated (snd a) <= tp_updated (snd b).
#[export] Instance updated_before_dec : RelDecision updated_before.
Proof. intros a b. unfold updated_before. apply _. Defined.

Definition claims (w : World) (domain : string) (x : uuid * TeamPolicy) : bool :=
  let p := tp_row (snd x) in
  p_sso_only p && bool_decide (domain ∈ p_domains p)
  && match teams w !! fst x with
     | Some t => negb (bool_decide (p_provider p = Some "team")) || t_idp t
     | None => false
     end.

(** [SELECT .. WHERE p.sso_only AND .. ORDER BY p.updated_at LIMIT 1]. *)
Definition domain_claim (w : World) (email : string) : option (uuid * option string) :=
  let domain := ascii_lower (domain_of email) in
  if bool_decide (domain = "") then None else
  (fun x : uuid * TeamPolicy => (fst x, p_provider (tp_row (snd x)))) <$>
    head (merge_sort updated_before (filter (fun x => claims w domain x = true) (map_to_list (policies w)))).

Definition is_team_owner_email `{External} (w : World) (team : uuid) (email : string) : bool :=
  existsb (fun m : uuid * uuid * string =>
    bool_decide (fst (fst m) = team) && bool_decide (snd m = "owner")
    && match users w !! snd (fst m) with Some x => bool_decide (to_lowercase (u_email x) = to_lowercase email) | None => false end)
    (team_members w).

Definition resolve_provider (team : uuid) (provider : option string) : string :=
  match provider with
  | Some p => if decide (p = "team") then "team-" +:+ pretty team else p
  | None => ""
  end.

Definition is_bootstrap_admin (w : World) (email : string) : bool := bool_decide (email ∈ admin_emails (cfg w)).

Section Enterprise.
Context {X : External}.

Definition require_sso (sso_verified : bool) (email : string) : M unit :=
  boot ← asks (fun w => is_bootstrap_admin w email);
  if sso_verified || boot then mret tt else
  refuse ← asks (fun w => sso_only (settings w));
  if (refuse : bool) then p ← asks (fun w => discover_provider (cfg w) email); fail (SsoRequired p) else mret tt.

Definition require_team_sso (sso_verified : bool) (email : string) : M unit :=
  boot ← asks (fun w => is_bootstrap_admin w email);
  if sso_verified || boot then mret tt else
  claim ← asks (fun w => domain_claim w email);
  match claim with
  | None => mret tt
  | Some (team, provider) =>
      configured ← asks (fun w => match provider with
                                  | Some p => bool_decide (p = "team") || has_provider (cfg w) p
                                  | None => false
                                  end);
      owner ← asks (fun w => is_team_owner_email w team email);
      if negb configured || owner then mret tt else fail (SsoRequired (Some (resolve_provider team provider)))
  end.

Definition mandatory_device_approval (w : World) (user : uuid) : bool :=
  existsb p_device_approval (rows_for w user).

Definition by_id (user : uuid) : M UserRow :=
  u ← asks (fun w => users w !! user); of_option u (Missing "User").

Definition ensure_home_team (user : uuid) : M unit :=
  s ← asks settings;
  match home_team_id s with
  | None => mret tt
  | Some team =>
      on ← asks (fun w => mailer (cfg w));
      verified ← (if (on : bool) then u ← by_id user; mret (u_verified u) else mret true);
      if negb verified then mret tt else
      role ← asks (fun w => t ← teams w !! team; t_default_role t);
      match role with
      | None => mret tt
      | Some slug =>
          member ← asks (fun w => bool_decide ((team, user) ∈ map fst (team_members w)));
          if (member : bool) then mret tt else
          _ ← modify (fun w => set_team_members (team_members w ++
                [(team, user, if decide (slug = "admin") then "admin" else "member")]) w);
          publish (TeamsUpdated user)
      end
  end.
End Enterprise.

(** ** Team policies on sessions and domains ([policy.rs]) *)

Definition MAX_DOMAINS : nat := 50.

Definition shorten_sessions (team : uuid) (hours : Z) : M Z :=
  w ← asks id;
  let cap s := s_created s + hours * 3600 * second in
  let hit := fun (_ : uuid) s => unrevoked s && (cap s <? s_expires s)
                   && bool_decide ((team, s_user s) ∈ map fst (team_members w)) in
  _ ← modify (set_sessions (update_sessions hit (fun s => mkSession (s_user s) (s_device s) (s_hash s) (s_created s)
         (cap s) (s_last_used s) (s_revoked s) (s_reauth s) (s_bridge s)) (sessions w)));
  mret (Z.of_nat (length (select_sessions hit (sessions w)))).

Fixpoint drop_at (l : bytes) : bytes := match l with 64 :: l' => drop_at l' | _ => l end.
Definition domain_char (b : Z) : bool :=
  ((48 <=? b) && (b <=? 57)) || ((65 <=? b) && (b <=? 90)) || ((97 <=? b) && (b <=? 122)) || (b =? 46) || (b =? 45).

Fixpoint normalize_domain_list (input out : list string) : result string (list string) :=
  match input with
  | [] => Ok out
  | d :: input =>
      let d := of_bytes (lowercase (drop_at (trim_bytes (as_bytes d)))) in
      if bool_decide (d = "") then normalize_domain_list input out else
      if (253 <? String.length d)%nat || negb (contains_char "."%char d) || negb (forallb domain_char (as_bytes d))
      then Err ("`" +:+ d +:+ "` is not a valid domain")
      else normalize_domain_list input (if bool_decide (d ∈ out) then out else out ++ [d])
  end.
Definition normalize_domains (input : list string) : result string (list string) :=
  out ← normalize_domain_list input [];
  if (MAX_DOMAINS <? length out)%nat then Err "At most 50 domains" else Ok out.

(** ** Networks: what an entry contains *)

Lemma mask_testbit width bits i : 0 <= bits <= width -> 0 <= i ->
  Z.testbit (mask width bits) i = (width - bits <=? i) && (i <? width).
Proof.
  intros Hb Hi. unfold mask. rewrite Z.land_spec, Z.shiftl_spec by done.
  rewrite Z.sub_1_r, <- Z.ones_equiv.
  rewrite !Z.testbit_ones by lia. z_cases.
Qed.

(** The first [bits] bits of two addresses agree. *)
Definition agree (width bits : Z) (a b : bytes) : Prop :=
  forall i, width - bits <= i < width -> Z.testbit (from_be a) i = Z.testbit (from_be b) i.

Lemma same_network_spec width bits a b : 0 <= bits <= width ->
  same_network width bits a b = true <-> agree width bits a b.
Proof.
  intros Hb. unfold same_network, agree. rewrite orb_true_iff, !Z.eqb_eq. split.
  - intros [->|E] i Hi; [lia|]. apply (f_equal (fun z => Z.testbit z i)) in E. rewrite !Z.land_spec in E.
    rewrite !mask_testbit in E by lia.
    destruct (Z.leb_spec (width - bits) i), (Z.ltb_spec i width); try lia. by rewrite !andb_true_r in E.
  - intros H. right. apply Z.bits_inj'. intros i Hi. rewrite !Z.land_spec, !mask_testbit by lia.
    destruct (Z.leb_spec (width - bits) i), (Z.ltb_spec i width); rewrite ?andb_false_r, ?andb_true_r; [|done..].
    apply H. lia.
Qed.

Lemma parse_cidr_ok s net bits : parse_cidr s = Some (net, bits) -> well_formed net /\ 0 <= bits <= max_bits net.
Proof.
  unfold parse_cidr. intros ([ip b] & H & Hb)%bind_Some. destruct (Z.leb_spec b (max_bits ip)); [|done].
  injection Hb as -> ->. destruct (split_once "/"%char s) as [[x y]|].
  - apply bind_Some in H as (ip & Hip & (n & Hn & [= <- <-])%bind_Some). split; [by apply parse_ip_ok in Hip|].
    apply parse_uint_range in Hn; lia.
  - apply bind_Some in H as (ip & Hip & [= <- <-]). split; [by apply parse_ip_ok in Hip|].
    unfold max_bits. destruct (is_ipv4 ip); lia.
Qed.

(** The address an entry sees: an IPv4 network also sees the IPv4 address an
    IPv6 socket reports in mapped form. *)
Definition seen_by (net ip : IpAddr) : option bytes :=
  match net, ip with
  | V4 _, V4 o => Some o
  | V4 _, V6 s => to_ipv4_mapped s
  | V6 _, V6 s => Some (octets (V6 s))
  | V6 _, V4 _ => None
  end.

(** an allow-list admits an address exactly when one of its well-formed
    entries is of its kind and agrees with it on the network's bits, counted
    on the 32- or 128-bit address; an empty list admits everything, a list
    without an address admits nothing. *)
Theorem allowlist_admits_exactly list ip :
  ip_allowed list ip = true <->
  list = [] \/ exists addr entry net bits o, ip = Some addr /\ entry ∈ list /\ parse_cidr entry = Some (net, bits)
    /\ seen_by net addr = Some o /\ agree (max_bits net) bits (octets net) o.
Proof.
  assert (Hc : forall net bits addr, 0 <= bits <= max_bits net ->
    cidr_contains net bits addr = true <-> exists o, seen_by net addr = Some o /\ agree (max_bits net) bits (octets net) o).
  { intros net bits addr Hb. unfold cidr_contains, seen_by, max_bits in *. destruct net as [n|n], addr as [i|i]; cbn [is_ipv4] in *.
    - rewrite same_network_spec by done. split; [eauto|]. by intros (o & [= <-] & H).
    - destruct (to_ipv4_mapped i) as [o|]; [|split; [done|by intros (? & ? & ?)]].
      rewrite same_network_spec by done. split; [eauto|]. by intros (o' & [= <-] & H).
    - split; [done|by intros (? & ? & ?)].
    - rewrite same_network_spec by done. split; [eauto|]. by intros (o & [= <-] & H). }
  destruct list as [|x list]; [simpl; tauto|]. set (l := x :: list).
  assert (El : ip_allowed l ip = match ip with None => false
      | Some ip => existsb (fun '(n, b) => cidr_contains n b ip) (omap parse_cidr l) end) by done.
  rewrite El. destruct ip as [addr|]; [|split; [done|intros [?|(? & ? & ? & ? & ? & ? & _)]; done]].
  rewrite existsb_exists. split.
  - intros ([net bits] & (entry & Hin & Hp)%list_elem_of_In%list_elem_of_omap & H). right.
    apply Hc in H as (o & Ho & Ha); [|apply (parse_cidr_ok _ _ _ Hp)]. exists addr, entry, net, bits, o. done.
  - intros [?|(a & entry & net & bits & o & [= <-] & Hin & Hp & Ho & Ha)]; [done|].
    exists (net, bits). split; [apply list_elem_of_In, list_elem_of_omap; eauto|].
    apply Hc; [apply (parse_cidr_ok _ _ _ Hp)|eauto].
Qed.

(** ** The gate *)

Lemma notify_admins_keeps team user name w :
  exists l, notify_admins team user name w = (Ok tt, set_mails l w).
Proof.
  assert (Hset : forall w, w = set_mails (mails w) w) by (by intros []).
  unfold notify_admins. run_m. destruct (negb _); [exists (mails w); by rewrite <- Hset|]. run_m.
  generalize (take 20 (omap (fun '(t, u, role) =>
             if decide (t = team /\ (role = "owner" \/ role = "admin")) then u_email <$> users w !! u else None)
             (team_members w))) as rows.
  intros rows. set (who := match users w !! user with Some u => u_email u | None => "" end). clearbody who.
  assert (Hl : forall l, exists l', for_each rows (fun to => send_mail to ("New device waiting for approval: " +:+ name) who)
             (set_mails l w) = (Ok tt, set_mails l' w)).
  { induction rows as [|to rows IH]; intros l; [exists l; reflexivity|]. rewrite for_each_cons. unfold send_mail at 1. run_m.
    apply (IH (l ++ [(to, "New device waiting for approval: " +:+ name, who)])). }
  destruct (Hl (mails w)) as [l H]. rewrite <- Hset in H. eauto.
Qed.

(** What a team's gate says to a device: [None] lets it through. *)
Definition refusal (w : World) (device : uuid) (addr : option IpAddr) (g : GateRow) : option ApiError :=
  if negb (ip_allowed (g_allowlist g) addr) then Some (IpNotAllowed (g_team g))
  else if negb (g_admin g) then None
  else match approvals w !! (g_team g, device) with
       | Some s => if decide (s = "approved") then None
                   else if decide (s = "rejected") then Some (DeviceRejected (g_team g)) else Some (DevicePending (g_team g))
       | None => Some (DevicePending (g_team g))
       end.

Lemma gate_one_run user device addr g w :
  match refusal w device addr g with
  | None => gate_one user device addr g w = (Ok tt, w)
  | Some e => exists l, gate_one user device addr g w =
      (Err e, set_mails l (if bool_decide (e = DevicePending (g_team g)) && bool_decide (approvals w !! (g_team g, device) = None)
                           then set_approvals (<[(g_team g, device) := "pending"]> (approvals w)) w else w))
  end.
Proof.
  assert (Hset : forall w, w = set_mails (mails w) w) by (by intros []).
  unfold refusal, gate_one. destruct (negb (ip_allowed _ _)).
  { exists (mails w). rewrite bool_decide_false by done. simpl. by rewrite <- Hset. }
  destruct (negb (g_admin g)); [done|]. run_m.
  destruct (approvals w !! (g_team g, device)) as [s|] eqn:E.
  - destruct (decide (s = "approved")) as [->|Ha]; [by rewrite bool_decide_true by done|].
    rewrite bool_decide_false by congruence.
    destruct (decide (s = "rejected")) as [->|Hr].
    + rewrite bool_decide_true by done. exists (mails w). rewrite bool_decide_false by done. simpl. by rewrite <- Hset.
    + rewrite bool_decide_false by congruence. rewrite bool_decide_false by done. run_m.
      exists (mails w). rewrite andb_false_r. by rewrite <- Hset.
  - rewrite !bool_decide_false by done. rewrite !bool_decide_true by done. cbn [andb]. run_m.
    rewrite bind_run. destruct (notify_admins_keeps (g_team g) user (g_name g)
        (set_approvals (<[(g_team g, device) := "pending"]> (approvals w)) w)) as [l ->].
    exists l. reflexivity.
Qed.

(** the gate of the teams' policies. A sign-in passes exactly when every
    gating team of the user admits the client's address and, where it wants
    its administrators to vet devices, has approved this one; it then changes
    nothing. Otherwise the oldest refusing team's reason is the answer, and at
    most one row is written: this device waiting for that team. *)
Theorem gate_passes_exactly user device ip w :
  let rows := gate_rows w user in
  let addr := ip ≫= parse_ip in
  (Forall (fun g => ip_allowed (g_allowlist g) addr = true
                    /\ (g_admin g = true -> approvals w !! (g_team g, device) = Some "approved")) rows ->
     gate user device ip w = (Ok tt, w))
  /\ (forall pre g post e, rows = pre ++ g :: post -> Forall (fun g => refusal w device addr g = None) pre ->
      refusal w device addr g = Some e ->
      exists l w1, gate user device ip w = (Err e, set_mails l w1)
        /\ (w1 = w \/ (e = DevicePending (g_team g) /\ approvals w !! (g_team g, device) = None
                       /\ w1 = set_approvals (<[(g_team g, device) := "pending"]> (approvals w)) w))).
Proof.
  assert (Hpass : forall rows, Forall (fun g => refusal w device (ip ≫= parse_ip) g = None) rows -> forall post,
      for_each (rows ++ post) (gate_one user device (ip ≫= parse_ip)) w = for_each post (gate_one user device (ip ≫= parse_ip)) w).
  { induction 1 as [|g rows Hg _ IH]; intros post; [done|]. simpl app. rewrite for_each_cons, bind_run.
    pose proof (gate_one_run user device (ip ≫= parse_ip) g w) as H. rewrite Hg in H. by rewrite H. }
  cbv zeta. unfold gate. split.
  - intros H. run_m. rewrite <- (app_nil_r (gate_rows w user)). rewrite Hpass; [done|].
    eapply Forall_impl; [exact H|]. intros g [H1 H2]. unfold refusal. rewrite H1. simpl.
    destruct (g_admin g); [|done]. simpl. by rewrite H2.
  - intros pre g post e E Hpre Hg. run_m. rewrite E, Hpass by done. rewrite for_each_cons, bind_run.
    pose proof (gate_one_run user device (ip ≫= parse_ip) g w) as H. rewrite Hg in H. destruct H as [l ->].
    eexists l, _. split; [done|]. destruct (bool_decide (e = _)) eqn:E1; [|by left].
    destruct (bool_decide (approvals w !! _ = None)) eqn:E2; [|by left].
    right. apply bool_decide_eq_true in E1, E2. done.
Qed.

Lemma gate_passes_exactly_witness :
  let w := set_team_members [(3%N, 1%N, "member")] (set_teams {[3%N := mkTeam "T" 0 None false]}
             (set_policies {[3%N := mkTeamPolicy (mkPolicy 3 "" "off" "allow" None false None [] false "optional")
                                      ["10.0.0.0/8"] true 0]} demo_world)) in
  fst (gate 1 7 (Some "10.1.2.3") w) = Err (DevicePending 3)
  /\ fst (gate 1 7 (Some "10.1.2.3") (set_approvals {[(3%N, 7%N) := "approved"]} w)) = Ok tt.
Proof.
  cbv zeta. split.
  - match goal with |- fst (gate _ _ _ ?w0) = _ =>
      destruct (proj2 (gate_passes_exactly 1 7 (Some "10.1.2.3") w0) [] (mkGate 3 0 "T" ["10.0.0.0/8"] true) []
                  (DevicePending 3)) as (l & w1 & H & _) end.
    + vm_compute. reflexivity.
    + constructor.
    + vm_compute. reflexivity.
    + by rewrite H.
  - rewrite (proj1 (gate_passes_exactly 1 7 (Some "10.1.2.3") _)); [reflexivity|].
    match goal with |- Forall _ ?l => let x := eval vm_compute in l in change l with x end.
    repeat constructor; vm_compute; intros; reflexivity.
Defined.
