(* ===== verification/SignIn.v ===== *)
(** * Signing in

    [crates/termoso-server/src/routes/auth.rs]: sign-in with a password and a
    second factor, approval of new devices, step-up, recovery and password
    changes, on the sessions, codes and gates of the server; the second
    factors of [users.rs] and the captcha counter of [turnstile.rs]. *)
From Stdlib Require Import Ascii.
From stdpp Require Import pretty.
From S2P Require Import Prelude Text VaultAccess Backend Server Sessions Codes Trust.

#[local] Open Scope string_scope.
#[local] Open Scope list_scope.
#[local] Open Scope Z_scope.

Definition LOGIN_TTL : Z := 120.
Definition MFA_TTL : Z := 600.
Definition APPROVAL_TTL : Z := 900.
Definition RECOVERY_TTL : Z := 900.

Definition P_LOGIN : string := "login".
Definition P_MFA : string := "mfa".
Definition P_MFA_EMAIL : string := "mfa_email".
Definition P_WEBAUTHN_AUTH : string := "webauthn_auth".
Definition P_APPROVE : string := "device_approve".
Definition P_RECOVERY : string := "recovery".
Definition P_REAUTH : string := "reauth".
Definition P_REAUTH_EMAIL : string := "reauth_email".

(** ** Devices and their versions *)

Fixpoint drop_v (l : bytes) : bytes := match l with 118 :: l' => drop_v l' | _ => l end.

(** [1.2.3[-pre][+build]]; [0.0.0] is nobody's version. *)
Definition semver_tuple (v : string) : option (Z * Z * Z) :=
  core ← head (split_any [45; 43] (drop_v (trim_bytes (as_bytes v))));
  match map (parse_uint u64_max) (split_any [46] core) with
  | Some a :: Some b :: Some c :: _ => if decide ((a, b, c) = (0, 0, 0)) then None else Some (a, b, c)
  | _ => None
  end.

Definition older_version (x y : Z * Z * Z) : bool :=
  let '(a, b, c) := x in let '(a', b', c') := y in
  (a <? a') || ((a =? a') && ((b <? b') || ((b =? b') && (c <? c')))).

Definition required_version (c : Config) : string :=
  match min_client_version c with
  | Some v => if bool_decide (trim v = "") then server_version c else trim v
  | None => server_version c
  end.

Definition check_client_version (c : Config) (d : DeviceInfo) : result ApiError unit :=
  if decide (di_platform d = Web) then Ok tt else
  match semver_tuple (di_app_version d), semver_tuple (required_version c) with
  | Some client, Some min => if older_version client min then Err (ClientUpdateRequired (required_version c)) else Ok tt
  | _, _ => Ok tt
  end.

Definition char_count (s : string) : nat := length (chars (as_bytes s)).

Definition validate_device (d : DeviceInfo) : result ApiError unit :=
  if bool_decide (trim (di_name d) = "") || (120 <? char_count (di_name d))%nat then Err (BadRequest "Invalid device name")
  else if (64 <? char_count (di_app_version d))%nat then Err (BadRequest "Invalid app version")
  else Ok tt.

(** ** Requests and answers *)

Record Client := mkClient { c_ip : option string }.

Record LoginStart := mkLoginStart {
  ls_email : string; ls_request : string; ls_device : DeviceInfo; ls_sso : option string; ls_turnstile : option string
}.
Record LoginFinish := mkLoginFinish { lf_id : string; lf_finalization : string }.

Inductive MfaMethod : Type := Totp | Webauthn | BackupCodes | Email.
Inductive MfaCredential : Type :=
| CTotp (code : string) | CBackup (code : string) | CEmailCode (code : string) | CWebauthn (credential : string).
Record MfaVerify := mkMfaVerify { mv_token : string; mv_credential : MfaCredential }.

Record NewSession := mkNewSession { ns_token : string; ns_expires : Z; ns_device : uuid; ns_user : uuid }.
Inductive AuthResponse : Type :=
| Authenticated (s : NewSession) | MfaNeeded (mfa_token : string) (methods : list MfaMethod)
| ApprovalNeeded (approval_token email_hint : string) | Reauthenticated (expires : Z).

Record PasswordFinish := mkPasswordFinish {
  pf_recovery_token : option string; pf_upload : string; pf_wrapped : string;
  pf_new_recovery : option (string * string); pf_device : option DeviceInfo
}.

Section SignIn.
Context {X : External}.

(** ** Captcha after failed sign-ins *)

Definition login_key (ip : string) : string := "turnstile:login:" +:+ ip.
Definition LOGIN_FAILURES_BEFORE_CAPTCHA : Z := 3.
Definition LOGIN_FAILURE_WINDOW : Z := 15 * 60.

Definition note_login_failure (ip : option string) : M unit :=
  on ← asks (fun w => turnstile (cfg w));
  match ip with
  | Some ip => if (on : bool) then _ ← try_ (on_cache (fun t => incr_window t (login_key ip) LOGIN_FAILURE_WINDOW)); mret tt
               else mret tt
  | None => mret tt
  end.

Definition login_needs_captcha (ip : option string) : M bool :=
  asks (fun w => turnstile (cfg w)
                 && match ip with
                    | Some ip => match counter (now w) (login_key ip) (cache w) with
                                 | Ok n => LOGIN_FAILURES_BEFORE_CAPTCHA <=? n
                                 | Err _ => false
                                 end
                    | None => false
                    end).

Definition require_turnstile (token ip : option string) : M unit :=
  on ← asks (fun w => turnstile (cfg w));
  if negb on then mret tt else
  match token with
  | Some t => if bool_decide (trim t = "") then fail TurnstileRequired else lift (turnstile_verdict (trim t) ip)
  | None => fail TurnstileRequired
  end.

(** ** Users *)

Definition find_email (w : World) (email : string) : option UserRow :=
  snd <$> head (filter (fun x => to_lowercase (u_email (snd x)) = to_lowercase email) (map_to_list (users w))).
Definition by_email (email : string) : M (option UserRow) := asks (fun w => find_email w email).

Definition has_passkey (w : World) (user : uuid) : bool :=
  negb (bool_decide (filter (fun x => pk_user (snd x) = user) (map_to_list (passkeys w)) = [])).
Definition mfa_enabled (w : World) (u : UserRow) : bool := u_totp_enabled u || has_passkey w (u_id u).

Definition security_event (user : uuid) (kind : string) (device : option uuid) : M unit :=
  modify (fun w => set_security (security w ++ [(user, kind, device)]) w).

(** Best effort: a failure is logged. *)
Definition notify (to subject : string) : M unit :=
  on ← asks (fun w => mailer (cfg w)); n ← asks drawn;
  if on && mail_taken to n then send_mail to subject "" else mret tt.

Definition send_code_email (to purpose code : string) : M unit :=
  on ← asks (fun w => mailer (cfg w));
  if negb on then fail (FeatureDisabled "Email") else
  _ ← limit EMAIL to;
  n ← asks drawn;
  if mail_taken to n then send_mail to purpose code else fail (Internal "sending email").

(** ** Single sign-on sessions *)

Definition sso_key (token : string) : string := "sso_sess:" +:+ token.

Definition consume_session (token email : string) : M SsoSession :=
  o ← on_cache (fun t => take_json as_sso t (sso_key token));
  s ← of_option o TokenExpired;
  if decide (sso_email s = email) then mret s else fail (Denied "SSO session does not match this email").

Definition consume_optional (token : option string) (email : string) : M (option SsoSession) :=
  match token with Some t => s ← consume_session t email; mret (Some s) | None => mret None end.

Definition link_identity (s : SsoSession) (user : uuid) : M unit :=
  _ ← modify (fun w => set_sso_identities (<[(sso_provider s, sso_subject s) := user]> (sso_identities w)) w);
  m ← asks team_members;
  m' ← lift (idp_roles user (sso_groups s) (sso_team s) m);
  modify (set_team_members m').

(** ** Sessions *)

Definition build_session (user : UserRow) (device : uuid) : M NewSession :=
  '(token, expires) ← Sessions.issue (u_id user) device;
  mret (mkNewSession token expires device (u_id user)).

Definition available_mfa_methods (w : World) (user : UserRow) : list MfaMethod :=
  (if u_totp_enabled user then [Totp] else [])
  ++ (if has_passkey w (u_id user) && webauthn_on (cfg w) then [Webauthn] else [])
  ++ (if existsb (fun c => bool_decide (bc_user c = u_id user) && bool_decide (bc_used c = None)) (backup_codes w)
      then [BackupCodes] else [])
  ++ (if mailer (cfg w) && u_verified user then [Email] else []).

(** ** Signing in *)

Definition login_start (client : Client) (req : LoginStart) : M (string * string) :=
  _ ← limit_ip AUTH_IP (c_ip client);
  captcha ← login_needs_captcha (c_ip client);
  _ ← (if (captcha : bool) then require_turnstile (ls_turnstile req) (c_ip client) else mret tt);
  email ← of_option (normalize_email (ls_email req)) (BadRequest "Invalid email");
  _ ← limit AUTH_ACCOUNT email;
  _ ← lift (validate_device (ls_device req));
  c ← asks cfg;
  _ ← lift (check_client_version c (ls_device req));
  sso ← consume_optional (ls_sso req) email;
  let sso_verified := bool_decide (is_Some sso) in
  _ ← require_sso sso_verified email;
  _ ← require_team_sso sso_verified email;
  user ← by_email email;
  _ ← (match user with
       | Some u =>
           if sso_verified then mret tt else
           rows ← asks (fun w => rows_for w (u_id u));
           match VaultAccess.sso_required resolve_provider rows email with
           | Some provider => fail (SsoRequired (Some provider))
           | None => mret tt
           end
       | None => mret tt
       end);
  n ← asks drawn;
  '(response, server_state) ← lift (opaque_login_start email (user ≫= u_record) (ls_request req) n);
  id ← put_flow P_LOGIN (BLogin (mkLoginFlow email (u_id <$> user) server_state (ls_device req) sso_verified sso)) LOGIN_TTL;
  mret (id, response).

(** MFA, then approval of the device, then the session. *)
Definition continue_login (client : Client) (user : UserRow) (device : DeviceInfo) (sso_verified mfa_done : bool) :
    M AuthResponse :=
  _ ← ensure_home_team (u_id user);
  enabled ← asks (fun w => mfa_enabled w user);
  if negb mfa_done && enabled then
    methods ← asks (fun w => available_mfa_methods w user);
    token ← put_flow P_MFA (BMfa (mkMfaFlow (u_id user) (Some device) sso_verified None)) MFA_TTL;
    mret (MfaNeeded token methods)
  else
  '(device_id, is_new) ← upsert_device (u_id user) device (c_ip client);
  _ ← gate (u_id user) device_id (c_ip client);
  approved ← asks (fun w => match devices w !! device_id with Some d => bool_decide (is_Some (d_approved d)) | None => false end);
  s ← asks settings;
  forced ← asks (fun w => mandatory_device_approval w (u_id user));
  on ← asks (fun w => mailer (cfg w));
  if (is_new || negb approved) && (new_device_email_approval s || forced) && on && u_verified user && negb sso_verified then
    '(token, code) ← Codes.issue P_APPROVE (CApproval (mkApproval (u_id user) device_id)) APPROVAL_TTL;
    _ ← send_code_email (u_email user) "new device sign-in" code;
    _ ← security_event (u_id user) "device_approval_requested" (Some device_id);
    mret (ApprovalNeeded token (mask_email (u_email user)))
  else
  session ← build_session user device_id;
  _ ← security_event (u_id user) "login" (Some device_id);
  mret (Authenticated session).

Definition login_finish (client : Client) (req : LoginFinish) : M AuthResponse :=
  _ ← limit_ip AUTH_IP (c_ip client);
  flow ← take_flow as_login P_LOGIN (lf_id req);
  match lf_user flow with
  | None => _ ← note_login_failure (c_ip client); fail InvalidCredentials
  | Some user_id =>
      if negb (opaque_login_finish (lf_email flow) (lf_state flow) (lf_finalization req)) then
        _ ← security_event user_id "login_failed" None;
        _ ← note_login_failure (c_ip client);
        fail InvalidCredentials
      else
      user ← by_id user_id;
      if u_disabled user then fail AccountDisabled else
      _ ← (match lf_sso flow with Some s => link_identity s (u_id user) | None => mret tt end);
      continue_login client user (lf_device flow) (lf_sso_verified flow) false
  end.

(** ** Second factors *)

(** A code counts once: the step it matches is counted for longer than any
    code of that step is accepted. *)
Definition totp_used_key (user : uuid) (step : Z) : string := "totp_used:" +:+ pretty user +:+ ":" +:+ pretty step.

Definition check_totp (user : UserRow) (code : string) : M bool :=
  match u_totp user with
  | None => mret false
  | Some encrypted =>
      secret ← lift (decrypt_totp encrypted);
      t ← asks now;
      match totp_check secret t (normalize_code code) with
      | None => mret false
      | Some step =>
          '(n, _) ← on_cache (fun t => incr_window t (totp_used_key (u_id user) step) 95);
          mret (n =? 1)
      end
  end.

Definition unused_code (user : uuid) (h : string) (c : BackupCode) : bool :=
  bool_decide (bc_user c = user) && bool_decide (bc_hash c = h) && bool_decide (bc_used c = None).

Definition consume_backup_code (user : uuid) (code : string) : M bool :=
  let h := hash_token (normalize_code code) in
  t ← asks now; codes ← asks backup_codes;
  _ ← modify (set_backup_codes (map (fun c => if unused_code user h c then mkBackup (bc_user c) (bc_hash c) (Some t) else c) codes));
  mret (bool_decide (length (filter (fun c => unused_code user h c = true) codes) = 1%nat)).

Definition load_passkeys (w : World) (user : uuid) : list (uuid * Passkey) :=
  filter (fun x => pk_user (snd x) = user) (map_to_list (passkeys w)).

Definition mfa_webauthn_challenge (mfa_token : string) : M string :=
  on ← asks (fun w => webauthn_on (cfg w));
  if negb on then fail (FeatureDisabled "WebAuthn") else
  flow ← get_flow as_mfa P_MFA mfa_token;
  keys ← asks (fun w => load_passkeys w (mf_user flow));
  if bool_decide (keys = []) then fail InvalidMfa else
  n ← asks drawn;
  '(challenge, auth_state) ← lift (webauthn_start (map (fun x => pk_credential (snd x)) keys) n);
  _ ← set_flow P_WEBAUTHN_AUTH mfa_token (BWebauthn auth_state) MFA_TTL;
  mret challenge.

Definition mfa_email_send (mfa_token : string) : M unit :=
  flow ← get_flow as_mfa P_MFA mfa_token;
  user ← by_id (mf_user flow);
  if negb (u_verified user) then fail EmailUnverified else
  code ← issue_for P_MFA_EMAIL mfa_token (CUser (u_id user)) MFA_TTL;
  send_code_email (u_email user) "sign-in verification" code.

(** [finish_passkey_authentication], and the counter of the passkey used. *)
Definition check_webauthn (user : UserRow) (mfa_token credential : string) : M bool :=
  on ← asks (fun w => webauthn_on (cfg w));
  if negb on then fail (FeatureDisabled "WebAuthn") else
  auth_state ← take_flow as_webauthn P_WEBAUTHN_AUTH mfa_token;
  if negb (is_credential credential) then fail InvalidMfa else
  match webauthn_finish credential auth_state with
  | Some (cred_id, outcome) =>
      t ← asks now;
      _ ← modify (fun w => set_passkeys (map_imap (fun _ k => Some
             (if bool_decide (pk_user k = u_id user) && bool_decide (passkey_id (pk_credential k) = cred_id)
              then mkPasskey (pk_user k) (pk_name k) (update_credential (pk_credential k) outcome) (Some t) else k)) (passkeys w)) w);
      mret true
  | None => mret false
  end.

Definition check_factor (user : UserRow) (mfa_token : string) (c : MfaCredential) : M bool :=
  match c with
  | CTotp code => check_totp user code
  | CBackup code => consume_backup_code (u_id user) code
  | CEmailCode code =>
      r ← try_ (verify as_user P_MFA_EMAIL mfa_token code);
      match r with
      | Ok _ => mret true
      | Err e => if is_status e then mret false else fail e
      end
  | CWebauthn credential => check_webauthn user mfa_token credential
  end.

Definition complete_step_up (user : UserRow) (session : uuid) : M AuthResponse :=
  expires ← mark_step_up session;
  _ ← security_event (u_id user) "reauth" None;
  mret (Reauthenticated expires).

Definition mfa_verify (client : Client) (req : MfaVerify) : M AuthResponse :=
  _ ← limit CODE_GUESS ("mfa:" +:+ hash_token (mv_token req));
  flow ← get_flow as_mfa P_MFA (mv_token req);
  user ← by_id (mf_user flow);
  if u_disabled user then fail AccountDisabled else
  ok ← check_factor user (mv_token req) (mv_credential req);
  if negb ok then _ ← security_event (u_id user) "mfa_failed" None; fail InvalidMfa else
  _ ← del_flow P_MFA (mv_token req);
  match mf_reauth flow with
  | Some session => complete_step_up user session
  | None =>
      device ← of_option (mf_device flow) (BadRequest "Invalid MFA flow");
      continue_login client user device (mf_sso_verified flow) true
  end.

(** ** Step-up *)

Record ReauthAnswer := mkReauthAnswer {
  ra_id : string; ra_method : ReauthMethod; ra_response : option string; ra_hint : option string
}.

Definition reauth_start (auth : Auth) (opaque_request : option string) : M ReauthAnswer :=
  user ← by_id (user_id auth);
  _ ← limit AUTH_ACCOUNT (u_email user);
  let flow m st := mkReauth (session_id (auth_session auth)) (u_id user) m st in
  '(f, response, hint) ←
    (match u_record user with
     | Some record =>
         request ← of_option opaque_request (BadRequest "opaque_request is required");
         n ← asks drawn;
         '(resp, st) ← lift (opaque_login_start (u_email user) (Some record) request n);
         mret (flow ByPassword (Some st), Some resp, None)
     | None =>
         on ← asks (fun w => mailer (cfg w));
         if on && u_verified user then mret (flow ByEmail None, None, Some (mask_email (u_email user))) else
         enabled ← asks (fun w => mfa_enabled w user);
         if (enabled : bool) then mret (flow NoProof None, None, None)
         else fail (BadRequest "Re-authentication is not available")
     end : M (ReauthFlow * option string * option string));
  id ← put_flow P_REAUTH (BReauth f) MFA_TTL;
  _ ← (if decide (rf_method f = ByEmail) then
         code ← issue_for P_REAUTH_EMAIL id (CUser (u_id user)) MFA_TTL;
         send_code_email (u_email user) "confirm it's you" code
       else mret tt);
  mret (mkReauthAnswer id (rf_method f) response hint).

Record ReauthFinish := mkReauthFinish { rq_id : string; rq_finalization : option string; rq_code : option string }.

Definition reauth_proof (user : UserRow) (flow : ReauthFlow) (req : ReauthFinish) : M bool :=
  match rf_method flow with
  | ByPassword =>
      _ ← del_flow P_REAUTH (rq_id req);
      match rf_state flow, rq_finalization req with
      | Some st, Some fin => mret (opaque_login_finish (u_email user) st fin)
      | _, _ => fail (BadRequest "opaque_finalization is required")
      end
  | ByEmail =>
      code ← of_option (rq_code req) (BadRequest "code is required");
      _ ← verify as_user P_REAUTH_EMAIL (rq_id req) code;
      _ ← del_flow P_REAUTH (rq_id req);
      mret true
  | NoProof => _ ← del_flow P_REAUTH (rq_id req); mret true
  end.

Definition reauth_finish (auth : Auth) (req : ReauthFinish) : M AuthResponse :=
  _ ← limit CODE_GUESS ("reauth:" +:+ hash_token (rq_id req));
  flow ← get_flow as_reauth P_REAUTH (rq_id req);
  let session := session_id (auth_session auth) in
  if negb (bool_decide (rf_session flow = session)) || negb (bool_decide (rf_user flow = user_id auth))
  then fail Unauthorized else
  user ← by_id (user_id auth);
  ok ← reauth_proof user flow req;
  if negb ok then _ ← security_event (u_id user) "reauth_failed" (Some (device_id auth)); fail InvalidCredentials else
  enabled ← asks (fun w => mfa_enabled w user);
  if (enabled : bool) then
    methods ← asks (fun w => available_mfa_methods w user);
    token ← put_flow P_MFA (BMfa (mkMfaFlow (u_id user) None false (Some session))) MFA_TTL;
    mret (MfaNeeded token methods)
  else complete_step_up user session.

(** ** Approval of a device by mail *)

Definition device_approve (token code : string) : M AuthResponse :=
  flow ← verify as_approval P_APPROVE token code;
  user ← by_id (af_user flow);
  if u_disabled user then fail AccountDisabled else
  session ← build_session user (af_device flow);
  _ ← security_event (u_id user) "device_approved" (Some (af_device flow));
  mret (Authenticated session).

Definition device_approve_resend (token : string) : M unit :=
  '(flow, code) ← reissue as_approval CApproval P_APPROVE token APPROVAL_TTL;
  user ← by_id (af_user flow);
  send_code_email (u_email user) "new device sign-in" code.

(** ** Recovery and passwords *)

Definition recovery_start (client : Client) (email verifier : string) (captcha : option string) : M string :=
  _ ← limit_ip AUTH_IP (c_ip client);
  _ ← require_turnstile captcha (c_ip client);
  email ← of_option (normalize_email email) (BadRequest "Invalid email");
  _ ← limit AUTH_ACCOUNT email;
  _ ← guard_or (is_key32 verifier) (BadRequest "recovery_verifier must be 32 bytes");
  user ← by_email email;
  match user with
  | None => fail InvalidCredentials
  | Some user =>
      if negb (constant_time_eq (u_recovery_hash user) (hash_token verifier)) then
        _ ← security_event (u_id user) "recovery_failed" None; fail InvalidCredentials else
      if u_disabled user then fail AccountDisabled else
      token ← put_flow P_RECOVERY (BRecovery (u_id user)) RECOVERY_TTL;
      _ ← security_event (u_id user) "recovery_started" None;
      mret token
  end.

Definition resolve_password_subject (auth : option Auth) (recovery_token : option string) : M UserRow :=
  match auth, recovery_token with
  | _, Some token => user ← get_flow as_recovery P_RECOVERY token; by_id user
  | Some auth, None => _ ← require_step_up auth; by_id (user_id auth)
  | None, None => fail Unauthorized
  end.

Definition password_start (auth : option Auth) (recovery_token : option string) (request : string) : M string :=
  user ← resolve_password_subject auth recovery_token;
  lift (opaque_registration_start (u_email user) request).

(** The two updates of the transaction. *)
Definition set_password (req : PasswordFinish) (record : bytes) (u : UserRow) : UserRow :=
  let '(hash, wrapped) := match pf_new_recovery req with
                          | Some (verifier, r) => (hash_token verifier, r)
                          | None => (u_recovery_hash u, u_recovery_wrapped u)
                          end in
  mkUser (u_id u) (u_email u) (u_verified u) (Some record) hash wrapped (pf_wrapped req) (u_totp u)
    (u_totp_enabled u) (u_admin u) (u_disabled u) (u_last_seen u) (u_profile u).

Definition password_finish (auth : option Auth) (client : Client) (req : PasswordFinish) : M AuthResponse :=
  user ← resolve_password_subject auth (pf_recovery_token req);
  _ ← guard_or (is_b64 (pf_wrapped req)) (BadRequest "wrapped_private_key is not valid base64");
  _ ← (match pf_new_recovery req with
       | Some (verifier, wrapped) =>
           _ ← guard_or (is_key32 verifier) (BadRequest "recovery_verifier must be 32 bytes");
           guard_or (is_b64 wrapped) (BadRequest "recovery_wrapped_private_key is not valid base64")
       | None => mret tt
       end);
  record ← lift (opaque_registration_finish (pf_upload req));
  device ← (match auth, pf_device req with
            | Some a, _ => mret (Some (device_id a))
            | None, Some _ => mret None
            | None, None => fail (BadRequest "device is required for recovery")
            end);
  _ ← modify (fun w => set_users (alter (set_password req record) (u_id user) (users w)) w);
  _ ← (match pf_recovery_token req with Some t => del_flow P_RECOVERY t | None => mret tt end);
  device_id ← (match device with
               | Some id => mret id
               | None =>
                   info ← of_option (pf_device req) (BadRequest "device is required");
                   _ ← lift (validate_device info);
                   c ← asks cfg;
                   _ ← lift (check_client_version c info);
                   '(id, _) ← upsert_device (u_id user) info (c_ip client);
                   mret id
               end);
  _ ← revoke_all (u_id user) None;
  user ← by_id (u_id user);
  session ← build_session user device_id;
  _ ← security_event (u_id user) (match pf_recovery_token req with Some _ => "password_recovered" | None => "password_changed" end)
        (Some device_id);
  _ ← notify (u_email user) "password changed";
  _ ← publish (AccountUpdated (u_id user));
  mret (Authenticated session).

Definition logout (auth : Auth) : M unit := revoke_session (session_id (auth_session auth)).
End SignIn.

(** ** The server as a whole

    A request that needs a session carries the HTTP headers it is
    authenticated by. *)
Inductive ServerRequest : Type :=
| RLoginStart (c : Client) (r : LoginStart) | RLoginFinish (c : Client) (r : LoginFinish)
| RChallenge (mfa_token : string) | RMfaEmail (mfa_token : string) | RMfaVerify (c : Client) (r : MfaVerify)
| RReauthStart (h : Request) (opaque_request : option string) | RReauthFinish (h : Request) (r : ReauthFinish)
| RApprove (token code : string) | RResend (token : string)
| RRecovery (c : Client) (email verifier : string) (captcha : option string)
| RPasswordStart (h : Request) (recovery_token : option string) (request : string)
| RPasswordFinish (h : Request) (c : Client) (r : PasswordFinish)
| RLogout (h : Request) | RUse (h : Request).

Section Serve.
Context {X : External}.

Definition quiet {A} (m : M A) : M (option AuthResponse) := _ ← m; mret None.
Definition answer (m : M AuthResponse) : M (option AuthResponse) := a ← m; mret (Some a).

Definition serve (r : ServerRequest) : M (option AuthResponse) :=
  match r with
  | RLoginStart c r => quiet (login_start c r)
  | RLoginFinish c r => answer (login_finish c r)
  | RChallenge t => quiet (mfa_webauthn_challenge t)
  | RMfaEmail t => quiet (mfa_email_send t)
  | RMfaVerify c r => answer (mfa_verify c r)
  | RReauthStart h o => a ← authenticate h; quiet (reauth_start a o)
  | RReauthFinish h r => a ← authenticate h; answer (reauth_finish a r)
  | RApprove t code => answer (device_approve t code)
  | RResend t => quiet (device_approve_resend t)
  | RRecovery c e v t => quiet (recovery_start c e v t)
  | RPasswordStart h t r => a ← authenticate_optional h; quiet (password_start a t r)
  | RPasswordFinish h c r => a ← authenticate_optional h; answer (password_finish a c r)
  | RLogout h => a ← authenticate h; quiet (logout a)
  | RUse h => quiet (authenticate h)
  end.
End Serve.

(** ** Runs

    A run is a sequence of requests to these routes; between them anything
    else may happen to the tables, to time and to the cache, except that
    nothing else writes the flows of these routes. *)

Definition is_flow (b : Body) : bool :=
  match b with
  | BLogin _ | BMfa _ | BReauth _ | BRecovery _ => true
  | BCode s => match payload s with CApproval _ => true | _ => false end
  | BSession _ | BSso _ | BWebauthn _ | BTotpSetup _ | BRegistration _ => false
  end.

(** The flows a cache gains, all of them in [P]. *)
Definition new_flows (P : Body -> Prop) (w w' : World) : Prop :=
  now w <= now w'
  /\ forall k b e, cache w' !! k = Some (Json b, e) -> is_flow b = true -> cache w !! k = Some (Json b, e) \/ P b.

(** The primary key of [users]. *)
Definition keyed (w : World) : Prop := forall id u, users w !! id = Some u -> u_id u = id.

Record Step := mkStep { st_before : World; st_request : ServerRequest; st_answer : result ApiError (option AuthResponse) }.

Inductive history `{External} : list Step -> World -> Prop :=
| history_start w : (forall k b e, cache w !! k = Some (Json b, e) -> is_flow b = false) -> history [] w
| history_serve steps w r a w' : history steps w -> keyed w -> serve r w = (a, w') -> history (mkStep w r a :: steps) w'
| history_other steps w w' : history steps w -> new_flows (fun _ => False) w w' -> history steps w'.

#[export] Instance new_flows_preorder P : PreOrder (new_flows P).
Proof.
  split; [split; [lia|auto]|]. intros w w1 w2 [H1 G1] [H2 G2]. split; [lia|].
  intros k b e H Hb. destruct (G2 _ _ _ H Hb) as [H'|]; [|auto]. auto.
Qed.

Lemma new_flows_weaken (P Q : Body -> Prop) w w' : (forall b, P b -> Q b) -> new_flows P w w' -> new_flows Q w w'.
Proof. intros HPQ [H1 H2]. split; [done|]. intros k b e H Hb. destruct (H2 _ _ _ H Hb); auto. Qed.

Section Flows.
Context {P : Body -> Prop}.

Lemma flows_other (f : World -> World) : (forall w, now (f w) = now w) -> (forall w, cache (f w) = cache w) ->
  keeps (new_flows P) (modify f).
Proof. intros Hn Hc w. simpl. split; rewrite ?Hn, ?Hc; [lia|auto]. Qed.

Lemma flows_set k b ttl : (is_flow b = true -> P b) -> keeps (new_flows P) (set_key k b ttl).
Proof.
  intros Hb w. split; simpl; [lia|]. intros k' b' e'. unfold set_json.
  destruct (decide (k = k')) as [->|Hn]; [|rewrite lookup_insert_ne by done; auto].
  rewrite lookup_insert_eq. intros [= <- <-]. auto.
Qed.

Lemma flows_del k : keeps (new_flows P) (del_key k).
Proof. intros w. split; simpl; [lia|]. intros k' b e. unfold del. intros [_ H]%lookup_delete_Some. auto. Qed.

Lemma flows_draw {A} (f : N -> A) : keeps (new_flows P) (draw f).
Proof. intros w. split; simpl; [lia|auto]. Qed.

Lemma flows_incr k window : keeps (new_flows P) (on_cache (fun t => incr_window t k window)).
Proof.
  intros w. unfold on_cache, incr_window. destruct (counter _ _ _) as [n|e]; [|split; simpl; [lia|auto]].
  destruct (n <? i64_max); split; simpl; try lia; auto. intros k' b e.
  destruct (decide (k = k')) as [->|Hn]; [by rewrite lookup_insert_eq|rewrite lookup_insert_ne by done; auto].
Qed.

Lemma flows_limit l subject : keeps (new_flows P) (limit l subject).
Proof.
  intros w. pose proof (flows_incr (rl_key l subject) (l_window l) w) as H. unfold limit, on_cache, rl_check in *.
  destruct (incr_window _ _ _ _) as [[[n ttl]|e] c]; [destruct (_ <? _)|]; exact H.
Qed.

Lemma flows_take {A} (as_a : Body -> option A) k : keeps (new_flows P) (on_cache (fun t => take_json as_a t k)).
Proof. intros w. split; simpl; [lia|]. intros k' b e [_ H]%lookup_delete_Some. auto. Qed.
End Flows.

#[export] Hint Resolve flows_del flows_draw flows_incr flows_limit flows_take : keeps.
#[export] Hint Extern 3 (keeps (new_flows _) (modify _)) => (apply flows_other; reflexivity) : keeps.
#[export] Hint Extern 3 (keeps (new_flows _) (publish _)) => (apply flows_other; reflexivity) : keeps.
#[export] Hint Extern 3 (keeps (new_flows _) (send_mail _ _ _)) => (apply flows_other; reflexivity) : keeps.
#[export] Hint Extern 3 (keeps (new_flows _) (security_event _ _ _)) => (apply flows_other; reflexivity) : keeps.
#[export] Hint Extern 3 (keeps (new_flows _) (forget_device _)) => (apply flows_other; reflexivity) : keeps.
#[export] Hint Extern 4 (keeps (new_flows _) (set_key _ _ _)) => (apply flows_set; intros; simpl in *; try discriminate; auto) : keeps.

Section FlowsOf.
Context {X : External} {P : Body -> Prop}.

Ltac ops := repeat keeps_step.

Lemma flows_validate token : keeps (new_flows P) (validate token).
Proof. unfold validate. ops. Qed.
Lemma flows_touch i ip : keeps (new_flows P) (touch i ip).
Proof. unfold touch. ops. Qed.
Hint Resolve flows_validate flows_touch : keeps.
Lemma flows_authenticate h : keeps (new_flows P) (authenticate h).
Proof. unfold authenticate. ops. Qed.
Hint Resolve flows_authenticate : keeps.
Lemma flows_authenticate_optional h : keeps (new_flows P) (authenticate_optional h).
Proof. unfold authenticate_optional. ops. Qed.
Lemma flows_issue user device : keeps (new_flows P) (Sessions.issue user device).
Proof. unfold Sessions.issue, random_token, new_uuid, insert_session, approve_device. ops. Qed.
Lemma flows_upsert user info ip : keeps (new_flows P) (upsert_device user info ip).
Proof. unfold upsert_device, new_uuid. ops. Qed.
Lemma flows_mark id : keeps (new_flows P) (mark_step_up id).
Proof. unfold mark_step_up. ops. Qed.
Lemma flows_drop user rows : keeps (new_flows P) (drop_cached user rows).
Proof. apply keeps_for_each. intros [id s]. ops. Qed.
Hint Resolve flows_drop : keeps.
Lemma flows_revoke_all user keep : keeps (new_flows P) (revoke_all user keep).
Proof. unfold revoke_all, revoke_where. ops. Qed.
Lemma flows_revoke_session id : keeps (new_flows P) (revoke_session id).
Proof. unfold revoke_session, revoke_where. ops. Qed.
Lemma flows_notify_admins team user name : keeps (new_flows P) (notify_admins team user name).
Proof. unfold notify_admins. ops. Qed.
Hint Resolve flows_notify_admins : keeps.
Lemma flows_gate user device ip : keeps (new_flows P) (gate user device ip).
Proof. unfold gate. ops. apply keeps_for_each. intros g. unfold gate_one. ops. Qed.
Lemma flows_by_id user : keeps (new_flows P) (by_id user).
Proof. unfold by_id. ops. Qed.
Hint Resolve flows_by_id : keeps.
Lemma flows_home user : keeps (new_flows P) (ensure_home_team user).
Proof. unfold ensure_home_team. ops. Qed.
Lemma flows_require_sso b e : keeps (new_flows P) (require_sso b e).
Proof. unfold require_sso. ops. Qed.
Lemma flows_require_team_sso b e : keeps (new_flows P) (require_team_sso b e).
Proof. unfold require_team_sso. ops. Qed.
Lemma flows_turnstile t ip : keeps (new_flows P) (require_turnstile t ip).
Proof. unfold require_turnstile. ops. Qed.
Lemma flows_captcha ip : keeps (new_flows P) (login_needs_captcha ip).
Proof. unfold login_needs_captcha. ops. Qed.
Lemma flows_note ip : keeps (new_flows P) (note_login_failure ip).
Proof. unfold note_login_failure. ops. Qed.
Lemma flows_by_email e : keeps (new_flows P) (by_email e).
Proof. unfold by_email. ops. Qed.
Lemma flows_consume t e : keeps (new_flows P) (consume_optional t e).
Proof. unfold consume_optional, consume_session. ops. Qed.
Lemma flows_link s u : keeps (new_flows P) (link_identity s u).
Proof. unfold link_identity. ops. Qed.
Lemma flows_send to purpose code : keeps (new_flows P) (send_code_email to purpose code).
Proof. unfold send_code_email. ops. Qed.
Lemma flows_notify to subject : keeps (new_flows P) (notify to subject).
Proof. unfold notify. ops. Qed.
Lemma flows_verify {A} (as_a : CodePayload -> option A) purpose token code : keeps (new_flows P) (verify as_a purpose token code).
Proof. unfold verify. ops. Qed.
Hint Resolve flows_verify : keeps.
Lemma flows_check_totp u c : keeps (new_flows P) (check_totp u c).
Proof. unfold check_totp. ops. Qed.
Lemma flows_backup u c : keeps (new_flows P) (consume_backup_code u c).
Proof. unfold consume_backup_code. ops. Qed.
Lemma flows_webauthn u t c : keeps (new_flows P) (check_webauthn u t c).
Proof. unfold check_webauthn, take_flow. ops. Qed.
Hint Resolve flows_check_totp flows_backup flows_webauthn flows_mark : keeps.
Lemma flows_factor u t c : keeps (new_flows P) (check_factor u t c).
Proof. unfold check_factor. ops. Qed.
Lemma flows_complete u s : keeps (new_flows P) (complete_step_up u s).
Proof. unfold complete_step_up. ops. Qed.
Hint Resolve flows_issue : keeps.
Lemma flows_build u d : keeps (new_flows P) (build_session u d).
Proof. unfold build_session. ops. Qed.
End FlowsOf.
#[export] Hint Resolve flows_authenticate flows_authenticate_optional flows_issue flows_upsert flows_mark flows_revoke_all
  flows_revoke_session flows_gate flows_by_id flows_home flows_require_sso flows_require_team_sso flows_turnstile
  flows_captcha flows_note flows_by_email flows_consume flows_link flows_send flows_notify flows_verify flows_factor
  flows_complete flows_build : keeps.

(** ** What a sign-in has to prove *)

Section Proven.
Context {X : External}.

(** The flow a token opens. *)
Definition flow_at {A} (as_a : Body -> option A) (purpose token : string) (w : World) : option A :=
  match live (now w) (cache w) (key purpose token) with Some (Json b) => as_a b | _ => None end.

(** The password exchange of a flow was started by [login_start] with the
    password record its account had. *)
Definition asked_password (steps : list Step) (f : LoginFlow) : Prop :=
  exists w c r a user n response,
    mkStep w (RLoginStart c r) a ∈ steps /\ normalize_email (ls_email r) = Some (lf_email f)
    /\ find_email w (lf_email f) = user /\ lf_user f = u_id <$> user
    /\ opaque_login_start (lf_email f) (user ≫= u_record) (ls_request r) n = Ok (response, lf_state f).

(** A [login_finish] finished such an exchange of the user. *)
Definition finished_password (steps : list Step) (w : World) (r : LoginFinish) (user : uuid) : Prop :=
  exists f, flow_at as_login P_LOGIN (lf_id r) w = Some f /\ lf_user f = Some user
    /\ opaque_login_finish (lf_email f) (lf_state f) (lf_finalization r) = true /\ asked_password steps f.
Definition proved_password (steps : list Step) (user : uuid) : Prop :=
  exists w c r a, mkStep w (RLoginFinish c r) a ∈ steps /\ finished_password steps w r user.

(** It did so while the user had no second factor. *)
Definition without_factor (steps : list Step) (user : uuid) : Prop :=
  exists w c r a u, mkStep w (RLoginFinish c r) a ∈ steps /\ finished_password steps w r user
    /\ users w !! user = Some u /\ mfa_enabled w u = false.

(** Or a second factor of the user was checked for a flow of theirs. *)
Definition proved_factor (steps : list Step) (user : uuid) : Prop :=
  exists w c r a f u w1 w2, mkStep w (RMfaVerify c r) a ∈ steps /\ flow_at as_mfa P_MFA (mv_token r) w = Some f
    /\ mf_user f = user /\ mf_reauth f = None /\ users w !! user = Some u
    /\ users w1 = users w /\ passkeys w1 = passkeys w /\ now w1 = now w
    /\ check_factor u (mv_token r) (mv_credential r) w1 = (Ok true, w2).

Definition entitled (steps : list Step) (user : uuid) : Prop :=
  proved_password steps user /\ (without_factor steps user \/ proved_factor steps user).

(** A [recovery_start] presented the verifier of the user's phrase. *)
Definition proved_recovery (steps : list Step) (user : uuid) : Prop :=
  exists w c email e verifier captcha a u, mkStep w (RRecovery c email verifier captcha) a ∈ steps
    /\ normalize_email email = Some e /\ find_email w e = Some u /\ u_id u = user
    /\ constant_time_eq (u_recovery_hash u) (hash_token verifier) = true.

(** What the flows kept in the cache stand for. *)
Definition flow_ok (steps : list Step) (b : Body) : Prop :=
  match b with
  | BLogin f => asked_password steps f
  | BMfa f => mf_reauth f = None -> proved_password steps (mf_user f)
  | BCode s => match payload s with CApproval f => entitled steps (af_user f) | _ => True end
  | BRecovery user => proved_recovery steps user
  | _ => True
  end.
Definition flows_ok (steps : list Step) (w : World) : Prop :=
  forall k b e, cache w !! k = Some (Json b, e) -> is_flow b = true -> flow_ok steps b.

Lemma asked_more st steps f : asked_password steps f -> asked_password (st :: steps) f.
Proof. intros (w & c & r & a & u & n & resp & H & R). exists w, c, r, a, u, n, resp. split; [by apply list_elem_of_further|done]. Qed.
Lemma finished_more st steps w r u : finished_password steps w r u -> finished_password (st :: steps) w r u.
Proof. intros (f & H1 & H2 & H3 & H4). exists f. eauto using asked_more. Qed.
Lemma password_more st steps u : proved_password steps u -> proved_password (st :: steps) u.
Proof. intros (w & c & r & a & H & R). exists w, c, r, a. split; [by apply list_elem_of_further|by apply finished_more]. Qed.
Lemma entitled_more st steps u : entitled steps u -> entitled (st :: steps) u.
Proof.
  intros [Hp [(w & c & r & a & x & H & H1 & R)|(w & c & r & a & f & x & w1 & w2 & H & R)]]; split; try by apply password_more.
  - left. exists w, c, r, a, x. split; [by apply list_elem_of_further|]. split; [by apply finished_more|done].
  - right. exists w, c, r, a, f, x, w1, w2. split; [by apply list_elem_of_further|done].
Qed.
Lemma recovery_more st steps u : proved_recovery steps u -> proved_recovery (st :: steps) u.
Proof.
  intros (w & c & em & e & v & t & a & x & H & R). exists w, c, em, e, v, t, a, x.
  split; [by apply list_elem_of_further|done].
Qed.
Lemma flow_more st steps b : flow_ok steps b -> flow_ok (st :: steps) b.
Proof.
  destruct b as [| |f|f| |s|u| | |]; simpl; auto using asked_more, password_more, recovery_more.
  destruct (payload s); auto using entitled_more.
Qed.

Lemma flow_at_ok {A} (as_a : Body -> option A) purpose token steps w a (back : A -> Body) :
  (forall b, as_a b = Some a -> b = back a) -> is_flow (back a) = true -> flows_ok steps w ->
  flow_at as_a purpose token w = Some a -> flow_ok steps (back a).
Proof.
  intros Hb Hf Hw. unfold flow_at, live. destruct (cache w !! key purpose token) as [[v e]|] eqn:E; [|done].
  destruct (now w <? e); [|done]. destruct v as [b|n]; [|done]. intros H. apply Hb in H as ->. by apply (Hw _ _ _ E).
Qed.

(** ** Frames *)

Definition same_accounts (w w' : World) : Prop :=
  users w' = users w /\ passkeys w' = passkeys w /\ now w' = now w /\ drawn w' = drawn w.
#[export] Instance same_accounts_preorder : PreOrder same_accounts.
Proof. split; [done|]. intros ? ? ? (? & ? & ? & ?) (? & ? & ? & ?). repeat split; congruence. Qed.

Lemma accounts_modify f : (forall w, same_accounts w (f w)) -> keeps same_accounts (modify f).
Proof. intros H w. apply H. Qed.
Lemma accounts_on_cache {A} f : keeps same_accounts (on_cache (A := A) f).
Proof. intros w. unfold on_cache. by destruct (f (now w) (cache w)). Qed.
Hint Resolve accounts_on_cache : keeps.
Hint Extern 3 (keeps same_accounts (modify _)) => (apply accounts_modify; intros; by repeat split) : keeps.
Hint Extern 3 (keeps same_accounts (publish _)) => (apply accounts_modify; intros; by repeat split) : keeps.
Hint Extern 3 (keeps same_accounts (set_key _ _ _)) => (apply accounts_modify; intros; by repeat split) : keeps.
Hint Extern 3 (keeps same_accounts (del_key _)) => (apply accounts_modify; intros; by repeat split) : keeps.

Lemma accounts_limit l s : keeps same_accounts (limit l s).
Proof. apply accounts_on_cache. Qed.
Lemma accounts_home user : keeps same_accounts (ensure_home_team user).
Proof. unfold ensure_home_team, by_id. repeat keeps_step. Qed.
Lemma accounts_link s user : keeps same_accounts (link_identity s user).
Proof. unfold link_identity. repeat keeps_step. Qed.
Lemma accounts_take {A} (as_a : Body -> option A) purpose token : keeps same_accounts (take_flow as_a purpose token).
Proof. unfold take_flow. repeat keeps_step. Qed.
Lemma accounts_consume token email : keeps same_accounts (consume_optional token email).
Proof. unfold consume_optional, consume_session. repeat keeps_step. Qed.
Hint Resolve accounts_limit accounts_consume : keeps.
Lemma accounts_verify {A} (as_a : CodePayload -> option A) purpose token code : keeps same_accounts (verify as_a purpose token code).
Proof. unfold verify. repeat keeps_step. Qed.
Lemma accounts_sso b e : keeps same_accounts (require_sso b e).
Proof. unfold require_sso. repeat keeps_step. Qed.
Lemma accounts_team_sso b e : keeps same_accounts (require_team_sso b e).
Proof. unfold require_team_sso. repeat keeps_step. Qed.
Lemma accounts_turnstile t ip : keeps same_accounts (require_turnstile t ip).
Proof. unfold require_turnstile. repeat keeps_step. Qed.

Lemma mfa_enabled_same w w' u : passkeys w' = passkeys w -> mfa_enabled w' u = mfa_enabled w u.
Proof. unfold mfa_enabled, has_passkey. by intros ->. Qed.

(** A rate limit does not touch the flows. *)
Lemma limit_flow_at {A} (as_a : Body -> option A) purpose token l s w :
  flow_at as_a purpose token (snd (limit l s w)) = flow_at as_a purpose token w.
Proof.
  unfold flow_at, limit, on_cache. destruct (rl_check l s (now w) (cache w)) as [r c] eqn:E. simpl.
  apply (f_equal snd) in E. simpl in E. subst c. unfold rl_check.
  pose proof (incr_window_other (now w) (rl_key l s) (l_window l) (cache w) (key purpose token) (now w)) as H.
  destruct (incr_window _ _ _ _) as [[[n ttl]|e] c]; simpl in *; rewrite H; try done;
    intros E; symmetry in E; by apply key_not_rl in E.
Qed.

Lemma get_flow_inv {A} (as_a : Body -> option A) purpose token w a w' : get_flow as_a purpose token w = (Ok a, w') ->
  w' = w /\ flow_at as_a purpose token w = Some a.
Proof.
  unfold get_flow. run_m. unfold get_json, flow_at. destruct (live _ _ _) as [[b|n]|]; [|done|by intros [=]].
  destruct (as_a b); intros [=]; by subst.
Qed.
Lemma take_flow_inv {A} (as_a : Body -> option A) purpose token w a w' : take_flow as_a purpose token w = (Ok a, w') ->
  flow_at as_a purpose token w = Some a.
Proof.
  unfold take_flow, on_cache, take_json, flow_at. rewrite bind_run. unfold get_json.
  destruct (live _ _ _) as [[b|n]|]; [|done|by intros [=]]. destruct (as_a b); intros [=]; by subst.
Qed.
Lemma by_id_inv user w u w' : by_id user w = (Ok u, w') -> w' = w /\ users w !! user = Some u.
Proof. unfold by_id. run_m. unfold of_option, lift. destruct (users w !! user); intros [=]; by subst. Qed.
End Proven.

(** ** The common tail of a sign-in *)

Section Tail.
Context {X : External} (client : Client) (user : UserRow) (device : DeviceInfo) (sso done_ : bool).

(** The second half: the device, the gate, the approval or the session. *)
Definition after_factor (w : World) : Prop := done_ = true \/ mfa_enabled w user = false.

Lemma continue_login_flows (P : Body -> Prop) w :
  (done_ = false -> P (BMfa (mkMfaFlow (u_id user) (Some device) sso None))) ->
  (after_factor w -> forall h d, P (BCode (mkStored h (CApproval (mkApproval (u_id user) d))))) ->
  new_flows P w (snd (continue_login client user device sso done_ w)).
Proof.
  intros Hm Ha. unfold continue_login. rewrite bind_run.
  pose proof (flows_home (P := P) (u_id user) w) as Hf. pose proof (accounts_home (u_id user) w) as (_ & Hk & _).
  destruct (ensure_home_team (u_id user) w) as [[[]|e] w1]; simpl in *; [|done].
  etrans; [exact Hf|]. run_m. rewrite (mfa_enabled_same _ _ user Hk).
  destruct (negb done_ && mfa_enabled w user) eqn:Hc.
  - apply andb_true_iff in Hc as [Hd%negb_true_iff _]. unfold put_flow, random_token.
    match goal with |- new_flows P w1 (snd (?m w1)) => enough (Hk' : keeps (new_flows P) m) by apply Hk' end.
    repeat keeps_step.
  - assert (Haf : after_factor w). { apply andb_false_iff in Hc as [H%negb_false_iff|H]; [by left|by right]. }
    match goal with |- new_flows P w1 (snd (?m w1)) => enough (Hk' : keeps (new_flows P) m) by apply Hk' end.
    specialize (Ha Haf). unfold Codes.issue, issue_for, random_token, numeric_code. repeat keeps_step.
Qed.

Lemma continue_login_answer w a w' : continue_login client user device sso done_ w = (Ok a, w') ->
  match a with
  | Authenticated s => ns_user s = u_id user /\ after_factor w
  | MfaNeeded _ _ => True
  | ApprovalNeeded _ _ => after_factor w
  | Reauthenticated _ => False
  end.
Proof.
  unfold continue_login. intros (u & w1 & H1 & H)%bind_ok_inv.
  pose proof (accounts_home (u_id user) w) as (_ & Hk & _). rewrite H1 in Hk. simpl in Hk.
  revert H. run_m. rewrite (mfa_enabled_same _ _ user Hk). destruct (negb done_ && mfa_enabled w user) eqn:Hc.
  { run_m. intros (t & w2 & _ & H2)%bind_ok_inv. by injection H2 as <- <-. }
  assert (Haf : after_factor w). { apply andb_false_iff in Hc as [H%negb_false_iff|H]; [by left|by right]. }
  intros ([d n] & w2 & _ & H2)%bind_ok_inv. apply bind_ok_inv in H2 as (u3 & w3 & _ & H3). revert H3. run_m.
  match goal with |- (if ?c then _ else _) _ = _ -> _ => destruct c end.
  - intros ([t code] & w4 & _ & H4)%bind_ok_inv. apply bind_ok_inv in H4 as (u5 & w5 & _ & H5).
    apply bind_ok_inv in H5 as (u6 & w6 & _ & H6). by injection H6 as <- <-.
  - intros (s & w4 & H4 & H5)%bind_ok_inv. apply bind_ok_inv in H5 as (u6 & w6 & _ & H6). injection H6 as <- <-.
    split; [|done]. unfold build_session in H4. apply bind_ok_inv in H4 as ([t ex] & w7 & _ & H7). by injection H7 as <- <-.
Qed.
End Tail.

(** ** One request *)

(** Go through the first call of a handler, remembering how the world relates
    to the one at its start. *)
Lemma step_through {R : relation World} `{!PreOrder R} {A B} (m : M A) (k : A -> M B) (G : World -> Prop) w0 w :
  keeps R m -> R w0 w -> (forall w1, R w0 w1 -> G w1) ->
  (forall a w1, R w0 w1 -> m w = (Ok a, w1) -> G (snd (k a w1))) -> G (snd ((m ≫= k) w)).
Proof.
  intros Hm H0 He Hk. rewrite bind_run. specialize (Hm w). destruct (m w) as [[a|e] w1] eqn:E; simpl in *.
  - apply Hk; [by etrans|done].
  - apply He. by etrans.
Qed.

Definition quietly (P : Body -> Prop) (w w' : World) : Prop := new_flows P w w' /\ same_accounts w w'.
#[export] Instance quietly_preorder P : PreOrder (quietly P).
Proof. split; [split; reflexivity|]. intros ? ? ? [? ?] [? ?]. split; etrans; eauto. Qed.
Lemma keeps_quietly {A} P (m : M A) : keeps (new_flows P) m -> keeps same_accounts m -> keeps (quietly P) m.
Proof. intros H1 H2 w. by split. Qed.

Lemma run_answer (m : M AuthResponse) w a w' : answer m w = (a, w') ->
  w' = snd (m w) /\ (forall x, a = Ok x -> exists r, x = Some r /\ m w = (Ok r, w')).
Proof.
  unfold answer. rewrite bind_run. destruct (m w) as [[r|e] w1]; intros [= <- <-]; (split; [done|]).
  - intros x [= <-]. eauto.
  - done.
Qed.
Lemma run_quiet {A} (m : M A) w a w' : quiet m w = (a, w') -> w' = snd (m w) /\ forall r, a <> Ok (Some r).
Proof. unfold quiet. rewrite bind_run. destruct (m w) as [[r|e] w1]; intros [= <- <-]; by split. Qed.

Lemma accounts_by_id `{External} user : keeps same_accounts (by_id user).
Proof. unfold by_id. repeat keeps_step. Qed.
#[local] Hint Resolve accounts_by_id accounts_limit accounts_consume accounts_sso accounts_team_sso accounts_turnstile accounts_home
  accounts_link accounts_take : keeps.
Tactic Notation "through" "as" simple_intropattern(a) ident(w1) ident(H) ident(E) :=
  eapply (step_through (R := quietly _));
    [apply keeps_quietly; repeat keeps_step|first [eassumption|reflexivity]|intros ? Hq; exact (proj1 Hq)
    |intros a w1 H E].
Ltac through := let w1 := fresh "w" in let H := fresh "H" in let E := fresh "E" in through as ? w1 H E.
(** The rest of a handler, once nothing more has to be remembered. *)
Ltac the_rest :=
  match goal with H : quietly _ ?w0 ?w |- new_flows _ ?w0 _ => etrans; [exact (proj1 H)|] end;
  match goal with |- new_flows ?P ?w (snd (?m ?w)) => let Hr := fresh "Hr" in enough (keeps (new_flows P) m) as Hr by apply Hr end;
  repeat keeps_step.

Section Requests.
Context {X : External} (steps : list Step) (w : World).
Hypothesis (Hkeyed : keyed w) (Hok : flows_ok steps w).

Lemma login_start_flows c r a w' : serve (RLoginStart c r) w = (a, w') ->
  new_flows (flow_ok (mkStep w (RLoginStart c r) a :: steps)) w w'.
Proof.
  intros [-> _]%run_quiet. set (P := flow_ok _).
  unfold login_start, limit_ip.
  do 3 through. through as email wa Ha Ee. do 6 through. through as u wb Hb Eu.
  unfold by_email at 1. run_m.
  assert (Hfe : find_email wb email = find_email w email) by (destruct Hb as [_ (Hu & _)]; unfold find_email; by rewrite Hu).
  rewrite Hfe. through. run_m. through as [resp st] wc Hc Eo.
  unfold of_option, lift in Ee, Eo. injection Ee as Ee _. injection Eo as Eo _. apply ok_or_ok in Ee.
  unfold put_flow, random_token. the_rest. apply flows_set. intros _. simpl. eexists w, c, r, a, (find_email w email), _, resp.
  split; [apply list_elem_of_here|]. done.
Qed.

Lemma login_finish_flows c r a w' : serve (RLoginFinish c r) w = (a, w') ->
  let steps' := mkStep w (RLoginFinish c r) a :: steps in
  new_flows (flow_ok steps') w w'
  /\ forall s, a = Ok (Some (Authenticated s)) -> entitled steps' (ns_user s).
Proof.
  intros E%run_answer. destruct E as [-> Ha]. cbv zeta. set (steps' := mkStep _ _ _ :: steps).
  assert (Hpw : forall user, finished_password steps' w r user -> proved_password steps' user).
  { intros user H. exists w, c, r, a. split; [apply list_elem_of_here|done]. }
  assert (Hent : forall user u0, finished_password steps' w r user -> users w !! user = Some u0 ->
            mfa_enabled w u0 = false -> entitled steps' user).
  { intros user u0 H1 H2 H3. split; [by apply Hpw|left]. exists w, c, r, a, u0. split; [apply list_elem_of_here|done]. }
  (* what the requests so far establish once the password is accepted *)
  assert (Hacc : forall u1 w1 f w2 user u0 w3, limit_ip AUTH_IP (c_ip c) w = (Ok u1, w1) ->
            take_flow as_login P_LOGIN (lf_id r) w1 = (Ok f, w2) -> lf_user f = Some user ->
            negb (opaque_login_finish (lf_email f) (lf_state f) (lf_finalization r)) = false ->
            users w2 = users w -> by_id user w2 = (Ok u0, w3) ->
            finished_password steps' w r user /\ users w !! user = Some u0 /\ u_id u0 = user).
  { intros u1 w1 f w2 user u0 w3 E1 E2 Hu Ho%negb_false_iff Hus (_ & Hu0)%by_id_inv. rewrite Hus in Hu0.
    split; [|split; [done|by apply Hkeyed]]. apply take_flow_inv in E2.
    pose proof (limit_flow_at as_login P_LOGIN (lf_id r) AUTH_IP (default "unknown" (c_ip c)) w) as Hf.
    unfold limit_ip in E1. rewrite E1 in Hf. simpl in Hf. rewrite Hf in E2.
    exists f. repeat split; [done..|]. apply asked_more.
    by apply (flow_at_ok as_login P_LOGIN (lf_id r) steps w f BLogin); [intros [] [= ->]| | |]. }
  split.
  - unfold login_finish. through as u1 w1 H1 E1. through as f w2 H2 E2.
    destruct (lf_user f) as [user|] eqn:Eu; [|the_rest].
    destruct (negb (opaque_login_finish _ _ _)) eqn:Eo; [the_rest|].
    through as u0 w3 H3 E3.
    destruct (Hacc _ _ _ _ _ _ _ E1 E2 Eu Eo (proj1 (proj2 H2)) E3) as (Hf & Hu0 & Hid).
    destruct (u_disabled u0); [the_rest|]. through as u4 w4 H4 E4.
    etrans; [exact (proj1 H4)|]. apply continue_login_flows.
    + intros _. simpl. intros _. rewrite Hid. by apply Hpw.
    + intros [?|Hm] h d; [done|]. simpl. rewrite Hid. apply (Hent _ u0); [done..|].
      rewrite <- Hm. symmetry. apply mfa_enabled_same. by destruct H4 as (_ & _ & ? & _).
  - intros s Es. destruct (Ha _ Es) as (r0 & [= <-] & E). unfold login_finish in E.
    apply bind_ok_inv in E as (u1 & w1 & E1 & E). apply bind_ok_inv in E as (f & w2 & E2 & E).
    destruct (lf_user f) as [user|] eqn:Eu; [|by apply bind_ok_inv in E as (? & ? & _ & E)].
    destruct (negb (opaque_login_finish _ _ _)) eqn:Eo.
    { apply bind_ok_inv in E as (? & ? & _ & E). by apply bind_ok_inv in E as (? & ? & _ & E). }
    pose proof (accounts_limit AUTH_IP (default "unknown" (c_ip c)) w) as H1. unfold limit_ip in *. rewrite E1 in H1.
    pose proof (accounts_take as_login P_LOGIN (lf_id r) w1) as H2. rewrite E2 in H2.
    assert (H12 : same_accounts w w2) by (etrans; eassumption).
    apply bind_ok_inv in E as (u0 & w3 & E3 & E).
    destruct (Hacc _ _ _ _ _ _ _ E1 E2 Eu Eo (proj1 H12) E3) as (Hf & Hu0 & Hid).
    apply by_id_inv in E3 as [-> _].
    destruct (u_disabled u0); [done|]. apply bind_ok_inv in E as (u4 & w4 & E4 & E).
    assert (H4 : same_accounts w2 w4).
    { destruct (lf_sso f) as [sso|]; [|injection E4 as <- <-; reflexivity].
      pose proof (accounts_link sso (u_id u0) w2) as H4. by rewrite E4 in H4. }
    apply continue_login_answer in E as [-> [?|Hm]]; [done|]. rewrite Hid. apply (Hent _ u0); [done..|].
    rewrite <- Hm. symmetry. apply mfa_enabled_same. destruct H12 as (_ & Hp & _), H4 as (_ & Hp' & _). congruence.
Qed.

Lemma mfa_verify_flows c r a w' : serve (RMfaVerify c r) w = (a, w') ->
  let steps' := mkStep w (RMfaVerify c r) a :: steps in
  new_flows (flow_ok steps') w w'
  /\ forall s, a = Ok (Some (Authenticated s)) -> entitled steps' (ns_user s).
Proof.
  intros E%run_answer. destruct E as [-> Ha]. cbv zeta. set (steps' := mkStep _ _ _ :: steps).
  assert (Hacc : forall u1 w1 f w2 u0 w3 w4, limit CODE_GUESS ("mfa:" +:+ hash_token (mv_token r)) w = (Ok u1, w1) ->
            get_flow as_mfa P_MFA (mv_token r) w1 = (Ok f, w2) -> by_id (mf_user f) w2 = (Ok u0, w3) ->
            check_factor u0 (mv_token r) (mv_credential r) w3 = (Ok true, w4) -> mf_reauth f = None ->
            u_id u0 = mf_user f /\ entitled steps' (mf_user f)).
  { intros u1 w1 f w2 u0 w3 w4 E1 [-> E2]%get_flow_inv [-> E3]%by_id_inv E4 Hr.
    pose proof (limit_flow_at as_mfa P_MFA (mv_token r) CODE_GUESS ("mfa:" +:+ hash_token (mv_token r)) w) as Hf.
    pose proof (accounts_limit CODE_GUESS ("mfa:" +:+ hash_token (mv_token r)) w) as (Hus & Hks & Hn & _).
    rewrite E1 in *. simpl in *. rewrite Hf in E2. rewrite Hus in E3.
    split; [by apply Hkeyed|]. split.
    - apply password_more. apply (flow_at_ok as_mfa P_MFA (mv_token r) steps w f BMfa); [intros [] [= ->]| | | |]; done.
    - right. exists w, c, r, a, f, u0, w1, w4. split; [apply list_elem_of_here|]. done. }
  split.
  - unfold mfa_verify. through as u1 w1 H1 E1. unfold get_flow. 
    eapply (step_through (R := quietly _)); [apply keeps_quietly; repeat keeps_step|eassumption|intros ? Hq; exact (proj1 Hq)|].
    intros f w2 H2 E2. through as u0 w3 H3 E3. destruct (u_disabled u0); [the_rest|].
    rewrite bind_run. pose proof (flows_factor (P := flow_ok steps') u0 (mv_token r) (mv_credential r) w3) as Hf4.
    destruct (check_factor _ _ _ w3) as [[ok|e] w4] eqn:E4; simpl in Hf4; [|etrans; [exact (proj1 H3)|exact Hf4]].
    etrans; [exact (proj1 H3)|]. etrans; [exact Hf4|].
    destruct ok; cbn [negb]; [|apply keeps_bind; [auto with keeps|intros; apply keeps_fail]].
    unfold del_flow. run_m. etrans; [apply flows_del|].
    destruct (mf_reauth f) as [session|] eqn:Er; [apply flows_complete|].
    destruct (Hacc _ _ _ _ _ _ _ E1 E2 E3 E4 Er) as [Hid He].
    unfold of_option, lift. rewrite bind_run. destruct (ok_or (mf_device f) _) as [d|e]; [|reflexivity].
    apply continue_login_flows; [done|]. intros _ h d'. simpl. by rewrite Hid.
  - intros s Es. destruct (Ha _ Es) as (r0 & [= <-] & E). unfold mfa_verify in E.
    apply bind_ok_inv in E as (u1 & w1 & E1 & E). apply bind_ok_inv in E as (f & w2 & E2 & E).
    apply bind_ok_inv in E as (u0 & w3 & E3 & E). destruct (u_disabled u0); [done|].
    apply bind_ok_inv in E as (ok & w4 & E4 & E). destruct ok; cbn [negb] in E.
    2: { by apply bind_ok_inv in E as (? & ? & _ & E). }
    apply bind_ok_inv in E as (? & w5 & _ & E).
    destruct (mf_reauth f) as [session|] eqn:Er.
    { unfold complete_step_up in E. apply bind_ok_inv in E as (? & ? & _ & E). by apply bind_ok_inv in E as (? & ? & _ & E). }
    destruct (Hacc _ _ _ _ _ _ _ E1 E2 E3 E4 Er) as [Hid He].
    apply bind_ok_inv in E as (d & w6 & _ & E). apply continue_login_answer in E as [-> _]. by rewrite Hid.
Qed.

Lemma verify_inv {A} (as_a : CodePayload -> option A) purpose token code w0 a w' :
  verify as_a purpose token code w0 = (Ok a, w') ->
  exists h p e, cache w0 !! key purpose token = Some (Json (BCode (mkStored h p)), e) /\ as_a p = Some a
    /\ constant_time_eq h (hash_token (normalize_code code)) = true.
Proof.
  unfold verify. intros (u & w1 & E1 & E)%bind_ok_inv. revert E. run_m. unfold get_json.
  pose proof (limit_flow_at (fun b => Some b) purpose token CODE_GUESS (guess_subject purpose token) w0) as Hf.
  rewrite E1 in Hf. unfold flow_at in Hf. simpl in Hf.
  destruct (live (now w1) (cache w1) (key purpose token)) as [[b|n]|] eqn:El; [|done|done].
  unfold live in Hf at 1. destruct (cache w0 !! key purpose token) as [[v e]|] eqn:Ec; [|done].
  destruct (now w0 <? e); [|done]. destruct v as [b'|]; [|done]. injection Hf as Hf. subst b'.
  unfold as_stored. destruct b as [| | | | |[h p]| | | |]; try done. cbn [as_code mbind option_bind payload code_hash].
  destruct (as_a p) as [a'|] eqn:Ea; [|done]. cbn [mbind option_bind]. unfold of_option, lift. rewrite bind_run.
  cbn [ok_or fst snd]. destruct (negb (constant_time_eq _ _)) eqn:Eq; [done|]. run_m. intros [= <- <-].
  exists h, p, e. split; [done|]. split; [done|]. by apply negb_false_iff in Eq.
Qed.

Lemma reissue_inv {A} (as_a : CodePayload -> option A) of_a purpose token ttl w0 a code w' :
  reissue as_a of_a purpose token ttl w0 = (Ok (a, code), w') ->
  exists h p e, cache w0 !! key purpose token = Some (Json (BCode (mkStored h p)), e) /\ as_a p = Some a
    /\ w' = set_cache (set_json (now w0) (key purpose token) (BCode (mkStored (hash_token code) (of_a a))) ttl (cache w0))
              (set_drawn (drawn w0 + 1)%N w0).
Proof.
  unfold reissue, numeric_code. run_m. unfold get_json.
  destruct (live (now w0) (cache w0) (key purpose token)) as [[b|n]|] eqn:El; [|done|done].
  unfold live in El. destruct (cache w0 !! key purpose token) as [[v e]|]; [|done].
  destruct (now w0 <? e); [|done]. injection El as ->.
  unfold as_stored. destruct b as [| | | | |[h p]| | | |]; try done. cbn [as_code mbind option_bind payload code_hash].
  destruct (as_a p) as [a'|] eqn:Ea; [|done]. cbn [mbind option_bind]. unfold of_option, lift. rewrite bind_run.
  cbn [ok_or fst snd]. run_m. intros [= <- <- <-]. exists h, p, e. done.
Qed.

Lemma approve_flows token code a w' : serve (RApprove token code) w = (a, w') ->
  let steps' := mkStep w (RApprove token code) a :: steps in
  new_flows (flow_ok steps') w w'
  /\ forall s, a = Ok (Some (Authenticated s)) -> entitled steps' (ns_user s).
Proof.
  intros E%run_answer. destruct E as [-> Ha]. cbv zeta. set (steps' := mkStep _ _ _ :: steps). split.
  - match goal with |- new_flows ?P w (snd (?m w)) => enough (Hk : keeps (new_flows P) m) by apply Hk end.
    unfold device_approve. repeat keeps_step.
  - intros s Es. destruct (Ha _ Es) as (r0 & [= <-] & E). unfold device_approve in E.
    apply bind_ok_inv in E as (f & w1 & E1 & E). apply bind_ok_inv in E as (u & w2 & E2 & E).
    destruct (u_disabled u); [done|]. apply bind_ok_inv in E as (x & w3 & E3 & E).
    apply bind_ok_inv in E as (? & w4 & _ & E). injection E as <- _.
    unfold build_session in E3. apply bind_ok_inv in E3 as ([t ex] & w5 & _ & E3). injection E3 as <- <-. simpl.
    destruct (accounts_verify as_approval P_APPROVE token code w) as (Hus & _). rewrite E1 in Hus. simpl in Hus.
    apply by_id_inv in E2 as [_ Hu]. rewrite Hus in Hu.
    apply verify_inv in E1 as (h & p & e & Hc & Hp & _). destruct p as [|f'|]; try done. injection Hp as ->.
    rewrite (Hkeyed _ _ Hu). apply entitled_more. by apply (Hok _ _ _ Hc).
Qed.

Lemma resend_flows token a w' : serve (RResend token) w = (a, w') ->
  new_flows (flow_ok (mkStep w (RResend token) a :: steps)) w w'.
Proof.
  intros [-> _]%run_quiet. set (P := flow_ok _). unfold device_approve_resend. rewrite bind_run.
  destruct (reissue as_approval CApproval P_APPROVE token APPROVAL_TTL w) as [[[f code]|e] w1] eqn:E.
  - apply reissue_inv in E as (h & p & e & Hc & Hp & ->). destruct p as [|f'|]; try done. injection Hp as ->.
    pose proof (Hok _ _ _ Hc eq_refl) as He. simpl in He.
    match goal with |- new_flows _ _ (snd (?m ?w1)) => enough (Hk : keeps (new_flows P) m); [etrans; [|apply Hk]|repeat keeps_step] end.
    split; simpl; [lia|]. intros k b e0. unfold set_json. destruct (decide (key P_APPROVE token = k)) as [<-|Hn].
    + rewrite lookup_insert_eq. intros [= <- <-] _. right. simpl. by apply entitled_more.
    + rewrite lookup_insert_ne by done. auto.
  - assert (Hk : keeps (new_flows P) (reissue as_approval CApproval P_APPROVE token APPROVAL_TTL) -> new_flows P w w1).
    { intros H. specialize (H w). by rewrite E in H. }
    revert E. unfold reissue. run_m. destruct (get_json _ _ _ _) as [o|x]; [|intros [= <- <-]; reflexivity].
    unfold of_option, lift, numeric_code. rewrite bind_run. destruct o as [[h f]|]; cbn [ok_or]; [|intros [= <- <-]; reflexivity].
    by run_m.
Qed.

Lemma recovery_flows c email v t a w' : serve (RRecovery c email v t) w = (a, w') ->
  new_flows (flow_ok (mkStep w (RRecovery c email v t) a :: steps)) w w'.
Proof.
  intros [-> _]%run_quiet. set (P := flow_ok _). unfold recovery_start, limit_ip.
  do 2 through. through as em wa Ha Ee. do 2 through. unfold by_email. run_m.
  match goal with H : quietly P w ?wb |- _ => assert (Hfe : find_email wb em = find_email w em)
      by (destruct H as [_ (Hu & _)]; unfold find_email; by rewrite Hu) end.
  rewrite Hfe. destruct (find_email w em) as [u|] eqn:Eu; [|the_rest].
  destruct (negb (constant_time_eq (u_recovery_hash u) (hash_token v))) eqn:Ec; [the_rest|].
  destruct (u_disabled u); [the_rest|]. unfold put_flow, random_token. the_rest. apply flows_set. intros _. simpl.
  exists w, c, email, em, v, t, a, u. split; [apply list_elem_of_here|].
  unfold of_option, lift in Ee. injection Ee as Ee _. apply ok_or_ok in Ee. apply negb_false_iff in Ec. done.
Qed.

(** The requests whose flows stand for nothing yet. *)
Lemma other_flows r a w' : serve r w = (a, w') ->
  match r with
  | RChallenge _ | RMfaEmail _ | RReauthStart _ _ | RReauthFinish _ _ | RPasswordStart _ _ _ | RPasswordFinish _ _ _
  | RLogout _ | RUse _ => new_flows (flow_ok (mkStep w r a :: steps)) w w'
  | _ => True
  end.
Proof.
  intros E. set (P := flow_ok _). destruct r; try exact I;
    (assert (w' = snd (serve _ w)) as -> by (by rewrite E));
    match goal with |- new_flows P w (snd (?m w)) => enough (Hk : keeps (new_flows P) m) by apply Hk end; clear E;
    unfold serve, quiet, answer, mfa_webauthn_challenge, mfa_email_send, reauth_start, reauth_finish, password_start,
      password_finish, resolve_password_subject, logout, get_flow, set_flow, del_flow, issue_for, numeric_code, put_flow,
      random_token, reauth_proof, require_step_up, of_option; repeat keeps_step; apply flows_set; intros _; simpl; done.
Qed.

Lemma serve_flows r a w' : serve r w = (a, w') -> new_flows (flow_ok (mkStep w r a :: steps)) w w'.
Proof.
  intros E. pose proof (other_flows r a w' E) as Ho. destruct r; try exact Ho.
  - by apply login_start_flows.
  - by apply login_finish_flows.
  - by apply mfa_verify_flows.
  - by apply approve_flows.
  - by apply resend_flows.
  - by apply recovery_flows.
Qed.
End Requests.

(** ** Every run *)

Section Runs.
Context {X : External}.

Lemma history_flows steps w : history steps w -> flows_ok steps w.
Proof.
  induction 1 as [w H|steps w r a w' _ IH Hk E|steps w w' _ IH [_ H]].
  - intros k b e Hb Hf. rewrite (H _ _ _ Hb) in Hf. discriminate.
  - intros k b e Hb Hf. apply serve_flows with (steps := steps) in E as [_ Hn]; [|done..].
    destruct (Hn _ _ _ Hb Hf) as [Hold|]; [|done]. apply flow_more. by apply (IH _ _ _ Hold).
  - intros k b e Hb Hf. destruct (H _ _ _ Hb Hf) as [Hold|[]]. by apply (IH _ _ _ Hold).
Qed.

(** What [password_finish] asks for instead: the phrase or a fresh step-up. *)
Definition may_reset (steps : list Step) (w : World) (h : Request) (r : PasswordFinish) (user : uuid) : Prop :=
  exists auth w1, authenticate_optional h w = (Ok auth, w1)
    /\ match pf_recovery_token r with
       | Some t => flow_at as_recovery P_RECOVERY t w1 = Some user /\ proved_recovery steps user
       | None => exists a, auth = Some a /\ user_id a = user /\ step_up_fresh (now w1) (auth_session a) = true
       end.

(** Rows keep their id. *)
Definition same_ids (w w' : World) : Prop :=
  forall id u', users w' !! id = Some u' -> exists u, users w !! id = Some u /\ u_id u = u_id u'.
#[local] Instance same_ids_preorder : PreOrder same_ids.
Proof.
  split; [intros w id u H; eauto|]. intros w w1 w2 H1 H2 id u E. destruct (H2 _ _ E) as (u1 & E1 & I1).
  destruct (H1 _ _ E1) as (u0 & E0 & I0). exists u0. split; [done|congruence].
Qed.
Lemma same_ids_keyed w w' : same_ids w w' -> keyed w -> keyed w'.
Proof. intros H Hk id u E. destruct (H _ _ E) as (u0 & E0 & <-). by apply Hk. Qed.

Lemma ids_modify f : (forall w, users (f w) = users w) -> keeps same_ids (modify f).
Proof. intros H w id u. simpl. rewrite H. eauto. Qed.
Lemma ids_on_cache {A} f : keeps same_ids (on_cache (A := A) f).
Proof. intros w id u. unfold on_cache. destruct (f (now w) (cache w)). simpl. eauto. Qed.
Lemma ids_alter id f : (forall u, u_id (f u) = u_id u) -> keeps same_ids (modify (fun w => set_users (alter f id (users w)) w)).
Proof.
  intros H w id' u. simpl. rewrite lookup_alter_Some. intros [(-> & u0 & E & ->)|[_ E]]; [|eauto].
  exists u0. by rewrite H.
Qed.
Lemma ids_draw {A} (f : N -> A) : keeps same_ids (draw f).
Proof. intros w id u H. eauto. Qed.
Hint Resolve ids_on_cache ids_draw : keeps.
Hint Extern 3 (keeps same_ids (modify _)) => (apply ids_modify; reflexivity) : keeps.
Hint Extern 3 (keeps same_ids (publish _)) => (apply ids_modify; reflexivity) : keeps.
Hint Extern 3 (keeps same_ids (set_key _ _ _)) => (apply ids_modify; reflexivity) : keeps.
Hint Extern 3 (keeps same_ids (del_key _)) => (apply ids_modify; reflexivity) : keeps.
Hint Extern 3 (keeps same_ids (forget_device _)) => (apply ids_modify; reflexivity) : keeps.

Lemma ids_authenticate h : keeps same_ids (authenticate h).
Proof. unfold authenticate, validate, touch. repeat keeps_step. by apply ids_alter. Qed.
Hint Resolve ids_authenticate : keeps.
Lemma ids_authenticate_optional h : keeps same_ids (authenticate_optional h).
Proof. unfold authenticate_optional. repeat keeps_step. Qed.
Lemma ids_drop user rows : keeps same_ids (drop_cached user rows).
Proof. apply keeps_for_each. intros [id s]. repeat keeps_step. Qed.
Hint Resolve ids_drop : keeps.
Lemma ids_revoke_all user keep : keeps same_ids (revoke_all user keep).
Proof. unfold revoke_all, revoke_where. repeat keeps_step. Qed.
Lemma ids_by_id user : keeps same_ids (by_id user).
Proof. unfold by_id. repeat keeps_step. Qed.
Hint Resolve ids_revoke_all ids_by_id : keeps.

Lemma keeps_run {R : relation World} {A} {m : M A} {w r w'} : keeps R m -> m w = (r, w') -> R w w'.
Proof. intros H E. specialize (H w). by rewrite E in H. Qed.
Lemma guard_inv b e w u w' : guard_or b e w = (Ok u, w') -> w' = w /\ b = true.
Proof. unfold guard_or. destruct b; [|done]. intros E. by injection E. Qed.

(** [password_finish] signs in the account it resolved. *)
Lemma password_finish_user auth c r w s w' : keyed w -> password_finish auth c r w = (Ok (Authenticated s), w') ->
  exists u w1, resolve_password_subject auth (pf_recovery_token r) w = (Ok u, w1) /\ ns_user s = u_id u
    /\ (forall a, auth = Some a -> ns_device s = device_id a).
Proof.
  intros Hk. unfold password_finish. intros (u & w1 & E1 & E)%bind_ok_inv. exists u, w1. split; [done|].
  assert (Hk1 : keyed w1).
  { assert (Hi : keeps same_ids (resolve_password_subject auth (pf_recovery_token r))).
    { unfold resolve_password_subject, get_flow, require_step_up. repeat keeps_step. }
    specialize (Hi w). rewrite E1 in Hi. by apply (same_ids_keyed w). }
  apply bind_ok_inv in E as (? & w2 & E2 & E). apply bind_ok_inv in E as (? & w3 & E3 & E).
  apply bind_ok_inv in E as (rec & w4 & E4 & E). apply bind_ok_inv in E as (dev & w5 & E5 & E).
  assert (Hw5 : w5 = w1).
  { apply guard_inv in E2 as [-> _].
    assert (w3 = w1) as ->.
    { destruct (pf_new_recovery r) as [[vv xx]|]; [|by injection E3].
      apply bind_ok_inv in E3 as (? & w6 & [-> _]%guard_inv & [-> _]%guard_inv). done. }
    assert (w4 = w1) as -> by (unfold lift in E4; by injection E4). destruct auth, (pf_device r); by injection E5. }
  subst w5. revert E. rewrite bind_modify. intros (? & w6 & E6 & E)%bind_ok_inv.
  apply bind_ok_inv in E as (d & w7 & E7 & E). apply bind_ok_inv in E as (? & w8 & E8 & E).
  apply bind_ok_inv in E as (u' & w9 & E9 & E). apply bind_ok_inv in E as (n & w10 & E10 & E).
  apply bind_ok_inv in E as (? & ? & _ & E). apply bind_ok_inv in E as (? & ? & _ & E).
  apply bind_ok_inv in E as (? & ? & _ & E). injection E as <- _.
  unfold build_session in E10. apply bind_ok_inv in E10 as ([t ex] & ? & _ & E10). injection E10 as <- _. simpl.
  split.
  - assert (Hk8 : keyed w8).
    { apply (same_ids_keyed w1); [|done].
      etrans; [apply (ids_alter (u_id u) (set_password r rec)); intros y; unfold set_password;
        by destruct (pf_new_recovery r) as [[? ?]|]|].
      etrans; [refine (keeps_run _ E6); unfold del_flow; repeat keeps_step|].
      etrans; [refine (keeps_run _ E7); unfold upsert_device, new_uuid, of_option; repeat keeps_step|].
      exact (keeps_run (ids_revoke_all _ _) E8). }
    apply by_id_inv in E9 as [_ E9]. by rewrite (Hk8 _ _ E9).
  - intros a ->. injection E5 as <-. simpl in E7. by injection E7 as <- _.
Qed.

End Runs.

(** ** Witness *)

#[local] Existing Instance demo_external.

Definition guarded_user : UserRow := mkUser 1 "a@b.c" true (Some (as_bytes "pw")) "hash" "" "" (Some []) true false false None no_profile.
Definition with_users (l : list UserRow) (w : World) : World :=
  set_users (list_to_map (map (fun u => (u_id u, u)) l)) w.
Definition laptop : DeviceInfo := mkDeviceInfo "laptop" Linux "1.0.0" None.
Definition after (r : ServerRequest) (w : World) : World := snd (serve r w).

Lemma keyed_decide w : bool_decide (map_Forall (fun id u => u_id u = id) (users w)) = true -> keyed w.
Proof. intros H%bool_decide_eq_true id u E. exact (H id u E). Defined.

