(* ===== verification/Factors.v ===== *)
(** * Second factors, step-up and resets

    What the routes of [SignIn] promise beyond a session's proof: a one-time
    password counts once; and where step-up, a reset and a resent code fall
    short of what the routes say. *)
From Stdlib Require Import Ascii.
From stdpp Require Import pretty.
From S2P Require Import Prelude Text VaultAccess Backend Server Sessions Codes Trust SignIn.

#[local] Open Scope string_scope.
#[local] Open Scope list_scope.
#[local] Open Scope Z_scope.

(** ** One-time passwords count once *)

Section Totp.
Context {X : External} (user : UserRow).

(** Attempts of the user at some times, and whatever else happens between
    them. *)
Inductive Attempt : Type := Try (t : Z) (code : string) | Meanwhile (f : World -> World).

(** Nothing else writes the counters of used steps. *)
Definition leaves_steps (a : Attempt) : Prop :=
  match a with
  | Meanwhile f => forall w step, cache (f w) !! totp_used_key (u_id user) step = cache w !! totp_used_key (u_id user) step
  | Try _ _ => True
  end.
Definition try_times (l : list Attempt) : list Z := omap (fun a => match a with Try t _ => Some t | Meanwhile _ => None end) l.

(** The step a code matches at a time. *)
Definition matched (t : Z) (code : string) : option Z :=
  match u_totp user with
  | Some enc => match decrypt_totp enc with Ok secret => totp_check secret t (normalize_code code) | Err _ => None end
  | None => None
  end.

(** The steps whose codes were accepted. *)
Fixpoint accepted (l : list Attempt) (w : World) : list Z :=
  match l with
  | [] => []
  | Try t code :: l =>
      let '(r, w') := check_totp user code (set_now t w) in
      match r, matched t code with
      | Ok true, Some step => step :: accepted l w'
      | _, _ => accepted l w'
      end
  | Meanwhile f :: l => accepted l (f w)
  end.

(** A step is spent until its counter expires. *)
Definition spent (w : World) (step e : Z) : Prop :=
  exists n, cache w !! totp_used_key (u_id user) step = Some (Count n, e) /\ 1 <= n.

(** What is kept under these keys was counted there. *)
Definition steps_counted (w : World) : Prop :=
  forall step v e, cache w !! totp_used_key (u_id user) step = Some (v, e) -> spent w step e.

Lemma used_key_inj s s' : totp_used_key (u_id user) s = totp_used_key (u_id user) s' -> s = s'.
Proof. unfold totp_used_key. intros H. do 3 apply String.app_inj in H. by apply pretty_Z_inj in H. Qed.

(** Counting a step: the first count answers one, and the counter outlives the
    window. *)
Lemma count_step w step : steps_counted w ->
  let k := totp_used_key (u_id user) step in
  let '(r, c) := incr_window (now w) k 95 (cache w) in
  let w' := set_cache c w in
  steps_counted w' /\ (forall s e, spent w s e -> now w < e -> spent w' s e)
  /\ (forall n ttl, r = Ok (n, ttl) -> n = 1 ->
        spent w' step (now w + 95000) /\ forall e, spent w step e -> e <= now w).
Proof.
  intros Hc k. unfold incr_window, counter, live.
  assert (Hput : forall n e, 1 <= n -> let w' := set_cache (<[k := (Count n, e)]> (cache w)) w in
            spent w' step e /\ steps_counted w' /\ forall s0 e0, s0 <> step -> spent w s0 e0 -> spent w' s0 e0).
  { intros n e Hn w'. assert (Hs : spent w' step e) by (exists n; simpl; by rewrite lookup_insert_eq).
    assert (Ho : forall s0, s0 <> step -> cache w' !! totp_used_key (u_id user) s0 = cache w !! totp_used_key (u_id user) s0).
    { intros s0 Hne. simpl. rewrite lookup_insert_ne; [done|]. intros E. by apply Hne, used_key_inj. }
    split; [done|]. split.
    - intros s0 v e0 H. destruct (decide (s0 = step)) as [->|Hne].
      + simpl in H. fold k in H. rewrite lookup_insert_eq in H. injection H as <- <-. done.
      + rewrite (Ho s0 Hne) in H. destruct (Hc _ _ _ H) as (m & Hm & Hl). exists m. by rewrite (Ho s0 Hne).
    - intros s0 e0 Hne (m & Hm & Hl). exists m. by rewrite (Ho s0 Hne). }
  destruct (cache w !! k) as [[v e]|] eqn:Ek.
  - destruct (Hc step v e Ek) as (n & Hn & Hl). fold k in Hn. rewrite Ek in Hn. injection Hn as ->.
    destruct (Z.ltb_spec (now w) e) as [He|He]; cbn [fst snd].
    + destruct (n <? i64_max); cbn [fst snd].
      * destruct (Hput (n + 1) e ltac:(lia)) as (H1 & H2 & H3). split; [done|]. split.
        -- intros s0 e0 H _. destruct (decide (s0 = step)) as [->|Hne]; [|by apply H3].
           destruct H as (m & Hm & _). fold k in Hm. rewrite Ek in Hm. injection Hm as _ <-. done.
        -- intros m ttl [= <- _]. lia.
      * split; [done|]. split; [done|]. intros m ttl [=].
    + destruct (Hput 1 (now w + ttl_ms 95) ltac:(lia)) as (H1 & H2 & H3). split; [done|].
      assert (Hdead : forall e0, spent w step e0 -> e0 <= now w).
      { intros e0 (m & Hm & _). fold k in Hm. rewrite Ek in Hm. injection Hm as _ <-. done. }
      split; [|intros m ttl _ _; by split].
      intros s0 e0 H Hlt. destruct (decide (s0 = step)) as [->|Hne]; [apply Hdead in H; lia|by apply H3].
  - destruct (Hput 1 (now w + ttl_ms 95) ltac:(lia)) as (H1 & H2 & H3). split; [done|].
    assert (Hnone : forall e0, ~ spent w step e0).
    { intros e0 (m & Hm & _). fold k in Hm. by rewrite Ek in Hm. }
    split; [|intros m ttl _ _; split; [done|]; intros e0 H; by destruct (Hnone e0)].
    intros s0 e0 H Hlt. destruct (decide (s0 = step)) as [->|Hne]; [by destruct (Hnone e0)|by apply H3].
Qed.

Lemma check_totp_run code w : steps_counted w -> exists r w', check_totp user code w = (r, w')
  /\ steps_counted w' /\ (forall s e, spent w s e -> now w < e -> spent w' s e)
  /\ (r = Ok true -> exists step, matched (now w) code = Some step /\ spent w' step (now w + 95000)
        /\ forall e, spent w step e -> e <= now w).
Proof.
  intros Hc. unfold check_totp, matched.
  assert (Hno : forall r : result ApiError bool, r <> Ok true -> exists r0 w', (r, w) = (r0, w')
    /\ steps_counted w' /\ (forall s e, spent w s e -> now w < e -> spent w' s e)
    /\ (r0 = Ok true -> exists step, match u_totp user with Some enc => match decrypt_totp enc with Ok secret =>
         totp_check secret (now w) (normalize_code code) | Err _ => None end | None => None end = Some step
         /\ spent w' step (now w + 95000) /\ forall e, spent w step e -> e <= now w)).
  { intros r Hr. exists r, w. split; [done|]. split; [done|]. by split. }
  destruct (u_totp user) as [enc|]; [|by apply (Hno (Ok false))].
  unfold lift. rewrite bind_run. destruct (decrypt_totp enc) as [secret|e]; [|by apply (Hno (Err e))].
  run_m. destruct (totp_check secret (now w) (normalize_code code)) as [step|]; [|by apply (Hno (Ok false))].
  clear Hno. rewrite bind_run. unfold on_cache. pose proof (count_step w step Hc) as H. cbv zeta in H.
  destruct (incr_window _ _ _ _) as [[[n ttl]|e] c]; destruct H as (H1 & H2 & H3);
    (eexists _, _; split; [reflexivity|]); (split; [exact H1|]); (split; [exact H2|]); [|done].
  intros [= Hn%Z.eqb_eq]. exists step. split; [done|]. by apply (H3 n ttl).
Qed.

(** RFC 6238 with a skew of one step: a code is of the current step of thirty
    seconds or of a neighbour of it. *)
Hypothesis (Hskew : forall secret t code step, totp_check secret t code = Some step -> step - 1 <= t / 30000 <= step + 1).

Lemma matched_window t code step : matched t code = Some step -> (step - 1) * 30000 <= t < (step + 2) * 30000.
Proof.
  unfold matched. destruct (u_totp user) as [enc|]; [|done]. destruct (decrypt_totp enc) as [secret|]; [|done].
  intros H%Hskew. pose proof (Z.div_mod t 30000 ltac:(lia)). pose proof (Z.mod_pos_bound t 30000 ltac:(lia)). lia.
Qed.

Lemma meanwhile_spent f w s e : leaves_steps (Meanwhile f) -> spent w s e -> spent (f w) s e.
Proof. intros Hf (n & Hn & Hp). exists n. by rewrite (Hf w s). Qed.
Lemma meanwhile_counted f w : leaves_steps (Meanwhile f) -> steps_counted w -> steps_counted (f w).
Proof. intros Hf Hc s v e. rewrite (Hf w s). intros H. apply meanwhile_spent; [done|by apply (Hc _ _ _ H)]. Qed.

Lemma accepted_late l w s : Forall (fun t => (s + 2) * 30000 <= t) (try_times l) -> s ∉ accepted l w.
Proof.
  revert w. induction l as [|[t code|f] l IH]; intros w Hl; simpl; [apply not_elem_of_nil| |by apply IH].
  simpl in Hl. apply Forall_cons in Hl as [Ht Hl]. destruct (check_totp user code (set_now t w)) as [r w'].
  assert (Hm : forall step, matched t code = Some step -> s <> step).
  { intros step E ->. apply matched_window in E. lia. }
  destruct r as [[|]|e]; try by apply IH. destruct (matched t code) as [step|]; [|by apply IH].
  apply not_elem_of_cons. split; [by apply Hm|by apply IH].
Qed.

(** Steps spent for the rest of their window are not accepted any more. *)
Lemma accepted_fresh l w s e : steps_counted w -> Forall leaves_steps l -> Sorted Z.le (try_times l) ->
  spent w s e -> (s + 2) * 30000 <= e -> s ∉ accepted l w.
Proof.
  revert w. induction l as [|[t code|f] l IH]; intros w Hc Hl Ht Hs He; simpl; [apply not_elem_of_nil| |];
    apply Forall_cons in Hl as [Ha Hl].
  2: { apply IH; [by apply meanwhile_counted|done|done|by apply meanwhile_spent|done]. }
  assert (Hlate : e <= t -> Forall (fun t' => (s + 2) * 30000 <= t') (try_times l)).
  { intros Hle. apply Sorted_StronglySorted in Ht; [|intros x y z; lia]. apply StronglySorted_inv in Ht as [_ Ht].
    eapply Forall_impl; [exact Ht|]. simpl. lia. }
  apply Sorted_inv in Ht as [Ht _].
  destruct (check_totp_run code (set_now t w) Hc) as (r & w' & -> & Hc' & Hk & Hok). simpl in Hok, Hk.
  assert (Htail : s ∉ accepted l w').
  { destruct (Z.lt_ge_cases t e); [|by apply accepted_late, Hlate]. apply IH; [done..| |done]. by apply Hk. }
  destruct r as [[|]|x]; try done. destruct (Hok eq_refl) as (step & Hm & _ & Hdead). rewrite Hm.
  apply not_elem_of_cons. split; [|done]. intros <-. specialize (Hdead e Hs). apply matched_window in Hm. lia.
Qed.

(** a one-time password counts once. Whatever codes are tried for a user
    over time, and whatever else happens in between as long as it leaves the
    counters of used steps alone, no time step is accepted twice: the counter
    of 95 seconds outlives the 90 in which codes of its step are taken. *)
Theorem totp_code_counts_once l w : steps_counted w -> Forall leaves_steps l -> Sorted Z.le (try_times l) ->
  NoDup (accepted l w).
Proof.
  revert w. induction l as [|[t code|f] l IH]; intros w Hc Hl Ht; simpl; [constructor| |];
    apply Forall_cons in Hl as [Ha Hl].
  2: { apply IH; [by apply meanwhile_counted|done..]. }
  simpl in Ht. apply Sorted_inv in Ht as [Ht _].
  destruct (check_totp_run code (set_now t w) Hc) as (r & w' & -> & Hc' & _ & Hok). simpl in Hok.
  destruct r as [[|]|x]; try by apply IH. destruct (Hok eq_refl) as (step & Hm & Hs & _). rewrite Hm.
  constructor; [|by apply IH]. apply matched_window in Hm.
  apply (accepted_fresh _ _ _ (t + 95000)); [done..|lia].
Qed.
End Totp.

(** ** A resent code *)

Section Resend.
Context {X : External}.

Lemma bind_some {A B} (a : A) e (k : A -> M B) w : (of_option (Some a) e ≫= k) w = k a w.
Proof. reflexivity. Qed.

Lemma verify_refuses {A} (as_a : CodePayload -> option A) purpose token code w h p e :
  cache w !! key purpose token = Some (Json (BCode (mkStored h p)), e) ->
  constant_time_eq h (hash_token (normalize_code code)) = false ->
  is_ok (fst (verify as_a purpose token code w)) = false.
Proof.
  intros Hc Hh. destruct (verify as_a purpose token code w) as [[a|x] w'] eqn:E; [|done].
  apply verify_inv in E as (h' & p' & e' & Hc' & _ & Heq). rewrite Hc in Hc'. injection Hc' as -> _ _. congruence.
Qed.

(** Asking for the approval code again when the hour's mails are used up
    refuses the request, sends nothing, and still replaces the stored code:
    the code that was mailed no longer opens the device. *)
Theorem limited_resend_kills_the_mailed_code token code w f u e :
  cache w !! key P_APPROVE token = Some (Json (BCode (mkStored (hash_token (normalize_code code)) (CApproval f))), e) ->
  now w < e -> users w !! af_user f = Some u -> mailer (cfg w) = true ->
  is_ok (fst (rl_check EMAIL (u_email u) (now w) (cache w))) = false ->
  constant_time_eq (hash_token (code_at (drawn w))) (hash_token (normalize_code code)) = false ->
  let '(r, w') := device_approve_resend token w in
  is_ok r = false /\ mails w' = mails w /\ is_ok (fst (device_approve token code w')) = false.
Proof.
  intros Hc He Hu Hm Hl Hne. unfold device_approve_resend, reissue, numeric_code. run_m.
  unfold get_json, live. rewrite Hc. destruct (Z.ltb_spec (now w) e) as [_|]; [|lia].
  change (as_stored as_approval _) with (Some (hash_token (normalize_code code), f)). cbv iota beta.
  rewrite bind_assoc, bind_some. run_m. unfold by_id. run_m. cbn [users set_cache set_drawn cache now drawn]. rewrite Hu, bind_some.
  unfold send_code_email. run_m. cbn [cfg set_cache set_drawn]. rewrite Hm. cbn [negb]. rewrite bind_run, limit_run.
  cbn [now cache set_cache set_drawn].
  set (c' := set_json (now w) (key P_APPROVE token) _ _ (cache w)).
  assert (Hkey : c' !! rl_key EMAIL (u_email u) = cache w !! rl_key EMAIL (u_email u)).
  { unfold c', set_json. by rewrite lookup_insert_ne by apply key_not_rl. }
  destruct (rl_check_entry EMAIL (u_email u) (now w) c' (cache w) Hkey) as [Hf _]. rewrite Hf.
  destruct (fst (rl_check EMAIL (u_email u) (now w) (cache w))) as [x|x]; [done|]. split; [done|]. split; [done|].
  unfold device_approve. rewrite bind_run.
  assert (Hv : is_ok (fst (verify as_approval P_APPROVE token code
                 (set_cache (snd (rl_check EMAIL (u_email u) (now w) c')) (set_cache c' (set_drawn (drawn w + 1)%N w))))) = false).
  { eapply verify_refuses; [|exact Hne]. cbn [cache set_cache]. rewrite rl_check_elsewhere by apply key_not_rl.
    unfold c', set_json. apply lookup_insert_eq. }
  by destruct (verify _ _ _ _ _) as [[y|y] w2].
Qed.
End Resend.

(** ** Two scenarios, and witnesses *)

#[local] Existing Instance demo_external.

Definition bearer_of (token : string) : Request :=
  mkRequest (Some ("Bearer " +:+ token)) "POST" "/api/v1/auth" None None None.
(** A user without a password, as single sign-on creates them, with a one-time
    password as second factor. *)
Definition sso_user : UserRow := mkUser 1 "a@b.c" false None "hash" "" "" (Some []) true false false None no_profile.
Definition factor_off (u : UserRow) : UserRow :=
  mkUser (u_id u) (u_email u) (u_verified u) (u_record u) (u_recovery_hash u) (u_recovery_wrapped u) (u_wrapped u)
    None false (u_admin u) (u_disabled u) (u_last_seen u) (u_profile u).
Definition two_users : World :=
  set_users {[1%N := demo_user; 2%N := mkUser 2 "d@e.f" true None "phrase" "" "" None false false false None no_profile]}
    (set_sessions {[5%N := mkSession 1 7 "tok" 0 1000000 0 None (Some 0) None]} signed_in).

(** A re-authentication started while a second factor was the only proof there
    is, is completed without any once the factor is gone. *)
Lemma step_up_without_proof :
  let w := set_users {[1%N := sso_user]} signed_in in
  let start := serve (RReauthStart (bearer_of "tok") None) w in
  let w1 := set_users (alter factor_off 1%N (users (snd start))) (snd start) in
  is_ok (fst start) = true
  /\ fst (serve (RReauthFinish (bearer_of "tok") (mkReauthFinish "t0" None None)) w1)
     = Ok (Some (Reauthenticated STEP_UP_TTL)).
Proof. vm_compute. done. Qed.

(** A reset that comes with a session of one user and a recovery token of
    another signs the second in on the device of the first. *)
Definition foreign_reset : result ApiError (option AuthResponse) * World :=
  serve (RPasswordFinish (bearer_of "tok") (mkClient None) (mkPasswordFinish (Some "t0") "new" "" None None))
    (snd (serve (RRecovery (mkClient None) "d@e.f" "phrase" None) two_users)).

Lemma reset_with_a_foreign_session :
  tables_sound two_users
  /\ (exists s, fst foreign_reset = Ok (Some (Authenticated s)) /\ ns_user s = 2%N /\ ns_device s = 7%N)
  /\ ~ tables_sound (snd foreign_reset).
Proof.
  split; [|split].
  - split; cbn [two_users sessions devices set_users set_sessions set_devices signed_in].
    + intros id id' s s' [<- <-]%lookup_singleton_Some [<- <-]%lookup_singleton_Some. done.
    + intros id id' s s' [<- <-]%lookup_singleton_Some [<- <-]%lookup_singleton_Some. done.
    + intros id s [<- <-]%lookup_singleton_Some. exists demo_device. by vm_compute.
  - eexists. split; [vm_compute; reflexivity|done].
  - assert (Hs : exists s, sessions (snd foreign_reset) !! 1002%N = Some s /\ s_user s = 2%N /\ s_device s = 7%N).
    { eexists. split; [vm_compute; reflexivity|done]. }
    assert (Hd : d_user <$> devices (snd foreign_reset) !! 7%N = Some 1%N) by (vm_compute; reflexivity).
    destruct Hs as (s & Hs & Hu & H7). intros [_ _ Ho]. destruct (Ho _ _ Hs) as (d & Hd' & Hdu).
    rewrite H7 in Hd'. rewrite Hd' in Hd. injection Hd as Hd. congruence.
Qed.

(** A reset whose device is refused answers an error after the password was
    replaced and the token used up, and signs nobody out. *)
Definition failed_reset : result ApiError (option AuthResponse) * World :=
  serve (RPasswordFinish (mkRequest None "POST" "/api/v1/auth" None None None) (mkClient None)
           (mkPasswordFinish (Some "t0") "new" "" None (Some (mkDeviceInfo "" Linux "1.0.0" None))))
    (snd (serve (RRecovery (mkClient None) "d@e.f" "phrase" None)
            (set_sessions {[5%N := mkSession 2 8 "old" 0 1000000 0 None (Some 0) None]} two_users))).

Lemma failed_reset_changes_the_password :
  fst failed_reset = Err (BadRequest "Invalid device name")
  /\ (u_record <$> users two_users !! 2%N) = Some None
  /\ (u_record <$> users (snd failed_reset) !! 2%N) = Some (Some (as_bytes "new"))
  /\ is_ok (fst (get_flow as_recovery P_RECOVERY "t0" (snd failed_reset))) = false
  /\ is_revoked (snd failed_reset) 5 = false.
Proof. vm_compute. done. Qed.

Definition attempts : list Attempt :=
  [Try 0 "000"; Try 30000 "1"; Meanwhile (set_users ∅); Try 30001 "1"; Try 59999 "1"; Try 60000 "2"].

Lemma totp_code_counts_once_witness :
  accepted sso_user attempts demo_world = [1; 2] /\ NoDup (accepted sso_user attempts demo_world).
Proof.
  split; [vm_compute; reflexivity|]. apply (totp_code_counts_once sso_user).
  - intros secret t code step. cbn. case_bool_decide; [|discriminate]. intros [= <-]. lia.
  - intros step v e H. cbn in H. by rewrite lookup_empty in H.
  - repeat constructor.
  - vm_compute. repeat constructor; discriminate.
Defined.

Lemma limited_resend_kills_the_mailed_code_witness :
  let w := set_cache {[key P_APPROVE "t" := (Json (BCode (mkStored "123456" (CApproval (mkApproval 1 7)))), 900000);
                       rl_key EMAIL "a@b.c" := (Count 5, 3600000)]} signed_in in
  is_ok (fst (device_approve "t" "123456" w)) = true
  /\ let '(r, w') := device_approve_resend "t" w in
     is_ok r = false /\ mails w' = mails w /\ is_ok (fst (device_approve "t" "123456" w')) = false.
Proof.
  intros w. split; [vm_compute; reflexivity|].
  apply (limited_resend_kills_the_mailed_code "t" "123456" w (mkApproval 1 7) demo_user 900000);
    vm_compute; reflexivity.
Defined.
