(* ===== verification/Mfa.v ===== *)
(** * Managing second factors

    [crates/termoso-server/src/routes/mfa.rs]: one-time passwords, passkeys
    and the ten backup codes that go with the first of them. *)
From Stdlib Require Import Ascii.
From stdpp Require Import pretty.
From S2P Require Import Prelude Text VaultAccess Backend Server Sessions Codes Trust SignIn.

#[local] Open Scope string_scope.
#[local] Open Scope list_scope.
#[local] Open Scope Z_scope.

Definition P_TOTP_SETUP : string := "totp_setup".
Definition P_WEBAUTHN_REG : string := "webauthn_reg".
Definition SETUP_TTL : Z := 600.
Definition BACKUP_CODE_COUNT : nat := 10.

(** ** Backup codes ([util.rs]) *)

Definition ALPHABET : bytes := as_bytes "abcdefghjkmnpqrstuvwxyz23456789".

(** Two groups of five. *)
Definition backup_code (draws : list nat) : string :=
  let raw := map (fun i => nth i ALPHABET 0) draws in of_bytes (take 5 raw ++ 45 :: drop 5 raw).

Section Mfa.
Context {X : External}.

Definition backup_rows (user : uuid) (codes : list string) : list BackupCode :=
  map (fun c => mkBackup user (hash_token (normalize_code c)) None) codes.

Definition draw_codes (n : N) : list string :=
  map (fun i => backup_code (backup_draws (n + N.of_nat i)%N)) (seq 0 BACKUP_CODE_COUNT).

(** [DELETE] and ten [INSERT]s in one transaction. *)
Definition regenerate_backup_codes (user : uuid) : M (list string) :=
  n ← asks drawn;
  _ ← modify (fun w => set_drawn (drawn w + N.of_nat BACKUP_CODE_COUNT)%N w);
  let codes := draw_codes n in
  _ ← modify (fun w => set_backup_codes (filter (fun c => bc_user c <> user) (backup_codes w) ++ backup_rows user codes) w);
  mret codes.

Definition cleanup_backup_codes_if_no_mfa (user : uuid) : M unit :=
  u ← by_id user;
  on ← asks (fun w => mfa_enabled w u);
  if negb on then modify (fun w => set_backup_codes (filter (fun c => bc_user c <> user) (backup_codes w)) w) else mret tt.

(** ** Handlers *)

Record MfaStatus := mkMfaStatus {
  ms_totp : bool; ms_passkeys : list (uuid * string * option Z); ms_backup_codes_remaining : Z
}.

Definition mfa_status (auth : Auth) : M MfaStatus :=
  u ← by_id (user_id auth);
  keys ← asks (fun w => load_passkeys w (u_id u));
  rows ← asks (fun w => filter (fun c => bc_user c = u_id u /\ bc_used c = None) (backup_codes w));
  mret (mkMfaStatus (u_totp_enabled u) (map (fun '(id, k) => (id, pk_name k, pk_used k)) keys)
          (Z.of_nat (length rows) mod 2 ^ 32)).

Definition with_totp (secret : option bytes) (enabled : bool) (u : UserRow) : UserRow :=
  mkUser (u_id u) (u_email u) (u_verified u) (u_record u) (u_recovery_hash u) (u_recovery_wrapped u) (u_wrapped u)
    secret enabled (u_admin u) (u_disabled u) (u_last_seen u) (u_profile u).

Definition totp_setup (auth : Auth) : M (bytes * string) :=
  u ← by_id (user_id auth);
  if u_totp_enabled u then fail (Conflict "TOTP is already enabled") else
  secret ← draw secret_at;
  _ ← lift (totp_for (u_email u) secret);
  encrypted ← lift (encrypt_totp secret);
  _ ← set_flow P_TOTP_SETUP (pretty (u_id u)) (BTotpSetup encrypted) SETUP_TTL;
  url ← lift (totp_url (u_email u) secret);
  mret (secret, url).

Definition totp_confirm (auth : Auth) (code : string) : M (list string) :=
  u ← by_id (user_id auth);
  if u_totp_enabled u then fail (Conflict "TOTP is already enabled") else
  encrypted ← get_flow as_totp_setup P_TOTP_SETUP (pretty (u_id u));
  let u := with_totp (Some encrypted) (u_totp_enabled u) u in
  ok ← check_totp u code;
  if negb ok then fail InvalidMfa else
  had_mfa ← asks (fun w => mfa_enabled w u);
  _ ← modify (fun w => set_users (alter (with_totp (Some encrypted) true) (u_id u) (users w)) w);
  _ ← del_flow P_TOTP_SETUP (pretty (u_id u));
  _ ← security_event (u_id u) "totp_enabled" (Some (device_id auth));
  codes ← (if (had_mfa : bool) then mret [] else regenerate_backup_codes (u_id u));
  _ ← publish (AccountUpdated (u_id u));
  mret codes.

Definition totp_disable (auth : Auth) (code : string) : M unit :=
  u ← by_id (user_id auth);
  if negb (u_totp_enabled u) then mret tt else
  ok ← check_totp u code;
  ok ← (if (ok : bool) then mret true else consume_backup_code (u_id u) code);
  if negb ok then fail InvalidMfa else
  _ ← modify (fun w => set_users (alter (with_totp None false) (u_id u) (users w)) w);
  _ ← cleanup_backup_codes_if_no_mfa (u_id u);
  _ ← security_event (u_id u) "totp_disabled" (Some (device_id auth));
  _ ← notify (u_email u) "authenticator app removed";
  publish (AccountUpdated (u_id u)).

Definition new_backup_codes (auth : Auth) : M (list string) :=
  u ← by_id (user_id auth);
  on ← asks (fun w => mfa_enabled w u);
  if negb on then fail (BadRequest "Enable a second factor first") else
  codes ← regenerate_backup_codes (u_id u);
  _ ← security_event (u_id u) "backup_codes_regenerated" (Some (device_id auth));
  _ ← notify (u_email u) "backup codes regenerated";
  mret codes.

Definition webauthn_register_start (auth : Auth) : M string :=
  on ← asks (fun w => webauthn_on (cfg w));
  if negb on then fail (FeatureDisabled "WebAuthn") else
  u ← by_id (user_id auth);
  existing ← asks (fun w => map (fun x => passkey_id (pk_credential (snd x))) (load_passkeys w (u_id u)));
  n ← asks drawn;
  '(challenge, st) ← lift (registration_start (u_email u) existing n);
  _ ← set_flow P_WEBAUTHN_REG (pretty (u_id u)) (BRegistration st) SETUP_TTL;
  mret challenge.

(** The passkey is kept; the backup codes of a first factor are made and
    nobody is told them. *)
Definition webauthn_register_finish (auth : Auth) (name credential : string) : M (uuid * string) :=
  on ← asks (fun w => webauthn_on (cfg w));
  if negb on then fail (FeatureDisabled "WebAuthn") else
  let name := trim name in
  if bool_decide (name = "") || (64 <? char_count name)%nat then fail (BadRequest "Invalid credential name") else
  u ← by_id (user_id auth);
  st ← take_flow as_registration P_WEBAUTHN_REG (pretty (u_id u));
  passkey ← lift (registration_finish credential st);
  had_mfa ← asks (fun w => mfa_enabled w u);
  id ← new_uuid;
  keys ← asks passkeys;
  _ ← guard_or (bool_decide (keys !! id = None)) (Internal "webauthn_credentials_pkey");
  _ ← modify (set_passkeys (<[id := mkPasskey (u_id u) name passkey None]> keys));
  _ ← (if (had_mfa : bool) then mret tt else _ ← regenerate_backup_codes (u_id u); mret tt);
  _ ← security_event (u_id u) "webauthn_added" (Some (device_id auth));
  _ ← publish (AccountUpdated (u_id u));
  mret (id, name).

Definition webauthn_delete (auth : Auth) (id : uuid) : M unit :=
  keys ← asks passkeys;
  match keys !! id with
  | Some k =>
      if negb (bool_decide (pk_user k = user_id auth)) then fail (Missing "Credential") else
      _ ← modify (set_passkeys (delete id keys));
      _ ← cleanup_backup_codes_if_no_mfa (user_id auth);
      _ ← security_event (user_id auth) "webauthn_removed" (Some (device_id auth));
      u ← by_id (user_id auth);
      _ ← notify (u_email u) "security key removed";
      publish (AccountUpdated (user_id auth))
  | None => fail (Missing "Credential")
  end.
End Mfa.

(** The routes and what each asks of its caller. *)
Inductive MfaRequest : Type :=
| MStatus | MTotpSetup | MTotpConfirm (code : string) | MTotpDisable (code : string) | MBackupCodes
| MRegisterStart | MRegisterFinish (name credential : string) | MDelete (id : uuid).

Definition needs_step_up (r : MfaRequest) : bool :=
  match r with MStatus | MTotpConfirm _ | MRegisterFinish _ _ => false | _ => true end.

Section ServeMfa.
Context {X : External}.

Definition handle_mfa (auth : Auth) (r : MfaRequest) : M unit :=
  match r with
  | MStatus => _ ← mfa_status auth; mret tt
  | MTotpSetup => _ ← totp_setup auth; mret tt
  | MTotpConfirm code => _ ← totp_confirm auth code; mret tt
  | MTotpDisable code => totp_disable auth code
  | MBackupCodes => _ ← new_backup_codes auth; mret tt
  | MRegisterStart => _ ← webauthn_register_start auth; mret tt
  | MRegisterFinish name credential => _ ← webauthn_register_finish auth name credential; mret tt
  | MDelete id => webauthn_delete auth id
  end.

Definition serve_mfa (h : Request) (r : MfaRequest) : M unit :=
  auth ← (if needs_step_up r then step_up h else authenticate h); handle_mfa auth r.
End ServeMfa.

(** ** Backup codes follow the factors *)

Section Invariant.
Context {X : External}.

Definition rows_of (w : World) (user : uuid) : list BackupCode := filter (fun c => bc_user c = user) (backup_codes w).

(** A user with a second factor has ten backup codes, used or not, a user
    without one has none. *)
Definition matches (w : World) (user : uuid) : Prop :=
  forall u, users w !! user = Some u -> length (rows_of w user) = if mfa_enabled w u then BACKUP_CODE_COUNT else 0%nat.
Definition codes_match (w : World) : Prop := keyed w /\ forall user, matches w user.

(** The factors of a user and who owns the rows. *)
Definition factors (u : UserRow) : uuid * bool := (u_id u, u_totp_enabled u).
Record alike (user : uuid) (w w' : World) : Prop := {
  alike_row : factors <$> users w' !! user = factors <$> users w !! user;
  alike_key : has_passkey w' user = has_passkey w user;
  alike_codes : length (rows_of w' user) = length (rows_of w user)
}.
#[export] Instance alike_preorder user : PreOrder (alike user).
Proof. split; [done|]. intros ? ? ? [? ? ?] [? ? ?]. split; congruence. Qed.

Definition all_alike (w w' : World) : Prop := forall user, alike user w w'.
#[export] Instance all_alike_preorder : PreOrder all_alike.
Proof. split; [intros w user; reflexivity|]. intros ? ? ? H H' user. etrans; [apply H|apply H']. Qed.

Lemma alike_some user w w' u' : alike user w w' -> users w' !! user = Some u' ->
  exists u, users w !! user = Some u /\ factors u = factors u'.
Proof.
  intros [H _ _] E. rewrite E in H. simpl in H. destruct (users w !! user) as [u|]; [|done].
  injection H as H1 H2. exists u. split; [done|]. unfold factors. congruence.
Qed.

Lemma alike_keyed user w w' u' : alike user w w' -> keyed w -> users w' !! user = Some u' -> u_id u' = user.
Proof.
  intros H Hk E. destruct (alike_some _ _ _ _ H E) as (u & Eu & [= <- _]). by apply Hk.
Qed.

Lemma alike_matches user w w' : alike user w w' -> keyed w -> matches w user -> matches w' user.
Proof.
  intros H Hk Hm u' E. pose proof (alike_keyed _ _ _ _ H Hk E) as Hid.
  destruct (alike_some _ _ _ _ H E) as (u & Eu & [= Ei Et]). destruct H as [_ Hp Hc].
  rewrite Hc, (Hm u Eu). unfold mfa_enabled. by rewrite Et, Ei, Hid, Hp.
Qed.

Lemma all_alike_match w w' : all_alike w w' -> codes_match w -> codes_match w'.
Proof.
  intros H [Hk Hm]. split; [intros user u' E; by apply (alike_keyed user w w')|].
  intros user. by apply (alike_matches user w w').
Qed.

Lemma alike_other (f : World -> World) : (forall w, users (f w) = users w) -> (forall w, passkeys (f w) = passkeys w) ->
  (forall w, backup_codes (f w) = backup_codes w) -> keeps all_alike (modify f).
Proof. intros Hu Hp Hc w user. simpl. split; [by rewrite Hu|unfold has_passkey; by rewrite Hp|unfold rows_of; by rewrite Hc]. Qed.
Lemma alike_cache {A} f : keeps all_alike (on_cache (A := A) f).
Proof. intros w user. unfold on_cache. by destruct (f (now w) (cache w)). Qed.
Lemma alike_draw {A} (f : N -> A) : keeps all_alike (draw f).
Proof. intros w user. done. Qed.
Hint Resolve alike_cache alike_draw : keeps.
Hint Extern 3 (keeps all_alike (modify _)) => (apply alike_other; reflexivity) : keeps.
Hint Extern 3 (keeps all_alike (publish _)) => (apply alike_other; reflexivity) : keeps.
Hint Extern 3 (keeps all_alike (set_key _ _ _)) => (apply alike_other; reflexivity) : keeps.
Hint Extern 3 (keeps all_alike (del_key _)) => (apply alike_other; reflexivity) : keeps.
Hint Extern 3 (keeps all_alike (set_flow _ _ _ _)) => (apply alike_other; reflexivity) : keeps.
Hint Extern 3 (keeps all_alike (send_mail _ _ _)) => (apply alike_other; reflexivity) : keeps.
Hint Extern 3 (keeps all_alike (security_event _ _ _)) => (apply alike_other; reflexivity) : keeps.
Hint Extern 3 (keeps all_alike (forget_device _)) => (apply alike_other; reflexivity) : keeps.

Lemma alike_seen (f : UserRow -> UserRow) id : (forall u, factors (f u) = factors u) ->
  keeps all_alike (modify (fun w => set_users (alter f id (users w)) w)).
Proof.
  intros Hf w user. split; [|done..]. simpl. destruct (decide (id = user)) as [->|Hn].
  - rewrite lookup_alter_eq. destruct (users w !! user) as [u|]; [|done]. simpl. by rewrite Hf.
  - by rewrite lookup_alter_ne.
Qed.
Lemma alike_authenticate h : keeps all_alike (authenticate h).
Proof. unfold authenticate, validate, touch. repeat keeps_step. by apply alike_seen. Qed.
Lemma alike_by_id user : keeps all_alike (by_id user).
Proof. unfold by_id. repeat keeps_step. Qed.
Hint Resolve alike_authenticate alike_by_id : keeps.
Lemma alike_step_up h : keeps all_alike (step_up h).
Proof. unfold step_up, require_step_up. repeat keeps_step. Qed.
Lemma alike_notify to subject : keeps all_alike (notify to subject).
Proof. unfold notify. repeat keeps_step. Qed.
Lemma alike_totp u code : keeps all_alike (check_totp u code).
Proof. unfold check_totp. repeat keeps_step. Qed.
Lemma alike_consume user code : keeps all_alike (consume_backup_code user code).
Proof.
  unfold consume_backup_code. intros w. run_m. intros user'. split; [done..|]. unfold rows_of. simpl.
  induction (backup_codes w) as [|c l IH]; [done|]. simpl. rewrite !filter_cons.
  replace (bc_user (if unused_code user (hash_token (normalize_code code)) c then mkBackup (bc_user c) (bc_hash c) (Some (now w)) else c))
    with (bc_user c) by by destruct (unused_code _ _ _).
  destruct (decide (bc_user c = user')); simpl; by rewrite IH.
Qed.
Hint Resolve alike_step_up alike_notify alike_totp alike_consume : keeps.

Lemma alike_run {A} {m : M A} {w r w'} : keeps all_alike m -> m w = (r, w') -> codes_match w -> codes_match w'.
Proof. intros Hk E. apply all_alike_match. exact (keeps_run Hk E). Qed.

(** ** What changes the factors of one user *)

(** After a change to one user, everyone else's codes still match. *)
Definition match_but (user : uuid) (w : World) : Prop := keyed w /\ forall v, v <> user -> matches w v.

Lemma match_but_alike user w w' : all_alike w w' -> match_but user w -> match_but user w'.
Proof.
  intros H [Hk Hm]. split; [intros v u' E; by apply (alike_keyed v w w')|].
  intros v Hv. apply (alike_matches v w w'); auto.
Qed.

Lemma rows_filter_other w user v f : v <> user ->
  rows_of (set_backup_codes (filter (fun c => bc_user c <> user) (backup_codes w) ++ f) w) v
  = rows_of w v ++ filter (fun c => bc_user c = v) f.
Proof.
  intros Hv. unfold rows_of. simpl. rewrite filter_app. f_equal. rewrite list_filter_filter.
  apply list_filter_iff. intros c. split; [tauto|]. intros <-. done.
Qed.
Lemma rows_filter_own w user f :
  rows_of (set_backup_codes (filter (fun c => bc_user c <> user) (backup_codes w) ++ f) w) user
  = filter (fun c => bc_user c = user) f.
Proof.
  unfold rows_of. simpl. rewrite filter_app, list_filter_filter.
  replace (filter _ (backup_codes w)) with (@nil BackupCode); [done|].
  induction (backup_codes w) as [|c l IH]; [done|]. rewrite filter_cons_False by tauto. exact IH.
Qed.
Lemma backup_rows_filter user v codes : filter (fun c => bc_user c = v) (backup_rows user codes)
  = if decide (user = v) then backup_rows user codes else [].
Proof.
  destruct (decide (user = v)) as [->|Hn]; induction codes as [|c l IH]; simpl; [done| |done|].
  - rewrite filter_cons_True by done. by rewrite IH.
  - rewrite filter_cons_False by done. exact IH.
Qed.

(** Fresh codes for a user whose factors are on. *)
Lemma regenerate_matches user w : match_but user w ->
  (forall u, users w !! user = Some u -> mfa_enabled w u = true) -> codes_match (snd (regenerate_backup_codes user w)).
Proof.
  intros [Hk Hm] Hon. unfold regenerate_backup_codes. run_m. set (codes := draw_codes (drawn w)).
  split; [done|]. intros v u Hu. cbn in Hu.
  destruct (decide (v = user)) as [->|Hv].
  - change (length (rows_of (set_backup_codes (filter (fun c => bc_user c <> user) (backup_codes w) ++ backup_rows user codes) w) user)
            = if mfa_enabled w u then BACKUP_CODE_COUNT else 0%nat).
    rewrite rows_filter_own, backup_rows_filter, decide_True, Hon by done.
    unfold backup_rows, codes, draw_codes. by rewrite !length_map, length_seq.
  - change (length (rows_of (set_backup_codes (filter (fun c => bc_user c <> user) (backup_codes w) ++ backup_rows user codes) w) v)
            = if mfa_enabled w u then BACKUP_CODE_COUNT else 0%nat).
    rewrite rows_filter_other, backup_rows_filter, decide_False, app_nil_r by done. by apply Hm.
Qed.

(** What a user with factors left keeps, the others lose. *)
Lemma cleanup_matches user w : match_but user w ->
  (forall u, users w !! user = Some u -> mfa_enabled w u = true -> length (rows_of w user) = BACKUP_CODE_COUNT) ->
  codes_match (snd (cleanup_backup_codes_if_no_mfa user w)).
Proof.
  intros [Hk Hm] Hten. unfold cleanup_backup_codes_if_no_mfa, by_id. rewrite bind_assoc. run_m.
  unfold of_option, lift. rewrite bind_run.
  assert (Hsame : (forall u, users w !! user = Some u -> mfa_enabled w u = true) -> codes_match w).
  { intros Hon. split; [done|]. intros v u Hu. destruct (decide (v = user)) as [->|Hv]; [|by apply Hm].
    by rewrite (Hten u Hu), (Hon u Hu) by auto. }
  destruct (users w !! user) as [u|] eqn:Hu; cbn [ok_or]; [|apply Hsame; done].
  run_m. destruct (mfa_enabled w u) eqn:Eon; simpl; [by apply Hsame; intros ? [= <-]|]. clear Hsame.
  split; [done|]. intros v u' Hu'. simpl in Hu'.
  pose proof (rows_filter_other w user v [] ) as Ho. pose proof (rows_filter_own w user []) as Hw.
  rewrite app_nil_r in Ho, Hw. change (mfa_enabled (set_backup_codes _ w) u') with (mfa_enabled w u').
  destruct (decide (v = user)) as [->|Hv].
  - rewrite Hw. rewrite Hu in Hu'. injection Hu' as <-. by rewrite Eon.
  - rewrite (Ho Hv), app_nil_r. by apply Hm.
Qed.

(** Switching one-time passwords of a user touches nobody else. *)
Lemma switch_totp_but user secret b w : codes_match w ->
  match_but user (set_users (alter (with_totp secret b) user (users w)) w).
Proof.
  intros [Hk Hm]. split.
  - intros v u. simpl. rewrite lookup_alter_Some. intros [(-> & u0 & E & ->)|[_ E]]; simpl; by apply Hk.
  - intros v Hv u Hu. simpl in Hu. rewrite lookup_alter_ne in Hu by done. by apply Hm.
Qed.

(** ** Every handler *)

Lemma bind_alike {A B} (m : M A) (k : A -> M B) w : keeps all_alike m -> codes_match w ->
  (forall a w1, m w = (Ok a, w1) -> all_alike w w1 -> codes_match w1 -> codes_match (snd (k a w1))) ->
  codes_match (snd ((m ≫= k) w)).
Proof.
  intros Hm Hc Hk. rewrite bind_run. destruct (m w) as [[a|e] w1] eqn:E.
  - apply Hk; [done|exact (keeps_run Hm E)|exact (alike_run Hm E Hc)].
  - exact (alike_run Hm E Hc).
Qed.
Lemma bind_then {A B} (m : M A) (k : A -> M B) w : codes_match (snd (m w)) -> (forall a, keeps all_alike (k a)) ->
  codes_match (snd ((m ≫= k) w)).
Proof.
  intros Hm Hk. rewrite bind_run. destruct (m w) as [[a|e] w1]; [|done]. by apply (all_alike_match w1); [apply Hk|].
Qed.
Lemma alike_match {A} (m : M A) w : keeps all_alike m -> codes_match w -> codes_match (snd (m w)).
Proof. intros Hm. apply all_alike_match, Hm. Qed.

Ltac alike := repeat keeps_step.
Tactic Notation "follow" "as" simple_intropattern(a) ident(w1) ident(E) ident(H) ident(Hc) :=
  apply bind_alike; [alike|done|intros a w1 E H Hc].

Lemma on_off_has user secret b w u : users w !! user = Some u ->
  forall u', users (set_users (alter (with_totp secret b) user (users w)) w) !! user = Some u' ->
    mfa_enabled (set_users (alter (with_totp secret b) user (users w)) w) u' = b || has_passkey w (u_id u).
Proof. intros Hu u'. simpl. rewrite lookup_alter_eq, Hu. simpl. intros [= <-]. done. Qed.

Lemma confirm_match auth code w : codes_match w -> codes_match (snd (totp_confirm auth code w)).
Proof.
  intros Hc. unfold totp_confirm. follow as u w1 E1 H1 Hc1. apply by_id_inv in E1 as [-> Hu].
  destruct (u_totp_enabled u) eqn:Et; [done|]. unfold get_flow.
  follow as enc w2 E2 H2 Hc2. follow as ok w3 E3 H3 Hc3. destruct ok; cbn [negb]; [|done].
  assert (H : all_alike w w3) by by etrans.
  destruct (proj1 Hc _ _ Hu). rename w3 into w0.
  assert (Hu0 : exists u0, users w0 !! u_id u = Some u0 /\ factors u0 = factors u).
  { pose proof (alike_row _ _ _ (H (u_id u))) as Hr. rewrite Hu in Hr. simpl in Hr.
    destruct (users w0 !! u_id u) as [u0|]; [|done]. exists u0. injection Hr as H4 H5. unfold factors. by rewrite H4, H5. }
  destruct Hu0 as (u0 & Hu0 & [= Hi Het]).
  run_m. change (mfa_enabled w0 (with_totp (Some enc) false u)) with (has_passkey w0 (u_id u)). unfold del_flow, security_event. run_m.
  set (w' := set_security _ _).
  assert (Hbut : match_but (u_id u) w') by exact (switch_totp_but (u_id u) (Some enc) true w0 Hc3).
  assert (Hon : forall v, users w' !! u_id u = Some v -> mfa_enabled w' v = true).
  { intros v Hv. exact (on_off_has (u_id u) (Some enc) true w0 u0 Hu0 v Hv). }
  destruct (has_passkey w0 (u_id u)) eqn:Ep; (apply bind_then; [|intros codes; alike]).
  - change (codes_match w'). destruct Hbut as [Hk Hm]. split; [done|]. intros v v' Hv'. destruct (decide (v = u_id u)) as [->|Hne]; [|by apply Hm].
    rewrite (Hon _ Hv'). change (rows_of _ (u_id u)) with (rows_of w0 (u_id u)).
    rewrite (proj2 Hc3 _ _ Hu0). unfold mfa_enabled. by rewrite Hi, Ep, orb_true_r.
  - by apply regenerate_matches.
Qed.

Lemma disable_match auth code w : codes_match w -> codes_match (snd (totp_disable auth code w)).
Proof.
  intros Hc. unfold totp_disable. follow as u w1 E1 H1 Hc1. apply by_id_inv in E1 as [-> Hu].
  destruct (negb (u_totp_enabled u)) eqn:Et; [done|]. apply negb_false_iff in Et.
  follow as ok w2 E2 H2 Hc2. follow as ok' w3 E3 H3 Hc3. destruct ok'; cbn [negb]; [|done].
  assert (H : all_alike w w3) by by etrans.
  run_m. apply bind_then; [|intros []; alike].
  apply cleanup_matches; [by apply switch_totp_but|].
  intros v Hv _. change (rows_of _ (u_id u)) with (rows_of w3 (u_id u)).
  destruct (proj1 Hc _ _ Hu). rewrite (alike_codes _ _ _ (H (u_id u))).
  rewrite (proj2 Hc _ _ Hu). unfold mfa_enabled. by rewrite Et.
Qed.

Lemma new_codes_match auth w : codes_match w -> codes_match (snd (new_backup_codes auth w)).
Proof.
  intros Hc. unfold new_backup_codes. follow as u w1 E1 H1 Hc1. apply by_id_inv in E1 as [-> Hu].
  run_m. destruct (mfa_enabled w u) eqn:Eon; cbn [negb]; [|done].
  destruct (proj1 Hc _ _ Hu). apply bind_then; [|intros codes; alike].
  apply regenerate_matches; [split; [apply Hc|intros v _; by apply Hc]|]. intros v Hv. rewrite Hu in Hv. by injection Hv as <-.
Qed.

Lemma has_passkey_spec w user : has_passkey w user = true <-> exists id k, passkeys w !! id = Some k /\ pk_user k = user.
Proof.
  unfold has_passkey. rewrite negb_true_iff, bool_decide_eq_false. split.
  - intros H. destruct (filter _ _) as [|[id k] l] eqn:E; [done|]. assert (Hin : (id, k) ∈ (id, k) :: l) by apply list_elem_of_here.
    rewrite <- E in Hin. apply list_elem_of_filter in Hin as [H1 H2%elem_of_map_to_list]. eauto.
  - intros (id & k & H1 & H2) E. assert (Hin : (id, k) ∈ filter (fun x => pk_user (snd x) = user) (map_to_list (passkeys w))).
    { apply list_elem_of_filter. split; [done|]. by apply elem_of_map_to_list. }
    rewrite E in Hin. by apply not_elem_of_nil in Hin.
Qed.

(** Passkeys of one user say nothing about another. *)
Lemma passkey_but user m w : (forall id k, pk_user k <> user -> m !! id = Some k <-> passkeys w !! id = Some k) ->
  codes_match w -> match_but user (set_passkeys m w).
Proof.
  intros Hf [Hk Hm]. split; [done|]. intros v Hv u Hu. simpl in Hu.
  assert (Hp : has_passkey (set_passkeys m w) v = has_passkey w v).
  { apply eq_true_iff_eq. rewrite !has_passkey_spec. simpl.
    split; intros (id & k & H1 & H2); exists id, k; (split; [|done]); apply Hf; congruence. }
  unfold mfa_enabled. rewrite (Hk _ _ Hu), Hp.
  change (length (rows_of w v) = if u_totp_enabled u || has_passkey w v then BACKUP_CODE_COUNT else 0%nat).
  rewrite (Hm v u Hu). unfold mfa_enabled. by rewrite (Hk _ _ Hu).
Qed.

Lemma enabled_factors w u v : factors u = factors v -> mfa_enabled w u = mfa_enabled w v.
Proof. intros [= H1 H2]. unfold mfa_enabled. by rewrite H1, H2. Qed.

Lemma finish_match auth name credential w : codes_match w -> codes_match (snd (webauthn_register_finish auth name credential w)).
Proof.
  intros Hc. unfold webauthn_register_finish. run_m. destruct (negb _); [done|]. destruct (_ || _); [done|].
  follow as u w1 E1 H1 Hc1. apply by_id_inv in E1 as [-> Hu]. unfold take_flow.
  follow as st w2 E2 H2 Hc2. follow as pk w3 E3 H3 Hc3. run_m. unfold new_uuid. run_m.
  destruct (proj1 Hc _ _ Hu). set (id := uuid_at (drawn w3)). cbn [passkeys set_drawn].
  unfold guard_or. destruct (bool_decide (passkeys w3 !! id = None)) eqn:Ef; [apply bool_decide_eq_true in Ef|done]. run_m.
  set (w' := set_passkeys _ _).
  assert (Hbut : match_but (u_id u) w').
  { apply (passkey_but (u_id u) _ (set_drawn (drawn w3 + 1)%N w3)); [|done].
    intros i k Hk. rewrite lookup_insert_Some. split; [intros [[_ <-]|[_ ?]]; done|].
    intros E. right. split; [|done]. intros <-. simpl in E. congruence. }
  assert (Hp : has_passkey w' (u_id u) = true).
  { apply has_passkey_spec. exists id, (mkPasskey (u_id u) (trim name) pk None). split; [|done]. apply lookup_insert_eq. }
  assert (Hon : forall v, users w' !! u_id u = Some v -> mfa_enabled w' v = true).
  { intros v Hv. unfold mfa_enabled. rewrite (proj1 Hbut _ _ Hv), Hp. apply orb_true_r. }
  apply bind_then; [|intros []; alike].
  destruct (mfa_enabled w3 u) eqn:E3'; [|apply bind_then; [by apply regenerate_matches|intros; alike]].
  change (codes_match w'). split; [apply Hbut|]. intros v v' Hv'. destruct (decide (v = u_id u)) as [->|Hne]; [|by apply Hbut].
  rewrite (Hon _ Hv'). change (rows_of w' (u_id u)) with (rows_of w3 (u_id u)).
  rewrite (proj2 Hc3 _ _ Hv').
  rewrite (enabled_factors w3 v' u); [by rewrite E3'|].
  destruct (alike_some (u_id u) w w3 v') as (u' & Hu' & <-); [exact (transitivity H2 H3 (u_id u))|done|]. congruence.
Qed.

Lemma delete_match auth id w : codes_match w -> codes_match (snd (webauthn_delete auth id w)).
Proof.
  intros Hc. unfold webauthn_delete. run_m. destruct (passkeys w !! id) as [k|] eqn:Ek; [|done].
  destruct (bool_decide _) eqn:Eo; [apply bool_decide_eq_true in Eo|done]. cbn [negb]. run_m.
  apply bind_then; [|intros []; alike].
  assert (Hone : has_passkey w (user_id auth) = true) by (apply has_passkey_spec; eauto).
  apply cleanup_matches.
  - apply passkey_but; [|done]. intros i k' Hk'. rewrite lookup_delete_Some. split; [tauto|].
    intros E. split; [|done]. intros <-. congruence.
  - intros u Hu _. change (rows_of _ (user_id auth)) with (rows_of w (user_id auth)). simpl in Hu.
    rewrite (proj2 Hc _ _ Hu). unfold mfa_enabled. by rewrite (proj1 Hc _ _ Hu), Hone, orb_true_r.
Qed.

(** whatever is done to a user's second factors, the backup codes follow
    them: a user with a one-time password or a passkey has exactly ten backup
    codes, used or not, and a user with neither has none; nobody else's change. *)
Theorem backup_codes_follow_factors h r w : codes_match w -> codes_match (snd (serve_mfa h r w)).
Proof.
  intros Hc. unfold serve_mfa. follow as auth w1 E1 H1 Hc1. destruct r; unfold handle_mfa.
  - apply alike_match; [|done]. unfold mfa_status. alike.
  - apply alike_match; [|done]. unfold totp_setup. alike.
  - apply bind_then; [by apply confirm_match|intros; alike].
  - by apply disable_match.
  - apply bind_then; [by apply new_codes_match|intros; alike].
  - apply alike_match; [|done]. unfold webauthn_register_start. alike.
  - apply bind_then; [by apply finish_match|intros; alike].
  - by apply delete_match.
Qed.
End Invariant.

(** ** Each backup code opens once *)

Section Once.
Context {X : External} (user : uuid).
(** BLAKE3 finds no two texts with one hash. *)
Hypothesis (Hhash : forall a b, hash_token a = hash_token b -> a = b).

(** What entering codes one after the other answers. *)
Fixpoint enter (entries : list string) : M (list bool) :=
  match entries with
  | [] => mret []
  | e :: es => ok ← consume_backup_code user e; oks ← enter es; mret (ok :: oks)
  end.

(** The reference: a code opens when it is one of [codes] and was not entered
    before. *)
Fixpoint first_uses (codes seen entries : list string) : list bool :=
  match entries with
  | [] => []
  | e :: es => bool_decide (e ∈ codes /\ e ∉ seen) :: first_uses codes (e :: seen) es
  end.

(** The rows a code would use up. *)
Definition open_rows (w : World) (n : string) : list BackupCode :=
  filter (fun c => unused_code user (hash_token n) c = true) (backup_codes w).
Definition opens (codes seen : list string) (w : World) : Prop :=
  forall n, length (open_rows w n) = if decide (n ∈ codes /\ n ∉ seen) then 1%nat else 0%nat.

Lemma unused_spec h c : unused_code user h c = true <-> bc_user c = user /\ bc_hash c = h /\ bc_used c = None.
Proof. unfold unused_code. rewrite !andb_true_iff, !bool_decide_eq_true. tauto. Qed.

Definition mark (h : string) (t : Z) (c : BackupCode) : BackupCode :=
  if unused_code user h c then mkBackup (bc_user c) (bc_hash c) (Some t) else c.

Lemma mark_hit h t c : unused_code user h c = true -> mark h t c = mkBackup (bc_user c) (bc_hash c) (Some t).
Proof. unfold mark. by intros ->. Qed.
Lemma mark_miss h t c : unused_code user h c = false -> mark h t c = c.
Proof. unfold mark. by intros ->. Qed.

Lemma open_marked n n' t l :
  length (filter (fun c => unused_code user (hash_token n') c = true) (map (mark (hash_token n) t) l))
  = if decide (n' = n) then 0%nat else length (filter (fun c => unused_code user (hash_token n') c = true) l).
Proof.
  destruct (decide (n' = n)) as [->|Hn]; induction l as [|c l IH]; [done| |done|]; cbn [map].
  - rewrite filter_cons_False; [done|]. unfold mark. destruct (unused_code user (hash_token n) c) eqn:E; [|congruence].
    rewrite unused_spec. simpl. by intros (_ & _ & ?).
  - destruct (unused_code user (hash_token n) c) eqn:E;
      [rewrite (mark_hit _ _ _ E)|rewrite (mark_miss _ _ _ E)]; rewrite !filter_cons.
    + apply unused_spec in E as (Hu & Hh & _). destruct (decide (_ = true)) as [E|_].
      { apply unused_spec in E as (_ & _ & ?). done. }
      destruct (decide (unused_code user (hash_token n') c = true)) as [(_ & E & _)%unused_spec|_]; [|exact IH].
      destruct Hn. apply Hhash. congruence.
    + destruct (decide (unused_code user (hash_token n') c = true)); cbn [length]; by rewrite IH.
Qed.

Lemma enter_first_uses codes seen entries w : opens codes seen w ->
  fst (enter entries w) = Ok (first_uses codes seen (map normalize_code entries)).
Proof.
  revert seen w. induction entries as [|e es IH]; intros seen w H; [done|]. cbn [enter map first_uses].
  set (n := normalize_code e). unfold consume_backup_code. run_m. fold n.
  set (w' := set_backup_codes _ w).
  assert (H' : opens codes (n :: seen) w').
  { intros n'. unfold open_rows, w'. cbn [backup_codes set_backup_codes].
    change (map _ (backup_codes w)) with (map (mark (hash_token n) (now w)) (backup_codes w)). rewrite open_marked.
    destruct (decide (n' = n)) as [->|Hn].
    - rewrite decide_False; [done|]. intros [_ Hs]. apply Hs, list_elem_of_here.
    - specialize (H n'). unfold open_rows in H. rewrite H. repeat case_decide; rewrite ?not_elem_of_cons in *; tauto. }
  specialize (IH _ _ H'). rewrite bind_run. destruct (enter es w') as [[oks|x] w2]; simpl in IH; [|done].
  injection IH as ->. change (filter _ (backup_codes w)) with (open_rows w n). rewrite (H n).
  unfold mret, M_ret. cbn [fst]. do 2 f_equal.
  apply bool_decide_ext. destruct (decide _); split; done.
Qed.

Lemma open_fresh codes n : NoDup (map normalize_code codes) ->
  length (filter (fun c => unused_code user (hash_token n) c = true) (backup_rows user codes))
  = if decide (n ∈ map normalize_code codes) then 1%nat else 0%nat.
Proof.
  induction codes as [|c l IH]; [done|]. cbn [map backup_rows]. intros [Hc Hl]%NoDup_cons. rewrite filter_cons.
  fold (backup_rows user l). specialize (IH Hl).
  destruct (decide (unused_code user _ _ = true)) as [(_ & E & _)%unused_spec|E]; cbn [length].
  - simpl in E. apply Hhash in E as <-. rewrite IH. rewrite decide_False by done.
    rewrite decide_True; [done|apply list_elem_of_here].
  - rewrite IH. assert (Hne : n <> normalize_code c) by (intros ->; apply E; apply unused_spec; simpl; auto).
    repeat case_decide; rewrite ?elem_of_cons in *; tauto.
Qed.

(** The randomness of the codes: ten indices into the alphabet. *)
Hypothesis (Hdraws : forall n, length (backup_draws n) = 10%nat /\ Forall (fun i => (i < 31)%nat) (backup_draws n)).

Definition letters (draws : list nat) : bytes := map (fun i => nth i ALPHABET 0) draws.

Lemma alphabet_kept i : (i < 31)%nat ->
  is_byte (nth i ALPHABET 0) /\ is_alphanumeric (nth i ALPHABET 0) = true /\ lowercase [nth i ALPHABET 0] = [nth i ALPHABET 0].
Proof.
  intros H. assert (Hall : forallb (fun b => (0 <=? b) && (b <? 256) && is_alphanumeric b && bool_decide (lowercase [b] = [b])) ALPHABET = true)
    by (vm_compute; reflexivity).
  rewrite forallb_forall in Hall. specialize (Hall _ (nth_In ALPHABET 0 H)).
  apply andb_true_iff in Hall as [Hall H3%bool_decide_eq_true]. apply andb_true_iff in Hall as [Hall H2].
  apply andb_true_iff in Hall as [H0%Z.leb_le H1%Z.ltb_lt]. split; [split; [done|exact H1]|done].
Qed.

Lemma kept_letters l : Forall (fun i => (i < 31)%nat) l ->
  all_bytes (letters l) /\ lowercase (filter (fun b => is_alphanumeric b = true) (letters l)) = letters l.
Proof.
  induction 1 as [|i l Hi _ [IH1 IH2]]; [split; [constructor|done]|]. destruct (alphabet_kept i Hi) as (H1 & H2 & H3).
  change (letters (i :: l)) with (nth i ALPHABET 0 :: letters l). generalize dependent (nth i ALPHABET 0). intros b H1 H2 H3.
  split; [by constructor|]. rewrite filter_cons_True by done. change (lowercase (b :: ?l')) with (hd 0 (lowercase [b]) :: lowercase l').
  by rewrite H3, IH2.
Qed.

(** The dash is the only thing a code loses. *)
Lemma normalize_backup_code n : normalize_code (backup_code (backup_draws n)) = of_bytes (letters (backup_draws n)).
Proof.
  destruct (Hdraws n) as [_ Hn]. destruct (kept_letters _ Hn) as [Hb Hk]. unfold normalize_code, backup_code.
  fold (letters (backup_draws n)). set (l := letters (backup_draws n)) in *.
  assert (Hd : filter (fun b => is_alphanumeric b = true) (take 5 l ++ 45 :: drop 5 l)
             = filter (fun b => is_alphanumeric b = true) l).
  { rewrite <- (take_drop 5 l) at 3. rewrite !filter_app, filter_cons_False by done. done. }
  rewrite as_of_bytes; [by rewrite Hd, Hk|].
  apply Forall_app. split; [by apply Forall_take|]. constructor; [done|by apply Forall_drop].
Qed.

Lemma letters_inj l l' : Forall (fun i => (i < 31)%nat) l -> Forall (fun i => (i < 31)%nat) l' -> letters l = letters l' -> l = l'.
Proof.
  intros H. revert l'. induction H as [|i l Hi _ IH]; intros l' H' E; destruct H' as [|i' l' Hi' H']; try done.
  injection E as E1 E2. f_equal; [|by apply IH].
  assert (Hd : List.NoDup ALPHABET) by (apply NoDup_ListNoDup; by apply (bool_decide_unpack _)).
  by apply (proj1 (NoDup_nth ALPHABET 0) Hd).
Qed.

Lemma codes_distinct n : NoDup (map (fun i => backup_draws (n + N.of_nat i)%N) (seq 0 BACKUP_CODE_COUNT)) ->
  NoDup (map normalize_code (draw_codes n)).
Proof.
  unfold draw_codes. rewrite map_map. intros H.
  rewrite (map_ext (fun i => normalize_code _) (fun i => of_bytes (letters (backup_draws (n + N.of_nat i)%N))))
    by (intros; apply normalize_backup_code).
  rewrite <- (map_map (fun i => backup_draws (n + N.of_nat i)%N) (fun d => of_bytes (letters d))).
  assert (Hall : Forall (fun d => exists m, d = backup_draws m) (map (fun i => backup_draws (n + N.of_nat i)%N) (seq 0 BACKUP_CODE_COUNT))).
  { apply Forall_forall. intros d (i & -> & _)%list_elem_of_fmap. eauto. }
  induction H as [|d l Hd Hl IH]; [constructor|]. apply Forall_cons in Hall as [(m & ->) Hall]. cbn [map].
  constructor; [|by apply IH]. intros (d' & E & Hin)%list_elem_of_fmap.
  rewrite Forall_forall in Hall. destruct (Hall d' Hin) as (m' & ->). apply (f_equal as_bytes) in E.
  destruct (Hdraws m) as [_ Hm], (Hdraws m') as [_ Hm'].
  rewrite !as_of_bytes in E by (by apply kept_letters). apply letters_inj in E; [congruence|done|done].
Qed.

(** the ten codes a user is given open once each. After new codes are
    made from ten different draws, a sequence of entered codes, each in
    whatever case, spacing and dashes, is answered exactly as by the reference:
    an entry is accepted when it is one of the ten and was not entered before;
    codes of an earlier set never open again. *)
Theorem backup_codes_open_once w entries :
  NoDup (map (fun i => backup_draws (drawn w + N.of_nat i)%N) (seq 0 BACKUP_CODE_COUNT)) ->
  exists codes w', regenerate_backup_codes user w = (Ok codes, w') /\ length codes = BACKUP_CODE_COUNT
    /\ fst (enter entries w') = Ok (first_uses (map normalize_code codes) [] (map normalize_code entries)).
Proof.
  intros Hd%codes_distinct. unfold regenerate_backup_codes. run_m. eexists _, _. split; [reflexivity|].
  split; [unfold draw_codes; by rewrite length_map, length_seq|].
  apply enter_first_uses. intros n. unfold open_rows. cbn [backup_codes set_backup_codes set_drawn].
  rewrite filter_app, length_app, open_fresh by done.
  replace (filter _ (filter _ (backup_codes w))) with (@nil BackupCode).
  2: { rewrite list_filter_filter. induction (backup_codes w) as [|c l IH]; [done|].
       rewrite filter_cons_False; [exact IH|]. rewrite unused_spec. tauto. }
  pose proof (not_elem_of_nil n). simpl. repeat case_decide; tauto.
Qed.
End Once.

(** ** Witnesses *)

#[local] Existing Instance demo_external.

Definition setting_up : World :=
  set_cache {[key P_TOTP_SETUP "1" := (Json (BTotpSetup []), 600000)]} signed_in.
Definition bearing (token : string) : Request :=
  mkRequest (Some ("Bearer " +:+ token)) "POST" "/api/v1/account/mfa" None None None.

Lemma backup_codes_follow_factors_witness :
  let w' := snd (serve_mfa (bearing "tok") (MTotpConfirm "0") setting_up) in
  codes_match setting_up /\ codes_match w' /\ length (rows_of w' 1) = 10%nat
  /\ length (rows_of (snd (serve_mfa (bearing "tok") (MTotpDisable "1") (set_now 30000 w'))) 1) = 0%nat.
Proof.
  intros w'. assert (H : codes_match setting_up).
  { split; [by apply keyed_decide|]. intros user u Hu. unfold setting_up, signed_in in Hu.
    cbn [users set_cache set_users] in Hu. apply lookup_singleton_Some in Hu as [<- <-]. vm_compute. reflexivity. }
  split; [exact H|]. split; [apply (backup_codes_follow_factors (bearing "tok") (MTotpConfirm "0") setting_up H)|].
  split; vm_compute; reflexivity.
Defined.

Lemma backup_codes_open_once_witness :
  exists codes w', regenerate_backup_codes 1 demo_world = (Ok codes, w') /\ head codes = Some "aaaaa-aaaaa"
    /\ fst (enter 1 ["aaaaa-aaaab"; "AAAAA aaaaa"; "aaaaa-aaaaa"; "baaaa-aaaaa"] w') = Ok [false; true; false; true].
Proof.
  destruct (backup_codes_open_once 1) with (w := demo_world) (entries := ["aaaaa-aaaab"; "AAAAA aaaaa"; "aaaaa-aaaaa"; "baaaa-aaaaa"])
    as (codes & w' & E & Hl & H).
  - intros a b Hab. exact Hab.
  - intros n. split; [reflexivity|]. unfold backup_draws, demo_external. apply Forall_forall.
    intros i (d & -> & _)%list_elem_of_fmap. pose proof (N.mod_lt (n / 31 ^ d) 31 ltac:(done)). lia.
  - apply (bool_decide_unpack _). vm_compute. exact I.
  - exists codes, w'. split; [exact E|].
    assert (Ec : codes = draw_codes 0) by exact (eq_sym (f_equal (fun x => match fst x with Ok l => l | Err _ => [] end) E)).
    rewrite Ec in *. split; [vm_compute; reflexivity|]. rewrite H. vm_compute. reflexivity.
Defined.
