(* ===== verification/Register.v ===== *)
(** * Creating an account

    The registration half of [crates/termoso-server/src/routes/auth.rs], the
    invitation it may come with ([apply_invite] of [routes/teams.rs]) and the
    personal vault of a new user ([users.rs]). *)
From Stdlib Require Import Ascii.
From stdpp Require Import pretty.
From S2P Require Import Prelude Text VaultAccess Backend Server Sessions Codes Trust SignIn.

#[local] Open Scope string_scope.
#[local] Open Scope list_scope.
#[local] Open Scope Z_scope.

Definition EMAIL_VERIFY_TTL : Z := 1800.
Definition P_EMAIL_VERIFY : string := "email_verify".

(** ** Checks of a request *)

Definition valid_display_name (name : option string) : result ApiError (option string) :=
  match name with
  | None => Ok None
  | Some n =>
      let n := trim n in
      if bool_decide (n = "") then Ok None
      else if (100 <? char_count n)%nat then Err (BadRequest "Display name is too long") else Ok (Some n)
  end.

Record AccountKeys := mkKeys {
  ak_public : string; ak_wrapped : string; ak_recovery_wrapped : string; ak_verifier : string; ak_vault_key : string
}.

Record RegisterFinish := mkRegister {
  rf_email : string; rf_upload : string; rf_display : option string; rf_device : DeviceInfo; rf_keys : AccountKeys;
  rf_invite : option string; rf_sso : option string
}.

Section Register.
Context {X : External}.

Definition wrapped_ok (name v : string) : result ApiError unit :=
  match b64_length v with
  | None => Err (BadRequest (name +:+ " is not valid base64"))
  | Some n => if (n <? 32) || (4096 <? n) then Err (BadRequest (name +:+ " has an unexpected length")) else Ok tt
  end.
Definition validate_keys (k : AccountKeys) : result ApiError unit :=
  if negb (is_key32 (ak_public k)) then Err (BadRequest "public_key must be 32 bytes") else
  if negb (is_key32 (ak_verifier k)) then Err (BadRequest "recovery_verifier must be 32 bytes") else
  _ ← wrapped_ok "wrapped_private_key" (ak_wrapped k);
  _ ← wrapped_ok "recovery_wrapped_private_key" (ak_recovery_wrapped k);
  wrapped_ok "personal_vault_sealed_key" (ak_vault_key k).

Definition send_email_verification (user : UserRow) : M unit :=
  on ← asks (fun w => mailer (cfg w));
  if negb on || u_verified user then mret tt else
  code ← issue_for P_EMAIL_VERIFY (pretty (u_id user)) (CEmail (u_email user)) EMAIL_VERIFY_TTL;
  send_code_email (u_email user) "email verification" code.

(** ** Who may register *)

Definition open_invite (h : string) (t : Z) (i : InviteRow) : bool :=
  bool_decide (i_hash i = h) && bool_decide (i_accepted i = None) && (t <? i_expires i).
Definition load_invite (token : string) : M (option InviteRow) :=
  asks (fun w => head (filter (fun i => open_invite (hash_token token) (now w) i = true) (invites w))).

Definition same_text (a b : string) : bool := bool_decide (ascii_lower a = ascii_lower b).

Definition registration_allowed (email : string) (invite : option InviteRow) (sso_verified team_jit : bool) : M unit :=
  boot ← asks (fun w => is_bootstrap_admin w email);
  if (boot : bool) then mret tt else
  if match invite with Some i => same_text (i_email i) email | None => false end then mret tt else
  s ← asks settings;
  if sso_only s && negb sso_verified then p ← asks (fun w => discover_provider (cfg w) email); fail (SsoRequired p) else
  _ ← require_team_sso sso_verified email;
  if negb (registration_open s || (sso_verified && sso_registration s) || team_jit) then fail RegistrationClosed else
  if negb (bool_decide (allowed_domains s = [])) && negb (existsb (fun d => same_text d (domain_of email)) (allowed_domains s))
  then fail (Denied "Sign-up is limited to approved email domains on this server") else mret tt.

Definition register_start (client : Client) (email request : string) (captcha : option string) : M string :=
  _ ← limit_ip AUTH_IP (c_ip client);
  _ ← require_turnstile captcha (c_ip client);
  email ← of_option (normalize_email email) (BadRequest "Invalid email");
  _ ← require_team_sso false email;
  user ← by_email email;
  match user with Some _ => fail EmailTaken | None => lift (opaque_registration_start email request) end.

(** ** Writing the account *)

(** [SELECT id FROM users WHERE lower(email) = .. AND opaque_record IS NULL AND
    provisioned_at IS NOT NULL AND NOT disabled]. *)
Definition provisioned (w : World) (email : string) : option uuid :=
  u ← find_email w email;
  if bool_decide (u_record u = None) && pr_provisioned (u_profile u) && negb (u_disabled u) then Some (u_id u) else None.

Definition or_old {A} (new old : option A) : option A := match new with Some x => Some x | None => old end.

Definition new_user (id : uuid) (email : string) (verified : bool) (display : option string) (record : bytes)
    (k : AccountKeys) (admin : bool) (managed : option uuid) : UserRow :=
  mkUser id email verified (Some record) (hash_token (ak_verifier k)) (ak_recovery_wrapped k) (ak_wrapped k)
    None false admin false None (mkProfile (ak_public k) display managed false).

(** [USERS_INSERT_SQL]: nothing is written when the id or the address is
    there. *)
Definition insert_user (u : UserRow) : M bool :=
  free ← asks (fun w => bool_decide (users w !! u_id u = None) && bool_decide (find_email w (u_email u) = None));
  if (free : bool) then _ ← modify (fun w => set_users (<[u_id u := u]> (users w)) w); mret true else mret false.

(** [USERS_TAKEOVER_SQL]. *)
Definition complete_user (u old : UserRow) : UserRow :=
  mkUser (u_id old) (u_email u) (u_verified u) (u_record u) (u_recovery_hash u) (u_recovery_wrapped u) (u_wrapped u)
    (u_totp old) (u_totp_enabled old) (u_admin u) (u_disabled old) (u_last_seen old)
    (mkProfile (pr_public_key (u_profile u)) (or_old (pr_display (u_profile u)) (pr_display (u_profile old)))
       (or_old (pr_managed_by (u_profile u)) (pr_managed_by (u_profile old))) (pr_provisioned (u_profile old))).
Definition takeover_user (u : UserRow) : M bool :=
  old ← asks (fun w => users w !! u_id u);
  match old with
  | Some old =>
      if bool_decide (u_record old = None) then
        _ ← modify (fun w => set_users (<[u_id u := complete_user u old]> (users w)) w); mret true
      else mret false
  | None => mret false
  end.

(** A user has one personal vault; ids of vaults are unique. *)
Definition create_personal_vault (user : uuid) (sealed_key : string) : M uuid :=
  id ← new_uuid;
  v ← asks vaults;
  _ ← guard_or (bool_decide (personal v !! user = None)) (Internal "vaults_personal_owner_idx");
  _ ← guard_or (bool_decide (team_vaults v !! id = None) && negb (existsb (fun x => bool_decide (fst (snd x) = id)) (map_to_list (personal v))))
        (Internal "vaults_pkey");
  _ ← modify (set_vaults (mkVaults (<[user := (id, sealed_key)]> (personal v)) (team_vaults v)
                            (vault_members v ++ [(id, user, "manager")])));
  mret id.

Definition join_vault (team user : uuid) (v : VaultTables) (id : uuid) : VaultTables :=
  if bool_decide (team_vaults v !! id = Some team) && negb (bool_decide ((id, user) ∈ map fst (vault_members v)))
  then mkVaults (personal v) (team_vaults v) (vault_members v ++ [(id, user, "viewer")]) else v.

Definition apply_invite (i : InviteRow) (user : uuid) : M unit :=
  let role := if bool_decide (i_role i = "owner") then "member" else i_role i in
  _ ← modify (fun w => if bool_decide ((i_team i, user) ∈ map fst (team_members w)) then w
                       else set_team_members (team_members w ++ [(i_team i, user, role)]) w);
  _ ← modify (fun w => set_vaults (foldl (join_vault (i_team i) user) (vaults w) (i_vaults i)) w);
  modify (fun w => set_invites (map (fun j => if bool_decide (i_id j = i_id i)
            then mkInvite (i_id j) (i_team j) (i_email j) (i_role j) (i_vaults j) (i_hash j) (i_expires j) (Some user) else j)
            (invites w)) w).

Definition write_account (takeover : bool) (u : UserRow) (vault_key : string) (invite : option InviteRow) : M unit :=
  transaction (
    written ← (if takeover then takeover_user u else insert_user u);
    if negb written then fail EmailTaken else
    _ ← create_personal_vault (u_id u) vault_key;
    match invite with Some i => apply_invite i (u_id u) | None => mret tt end).

(** Everything after the account is written. *)
Definition finish_registration (client : Client) (req : RegisterFinish) (invite : option InviteRow)
    (sso : option SsoSession) (id : uuid) : M AuthResponse :=
  _ ← ensure_home_team id;
  user ← by_id id;
  _ ← (match sso with Some s => link_identity s id | None => mret tt end);
  '(device, _) ← upsert_device id (rf_device req) (c_ip client);
  session ← build_session user device;
  _ ← security_event id "registered" (Some device);
  _ ← try_ (send_email_verification user);
  _ ← (match invite with Some _ => publish (TeamsUpdated id) | None => mret tt end);
  mret (Authenticated session).

(** The account itself: a new one, or a provisioned one somebody vouched
    for. *)
Definition open_account (req : RegisterFinish) (email : string) (display : option string) (matching : option InviteRow)
    (vouched : bool) (record : bytes) : M uuid :=
  c ← asks cfg;
  fresh ← new_uuid;
  old ← asks (fun w => provisioned w email);
  let takeover := bool_decide (is_Some old) && (vouched || bool_decide (is_Some matching)) in
  let id := if takeover then default fresh old else fresh in
  let verified := vouched || bool_decide (is_Some matching) || negb (mailer c) in
  admin ← asks (fun w => is_bootstrap_admin w email);
  _ ← write_account takeover (new_user id email verified display record (rf_keys req) admin (i_team <$> matching))
        (ak_vault_key (rf_keys req)) matching;
  mret id.

Definition register_finish (client : Client) (req : RegisterFinish) : M AuthResponse :=
  _ ← limit_ip AUTH_IP (c_ip client);
  email ← of_option (normalize_email (rf_email req)) (BadRequest "Invalid email");
  _ ← lift (validate_keys (rf_keys req));
  _ ← lift (validate_device (rf_device req));
  c ← asks cfg;
  _ ← lift (check_client_version c (rf_device req));
  display ← lift (valid_display_name (rf_display req));
  invite ← (match rf_invite req with
            | Some t => o ← load_invite t; i ← of_option o TokenExpired; mret (Some i)
            | None => mret None
            end);
  sso ← consume_optional (rf_sso req) email;
  let vouched := bool_decide (is_Some sso) in
  _ ← registration_allowed email invite vouched (match sso with Some s => bool_decide (is_Some (sso_team s)) | None => false end);
  let matching := match invite with Some i => if same_text (i_email i) email then Some i else None | None => None end in
  record ← lift (opaque_registration_finish (rf_upload req));
  id ← open_account req email display matching vouched record;
  finish_registration client req invite sso id.
End Register.

(** ** What a registration leaves alone *)

Definition same_users (w w' : World) : Prop := users w' = users w.
#[export] Instance same_users_preorder : PreOrder same_users.
Proof. split; [done|]. unfold same_users. intros ? ? ?. congruence. Qed.

(** What changes nothing but the cache and the stream of random values. *)
Definition only_cache (w w' : World) : Prop := exists c n, w' = set_cache c (set_drawn n w).
#[export] Instance only_cache_preorder : PreOrder only_cache.
Proof.
  split; [intros w; exists (cache w), (drawn w); by destruct w|].
  intros w w1 w2 (c & n & ->) (c' & n' & ->). by exists c', n'.
Qed.

Section Frames.
Context {X : External}.

Lemma users_modify f : (forall w, users (f w) = users w) -> keeps same_users (modify f).
Proof. intros H w. apply H. Qed.
Lemma users_on_cache {A} f : keeps same_users (on_cache (A := A) f).
Proof. intros w. unfold on_cache. by destruct (f (now w) (cache w)). Qed.
Lemma users_draw {A} (f : N -> A) : keeps same_users (draw f).
Proof. intros w. done. Qed.
Hint Resolve users_on_cache users_draw : keeps.
Hint Extern 3 (keeps same_users (modify _)) => (apply users_modify; reflexivity) : keeps.
Hint Extern 3 (keeps same_users (publish _)) => (apply users_modify; reflexivity) : keeps.
Hint Extern 3 (keeps same_users (set_key _ _ _)) => (apply users_modify; reflexivity) : keeps.
Hint Extern 3 (keeps same_users (security_event _ _ _)) => (apply users_modify; reflexivity) : keeps.
Hint Extern 3 (keeps same_users (send_mail _ _ _)) => (apply users_modify; reflexivity) : keeps.

Lemma users_by_id user : keeps same_users (by_id user).
Proof. unfold by_id. repeat keeps_step. Qed.
Hint Resolve users_by_id : keeps.
Lemma users_home user : keeps same_users (ensure_home_team user).
Proof. unfold ensure_home_team. repeat keeps_step. Qed.
Lemma users_link s user : keeps same_users (link_identity s user).
Proof. unfold link_identity. repeat keeps_step. Qed.
Lemma users_upsert user info ip : keeps same_users (upsert_device user info ip).
Proof. unfold upsert_device, new_uuid. repeat keeps_step. Qed.
Lemma users_build user device : keeps same_users (build_session user device).
Proof. unfold build_session, Sessions.issue, random_token, new_uuid, insert_session, approve_device. repeat keeps_step. Qed.
Lemma users_verification user : keeps same_users (send_email_verification user).
Proof. unfold send_email_verification, issue_for, numeric_code, send_code_email. repeat keeps_step. Qed.
Hint Resolve users_home users_link users_upsert users_build users_verification : keeps.

Lemma users_finish client req invite sso id : keeps same_users (finish_registration client req invite sso id).
Proof. unfold finish_registration. repeat keeps_step. Qed.

Lemma cache_on_cache {A} f : keeps only_cache (on_cache (A := A) f).
Proof. intros w. unfold on_cache. destruct (f (now w) (cache w)) as [r c]. exists c, (drawn w). by destruct w. Qed.
Hint Resolve cache_on_cache : keeps.
Lemma cache_draw {A} (f : N -> A) : keeps only_cache (draw f).
Proof. intros w. exists (cache w), (drawn w + 1)%N. by destruct w. Qed.
Hint Resolve cache_draw : keeps.
Lemma cache_team_sso b e : keeps only_cache (require_team_sso b e).
Proof. unfold require_team_sso. repeat keeps_step. Qed.
Lemma cache_consume t e : keeps only_cache (consume_optional t e).
Proof. unfold consume_optional, consume_session. repeat keeps_step. Qed.
Hint Resolve cache_team_sso cache_consume : keeps.
Lemma cache_allowed email invite v jit : keeps only_cache (registration_allowed email invite v jit).
Proof. unfold registration_allowed. repeat keeps_step. Qed.

(** The transaction writes one row, or nothing. *)
Lemma write_account_inv takeover u k invite w r w' : write_account takeover u k invite w = (r, w') ->
  match r with
  | Ok _ => exists row, users w' = <[u_id u := row]> (users w)
      /\ (if takeover then exists old, users w !! u_id u = Some old /\ u_record old = None /\ row = complete_user u old
          else users w !! u_id u = None /\ find_email w (u_email u) = None /\ row = u)
  | Err _ => users w' = users w
  end.
Proof.
  unfold write_account, transaction. 
  match goal with |- context [match ?m w with _ => _ end] => destruct (m w) as [[a|e] w1] eqn:E end; intros [= <- <-]; [|done].
  apply bind_ok_inv in E as (b & w2 & E1 & E). destruct b; cbn [negb] in E; [|done].
  assert (H2 : users w1 = users w2).
  { apply bind_ok_inv in E as (id & w3 & E2 & E).
    assert (H : keeps same_users (create_personal_vault (u_id u) k)) by (unfold create_personal_vault, new_uuid; repeat keeps_step).
    specialize (H w2). rewrite E2 in H. unfold same_users in H. simpl in H. rewrite <- H.
    assert (H' : keeps same_users (match invite with Some i => apply_invite i (u_id u) | None => mret tt end)).
    { destruct invite as [i|]; [|apply keeps_ret]. unfold apply_invite. repeat keeps_step.
      all: apply users_modify; intros y; try done. by destruct (bool_decide _). }
    specialize (H' w3). rewrite E in H'. exact H'. }
  rewrite H2. destruct takeover.
  - unfold takeover_user in E1. revert E1. run_m. destruct (users w !! u_id u) as [old|] eqn:Eo; [|done].
    destruct (bool_decide (u_record old = None)) eqn:Er; [apply bool_decide_eq_true in Er|done]. run_m. intros [= <-].
    eexists. split; [reflexivity|]. eauto.
  - unfold insert_user in E1. revert E1. run_m.
    destruct (_ && _) eqn:Ef; [apply andb_true_iff in Ef as [E3%bool_decide_eq_true E4%bool_decide_eq_true]|done].
    run_m. intros [= <-]. eexists. split; [reflexivity|]. done.
Qed.

(** ** Who gets an account *)

(** A claim on the address's domain that stands in the way of a password. *)
Definition claimed (w : World) (email : string) : Prop :=
  exists team provider, domain_claim w email = Some (team, Some provider)
    /\ (provider = "team" \/ has_provider (cfg w) provider = true) /\ is_team_owner_email w team email = false.

(** Who may register. *)
Definition admits (w : World) (email : string) (invited vouched jit : bool) : Prop :=
  is_bootstrap_admin w email = true \/ invited = true
  \/ ((sso_only (settings w) = true -> vouched = true) /\ (vouched = true \/ ~ claimed w email)
      /\ (registration_open (settings w) = true \/ (vouched = true /\ sso_registration (settings w) = true) \/ jit = true)
      /\ (allowed_domains (settings w) = [] \/ exists d, d ∈ allowed_domains (settings w) /\ same_text d (domain_of email) = true)).

Lemma team_sso_reads vouched email : keeps eq (require_team_sso vouched email).
Proof. unfold require_team_sso. repeat keeps_step. Qed.
Lemma allowed_reads email invite vouched jit : keeps eq (registration_allowed email invite vouched jit).
Proof. pose proof team_sso_reads. unfold registration_allowed. repeat keeps_step. Qed.

Lemma require_team_sso_passes vouched email w : is_bootstrap_admin w email = false ->
  fst (require_team_sso vouched email w) = Ok tt <-> vouched = true \/ ~ claimed w email.
Proof.
  intros Hb. unfold require_team_sso. run_m. rewrite Hb, orb_false_r. destruct vouched; [split; [by left|done]|].
  run_m. unfold claimed. destruct (domain_claim w email) as [[team provider]|] eqn:Ec.
  2: { split; [|done]. intros _. right. by intros (? & ? & ? & _). }
  run_m. destruct provider as [p|]; simpl.
  2: { split; [|done]. intros _. right. by intros (? & ? & ? & _). }
  destruct (bool_decide (p = "team") || has_provider (cfg w) p) eqn:Ep; simpl.
  - destruct (is_team_owner_email w team email) eqn:Eo; simpl.
    + split; [|done]. intros _. right. intros (t & q & [= <- <-] & _ & Hq). congruence.
    + split; [done|]. intros [?|Hn]; [done|]. destruct Hn. exists team, p. split; [done|]. split; [|done].
      apply orb_true_iff in Ep as [E%bool_decide_eq_true|E]; auto.
  - split; [|done]. intros _. right. intros (t & q & [= <- <-] & Hq & _).
    apply orb_false_iff in Ep as [E1%bool_decide_eq_false E2]. destruct Hq; congruence.
Qed.

Definition invite_matches (invite : option InviteRow) (email : string) : bool :=
  match invite with Some i => same_text (i_email i) email | None => false end.

Lemma registration_allowed_exactly email invite vouched jit w :
  fst (registration_allowed email invite vouched jit w) = Ok tt <-> admits w email (invite_matches invite email) vouched jit.
Proof.
  unfold registration_allowed, admits. run_m. destruct (is_bootstrap_admin w email) eqn:Eb; [split; [by left|done]|].
  fold (invite_matches invite email). destruct (invite_matches invite email); [split; [by right; left|done]|].
  run_m. assert (Hd : forall s, negb (bool_decide (allowed_domains s = []))
      && negb (existsb (fun d => same_text d (domain_of email)) (allowed_domains s)) = true
      <-> ~ (allowed_domains s = [] \/ exists d, d ∈ allowed_domains s /\ same_text d (domain_of email) = true)).
  { intros s. rewrite andb_true_iff, !negb_true_iff, bool_decide_eq_false. split.
    - intros [H1 H2] [?|(d & Hd & Ht)]; [done|]. enough (existsb (fun d => same_text d (domain_of email)) (allowed_domains s) = true) by congruence.
      apply existsb_exists. exists d. split; [by apply list_elem_of_In|done].
    - intros H. split; [tauto|]. apply not_true_iff_false. rewrite existsb_exists. intros (d & Hd & Ht).
      apply H. right. exists d. split; [by apply list_elem_of_In|done]. }
  destruct (sso_only (settings w) && negb vouched) eqn:Es.
  { run_m. apply andb_true_iff in Es as [Es ->%negb_true_iff]. split; [done|]. intros [?|[?|[H _]]]; [done..|]. by specialize (H Es). }
  assert (Hs : sso_only (settings w) = true -> vouched = true) by (intros E; rewrite E in Es; by apply negb_false_iff in Es).
  rewrite bind_run. pose proof (require_team_sso_passes vouched email w Eb) as Ht.
  pose proof (team_sso_reads vouched email w) as Hw. destruct (require_team_sso vouched email w) as [[[]|e] w1]; simpl in Hw, Ht.
  2: { split; [done|]. intros [?|[?|(_ & H & _)]]; [done..|]. by apply Ht in H. }
  subst w1. assert (Hc : vouched = true \/ ~ claimed w email) by by apply Ht.
  destruct (negb (registration_open (settings w) || vouched && sso_registration (settings w) || jit)) eqn:Eo.
  { apply negb_true_iff in Eo. apply orb_false_iff in Eo as [[E1 E2]%orb_false_iff ->]. split; [done|].
    intros [?|[?|(_ & _ & [H|[[-> H]|H]] & _)]]; try done; [congruence|]. by rewrite H in E2. }
  apply negb_false_iff in Eo.
  assert (Ho : registration_open (settings w) = true \/ (vouched = true /\ sso_registration (settings w) = true) \/ jit = true).
  { apply orb_true_iff in Eo as [[E|[E1 E2]%andb_true_iff]%orb_true_iff|E]; auto. }
  specialize (Hd (settings w)). destruct (negb (bool_decide (allowed_domains (settings w) = [])) && _).
  - split; [done|]. intros [?|[?|(_ & _ & _ & H)]]; [done..|]. by destruct (proj1 Hd eq_refl).
  - split; [|done]. intros _. right; right. split; [done|]. split; [done|]. split; [done|].
    destruct (decide (allowed_domains (settings w) = [])) as [E|E]; [by left|]. right.
    destruct (existsb (fun d => same_text d (domain_of email)) (allowed_domains (settings w))) eqn:Ex.
    + apply existsb_exists in Ex as (d & Hin & Hs'). exists d. split; [by apply list_elem_of_In|done].
    + exfalso. enough (false = true) by done. apply Hd. intros [?|(d & Hin & Hs')]; [done|].
      assert (existsb (fun d => same_text d (domain_of email)) (allowed_domains (settings w)) = true); [|congruence].
      apply existsb_exists. exists d. split; [by apply list_elem_of_In|done].
Qed.

(** An account with a password stays as it is. *)
Definition spares (w w' : World) : Prop :=
  forall id u, users w !! id = Some u -> u_record u <> None -> users w' !! id = Some u.
Instance spares_preorder : PreOrder spares.
Proof. split; [intros w id u H _; done|]. intros w w1 w2 H H' id u E Hr. apply H'; [by apply H|done]. Qed.
Lemma same_spares {A} (m : M A) : keeps same_users m -> keeps spares m.
Proof. intros H w id u E _. by rewrite (H w). Qed.

Lemma write_spares takeover u k invite : keeps spares (write_account takeover u k invite).
Proof.
  intros w id x E Hr. destruct (write_account takeover u k invite w) as [r w'] eqn:Ew. simpl.
  apply write_account_inv in Ew. destruct r as [[]|e]; [|by rewrite Ew].
  destruct Ew as (row & -> & Hrow). rewrite lookup_insert_ne; [done|]. intros <-.
  destruct takeover; [destruct Hrow as (old & Ho & Hn & _)|destruct Hrow as (Ho & _)]; congruence.
Qed.

Lemma finish_spares client req : keeps spares (register_finish client req).
Proof.
  assert (Hc : forall A (m : M A), keeps only_cache m -> keeps spares m).
  { intros A m Hm. apply same_spares. intros w. destruct (Hm w) as (c & n & ->). done. }
  assert (Hf : forall invite sso id, keeps spares (finish_registration client req invite sso id)).
  { intros. apply same_spares, users_finish. }
  pose proof write_spares. unfold register_finish, open_account, new_uuid, limit_ip.
  repeat first [apply Hf|apply Hc; solve [auto using cache_allowed with keeps|unfold load_invite; repeat keeps_step]|keeps_step].
Qed.

(** The invitation and the identity a request presents. *)
Definition presented_invite (w : World) (req : RegisterFinish) (invite : option InviteRow) : Prop :=
  match rf_invite req with
  | Some t => exists i, invite = Some i /\ i ∈ invites w /\ open_invite (hash_token t) (now w) i = true
  | None => invite = None
  end.
Definition presented_sso (w : World) (req : RegisterFinish) (email : string) (sso : option SsoSession) : Prop :=
  match rf_sso req with
  | Some t => exists s, sso = Some s /\ live (now w) (cache w) (sso_key t) = Some (Json (BSso s)) /\ sso_email s = email
  | None => sso = None
  end.
Definition vouched_for (sso : option SsoSession) : bool := bool_decide (is_Some sso).
Definition from_team (sso : option SsoSession) : bool :=
  match sso with Some s => bool_decide (is_Some (sso_team s)) | None => false end.

(** A provisioned account a person completes. *)
Definition completable (w : World) (email : string) (old : UserRow) : Prop :=
  find_email w email = Some old /\ u_record old = None /\ pr_provisioned (u_profile old) = true /\ u_disabled old = false.

Lemma provisioned_inv w email id : provisioned w email = Some id -> exists old, completable w email old /\ u_id old = id.
Proof.
  unfold provisioned, completable. intros (u & Hu & H)%bind_Some. exists u.
  destruct (_ && _) eqn:E; [|done]. injection H as ->. apply andb_true_iff in E as [E H3%negb_true_iff].
  apply andb_true_iff in E as [H1%bool_decide_eq_true H2]. done.
Qed.

Lemma load_invite_presented w w1 req invite : only_cache w w1 ->
  (match rf_invite req with
   | Some t => o ← load_invite t; i ← of_option o TokenExpired; mret (Some i)
   | None => mret None
   end : M (option InviteRow)) w1 = (Ok invite, w1) -> presented_invite w req invite.
Proof.
  intros (c & n & ->). unfold presented_invite, load_invite. destruct (rf_invite req) as [t|]; [|by intros [= <-]].
  run_m. cbn [invites now set_cache set_drawn].
  destruct (filter (fun i => open_invite (hash_token t) (now w) i = true) (invites w)) as [|i l] eqn:E; [done|].
  intros [= <-]. exists i. split; [done|]. assert (Hin : i ∈ i :: l) by apply list_elem_of_here.
  rewrite <- E in Hin. apply list_elem_of_filter in Hin as [H1 H2]. done.
Qed.

Lemma consume_presented w req email sso ip w1 r2 w2 : limit_ip AUTH_IP ip w = (r2, w1) ->
  consume_optional (rf_sso req) email w1 = (Ok sso, w2) -> presented_sso w req email sso.
Proof.
  unfold presented_sso, consume_optional. destruct (rf_sso req) as [t|]; [|intros _ H; by injection H].
  unfold limit_ip. rewrite limit_run. intros [= <- <-]. unfold consume_session.
  intros (s & w3 & H & H3)%bind_ok_inv. injection H3 as <- <-. exists s. split; [done|].
  apply bind_ok_inv in H as (o & w4 & H & H4). unfold on_cache, take_json in H. cbn [now cache set_cache] in H.
  unfold get_json in H.
  assert (Hl : live (now w) (snd (rl_check AUTH_IP (default "unknown" ip) (now w) (cache w))) (sso_key t) = live (now w) (cache w) (sso_key t)).
  { unfold live. rewrite rl_check_elsewhere; [done|]. unfold sso_key, rl_key. discriminate. }
  rewrite Hl in H. destruct (live (now w) (cache w) (sso_key t)) as [[b|k]|]; [| |].
  - destruct (as_sso b) as [s'|] eqn:Es; [|done]. injection H as <- <-. destruct b; try done. injection Es as ->.
    apply bind_ok_inv in H4 as (s1 & w5 & H4 & H5). injection H4 as <- <-. revert H5.
    destruct (decide (sso_email s' = email)); [|done]. by intros [= <- <-].
  - done.
  - injection H as <- <-. by apply bind_ok_inv in H4 as (? & ? & H4 & _).
Qed.

Lemma finish_user client req invite sso id w a w' : keyed w -> finish_registration client req invite sso id w = (Ok a, w') ->
  exists s, a = Authenticated s /\ ns_user s = id.
Proof.
  intros Hk. unfold finish_registration. intros (? & w1 & E1 & E)%bind_ok_inv.
  apply bind_ok_inv in E as (u & w2 & E2 & E). apply by_id_inv in E2 as [-> Hu].
  pose proof (users_home id w) as H1. rewrite E1 in H1. unfold same_users in H1. simpl in H1. rewrite H1 in Hu.
  apply bind_ok_inv in E as (? & w3 & _ & E). apply bind_ok_inv in E as ([d n] & w4 & _ & E).
  apply bind_ok_inv in E as (ses & w5 & E5 & E). apply bind_ok_inv in E as (? & w6 & _ & E).
  apply bind_ok_inv in E as (? & w7 & _ & E). apply bind_ok_inv in E as (? & w8 & _ & E). injection E as <- _.
  exists ses. split; [done|]. unfold build_session in E5. apply bind_ok_inv in E5 as ([t e] & w9 & _ & E5).
  injection E5 as <- _. simpl. by apply Hk.
Qed.

(** The account a registration answers for, and what the request proved. *)
Definition opens_account (w : World) (req : RegisterFinish) (id : uuid) (w' : World) : Prop :=
  exists email invite sso row,
    normalize_email (rf_email req) = Some email /\ presented_invite w req invite /\ presented_sso w req email sso
    /\ admits w email (invite_matches invite email) (vouched_for sso) (from_team sso)
    /\ users w' = <[id := row]> (users w) /\ u_email row = email /\ is_Some (u_record row)
    /\ u_admin row = is_bootstrap_admin w email
    /\ u_verified row = vouched_for sso || invite_matches invite email || negb (mailer (cfg w))
    /\ ((users w !! id = None /\ find_email w email = None)
        \/ exists old, completable w email old /\ u_id old = id
              /\ vouched_for sso || invite_matches invite email = true).

Lemma cache_reads w w1 : only_cache w w1 -> users w1 = users w /\ settings w1 = settings w /\ cfg w1 = cfg w
  /\ (forall email, find_email w1 email = find_email w email) /\ (forall email, is_bootstrap_admin w1 email = is_bootstrap_admin w email)
  /\ (forall email, claimed w1 email <-> claimed w email).
Proof. intros (c & n & ->). repeat split; done. Qed.

Lemma open_account_inv req email display matching vouched record w id w' : keyed w ->
  open_account req email display matching vouched record w = (Ok id, w') ->
  exists row, users w' = <[id := row]> (users w) /\ u_id row = id /\ u_email row = email /\ is_Some (u_record row)
    /\ u_admin row = is_bootstrap_admin w email
    /\ u_verified row = vouched || bool_decide (is_Some matching) || negb (mailer (cfg w))
    /\ ((users w !! id = None /\ find_email w email = None)
        \/ exists old, completable w email old /\ u_id old = id /\ vouched || bool_decide (is_Some matching) = true).
Proof.
  intros Hk. unfold open_account, new_uuid. run_m. set (w0 := set_drawn _ w). cbn [drawn].
  set (proof := vouched || bool_decide (is_Some matching)).
  destruct (provisioned w0 email) as [old|] eqn:Ep; [destruct proof eqn:Hp|].
  1: { apply provisioned_inv in Ep as (o & (Ho1 & Ho) & Hid). simpl. intros ([] & w1 & E & H)%bind_ok_inv. injection H as <- <-.
       apply write_account_inv in E as (row & Hu & o' & Ho' & Hr & ->). exists (complete_user (new_user old email
         (true || negb (mailer (cfg w))) display record (rf_keys req) (is_bootstrap_admin w email) (i_team <$> matching)) o').
       split; [exact Hu|]. split; [exact (Hk _ _ Ho')|]. repeat (split; [done|]).
       right. exists o. done. }
  all: simpl; intros ([] & w1 & E & H)%bind_ok_inv; injection H as <- <-;
    apply write_account_inv in E as (row & Hu & H1 & H2 & ->); eexists; split; [exact Hu|];
    repeat (split; [done|]); left; done.
Qed.

Lemma register_opens client req w a w' : keyed w -> register_finish client req w = (Ok a, w') ->
  exists s, a = Authenticated s /\ opens_account w req (ns_user s) w'.
Proof.
  intros Hk. unfold register_finish. intros (u1 & w1 & E1 & E)%bind_ok_inv.
  assert (H1 : only_cache w w1) by exact (keeps_run (cache_on_cache (rl_check AUTH_IP (default "unknown" (c_ip client)))) E1).
  apply bind_ok_inv in E as (email & w2 & E2 & E). injection E2 as E2 <-. apply ok_or_ok in E2.
  do 2 (apply bind_ok_inv in E as (? & w2 & E3 & E); injection E3 as _ <-). revert E. rewrite bind_asks. intros E.
  apply bind_ok_inv in E as (? & w2 & E3 & E); injection E3 as _ <-.
  apply bind_ok_inv in E as (display & w2 & E3 & E); injection E3 as _ <-.
  apply bind_ok_inv in E as (invite & w2 & E3 & E).
  assert (w2 = w1) as ->.
  { unfold load_invite, of_option, lift in E3. destruct (rf_invite req) as [t|]; [|by injection E3].
    revert E3. run_m. rewrite bind_run. destruct (ok_or _ _); [|done]. by intros [= _ ->]. }
  apply (load_invite_presented w w1 req invite H1) in E3.
  apply bind_ok_inv in E as (sso & w2 & E4 & E).
  assert (H2 : only_cache w w2) by (etrans; [exact H1|exact (keeps_run (cache_consume (rf_sso req) email) E4)]).
  apply (consume_presented w req email sso (c_ip client) w1 _ w2 E1) in E4.
  apply bind_ok_inv in E as (u3 & w3 & E5 & E).
  pose proof (keeps_run (allowed_reads email invite (bool_decide (is_Some sso)) (from_team sso)) E5) as <-.
  assert (Ha : admits w email (invite_matches invite email) (vouched_for sso) (from_team sso)).
  { assert (Ha : admits w2 email (invite_matches invite email) (vouched_for sso) (from_team sso)).
    { apply registration_allowed_exactly. destruct u3. by apply (f_equal fst) in E5. }
    destruct H2 as (c & n & ->). exact Ha. }
  apply bind_ok_inv in E as (record & w3 & E6 & E). injection E6 as _ <-.
  assert (Hk2 : keyed w2) by (destruct H2 as (c & n & ->); exact Hk).
  apply bind_ok_inv in E as (id & w3 & E7 & E). apply open_account_inv in E7 as (row & Hu & Hid & He & Hr & Had & Hv & Hold); [|done].
  assert (Hk3 : keyed w3).
  { intros i u Hi. rewrite Hu in Hi. apply lookup_insert_Some in Hi as [[<- <-]|[_ Hi]]; [done|by apply Hk2]. }
  pose proof (keeps_run (users_finish client req invite sso id) E) as Hu'. unfold same_users in Hu'.
  apply finish_user in E as (s & -> & Hs); [|done]. exists s. split; [done|]. rewrite Hs.
  assert (Hm : bool_decide (is_Some (match invite with Some i => if same_text (i_email i) email then Some i else None | None => None end))
             = invite_matches invite email).
  { destruct invite as [i|]; [|done]. simpl. by destruct (same_text _ _). }
  rewrite Hm in Hv, Hold. exists email, invite, sso, row. destruct H2 as (c & n & ->).
  rewrite Hu'. repeat (split; [done|]). exact Hold.
Qed.

(** C15: a registration never touches an account that has a password, whatever
    it answers. When it succeeds, its session is for exactly one account, the
    only one that changed: a new one for an address nobody had, or a
    provisioned one without a password that an identity provider or a matching
    open invitation vouches for; whoever registered was admitted (bootstrap
    administrator, matching invitation, or an open or vouched registration
    inside the allowed domains, on a domain no team claimed unless vouched
    for), and what it proved decides whether the address counts as verified. *)
Theorem registration_spares_accounts client req w r w' : keyed w -> register_finish client req w = (r, w') ->
  (forall id u, users w !! id = Some u -> u_record u <> None -> users w' !! id = Some u)
  /\ (forall a, r = Ok a -> exists s, a = Authenticated s /\ opens_account w req (ns_user s) w').
Proof.
  intros Hk E. split; [exact (keeps_run (finish_spares client req) E)|].
  intros a ->. by apply (register_opens client req w a w').
Qed.

(** An address that is taken cannot even start, also when the account behind
    it was provisioned and waits to be completed by [register_finish]. *)
Lemma provisioned_account_cannot_start client email request captcha w e u :
  normalize_email email = Some e -> find_email w e = Some u -> is_ok (fst (register_start client email request captcha w)) = false.
Proof.
  intros He Hu. destruct (register_start client email request captcha w) as [[a|x] w'] eqn:E; [|done]. exfalso.
  unfold register_start in E. apply bind_ok_inv in E as (? & w1 & E1 & E). apply bind_ok_inv in E as (? & w2 & E2 & E).
  assert (H : users w2 = users w).
  { assert (H1 : keeps same_users (limit_ip AUTH_IP (c_ip client))) by apply users_on_cache.
    assert (H2 : keeps same_users (require_turnstile captcha (c_ip client))) by (unfold require_turnstile; repeat keeps_step).
    etrans; [exact (keeps_run H2 E2)|exact (keeps_run H1 E1)]. }
  apply bind_ok_inv in E as (e' & w3 & E3 & E). rewrite He in E3. injection E3 as <- <-.
  apply bind_ok_inv in E as (? & w4 & E4 & E). pose proof (keeps_run (team_sso_reads false e) E4) as <-.
  revert E. unfold by_email. run_m. assert (find_email w2 e = Some u) as ->; [|done].
  unfold find_email in *. by rewrite H.
Qed.
End Frames.

(** ** Scenarios and witnesses *)

#[local] Existing Instance demo_external.

Definition long_key : string := "0123456789abcdef0123456789abcdef".
Definition joining (email : string) (invite : option string) : RegisterFinish :=
  mkRegister email "new" (Some "Ann") laptop (mkKeys long_key long_key long_key long_key long_key) invite None.
Definition corporate : TeamPolicy :=
  mkTeamPolicy (mkPolicy 3 "member" "off" "allow" None true (Some "team") ["corp.io"] false "optional") [] false 0.
Definition scim_user : UserRow := mkUser 1 "ann@corp.io" true None "" "" "" None false false false None (mkProfile "" None (Some 3%N) true).
Definition invited : World :=
  set_invites [mkInvite 9 3 "Ann@corp.io" "owner" [] "token" 1000 None]
    (set_teams {[3%N := mkTeam "Corp" 0 None true]} (set_policies {[3%N := corporate]} demo_world)).

Lemma registration_spares_accounts_witness :
  let w := with_users [scim_user] invited in
  exists s w', register_finish (mkClient None) (joining "ann@corp.io" (Some "token")) w = (Ok (Authenticated s), w')
    /\ ns_user s = 1%N /\ opens_account w (joining "ann@corp.io" (Some "token")) (ns_user s) w'.
Proof.
  intros w. assert (Hk : keyed w) by by apply keyed_decide.
  assert (E : exists s w', register_finish (mkClient None) (joining "ann@corp.io" (Some "token")) w = (Ok (Authenticated s), w')
            /\ ns_user s = 1%N) by (vm_compute; eauto).
  destruct E as (s & w' & E & Hs). exists s, w'. split; [exact E|]. split; [exact Hs|].
  destruct (registration_spares_accounts (mkClient None) (joining "ann@corp.io" (Some "token")) w _ w' Hk E) as [_ H].
  destruct (H _ eq_refl) as (s' & [= <-] & Ho). exact Ho.
Defined.

(** An invitation opens an account on a domain a team claimed for single
    sign-on, although starting says no invitation overrides the claim. *)
Lemma invitation_overrides_a_claim :
  is_ok (fst (register_start (mkClient None) "ann@corp.io" "x" None invited)) = false
  /\ is_ok (fst (register_finish (mkClient None) (joining "ann@corp.io" (Some "token")) invited)) = true.
Proof. by vm_compute. Qed.
