(* ===== verification/Teams.v ===== *)
(** * Teams, their members and invitations

    [crates/termoso-server/src/routes/teams.rs] on tables of its own: roles
    and memberships are the rows of [Authz], and beside them stand teams,
    accounts, team vaults and invitations. A handler answers a value or an
    error and leaves the tables it wrote. Left out: audit entries, mails, the
    presence kept in Redis, session logs and storage. *)
From Stdlib Require Import Ascii.
From S2P Require Import Prelude Text VaultAccess Backend Server Sessions Codes Authz.

#[local] Open Scope string_scope.
#[local] Open Scope list_scope.
#[local] Open Scope Z_scope.

(** ** Tables *)

Record TeamRow := mkTeam {
  t_name : string; t_owner : uuid; t_created : Z; t_multiplayer : bool; t_require_mfa : bool; t_presence : bool
}.

(** [a_mfa]: one-time passwords are on or there is a passkey. *)
Record Account := mkAccount {
  a_email : string; a_display : option string; a_public_key : string; a_verified : bool; a_managed : option uuid;
  a_mfa : bool
}.

(** A vault belongs to a team or to a user. *)
Record VaultRow := mkVault { v_team : option uuid; v_owner : option uuid; v_deleted : bool; v_key_version : Z }.
Record VaultMember := mkVaultMember { vm_role : string; vm_sealed : option string; vm_version : Z }.

Record InviteRow := mkInvite {
  i_team : uuid; i_email : string; i_level : string; i_role : option uuid; i_hash : string; i_by : uuid;
  i_vaults : list uuid; i_created : Z; i_expires : Z; i_accepted : option uuid
}.

(** The columns of [team_policies] these routes use. *)
Record PolicyRow := mkPolicy { p_mfa : string; p_sso_domains : list string }.

Inductive Event : Type := TeamsUpdated (users : list uuid) | VaultsUpdated (users : list uuid) | PresenceChanged (team : uuid).

Record Tables := mkTables {
  now : Z; drawn : N; users_can_create_teams : bool; mailer : bool;
  db : Db; teams : gmap uuid TeamRow; accounts : gmap uuid Account; vaults : gmap uuid VaultRow;
  vault_members : gmap (uuid * uuid) VaultMember; invites : gmap uuid InviteRow; policies : gmap uuid PolicyRow;
  published : list Event
}.

Definition set_drawn (v : N) (tb : Tables) : Tables :=
  mkTables (now tb) v (users_can_create_teams tb) (mailer tb) (db tb) (teams tb) (accounts tb) (vaults tb)
    (vault_members tb) (invites tb) (policies tb) (published tb).
Definition set_db (v : Db) (tb : Tables) : Tables :=
  mkTables (now tb) (drawn tb) (users_can_create_teams tb) (mailer tb) v (teams tb) (accounts tb) (vaults tb)
    (vault_members tb) (invites tb) (policies tb) (published tb).
Definition set_teams (v : gmap uuid TeamRow) (tb : Tables) : Tables :=
  mkTables (now tb) (drawn tb) (users_can_create_teams tb) (mailer tb) (db tb) v (accounts tb) (vaults tb)
    (vault_members tb) (invites tb) (policies tb) (published tb).
Definition set_accounts (v : gmap uuid Account) (tb : Tables) : Tables :=
  mkTables (now tb) (drawn tb) (users_can_create_teams tb) (mailer tb) (db tb) (teams tb) v (vaults tb)
    (vault_members tb) (invites tb) (policies tb) (published tb).
Definition set_vaults (v : gmap uuid VaultRow) (tb : Tables) : Tables :=
  mkTables (now tb) (drawn tb) (users_can_create_teams tb) (mailer tb) (db tb) (teams tb) (accounts tb) v
    (vault_members tb) (invites tb) (policies tb) (published tb).
Definition set_vault_members (v : gmap (uuid * uuid) VaultMember) (tb : Tables) : Tables :=
  mkTables (now tb) (drawn tb) (users_can_create_teams tb) (mailer tb) (db tb) (teams tb) (accounts tb) (vaults tb)
    v (invites tb) (policies tb) (published tb).
Definition set_invites (v : gmap uuid InviteRow) (tb : Tables) : Tables :=
  mkTables (now tb) (drawn tb) (users_can_create_teams tb) (mailer tb) (db tb) (teams tb) (accounts tb) (vaults tb)
    (vault_members tb) v (policies tb) (published tb).
Definition set_policies (v : gmap uuid PolicyRow) (tb : Tables) : Tables :=
  mkTables (now tb) (drawn tb) (users_can_create_teams tb) (mailer tb) (db tb) (teams tb) (accounts tb) (vaults tb)
    (vault_members tb) (invites tb) v (published tb).
Definition set_published (v : list Event) (tb : Tables) : Tables :=
  mkTables (now tb) (drawn tb) (users_can_create_teams tb) (mailer tb) (db tb) (teams tb) (accounts tb) (vaults tb)
    (vault_members tb) (invites tb) (policies tb) v.

(** ** Handlers *)

Definition T (A : Type) : Type := Tables -> result ApiError A * Tables.
#[export] Instance T_ret : MRet T := fun A a tb => (Ok a, tb).
#[export] Instance T_bind : MBind T := fun A B k m tb =>
  match m tb with (Ok a, tb') => k a tb' | (Err e, tb') => (Err e, tb') end.

Definition fail {A} (e : ApiError) : T A := fun tb => (Err e, tb).
Definition asks {A} (f : Tables -> A) : T A := fun tb => (Ok (f tb), tb).
Definition modify (f : Tables -> Tables) : T unit := fun tb => (Ok tt, f tb).
Definition lift {A} (r : result ApiError A) : T A := fun tb => (r, tb).
Definition check (b : bool) (e : ApiError) : T unit := if b then mret tt else fail e.
Definition of_option {A} (o : option A) (e : ApiError) : T A := lift (ok_or o e).
(** A transaction: an error undoes what it wrote. *)
Definition transaction {A} (m : T A) : T A := fun tb =>
  match m tb with (Ok a, tb') => (Ok a, tb') | (Err e, tb') => (Err e, set_drawn (drawn tb') tb) end.

Abbreviation bad_request := Backend.BadRequest.
Abbreviation forbidden := Backend.Denied.
Abbreviation not_found := Backend.Missing.
Abbreviation conflict := Backend.Conflict.

(** Who makes a request ([auth.user_id()]). *)
Definition actor (a : Auth) : uuid := Sessions.user_id a.

(** The errors of [authz.rs] as the API's. *)
Definition api_error (e : Authz.Error) : ApiError :=
  match e with
  | Authz.PermissionDenied p => Backend.PermissionDenied p
  | Authz.NotFound what => not_found what
  | Authz.BadRequest msg => bad_request msg
  | RowNotFound => Internal "RowNotFound"
  end.
Definition of_authz {A} (r : api A) : result ApiError A :=
  match r with Ok a => Ok a | Err e => Err (api_error e) end.

Definition publish (e : Event) : T unit := modify (fun tb => set_published (published tb ++ [e]) tb).

Section Draw.
Context {X : External}.
Definition new_uuid : T uuid := fun tb => (Ok (uuid_at (drawn tb)), set_drawn (drawn tb + 1)%N tb).
Definition random_token : T string := fun tb => (Ok (token_at (drawn tb)), set_drawn (drawn tb + 1)%N tb).
Lemma t_uuid {B} (k : uuid -> T B) tb : (new_uuid ≫= k) tb = k (uuid_at (drawn tb)) (set_drawn (drawn tb + 1)%N tb).
Proof. reflexivity. Qed.
End Draw.

(** ** Running handlers *)

Lemma t_bind {A B} (m : T A) (k : A -> T B) tb :
  (m ≫= k) tb = match m tb with (Ok a, tb') => k a tb' | (Err e, tb') => (Err e, tb') end.
Proof. reflexivity. Qed.
Lemma t_assoc {A B C} (m : T A) (k : A -> T B) (k' : B -> T C) tb : ((m ≫= k) ≫= k') tb = (m ≫= fun a => k a ≫= k') tb.
Proof. rewrite !t_bind. destruct (m tb) as [[a|e] tb1]; [|done]. by rewrite t_bind. Qed.
Lemma t_ret {A B} (a : A) (k : A -> T B) tb : (mret a ≫= k) tb = k a tb.
Proof. reflexivity. Qed.
Lemma t_asks {A B} (f : Tables -> A) (k : A -> T B) tb : (asks f ≫= k) tb = k (f tb) tb.
Proof. reflexivity. Qed.
Lemma t_modify {B} f (k : unit -> T B) tb : (modify f ≫= k) tb = k tt (f tb).
Proof. reflexivity. Qed.
Lemma t_lift {A B} (r : result ApiError A) (k : A -> T B) tb :
  (lift r ≫= k) tb = match r with Ok a => k a tb | Err e => (Err e, tb) end.
Proof. reflexivity. Qed.
Lemma t_option {A B} (o : option A) e (k : A -> T B) tb :
  (of_option o e ≫= k) tb = match o with Some a => k a tb | None => (Err e, tb) end.
Proof. by destruct o. Qed.
Lemma t_check {B} b e (k : unit -> T B) tb : (check b e ≫= k) tb = if b then k tt tb else (Err e, tb).
Proof. by destruct b. Qed.
Lemma t_fail {A B} e (k : A -> T B) tb : (fail e ≫= k) tb = (Err e, tb).
Proof. reflexivity. Qed.
Lemma t_publish {B} e (k : unit -> T B) tb : (publish e ≫= k) tb = k tt (set_published (published tb ++ [e]) tb).
Proof. reflexivity. Qed.
Create Rewrite HintDb tables.
Hint Rewrite @t_assoc @t_ret @t_asks @t_modify @t_lift @t_option @t_check @t_fail @t_publish @t_uuid : tables.
Ltac run_t := autorewrite with tables; cbn [fst snd].

(** [m] only does, from any tables, what [R] allows. *)
Definition does {A} (R : relation Tables) (m : T A) : Prop := forall tb, R tb (snd (m tb)).

Section Does.
Context {R : relation Tables} `{!PreOrder R}.
Lemma does_ret {A} (a : A) : does R (mret a).
Proof. intros tb. simpl. reflexivity. Qed.
Lemma does_fail {A} e : does R (fail (A := A) e).
Proof. intros tb. simpl. reflexivity. Qed.
Lemma does_asks {A} (f : Tables -> A) : does R (asks f).
Proof. intros tb. simpl. reflexivity. Qed.
Lemma does_lift {A} (r : result ApiError A) : does R (lift r).
Proof. intros tb. simpl. reflexivity. Qed.
Lemma does_check b e : does R (check b e).
Proof. intros tb. unfold check. destruct b; simpl; reflexivity. Qed.
Lemma does_modify f : (forall tb, R tb (f tb)) -> does R (modify f).
Proof. intros H tb. apply H. Qed.
Lemma does_bind {A B} (m : T A) (k : A -> T B) : does R m -> (forall a, does R (k a)) -> does R (m ≫= k).
Proof.
  intros Hm Hk tb. rewrite t_bind. specialize (Hm tb). destruct (m tb) as [[a|e] tb1]; simpl in *; [|done].
  etrans; [exact Hm|apply Hk].
Qed.
End Does.
Create HintDb does.
#[export] Hint Resolve does_ret does_fail does_asks does_lift does_check : does.
Ltac does_step :=
  match goal with
  | |- does _ (mbind _ _) => apply does_bind; [|intros ?]
  | |- does _ (match ?x with _ => _ end) => destruct x
  | |- does _ (let '_ := ?x in _) => destruct x
  | |- _ => solve [eauto with does typeclass_instances]
  end.

(** ** Rows *)

Definition INVITE_DAYS : Z := 14.
Definition day : Z := 24 * 3600 * 1000.

Definition team_role_str (r : TeamRole) : string :=
  match r with Member => "member" | Admin => "admin" | Owner => "owner" end.

(** The row of a member: the primary key is [(team_id, user_id)]. *)
Definition is_row (team user : uuid) (m : MemberRow) : Prop := m_team m = team /\ m_user m = user.
#[export] Instance is_row_dec team user m : Decision (is_row team user m).
Proof. unfold is_row. apply _. Defined.

Definition with_members (l : list MemberRow) (d : Db) : Db :=
  mkDb (team_roles d) l (default_roles d) (role_mappings d).
Definition on_members (f : list MemberRow -> list MemberRow) (tb : Tables) : Tables :=
  set_db (with_members (f (Authz.team_members (db tb))) (db tb)) tb.

(** [UPDATE team_members SET role, role_id, role_source = 'manual']. *)
Definition update_row (team user : uuid) (lvl : TeamRole) (rid : uuid) (tb : Tables) : Tables :=
  on_members (map (fun m => if decide (is_row team user m)
                            then mkMember team user (team_role_str lvl) rid "manual" else m)) tb.
(** [INSERT INTO team_members]. *)
Definition insert_row (m : MemberRow) (tb : Tables) : Tables := on_members (fun l => l ++ [m]) tb.
(** [DELETE FROM team_members]. *)
Definition delete_row (team user : uuid) (tb : Tables) : Tables :=
  on_members (filter (fun m => ~ is_row team user m)) tb.

Definition my_role (tb : Tables) (team user : uuid) : result ApiError TeamRole :=
  match list_find (is_row team user) (Authz.team_members (db tb)) with
  | Some (_, m) => Ok (parse_team_role (m_role m))
  | None => Err (not_found "Team")
  end.

Definition member_ids (tb : Tables) (team : uuid) : list uuid :=
  map m_user (filter (fun m => m_team m = team) (Authz.team_members (db tb))).

Definition validate_name (name : string) : result ApiError string :=
  let n := trim name in
  if bool_decide (n = "") || (100 <? length (chars (as_bytes n)))%nat then Err (bad_request "Invalid team name") else Ok n.

Definition my_membership (team user : uuid) : T Membership :=
  tb ← asks (fun tb => tb); lift (of_authz (membership (db tb) team user)).
Definition require_perm (team user : uuid) (perm : string) : T Membership :=
  tb ← asks (fun tb => tb); lift (of_authz (require (db tb) team user perm)).
Definition account (user : uuid) : T Account :=
  tb ← asks (fun tb => tb); of_option (accounts tb !! user) (not_found "User").
Definition team_row (team : uuid) : T TeamRow :=
  tb ← asks (fun tb => tb); of_option (teams tb !! team) (Internal "RowNotFound").
Definition publish_teams (team : uuid) : T unit :=
  tb ← asks (fun tb => tb); publish (TeamsUpdated (member_ids tb team)).

Definition on_team (team : uuid) (f : TeamRow -> TeamRow) : T unit :=
  modify (fun tb => set_teams (alter f team (teams tb)) tb).

Section Teams.
Context {X : External}.

(** ** Teams *)

(** The rows of a new team; [ids] are those of its built-in roles. *)
Definition found_team (id owner : uuid) (name : string) (ids : list uuid) : T uuid :=
  tb ← asks (fun tb => tb);
  _ ← check (bool_decide (teams tb !! id = None)) (Internal "unique");
  let d := db tb in
  let d := mkDb (team_roles d) (Authz.team_members d) (<[id := None]> (default_roles d)) (role_mappings d) in
  let '(d, owner_role) := seed_builtin_roles d id ids in
  _ ← check (bool_decide (NoDup (map r_id (team_roles d)))) (Internal "unique");
  _ ← modify (set_db d);
  _ ← modify (set_teams (<[id := mkTeam name owner (now tb) true false false]> (teams tb)));
  _ ← modify (insert_row (mkMember id owner "owner" owner_role "manual"));
  mret id.

Definition create (auth : Auth) (name : string) : T uuid :=
  name ← lift (validate_name name);
  tb ← asks (fun tb => tb);
  _ ← check (Server.is_admin (auth_session auth) || users_can_create_teams tb)
        (forbidden "Team creation is disabled on this server");
  _ ← check (email_verified (auth_session auth) || negb (mailer tb)) EmailUnverified;
  id ← new_uuid;
  r0 ← new_uuid; r1 ← new_uuid; r2 ← new_uuid; r3 ← new_uuid; r4 ← new_uuid;
  transaction (found_team id (actor auth) name [r0; r1; r2; r3; r4]).

(** The team's page, which a change answers with. *)
Definition get (auth : Auth) (id : uuid) : T (TeamRow * Membership) :=
  me ← my_membership id (actor auth);
  t ← team_row id;
  mret (t, me).

Record UpdateTeamRequest := mkUpdate {
  ur_name : option string; ur_multiplayer : option bool; ur_require_mfa : option bool; ur_presence : option bool
}.

(** [INSERT INTO team_policies .. ON CONFLICT DO UPDATE]. *)
Definition upsert_mfa (team : uuid) (mfa : string) (m : gmap uuid PolicyRow) : gmap uuid PolicyRow :=
  match m !! team with
  | None => <[team := mkPolicy mfa []]> m
  | Some p =>
      <[team := mkPolicy (if decide (mfa = "off") then "off" else if decide (p_mfa p = "passkey") then "passkey" else "any")
                  (p_sso_domains p)]> m
  end.

Definition when {A} (o : option A) (f : A -> T unit) : T unit :=
  match o with Some a => f a | None => mret tt end.

Definition update (auth : Auth) (id : uuid) (req : UpdateTeamRequest) : T (TeamRow * Membership) :=
  _ ← require_perm id (actor auth) "team.rename";
  _ ← when (ur_name req) (fun name =>
        name ← lift (validate_name name);
        on_team id (fun t => mkTeam name (t_owner t) (t_created t) (t_multiplayer t) (t_require_mfa t) (t_presence t)));
  _ ← when (ur_multiplayer req) (fun on =>
        on_team id (fun t => mkTeam (t_name t) (t_owner t) (t_created t) on (t_require_mfa t) (t_presence t)));
  _ ← when (ur_require_mfa req) (fun on =>
        tb ← asks (fun tb => tb);
        _ ← (if on then
               a ← of_option (accounts tb !! actor auth) (Internal "RowNotFound");
               check (a_mfa a) (forbidden "Turn on two-factor authentication for your own account first")
             else mret tt);
        _ ← on_team id (fun t => mkTeam (t_name t) (t_owner t) (t_created t) (t_multiplayer t) on (t_presence t));
        modify (fun tb => set_policies (upsert_mfa id (if on then "any" else "off") (policies tb)) tb));
  _ ← when (ur_presence req) (fun on =>
        _ ← on_team id (fun t => mkTeam (t_name t) (t_owner t) (t_created t) (t_multiplayer t) (t_require_mfa t) on);
        publish (PresenceChanged id));
  _ ← publish_teams id;
  get auth id.

Definition without_team (a : Account) : Account :=
  mkAccount (a_email a) (a_display a) (a_public_key a) (a_verified a) None (a_mfa a).

(** [DELETE FROM teams], with everything that refers to the team. *)
Definition drop_team (id : uuid) (tb : Tables) : Tables :=
  let d := db tb in
  set_db (mkDb (filter (fun r => r_team r <> id) (team_roles d)) (filter (fun m => m_team m <> id) (Authz.team_members d))
            (delete id (default_roles d)) (filter (fun x => x_team x <> id) (role_mappings d)))
  (set_teams (delete id (teams tb))
  (set_accounts ((fun a => if decide (a_managed a = Some id) then without_team a else a) <$> accounts tb)
  (set_vault_members (filter (fun '((vid, _), _) => (vaults tb !! vid) ≫= v_team <> Some id) (vault_members tb))
  (set_vaults (filter (fun '(_, v) => v_team v <> Some id) (vaults tb))
  (set_invites (filter (fun '(_, i) => i_team i <> id) (invites tb))
  (set_policies (delete id (policies tb)) tb)))))).

Definition purge (id : uuid) : T (list uuid) :=
  members ← asks (fun tb => member_ids tb id);
  _ ← modify (drop_team id);
  _ ← publish (TeamsUpdated members);
  _ ← publish (VaultsUpdated members);
  mret members.

Definition delete_team (auth : Auth) (id : uuid) : T unit :=
  tb ← asks (fun tb => tb);
  role ← lift (my_role tb id (actor auth));
  _ ← check (bool_decide (role = Owner) || Server.is_admin (auth_session auth)) (forbidden "Only the owner can delete a team");
  _ ← purge id; mret tt.

(** ** Members *)

Definition member_not_found {A} (r : result ApiError A) : result ApiError A :=
  match r with Ok a => Ok a | Err _ => Err (not_found "Member") end.

(** The requested role: an id of one wins over the coarse level. *)
Definition requested_role (tb : Tables) (team : uuid) (role_id : option uuid) (level : TeamRole) :
    result ApiError (uuid * string * TeamRole) :=
  match role_id with
  | Some rid =>
      match list_find (fun r => r_team r = team /\ r_id r = rid) (team_roles (db tb)) with
      | Some (_, r) => Ok (rid, r_slug r, parse_team_role (r_slug r))
      | None => Err (not_found "Role")
      end
  | None => rid ← of_authz (role_id_for_level (db tb) team level); Ok (rid, team_role_str level, level)
  end.

Definition unmanage (team user : uuid) (tb : Tables) : Tables :=
  set_accounts (alter (fun a => if decide (a_managed a = Some team) then without_team a else a) user (accounts tb)) tb.
Definition managed_by (team user : uuid) (tb : Tables) : bool :=
  bool_decide ((accounts tb !! user) ≫= a_managed = Some team).

Definition transfer (team owner user role admin_role : uuid) : T unit :=
  _ ← modify (update_row team owner Admin admin_role);
  _ ← modify (update_row team user Owner role);
  _ ← on_team team (fun t => mkTeam (t_name t) user (t_created t) (t_multiplayer t) (t_require_mfa t) (t_presence t));
  modify (unmanage team user).

Definition permissions_of (tb : Tables) (rid : uuid) : result ApiError (list string) :=
  match find_role (db tb) rid with Some r => Ok (r_permissions r) | None => Err (Internal "RowNotFound") end.

(** Nobody hands out permissions they do not hold themselves. *)
Definition grants_within (me : Membership) (slug : string) (perms : list string) : result ApiError unit :=
  match list_find (fun p => has me p = false) perms with
  | Some (_, p) => Err (forbidden ("You cannot assign `" +:+ slug +:+ "`: it grants `" +:+ p +:+ "`, which you do not hold"))
  | None => Ok tt
  end.

Definition update_member (auth : Auth) (id user : uuid) (role_id : option uuid) (lvl : TeamRole) : T unit :=
  me ← my_membership id (actor auth);
  tb ← asks (fun tb => tb);
  target ← lift (member_not_found (of_authz (membership (db tb) id user)));
  '(new_role_id, new_slug, new_level) ← lift (requested_role tb id role_id lvl);
  _ ← (if decide (new_level = Owner) then
         _ ← check (bool_decide (level me = Owner)) (forbidden "Only the owner can transfer ownership");
         _ ← check (negb (bool_decide (user = actor auth))) (bad_request "You already own this team");
         admin_role ← lift (of_authz (builtin_role_id (db tb) id "admin"));
         transaction (transfer id (actor auth) user new_role_id admin_role)
       else
         _ ← check (has me "members.role") (Backend.PermissionDenied "members.role");
         _ ← check (negb (bool_decide (level target = Owner))) (forbidden "Transfer ownership first");
         _ ← (if decide (level me = Owner) then mret tt else
                perms ← lift (permissions_of tb new_role_id);
                lift (grants_within me new_slug perms));
         modify (update_row id user new_level new_role_id));
  publish_teams id.

(** The vault memberships of a user in the team's vaults. *)
Definition in_team_vault (tb : Tables) (team user : uuid) (k : uuid * uuid) : Prop :=
  (vaults tb !! fst k) ≫= v_team = Some team /\ snd k = user.
#[export] Instance in_team_vault_dec tb team user k : Decision (in_team_vault tb team user k).
Proof. unfold in_team_vault. apply _. Defined.

Definition remove (team user : uuid) : T bool :=
  converted ← transaction (
    _ ← modify (delete_row team user);
    converted ← asks (managed_by team user);
    _ ← modify (unmanage team user);
    _ ← modify (fun tb => set_vault_members (filter (fun '(k, _) => ~ in_team_vault tb team user k) (vault_members tb)) tb);
    mret converted);
  tb ← asks (fun tb => tb);
  let ids := member_ids tb team ++ [user] in
  _ ← publish (TeamsUpdated ids);
  _ ← publish (VaultsUpdated ids);
  mret converted.

Definition remove_member (auth : Auth) (id user : uuid) : T unit :=
  _ ← require_perm id (actor auth) "members.remove";
  tb ← asks (fun tb => tb);
  target ← lift (member_not_found (my_role tb id user));
  _ ← check (negb (bool_decide (target = Owner))) (forbidden "The owner cannot be removed");
  _ ← remove id user; mret tt.

Definition leave (auth : Auth) (id : uuid) : T unit :=
  tb ← asks (fun tb => tb);
  role ← lift (my_role tb id (actor auth));
  _ ← check (negb (bool_decide (role = Owner))) (forbidden "Transfer ownership before leaving");
  _ ← remove id (actor auth); mret tt.

(** [users::delete] on these tables: the account goes with its memberships,
    its personal vault and the invitations it sent. *)
Definition drop_account (user : uuid) (tb : Tables) : Tables :=
  on_members (filter (fun m => m_user m <> user))
  (set_accounts (delete user (accounts tb))
  (set_vault_members (filter (fun '((v, u), _) => u <> user /\ (vaults tb !! v) ≫= v_owner <> Some user) (vault_members tb))
  (set_vaults (filter (fun '(_, v) => v_owner v <> Some user) (vaults tb))
  (set_invites ((fun i => mkInvite (i_team i) (i_email i) (i_level i) (i_role i) (i_hash i) (i_by i) (i_vaults i)
                            (i_created i) (i_expires i) (if decide (i_accepted i = Some user) then None else i_accepted i)) <$>
                filter (fun '(_, i) => i_by i <> user) (invites tb)) tb)))).

(** Who shares a vault with the user. *)
Definition affected (user : uuid) (tb : Tables) : list uuid :=
  remove_dups (omap (fun '(v, u) => if decide (u <> user /\ is_Some (vault_members tb !! (v, user))) then Some u else None)
                 (map fst (map_to_list (vault_members tb)))).

Definition delete_user (user : uuid) : T unit :=
  user_ids ← asks (affected user);
  _ ← modify (drop_account user);
  if decide (user_ids = []) then mret tt else
  _ ← publish (VaultsUpdated user_ids);
  publish (TeamsUpdated user_ids).

Definition delete_member_account (auth : Auth) (id user : uuid) : T unit :=
  tb ← asks (fun tb => tb);
  _ ← check (step_up_fresh (now tb) (auth_session auth)) ReauthRequired;
  mine ← lift (my_role tb id (actor auth));
  _ ← check (bool_decide (mine = Owner)) (forbidden "Only the owner can delete a member's account");
  target ← lift (member_not_found (my_role tb id user));
  _ ← check (negb (bool_decide (target = Owner))) (forbidden "The owner cannot be removed");
  u ← account user;
  _ ← check (bool_decide (a_managed u = Some id))
        (conflict "This account was not created by the team; remove the member instead");
  _ ← check (bool_decide (filter (fun '(_, t) => t_owner t = user) (teams tb) = ∅))
        (conflict "The member owns other teams; they must transfer or delete them first");
  _ ← team_row id;
  delete_user user.

(** ** Invitations *)

Definition same_text (a b : string) : bool := bool_decide (ascii_lower a = ascii_lower b).
Definition open_invite (tb : Tables) (i : InviteRow) : bool :=
  bool_decide (i_accepted i = None) && (now tb <? i_expires i).
Definition invite_of (tb : Tables) (token : string) : option (uuid * InviteRow) :=
  head (map_to_list (filter (fun '(_, i) => i_hash i = hash_token token /\ open_invite tb i = true) (invites tb))).

Record CreateInviteRequest := mkCreateInvite {
  ci_email : string; ci_role : TeamRole; ci_role_id : option uuid; ci_vaults : list uuid
}.

Definition is_member_email (tb : Tables) (team : uuid) (email : string) : bool :=
  existsb (fun m => bool_decide (m_team m = team) &&
                    bool_decide (to_lowercase <$> (a_email <$> accounts tb !! m_user m) = Some email))
    (Authz.team_members (db tb)).

Definition team_vault (tb : Tables) (team vault : uuid) : bool :=
  match vaults tb !! vault with Some v => bool_decide (v_team v = Some team) && negb (v_deleted v) | None => false end.

Definition create_invite (auth : Auth) (id : uuid) (req : CreateInviteRequest) : T (uuid * string) :=
  me ← require_perm id (actor auth) "members.invite";
  _ ← check (negb (bool_decide (ci_role req = Owner))) (bad_request "Cannot invite as owner");
  tb ← asks (fun tb => tb);
  '(ref, lvl) ← lift (of_authz (assignable_role (db tb) me (ci_role_id req) (ci_role req)));
  email ← of_option (normalize_email (ci_email req)) (bad_request "Invalid email");
  let domains := default [] (p_sso_domains <$> policies tb !! id) in
  _ ← check (domain_allowed domains email) (DomainNotAllowed domains);
  _ ← check (negb (is_member_email tb id email)) (conflict "Already a member");
  _ ← check (forallb (team_vault tb id) (ci_vaults req)) (bad_request "Vault does not belong to this team");
  token ← random_token; invite_id ← new_uuid;
  _ ← modify (fun tb => set_invites (filter (fun '(_, i) => ~ (i_team i = id /\ to_lowercase (i_email i) = email
                                             /\ i_accepted i = None)) (invites tb)) tb);
  tb ← asks (fun tb => tb);
  _ ← check (bool_decide (invites tb !! invite_id = None)
             && bool_decide (hash_token token ∉ (map (fun e => i_hash (snd e)) (map_to_list (invites tb))))) (Internal "unique");
  _ ← modify (fun tb => set_invites (<[invite_id :=
        mkInvite id email (team_role_str lvl) (Some (Authz.id ref)) (hash_token token) (actor auth) (ci_vaults req) (now tb)
          (now tb + INVITE_DAYS * day) None]> (invites tb)) tb);
  mret (invite_id, token).

Definition delete_invite (auth : Auth) (id invite_id : uuid) : T unit :=
  _ ← require_perm id (actor auth) "members.invite";
  tb ← asks (fun tb => tb);
  match invites tb !! invite_id with
  | Some i =>
      if bool_decide (i_team i = id) && bool_decide (i_accepted i = None)
      then modify (set_invites (delete invite_id (invites tb))) else fail (not_found "Invite")
  | None => fail (not_found "Invite")
  end.

(** The role of a new member: the invited one if it still stands, the
    built-in one of the level, or the team's default. *)
Definition invited_role (d : Db) (team : uuid) (lvl : string) (role_id : option uuid) : option uuid :=
  let named := list_find (fun r => r_team r = team /\ Some (r_id r) = role_id /\ r_slug r <> "owner") (team_roles d) in
  let builtin := list_find (fun r => r_team r = team /\ r_slug r = lvl /\ r_builtin r = true) (team_roles d) in
  match named, builtin with
  | Some (_, r), _ => Some (r_id r)
  | None, Some (_, r) => Some (r_id r)
  | None, None => mjoin (default_roles d !! team)
  end.

(** [INSERT INTO vault_members .. ON CONFLICT DO NOTHING]. *)
Definition join_vault (team user : uuid) (m : gmap (uuid * uuid) VaultMember) (tb : Tables) (vid : uuid) :
    gmap (uuid * uuid) VaultMember :=
  match vaults tb !! vid with
  | Some v => if team_vault tb team vid && bool_decide (m !! (vid, user) = None)
              then <[(vid, user) := mkVaultMember "viewer" None (v_key_version v)]> m else m
  | None => m
  end.

Definition apply_invite (invite_id : uuid) (i : InviteRow) (user : uuid) : T unit :=
  let lvl := if decide (i_level i = "owner") then "member" else i_level i in
  tb ← asks (fun tb => tb);
  rid ← of_option (invited_role (db tb) (i_team i) lvl (i_role i)) (Internal "null role_id");
  _ ← (if decide (Exists (is_row (i_team i) user) (Authz.team_members (db tb))) then mret tt
       else modify (insert_row (mkMember (i_team i) user lvl rid "manual")));
  _ ← modify (fun tb => set_vault_members (foldl (fun m => join_vault (i_team i) user m tb) (vault_members tb) (i_vaults i)) tb);
  modify (fun tb => set_invites (alter (fun j => mkInvite (i_team j) (i_email j) (i_level j) (i_role j) (i_hash j) (i_by j)
            (i_vaults j) (i_created j) (i_expires j) (Some user)) invite_id (invites tb)) tb).

Definition accept_invite (auth : Auth) (token : string) : T (TeamRow * Membership) :=
  tb ← asks (fun tb => tb);
  '(invite_id, i) ← of_option (invite_of tb token) TokenExpired;
  me ← account (actor auth);
  _ ← check (same_text (a_email me) (i_email i)) (forbidden "This invitation was sent to a different email address");
  _ ← transaction (
    _ ← (if a_verified me then mret tt else
           modify (fun tb => set_accounts (alter (fun a => mkAccount (a_email a) (a_display a) (a_public_key a) true
                               (a_managed a) (a_mfa a)) (actor auth) (accounts tb)) tb));
    apply_invite invite_id i (actor auth));
  tb ← asks (fun tb => tb);
  let ids := member_ids tb (i_team i) ++ [actor auth] in
  _ ← publish (TeamsUpdated ids);
  _ ← (if decide (i_vaults i = []) then mret tt else publish (VaultsUpdated ids));
  get auth (i_team i).

(** ** Reading *)

Record InvitePreview := mkPreview {
  ip_team : string; ip_inviter : string; ip_email : string; ip_role : TeamRole; ip_account_exists : bool
}.

Definition invite_preview (token : string) : T InvitePreview :=
  tb ← asks (fun tb => tb);
  '(_, i) ← of_option (invite_of tb token) TokenExpired;
  t ← of_option (teams tb !! i_team i) TokenExpired;
  u ← of_option (accounts tb !! i_by i) TokenExpired;
  mret (mkPreview (t_name t) (default (a_email u) (a_display u)) (i_email i) (parse_team_role (i_level i))
          (existsb (fun e => bool_decide (to_lowercase (a_email (snd e)) = to_lowercase (i_email i)))
             (map_to_list (accounts tb)))).

(** Members of team vaults who still need the vault key, for those who may
    hand it out. *)
Definition pending_keys (auth : Auth) (id : uuid) : T (list (uuid * uuid * string * VaultRole)) :=
  me ← my_membership id (actor auth);
  tb ← asks (fun tb => tb);
  let manages vid := match vault_members tb !! (vid, actor auth) with
                     | Some m => bool_decide (vm_role m = "manager") && bool_decide (is_Some (vm_sealed m))
                     | None => false end in
  mret (omap (fun '((vid, user), m) =>
          if team_vault tb id vid && bool_decide (vm_sealed m = None) && (has me "vaults.members" || manages vid)
          then (fun a => (vid, user, a_public_key a, parse_vault_role (vm_role m))) <$> accounts tb !! user
          else None) (map_to_list (vault_members tb))).

(** Whether each member has a second factor, for those who may see it. *)
Definition members (auth : Auth) (id : uuid) : T (list (MemberRow * Account * option bool * bool)) :=
  me ← my_membership id (actor auth);
  tb ← asks (fun tb => tb);
  let sees_mfa := has me "members.view_mfa" || Server.is_admin (auth_session auth) in
  mret (omap (fun m => if decide (m_team m = id /\ is_Some (find_role (db tb) (m_role_id m))) then
                         (fun a => (m, a, if sees_mfa || bool_decide (m_user m = actor auth) then Some (a_mfa a) else None,
                                    bool_decide (a_managed a = Some (m_team m)))) <$> accounts tb !! m_user m
                       else None) (Authz.team_members (db tb))).
End Teams.
