(* ===== verification/Roles.v ===== *)
(** * Team roles

    [crates/termoso-server/src/routes/roles.rs]: custom roles, the default
    role and the mapping of directory groups to roles, on the tables of
    [Teams] and the rules of [Authz]. *)
From Stdlib Require Import Ascii.
From stdpp Require Import pretty.
From S2P Require Import Prelude Text VaultAccess Backend Server Sessions Codes Authz Teams.

#[local] Open Scope string_scope.
#[local] Open Scope list_scope.
#[local] Open Scope Z_scope.

Definition MAX_CUSTOM_ROLES : Z := 32.

(** ** Names *)

(** [while s.contains("--") { s = s.replace("--", "-") }]: a round that
    changes anything makes the text shorter. *)
Fixpoint collapse (fuel : nat) (l : bytes) : bytes :=
  match fuel with
  | O => l
  | S fuel' =>
      match split_once_at [45; 45] l with
      | Some _ => collapse fuel' (replace [45; 45] [45] l)
      | None => l
      end
  end.

Definition slugify `{External} (name : string) : string :=
  let s := concat (map (fun c => match c with [b] => if is_alphanumeric b then [b] else [45] | _ => [45] end)
                     (chars (as_bytes (to_lowercase name)))) in
  let s := trim_matches [45] (of_bytes (collapse (length s) s)) in
  if decide (s = "") then "role" else s.

Definition validate_role_name (name : string) : result ApiError string :=
  let n := trim name in
  if bool_decide (n = "") || (40 <? length (chars (as_bytes n)))%nat
  then Err (bad_request "Role name must be 1–40 characters") else Ok n.

Definition validate_description (d : string) : result ApiError string :=
  if (200 <? length (chars (as_bytes d)))%nat then Err (bad_request "Description is too long") else Ok (trim d).

(** ** Rows *)

Definition with_roles (l : list RoleRow) (d : Db) : Db :=
  mkDb l (Authz.team_members d) (default_roles d) (role_mappings d).
Definition on_roles (f : list RoleRow -> list RoleRow) (tb : Tables) : Tables :=
  set_db (with_roles (f (team_roles (db tb))) (db tb)) tb.

Definition load_role (tb : Tables) (team rid : uuid) : result ApiError RoleRow :=
  match list_find (fun r => r_team r = team /\ r_id r = rid) (team_roles (db tb)) with
  | Some (_, r) => Ok r
  | None => Err (not_found "Role")
  end.

(** A permission of the list its holder lacks. *)
Definition lacking (me : Membership) (perms : list string) : result ApiError unit :=
  match list_find (fun p => has me p = false) perms with
  | Some (_, p) => Err (bad_request ("You cannot grant `" +:+ p +:+ "`: you do not hold it"))
  | None => Ok tt
  end.

Definition slug_taken (tb : Tables) (team : uuid) (slug : string) : bool :=
  existsb (fun r => bool_decide (r_team r = team) && bool_decide (r_slug r = slug)) (team_roles (db tb)).

(** [for n in 2..]: the first free name among [base], [base-2], [base-3] and
    so on; [None] stands for a loop that goes on. *)
Fixpoint free_slug (fuel : nat) (tb : Tables) (team : uuid) (base slug : string) (n : N) : option string :=
  match fuel with
  | O => None
  | S fuel' =>
      if slug_taken tb team slug then free_slug fuel' tb team base (base +:+ "-" +:+ pretty n) (n + 1)
      else Some slug
  end.

Section Roles.
Context {X : External}.

Record CreateRoleRequest := mkCreateRole {
  cr_name : string; cr_description : string; cr_permissions : list string; cr_copy_from : option uuid
}.

Definition create_role (auth : Auth) (id : uuid) (req : CreateRoleRequest) : T RoleRow :=
  me ← require_perm id (actor auth) "roles.manage";
  name ← lift (validate_role_name (cr_name req));
  description ← lift (validate_description (cr_description req));
  tb ← asks (fun tb => tb);
  let count := Z.of_nat (length (filter (fun r => r_team r = id /\ r_builtin r = false) (team_roles (db tb)))) in
  _ ← check (count <? MAX_CUSTOM_ROLES) (bad_request "A team can have at most 32 custom roles");
  perms ← (match cr_permissions req, cr_copy_from req with
           | [], Some src => src ← lift (load_role tb id src); mret (filter (fun p => p <> "*") (r_permissions src))
           | perms, _ => mret perms
           end);
  perms ← lift (of_authz (normalize_permissions trim perms));
  _ ← lift (lacking me perms);
  let base := slugify name in
  slug ← of_option (free_slug (S (length (team_roles (db tb)))) tb id base base 2) (Internal "loop");
  role_id ← new_uuid;
  _ ← check (bool_decide (role_id ∉ map r_id (team_roles (db tb)))) (Internal "unique");
  let row := mkRole role_id id slug name description perms false 100 in
  _ ← modify (on_roles (fun l => l ++ [row]));
  mret row.

Record UpdateRoleRequest := mkUpdateRole {
  pr_name : option string; pr_description : option string; pr_permissions : option (list string); pr_position : option Z
}.

Definition update_role (auth : Auth) (id role_id : uuid) (req : UpdateRoleRequest) : T RoleRow :=
  me ← require_perm id (actor auth) "roles.manage";
  tb ← asks (fun tb => tb);
  cur ← lift (load_role tb id role_id);
  _ ← check (negb (bool_decide (r_slug cur = "owner"))) (bad_request "The owner role cannot be changed");
  name ← lift (match pr_name req with Some n => validate_role_name n | None => Ok (r_name cur) end);
  description ← lift (match pr_description req with Some d => validate_description d | None => Ok (r_description cur) end);
  perms ← (match pr_permissions req with
           | Some p =>
               p ← lift (of_authz (normalize_permissions trim p));
               _ ← lift (lacking me p);
               _ ← check (negb (bool_decide (Authz.id (role me) = role_id) && negb (bool_decide (level me = Owner))
                                && negb (contains p "roles.manage")))
                     (bad_request "You cannot remove `roles.manage` from your own role");
               mret p
           | None => mret (r_permissions cur)
           end);
  let row := mkRole role_id id (r_slug cur) name description perms (r_builtin cur) (default (r_position cur) (pr_position req)) in
  _ ← modify (on_roles (map (fun r => if decide (r_team r = id /\ r_id r = role_id) then row else r)));
  mret row.

(** The members of a role move to another one: [role] follows its slug. *)
Definition move_members (team from target : uuid) (tb : Tables) : Tables :=
  let lvl := match find_role (db tb) target with
             | Some r => if decide (r_slug r = "admin") then "admin" else "member"
             | None => "member"
             end in
  on_members (map (fun m => if decide (m_team m = team /\ m_role_id m = from)
                            then mkMember team (m_user m) lvl target (m_role_source m) else m)) tb.

(** [DELETE FROM team_roles]: mappings to the role go, invitations forget it. *)
Definition drop_role (team rid : uuid) (tb : Tables) : Tables :=
  let d := db tb in
  set_invites ((fun i => mkInvite (i_team i) (i_email i) (i_level i) (if decide (i_role i = Some rid) then None else i_role i)
                           (i_hash i) (i_by i) (i_vaults i) (i_created i) (i_expires i) (i_accepted i)) <$> invites tb)
  (set_db (mkDb (filter (fun r => ~ (r_team r = team /\ r_id r = rid)) (team_roles d)) (Authz.team_members d)
             (default_roles d) (filter (fun x => x_role_id x <> rid) (role_mappings d))) tb).

Definition default_to (team from target : uuid) (tb : Tables) : Tables :=
  let d := db tb in
  set_db (mkDb (team_roles d) (Authz.team_members d)
            (alter (fun o => if decide (o = Some from) then Some target else o) team (default_roles d)) (role_mappings d)) tb.

Definition delete_role (auth : Auth) (id role_id : uuid) (reassign_to : option uuid) : T unit :=
  me ← require_perm id (actor auth) "roles.manage";
  tb ← asks (fun tb => tb);
  cur ← lift (load_role tb id role_id);
  _ ← check (negb (r_builtin cur)) (bad_request "Built-in roles cannot be deleted");
  _ ← check (negb (bool_decide (Authz.id (role me) = role_id))) (bad_request "You cannot delete your own role");
  target ← (match reassign_to with
            | Some t => mret t
            | None => lift (of_authz (default_role_id (db tb) id))
            end);
  _ ← check (negb (bool_decide (target = role_id))) (bad_request "Pick a different role to move members to");
  _ ← lift (load_role tb id target);
  transaction (
    _ ← modify (move_members id role_id target);
    _ ← modify (default_to id role_id target);
    modify (drop_role id role_id)).

Definition set_default (auth : Auth) (id role_id : uuid) : T unit :=
  _ ← require_perm id (actor auth) "roles.manage";
  tb ← asks (fun tb => tb);
  role ← lift (load_role tb id role_id);
  _ ← check (negb (bool_decide (r_slug role = "owner"))) (bad_request "The owner role cannot be the default");
  modify (fun tb => let d := db tb in
    set_db (mkDb (team_roles d) (Authz.team_members d) (alter (fun _ => Some role_id) id (default_roles d)) (role_mappings d)) tb).

(** ** Groups *)

Record RoleMapping := mkRoleMapping { rm_group : string; rm_role : uuid; rm_priority : Z }.

(** The loop over the requested mappings, with the groups seen so far. *)
Fixpoint check_mappings (tb : Tables) (id : uuid) (seen : list string) (l : list RoleMapping) : result ApiError unit :=
  match l with
  | [] => Ok tt
  | m :: l' =>
      let g := trim (rm_group m) in
      if bool_decide (g = "") || (200 <? length (chars (as_bytes g)))%nat then Err (bad_request "Invalid group name")
      else if bool_decide (to_lowercase g ∈ seen) then Err (bad_request ("Group `" +:+ g +:+ "` is listed twice"))
      else
        role ← load_role tb id (rm_role m);
        if decide (r_slug role = "owner") then Err (bad_request "A group cannot map to the owner role")
        else check_mappings tb id (to_lowercase g :: seen) l'
  end.

Definition set_mappings (auth : Auth) (id : uuid) (req : list RoleMapping) : T unit :=
  _ ← require_perm id (actor auth) "sso.manage";
  _ ← check (negb (200 <? length req)%nat) (bad_request "At most 200 mappings");
  tb ← asks (fun tb => tb);
  _ ← lift (check_mappings tb id [] req);
  modify (fun tb => let d := db tb in
    set_db (mkDb (team_roles d) (Authz.team_members d) (default_roles d)
              (filter (fun x => x_team x <> id) (role_mappings d)
               ++ map (fun m => mkMapping id (trim (rm_group m)) (rm_role m) (rm_priority m)) req)) tb).
End Roles.
