(* ===== verification/TeamSafety.v ===== *)
(** * Teams keep their owner, and rights come from those who have them

    The theorems on the requests of [Teams] and [Roles], by the steps of
    [TeamRights]; and the request that does hand out rights nobody granted. *)
From Stdlib Require Import Ascii.
From stdpp Require Import pretty.
From S2P Require Import Prelude Text VaultAccess Backend Server Sessions Codes Authz Teams Roles TeamRights.

#[local] Open Scope string_scope.
#[local] Open Scope list_scope.
#[local] Open Scope Z_scope.

Section Safety.
Context {X : External}.

(** ** Histories *)

(** A request, or something that happens elsewhere on the server. *)
Inductive Happening : Type := Asks (auth : Auth) (req : Request) | Elsewhere (f : Tables -> Tables).

Definition leaves_core (h : Happening) : Prop :=
  match h with Asks _ _ => True | Elsewhere f => forall tb, core (f tb) = core tb end.
Definition happen (tb : Tables) (h : Happening) : Tables :=
  match h with Asks auth req => snd (serve auth req tb) | Elsewhere f => f tb end.
Definition play (l : list Happening) (tb : Tables) : Tables := foldl happen tb l.

Lemma serve_sound auth req tb : sound tb -> sound (snd (serve auth req tb)).
Proof. intros Hs. exact (allowed_coherent auth req tb _ Hs (serve_step auth req tb Hs)). Qed.

Lemma play_sound l tb : sound tb -> Forall leaves_core l -> sound (play l tb).
Proof.
  unfold play. revert tb. induction l as [|h l IH]; intros tb Hs; simpl; [done|]. intros [Hh Hl]%Forall_cons.
  apply IH; [|done]. destruct h as [auth req|f]; simpl in *; [by apply serve_sound|]. unfold sound. by rewrite Hh.
Qed.

Lemma owner_level tb team user : sound tb ->
  (exists m, membership (db tb) team user = Ok m /\ level m = Owner) <-> owners tb !! team = Some user.
Proof.
  intros Hs. split.
  - intros (m & Hm & Hl). destruct (role_of_member tb team user m Hs Hm) as (row & Hr & [<- <-] & E).
    rewrite Hl in E. symmetry in E. apply parse_owner in E. by apply (owner_rows Hs row Hr E).
  - intros (row & Hr & Hi & E)%(owners_are_members Hs). destruct (members_have_roles Hs row Hr) as (r & Hrr & Hid & _).
    eexists. rewrite membership_spec by done. split; [by exists row, r|]. simpl. by rewrite E.
Qed.


(** ** Rights *)

Definition grants (rs : list RoleRow) (ms : list MemberRow) (team user : uuid) (perm : string) : Prop :=
  exists row r, row ∈ ms /\ is_row team user row /\ r ∈ rs /\ r_id r = m_role_id row /\
    (m_role row = "owner" \/ "*" ∈ r_permissions r \/ perm ∈ r_permissions r).

Lemma holds_spec tb team user perm : sound tb -> holds tb team user perm <-> grants (roles tb) (rows tb) team user perm.
Proof.
  intros Hs. unfold holds, grants. split.
  - intros (m & (row & r & H1 & H2 & H3 & H4 & ->)%membership_spec & Hp); [|done]. exists row, r. split_and!; try done.
    unfold has in Hp. simpl in Hp. rewrite !orb_true_iff, bool_decide_eq_true, !contains_spec, parse_owner in Hp. tauto.
  - intros (row & r & H1 & H2 & H3 & H4 & Hp). eexists. rewrite membership_spec by done. split; [by exists row, r|].
    unfold has. simpl. rewrite !orb_true_iff, bool_decide_eq_true, !contains_spec, parse_owner. tauto.
Qed.

(** The user's row in the team holds the role. *)
Definition sits_in (tb : Tables) (team user role : uuid) : Prop :=
  exists row, row ∈ rows tb /\ is_row team user row /\ m_role_id row = role.

(** The role an invitation brings: the one it names; or, when that one is gone
    or is the owner's, the built-in one of its level; or, for a level that has
    none, the team's default. *)
Definition offered (tb : Tables) (i : InviteRow) (r : RoleRow) : Prop :=
  i_role i = Some (r_id r) /\ r_slug r <> "owner"
  \/ (forall r', r' ∈ roles tb -> r_team r' = i_team i -> i_role i = Some (r_id r') -> r_slug r' = "owner")
     /\ (r_builtin r = true /\ r_slug r <> "owner" /\ r_slug r = (if decide (i_level i = "owner") then "member" else i_level i)
         \/ (i_level i ∉ BASIC) /\ defaults tb !! i_team i = Some (Some (r_id r))).

(** The token's invitation stands, is to the user's address and to a team the
    user is not in, and its role has the permission. *)
Definition invited (tb : Tables) (token : string) (team user : uuid) (perm : string) : Prop :=
  exists id i a r, invite_of tb token = Some (id, i) /\ i_team i = team
    /\ accounts tb !! user = Some a /\ same_text (a_email a) (i_email i) = true
    /\ (forall row, row ∈ rows tb -> ~ is_row team user row)
    /\ r ∈ roles tb /\ r_team r = team /\ offered tb i r
    /\ (perm ∈ r_permissions r \/ (i_level i ∉ BASIC) /\ "*" ∈ r_permissions r).

(** The custom role is replaced by one that has the permission. *)
Definition moved (tb : Tables) (team role : uuid) (to : option uuid) (perm : string) : Prop :=
  exists cur target, cur ∈ roles tb /\ r_team cur = team /\ r_id cur = role /\ r_builtin cur = false
    /\ target ∈ roles tb /\ r_team target = team /\ r_id target <> role /\ replaces tb team to (r_id target)
    /\ ("*" ∈ r_permissions target \/ perm ∈ r_permissions target).

(** How a request may give a user a permission in a team: by founding the
    team, by a role or level the actor gives that member, by an edit of the
    member's role, by an invitation to that user, and by the deletion of the
    member's role. No other request gives anyone anything. *)
Definition given (auth : Auth) (req : Request) (tb : Tables) (team user : uuid) (perm : string) : Prop :=
  match req with
  | Create _ => user = actor auth /\ teams tb !! team = None
  | UpdateMember t u _ _ => t = team /\ u = user /\ holds tb team (actor auth) "members.role" /\ holds tb team (actor auth) perm
  | UpdateRole t role _ => t = team /\ sits_in tb team user role
      /\ holds tb team (actor auth) "roles.manage" /\ holds tb team (actor auth) perm
  | AcceptInvite token => user = actor auth /\ invited tb token team user perm
  | DeleteRole t role to => t = team /\ sits_in tb team user role
      /\ holds tb team (actor auth) "roles.manage" /\ moved tb team role to perm
  | _ => False
  end.

Lemma no_wildcard tb r : sound tb -> r ∈ roles tb -> r_slug r <> "owner" -> "*" ∉ r_permissions r.
Proof.
  intros Hs Hr Hn Hw. pose proof (plain_roles Hs r Hr Hn) as H. rewrite Forall_forall in H. by destruct (H _ Hw).
Qed.

Lemma owner_holds tb team user me perm : membership (db tb) team user = Ok me -> level me = Owner -> holds tb team user perm.
Proof. intros H E. exists me. split; [done|]. unfold has. by rewrite bool_decide_eq_true_2. Qed.

(** Rows with the roles of before: each is an old row, or its rights come
    from elsewhere. *)
Lemma rights_of_rows tb ms team user perm (P : Prop) :
  (forall row r, row ∈ ms -> is_row team user row -> r ∈ roles tb -> r_id r = m_role_id row ->
     m_role row = "owner" \/ "*" ∈ r_permissions r \/ perm ∈ r_permissions r ->
     row ∈ rows tb \/ grants (roles tb) (rows tb) team user perm \/ P) ->
  grants (roles tb) ms team user perm -> grants (roles tb) (rows tb) team user perm \/ P.
Proof.
  intros H (row & r & Hrow & Hi & Hr & Hid & Hp). destruct (H row r Hrow Hi Hr Hid Hp) as [?|?]; [|done].
  left. by exists row, r.
Qed.

Lemma role_unique tb r r' : sound tb -> r ∈ roles tb -> r' ∈ roles tb -> r_id r = r_id r' -> r = r'.
Proof. intros Hs. apply (NoDup_map_inj _ _ _ _ (ids_unique Hs)). Qed.

Ltac same_role := eapply role_unique; first [eassumption | done | congruence].

Lemma invited_role_spec tb i rid : sound tb ->
  invited_role (db tb) (i_team i) (if decide (i_level i = "owner") then "member" else i_level i) (i_role i) = Some rid ->
  exists r, r ∈ roles tb /\ r_id r = rid /\ r_team r = i_team i /\ offered tb i r.
Proof.
  intros Hs. set (lvl := if decide _ then _ else _). unfold invited_role.
  assert (Hlv : lvl <> "owner") by (unfold lvl; by destruct (decide _)).
  destruct (list_find _ _) as [[k r]|] eqn:F.
  { apply list_find_elem in F as [Hr (Ht & Hi & Ho)]. intros [= <-]. exists r. split_and!; try done. by left. }
  assert (Hnone : forall r', r' ∈ roles tb -> r_team r' = i_team i -> i_role i = Some (r_id r') -> r_slug r' = "owner").
  { intros r' Hr' Ht' Hi'. apply dec_stable. intros Hn. by apply (list_find_none _ _ F r' Hr'). }
  destruct (list_find (fun r => r_team r = i_team i /\ r_slug r = lvl /\ r_builtin r = true) _) as [[k r]|] eqn:F2.
  { apply list_find_elem in F2 as [Hr (Ht & Hsl & Hb)]. intros [= <-]. exists r. split_and!; try done.
    right. split; [done|]. left. by rewrite Hsl. }
  intros H. assert (Hd : defaults tb !! i_team i = Some (Some rid)).
  { unfold defaults. by destruct (default_roles (db tb) !! i_team i) as [[|]|]; simplify_eq/=. }
  destruct (defaults_in_team Hs (i_team i) rid Hd) as (r & Hr & Hi & Ht). exists r. split_and!; try done.
  right. split; [done|]. right. split; [|congruence]. intros Hl. exfalso.
  destruct (basic_roles Hs (i_team i) lvl) as (r2 & Hr2 & H2);
    [rewrite <- Ht; by apply (roles_of_teams Hs)|unfold lvl; destruct (decide _); [by apply (bool_decide_unpack _)|done]|].
  by apply (list_find_none _ _ F2 r2 Hr2).
Qed.

(** Each step gives no more than its request may. *)
Lemma assigned_rights auth tb t u rid lvl me r team user perm : sound tb ->
  membership (db tb) t (actor auth) = Ok me -> has me "members.role" = true -> r ∈ roles tb -> r_slug r <> "owner" ->
  (forall p, p ∈ r_permissions r -> has me p = true) ->
  grants (roles tb) (rows (update_row t u (parse_team_role (r_slug r)) (r_id r) tb)) team user perm ->
  grants (roles tb) (rows tb) team user perm \/ given auth (UpdateMember t u rid lvl) tb team user perm.
Proof.
  intros Hs Hme Hp Hr Hsl Hg. apply rights_of_rows. intros row r2 (m & -> & Hm)%list_elem_of_fmap.
  destruct (decide (is_row t u m)) as [[<- <-]|_]; [|by left]. intros [<- <-] Hr2 Hid Hpp. right. right. simpl in *.
  assert (r2 = r) as -> by same_role. split_and!; [done|done|by exists me|]. exists me. split; [done|]. destruct Hpp as [E|[E|E]].
  - destruct (parse_team_role (r_slug r)) eqn:Ep; [done|done|]. by apply parse_owner in Ep.
  - by apply (no_wildcard tb r) in E.
  - by apply Hg.
Qed.

Lemma transferred_rights auth tb t u rid lvl me r admin team user perm : sound tb ->
  membership (db tb) t (actor auth) = Ok me -> level me = Owner ->
  grants (roles tb) (rows (update_row t u Owner (r_id r) (update_row t (actor auth) Admin (r_id admin) tb))) team user perm ->
  grants (roles tb) (rows tb) team user perm \/ given auth (UpdateMember t u rid lvl) tb team user perm.
Proof.
  intros Hs Hme Hlv. apply rights_of_rows. intros row r2 (m' & -> & (m & -> & Hm)%list_elem_of_fmap)%list_elem_of_fmap.
  destruct (decide (is_row t u _)) as [H|_].
  - intros [<- <-] _ _ _. right. right. split_and!; [done|done|by eapply owner_holds|by eapply owner_holds].
  - destruct (decide (is_row t (actor auth) m)) as [_|_]; [|by left]. intros [<- <-] _ _ _. right. left.
    apply holds_spec; [done|]. by eapply owner_holds.
Qed.

Lemma joined_rights auth tb token id i a rid team user perm : sound tb ->
  invite_of tb token = Some (id, i) -> accounts tb !! actor auth = Some a -> same_text (a_email a) (i_email i) = true ->
  Forall (fun m => ~ is_row (i_team i) (actor auth) m) (rows tb) ->
  let lvl := if decide (i_level i = "owner") then "member" else i_level i in
  invited_role (db tb) (i_team i) lvl (i_role i) = Some rid ->
  grants (roles tb) (rows (insert_row (mkMember (i_team i) (actor auth) lvl rid "manual") tb)) team user perm ->
  grants (roles tb) (rows tb) team user perm \/ given auth (AcceptInvite token) tb team user perm.
Proof.
  intros Hs Hi Ha He Hn lvl Hrid. apply rights_of_rows.
  intros row r [Hrow| ->%list_elem_of_singleton]%elem_of_app; [by left|].
  intros [<- <-] Hr Hid Hpp. right. right. simpl in *. split; [done|].
  apply invited_role_spec in Hrid as (r' & Hr' & Hi' & Ht' & Hof); [|done].
  assert (r = r') as -> by same_role. exists id, i, a, r'. rewrite Forall_forall in Hn. split_and!; try done.
  assert (Hlv : lvl <> "owner") by (unfold lvl; by destruct (decide _)).
  destruct Hpp as [E|[E|E]]; [done| |by left].
  destruct Hof as [[_ Ho]|[_ [(_ & Ho & _)|[Hl _]]]]; [by apply (no_wildcard tb r') in E|by apply (no_wildcard tb r') in E|by right].
Qed.

Lemma edited_rights auth tb change me cur r team user perm : sound tb ->
  membership (db tb) (r_team r) (actor auth) = Ok me -> has me "roles.manage" = true ->
  cur ∈ roles tb -> r_id cur = r_id r -> r_team cur = r_team r -> Forall grantable (r_permissions r) ->
  (forall p, p ∈ r_permissions r -> p ∈ r_permissions cur \/ has me p = true) ->
  grants (map (fun x => if decide (r_team x = r_team r /\ r_id x = r_id r) then r else x) (roles tb)) (rows tb) team user perm ->
  grants (roles tb) (rows tb) team user perm \/ given auth (UpdateRole (r_team r) (r_id r) change) tb team user perm.
Proof.
  intros Hs Hme Hp Hc Hid Ht Hg Hh (row & r2 & Hrow & [<- <-] & (x & -> & Hx)%list_elem_of_fmap & Hid2 & Hpp).
  destruct (decide (r_team x = r_team r /\ r_id x = r_id r)) as [[Ex1 Ex2]|]; [|left; by exists row, x].
  assert (x = cur) as -> by same_role.
  assert (Hold : "*" ∈ r_permissions cur \/ perm ∈ r_permissions cur \/ m_role row = "owner" ->
                 grants (roles tb) (rows tb) (m_team row) (m_user row) perm)
    by (intros H; exists row, cur; split_and!; [done|done|done|congruence|tauto]).
  destruct Hpp as [E|[E|E]]; [auto|rewrite Forall_forall in Hg; by destruct (Hg _ E)|].
  destruct (Hh _ E) as [E2|E2]; [auto|]. right. simpl.
  destruct (members_have_roles Hs row Hrow) as (r0 & Hr0 & Hi0 & Et). assert (r0 = cur) as -> by same_role.
  assert (El : m_team row = r_team r) by congruence. rewrite El. split_and!; [done|by exists row|by exists me|by exists me].
Qed.

Lemma moved_rights auth tb to me cur target team user perm : sound tb ->
  membership (db tb) (r_team cur) (actor auth) = Ok me -> has me "roles.manage" = true ->
  replaces tb (r_team cur) to (r_id target) -> cur ∈ roles tb -> r_builtin cur = false -> target ∈ roles tb ->
  r_team target = r_team cur -> r_id target <> r_id cur ->
  let tb' := drop_role (r_team cur) (r_id cur) (default_to (r_team cur) (r_id cur) (r_id target)
               (move_members (r_team cur) (r_id cur) (r_id target) tb)) in
  grants (roles tb') (rows tb') team user perm ->
  grants (roles tb) (rows tb) team user perm \/ given auth (DeleteRole (r_team cur) (r_id cur) to) tb team user perm.
Proof.
  intros Hs Hme Hp Hto Hc Hb Ht Htt Hne tb' (row & r2 & (m & -> & Hm)%list_elem_of_fmap & Hi & [_ Hr2]%list_elem_of_filter & Hid2 & Hpp).
  destruct (decide (m_team m = r_team cur /\ m_role_id m = r_id cur)) as [[E1 E2]|]; [|left; by exists m, r2].
  simpl in *. destruct Hi as [<- <-]. simpl in *. assert (r2 = target) as -> by same_role.
  right. split_and!; [done|by exists m|by exists me|]. exists cur, target. split_and!; try done.
  destruct Hpp as [E|E]; [|done]. exfalso. destruct (find_role _ _); [|done]. by destruct (decide _).
Qed.

Lemma founded_rights auth tb name t ids team user perm : sound tb -> owners tb !! t = None ->
  NoDup (map r_id (roles tb ++ seed_rows t ids)) ->
  grants (roles tb ++ seed_rows t ids)
    (rows tb ++ [mkMember t (actor auth) "owner" (default 0%N (seeded_id (seed_rows t ids) "owner")) "manual"]) team user perm ->
  grants (roles tb) (rows tb) team user perm \/ given auth (Create name) tb team user perm.
Proof.
  intros Hs Ht Hn (row & r & [Hrow| ->%list_elem_of_singleton]%elem_of_app & [<- <-] & Hr & Hid & Hp).
  - left. exists row, r. split_and!; try done. destruct (members_have_roles Hs row Hrow) as (r2 & Hr2 & Hi2 & _).
    assert (r = r2) as -> by (apply (NoDup_map_inj _ _ _ _ Hn); [done|by apply elem_of_app; left|congruence]). done.
  - right. split; [done|]. simpl. unfold owners in Ht. rewrite lookup_fmap in Ht. by destruct (teams tb !! t).
Qed.

Lemma allowed_rights auth req tb c team user perm : sound tb -> allowed auth req tb c ->
  (let '(rs, ms, _, _) := c in grants rs ms team user perm) ->
  grants (roles tb) (rows tb) team user perm \/ given auth req tb team user perm.
Proof.
  intros Hs H.
  destruct H as [|name t ids -> Ht Hn Hl|t role Hr Ha|t u rid lvl me target r -> Hme Hp Htg Hlv Hr Ht Hsl Hg
    |t u rid lvl me target r ra -> Hme Hlv Hn Htg Hr Ht Hsl Hra Hta Hsa|t u Hm Ha|u Ho
    |token id i a rid -> Hi Ha He Hn Hrid|me r Hme Hp Hid Hsl Hb Hg Hh|change me cur r -> Hme Hp Hc Hid Ht Hsl Hb Ho Hg Hh
    |to me cur target -> Hto Hme Hp Hc Hb Ht Htt Hne Hown|me r Hme Hp Hr Hsl].
  - by left.
  - by apply founded_rights.
  - intros (row & r & [_ Hrow]%list_elem_of_filter & Hi & [_ Hr2]%list_elem_of_filter & Hid & Hp). left. by exists row, r.
  - by apply (assigned_rights auth tb t u rid lvl me r).
  - by apply (transferred_rights auth tb t u rid lvl me r ra).
  - refine (rights_of_rows tb _ team user perm _ _). intros row r [_ Hrow]%list_elem_of_filter. by left.
  - refine (rights_of_rows tb _ team user perm _ _). intros row r [_ Hrow]%list_elem_of_filter. by left.
  - by apply (joined_rights auth tb token id i a rid).
  - intros (row & r2 & Hrow & [<- <-] & [Hr2| ->%list_elem_of_singleton]%elem_of_app & Hid2 & Hpp); [left; by exists row, r2|].
    exfalso. apply Hid. destruct (members_have_roles Hs row Hrow) as (r0 & Hr0 & Hi0 & _).
    apply list_elem_of_fmap. exists r0. split; [congruence|done].
  - by apply (edited_rights auth tb change me cur r).
  - by apply (moved_rights auth tb to me cur target).
  - refine (rights_of_rows tb _ team user perm _ _). intros row r2 Hrow. by left.
Qed.


(** ** Leaving *)

(** What is left of a user in a team. *)
Definition gone (tb : Tables) (team user : uuid) : Prop :=
  (forall m, m ∈ rows tb -> ~ is_row team user m)
  /\ (forall v, is_Some (vault_members tb !! (v, user)) -> (vaults tb !! v) ≫= v_team <> Some team)
  /\ managed_by team user tb = false.

(** Everybody else is as before. *)
Definition others_kept (tb tb' : Tables) (team user : uuid) : Prop :=
  (forall m, ~ is_row team user m -> m ∈ rows tb' <-> m ∈ rows tb)
  /\ (forall v u, u <> user -> vault_members tb' !! (v, u) = vault_members tb !! (v, u))
  /\ (forall v, (vaults tb !! v) ≫= v_team <> Some team -> vault_members tb' !! (v, user) = vault_members tb !! (v, user))
  /\ (forall u, u <> user -> accounts tb' !! u = accounts tb !! u).

Lemma remove_tables team user tb : exists events, snd (remove team user tb) =
  set_published events (set_vault_members (filter (fun '(k, _) => ~ in_team_vault tb team user k) (vault_members tb))
    (unmanage team user (delete_row team user tb))).
Proof. by eexists. Qed.

Lemma remove_leaves_nothing team user tb : let tb' := snd (remove team user tb) in gone tb' team user /\ others_kept tb tb' team user.
Proof.
  cbv zeta. destruct (remove_tables team user tb) as [events ->]. unfold gone, others_kept. cbn. split_and!.
  - intros m Hm Hi. by apply list_elem_of_filter in Hm as [? _].
  - intros v [x Hx]. apply map_lookup_filter_Some in Hx as [_ Hx]. intros E. by apply Hx.
  - unfold managed_by. cbn. rewrite lookup_alter_eq. destruct (accounts tb !! user) as [a|]; [|done]. simpl.
    apply bool_decide_eq_false. by destruct (decide _).
  - intros m Hn. rewrite list_elem_of_filter. tauto.
  - intros v u Hu. rewrite map_lookup_filter. destruct (vault_members tb !! (v, u)); [|done]. simpl.
    rewrite option_guard_True; [done|]. by intros [_ ?].
  - intros v Hv. rewrite map_lookup_filter. destruct (vault_members tb !! (v, user)); [|done]. simpl.
    rewrite option_guard_True; [done|]. by intros [? _].
  - intros u Hu. by rewrite lookup_alter_ne.
Qed.

Definition leaves (auth : Auth) (team user : uuid) (req : Request) : Prop :=
  req = RemoveMember team user \/ user = actor auth /\ req = Leave team.

(** whoever leaves a team or is removed from it keeps nothing of it: no
    membership, no access to any of its vaults, and no bond of the account to
    the team. The other members, their accounts and the user's access to
    other vaults are untouched. *)
Theorem removed_member_keeps_nothing auth team user req tb : leaves auth team user req ->
  fst (serve auth req tb) = Ok tt ->
  let tb' := snd (serve auth req tb) in gone tb' team user /\ others_kept tb tb' team user.
Proof.
  assert (D : snd ((remove team user ≫= fun _ => mret tt) tb) = snd (remove team user tb))
    by (rewrite t_bind; by destruct (remove team user tb) as [[b|e] tb1]).
  intros [->|[-> ->]]; simpl.
  - unfold remove_member, require_perm. run_t. destruct (of_authz _); [|done]. run_t. destruct (member_not_found _); [|done].
    run_t. destruct (negb _); [|done]. intros _. rewrite D. apply remove_leaves_nothing.
  - unfold leave. run_t. destruct (my_role _ _ _); [|done]. run_t. destruct (negb _); [|done].
    intros _. rewrite D. apply remove_leaves_nothing.
Qed.

(** ** Names of roles *)

(** The names the search has tried after some rounds. *)
Fixpoint tried (fuel : nat) (base slug : string) (n : N) : list string :=
  match fuel with
  | O => []
  | S fuel' => slug :: tried fuel' base (base +:+ "-" +:+ pretty n) (n + 1)
  end.

Lemma free_slug_none fuel tb team base slug n : free_slug fuel tb team base slug n = None ->
  Forall (fun s => slug_taken tb team s = true) (tried fuel base slug n).
Proof.
  revert slug n. induction fuel as [|fuel IH]; intros slug n; simpl; [constructor|].
  destruct (slug_taken tb team slug) eqn:E; [|done]. intros H. constructor; [done|by apply IH].
Qed.

Lemma length_tried fuel base slug n : length (tried fuel base slug n) = fuel.
Proof. revert slug n. induction fuel; intros; simpl; auto. Qed.

Lemma tried_numbered fuel base n s : s ∈ tried fuel base (base +:+ "-" +:+ pretty n) (n + 1) ->
  exists k, (n <= k)%N /\ s = base +:+ "-" +:+ pretty k.
Proof.
  revert n. induction fuel as [|fuel IH]; intros n; simpl; [by intros ?%elem_of_nil|].
  intros [->|(k & Hk & ->)%IH]%elem_of_cons; [by exists n|exists k; split; [lia|done]].
Qed.

Lemma numbered_inj base (k k' : N) : base +:+ "-" +:+ pretty k = base +:+ "-" +:+ pretty k' -> k = k'.
Proof. intros H. apply (inj (String.append base)) in H. injection H as H. by apply (inj pretty). Qed.

Lemma numbered_tried_nodup fuel base n : NoDup (tried fuel base (base +:+ "-" +:+ pretty n) (n + 1)).
Proof.
  revert n. induction fuel as [|fuel IH]; intros n; simpl; constructor; [|apply IH].
  intros (k & Hk & E)%tried_numbered. apply numbered_inj in E. lia.
Qed.

Lemma tried_nodup fuel base : NoDup (tried fuel base base 2).
Proof.
  destruct fuel as [|fuel]; simpl; constructor; [|apply numbered_tried_nodup].
  intros (k & _ & E)%tried_numbered. apply (f_equal (fun s => length (as_bytes s))) in E. rewrite !as_bytes_app, !length_app in E. simpl in E. lia.
Qed.

(** Naming a role ends. Among as many names as the team has roles, and
    one more, the search [base], [base-2], [base-3] and so on finds one that is
    free in the team, so the loop without a bound in the code stops there. *)
Theorem free_slug_is_found tb team base : exists slug,
  free_slug (S (length (roles tb))) tb team base base 2 = Some slug /\ slug_taken tb team slug = false.
Proof.
  destruct (free_slug _ tb team base base 2) as [slug|] eqn:E; [exists slug; split; [done|by eapply free_slug_spec]|].
  exfalso. apply free_slug_none in E.
  assert (Hs : forall s, s ∈ tried (S (length (roles tb))) base base 2 -> s ∈ map r_slug (roles tb)).
  { intros s Hs. rewrite Forall_forall in E. apply E in Hs. unfold slug_taken in Hs. apply existsb_exists in Hs as (r & Hr & H).
    apply andb_true_iff in H as [_ H%bool_decide_eq_true]. apply list_elem_of_fmap. exists r. split; [done|by apply list_elem_of_In]. }
  pose proof (submseteq_length _ _ (NoDup_submseteq _ _ (tried_nodup _ _) Hs)) as H.
  rewrite length_tried, length_map in H. unfold roles in H. lia.
Qed.

(** ** Where it goes wrong *)

(** C24: deleting a role hands out any other one. Whoever manages roles may
    move the members of a custom role to any role of the team, also one that
    grants what the actor does not hold: when the new role is the owner's,
    its wildcard gives those members every permission, although no other route
    lets anyone but the owner hand it out. *)
Theorem deleting_a_role_hands_out_any_role auth tb team me row r target : sound tb ->
  membership (db tb) team (actor auth) = Ok me -> has me "roles.manage" = true -> Authz.id (role me) <> r_id r ->
  r ∈ roles tb -> r_team r = team -> r_builtin r = false -> target ∈ roles tb -> r_team target = team -> r_id target <> r_id r ->
  row ∈ rows tb -> m_team row = team -> m_role_id row = r_id r ->
  let '(answer, tb') := serve auth (DeleteRole team (r_id r) (Some (r_id target))) tb in
  answer = Ok tt /\ forall perm, "*" ∈ r_permissions target \/ perm ∈ r_permissions target -> holds tb' team (m_user row) perm.
Proof.
  intros Hs Hme Hp Hown Hr Ht Hb Htg Htt Hne Hrow Hrt Hid. subst team.
  pose proof (serve_sound auth (DeleteRole (r_team r) (r_id r) (Some (r_id target))) tb Hs) as Hs'.
  assert (L : forall x, x ∈ roles tb -> r_team x = r_team r -> load_role tb (r_team r) (r_id x) = Ok x).
  { intros x Hx Hxt. unfold load_role. destruct (list_find _ _) as [[i y]|] eqn:F.
    - apply list_find_elem in F as [Hy [_ Hi]]. f_equal. by apply (role_unique tb y x Hs).
    - destruct (list_find_none _ _ F x Hx (conj Hxt eq_refl)). }
  revert Hs'. simpl. unfold delete_role, require_perm, require. run_t. rewrite Hme. simpl. rewrite Hp. simpl. run_t.
  rewrite (L r) by done. run_t. rewrite Hb. simpl. run_t. rewrite bool_decide_eq_false_2 by done. simpl. run_t.
  rewrite bool_decide_eq_false_2 by done. simpl. run_t. rewrite (L target) by done. unfold transaction. run_t. simpl.
  intros Hs'. split; [done|]. intros perm Hpp. rewrite holds_spec by done.
  eexists _, target. split; [apply list_elem_of_fmap; exists row; split; [reflexivity|done]|].
  rewrite decide_True by done. simpl. split_and!; try done; [|by right].
  apply list_elem_of_filter. split; [|done]. by intros [_ ?].
Qed.
End Safety.

(** ** A team *)

#[local] Existing Instance demo_external.

Definition nothing : Tables :=
  mkTables 0 0 true false (mkDb [] [] ∅ []) ∅
    (list_to_map [(1%N, mkAccount "ann@corp.io" None "k1" true None false);
                  (2%N, mkAccount "bob@corp.io" None "k2" true None false);
                  (3%N, mkAccount "eve@corp.io" None "k3" false None false)]) ∅ ∅ ∅ ∅ [].

Lemma nothing_sound : sound nothing.
Proof.
  split; try apply NoDup_nil_2; cbn; try (by intros ? ?%elem_of_nil); try (by intros ? ? ?%elem_of_nil).
  - intros team slug [? H]. by rewrite fmap_empty, lookup_empty in H.
  - intros team user H. by rewrite fmap_empty, lookup_empty in H.
  - intros team rid H. by rewrite lookup_empty in H.
Qed.

Definition user (id : N) : Auth := mkAuth (Server.mkInfo 50 id 60 100 false false true 0 None None None) None.

(** Ann founds a team, Bob becomes its admin and invites Eve as a helper. *)
Definition story : list Happening :=
  [Asks (user 1) (Create "Ops");
   Asks (user 1) (CreateInvite 1000 (mkCreateInvite "bob@corp.io" Admin None []));
   Asks (user 2) (AcceptInvite "t6");
   Asks (user 2) (CreateRole 1000 (mkCreateRole "Helper" "" ["team.view"] None));
   Asks (user 2) (CreateInvite 1000 (mkCreateInvite "eve@corp.io" Member (Some 1008%N) []));
   Asks (user 3) (AcceptInvite "t9")].

Lemma story_leaves : Forall leaves_core story.
Proof. by repeat constructor. Qed.



(** Bob deletes the helper's role in favour of the owner's: Eve may do
    anything. *)
Lemma deleting_a_role_hands_out_any_role_witness : let tb := play story nothing in
  ~ holds tb 1000 3 "members.role" /\
  let '(answer, tb') := serve (user 2) (DeleteRole 1000 1008 (Some 1001%N)) tb in
  answer = Ok tt /\ holds tb' 1000 3 "members.role".
Proof.
  intros tb. split; [intros (m & Hm & Hh); vm_compute in Hm; injection Hm as <-; vm_compute in Hh; discriminate|].
  assert (Hs : sound tb) by exact (play_sound story nothing nothing_sound story_leaves).
  set (me := mkMembership 1000 2 Admin (mkRef 1002 "admin" "Admin") "manual" (builtin_perms "admin") false).
  set (row := mkMember 1000 3 "member" 1008 "manual").
  set (r := mkRole 1008 1000 "helper" "Helper" "" ["team.view"] false 100).
  set (target := mkRole 1001 1000 "owner" "Owner" "Everything, including deleting the team and transferring ownership." ["*"] true 0).
  assert (Hme : membership (db tb) 1000 2 = Ok me) by (vm_compute; reflexivity).
  assert (Hp : has me "roles.manage" = true) by (vm_compute; reflexivity).
  assert (Hr : r ∈ roles tb) by (apply (list_elem_of_lookup_2 _ 5); vm_compute; reflexivity).
  assert (Ht : target ∈ roles tb) by (apply (list_elem_of_lookup_2 _ 0); vm_compute; reflexivity).
  assert (Hrow : row ∈ rows tb) by (apply (list_elem_of_lookup_2 _ 2); vm_compute; reflexivity).
  assert (N1 : 1002%N <> 1008%N) by discriminate. assert (N2 : 1001%N <> 1008%N) by discriminate.
  pose proof (deleting_a_role_hands_out_any_role (user 2) tb 1000 me row r target Hs Hme Hp N1 Hr eq_refl eq_refl Ht
                eq_refl N2 Hrow eq_refl eq_refl) as H.
  cbn [r_id r target] in H. destruct (serve (user 2) _ tb) as [answer tb']. destruct H as [H1 H2]. split; [exact H1|].
  apply (H2 "members.role"). left. by left.
Defined.

(** Ann removes Bob, who also had a vault of the team. *)
Lemma removed_member_keeps_nothing_witness :
  let tb := set_vault_members {[(70%N, 2%N) := mkVaultMember "editor" (Some "sealed") 1]}
              (set_vaults {[70%N := mkVault (Some 1000%N) None false 1]} (play story nothing)) in
  let tb' := snd (serve (user 1) (RemoveMember 1000 2) tb) in
  fst (serve (user 1) (RemoveMember 1000 2) tb) = Ok tt /\ gone tb' 1000 2 /\ others_kept tb tb' 1000 2.
Proof.
  intros tb tb'. assert (E : fst (serve (user 1) (RemoveMember 1000 2) tb) = Ok tt) by (vm_compute; reflexivity).
  split; [exact E|].
  exact (removed_member_keeps_nothing (user 1) 1000 2 (RemoveMember 1000 2) tb (or_introl eq_refl) E).
Defined.
