(* ===== verification/HostKeys.v ===== *)
(** * Server host keys

    [crates/termoso-core/src/hostkey.rs], and what [check_server_key] of
    [ssh/handler.rs] does with it when a server presents its key. Pins are
    entities of the device's database; what this file asks of that database is
    the class [Pins] with its laws [PinLaws], which [ClientStore] fulfils (last
    section). A key is what [ssh-key] makes of it (the class [PublicKeys]): an
    algorithm, its bytes, a fingerprint. *)
From Stdlib Require Import Ascii.
From stdpp Require Import pretty.
From S2P Require Import Prelude Text Envelope SyncTypes.
From S2P Require Import ClientStore.

#[local] Open Scope string_scope.
#[local] Open Scope list_scope.

(** ** Data *)

(** [model::KnownHost]. *)
Record KnownHost := mkKnown { hostname : string; key_type : string; public_key : string; fingerprint : string }.
#[export] Instance KnownHost_eq_dec : EqDecision KnownHost.
Proof. solve_decision. Defined.

Record HostKeyInfo := mkInfo { i_host : string; i_key_type : string; i_fingerprint : string; i_public_key : string }.
#[export] Instance HostKeyInfo_eq_dec : EqDecision HostKeyInfo.
Proof. solve_decision. Defined.

Inductive HostKeyVerdict := Known | Unknown (key : HostKeyInfo) | Changed (old new : HostKeyInfo).
#[export] Instance HostKeyVerdict_eq_dec : EqDecision HostKeyVerdict.
Proof. solve_decision. Defined.

Inductive HostKeyDecision := Reject | AcceptOnce | AcceptAndSave.

(** [trait HostKeyPrompt], the time the user takes left out. *)
Definition HostKeyPrompt := HostKeyVerdict -> HostKeyDecision.
Definition StrictPrompt : HostKeyPrompt := fun _ => Reject.
Definition FixedPrompt (d : HostKeyDecision) : HostKeyPrompt :=
  fun v => match v with Changed _ _ => Reject | _ => d end.

(** [ssh_key::PublicKey] and base64. *)
Class PublicKeys (PublicKey : Type) := {
  algorithm : PublicKey -> string;
  to_bytes : PublicKey -> option bytes;
  from_bytes : bytes -> option PublicKey;
  key_fingerprint : PublicKey -> string;
  b64 : bytes -> string;
  unb64 : string -> option bytes
}.

(** A key reads back from its bytes, up to its comment; names and base64 are
    made of visible ASCII characters. *)
Record key_laws (PublicKey : Type) `{PublicKeys PublicKey} : Prop := {
  kl_bytes : forall k b, to_bytes k = Some b -> all_bytes b /\ b <> [] /\
    exists k', from_bytes b = Some k' /\ to_bytes k' = Some b /\ algorithm k' = algorithm k /\
      key_fingerprint k' = key_fingerprint k;
  kl_algorithm : forall k, Forall graphic (as_bytes (algorithm k)) /\ algorithm k <> "";
  kl_unb64 : forall b, all_bytes b -> unb64 (b64 b) = Some b;
  kl_b64 : forall b, all_bytes b -> Forall graphic (as_bytes (b64 b)) /\ (b <> [] -> b64 b <> "")
}.

(** What the database offers: [Store::list::<KnownHost>(None)], [insert] and
    [delete], with the state each leaves. *)
Class Pins (S : Type) := {
  pins : S -> core (list (Entity KnownHost));
  insert_pin : uuid -> KnownHost -> S -> S * core uuid;
  delete_pin : uuid -> S -> S * core unit
}.

(** ** Operations that touch the database *)

Definition D (S A : Type) : Type := S -> S * core A.
#[export] Instance d_ret {S} : MRet (D S) := fun _ a s => (s, Ok a).
#[export] Instance d_bind {S} : MBind (D S) := fun _ _ k m s =>
  match m s with (s', Ok a) => k a s' | (s', Err e) => (s', Err e) end.
Definition read {S A} (f : S -> core A) : D S A := fun s => (s, f s).

(** ** Naming a host *)

Definition host_id (host : string) (port : Z) : string :=
  let h := of_bytes (lowercase (trim_bytes (as_bytes host))) in
  if (port =? 22)%Z then h else "[" +:+ h +:+ "]:" +:+ pretty port.

Definition parse_host_port (s : bytes) : string * Z :=
  match
    rest ← strip_prefix (as_bytes "[") s;
    '(host, port) ← split_once_at (as_bytes "]:") rest;
    Some (of_bytes host, default 22%Z (parse_uint 65535 port))
  with
  | Some hp => hp
  | None => (of_bytes s, 22%Z)
  end.

Definition eq_ignore_ascii_case (a b : string) : bool :=
  bool_decide (lowercase (as_bytes a) = lowercase (as_bytes b)).

Section HostKeys.
Context {PublicKey : Type} `{PublicKeys PublicKey}.

Definition key_b64 (k : PublicKey) : string := b64 (default [] (to_bytes k)).

(** The error is dropped by the only caller. *)
Definition key_from_b64 (s : string) : option PublicKey := b ← unb64 (trim s); from_bytes b.

Definition info (host : string) (port : Z) (k : PublicKey) : HostKeyInfo :=
  mkInfo (host_id host port) (algorithm k) (key_fingerprint k) (key_b64 k).

Definition public_key_line (k : PublicKey) : string := algorithm k +:+ " " +:+ key_b64 k.

(** ** The trust database: [KnownHosts] saving into [vault] *)

Context {S : Type} `{Pins S}.

Definition all : D S (list (Entity KnownHost)) := read pins.

Definition for_host (host : string) (port : Z) : D S (list (Entity KnownHost)) :=
  let id := host_id host port in
  l ← all;
  mret (filter (fun e => eq_ignore_ascii_case (hostname (e_data e)) id = true) l).

(** The loop of [check]; [known] is its variable. *)
Fixpoint compare_pins (presented : HostKeyInfo) (known : bool) (l : list (Entity KnownHost)) : HostKeyVerdict :=
  match l with
  | [] => if known then Known else Unknown presented
  | p :: l' =>
      if negb (bool_decide (key_type (e_data p) = i_key_type presented)) then compare_pins presented known l'
      else if bool_decide (trim (public_key (e_data p)) = i_public_key presented) then compare_pins presented true l'
      else Changed (mkInfo (hostname (e_data p)) (key_type (e_data p)) (fingerprint (e_data p))
                      (public_key (e_data p))) presented
  end.

Definition check (host : string) (port : Z) (k : PublicKey) : D S HostKeyVerdict :=
  let presented := info host port k in
  l ← for_host host port;
  mret (compare_pins presented false l).

Fixpoint delete_pins (l : list (Entity KnownHost)) : D S unit :=
  match l with
  | [] => mret tt
  | e :: l' => _ ← delete_pin (e_id e); delete_pins l'
  end.

Definition trust (vault : uuid) (host : string) (port : Z) (k : PublicKey) : D S uuid :=
  let i := info host port k in
  l ← for_host host port;
  _ ← delete_pins (filter (fun e => e_vault e = vault /\ key_type (e_data e) = i_key_type i) l);
  insert_pin vault (mkKnown (i_host i) (i_key_type i) (i_public_key i) (i_fingerprint i)).

Definition forget (vault : uuid) (host : string) (port : Z) : D S nat :=
  l ← for_host host port;
  let mine := filter (fun e => e_vault e = vault) l in
  _ ← delete_pins mine;
  mret (length mine).

(** ** OpenSSH files *)

(** The hosts of a line; [n] counts the pins added. *)
Fixpoint import_hosts (vault : uuid) (k : PublicKey) (hosts : list bytes) (n : nat) : D S nat :=
  match hosts with
  | [] => mret n
  | h :: hosts' =>
      let '(host, port) := parse_host_port h in
      if contains_char "*"%char host || contains_char "?"%char host then import_hosts vault k hosts' n
      else
        v ← check host port k;
        if bool_decide (v = Known) then import_hosts vault k hosts' n
        else _ ← trust vault host port k; import_hosts vault k hosts' (1 + n)
  end.

(** What a line says: its hosts and its key; [None] for the lines skipped. *)
Definition line_pins (line : bytes) : option (list bytes * PublicKey) :=
  let line := trim_bytes line in
  match line with
  | [] => None
  | c :: _ =>
      if bool_decide (c = byte_of "#"%char) || bool_decide (c = byte_of "@"%char) then None
      else
        match split_whitespace line with
        | hosts :: algo :: blob :: _ =>
            if bool_decide (is_Some (strip_prefix (as_bytes "|1|") hosts)) then None
            else
              k ← key_from_b64 (of_bytes blob);
              if negb (bool_decide (as_bytes (algorithm k) = algo)) then None
              else Some (split_any (as_bytes ",") hosts, k)
        | _ => None
        end
  end.

Fixpoint import_lines (vault : uuid) (ls : list bytes) (n : nat) : D S nat :=
  match ls with
  | [] => mret n
  | line :: ls' =>
      match line_pins line with
      | None => import_lines vault ls' n
      | Some (hosts, k) => n ← import_hosts vault k hosts n; import_lines vault ls' n
      end
  end.

Definition import_openssh (vault : uuid) (contents : string) : D S nat :=
  import_lines vault (lines (as_bytes contents)) 0.

Definition export_line (d : KnownHost) : string :=
  hostname d +:+ " " +:+ key_type d +:+ " " +:+ public_key d +:+ String "010"%char "".

Fixpoint export_lines (l : list (Entity KnownHost)) : string :=
  match l with [] => "" | e :: l' => export_line (e_data e) +:+ export_lines l' end.

Definition export_openssh : D S string := l ← all; mret (export_lines l).

(** ** A server presents its key *)

Definition check_server_key (vault : uuid) (prompt : HostKeyPrompt) (host : string) (port : Z) (k : PublicKey) :
    D S bool :=
  verdict ← check host port k;
  if bool_decide (verdict = Known) then mret true
  else
    match prompt verdict with
    | Reject => read (fun _ => Err (HostKeyRejected (host_id host port)))
    | AcceptOnce => mret true
    | AcceptAndSave => _ ← trust vault host port k; mret true
    end.
End HostKeys.

(** ** What the database promises

    [good] is the database's own invariant. A write that fails leaves the pins
    as they were; the order of the list is not promised. *)
Record PinLaws (S : Type) `{Pins S} (good : S -> Prop) : Prop := {
  pl_insert : forall s v d s' r, good s -> insert_pin v d s = (s', r) ->
    good s' /\ forall l, pins s = Ok l -> exists l', pins s' = Ok l' /\
      match r with
      | Ok i => exists e, e_id e = i /\ e_vault e = v /\ e_data e = d /\ l' ≡ₚ e :: l
      | Err _ => l' ≡ₚ l
      end;
  pl_delete : forall s i s' r, good s -> delete_pin i s = (s', r) ->
    good s' /\ forall l, pins s = Ok l -> exists l', pins s' = Ok l' /\
      match r with Ok _ => l' ≡ₚ filter (fun e => e_id e <> i) l | Err _ => l' ≡ₚ l end;
  pl_ids : forall s l, good s -> pins s = Ok l -> NoDup (map e_id l)
}.
Arguments pl_insert {S _ good}. Arguments pl_delete {S _ good}. Arguments pl_ids {S _ good}.

(** The pins of a host with a type of key, as the code finds them. *)
Definition pins_for (host : string) (port : Z) (t : string) (e : Entity KnownHost) : Prop :=
  eq_ignore_ascii_case (hostname (e_data e)) (host_id host port) = true /\ key_type (e_data e) = t.
#[export] Instance pins_for_dec host port t e : Decision (pins_for host port t e).
Proof. unfold pins_for. apply _. Defined.

(** ** Names of hosts in a file

    [plain] names: lower case, no white space, none of the characters that mean
    something in a [known_hosts] line. *)
Definition plain_byte (b : Z) : Prop := graphic b /\ ~ (65 <= b <= 90) /\ b ∉ as_bytes ",*?[]#@|".
Definition plain (host : string) : Prop := Forall plain_byte (as_bytes host) /\ host <> "".
#[export] Instance plain_byte_dec b : Decision (plain_byte b).
Proof. unfold plain_byte, graphic. apply _. Defined.
#[export] Instance plain_dec host : Decision (plain host).
Proof. unfold plain. apply _. Defined.

Lemma plain_graphic host : plain host -> Forall graphic (as_bytes host).
Proof. intros [H _]. eapply Forall_impl; [exact H|]. by intros b [? _]. Qed.

Lemma lowercase_id l : (forall b, b ∈ l -> ~ (65 <= b <= 90)) -> lowercase l = l.
Proof.
  unfold lowercase. induction l as [|b l IH]; intros Hl; cbn; [done|]. f_equal; [|apply IH; intros c Hc; apply Hl; by right].
  assert (~ (65 <= b <= 90)) by (apply Hl; by left).
  destruct (Z.leb_spec 65 b), (Z.leb_spec b 90); cbn; lia.
Qed.

Lemma host_id_plain host port : plain host ->
  host_id host port = if (port =? 22)%Z then host else "[" +:+ host +:+ "]:" +:+ pretty port.
Proof.
  intros Hp. unfold host_id. rewrite trim_bytes_graphic by by apply plain_graphic.
  rewrite lowercase_id, of_as_bytes; [done|]. intros b Hb. destruct Hp as [Hp _].
  by apply (proj1 (Forall_forall _ _) Hp b Hb).
Qed.

Lemma as_bytes_host_id host port : plain host -> port <> 22 ->
  as_bytes (host_id host port) = 91 :: as_bytes host ++ 93 :: 58 :: as_bytes (pretty port).
Proof.
  intros Hp Hn. rewrite host_id_plain by done. rewrite (proj2 (Z.eqb_neq _ _) Hn).
  change ("[" +:+ host +:+ "]:" +:+ pretty port) with (String "[" (host +:+ String "]" (String ":" (pretty port)))).
  unfold as_bytes. cbn [String.list_ascii_of_string map]. fold (as_bytes (host +:+ String "]" (String ":" (pretty port)))).
  by rewrite as_bytes_app.
Qed.

Lemma split_once_at_close l rest : 93 ∉ l -> split_once_at (as_bytes "]:") (l ++ 93 :: 58 :: rest) = Some (l, rest).
Proof.
  induction l as [|b l IH]; intros Hl; [done|]. apply not_elem_of_cons in Hl as [Hb Hl].
  cbn [app split_once_at]. rewrite decide_False by (cbn; intros [= E _]; by destruct Hb).
  by rewrite IH.
Qed.

Lemma parse_host_id host port : plain host -> 0 <= port <= 65535 ->
  parse_host_port (as_bytes (host_id host port)) = (host, port).
Proof.
  intros Hp Hr. unfold parse_host_port. destruct (decide (port = 22)) as [->|Hn].
  - rewrite host_id_plain by done. cbn [Z.eqb Pos.eqb]. destruct Hp as [Hp Hne].
    assert (strip_prefix (as_bytes "[") (as_bytes host) = None) as ->.
    { unfold strip_prefix. rewrite decide_False; [done|]. intros E. destruct (as_bytes host) as [|b l]; [done|].
      cbn in E. injection E as ->. apply Forall_cons in Hp as [(_ & _ & Hb) _]. apply Hb. vm_compute. set_solver. }
    by rewrite of_as_bytes.
  - rewrite as_bytes_host_id by done. unfold strip_prefix. rewrite decide_True by done. cbn [length as_bytes drop mbind option_bind].
    change (drop _ (91 :: ?l)) with l.
    rewrite split_once_at_close.
    + cbn [mbind option_bind]. rewrite of_as_bytes, parse_uint_pretty by done. done.
    + destruct Hp as [Hp _]. intros Hi. apply (proj1 (Forall_forall _ _) Hp) in Hi as (_ & _ & Hi). apply Hi.
      vm_compute. set_solver.
Qed.

(** Such a name in a file: its bytes, and its own canonical form. *)
Lemma host_id_bytes host port : plain host -> 0 <= port ->
  (forall b, b ∈ as_bytes (host_id host port) -> graphic b /\ b <> 44 /\ ~ (65 <= b <= 90)) /\
  exists c l, as_bytes (host_id host port) = c :: l /\ c <> 35 /\ c <> 64 /\ c <> 124.
Proof.
  intros Hp Hr.
  assert (forall b, b ∈ as_bytes host -> graphic b /\ b <> 44 /\ ~ (65 <= b <= 90) /\ b <> 35 /\ b <> 64 /\ b <> 124) as Hh.
  { intros b Hb. destruct Hp as [Hp _]. apply (proj1 (Forall_forall _ _) Hp) in Hb as (Hg & Hu & Hs).
    split_and!; try done; intros ->; apply Hs; vm_compute; set_solver. }
  destruct (decide (port = 22)) as [->|Hn].
  - rewrite host_id_plain by done. cbn [Z.eqb Pos.eqb]. split; [intros b Hb; by apply Hh in Hb as (? & ? & ? & _)|].
    destruct (as_bytes host) as [|c l] eqn:E; [destruct Hp as [_ []]; by apply as_bytes_inj|].
    exists c, l. split; [done|]. by apply (Hh c); left.
  - rewrite as_bytes_host_id by done. split; [|by eexists _, _].
    intros b.
    rewrite elem_of_cons, elem_of_app, !elem_of_cons. intros [->|[Hb|[->|[->|Hb]]]]; try (unfold graphic; lia).
    + by apply Hh in Hb as (? & ? & ? & _).
    + destruct (pretty_digits port Hr) as [Hd _]. apply (proj1 (Forall_forall _ _) Hd) in Hb. unfold graphic; lia.
Qed.

Section Facts.
Context {PublicKey : Type} `{PublicKeys PublicKey}.
Context {S : Type} `{Pins S} {good : S -> Prop} (laws : PinLaws S good).

Lemma d_bind_inv {A B} (m : D S A) (k : A -> D S B) s s' r : (m ≫= k) s = (s', r) ->
  (exists s1 a, m s = (s1, Ok a) /\ k a s1 = (s', r)) \/ (exists e, m s = (s', Err e) /\ r = Err e).
Proof. unfold mbind, d_bind. destruct (m s) as [s1 [a|e]]; intros E; [left|right]; simplify_eq; eauto. Qed.

(** *** Comparing *)

Definition holds (k : PublicKey) (e : Entity KnownHost) : Prop := trim (public_key (e_data e)) = key_b64 k.
Definition seen (e : Entity KnownHost) : HostKeyInfo :=
  mkInfo (hostname (e_data e)) (key_type (e_data e)) (fingerprint (e_data e)) (public_key (e_data e)).

Lemma compare_pins_spec i known l :
  let same e := key_type (e_data e) = i_key_type i in
  let equal e := trim (public_key (e_data e)) = i_public_key i in
  match compare_pins i known l with
  | Known => (known = true \/ exists e, e ∈ l /\ same e /\ equal e) /\ forall e, e ∈ l -> same e -> equal e
  | Unknown i' => i' = i /\ known = false /\ forall e, e ∈ l -> ~ same e
  | Changed old new => new = i /\ exists e, e ∈ l /\ same e /\ ~ equal e /\ old = seen e
  end.
Proof.
  cbn zeta. revert known. induction l as [|p l IH]; intros known; cbn [compare_pins].
  { destruct known; split_and!; auto; by intros e ?%not_elem_of_nil. }
  case_bool_decide as Ht; cbn [negb]; [case_bool_decide as Hk|].
  - specialize (IH true). destruct (compare_pins i true l) as [|i'|old new].
    + destruct IH as [_ Ha]. split; [right; exists p; split; [by left|done]|].
      intros e [->|He]%elem_of_cons; [done|by apply Ha].
    + by destruct IH as (_ & ? & _).
    + destruct IH as (-> & e & He & IH). split; [done|]. exists e. split; [by right|done].
  - split; [done|]. exists p. split; [by left|done].
  - specialize (IH known). destruct (compare_pins i known l) as [|i'|old new].
    + destruct IH as [Hex Ha]. split.
      * destruct Hex as [|(e & He & Hex)]; [by left|right]. exists e. split; [by right|done].
      * intros e [->|He]%elem_of_cons Hs; [done|by apply Ha].
    + destruct IH as (-> & -> & Ha). split_and!; [done|done|]. intros e [->|He]%elem_of_cons; [done|by apply Ha].
    + destruct IH as (-> & e & He & IH). split; [done|]. exists e. split; [by right|done].
Qed.

Lemma for_host_run host port s l : pins s = Ok l ->
  for_host host port s = (s, Ok (filter (fun e => eq_ignore_ascii_case (hostname (e_data e)) (host_id host port) = true) l)).
Proof. intros E. unfold for_host, all, read, mbind, d_bind. by rewrite E. Qed.

Lemma check_run host port (k : PublicKey) s l : pins s = Ok l ->
  exists v, check host port k s = (s, Ok v) /\
  match v with
  | Known => (exists e, e ∈ l /\ pins_for host port (algorithm k) e) /\
             forall e, e ∈ l -> pins_for host port (algorithm k) e -> holds k e
  | Unknown i => i = info host port k /\ forall e, e ∈ l -> ~ pins_for host port (algorithm k) e
  | Changed old new => new = info host port k /\
      exists e, e ∈ l /\ pins_for host port (algorithm k) e /\ ~ holds k e /\ old = seen e
  end.
Proof.
  intros E. unfold check. unfold mbind at 1, d_bind at 1. rewrite (for_host_run _ _ _ _ E). eexists; split; [reflexivity|].
  match goal with |- context [compare_pins ?i ?b ?f] => pose proof (compare_pins_spec i b f) as Hs;
    destruct (compare_pins i b f) end; cbn in Hs |- *; unfold pins_for, holds.
  - destruct Hs as [[|(e & [He Hl]%list_elem_of_filter & Ht & Hk)] Ha]; [done|]. split; [by exists e|].
    intros e' He' [H1 H2]. apply Ha; [by apply list_elem_of_filter|done].
  - destruct Hs as (-> & _ & Hn). split; [done|]. intros e He [H1 H2]. eapply Hn; [by apply list_elem_of_filter|done].
  - destruct Hs as (-> & e & [He Hl]%list_elem_of_filter & Ht & Hk & ->). split; [done|]. by exists e.
Qed.

(** *** Deleting *)

Lemma filter_ids (P : Entity KnownHost -> Prop) `{forall e, Decision (P e)} l : NoDup (map e_id l) ->
  filter (fun e => e_id e ∉ map e_id (filter P l)) l = filter (fun e => ~ P e) l.
Proof.
  intros Hn. apply filter_ext_in. intros e He. split.
  - intros Hni HP. apply Hni, list_elem_of_fmap. exists e. split; [done|]. by apply list_elem_of_filter.
  - intros HP (e' & Hid & [HP' He']%list_elem_of_filter)%list_elem_of_fmap. apply HP.
    by rewrite (NoDup_map_inj e_id l e e' Hn He He' Hid).
Qed.

(** A failed run has deleted the first of the pins. *)
Lemma delete_pins_run ds s s' r : good s -> delete_pins ds s = (s', r) ->
  good s' /\ forall l, pins s = Ok l -> exists ds' l', ds' `prefix_of` ds /\ (is_ok r = true -> ds' = ds) /\
    pins s' = Ok l' /\ l' ≡ₚ filter (fun e => e_id e ∉ map e_id ds') l.
Proof.
  revert s. induction ds as [|d ds IH]; intros s Hg; cbn [delete_pins].
  - intros [= <- <-]. split; [done|]. intros l Hl. exists [], l. split_and!; try done.
    rewrite filter_all; [done|]. intros e _ Hi. by apply not_elem_of_nil in Hi.
  - intros [(s1 & u & Hd & Hk)|(e & Hd & ->)]%d_bind_inv;
      destruct (pl_delete laws _ _ _ _ Hg Hd) as [Hg1 Hp].
    + destruct (IH _ Hg1 Hk) as [Hg' IH']. split; [done|]. intros l Hl.
      destruct (Hp l Hl) as (l1 & Hl1 & P1). destruct (IH' l1 Hl1) as (ds' & l' & Hpre & Hok & Hl' & P').
      exists (d :: ds'), l'. split_and!; [by apply prefix_cons|intros E; by rewrite (Hok E)|done|].
      rewrite P', P1, list_filter_filter. apply reflexive_eq, list_filter_iff.
      intros e. cbn [map]. rewrite not_elem_of_cons. tauto.
    + split; [done|]. intros l Hl. destruct (Hp l Hl) as (l1 & Hl1 & P1). exists [], l1.
      split_and!; [by apply prefix_nil|done|done|]. rewrite P1.
      rewrite filter_all; [done|]. intros e' _ Hi. by apply not_elem_of_nil in Hi.
Qed.

(** *** What an operation of a vault's [KnownHosts] may change

    Whatever happens, the pins of the other vaults stay. *)
Definition others (v : uuid) (l : list (Entity KnownHost)) : list (Entity KnownHost) := filter (fun e => e_vault e <> v) l.
#[local] Instance others_proper v : Proper ((≡ₚ) ==> (≡ₚ)) (others v).
Proof. unfold others. solve_proper. Qed.

Definition confined {A} (v : uuid) (m : D S A) : Prop := forall s s' r, good s -> m s = (s', r) ->
  good s' /\ forall l, pins s = Ok l -> exists l', pins s' = Ok l' /\ others v l' ≡ₚ others v l.

Lemma confined_ret {A} v (a : A) : confined v (mret a).
Proof. intros s s' r Hg [= <- <-]. split; [done|]. intros l Hl. by exists l. Qed.

Lemma confined_read {A} v (f : S -> core A) : confined v (read f).
Proof. intros s s' r Hg [= <- <-]. split; [done|]. intros l Hl. by exists l. Qed.

Lemma confined_bind {A B} v (m : D S A) (k : A -> D S B) :
  confined v m -> (forall a, confined v (k a)) -> confined v (m ≫= k).
Proof.
  intros Hm Hk s s' r Hg [(s1 & a & E1 & E2)|(e & E1 & ->)]%d_bind_inv; [|by eapply Hm].
  destruct (Hm _ _ _ Hg E1) as [Hg1 H1]. destruct (Hk _ _ _ _ Hg1 E2) as [Hg2 H2]. split; [done|].
  intros l Hl. destruct (H1 l Hl) as (l1 & Hl1 & P1). destruct (H2 l1 Hl1) as (l2 & Hl2 & P2).
  exists l2. split; [done|]. by rewrite P2.
Qed.

Lemma confined_check v host port (k : PublicKey) : confined v (check host port k).
Proof.
  apply confined_bind; [|intros; apply confined_ret].
  apply confined_bind; [apply confined_read|intros; apply confined_ret].
Qed.

(** The pins [trust] replaces. *)
Definition replaced (v : uuid) (host : string) (port : Z) (t : string) (e : Entity KnownHost) : Prop :=
  e_vault e = v /\ pins_for host port t e.
#[export] Instance replaced_dec v host port t e : Decision (replaced v host port t e).
Proof. unfold replaced. apply _. Defined.

Definition pin_of (i : HostKeyInfo) : KnownHost := mkKnown (i_host i) (i_key_type i) (i_public_key i) (i_fingerprint i).

Lemma others_deleted v ds l : NoDup (map e_id l) -> (forall e, e ∈ ds -> e ∈ l /\ e_vault e = v) ->
  others v (filter (fun e => e_id e ∉ map e_id ds) l) = others v l.
Proof.
  intros Hn Hds. unfold others. rewrite list_filter_filter. apply filter_ext_in. intros e He. split; [tauto|].
  intros Hv. split; [done|]. intros (e' & Hid & He')%list_elem_of_fmap. destruct (Hds e' He') as [Hl Hv'].
  by rewrite (NoDup_map_inj e_id l e e' Hn He Hl Hid) in Hv.
Qed.

(** Deleting some of a vault's pins out of the list just read. *)
Lemma delete_mine v (P : Entity KnownHost -> Prop) `{forall e, Decision (P e)} s l s' r :
  (forall e, P e -> e_vault e = v) -> good s -> pins s = Ok l -> delete_pins (filter P l) s = (s', r) ->
  good s' /\ exists l', pins s' = Ok l' /\ others v l' ≡ₚ others v l /\
    (is_ok r = true -> l' ≡ₚ filter (fun e => ~ P e) l).
Proof.
  intros HP Hg Hl Hd. destruct (delete_pins_run _ _ _ _ Hg Hd) as [Hg' Hr]. split; [done|].
  destruct (Hr l Hl) as (ds' & l' & [t Hpre] & Hok & Hl' & P'). exists l'.
  pose proof (pl_ids laws _ _ Hg Hl) as Hn. split_and!; [done| |].
  - rewrite P'. rewrite others_deleted; [done|done|]. intros e He.
    assert (e ∈ filter P l) as [Hp Hel]%list_elem_of_filter; [|by auto].
    rewrite Hpre. apply elem_of_app. by left.
  - intros E. rewrite P', (Hok E). by rewrite filter_ids.
Qed.

(** [trust], whatever it returns. *)
Lemma trust_run v host port (k : PublicKey) s l s' r : good s -> pins s = Ok l -> trust v host port k s = (s', r) ->
  good s' /\ exists l', pins s' = Ok l' /\ others v l' ≡ₚ others v l /\
    forall i, r = Ok i -> exists e, e_id e = i /\ e_vault e = v /\ e_data e = pin_of (info host port k) /\
      l' ≡ₚ e :: filter (fun e => ~ replaced v host port (algorithm k) e) l.
Proof.
  intros Hg Hl. unfold trust. unfold mbind at 1, d_bind at 1. rewrite (for_host_run _ _ _ _ Hl), list_filter_filter.
  rewrite (filter_ext_in _ (replaced v host port (algorithm k)) l)
    by (intros e _; unfold replaced, pins_for; cbn; tauto).
  intros [(s1 & u & Hd & Hi)|(x & Hd & ->)]%d_bind_inv;
    destruct (delete_mine v _ _ _ _ _ (fun e He => proj1 He) Hg Hl Hd) as (Hg1 & l1 & Hl1 & P1 & Q1).
  - destruct (pl_insert laws _ _ _ _ _ Hg1 Hi) as [Hg' Hp]. split; [done|].
    destruct (Hp l1 Hl1) as (l' & Hl' & P'). exists l'. split; [done|].
    destruct r as [i|x].
    + destruct P' as (e & He & Hv & Hdt & P'). split.
      * rewrite P'. unfold others at 1. rewrite filter_cons_False by tauto. exact P1.
      * intros i' [= <-]. exists e. split_and!; try done. by rewrite P', (Q1 eq_refl).
    + split; [by rewrite P'|done].
  - split; [done|]. exists l1. split_and!; done.
Qed.

Lemma confined_trust v host port (k : PublicKey) : confined v (trust v host port k).
Proof.
  intros s s' r Hg Hr. destruct (pins s) as [l|x] eqn:Hl.
  - destruct (trust_run _ _ _ _ _ _ _ _ Hg Hl Hr) as (Hg' & l' & Hl' & P' & _). split; [done|].
    intros l0 [= <-]. by exists l'.
  - split; [|done]. revert Hr. unfold trust, for_host, all, read, mbind, d_bind. rewrite Hl. by intros [= <- _].
Qed.

Lemma forget_run v host port s l s' r : good s -> pins s = Ok l -> forget v host port s = (s', r) ->
  good s' /\ exists l', pins s' = Ok l' /\ others v l' ≡ₚ others v l /\
    forall n, r = Ok n -> let gone e := e_vault e = v /\ eq_ignore_ascii_case (hostname (e_data e)) (host_id host port) = true in
      n = length (filter gone l) /\ l' ≡ₚ filter (fun e => ~ gone e) l.
Proof.
  intros Hg Hl. unfold forget. unfold mbind at 1, d_bind at 1. rewrite (for_host_run _ _ _ _ Hl), list_filter_filter.
  intros [(s1 & u & Hd & [= -> <-])|(x & Hd & ->)]%d_bind_inv;
    destruct (delete_mine v _ _ _ _ _ (fun e He => proj1 He) Hg Hl Hd) as (Hg1 & l1 & Hl1 & P1 & Q1);
    (split; [done|]; exists l1; split_and!; [done|done|]).
  - intros n [= <-]. split; [done|]. by apply Q1.
  - done.
Qed.

Lemma confined_forget v host port : confined v (forget v host port).
Proof.
  intros s s' r Hg Hr. destruct (pins s) as [l|x] eqn:Hl.
  - destruct (forget_run _ _ _ _ _ _ _ Hg Hl Hr) as (Hg' & l' & Hl' & P' & _). split; [done|].
    intros l0 [= <-]. by exists l'.
  - split; [|done]. revert Hr. unfold forget, for_host, all, read, mbind, d_bind. rewrite Hl. by intros [= <- _].
Qed.

Lemma confined_import_hosts v (k : PublicKey) hosts n : confined v (import_hosts v k hosts n).
Proof.
  revert n. induction hosts as [|h hosts IH]; intros n; cbn [import_hosts]; [apply confined_ret|].
  destruct (parse_host_port h) as [host port]. case_match; [apply IH|].
  apply confined_bind; [apply confined_check|]. intros a. case_match; [apply IH|].
  apply confined_bind; [apply confined_trust|]. intros _. apply IH.
Qed.

Lemma confined_import v contents : confined v (import_openssh (PublicKey := PublicKey) v contents).
Proof.
  unfold import_openssh. generalize 0%nat as n. induction (lines (as_bytes contents)) as [|line ls IH]; intros n;
    cbn [import_lines]; [apply confined_ret|].
  destruct (line_pins line) as [[hosts k]|]; [|apply IH].
  apply confined_bind; [apply confined_import_hosts|]. intros m. apply IH.
Qed.

Lemma confined_check_server_key v prompt host port (k : PublicKey) : confined v (check_server_key v prompt host port k).
Proof.
  apply confined_bind; [apply confined_check|]. intros verdict. case_match; [apply confined_ret|].
  destruct (prompt verdict); [apply confined_read|apply confined_ret|].
  apply confined_bind; [apply confined_trust|intros; apply confined_ret].
Qed.

(** ** Sequences of operations *)

(** What the program does with its [KnownHosts], each saving into a vault. *)
Inductive Request :=
| Trusts (v : uuid) (host : string) (port : Z) (k : PublicKey)
| Forgets (v : uuid) (host : string) (port : Z)
| Imports (v : uuid) (contents : string)
| Connects (v : uuid) (prompt : HostKeyPrompt) (host : string) (port : Z) (k : PublicKey).

Definition saves_into (q : Request) : uuid :=
  match q with Trusts v _ _ _ | Forgets v _ _ | Imports v _ | Connects v _ _ _ _ => v end.

Definition serve (s : S) (q : Request) : S :=
  match q with
  | Trusts v host port k => fst (trust v host port k s)
  | Forgets v host port => fst (forget v host port s)
  | Imports v contents => fst (import_openssh (PublicKey := PublicKey) v contents s)
  | Connects v prompt host port k => fst (check_server_key v prompt host port k s)
  end.

Lemma serve_confined s q : good s ->
  good (serve s q) /\ forall l, pins s = Ok l ->
    exists l', pins (serve s q) = Ok l' /\ others (saves_into q) l' ≡ₚ others (saves_into q) l.
Proof.
  intros Hg. destruct q; cbn [serve saves_into].
  - apply (confined_trust v host port k s _ (snd (trust v host port k s)) Hg), surjective_pairing.
  - apply (confined_forget v host port s _ (snd (forget v host port s)) Hg), surjective_pairing.
  - apply (confined_import v contents s _ (snd (import_openssh (PublicKey := PublicKey) v contents s)) Hg), surjective_pairing.
  - apply (confined_check_server_key v prompt host port k s _ (snd (check_server_key v prompt host port k s)) Hg),
      surjective_pairing.
Qed.

Lemma others_elem v e l : e ∈ others v l <-> e_vault e <> v /\ e ∈ l.
Proof. unfold others. by rewrite list_elem_of_filter. Qed.

Lemma serve_all_keeps qs s l e : good s -> pins s = Ok l -> e ∈ l ->
  (forall q, q ∈ qs -> saves_into q <> e_vault e) ->
  exists l', good (foldl serve s qs) /\ pins (foldl serve s qs) = Ok l' /\ e ∈ l'.
Proof.
  revert s l. induction qs as [|q qs IH]; intros s l Hg Hl He Hq; cbn [foldl]; [by exists l|].
  destruct (serve_confined s q Hg) as [Hg' Hp]. destruct (Hp l Hl) as (l' & Hl' & P).
  apply (IH _ l'); [done|done| |intros q' Hq'; apply Hq; by right].
  apply (others_elem (saves_into q)). rewrite P. apply others_elem. split; [|done].
  intros E. by apply (Hq q (list_elem_of_here _ _)).
Qed.

End Facts.

(** ** Keys *)

Section Keys.
Context {PublicKey : Type} `{PublicKeys PublicKey} {S : Type} `{Pins S}.
Context (klaws : key_laws PublicKey).

Lemma key_b64_graphic (k : PublicKey) : Forall graphic (as_bytes (key_b64 k)).
Proof.
  unfold key_b64. destruct (to_bytes k) as [b|] eqn:Hb; cbn [default].
  - apply (kl_b64 _ klaws), (kl_bytes _ klaws _ _ Hb).
  - exact (proj1 (kl_b64 _ klaws [] (Forall_nil_2 _))).
Qed.

Lemma pin_of_pins_for host port (k : PublicKey) e : e_data e = pin_of (info host port k) ->
  pins_for host port (algorithm k) e /\ holds k e.
Proof.
  intros He. unfold pins_for, holds, eq_ignore_ascii_case. rewrite He. cbn. split; [by rewrite bool_decide_eq_true_2|].
  apply trim_graphic, key_b64_graphic.
Qed.

Lemma check_known host port (k : PublicKey) s l : pins s = Ok l ->
  (check host port k s = (s, Ok Known) <->
   (exists e, e ∈ l /\ pins_for host port (algorithm k) e) /\
   forall e, e ∈ l -> pins_for host port (algorithm k) e -> holds k e).
Proof.
  intros Hl. destruct (check_run host port k s l Hl) as (verdict & -> & Hv).
  split; [intros [= ->]; exact Hv|]. intros [[e [He Hp]] Ha]. destruct verdict; [done| |].
  - by destruct (proj2 Hv e He).
  - destruct Hv as (_ & e' & He' & Hp' & Hn & _). by destruct Hn; apply Ha.
Qed.

(** ** Files *)

(** What a line says of a pin, as bytes. *)
Definition line_of (host : string) (port : Z) (k : PublicKey) : bytes :=
  as_bytes (host_id host port) ++ 32 :: as_bytes (algorithm k) ++ 32 :: as_bytes (key_b64 k).

Lemma export_line_bytes host port (k : PublicKey) rest :
  as_bytes (export_line (pin_of (info host port k)) +:+ rest) = line_of host port k ++ 10 :: as_bytes rest.
Proof.
  unfold export_line, line_of. cbn [hostname key_type public_key pin_of info i_host i_key_type i_public_key].
  rewrite !as_bytes_app. change (as_bytes " ") with [32]. change (as_bytes (String "010" "")) with [10].
  cbn [app]. by repeat (rewrite <- app_assoc; cbn [app]).
Qed.

Lemma key_b64_not_nil (k : PublicKey) b : to_bytes k = Some b -> as_bytes (key_b64 k) <> [].
Proof.
  intros Hb E. destruct (kl_bytes _ klaws _ _ Hb) as (Ha & Hne & _).
  apply (proj2 (kl_b64 _ klaws b Ha) Hne). apply as_bytes_inj. unfold key_b64 in E. by rewrite Hb in E.
Qed.

Lemma line_of_ends host port (k : PublicKey) b : plain host -> 0 <= port -> to_bytes k = Some b ->
  trim_bytes (line_of host port k) = line_of host port k /\ chop_cr (line_of host port k) = line_of host port k /\
  10 ∉ line_of host port k.
Proof.
  intros Hp Hr Hb. destruct (host_id_bytes host port Hp Hr) as [Hh (c & l & Hc & _)].
  assert (exists z l', rev (line_of host port k) = z :: l' /\ graphic z) as (z & l' & Hz & Hg).
  { destruct (exists_last (key_b64_not_nil k b Hb)) as (l' & z & E). unfold line_of. rewrite E.
    eexists z, _. split; [by rewrite !rev_app_distr; cbn; rewrite !rev_app_distr; cbn; rewrite rev_app_distr|].
    pose proof (key_b64_graphic k) as Hg. rewrite E in Hg. apply Forall_app in Hg as [_ Hg].
    by apply Forall_cons in Hg as [? _]. }
  split_and!.
  - apply trim_bytes_ends.
    + unfold line_of. rewrite Hc. intros b0 l0 [= <- _]. apply Hh. rewrite Hc. by left.
    + rewrite Hz. by intros b0 l0 [= <- _].
  - unfold chop_cr. rewrite Hz. unfold graphic in Hg. destruct z as [|z|z]; try done.
    do 4 (destruct z as [z|z|]; try done). cbn in Hg. lia.
  - unfold line_of. rewrite elem_of_app, elem_of_cons, elem_of_app, elem_of_cons.
    assert (forall m, Forall graphic m -> 10 ∉ m) as Hno.
    { intros m Hm Hi. apply (proj1 (Forall_forall _ _) Hm) in Hi. unfold graphic in Hi. lia. }
    intros [Hi|[?|[Hi|[?|Hi]]]]; try done.
    + apply Hh in Hi as [Hi _]. unfold graphic in Hi. lia.
    + exact (Hno _ (proj1 (kl_algorithm _ klaws k)) Hi).
    + exact (Hno _ (key_b64_graphic k) Hi).
Qed.

(** A line reads back as its host and its key, up to the key's comment. *)
Lemma line_pins_of host port (k : PublicKey) b : plain host -> 0 <= port -> to_bytes k = Some b ->
  exists k', line_pins (line_of host port k) = Some ([as_bytes (host_id host port)], k') /\
    algorithm k' = algorithm k /\ key_b64 k' = key_b64 k /\ info host port k' = info host port k.
Proof.
  intros Hp Hr Hb. destruct (kl_bytes _ klaws _ _ Hb) as (Ha & _ & k' & Hf & Hb' & Halg & Hfp).
  assert (key_b64 k' = key_b64 k) as Hk by (unfold key_b64; by rewrite Hb, Hb').
  exists k'. split; [|split_and!; [done|done|unfold info; by rewrite Hk, Halg, Hfp]].
  destruct (host_id_bytes host port Hp Hr) as [Hh (c & l & Hc & H35 & H64 & H124)].
  assert (Forall graphic (as_bytes (host_id host port))) as Hg by (apply Forall_forall; intros x Hx; by apply Hh).
  unfold line_pins. rewrite (proj1 (line_of_ends host port k b Hp Hr Hb)).
  assert (split_whitespace (line_of host port k) =
    [as_bytes (host_id host port); as_bytes (algorithm k); as_bytes (key_b64 k)]) as ->.
  { unfold line_of. rewrite split_whitespace_word by (done || by rewrite Hc).
    destruct (kl_algorithm _ klaws k) as [Hga Hna].
    rewrite split_whitespace_word; [|done|intros E; by apply Hna, as_bytes_inj].
    by rewrite split_whitespace_last by (apply key_b64_graphic || by eapply key_b64_not_nil). }
  destruct (line_of host port k) as [|c' l'] eqn:E; [unfold line_of in E; by rewrite Hc in E|].
  assert (c' = c) as -> by (unfold line_of in E; rewrite Hc in E; by injection E).
  rewrite !bool_decide_eq_false_2 by done. cbn [orb].
  rewrite bool_decide_eq_false_2.
  2:{ unfold strip_prefix. rewrite decide_False; [by intros [? ?]|]. rewrite Hc. cbn. by intros [= ? _]. }
  rewrite of_as_bytes. unfold key_from_b64. rewrite trim_graphic by apply key_b64_graphic.
  assert (unb64 (key_b64 k) = Some b) as -> by (unfold key_b64; rewrite Hb; by apply (kl_unb64 _ klaws)).
  cbn [mbind option_bind]. rewrite Hf. cbn [mbind option_bind]. rewrite bool_decide_eq_true_2 by by rewrite Halg. cbn [negb].
  rewrite split_any_none; [done|]. intros x Hx. apply Hh in Hx as (_ & Hx & _). vm_compute. set_solver.
Qed.

(** A line of a plain host is one host to import. *)
Lemma import_line v host port (k : PublicKey) b rest n s : plain host -> 0 <= port <= 65535 -> to_bytes k = Some b ->
  exists k', algorithm k' = algorithm k /\ key_b64 k' = key_b64 k /\ info host port k' = info host port k /\
  import_lines (PublicKey := PublicKey) v (lines (as_bytes (export_line (pin_of (info host port k)) +:+ rest))) n s =
    (n' ← (verdict ← check host port k';
           if bool_decide (verdict = Known) then mret n else _ ← trust v host port k'; mret (1 + n)%nat);
     import_lines (PublicKey := PublicKey) v (lines (as_bytes rest)) n') s.
Proof.
  intros Hp Hr Hb. destruct (line_pins_of host port k b Hp (proj1 Hr) Hb) as (k' & Hl & Ha & Hk & Hi).
  destruct (line_of_ends host port k b Hp (proj1 Hr) Hb) as (_ & Hc & Hn).
  exists k'. split_and!; try done. rewrite export_line_bytes, lines_cons, Hc by done. cbn [import_lines]. rewrite Hl.
  cbn [import_hosts]. rewrite parse_host_id by done.
  assert (contains_char "*"%char host || contains_char "?"%char host = false) as ->; [|reflexivity].
  destruct Hp as [Hp _]. apply orb_false_iff. unfold contains_char.
  split; apply bool_decide_eq_false_2; intros (_ & _ & Hx)%(proj1 (Forall_forall _ _) Hp); apply Hx; vm_compute; set_solver.
Qed.

Lemma pins_for_info host port (k k' : PublicKey) : algorithm k' = algorithm k -> key_b64 k' = key_b64 k ->
  (forall e, pins_for host port (algorithm k') e <-> pins_for host port (algorithm k) e) /\
  (forall e, holds k' e <-> holds k e).
Proof. unfold holds. intros -> ->. done. Qed.

(** A pin as [trust] writes it, for a plain host. *)
Definition exportable (d : KnownHost) : Prop := exists host port (k : PublicKey) b,
  plain host /\ 0 <= port <= 65535 /\ to_bytes k = Some b /\ d = pin_of (info host port k).

(** No two pins of one host and type disagree. *)
Definition agreeing (l : list (Entity KnownHost)) : Prop := forall e1 e2, e1 ∈ l -> e2 ∈ l ->
  hostname (e_data e1) = hostname (e_data e2) -> key_type (e_data e1) = key_type (e_data e2) -> e_data e1 = e_data e2.

Lemma exportable_host d host port : exportable d -> plain host -> 0 <= port ->
  eq_ignore_ascii_case (hostname d) (host_id host port) = true -> hostname d = host_id host port.
Proof.
  intros (h & p & k & b & Hp & Hr & _ & ->) Hp' Hr' E%bool_decide_eq_true. cbn in *.
  rewrite !lowercase_id in E; [by apply as_bytes_inj| |]; intros x Hx; eapply host_id_bytes in Hx; naive_solver lia.
Qed.

End Keys.

Section Files.
Context {PublicKey : Type} `{PublicKeys PublicKey} (klaws : key_laws PublicKey).
Context {S : Type} `{Pins S} {good : S -> Prop} (laws : PinLaws S good).

(** One more line: the pin is there afterwards, and counted if it was not. *)
Lemma import_exported v host port (k k' : PublicKey) b s l n :
  plain host -> 0 <= port <= 65535 -> to_bytes k = Some b -> good s -> pins s = Ok l ->
  (forall e, e ∈ l -> exportable (PublicKey := PublicKey) (e_data e) /\ (hostname (e_data e) = host_id host port ->
     key_type (e_data e) = algorithm k -> e_data e = pin_of (info host port k))) ->
  algorithm k' = algorithm k -> key_b64 k' = key_b64 k -> info host port k' = info host port k ->
  forall s' n', (verdict ← check host port k';
     if bool_decide (verdict = Known) then mret n else _ ← trust v host port k'; mret (1 + n)%nat) s = (s', Ok n') ->
  good s' /\ exists l', pins s' = Ok l' /\ (length l' + n = length l + n')%nat /\
    (forall d, d ∈ map e_data l' <-> d ∈ map e_data l \/ d = pin_of (info host port k)) /\
    forall e, e ∈ l' -> e ∈ l \/ e_vault e = v.
Proof.
  intros Hp Hr Hb Hg Hl Hagree Ha Hk Hi s' n'. destruct (pins_for_info host port k k' Ha Hk) as [Ep Eh].
  assert (forall e, e ∈ l -> pins_for host port (algorithm k') e -> e_data e = pin_of (info host port k)) as Hsame.
  { intros e He [Hh Ht]. destruct (Hagree e He) as [Hx Hd]. apply Hd; [|by rewrite <- Ha].
    apply exportable_host; [done|done|lia|done]. }
  destruct (check_run host port k' s l Hl) as (verdict & Hc & Hv). unfold mbind at 1, d_bind at 1. rewrite Hc.
  case_bool_decide as Hkn.
  - intros [= <- <-]. split; [done|]. exists l. split_and!; [done|lia| |by left]. subst verdict.
    destruct Hv as [(e & He & Hpe) _]. intros d. split; [by left|]. intros [Hd| ->]; [done|].
    apply list_elem_of_fmap. exists e. by rewrite (Hsame e He Hpe).
  - intros [(s1 & i & Ht & [= -> <-])|(x & _ & [=])]%d_bind_inv.
    destruct (trust_run laws _ _ _ _ _ _ _ _ Hg Hl Ht) as (Hg' & l' & Hl' & _ & Hn). split; [done|].
    destruct (Hn i eq_refl) as (e & _ & Hve & Hd & P). rewrite Hi in Hd.
    assert (forall e, e ∈ l -> ~ pins_for host port (algorithm k') e) as Hnone.
    { destruct verdict; [done|by destruct Hv|]. destruct Hv as (_ & e' & He' & Hpe & Hnh & _).
      destruct Hnh. apply Eh, (pin_of_pins_for klaws host port k e'), Hsame; done. }
    rewrite filter_all in P by (intros x Hx [_ Hpx]; by apply (Hnone x)).
    exists l'. split_and!; [done| | |].
    + rewrite P. cbn. lia.
    + intros d. rewrite P. cbn [map]. rewrite elem_of_cons, Hd. tauto.
    + intros x. rewrite P, elem_of_cons. intros [->|?]; [by right|by left].
Qed.

End Files.
