(* ===== verification/PinStore.v ===== *)
(** * Pins in the device's database

    [HostKeys] asks a database for the class [Pins]; here [ClientStore] provides
    it and fulfils its laws. The state is the database with the number of
    random values drawn from it, which gives the next entity id, nonce and
    reading of the clock. *)
From S2P Require Import Prelude Text Envelope SyncTypes.
From S2P Require Import ClientStore HostKeys.

Record Device := mkDevice { db : Store; drawn : nat }.

Section Device.
Context (seal unseal : bytes -> bytes -> bytes -> bytes -> option bytes).
Context (b64_encode : bytes -> string) (b64_decode : string -> option bytes).
Context (uuid_text : uuid -> string).
Context (known_to_json : KnownHost -> option string) (known_from_json : string -> option KnownHost).
Context (ids : nat -> uuid) (nonces : nat -> bytes) (clock : nat -> Z).

(** The entry of [model.rs] for [KnownHost]. *)
#[local] Instance known_payload : Payload KnownHost :=
  { KIND := "known_host"; to_json := known_to_json; from_json := known_from_json }.

(** [Store::list::<KnownHost>(None)]. *)
Definition known_hosts (s : Store) : core (list (Entity KnownHost)) :=
  list_of unseal b64_decode uuid_text s None.

Definition device_pins : Pins Device := {|
  pins := fun st => known_hosts (db st);
  insert_pin := fun v d st =>
    let n := drawn st in
    match insert seal b64_encode uuid_text (db st) (clock n) (nonces n) v (ids n) d with
    | Ok (s, i) => (mkDevice s (S n), Ok i)
    | Err e => (mkDevice (db st) (S n), Err e)
    end;
  delete_pin := fun i st =>
    let n := drawn st in
    match remove (db st) (clock n) i with
    | Ok s => (mkDevice s (S n), Ok tt)
    | Err e => (mkDevice (db st) (S n), Err e)
    end
|}.
#[local] Existing Instance device_pins.

(** Rows carry their keys, and the ids still to be drawn are not taken. *)
Definition sound (st : Device) : Prop :=
  keyed (db st) /\ forall n, (drawn st <= n)%nat -> ents (db st) !! ids n = None.

(** ** Lists of decrypted rows *)

Abbreviation opens := (decrypt_rows (T := KnownHost) unseal b64_decode uuid_text).
Abbreviation opened := (decrypt_row (T := KnownHost) unseal b64_decode uuid_text).

Lemma opens_perm s l l' es : l ≡ₚ l' -> opens s l = Ok es -> exists es', opens s l' = Ok es' /\ es' ≡ₚ es.
Proof.
  intros P. revert es. induction P as [|r l l' _ IH|r1 r2 l|l1 l2 l3 _ IH1 _ IH2]; intros es.
  - intros [= <-]. by exists [].
  - cbn. destruct (opened s r) as [e|x].
    + destruct (opens s l) as [es0|] eqn:E; [|done]. intros [= <-]. destruct (IH _ eq_refl) as (es' & -> & P).
      exists (e :: es'). split; [done|]. by rewrite P.
    + destruct x; try done. apply IH.
  - cbn. destruct (opened s r1) as [e1|x1], (opened s r2) as [e2|x2]; cbn.
    + destruct (opens s l) as [es0|]; [|done]. intros [= <-]. eexists. split; [done|]. apply Permutation_swap.
    + destruct x2; try done; destruct (opens s l) as [es0|]; try done; intros [= <-]; by eexists.
    + destruct x1; try done; destruct (opens s l) as [es0|]; try done; intros [= <-]; by eexists.
    + destruct x1, x2; try done; intros ->; by eexists.
  - intros E. destruct (IH1 _ E) as (e2 & E2 & P2). destruct (IH2 _ E2) as (e3 & E3 & P3).
    exists e3. split; [done|]. by rewrite P3.
Qed.

Lemma opened_id s r e : opened s r = Ok e -> e_id e = id r.
Proof.
  unfold decrypt_row. intros (? & _ & E)%bind_ok. apply bind_ok in E as (? & _ & E).
  by apply bind_ok in E as (? & _ & [= <-]).
Qed.

Lemma opens_ids s l es e : opens s l = Ok es -> e ∈ es -> e_id e ∈ map id l.
Proof.
  revert es. induction l as [|r l IH]; intros es; cbn; [intros [= <-] He; by apply elem_of_nil in He|].
  destruct (opened s r) as [e0|x] eqn:Er.
  - destruct (opens s l) as [es0|]; [|done]. intros [= <-] [->|He]%elem_of_cons; [|right; by eapply IH].
    rewrite (opened_id _ _ _ Er). by left.
  - destruct x; try done. intros E He. right. by eapply IH.
Qed.

Lemma opens_nodup s l es : NoDup (map id l) -> opens s l = Ok es -> NoDup (map e_id es).
Proof.
  revert es. induction l as [|r l IH]; intros es; cbn; [intros _ [= <-]; constructor|]. intros [Hr Hn]%NoDup_cons.
  destruct (opened s r) as [e0|x] eqn:Er.
  - destruct (opens s l) as [es0|] eqn:E; [|done]. intros [= <-]. cbn. apply NoDup_cons. split; [|by apply IH].
    intros (e & Hid & He)%list_elem_of_fmap. apply Hr.
    rewrite <- (opened_id _ _ _ Er), Hid. by eapply opens_ids.
  - destruct x; try done. by apply IH.
Qed.

(** ** The rows of the list *)

Definition live_pin : EntityRow -> Prop := matches (mkFilter None (Some (KIND KnownHost)) false).

Definition map_rows (m : gmap uuid EntityRow) : list EntityRow := map snd (map_to_list m).

Lemma rows_perm s : rows s (mkFilter None (Some (KIND KnownHost)) false) ≡ₚ filter live_pin (map_rows (ents s)).
Proof. unfold rows, all_rows, map_rows. apply merge_sort_Permutation. Qed.

Lemma map_rows_insert m i r : m !! i = None -> map_rows (<[i := r]> m) ≡ₚ r :: map_rows m.
Proof. intros Hi. unfold map_rows. by rewrite map_to_list_insert. Qed.

Lemma map_rows_delete m i r : m !! i = Some r -> map_rows m ≡ₚ r :: map_rows (delete i m).
Proof. intros Hi. unfold map_rows. by rewrite <- (map_to_list_delete m i r Hi). Qed.

Lemma map_rows_ids m : (forall i r, m !! i = Some r -> id r = i) -> map id (map_rows m) = map fst (map_to_list m).
Proof.
  intros Hk. unfold map_rows. rewrite List.map_map. apply map_ext_in. intros [i r] Hi%list_elem_of_In.
  apply elem_of_map_to_list in Hi. by apply Hk.
Qed.

(** Reading the list out of rows in any order. *)
Lemma known_hosts_rows s es : known_hosts s = Ok es ->
  exists es', opens s (filter live_pin (map_rows (ents s))) = Ok es' /\ es' ≡ₚ es.
Proof. unfold known_hosts, list_of. apply opens_perm, rows_perm. Qed.

Lemma known_hosts_of s l es : filter live_pin (map_rows (ents s)) ≡ₚ l -> opens s l = Ok es ->
  exists es', known_hosts s = Ok es' /\ es' ≡ₚ es.
Proof. intros P. unfold known_hosts, list_of. apply opens_perm. by rewrite rows_perm. Qed.

Lemma opens_keys s f l : opens (with_ents s f) l = opens s l.
Proof. induction l as [|r l IH]; [done|]. cbn [decrypt_rows]. rewrite IH. reflexivity. Qed.

Lemma sound_nodup st l : sound st -> known_hosts (db st) = Ok l -> NoDup (map e_id l).
Proof.
  intros [Hk _] (es & Hes & P)%known_hosts_rows. rewrite <- P. eapply opens_nodup; [|exact Hes].
  eapply sublist_NoDup; [|apply sublist_map, sublist_filter].
  rewrite map_rows_ids by exact Hk. apply NoDup_fst_map_to_list.
Qed.

(** The entries of other rows than one that is gone. *)
Lemma opens_without s i r rest es : id r = i -> i ∉ map id rest ->
  opens s (r :: rest) = Ok es -> opens s rest = Ok (filter (fun e => e_id e <> i) es).
Proof.
  intros Hr Hi. cbn [decrypt_rows]. assert (forall es, opens s rest = Ok es -> filter (fun e => e_id e <> i) es = es) as Ha.
  { intros es' E. apply filter_all. intros e He Eid. apply Hi. rewrite <- Eid. by eapply opens_ids. }
  destruct (opened s r) as [e|x] eqn:Er.
  - destruct (opens s rest) as [es0|]; [|done]. intros [= <-].
    rewrite filter_cons_False by (rewrite (opened_id _ _ _ Er); by intros []). by rewrite Ha.
  - destruct x; try done. intros E. by rewrite E, Ha.
Qed.

(** ** The laws *)

Context (laws : cipher_laws seal unseal b64_encode b64_decode).
Context (json_roundtrip : forall x j, known_to_json x = Some j -> known_from_json j = Some x /\ valid_utf8 (as_bytes j) = true).
Context (ids_differ : forall n m, ids n = ids m -> n = m).
Context (nonces_ok : forall n, length (nonces n) = NONCE_LEN /\ all_bytes (nonces n)).

Lemma insert_lists s n v d s' i l : ents s !! ids n = None -> keyed s ->
  insert seal b64_encode uuid_text s (clock n) (nonces n) v (ids n) d = Ok (s', i) ->
  i = ids n /\ keyed s' /\ (forall j, j <> ids n -> ents s' !! j = ents s !! j) /\
  (known_hosts s = Ok l -> exists l' e, known_hosts s' = Ok l' /\
     e_id e = i /\ e_vault e = v /\ e_data e = d /\ l' ≡ₚ e :: l).
Proof.
  intros Hi Hk. unfold insert, put_with_id, put_raw.
  destruct (put_json _ _ _ _ _ _ _ _ _ _) as [s1|] eqn:Hp; [|done]. intros [= -> <-].
  apply put_json_ok in Hp as (key & lv & pt & ct & _ & Hkey & _ & Hpt & Hct & _ & ->). rewrite Hi.
  split_and!; [done| | |].
  - intros j r. cbn [ents with_ents]. destruct (decide (j = ids n)) as [->|Hj].
    + rewrite lookup_insert_eq. by intros [= <-].
    + rewrite lookup_insert_ne by done. apply Hk.
  - intros j Hj. cbn [ents with_ents]. by rewrite lookup_insert_ne.
  - intros (es & Hes & P)%known_hosts_rows.
    set (r := mkRow (ids n) (KIND KnownHost) v 0 0 false (lv_key_version lv) ct (clock n) (is_synced (lv_kind lv))).
    set (s' := with_ents s <[ids n:=r]>).
    assert (opened s' r = Ok (mkEntityOf (ids n) v 0 (clock n) (is_synced (lv_kind lv)) d)) as Ho.
    { destruct (nonces_ok n) as [Hn Hb]. exact (decrypt_written _ _ _ _ _ laws json_roundtrip s' key (nonces n) d pt r Hn Hb Hkey Hpt Hct). }
    assert (opens s' (r :: filter live_pin (map_rows (ents s))) =
      Ok (mkEntityOf (ids n) v 0 (clock n) (is_synced (lv_kind lv)) d :: es)) as Hos.
    { cbn [decrypt_rows]. rewrite Ho. unfold s'. by rewrite opens_keys, Hes. }
    destruct (known_hosts_of s' _ _ ltac:(cbn [ents s' with_ents]; rewrite map_rows_insert by done;
      rewrite filter_cons_True by (unfold live_pin, matches; cbn; auto); reflexivity) Hos) as (l' & Hl' & P').
    exists l'. eexists. split; [exact Hl'|]. split_and!; [..|rewrite P'; by rewrite P]; done.
Qed.

Lemma remove_lists s n i s' l : keyed s -> remove s (clock n) i = Ok s' ->
  keyed s' /\ (forall j, ents s !! j = None -> ents s' !! j = None) /\
  (known_hosts s = Ok l -> exists l', known_hosts s' = Ok l' /\ l' ≡ₚ filter (fun e => e_id e <> i) l).
Proof.
  intros Hk. unfold remove, row. destruct (ents s !! i) as [r|] eqn:Hr.
  2:{ intros [= <-]. split_and!; [done|done|]. intros Hl. exists l. split; [done|].
      apply known_hosts_rows in Hl as (es & Hes & P). rewrite filter_all; [done|]. intros e He Hi. rewrite <- P in He.
      apply (opens_ids _ _ _ _ Hes), list_elem_of_fmap in He as (r & Hid & [_ Hin]%list_elem_of_filter).
      unfold map_rows in Hin. apply list_elem_of_fmap in Hin as ([j r'] & Hsnd & Hj%elem_of_map_to_list).
      cbn in Hsnd. subst r'. rewrite (Hk _ _ Hj), Hi in Hid. congruence. }
  intros (lv & _ & H)%bind_ok.
  assert (exists f, s' = with_ents s f /\ keyed s' /\ (forall j, ents s !! j = None -> ents s' !! j = None) /\
    filter live_pin (map_rows (ents s')) ≡ₚ filter live_pin (map_rows (delete i (ents s)))) as (f & -> & Hk' & Hn & P').
  { assert (ents s = <[i := r]> (delete i (ents s))) as Em by (by rewrite insert_delete_id).
    destruct (is_synced (lv_kind lv) && (0 <? version r)%Z); injection H as <-;
      (eexists; split; [reflexivity|]); cbn [ents with_ents]; split_and!.
    - intros j r'. cbn [ents with_ents]. destruct (decide (j = i)) as [->|Hj].
      + rewrite lookup_insert_eq. intros [= <-]. cbn. by apply Hk.
      + rewrite lookup_insert_ne by done. apply Hk.
    - intros j Hj. rewrite lookup_insert_ne; [done|]. intros ->. congruence.
    - rewrite <- insert_delete_eq, map_rows_insert by apply lookup_delete_eq.
      rewrite filter_cons_False; [done|]. by intros (_ & _ & [?|?]).
    - intros j r'. cbn [ents with_ents]. intros [_ Hj]%lookup_delete_Some. by apply Hk.
    - intros j Hj. rewrite lookup_delete_None. by right.
    - done. }
  split_and!; [done|done|]. intros (es & Hes & P)%known_hosts_rows.
  pose proof (map_rows_delete _ _ _ Hr) as Pm.
  assert (exists es1, opens s (filter live_pin (map_rows (delete i (ents s)))) = Ok es1 /\
    es1 ≡ₚ filter (fun e => e_id e <> i) l) as (es1 & Hes1 & P1).
  { assert (i ∉ map id (filter live_pin (map_rows (delete i (ents s))))) as Hni.
    { intros (r' & Hid & [_ Hin]%list_elem_of_filter)%list_elem_of_fmap. unfold map_rows in Hin.
      apply list_elem_of_fmap in Hin as ([j r''] & Hsnd & Hj%elem_of_map_to_list). cbn in Hsnd. subst r''.
      apply lookup_delete_Some in Hj as [Hij Hj]. apply Hij. by rewrite Hid, (Hk _ _ Hj). }
    apply (filter_Permutation live_pin) in Pm. destruct (opens_perm _ _ _ _ Pm Hes) as (es2 & Hes2 & P2).
    rewrite filter_cons in Hes2. destruct (decide (live_pin r)).
    - apply (opens_without s i r) in Hes2; [|by apply Hk|done]. eexists. split; [exact Hes2|]. by rewrite P2, P.
    - eexists. split; [exact Hes2|]. rewrite <- P, <- P2. rewrite filter_all; [done|].
      intros e He Hi. pose proof (opens_ids _ _ _ _ Hes2 He) as Hx. by rewrite Hi in Hx. }
  apply known_hosts_of with (es := es1) in P' as (l' & Hl' & Q); [|by rewrite opens_keys].
  exists l'. split; [done|]. by rewrite Q.
Qed.

(** The database fulfils what [HostKeys] asks of it. *)
Lemma device_laws : PinLaws Device sound.
Proof.
  split.
  - intros [s n] v d s' r [Hk Hf]. cbn [insert_pin device_pins db drawn].
    destruct (insert _ _ _ _ _ _ _ _ _) as [[s1 i]|x] eqn:Hi; intros [= <- <-].
    + pose proof (fun l => insert_lists s n v d s1 i l (Hf n (le_n _)) Hk Hi) as Hl. split.
      * destruct (Hl []) as (-> & Hk1 & Hsame & _). split; [done|]. cbn. intros m Hm. rewrite Hsame.
        -- apply Hf. cbn. lia.
        -- intros E%ids_differ. lia.
      * intros l Hls. destruct (Hl l) as (_ & _ & _ & Hp). destruct (Hp Hls) as (l' & e & Hl' & ? & ? & ? & P).
        exists l'. split; [done|]. by exists e.
    + split; [|intros l Hl; by exists l]. split; [done|]. cbn. intros m Hm. apply Hf. cbn. lia.
  - intros [s n] i s' r [Hk Hf]. cbn [delete_pin device_pins db drawn].
    destruct (remove _ _ _) as [s1|x] eqn:Hr; intros [= <- <-].
    + pose proof (fun l => remove_lists s n i s1 l Hk Hr) as Hl. split.
      * destruct (Hl []) as (Hk1 & Hn & _). split; [done|]. cbn. intros m Hm. apply Hn, Hf. cbn. lia.
      * intros l Hls. destruct (Hl l) as (_ & _ & Hp). by apply Hp.
    + split; [|intros l Hl; by exists l]. split; [done|]. cbn. intros m Hm. apply Hf. cbn. lia.
  - intros st l Hs Hl. by eapply sound_nodup.
Qed.
End Device.
