(* ===== verification/HostKeySafety.v ===== *)
(** * Server host keys are trusted by decision

    The theorems on [HostKeys]: what a vault pins cannot be overridden from
    another, what trusting and forgetting do, when a connection goes on, and
    what [known_hosts] files do. They hold for any database with the laws of
    [PinLaws]; the examples run on the device's own ([PinStore]). *)
From S2P Require Import Prelude Text Envelope SyncTypes.
From S2P Require Import VaultAccess ClientStore HostKeys PinStore.

#[local] Open Scope string_scope.
#[local] Open Scope list_scope.

Section Safety.
Context {PublicKey : Type} `{PublicKeys PublicKey}.
Context {S : Type} `{Pins S} {good : S -> Prop} (laws : PinLaws S good).

(** C10: A pin cannot be overridden from another vault. Say a vault holds a pin
    of a host with another key than the one a server presents, of the same
    type. Whatever is then trusted, forgotten, imported or decided at prompts
    for other vaults, in any order and number, checking the presented key
    reports it as changed; and a connection with the strict or the fixed
    prompt, whatever its decision, is refused and changes nothing. *)
Theorem foreign_pin_prevails qs s l e v host port (k : PublicKey) d :
  good s -> pins s = Ok l -> e ∈ l -> pins_for host port (algorithm k) e -> ~ holds k e ->
  (forall q, q ∈ qs -> saves_into q <> e_vault e) ->
  let s' := foldl serve s qs in
  (exists old, check host port k s' = (s', Ok (Changed old (info host port k)))) /\
  check_server_key v StrictPrompt host port k s' = (s', Err (HostKeyRejected (host_id host port))) /\
  check_server_key v (FixedPrompt d) host port k s' = (s', Err (HostKeyRejected (host_id host port))).
Proof.
  intros Hg Hl He Hp Hk Hq s'. destruct (serve_all_keeps laws qs s l e Hg Hl He Hq) as (l' & _ & Hl' & He').
  assert (exists old, check host port k s' = (s', Ok (Changed old (info host port k)))) as [old Hc].
  { destruct (check_run host port k s' l' Hl') as (verdict & Hc & Hv). destruct verdict.
    - destruct Hv as [_ Hv]. by destruct Hk; apply Hv.
    - destruct Hv as [_ Hv]. by destruct (Hv e He').
    - destruct Hv as [-> _]. by eexists. }
  split; [by exists old|]. unfold check_server_key, mbind, d_bind. by rewrite Hc.
Qed.

Context (klaws : key_laws PublicKey).

(** What [trust] and [forget] do. After a successful [trust] the vault has
    exactly one pin of that host and type of key, for this key; every pin of
    another vault, host or type is untouched; and the key is then known exactly
    if no other vault pins that host with another key of the type. A
    successful [forget] removes exactly the vault's pins of the host, of every
    type, and says how many they were. *)
Theorem trust_and_forget_are_exact v host port (k : PublicKey) s l :
  good s -> pins s = Ok l ->
  (forall s' i, trust v host port k s = (s', Ok i) -> exists l' e, pins s' = Ok l' /\
     e_id e = i /\ e_vault e = v /\ e_data e = pin_of (info host port k) /\
     l' ≡ₚ e :: filter (fun e => ~ replaced v host port (algorithm k) e) l /\
     (check host port k s' = (s', Ok Known) <->
      forall e, e ∈ l -> e_vault e <> v -> pins_for host port (algorithm k) e -> holds k e)) /\
  (forall s' n, forget v host port s = (s', Ok n) -> exists l', pins s' = Ok l' /\
     let gone e := e_vault e = v /\ eq_ignore_ascii_case (hostname (e_data e)) (host_id host port) = true in
     n = length (filter gone l) /\ l' ≡ₚ filter (fun e => ~ gone e) l).
Proof.
  intros Hg Hl. split.
  - intros s' i Ht. destruct (trust_run laws _ _ _ _ _ _ _ _ Hg Hl Ht) as (_ & l' & Hl' & _ & Hi).
    destruct (Hi i eq_refl) as (e & Hid & Hv & Hd & P). exists l', e. split_and!; try done.
    destruct (pin_of_pins_for klaws _ _ _ _ Hd) as [Hp Hh]. rewrite (check_known _ _ _ _ _ Hl').
    setoid_rewrite P. setoid_rewrite elem_of_cons. setoid_rewrite list_elem_of_filter. unfold replaced. split.
    + intros [_ Ha] e' He' Hv' Hp'. apply Ha; [right; tauto|done].
    + intros Ha. split; [by exists e; eauto|]. intros e' [->|[Hn He']] Hp'; [done|]. apply Ha; tauto.
  - intros s' n Hf. destruct (forget_run laws _ _ _ _ _ _ _ Hg Hl Hf) as (_ & l' & Hl' & _ & Hn). exists l'.
    split; [done|]. by apply Hn.
Qed.

(** C11: A connection only goes on with a trusted key. If [check_server_key]
    lets it go on, then either some vault pins exactly the bytes of the
    presented key for that host, no pin contradicts them and nothing changes; or the user was
    asked, being told that the key is unknown, in which case no pin of its type
    exists, or that it differs from a certain pin; and accepted it, for once,
    in which case nothing changes, or for good, in which case the vault now
    pins it. *)
Theorem connection_needs_trust v prompt host port (k : PublicKey) b s l s' ok :
  to_bytes k = Some b -> good s -> pins s = Ok l -> check_server_key v prompt host port k s = (s', Ok ok) ->
  ok = true /\
  ((s' = s /\ (forall e, e ∈ l -> pins_for host port (algorithm k) e -> holds k e) /\
    exists e, e ∈ l /\ pins_for host port (algorithm k) e /\ unb64 (trim (public_key (e_data e))) = Some b) \/
   exists verdict,
     (verdict = Unknown (info host port k) /\ (forall e, e ∈ l -> ~ pins_for host port (algorithm k) e) \/
      exists e, verdict = Changed (seen e) (info host port k) /\ e ∈ l /\ pins_for host port (algorithm k) e /\ ~ holds k e) /\
     (prompt verdict = AcceptOnce /\ s' = s \/
      prompt verdict = AcceptAndSave /\ exists l' e, pins s' = Ok l' /\ e_vault e = v /\
        e_data e = pin_of (info host port k) /\ l' ≡ₚ e :: filter (fun e => ~ replaced v host port (algorithm k) e) l)).
Proof.
  intros Hb Hg Hl. unfold check_server_key, mbind at 1, d_bind at 1.
  destruct (check_run host port k s l Hl) as (verdict & -> & Hv). case_bool_decide as Hk.
  - subst verdict. intros [= <- <-]. split; [done|]. left. destruct Hv as [(e & He & Hp) Ha]. split_and!; [done|done|].
    exists e. split_and!; [done|done|]. rewrite (Ha e He Hp). unfold key_b64. rewrite Hb. cbn [default].
    apply (kl_unb64 _ klaws), (kl_bytes _ klaws _ _ Hb).
  - assert (verdict = Unknown (info host port k) /\ (forall e, e ∈ l -> ~ pins_for host port (algorithm k) e) \/
      exists e, verdict = Changed (seen e) (info host port k) /\ e ∈ l /\ pins_for host port (algorithm k) e /\
        ~ holds k e) as Hw.
    { destruct verdict; [done|left; destruct Hv as [-> ?]; done|right]. destruct Hv as (-> & e & ? & ? & ? & ->). by exists e. }
    destruct (prompt verdict) eqn:Hd; [done|intros [= <- <-]; split; [done|]; right; exists verdict; split; [done|by left]|].
    intros [(s1 & i & Ht & [= -> <-])|(x & _ & [=])]%d_bind_inv. split; [done|]. right. exists verdict. split; [done|]. right.
    split; [done|]. destruct (trust_run laws _ _ _ _ _ _ _ _ Hg Hl Ht) as (_ & l' & Hl' & _ & Hi).
    destruct (Hi i eq_refl) as (e & _ & Hv' & Hd' & P). by exists l', e.
Qed.

(** Importing overrides a pin without asking. Whatever key a vault pins for
    a host, when no other vault pins that host with the type: the presented
    key is reported as changed before, and importing one line of a file for it
    replaces the pin and makes it known. *)
Theorem import_replaces_a_pin v host port (k : PublicKey) b s l e s' n :
  plain host -> 0 <= port <= 65535 -> to_bytes k = Some b -> good s -> pins s = Ok l ->
  e ∈ l -> pins_for host port (algorithm k) e -> ~ holds k e ->
  (forall e, e ∈ l -> pins_for host port (algorithm k) e -> e_vault e = v) ->
  import_openssh (PublicKey := PublicKey) v (export_line (pin_of (info host port k))) s = (s', Ok n) ->
  (exists old, check host port k s = (s, Ok (Changed old (info host port k)))) /\
  n = 1%nat /\ check host port k s' = (s', Ok Known) /\
  exists l', pins s' = Ok l' /\ e ∉ l'.
Proof.
  intros Hp Hr Hb Hg Hl He Hpe Hne Hown.
  assert (forall k', algorithm k' = algorithm k -> key_b64 k' = key_b64 k -> info host port k' = info host port k ->
    exists old, check host port k' s = (s, Ok (Changed old (info host port k)))) as Hchanged.
  { intros k' Ha Hk Hi. destruct (check_run host port k' s l Hl) as (verdict & -> & Hv).
    destruct (pins_for_info host port k k' Ha Hk) as [Ep Eh]. destruct verdict.
    - destruct Hv as [_ Hv]. destruct Hne. by apply Eh, Hv, Ep.
    - destruct Hv as [_ Hv]. destruct (Hv e He). rewrite Ha. by apply Ep; rewrite Ha.
    - destruct Hv as [-> _]. rewrite Hi. by eexists. }
  intros Himp. split; [by apply Hchanged|]. unfold import_openssh in Himp.
  destruct (import_line klaws v host port k b "" 0%nat s Hp Hr Hb) as (k' & Ha & Hk & Hi & E).
  assert (forall t, t +:+ "" = t) as Happ by (intros t; apply as_bytes_inj; by rewrite as_bytes_app, app_nil_r).
  rewrite Happ in E. rewrite E in Himp. clear E.
  apply d_bind_inv in Himp as [(s1 & n' & Hm & [= -> ->])|(x & _ & [=])].
  destruct (Hchanged k' Ha Hk Hi) as [old Hc]. unfold mbind at 1, d_bind at 1 in Hm. rewrite Hc in Hm.
  rewrite bool_decide_eq_false_2 in Hm by done.
  apply d_bind_inv in Hm as [(s2 & i & Ht & [= -> <-])|(x & _ & [=])]. split; [done|].
  destruct (trust_run laws _ _ _ _ _ _ _ _ Hg Hl Ht) as (_ & l' & Hl' & _ & Hn).
  destruct (Hn i eq_refl) as (e' & _ & Hv' & Hd & P). rewrite Hi in Hd.
  destruct (pin_of_pins_for klaws host port k e' Hd) as [Hpe' Hhe'].
  assert (forall x, x ∈ l' -> pins_for host port (algorithm k) x -> holds k x) as Hall.
  { intros x. rewrite P, elem_of_cons, list_elem_of_filter. intros [->|[Hnr Hx]] Hpx; [done|]. destruct Hnr.
    split; [by apply Hown|by rewrite Ha]. }
  split; [|exists l'; split; [done|intros Hel; by apply Hne, Hall]].
  apply (check_known _ _ _ _ _ Hl'). split; [|done]. exists e'. split; [|done]. rewrite P. by left.
Qed.

(** What is exported imports. Take the [known_hosts] file exported from
    pins written by [trust], no two of which contradict each other, and import
    it into a database without pins: if nothing fails on the way, it then
    holds, in the vault imported into, exactly the same pins, and as many as
    the import says. *)
Theorem export_then_import v l s s' n :
  Forall (fun e => exportable (PublicKey := PublicKey) (e_data e)) l -> agreeing l -> good s -> pins s = Ok [] ->
  import_openssh (PublicKey := PublicKey) v (export_lines l) s = (s', Ok n) ->
  exists l', pins s' = Ok l' /\ n = length l' /\ (forall d, d ∈ map e_data l' <-> d ∈ map e_data l) /\
    forall e, e ∈ l' -> e_vault e = v.
Proof.
  intros Hx Hag Hg Hl. unfold import_openssh.
  enough (forall todo done s lt n, l = done ++ todo -> good s -> pins s = Ok lt ->
    (forall d, d ∈ map e_data lt <-> d ∈ map e_data done) -> n = length lt -> (forall e, e ∈ lt -> e_vault e = v) ->
    forall s' n', import_lines (PublicKey := PublicKey) v (lines (as_bytes (export_lines todo))) n s = (s', Ok n') ->
    exists l', pins s' = Ok l' /\ n' = length l' /\ (forall d, d ∈ map e_data l' <-> d ∈ map e_data l) /\
      forall e, e ∈ l' -> e_vault e = v) as Hloop.
  { intros Himp. eapply (Hloop l [] s []); try done. by intros e ?%not_elem_of_nil. }
  clear s Hg Hl s' n. induction todo as [|e todo IH]; intros done s lt n -> Hg Hl Hd Hn Hv s' n'.
  - intros [= <- <-]. rewrite app_nil_r. by exists lt.
  - cbn [export_lines]. apply Forall_app in Hx as Hxx. destruct Hxx as [Hxd [He _]%Forall_cons].
    destruct He as (host & port & k & b & Hp & Hr & Hb & Ed). rewrite Ed.
    destruct (import_line klaws v host port k b (export_lines todo) n s Hp Hr Hb) as (k' & Ha & Hk & Hi & ->).
    intros [(s1 & n1 & Hone & Hrest)|(x & _ & [=])]%d_bind_inv.
    assert (forall e', e' ∈ lt -> exportable (e_data e') /\ (hostname (e_data e') = host_id host port ->
       key_type (e_data e') = algorithm k -> e_data e' = pin_of (info host port k))) as Hlt.
    { intros e' He'. assert (e_data e' ∈ map e_data done) as Hm by (apply Hd, list_elem_of_fmap; by exists e').
      apply list_elem_of_fmap in Hm as (e2 & E2 & He2). rewrite E2. split.
      - by apply (proj1 (Forall_forall _ _) Hxd).
      - intros H1 H2. rewrite <- Ed. apply Hag; rewrite ?Ed; [apply elem_of_app; by left|
          apply elem_of_app; right; by left|done|done]. }
    destruct (import_exported klaws laws v host port k k' b s lt n Hp Hr Hb Hg Hl Hlt Ha Hk Hi s1 n1 Hone)
      as (Hg1 & l1 & Hl1 & Hlen & Hd1 & Hv1).
    eapply (IH (done ++ [e]) s1 l1); [by rewrite <- app_assoc|done|done| | | |exact Hrest].
    + intros d. rewrite Hd1, Hd, map_app, elem_of_app. cbn [map]. by rewrite list_elem_of_singleton, Ed.
    + lia.
    + intros e' He'. destruct (Hv1 e' He'); [by apply Hv|done].
Qed.
End Safety.

(** ** Examples

    Two keys, and the device's database with a local vault and a team's. The
    payload of a pin is a number for each of the pins used. *)
Inductive ToyKey := K1 | K2.
Definition ex_bytes (k : ToyKey) : bytes := match k with K1 => [1; 2] | K2 => [3; 4] end.
#[local] Instance ex_keys : PublicKeys ToyKey := {|
  algorithm := fun _ => "ssh-ed25519";
  to_bytes := fun k => Some (ex_bytes k);
  from_bytes := fun b => if decide (b = ex_bytes K1) then Some K1 else if decide (b = ex_bytes K2) then Some K2 else None;
  key_fingerprint := fun k => match k with K1 => "SHA256:one" | K2 => "SHA256:two" end;
  b64 := toy_b64;
  unb64 := toy_unb64
|}.

Lemma ex_key_laws : key_laws ToyKey.
Proof.
  split.
  - intros k b [= <-]. destruct k; (split; [by repeat constructor|]); (split; [done|]); by eexists.
  - intros k. split; [|done]. apply Forall_forall. intros x Hx. vm_compute in Hx. unfold graphic. set_solver by lia.
  - apply (cl_b64 _ _ _ _ toy_laws).
  - intros b Hb. split; [by apply (cl_graphic _ _ _ _ toy_laws)|]. by destruct b.
Qed.

Definition ex_pin1 : KnownHost := pin_of (info "db.internal" 22 K1).
Definition ex_pin2 : KnownHost := pin_of (info "db.internal" 22 K2).
Definition ex_pin3 : KnownHost := pin_of (info "git.example" 2222 K1).
Definition ex_to_json (d : KnownHost) : option string :=
  if decide (d = ex_pin1) then Some "1" else if decide (d = ex_pin2) then Some "2"
  else if decide (d = ex_pin3) then Some "3" else None.
Definition ex_from_json (j : string) : option KnownHost :=
  if decide (j = "1") then Some ex_pin1 else if decide (j = "2") then Some ex_pin2
  else if decide (j = "3") then Some ex_pin3 else None.

Lemma ex_json_roundtrip x j : ex_to_json x = Some j -> ex_from_json j = Some x /\ valid_utf8 (as_bytes j) = true.
Proof. unfold ex_to_json. repeat (case_decide; [intros [= <-]; subst x; by split|]). done. Qed.

Definition ex_ids (n : nat) : uuid := (100 + N.of_nat n)%N.
#[local] Instance ex_device : Pins Device :=
  device_pins toy_seal0 toy_unseal0 toy_b64 toy_unb64 (fun _ => "id") ex_to_json ex_from_json
    ex_ids (fun _ => replicate NONCE_LEN 0) Z.of_nat.

Lemma ex_laws : PinLaws Device (sound ex_ids).
Proof.
  apply device_laws; [apply toy_laws|apply ex_json_roundtrip|unfold ex_ids; lia|].
  intros n. split; [done|]. by repeat constructor.
Qed.

(** Vault 1 is local, vault 7 a team's. *)
Definition ex_empty : Device :=
  mkDevice (mkStore [] {[1%N := mkVaultRow Local "Local" None Manager None 1 0 false 0 false; 7%N := ClientStore.ex_vault Editor]}
    {[1%N := [5]; 7%N := [6]]} ∅) 0.
Lemma ex_sound_empty : sound ex_ids ex_empty.
Proof. split; [by intros i r|done]. Qed.

(** The administrator pinned [K1] in the team's vault. *)
Definition ex_pinned : Device := fst (trust 7 "db.internal" 22 K1 ex_empty).
Lemma ex_sound_pinned : sound ex_ids ex_pinned.
Proof. eapply (trust_run ex_laws 7 "db.internal" 22 K1 ex_empty []); [apply ex_sound_empty|reflexivity|apply surjective_pairing]. Qed.

Lemma ex_plain : plain "db.internal" /\ plain "git.example".
Proof. split; apply (bool_decide_unpack _); by vm_compute. Qed.

(** A member trusts another key locally, imports it from a file, forgets and
    accepts it at a prompt. *)
Lemma foreign_pin_prevails_witness :
  let file := export_line ex_pin2 in
  let s' := foldl serve ex_pinned
    [Trusts 1 "DB.internal " 22 K2; Imports 1 file; Forgets 1 "db.internal" 22;
     Connects 1 (FixedPrompt AcceptAndSave) "db.internal" 22 K2] in
  check_server_key 1 (FixedPrompt AcceptAndSave) "db.internal" 22 K2 s' = (s', Err (HostKeyRejected "db.internal")).
Proof.
  cbv zeta. edestruct (foreign_pin_prevails ex_laws
    [Trusts 1 "DB.internal " 22 K2; Imports 1 (export_line ex_pin2); Forgets 1 "db.internal" 22;
     Connects 1 (FixedPrompt AcceptAndSave) "db.internal" 22 K2] ex_pinned _ _ 1 "db.internal" 22 K2 AcceptAndSave
    ex_sound_pinned eq_refl (list_elem_of_here _ _)) as (_ & _ & Hf).
  - split; reflexivity.
  - by vm_compute.
  - intros q Hq. repeat (apply elem_of_cons in Hq as [->|Hq]; [done|]). by apply elem_of_nil in Hq.
  - exact Hf.
Defined.

Lemma trust_and_forget_are_exact_witness :
  snd (trust 1 "db.internal" 22 K1 ex_pinned) = Ok 101%N /\
  let s' := fst (trust 1 "db.internal" 22 K1 ex_pinned) in check "db.internal" 22 K1 s' = (s', Ok Known).
Proof.
  split; [by vm_compute|]. destruct (pins ex_pinned) as [l|] eqn:Hl; [|by vm_compute in Hl].
  destruct (trust_and_forget_are_exact ex_laws ex_key_laws 1 "db.internal" 22 K1 ex_pinned l ex_sound_pinned Hl) as [Ht _].
  destruct (Ht (fst (trust 1 "db.internal" 22 K1 ex_pinned)) 101%N ltac:(by vm_compute)) as (_ & _ & _ & _ & _ & _ & _ & Hc).
  apply Hc. intros e He _ _. vm_compute in Hl. injection Hl as <-.
  apply list_elem_of_singleton in He as ->. by vm_compute.
Defined.

Lemma connection_needs_trust_witness :
  let '(s', r) := check_server_key 1 (FixedPrompt AcceptAndSave) "git.example" 2222 K1 ex_pinned in
  r = Ok true /\ exists l' e, pins s' = Ok l' /\ e ∈ l' /\ e_vault e = 1%N /\ e_data e = ex_pin3.
Proof.
  destruct (check_server_key 1 (FixedPrompt AcceptAndSave) "git.example" 2222 K1 ex_pinned) as [s' r] eqn:Hc.
  assert (r = Ok true) as -> by (vm_compute in Hc; congruence). split; [done|].
  destruct (pins ex_pinned) as [l|] eqn:Hl; [|by vm_compute in Hl].
  destruct (connection_needs_trust ex_laws ex_key_laws 1 (FixedPrompt AcceptAndSave) "git.example" 2222 K1 (ex_bytes K1)
    ex_pinned l s' true eq_refl ex_sound_pinned Hl Hc) as [_ [(_ & _ & e & He & [Hp _] & _)|(verdict & Hv & [[Ho _]|H])]].
  - exfalso. vm_compute in Hl. injection Hl as <-. apply list_elem_of_singleton in He as ->. by vm_compute in Hp.
  - exfalso. by destruct Hv as [[-> _]|(e & -> & _)].
  - destruct H as (_ & l' & e & Hl' & Hve & Hd & P). exists l', e. split_and!; try done. rewrite P. by left.
Defined.

Lemma import_replaces_a_pin_witness :
  let '(s', r) := import_openssh (PublicKey := ToyKey) 7 (export_line ex_pin2) ex_pinned in
  r = Ok 1%nat /\ check "db.internal" 22 K2 s' = (s', Ok Known).
Proof.
  destruct (import_openssh (PublicKey := ToyKey) 7 (export_line ex_pin2) ex_pinned) as [s' r] eqn:Hi.
  assert (r = Ok 1%nat) as -> by (vm_compute in Hi; congruence). split; [done|].
  edestruct (import_replaces_a_pin ex_laws ex_key_laws 7 "db.internal" 22 K2 (ex_bytes K2) ex_pinned _ _ s' 1%nat
    (proj1 ex_plain) ltac:(lia) eq_refl ex_sound_pinned eq_refl (list_elem_of_here _ _)) as (_ & _ & Hc & _).
  - by split.
  - by vm_compute.
  - intros e He _. by apply list_elem_of_singleton in He as ->.
  - exact Hi.
  - exact Hc.
Defined.

(** Two vaults pin the same key of one host, a third pin is of another port. *)
Definition ex_exported : list (Entity KnownHost) :=
  [mkEntityOf 1%N 1%N 0 0 false ex_pin1; mkEntityOf 2%N 7%N 0 0 false ex_pin1; mkEntityOf 3%N 7%N 0 0 false ex_pin3].

Lemma export_then_import_witness :
  let '(s', r) := import_openssh (PublicKey := ToyKey) 1 (export_lines ex_exported) ex_empty in
  r = Ok 2%nat /\ exists l', pins s' = Ok l' /\ length l' = 2%nat /\ ex_pin3 ∈ map e_data l'.
Proof.
  destruct (import_openssh (PublicKey := ToyKey) 1 (export_lines ex_exported) ex_empty) as [s' r] eqn:Hi.
  assert (r = Ok 2%nat) as -> by (vm_compute in Hi; congruence). split; [done|].
  edestruct (export_then_import ex_laws ex_key_laws 1 ex_exported ex_empty s' 2%nat) as (l' & Hl' & Hn & Hd & _);
    [| |apply ex_sound_empty|reflexivity|exact Hi|].
  - repeat constructor; [exists "db.internal", 22, K1|exists "db.internal", 22, K1|exists "git.example", 2222, K1];
      eexists; (split; [apply ex_plain|]); (split; [lia|]); by split.
  - intros e1 e2 H1 H2 Hh _. repeat (apply elem_of_cons in H1 as [->|H1]); [..|by apply elem_of_nil in H1];
      repeat (apply elem_of_cons in H2 as [->|H2]); try (by apply elem_of_nil in H2); done || by vm_compute in Hh.
  - exists l'. split_and!; [done|done|]. apply Hd. by repeat constructor.
Defined.
