(* ===== verification/Zmodem.v ===== *)
(** * ZMODEM inside a terminal

    [apps/desktop/src-tauri/src/zmodem.rs]: finding a transfer's opening header
    in the output of a terminal however it is cut into chunks, the slot of a
    session (idle, offered to the user, running), and the names of received
    files. The transfer itself is the [zmodem2] library: a task here is the
    queue of output it is fed and the fact that it ended. *)
From stdpp Require Import pretty.
From S2P Require Import Prelude Text.

#[local] Open Scope string_scope.
#[local] Open Scope list_scope.

Inductive Kind := Receive | Send.
#[export] Instance Kind_eq_dec : EqDecision Kind.
Proof. solve_decision. Defined.

(** ** Finding the header *)

Definition ZRQINIT : bytes := [24; 66; 48; 48].
Definition ZRINIT : bytes := [24; 66; 48; 49].
Definition OFFER_BUFFER_CAP : Z := 64 * 1024.

(** [data.windows(needle.len()).position(|w| w == needle)]. *)
Fixpoint position (needle l : bytes) : option nat :=
  if decide (take (length needle) l = needle) then Some 0%nat
  else match l with [] => None | _ :: l' => S <$> position needle l' end.

(** [**] precedes the header; everything before it is shown. *)
Definition header_start (data : bytes) (i : nat) : nat :=
  if ((2 <=? i)%nat && bool_decide (take 2 (drop (i - 2) data) = [42; 42])) then (i - 2)%nat else i.

Definition find_header (data : bytes) : option (nat * Kind) :=
  let rq := (fun i => (i, Receive)) <$> position ZRQINIT data in
  let ri := (fun i => (i, Send)) <$> position ZRINIT data in
  '(i, kind) ← match rq, ri with
               | Some a, Some b => Some (if (fst a <=? fst b)%nat then a else b)
               | Some a, None => Some a
               | None, r => r
               end;
  Some (header_start data i, kind).

(** ** The slot of a session *)

(** The wire of a running transfer leads to its task, a position in the list. *)
Inductive State := Idle (tail : bytes) | Offered (kind : Kind) (held : bytes) | Running (task : nat).

(** [receiving] until the task returns, which drops its end of the wire. *)
Record Task := mkTask { queue : list bytes; receiving : bool; cancelled : bool }.

Inductive Event := Announce (kind : Kind) | Done (ok : bool) (files : nat) (error : option string).

Record Session := mkSession { slot : State; tasks : list Task; events : list Event; typed : list bytes }.
Definition with_slot (st : State) (s : Session) : Session := mkSession st (tasks s) (events s) (typed s).
Definition emit (e : Event) (s : Session) : Session := mkSession (slot s) (tasks s) (events s ++ [e]) (typed s).
Definition write (b : bytes) (s : Session) : Session := mkSession (slot s) (tasks s) (events s) (typed s ++ [b]).
Definition alter_task (f : Task -> Task) (t : nat) (s : Session) : Session :=
  mkSession (slot s) (alter f t (tasks s)) (events s) (typed s).

Definition fresh : Session := mkSession (Idle []) [] [] [].

Definition receives (s : Session) (t : nat) : bool :=
  match tasks s !! t with Some k => receiving k | None => false end.
Definition wire_send (t : nat) (b : bytes) : Session -> Session :=
  alter_task (fun k => mkTask (queue k ++ [b]) (receiving k) (cancelled k)) t.
Definition cancel_token (t : nat) : Session -> Session :=
  alter_task (fun k => mkTask (queue k) (receiving k) true) t.

Definition shutdown (s : Session) : Session :=
  with_slot (Idle []) match slot s with Running t => cancel_token t s | _ => s end.

(** The last bytes kept of what was probed. *)
Definition keep_tail (probe : bytes) : bytes :=
  drop (length probe - Nat.min (length probe) (length ZRQINIT + 1)) probe.

(** [filter]: what the screen sees of a chunk. *)
Definition filter_chunk (bs : bytes) (s : Session) : Session * option bytes :=
  match slot s with
  | Running t => (if receives s t then wire_send t bs s else with_slot (Idle []) s, None)
  | Offered kind held =>
      (if (Z.of_nat (length held) <? OFFER_BUFFER_CAP)%Z then with_slot (Offered kind (held ++ bs)) s else s, None)
  | Idle tail =>
      let probe := tail ++ bs in
      match find_header probe with
      | Some (start, kind) =>
          (emit (Announce kind) (with_slot (Offered kind (drop start probe)) s),
           Some (take (start - length tail) bs))
      | None => (with_slot (Idle (keep_tail probe)) s, Some bs)
      end
  end.

(** ** Commands *)

Definition begin (kind : Kind) (s : Session) : result string (Session * nat) :=
  match slot s with
  | Offered k held =>
      if decide (k = kind) then
        let t := length (tasks s) in
        let q := match held with [] => [] | _ => [held] end in
        Ok (mkSession (Running t) (tasks s ++ [mkTask q true false]) (events s) (typed s), t)
      else Err "the remote asked for the other direction"
  | Running _ => Err "a transfer is already running"
  | Idle _ => Err "no ZMODEM request pending"
  end.

Definition receive (is_dir : bool) (s : Session) : result string (Session * nat) :=
  if is_dir then begin Receive s else Err "not a folder".

(** Each path with whether it is a file. *)
Definition send (paths : list bool) (s : Session) : result string (Session * nat) :=
  match paths with
  | [] => Err "no files to send"
  | _ => if forallb id paths then begin Send s else Err "not a file"
  end.

Definition abort_sequence : bytes := replicate 8 24 ++ replicate 8 8.

Definition cancel (s : Session) : Session :=
  let prev := slot s in
  let s := with_slot (Idle []) s in
  match prev with
  | Running t => cancel_token t s
  | Offered _ _ => emit (Done false 0 (Some "cancelled")) (write abort_sequence s)
  | Idle _ => s
  end.

(** What a task's [rx.recv] gives: a chunk, the end when the slot no longer
    holds its wire, or nothing yet. *)
Inductive Recv := Chunk (b : bytes) | Closed | Pending.
Definition recv (t : nat) (s : Session) : Session * Recv :=
  match tasks s !! t with
  | Some (mkTask (b :: q) r c) => (alter_task (fun _ => mkTask q r c) t s, Chunk b)
  | _ => (s, match slot s with Running t' => if decide (t' = t) then Pending else Closed | _ => Closed end)
  end.

(** The task returns, and then calls [finish]. *)
Definition returns (t : nat) : Session -> Session :=
  alter_task (fun k => mkTask (queue k) false (cancelled k)) t.
Definition finish (res : result string nat) (s : Session) : Session :=
  emit (match res with Ok n => Done true n None | Err e => Done false 0 (Some e) end) (with_slot (Idle []) s).

(** ** Names of received files *)

Definition is_control (c : bytes) : bool :=
  match c with
  | [b] => ((b <? 32) || (b =? 127))%Z
  | [194; b] => ((128 <=? b) && (b <=? 159))%Z
  | _ => false
  end.

Definition clean_char (c : bytes) : bytes :=
  if is_control c || bool_decide (c ∈ [[58]; [42]; [63]; [34]; [60]; [62]; [124]]) then [95] else c.

Definition receive_name (raw : bytes) : string :=
  let s := as_bytes (from_utf8_lossy raw) in
  let base := match rsplit_once_any [47; 92] s with Some (_, y) => y | None => s end in
  let cleaned := of_bytes (concat (map clean_char (chars base))) in
  let trimmed := trim_matches [46] (trim cleaned) in
  if bool_decide (trimmed = "") then "file" else of_bytes (concat (take 200 (chars (as_bytes trimmed)))).

(** [taken] are the names that exist in the folder; [uuid] the random one. *)
Fixpoint first_free (taken : string -> bool) (stem ext : string) (n : Z) (count : nat) : option string :=
  match count with
  | O => None
  | S count' =>
      let p := stem +:+ " (" +:+ pretty n +:+ ")" +:+ ext in
      if negb (taken p) then Some p else first_free taken stem ext (n + 1) count'
  end.

Definition unique_path (taken : string -> bool) (uuid name : string) : string :=
  if negb (taken name) then name
  else
    let '(stem, ext) :=
      match rsplit_once_any [46] (as_bytes name) with
      | Some ((_ :: _) as x, y) => (of_bytes x, of_bytes (46 :: y))
      | _ => (name, "")
      end in
    match first_free taken stem ext 1 999 with
    | Some p => p
    | None => stem +:+ " (" +:+ uuid +:+ ")" +:+ ext
    end.

Example find_header_rz : find_header [114; 122; 13; 42; 42; 24; 66; 48; 48; 48] = Some (3%nat, Receive).
Proof. reflexivity. Qed.
Example receive_name_path : receive_name (as_bytes "C:\x\a:b.txt") = "a_b.txt".
Proof. reflexivity. Qed.
Example receive_name_dots : receive_name (as_bytes "..") = "file".
Proof. reflexivity. Qed.

(** ** A header is found however the output is cut *)

Lemma position_none n l : position n l = None <-> forall i, take (length n) (drop i l) <> n.
Proof.
  induction l as [|b l IH]; cbn [position].
  - case_decide as E; split; [done|intros H; by destruct (H 0%nat)| |done]. intros _ i. by rewrite drop_nil.
  - case_decide as E; split; [done|intros H; by destruct (H 0%nat)| |].
    + intros Hn%fmap_None i. destruct i as [|i]; [done|]. by apply IH.
    + intros Hn. apply fmap_None, IH. intros i. apply (Hn (S i)).
Qed.

Lemma position_some n l i : position n l = Some i -> take (length n) (drop i l) = n.
Proof.
  revert i. induction l as [|b l IH]; intros i; cbn [position]; case_decide as E; try done.
  - by intros [= <-].
  - by intros [= <-].
  - intros (j & Hj & ->)%fmap_Some. by apply IH.
Qed.

(** Before [a] ends there is no occurrence, and what follows it starts with
    all but one byte of a needle. *)
Lemma position_skip n a t b : position n (a ++ t) = None -> (a = [] \/ length n <= length t + 1)%nat ->
  position n (a ++ t ++ b) = Nat.add (length a) <$> position n (t ++ b).
Proof.
  intros Hn Hl. induction a as [|x a IH]; [cbn [app length]; by destruct (position n (t ++ b))|].
  destruct Hl as [?|Hl]; [done|]. cbn [app position] in Hn |- *. case_decide as E; [done|].
  apply fmap_None in Hn. rewrite decide_False.
  - rewrite IH by auto. by destruct (position n (t ++ b)).
  - intros E'. apply E. change (x :: a ++ t ++ b) with ((x :: a) ++ t ++ b) in E'.
    rewrite app_assoc, take_app_le in E'; [done|]. rewrite length_app. cbn. lia.
Qed.

Lemma position_more n l b i : n <> [] -> position n l = Some i ->
  position n (l ++ b) = Some i /\ (i + length n <= length l)%nat.
Proof.
  intros Hne. assert (0 < length n)%nat by (destruct n; [done|cbn; lia]). revert i.
  assert (forall l, take (length n) l = n -> (length n <= length l)%nat) as Hlen.
  { intros l' E. rewrite <- E, length_take. lia. }
  induction l as [|x l IH]; intros i; cbn [app position].
  - case_decide as E; [|done]. apply Hlen in E. cbn in E. lia.
  - case_decide as E.
    + intros [= <-]. apply Hlen in E as Hx. split; [|lia]. rewrite decide_True; [done|].
      change (x :: l ++ b) with ((x :: l) ++ b). by rewrite take_app_le.
    + intros (j & Hj & ->)%fmap_Some. destruct (IH j Hj) as [Ej Hb]. split; [|cbn; lia].
      rewrite decide_False; [by rewrite Ej|]. intros E'. apply E.
      change (x :: l ++ b) with ((x :: l) ++ b) in E'. rewrite take_app_le in E' by (cbn; lia). done.
Qed.

(** An occurrence that is not in [t] reaches beyond it. *)
Lemma position_late n t b i : position n t = None -> position n (t ++ b) = Some i -> (length t < i + length n)%nat.
Proof.
  intros Hn Hi%position_some. destruct (decide (length t < i + length n)%nat) as [?|Hle]; [done|].
  exfalso. eapply (proj1 (position_none n t) Hn i). rewrite <- Hi at 2.
  rewrite drop_app_le by lia. rewrite take_app_le; [done|]. rewrite length_drop. lia.
Qed.

Lemma find_header_none d : find_header d = None <-> position ZRQINIT d = None /\ position ZRINIT d = None.
Proof.
  unfold find_header. destruct (position ZRQINIT d) as [i|], (position ZRINIT d) as [j|]; cbn.
  - destruct (i <=? j)%nat; (split; [done|by intros [? _]]).
  - by split; [|intros [? _]].
  - by split; [|intros [_ ?]].
  - done.
Qed.

Lemma none_suffix n a t : position n (a ++ t) = None -> position n t = None.
Proof.
  rewrite !position_none. intros H i. specialize (H (length a + i)%nat). by rewrite drop_app_add in H.
Qed.

Lemma header_start_skip a d i : (2 <= i)%nat -> header_start (a ++ d) (length a + i) = (length a + header_start d i)%nat.
Proof.
  intros Hi. unfold header_start. rewrite !(proj2 (Nat.leb_le 2 _)) by lia.
  replace (length a + i - 2)%nat with (length a + (i - 2))%nat by lia. rewrite drop_app_add.
  cbn [andb]. by case_bool_decide.
Qed.

Lemma header_start_bounds d i : (header_start d i <= i <= header_start d i + 2)%nat.
Proof. unfold header_start. destruct (Nat.leb_spec 2 i); cbn [andb]; [case_bool_decide|]; lia. Qed.

Definition shifted (k : nat) (h : nat * Kind) : nat * Kind := (k + fst h, snd h)%nat.

Lemma find_header_skip a t b : find_header (a ++ t) = None -> a = [] \/ length t = 5%nat ->
  find_header (a ++ t ++ b) = shifted (length a) <$> find_header (t ++ b).
Proof.
  intros [H1 H2]%find_header_none Hl. destruct Hl as [->|Hl].
  { cbn [app length]. by destruct (find_header (t ++ b)) as [[i k]|]. }
  assert (forall n i, length n = 4%nat -> position n (a ++ t) = None -> position n (t ++ b) = Some i -> (2 <= i)%nat) as Hge.
  { intros n i Hn Hno Hi. pose proof (position_late n t b i (none_suffix _ _ _ Hno) Hi). lia. }
  unfold find_header. rewrite !position_skip by (done || (right; cbn; lia)).
  destruct (position ZRQINIT (t ++ b)) as [i|] eqn:Ei, (position ZRINIT (t ++ b)) as [j|] eqn:Ej; [| | |done];
    repeat match goal with E : position _ (t ++ b) = Some _ |- _ => apply Hge in E; [|done|done] end;
    cbn [fmap option_fmap option_map mbind option_bind fst snd].
  - replace (length a + i <=? length a + j)%nat with (i <=? j)%nat
      by (destruct (Nat.leb_spec i j), (Nat.leb_spec (length a + i) (length a + j)); lia).
    destruct (i <=? j)%nat; by rewrite header_start_skip.
  - by rewrite header_start_skip.
  - by rewrite header_start_skip.
Qed.

(** More output does not change what was found. *)
Lemma find_header_more d b h : find_header d = Some h -> find_header (d ++ b) = Some h.
Proof.
  assert (forall i, (i <= length d)%nat -> header_start (d ++ b) i = header_start d i) as Hs.
  { intros i Hi. unfold header_start. destruct (Nat.leb_spec 2 i); cbn [andb]; [|done].
    rewrite drop_app_le by lia. rewrite take_app_le; [done|]. rewrite length_drop. lia. }
  unfold find_header.
  destruct (position ZRQINIT d) as [i|] eqn:Ei, (position ZRINIT d) as [j|] eqn:Ej; [| | |done];
    repeat match goal with E : position _ d = Some _ |- _ =>
      apply (position_more _ _ b) in E as [-> ?]; [|done]; cbn [length ZRQINIT ZRINIT] in * end;
    cbn [fmap option_fmap option_map mbind option_bind fst snd].
  - destruct (i <=? j)%nat; by rewrite Hs by lia.
  - destruct (position ZRINIT (d ++ b)) as [j|] eqn:Ej'; cbn [fmap option_fmap option_map mbind option_bind fst snd].
    + apply position_late in Ej'; [|done]. cbn [length ZRINIT] in Ej'.
      rewrite (proj2 (Nat.leb_le i j)) by lia. by rewrite Hs by lia.
    + by rewrite Hs by lia.
  - destruct (position ZRQINIT (d ++ b)) as [i|] eqn:Ei'; cbn [fmap option_fmap option_map mbind option_bind fst snd].
    + apply position_late in Ei'; [|done]. cbn [length ZRQINIT] in Ei'.
      rewrite (proj2 (Nat.leb_gt i j)) by lia. by rewrite Hs by lia.
    + by rewrite Hs by lia.
Qed.

(** A header found is no more than six bytes before the end of what precedes
    its last byte. *)
Lemma find_header_late a c start kind : find_header a = None -> find_header (a ++ c) = Some (start, kind) ->
  (length a <= start + 5)%nat /\ (start <= length (a ++ c))%nat.
Proof.
  intros [H1 H2]%find_header_none. unfold find_header.
  destruct (position ZRQINIT (a ++ c)) as [i|] eqn:Ei, (position ZRINIT (a ++ c)) as [j|] eqn:Ej; [| | |done];
    repeat match goal with E : position _ (a ++ c) = Some _ |- _ =>
      let H := fresh in pose proof (fun H => position_late _ a c _ H E) as H; specialize (H ltac:(assumption));
      apply (position_more _ _ []) in E as [_ ?]; [|done]; cbn [length ZRQINIT ZRINIT] in * end;
    cbn [fmap option_fmap option_map mbind option_bind fst snd];
    [destruct (i <=? j)%nat; cbn [fst snd]|..]; intros [= <- _];
    match goal with |- context [header_start ?d ?i] => pose proof (header_start_bounds d i) end; lia.
Qed.
(** ** Feeding the slot *)

(** The output of the terminal, chunk by chunk; what the screen sees. *)
Fixpoint feed (cs : list bytes) (s : Session) : Session * bytes :=
  match cs with
  | [] => (s, [])
  | c :: cs' =>
      let '(s1, o) := filter_chunk c s in
      let '(s2, shown) := feed cs' s1 in
      (s2, default [] o ++ shown)
  end.

Lemma keep_tail_split d : exists a, d = a ++ keep_tail d /\ (a = [] \/ length (keep_tail d) = 5%nat) /\
  (length (keep_tail d) <= 5)%nat.
Proof.
  unfold keep_tail. exists (take (length d - Nat.min (length d) 5) d). split; [by rewrite take_drop|].
  cbn [length ZRQINIT Nat.add]. rewrite length_drop. split; [|lia].
  destruct (decide (length d <= 5)%nat); [left|right; lia].
  replace (length d - Nat.min (length d) 5)%nat with 0%nat by lia. done.
Qed.

Lemma keep_tail_app a t : (a = [] \/ 5 <= length t)%nat -> keep_tail (a ++ t) = keep_tail t.
Proof.
  intros [->|H]; [done|]. unfold keep_tail. cbn [length ZRQINIT Nat.add]. rewrite length_app.
  replace (length a + length t - Nat.min (length a + length t) 5)%nat with (length a + (length t - Nat.min (length t) 5))%nat by lia.
  apply drop_app_add.
Qed.

Lemma feed_full kind cs : forall s held, slot s = Offered kind held -> OFFER_BUFFER_CAP <= Z.of_nat (length held) ->
  feed cs s = (s, []).
Proof.
  induction cs as [|c cs IH]; intros s held Hs Hl; cbn [feed]; [done|].
  unfold filter_chunk. rewrite Hs, (proj2 (Z.ltb_ge _ _) Hl). by rewrite (IH s held).
Qed.

(** While the user decides, output is held back, up to the chunk that fills
    the buffer. *)
Lemma feed_offered kind cs : forall s held, slot s = Offered kind held ->
  exists n, feed cs s = (with_slot (Offered kind (held ++ concat (take n cs))) s, []) /\
    (Z.of_nat (length (held ++ concat cs)) <= OFFER_BUFFER_CAP -> concat (take n cs) = concat cs).
Proof.
  assert (forall s held, slot s = Offered kind held -> with_slot (Offered kind (held ++ [])) s = s) as Hsame.
  { intros s held Hs. rewrite app_nil_r. destruct s; cbn in *; by subst. }
  induction cs as [|c cs IH]; intros s held Hs.
  { exists 0%nat. cbn. by rewrite Hsame. }
  destruct (Z.ltb_spec (Z.of_nat (length held)) OFFER_BUFFER_CAP) as [Hl|Hl].
  - destruct (IH (with_slot (Offered kind (held ++ c)) s) (held ++ c) eq_refl) as (n & E & He). exists (S n).
    cbn [feed take concat]. unfold filter_chunk. rewrite Hs, (proj2 (Z.ltb_lt _ _) Hl), E, <- app_assoc. split; [done|].
    rewrite <- app_assoc in He. intros Hc. by rewrite He.
  - exists 0%nat. rewrite (feed_full kind _ s held Hs Hl). cbn [take concat]. rewrite Hsame by done. split; [done|].
    rewrite length_app. intros Hc. destruct (c ++ concat cs); [done|cbn in Hc; lia].
Qed.

(** A running transfer is fed everything, the screen nothing. *)
Lemma feed_running t cs : forall s k, slot s = Running t -> tasks s !! t = Some k -> receiving k = true ->
  feed cs s = (mkSession (Running t) (<[t := mkTask (queue k ++ cs) true (cancelled k)]> (tasks s)) (events s) (typed s), []).
Proof.
  induction cs as [|c cs IH]; intros s k Hs Ht Hr; cbn [feed].
  - rewrite app_nil_r. destruct s as [sl ts ev ty], k; cbn in *; subst. by rewrite list_insert_id.
  - unfold filter_chunk, receives. rewrite Hs, Ht, Hr.
    assert (tasks (wire_send t c s) !! t = Some (mkTask (queue k ++ [c]) true (cancelled k))) as Ht'.
    { cbn. rewrite list_lookup_alter_eq, Ht. cbn. by rewrite Hr. }
    rewrite (IH (wire_send t c s) _ Hs Ht' eq_refl). cbn [queue receiving cancelled]. rewrite <- app_assoc.
    cbn [app default tasks wire_send alter_task events typed]. do 2 f_equal.
    rewrite !list_insert_alter, list_alter_alter_eq. done.
Qed.

(** An idle slot, fed anything: it reports the first header of the whole
    output, shows all before it, and at most five bytes of it. *)
Lemma feed_idle cs : forall s d, slot s = Idle (keep_tail d) -> find_header d = None ->
  let all := d ++ concat cs in
  match find_header all with
  | None => feed cs s = (with_slot (Idle (keep_tail all)) s, concat cs)
  | Some (start, kind) => exists n shown m,
      feed cs s = (emit (Announce kind) (with_slot (Offered kind (take n (drop start all))) s), shown) /\
      d ++ shown = take m all /\ (start <= m <= start + 5)%nat /\
      (Z.of_nat (length (drop start all)) <= OFFER_BUFFER_CAP -> take n (drop start all) = drop start all)
  end.
Proof.
  induction cs as [|c cs IH]; intros s d Hs Hd; cbn zeta; cbn [feed concat].
  { rewrite app_nil_r, Hd. do 2 f_equal. destruct s; cbn in *; by subst. }
  destruct (keep_tail_split d) as (a & Ea & Hl & Hl5). set (t := keep_tail d) in *.
  assert (length d = length a + length t)%nat as Hld by (rewrite Ea at 1; apply length_app).
  unfold filter_chunk. rewrite Hs. fold t.
  pose proof (find_header_skip a t c ltac:(by rewrite <- Ea) Hl) as Hskip.
  rewrite app_assoc, <- Ea in Hskip. rewrite app_assoc.
  destruct (find_header (t ++ c)) as [[start kind]|] eqn:Hf; cbn [fmap option_fmap option_map] in Hskip;
    [unfold shifted in Hskip; cbn [fst snd] in Hskip|].
  - rewrite (find_header_more _ (concat cs) _ Hskip).
    destruct (find_header_late _ _ _ _ Hd Hskip) as [Hlate Hlen].
    destruct (feed_offered kind cs (emit (Announce kind) (with_slot (Offered kind (drop start (t ++ c))) s)) _ eq_refl) as (n & E & He).
    rewrite E.
    assert (drop start (t ++ c) = drop (length a + start) (d ++ c)) as Hdrop.
    { rewrite Ea, <- app_assoc. by rewrite drop_app_add. }
    assert (drop (length a + start) ((d ++ c) ++ concat cs) = drop start (t ++ c) ++ concat cs) as Hdr.
    { rewrite Hdrop. by rewrite drop_app_le. }
    rewrite Hdr. exists (length (drop start (t ++ c)) + length (concat (take n cs)))%nat.
    exists (take (start - length t) c ++ []), (length d + (start - length t))%nat.
    assert (take (length (drop start (t ++ c)) + length (concat (take n cs))) (drop start (t ++ c) ++ concat cs) =
      drop start (t ++ c) ++ concat (take n cs)) as ->.
    { rewrite take_app_add. f_equal. rewrite <- (take_drop n cs) at 2. rewrite concat_app. apply take_app_length. }
    split_and!.
    + done.
    + rewrite app_nil_r, <- app_assoc, take_app_add. f_equal. rewrite take_app_le; [done|].
      rewrite length_app in Hlen. lia.
    + lia.
    + lia.
    + intros Hc. by rewrite He.
  - assert (keep_tail (t ++ c) = keep_tail (d ++ c)) as Hk.
    { rewrite Ea, <- app_assoc. destruct Hl as [->|Hl]; [done|]. symmetry. apply keep_tail_app. right.
      rewrite length_app. lia. }
    specialize (IH (with_slot (Idle (keep_tail (t ++ c))) s) (d ++ c) ltac:(by rewrite Hk) Hskip). cbn zeta in IH.
    destruct (find_header ((d ++ c) ++ concat cs)) as [[start kind]|].
    + destruct IH as (n & shown & m & -> & Hsh & Hm & Hn). exists n, (c ++ shown), m.
      split_and!; [done|by rewrite app_assoc|lia|lia|done].
    + rewrite IH. done.
Qed.

(** C29: However the output of a terminal is cut into chunks, the slot behaves
    as if it saw it whole. Without a header in it everything is shown and the
    slot stays idle. With one, the user is asked once, for the direction of the
    first header; the screen shows all before it and at most five of its bytes;
    and if at most 64 KiB are held back until the user accepts, the transfer
    is fed exactly the output from the first byte of the header on, nothing of
    which is shown any more. *)
Theorem transfer_is_fed_the_stream cs ds s : slot s = Idle [] ->
  let d := concat cs in
  match find_header d with
  | None => feed cs s = (with_slot (Idle (keep_tail d)) s, d)
  | Some (start, kind) => exists s1 m, feed cs s = (s1, take m d) /\ (start <= m <= start + 5)%nat /\
      events s1 = events s ++ [Announce kind] /\
      (Z.of_nat (length (drop start d)) <= OFFER_BUFFER_CAP ->
       exists s2 t s3 k, begin kind s1 = Ok (s2, t) /\ feed ds s2 = (s3, []) /\
         tasks s3 !! t = Some k /\ concat (queue k) = drop start d ++ concat ds)
  end.
Proof.
  intros Hs d. pose proof (feed_idle cs s [] Hs eq_refl) as H. cbn zeta in H. cbn [app] in H. fold d in H.
  destruct (find_header d) as [[start kind]|]; [|exact H].
  destruct H as (n & shown & m & -> & -> & Hm & Hn). eexists _, m. split; [done|]. split; [done|]. split; [done|].
  intros Hc. rewrite (Hn Hc). set (h := drop start d).
  set (q := match h with [] => [] | _ => [h] end).
  exists (mkSession (Running (length (tasks s))) (tasks s ++ [mkTask q true false]) (events s ++ [Announce kind]) (typed s)).
  exists (length (tasks s)). eexists _, _. split; [|split; [|split]].
  - unfold begin. cbn [slot emit with_slot]. by rewrite decide_True.
  - apply feed_running with (k := mkTask q true false); [done| |done].
    cbn [tasks]. by apply list_lookup_middle.
  - cbn [tasks queue]. apply list_lookup_insert_eq. rewrite length_app. cbn. lia.
  - cbn [queue]. rewrite concat_app. f_equal. unfold q. destruct h; [done|]. cbn. by rewrite app_nil_r.
Qed.

(** ** The end of a transfer *)

(** A task whose wire the slot no longer holds is told so once it has read
    what it was fed. *)
Lemma recv_closed t s k : slot s <> Running t -> tasks s !! t = Some k -> queue k = [] -> recv t s = (s, Closed).
Proof.
  intros Hs Ht Hq. unfold recv. rewrite Ht. destruct k as [[|] r c]; [|done].
  destruct (slot s) as [| |t']; try done. rewrite decide_False; [done|congruence].
Qed.

(** The end of a cancelled transfer takes down the next one. After a
    running transfer is cancelled the slot is idle and may be offered another;
    when the task of the old transfer then finishes, the slot is emptied
    again. An offer that was announced can then no longer be accepted; and a
    transfer that had been accepted loses its wire: further output goes to the
    screen, and the task has been fed no more than the opening chunk. *)
Theorem stale_finish_drops_the_next t s c start kind res :
  slot s = Running t -> find_header c = Some (start, kind) ->
  exists s1, filter_chunk c (cancel s) = (s1, Some (take start c)) /\
    last (events s1) = Some (Announce kind) /\
    begin kind (finish res (returns t s1)) = Err "no ZMODEM request pending" /\
    exists s2 t', begin kind s1 = Ok (s2, t') /\ t' = length (tasks s) /\
      forall c', find_header c' = None -> (t < length (tasks s))%nat ->
        exists s3 k, filter_chunk c' (finish res (returns t s2)) = (s3, Some c') /\ slot s3 <> Running t' /\
          tasks s3 !! t' = Some k /\ receiving k = true /\ concat (queue k) = drop start c.
Proof.
  intros Hs Hf. unfold cancel, filter_chunk. rewrite Hs. cbn [slot with_slot cancel_token alter_task app length].
  rewrite Hf, Nat.sub_0_r. eexists. split; [done|]. split; [cbn [events emit with_slot]; by rewrite last_snoc|].
  split; [done|]. unfold begin. cbn [slot emit with_slot]. rewrite decide_True by done.
  eexists _, _. split; [done|]. split; [apply length_alter|]. intros c' Hc' Ht.
  cbn [slot finish emit with_slot app tasks]. rewrite Hc'. eexists _, _. split; [done|]. split; [done|].
  cbn [tasks with_slot emit finish returns alter_task]. split; [|split].
  - rewrite list_lookup_alter_ne by (cbn; rewrite length_alter; lia). by apply list_lookup_middle.
  - done.
  - cbn [queue]. destruct (drop start c); [done|]. cbn. by rewrite app_nil_r.
Qed.

(** ** Names of received files *)

(** Bytes of a name that neither starts a parent nor a folder. *)
Definition name_byte (b : Z) : Prop := is_byte b /\ b <> 47 /\ b <> 92.
Definition name_bytes (l : bytes) : Prop := Forall name_byte l.

Lemma name_bytes_suffix l l' : l' `suffix_of` l -> name_bytes l -> name_bytes l'.
Proof. intros [k ->] H. by apply Forall_app in H as [_ ?]. Qed.

Lemma drop_any_suffix cs l : drop_any cs l `suffix_of` l.
Proof. induction l as [|b l IH]; cbn; [done|]. case_bool_decide; [by apply suffix_cons_r|done]. Qed.

Lemma drop_any_head cs l b l' : drop_any cs l = b :: l' -> b ∉ cs.
Proof. induction l as [|c l IH]; cbn; [done|]. case_bool_decide; [done|]. by intros [= <- _]. Qed.

Lemma trim_by_suffix space fuel l : trim_by space fuel l `suffix_of` l.
Proof.
  revert l. induction fuel as [|fuel IH]; intros l; cbn; [done|]. destruct (space l) as [|n]; [done|].
  etransitivity; [apply IH|]. exists (take (S n) l). by rewrite take_drop.
Qed.

Lemma name_bytes_rev l : name_bytes l -> name_bytes (rev l).
Proof. apply List.Forall_rev. Qed.

Lemma name_bytes_trim l : name_bytes l -> name_bytes (trim_bytes l).
Proof.
  intros H. unfold trim_bytes, trim_end, trim_start. apply name_bytes_rev.
  eapply name_bytes_suffix; [apply trim_by_suffix|]. apply name_bytes_rev.
  eapply name_bytes_suffix; [apply trim_by_suffix|done].
Qed.

Lemma name_bytes_all l : name_bytes l -> all_bytes l.
Proof. intros H. eapply Forall_impl; [exact H|]. by intros b [? _]. Qed.

(** [trim_matches] of dots: no dot is left in front. *)
Lemma trim_dots l : name_bytes l -> exists r, trim_matches [46] (of_bytes l) = of_bytes r /\ name_bytes r /\
  forall b r', r = b :: r' -> b <> 46.
Proof.
  intros H. unfold trim_matches. rewrite as_of_bytes by by apply name_bytes_all.
  set (m := drop_any [46] l). set (k := drop_any [46] (rev m)). exists (rev k). split; [done|].
  assert (k `suffix_of` rev m) as [x Hx] by apply drop_any_suffix.
  assert (m = rev k ++ rev x) as Em by (rewrite <- rev_app_distr, <- Hx; by rewrite rev_involutive).
  assert (name_bytes m) as Hm by (eapply name_bytes_suffix; [apply drop_any_suffix|done]).
  split; [rewrite Em in Hm; by apply Forall_app in Hm as [? _]|].
  intros b r' E. pose proof (drop_any_head [46] l b (r' ++ rev x)) as Hh. fold m in Hh. rewrite Em, E in Hh.
  intros ->. by apply Hh; [|left].
Qed.

Lemma split_once_any_before seps l x y : split_once_any seps l = Some (x, y) -> forall b, b ∈ x -> b ∉ seps.
Proof.
  revert x y. induction l as [|c l IH]; intros x y; cbn; [done|]. case_bool_decide as Hc.
  - intros [= <- _] b Hb. by apply elem_of_nil in Hb.
  - destruct (split_once_any seps l) as [[x' y']|]; cbn; [|done]. intros [= <- _] b [->|Hb]%elem_of_cons; [done|].
    by eapply IH.
Qed.

Lemma split_once_any_none seps l : split_once_any seps l = None -> forall b, b ∈ l -> b ∉ seps.
Proof.
  induction l as [|c l IH]; cbn; [intros _ b Hb; by apply elem_of_nil in Hb|]. case_bool_decide as Hc; [done|].
  destruct (split_once_any seps l) as [[x' y']|]; cbn; [done|]. intros _ b [->|Hb]%elem_of_cons; [done|]. by apply IH.
Qed.

Lemma split_once_any_parts seps l x y : split_once_any seps l = Some (x, y) -> exists c, l = x ++ c :: y /\ c ∈ seps.
Proof.
  revert x y. induction l as [|c l IH]; intros x y; cbn; [done|]. case_bool_decide.
  - intros [= <- <-]. by exists c.
  - destruct (split_once_any seps l) as [[x' y']|] eqn:E; cbn; [|done]. intros [= <- <-].
    destruct (IH _ _ eq_refl) as (d & -> & ?). by exists d.
Qed.

Lemma base_name_bytes l : all_bytes l ->
  name_bytes (match rsplit_once_any [47; 92] l with Some (_, y) => y | None => l end).
Proof.
  intros Hl. unfold rsplit_once_any. destruct (split_once_any [47; 92] (rev l)) as [[x y]|] eqn:E; cbn.
  - pose proof (split_once_any_before _ _ _ _ E) as Hb. destruct (split_once_any_parts _ _ _ _ E) as (c & Ec & _).
    apply name_bytes_rev, Forall_forall. intros b Hin. specialize (Hb b Hin). split; [|set_solver].
    apply (proj1 (Forall_forall _ _) (List.Forall_rev Hl)). rewrite Ec. apply elem_of_app. by left.
  - apply Forall_forall. intros b Hin. pose proof (split_once_any_none _ _ E b) as Hb.
    assert (b ∈ rev l) as Hr by (apply list_elem_of_In, (proj1 (in_rev _ _)), list_elem_of_In; done).
    specialize (Hb Hr). split; [|set_solver]. by apply (proj1 (Forall_forall _ _) Hl).
Qed.

Lemma concat_clean_bytes cs : Forall name_bytes cs -> name_bytes (concat (map clean_char cs)).
Proof.
  induction 1 as [|c cs Hc _ IH]; cbn; [constructor|]. apply Forall_app. split; [|done].
  unfold clean_char. destruct (_ || _); [|done]. repeat constructor; done.
Qed.

Lemma chars_name_bytes l : name_bytes l -> Forall name_bytes (chars l).
Proof.
  intros H. rewrite <- (chars_concat l) in H. revert H. generalize (chars l).
  induction l0 as [|c cs IH]; [constructor|]. cbn. intros [? ?]%Forall_app. constructor; [done|by apply IH].
Qed.

Lemma take_chars_prefix n l : concat (take n (chars l)) `prefix_of` l.
Proof. exists (concat (drop n (chars l))). by rewrite <- concat_app, take_drop, chars_concat. Qed.

(** A name to create in a folder: not empty, no separators, no dot in front. *)
Definition safe (name : string) : Prop :=
  name <> "" /\ name_bytes (as_bytes name) /\ forall b l, as_bytes name = b :: l -> b <> 46.

Lemma as_bytes_nil s : as_bytes s = [] -> s = "".
Proof. intros H. by apply as_bytes_inj. Qed.

Lemma chars_cons b l : exists c cs, chars (b :: l) = c :: cs /\ c <> [].
Proof.
  unfold chars. cbn [length chars_from]. eexists _, _. split; [done|]. intros E. apply (f_equal length) in E.
  rewrite length_take in E. pose proof (utf8_step_pos b l). cbn [length] in E. lia.
Qed.

Lemma receive_name_safe raw : safe (receive_name raw).
Proof.
  unfold receive_name. set (base := match rsplit_once_any _ _ with Some _ => _ | None => _ end).
  assert (name_bytes base) as Hb by apply base_name_bytes, as_bytes_all.
  pose proof (concat_clean_bytes _ (chars_name_bytes _ Hb)) as Hc. set (cleaned := concat _) in *.
  unfold trim. rewrite as_of_bytes by by apply name_bytes_all.
  destruct (trim_dots _ (name_bytes_trim _ Hc)) as (r & -> & Hr & Hdot).
  case_bool_decide as E; [split_and!; [done|by repeat constructor|by intros b l [= <- _]]|].
  rewrite as_of_bytes by by apply name_bytes_all.
  assert (name_bytes (concat (take 200 (chars r)))) as Hn.
  { destruct (take_chars_prefix 200 r) as [k Hk]. rewrite Hk in Hr. by apply Forall_app in Hr as [? _]. }
  destruct r as [|b r']; [done|].
  assert (exists l, concat (take 200 (chars (b :: r'))) = b :: l) as [l Hl].
  { destruct (chars_cons b r') as (c & cs & Ec & Hne). destruct (take_chars_prefix 200 (b :: r')) as [k Hk].
    rewrite Ec in Hk |- *. cbn [take concat] in *. destruct c as [|x c]; [done|]. injection Hk as <- _. by eexists. }
  split_and!.
  - intros E0. apply (f_equal as_bytes) in E0. rewrite as_of_bytes, Hl in E0 by by apply name_bytes_all. done.
  - by rewrite as_of_bytes by by apply name_bytes_all.
  - intros b0 l0. rewrite as_of_bytes, Hl by by apply name_bytes_all. intros [= <- _]. by eapply Hdot.
Qed.

Lemma safe_variant x b mid ext : name_bytes (as_bytes x) -> b <> 46 -> (exists l, as_bytes x = b :: l) ->
  name_bytes (as_bytes mid) -> name_bytes (as_bytes ext) -> safe (x +:+ " (" +:+ mid +:+ ")" +:+ ext).
Proof.
  intros Hx Hb [l Hl] Hm He. unfold safe. rewrite !as_bytes_app, Hl. split_and!.
  - intros E. apply (f_equal as_bytes) in E. rewrite !as_bytes_app, Hl in E. done.
  - rewrite Hl in Hx. repeat (apply Forall_app; split); try done; by repeat constructor.
  - by intros b0 l0 [= <- _].
Qed.

(** The name with something in brackets before the extension. *)
Definition variant (stem mid ext : string) : string := stem +:+ " (" +:+ mid +:+ ")" +:+ ext.

(** The extension starts at the last dot. *)
Definition parts (name stem ext : string) : Prop :=
  stem +:+ ext = name /\ stem <> "" /\
  (ext = "" /\ 46 ∉ as_bytes name \/ exists l, as_bytes ext = 46 :: l /\ 46 ∉ l).

Lemma first_free_spec taken stem ext n count :
  match first_free taken stem ext n count with
  | Some p => exists m, n <= m < n + Z.of_nat count /\ p = variant stem (pretty m) ext /\ taken p = false
                /\ forall k, n <= k < m -> taken (variant stem (pretty k) ext) = true
  | None => forall k, n <= k < n + Z.of_nat count -> taken (variant stem (pretty k) ext) = true
  end.
Proof.
  revert n. induction count as [|count IH]; intros n; cbn [first_free]; [lia|].
  fold (variant stem (pretty n) ext). destruct (taken (variant stem (pretty n) ext)) eqn:Ht; cbn [negb].
  - assert (H : forall m, (forall k, n + 1 <= k < m -> taken (variant stem (pretty k) ext) = true) ->
                  forall k, n <= k < m -> taken (variant stem (pretty k) ext) = true)
      by (intros m Hm k Hk; destruct (decide (k = n)) as [->|]; [done|apply Hm; lia]).
    specialize (IH (n + 1)). destruct (first_free _ _ _ _ _) as [p|].
    + destruct IH as (m & Hm & -> & Hp & Hk). exists m. split_and!; [lia|lia|done|done|by apply H].
    + intros k Hk. apply (H (n + 1 + Z.of_nat count)); [done|lia].
  - exists n. split_and!; [lia|lia|done|done|lia].
Qed.

Lemma name_parts name : safe name -> exists stem ext b l,
  (match rsplit_once_any [46] (as_bytes name) with
   | Some ((_ :: _) as x, y) => (of_bytes x, of_bytes (46 :: y)) | _ => (name, "") end) = (stem, ext) /\
  parts name stem ext /\ name_bytes (as_bytes stem) /\ name_bytes (as_bytes ext) /\ as_bytes stem = b :: l /\ b <> 46.
Proof.
  intros (Hne & Hb & Hdot). unfold rsplit_once_any.
  destruct (split_once_any [46] (rev (as_bytes name))) as [[x' y']|] eqn:E; cbn.
  - pose proof (split_once_any_before _ _ _ _ E) as Hx. destruct (split_once_any_parts _ _ _ _ E) as (d & Ed & ->%list_elem_of_singleton).
    apply (f_equal (@rev Z)) in Ed. rewrite rev_involutive, rev_app_distr in Ed. cbn [rev] in Ed. rewrite <- app_assoc in Ed.
    cbn [app] in Ed. destruct (rev y') as [|c x]; [by destruct (Hdot 46 (rev x'))|]. rewrite Ed in Hb.
    assert (name_bytes (c :: x) /\ name_bytes (46 :: rev x')) as [Hfst Hsnd] by (by apply Forall_app).
    exists (of_bytes (c :: x)), (of_bytes (46 :: rev x')), c, x. unfold parts.
    rewrite !as_of_bytes by by apply name_bytes_all. split_and!; try done; [| |by eapply Hdot].
    + apply as_bytes_inj. by rewrite as_bytes_app, !as_of_bytes, Ed by by apply name_bytes_all.
    + right. exists (rev x'). split; [done|]. rewrite list_elem_of_In, <- in_rev, <- list_elem_of_In. intros H%Hx. by destruct H; left.
  - destruct (as_bytes name) as [|b l] eqn:En; [by destruct Hne; apply as_bytes_nil|].
    exists name, "", b, l. rewrite En. split_and!; [done| |done|by constructor|done|by eapply Hdot]. split_and!.
    + apply as_bytes_inj. by rewrite as_bytes_app, app_nil_r.
    + done.
    + left. split; [done|]. rewrite En. intros H. apply (split_once_any_none _ _ E 46); [|by left].
      by rewrite list_elem_of_In, <- in_rev, <- list_elem_of_In.
Qed.

(** C31: A file that is received stays in the chosen folder, whatever name the
    remote announces: the name used is not empty, does not start with a dot, so
    is neither the folder itself nor its parent, and has no separator of
    paths. It is the announced name as cleaned, if no file has it; or the first
    of its variants (1) to (999), the number before the extension, that no file
    has; and it carries the random id only if all of these names are taken. *)
Theorem received_file_stays_in_the_folder raw taken uuid : name_bytes (as_bytes uuid) ->
  let name := receive_name raw in
  let p := unique_path taken uuid name in
  safe p /\ if taken name then exists stem ext, parts name stem ext /\
      ((exists n, 1 <= n <= 999 /\ p = variant stem (pretty n) ext /\ taken p = false
          /\ forall k, 1 <= k < n -> taken (variant stem (pretty k) ext) = true)
       \/ p = variant stem uuid ext /\ forall k, 1 <= k <= 999 -> taken (variant stem (pretty k) ext) = true)
    else p = name.
Proof.
  intros Hu. pose proof (receive_name_safe raw) as Hs. cbn zeta. set (name := receive_name raw) in *.
  unfold unique_path. destruct (taken name) eqn:Ht; cbn [negb]; [|done].
  destruct (name_parts name Hs) as (stem & ext & b & l & -> & Hparts & Hstem & Hext & Hl & Hb46).
  pose proof (first_free_spec taken stem ext 1 999) as Hf. destruct (first_free taken stem ext 1 999) as [p|].
  - destruct Hf as (m & Hm & -> & Hp & Hk). split.
    + eapply safe_variant; [done|exact Hb46|by exists l| |done].
      destruct (pretty_digits m) as [Hd _]; [lia|]. eapply Forall_impl; [exact Hd|]. unfold name_byte, in_width. cbn. lia.
    + exists stem, ext. split; [done|]. left. exists m. split_and!; [lia|lia|done|done|done].
  - split; [eapply safe_variant; [done|exact Hb46|by exists l|done|done]|].
    exists stem, ext. split; [done|]. right. split; [done|]. intros k Hk. apply Hf. lia.
Qed.

(** ** Examples *)

(** A prompt, then [sz]'s header cut in two, then data. *)
Lemma transfer_is_fed_the_stream_witness :
  let '(s1, shown) := feed [[36; 32]; [42; 42; 24]; [66; 48; 48; 48]; [1; 2]] fresh in
  shown = [36; 32; 42; 42; 24] /\ exists s2 t s3 k, begin Receive s1 = Ok (s2, t) /\ feed [[3]; [4; 5]] s2 = (s3, []) /\
    tasks s3 !! t = Some k /\ concat (queue k) = [42; 42; 24; 66; 48; 48; 48; 1; 2; 3; 4; 5].
Proof.
  pose proof (transfer_is_fed_the_stream [[36; 32]; [42; 42; 24]; [66; 48; 48; 48]; [1; 2]] [[3]; [4; 5]] fresh eq_refl) as H.
  cbn zeta in H. change (find_header (concat _)) with (Some (2%nat, Receive)) in H.
  destruct H as (s1 & m & E & Hm & _ & Hs). rewrite E. split.
  - etransitivity; [exact (eq_sym (f_equal snd E))|by vm_compute].
  - apply Hs. by vm_compute.
Defined.

(** The user cancels [sz], runs it again, and accepts before the first task
    has noticed. *)
Lemma stale_finish_drops_the_next_witness :
  let s := mkSession (Running 0) [mkTask [] true false] [] [] in
  exists s1 s2, filter_chunk (42 :: 42 :: ZRQINIT) (cancel s) = (s1, Some []) /\ begin Receive s1 = Ok (s2, 1%nat) /\
    exists s3, filter_chunk [66; 49] (finish (Err "cancelled") (returns 0 s2)) = (s3, Some [66; 49]).
Proof.
  intros s. destruct (stale_finish_drops_the_next 0 s (42 :: 42 :: ZRQINIT) 0 Receive (Err "cancelled") eq_refl eq_refl)
    as (s1 & H1 & _ & _ & s2 & t' & H2 & -> & H3).
  exists s1, s2. split; [exact H1|]. split; [exact H2|].
  destruct (H3 [66; 49] eq_refl ltac:(cbn; lia)) as (s3 & k & H4 & _). by exists s3.
Defined.

(** Two files of that name are there. *)
Lemma received_file_stays_in_the_folder_witness :
  let taken n := bool_decide (n ∈ ["passwd"; "passwd (1)"]) in
  let p := unique_path taken "id" (receive_name (as_bytes "../etc/passwd")) in
  p = "passwd (2)" /\ safe p /\ exists stem ext, parts "passwd" stem ext /\
      ((exists n, 1 <= n <= 999 /\ p = variant stem (pretty n) ext /\ taken p = false
          /\ forall k, 1 <= k < n -> taken (variant stem (pretty k) ext) = true)
       \/ p = variant stem "id" ext /\ forall k, 1 <= k <= 999 -> taken (variant stem (pretty k) ext) = true).
Proof.
  intros taken p. split; [reflexivity|].
  refine (received_file_stays_in_the_folder (as_bytes "../etc/passwd") taken "id" _).
  repeat constructor; done.
Defined.
