(* ===== verification/Rotation.v ===== *)
(** * Rotation of secrets

    [crates/termoso-server/src/routes/rotation.rs]: which secrets of a team are
    overdue, and the jobs that members who hold the vault key execute. The
    handlers ask [Authz] and [VaultAccess] for the rights of the caller.
    [update] reads a job, checks, and then writes it in a statement of its own;
    it is modelled as these two steps and their composition. Left out: audit
    entries, the e-mail of the requester, the reminders. *)
From Stdlib Require Import Ascii.
From S2P Require Import Prelude Text VaultAccess Authz.

#[local] Open Scope string_scope.
#[local] Open Scope list_scope.
#[local] Open Scope Z_scope.

Definition KEY_KINDS : list string := ["ssh_key"; "ssh_certificate"].
Definition PASSWORD_KINDS : list string := ["identity"; "host"].
Definition STATUSES : list string := ["pending"; "running"; "done"; "failed"; "cancelled"].

(** A row of [rotation_jobs]. Times are in seconds. *)
Record RotationJob := mkJob {
  j_team : uuid; j_vault : uuid; j_entity : uuid; j_kind : string; j_status : string; j_note : string;
  j_error : option string; j_by : uuid; j_claimed : option uuid; j_created : Z; j_updated : Z; j_finished : option Z
}.

(** What a row of [entities] says about a secret. *)
Record Secret := mkSecret { s_vault : uuid; s_kind : string; s_deleted : bool; s_rotated : option Z; s_created : Z }.

(** [team_vaults]: the vaults of kind team, with their team. [policy]: the two
    maximal ages of a team, [key_max_age_days] and [password_max_age_days]. *)
Record Tables := mkTables {
  now : Z; drawn : N; jobs : gmap uuid RotationJob; secrets : gmap uuid Secret; team_vaults : gmap uuid uuid;
  authz : Db; access_row : uuid -> uuid -> option AccessRow; policy : uuid -> Z * Z
}.
Definition with_jobs (f : gmap uuid RotationJob -> gmap uuid RotationJob) (tb : Tables) : Tables :=
  mkTables (now tb) (drawn tb) (f (jobs tb)) (secrets tb) (team_vaults tb) (authz tb) (access_row tb) (policy tb).
Definition with_secrets (f : gmap uuid Secret -> gmap uuid Secret) (tb : Tables) : Tables :=
  mkTables (now tb) (drawn tb) (jobs tb) (f (secrets tb)) (team_vaults tb) (authz tb) (access_row tb) (policy tb).
Definition draw (tb : Tables) : Tables :=
  mkTables (now tb) (drawn tb + 1)%N (jobs tb) (secrets tb) (team_vaults tb) (authz tb) (access_row tb) (policy tb).

Inductive RotationError :=
| FromAuthz (e : Authz.Error) | FromVault (e : VaultAccess.Error)
| Bad (msg : string) | TooLarge (msg : string) | Missing (what : string) | Conflicts (msg : string) | Internal.
Definition from_authz {A} (r : result Authz.Error A) : result RotationError A :=
  match r with Ok a => Ok a | Err e => Err (FromAuthz e) end.
Definition from_vault {A} (r : result VaultAccess.Error A) : result RotationError A :=
  match r with Ok a => Ok a | Err e => Err (FromVault e) end.
Definition guard (b : bool) (e : RotationError) : result RotationError unit := if b then Ok tt else Err e.

Definition manages (tb : Tables) (team user : uuid) : result RotationError Membership :=
  from_authz (require (authz tb) team user "rotation.manage").
Definition writes (tb : Tables) (vault user : uuid) : result RotationError Access :=
  from_vault (require_write vault (access_row tb vault user)).

(** ** What is overdue *)

Record RotationDue := mkDue {
  d_entity : uuid; d_vault : uuid; d_kind : string; d_rotated : option Z; d_age_days : Z; d_job : option uuid
}.

Definition DAY : Z := 86400.

(** [COALESCE(e.secret_rotated_at, e.created_at)]. *)
Definition since (s : Secret) : Z := default (s_created s) (s_rotated s).

Definition is_open (j : RotationJob) : Prop := j_status j ∈ ["pending"; "running"].
#[export] Instance is_open_dec j : Decision (is_open j).
Proof. unfold is_open. apply _. Defined.

Definition older_than (tb : Tables) (days : Z) (s : Secret) : Prop := 0 < days /\ since s < now tb - days * DAY.

Definition is_due (tb : Tables) (team : uuid) (key_days password_days : Z) (s : Secret) : Prop :=
  team_vaults tb !! s_vault s = Some team /\ s_deleted s = false /\
  (s_kind s ∈ KEY_KINDS /\ older_than tb key_days s \/ s_kind s ∈ PASSWORD_KINDS /\ older_than tb password_days s).
#[export] Instance is_due_dec tb team kd pd s : Decision (is_due tb team kd pd s).
Proof. unfold is_due, older_than. apply _. Defined.

(** The open job of an entity. *)
Definition open_job (tb : Tables) (entity : uuid) : option uuid :=
  fst ∘ snd <$> list_find (fun p => j_entity (snd p) = entity /\ is_open (snd p)) (map_to_list (jobs tb)).

Definition by_age (a b : uuid * Secret) : Prop := since (snd a) <= since (snd b).
#[export] Instance by_age_dec a b : Decision (by_age a b).
Proof. unfold by_age. apply _. Defined.

Definition due (tb : Tables) (team : uuid) (key_days password_days : Z) : list RotationDue :=
  if (key_days <=? 0) && (password_days <=? 0) then []
  else
    map (fun '(i, s) => mkDue i (s_vault s) (s_kind s) (s_rotated s) (Z.max 0 ((now tb - since s) ÷ DAY)) (open_job tb i))
      (take 5000 (merge_sort by_age (filter (fun p => is_due tb team key_days password_days (snd p)) (map_to_list (secrets tb))))).

(** ** Jobs *)

Definition newest_first (a b : uuid * RotationJob) : Prop := j_created (snd b) <= j_created (snd a).
#[export] Instance newest_first_dec a b : Decision (newest_first a b).
Proof. unfold newest_first. apply _. Defined.
Definition oldest_first (a b : uuid * RotationJob) : Prop := j_created (snd a) <= j_created (snd b).
#[export] Instance oldest_first_dec a b : Decision (oldest_first a b).
Proof. unfold oldest_first. apply _. Defined.

(** [JOBS_BY_TEAM]. *)
Definition jobs_by_team (tb : Tables) (team : uuid) : list (uuid * RotationJob) :=
  take 500 (merge_sort newest_first (filter (fun p => j_team (snd p) = team) (map_to_list (jobs tb)))).

Record RotationOverview := mkOverview {
  o_key_days : Z; o_password_days : Z; o_due : list RotationDue; o_jobs : list (uuid * RotationJob)
}.

Definition overview (user team : uuid) (tb : Tables) : result RotationError RotationOverview :=
  _ ← manages tb team user;
  let '(kd, pd) := policy tb team in
  Ok (mkOverview kd pd (due tb team kd pd) (jobs_by_team tb team)).

Section Jobs.
(** [gen_random_uuid()]. *)
Context (id_at : N -> uuid).

Record CreateRotationJobsRequest := mkCreate { c_vault : uuid; c_entities : list uuid; c_note : string }.

(** [INSERT ... ON CONFLICT DO NOTHING]: the index of open jobs allows one
    for an entity. *)
Fixpoint insert_jobs (user team vault : uuid) (note : string) (targets : list (uuid * string)) (tb : Tables) :
    Tables * list uuid :=
  match targets with
  | [] => (tb, [])
  | (entity, kind) :: targets' =>
      let i := id_at (drawn tb) in
      match open_job tb entity with
      | Some _ => insert_jobs user team vault note targets' (draw tb)
      | None =>
          let j := mkJob team vault entity kind "pending" note None user None (now tb) (now tb) None in
          let '(tb', ids) := insert_jobs user team vault note targets' (draw (with_jobs <[i := j]> tb)) in
          (tb', i :: ids)
      end
  end.

Definition targets (tb : Tables) (vault : uuid) (ids : list uuid) : list (uuid * string) :=
  map (fun p => (fst p, s_kind (snd p)))
    (filter (fun p => s_vault (snd p) = vault /\ fst p ∈ ids /\ s_deleted (snd p) = false /\
               s_kind (snd p) ∈ KEY_KINDS ++ PASSWORD_KINDS) (map_to_list (secrets tb))).

Definition create (user team : uuid) (req : CreateRotationJobsRequest) (tb : Tables) :
    Tables * result RotationError (list (uuid * RotationJob)) :=
  match
    _ ← manages tb team user;
    _ ← guard (negb (bool_decide (c_entities req = [])) && (length (c_entities req) <=? 1000)%nat)
          (Bad "entity_ids must hold 1..=1000 ids");
    let note := trim (c_note req) in
    _ ← guard (length (chars (as_bytes note)) <=? 500)%nat (TooLarge "Notes are limited to 500 characters");
    _ ← guard (bool_decide (team_vaults tb !! c_vault req = Some team)) (Missing "Team vault");
    let ts := targets tb (c_vault req) (c_entities req) in
    _ ← guard (length ts =? length (c_entities req))%nat
          (Bad "Every entity must be a live identity, key, certificate or host of that vault");
    Ok (note, ts)
  with
  | Err e => (tb, Err e)
  | Ok (note, ts) =>
      let '(tb', ids) := insert_jobs user team (c_vault req) note ts tb in
      (tb', Ok (filter (fun p => fst p ∈ ids) (jobs_by_team tb' team)))
  end.

(** [JOBS_FOR_USER]: the join with [vault_members]. *)
Definition holds_key (tb : Tables) (vault user : uuid) : bool :=
  match access_row tb vault user with
  | Some r => bool_decide (a_role r ∈ [Some "manager"; Some "editor"]) && bool_decide (a_pending r = Some false)
  | None => false
  end.

Definition mine (user : uuid) (tb : Tables) : list (uuid * RotationJob) :=
  merge_sort oldest_first
    (filter (fun p => is_open (snd p) /\ holds_key tb (j_vault (snd p)) user = true) (map_to_list (jobs tb))).

(** ** Advancing a job *)

Record UpdateRotationJobRequest := mkUpdate { u_status : string; u_error : option string }.

Definition terminal (status : string) : bool := bool_decide (status ∈ ["done"; "failed"; "cancelled"]).

(** What [update] reads and checks before it writes. *)
Definition update_check (user i : uuid) (req : UpdateRotationJobRequest) (tb : Tables) : result RotationError RotationJob :=
  cur ← ok_or (jobs tb !! i) (Missing "Rotation job");
  let status := u_status req in
  _ ← guard (bool_decide (status ∈ STATUSES) && negb (bool_decide (status = "pending")))
        (Bad "status must be running, done, failed or cancelled");
  _ ← guard (negb (terminal (j_status cur))) (Conflicts "Rotation job already finished");
  _ ← (if decide (status = "cancelled") then _ ← manages tb (j_team cur) user; Ok tt
       else _ ← writes tb (j_vault cur) user; Ok tt);
  _ ← guard (negb (bool_decide (status = "running") && bool_decide (j_status cur = "running")
                   && negb (bool_decide (j_claimed cur = Some user))))
        (Conflicts "Another member is already rotating this secret");
  Ok cur.

Definition shown_error (e : option string) : option string :=
  e ← e;
  let e := trim e in
  if bool_decide (e = "") then None else Some (of_bytes (concat (take 1000 (chars (as_bytes e))))).

(** The row after the [UPDATE]. *)
Definition advanced (user : uuid) (req : UpdateRotationJobRequest) (t : Z) (j : RotationJob) : RotationJob :=
  mkJob (j_team j) (j_vault j) (j_entity j) (j_kind j) (u_status req) (j_note j) (shown_error (u_error req)) (j_by j)
    (match j_claimed j with Some c => Some c | None => Some user end) (j_created j) t
    (if bool_decide (u_status req = "running") then None else Some t).

(** [GREATEST(COALESCE(secret_rotated_at, 'epoch'), now())]. *)
Definition stamp (t : Z) (s : Secret) : Secret :=
  mkSecret (s_vault s) (s_kind s) (s_deleted s) (Some (Z.max (default 0 (s_rotated s)) t)) (s_created s).

(** The index of open jobs, for the row [i] about to become [j]. *)
Definition index_allows (tb : Tables) (i : uuid) (j : RotationJob) : Prop :=
  ~ is_open j \/ Forall (fun p => fst p = i \/ j_entity (snd p) <> j_entity j \/ ~ is_open (snd p)) (map_to_list (jobs tb)).
#[export] Instance index_allows_dec tb i j : Decision (index_allows tb i j).
Proof. unfold index_allows. apply _. Defined.

(** What it writes, for the job [cur] it had read. *)
Definition update_write (user i : uuid) (req : UpdateRotationJobRequest) (cur : RotationJob) (tb : Tables) :
    Tables * result RotationError RotationJob :=
  let stamped tb := if bool_decide (u_status req = "done") then with_secrets (alter (stamp (now tb)) (j_entity cur)) tb else tb in
  match jobs tb !! i with
  | None => (stamped tb, Err (Missing "Rotation job"))
  | Some j =>
      let j' := advanced user req (now tb) j in
      if decide (index_allows tb i j') then (stamped (with_jobs <[i := j']> tb), Ok j')
      else (tb, Err Internal)
  end.

Definition update (user i : uuid) (req : UpdateRotationJobRequest) (tb : Tables) : Tables * result RotationError RotationJob :=
  match update_check user i req tb with
  | Err e => (tb, Err e)
  | Ok cur => update_write user i req cur tb
  end.

Definition delete_job (user i : uuid) (tb : Tables) : Tables * result RotationError unit :=
  match
    cur ← ok_or (jobs tb !! i) (Missing "Rotation job");
    _ ← manages tb (j_team cur) user;
    guard (negb (bool_decide (is_open cur))) (Conflicts "Cancel the job before deleting it")
  with
  | Err e => (tb, Err e)
  | Ok _ => (with_jobs (delete i) tb, Ok tt)
  end.

(** ** Everything that happens to the tables *)

(** What the rest of the server may do to a job: delete it with its team,
    vault or requester, or forget who claimed it with that account. *)
Definition kept (j j' : RotationJob) : Prop :=
  j' = j \/ j' = mkJob (j_team j) (j_vault j) (j_entity j) (j_kind j) (j_status j) (j_note j) (j_error j) (j_by j) None
                (j_created j) (j_updated j) (j_finished j).

Inductive step : Tables -> Tables -> Prop :=
| step_create tb user team req : step tb (fst (create user team req tb))
| step_update tb user i req : step tb (fst (update user i req tb))
| step_delete tb user i : step tb (fst (delete_job user i tb))
| step_other tb tb' : (drawn tb <= drawn tb')%N -> now tb <= now tb' ->
    (forall i j', jobs tb' !! i = Some j' -> exists j, jobs tb !! i = Some j /\ kept j j') -> step tb tb'.

(** Statuses are known, a final status has its time, an entity has one open
    job, and the ids to be drawn are not taken. *)
Record sound (tb : Tables) : Prop := {
  so_status : forall i j, jobs tb !! i = Some j -> j_status j ∈ STATUSES;
  so_finished : forall i j, jobs tb !! i = Some j -> is_Some (j_finished j) <-> ~ is_open j;
  so_open : forall i1 j1 i2 j2, jobs tb !! i1 = Some j1 -> jobs tb !! i2 = Some j2 ->
    is_open j1 -> is_open j2 -> j_entity j1 = j_entity j2 -> i1 = i2;
  so_fresh : forall n, (drawn tb <= n)%N -> jobs tb !! id_at n = None
}.
End Jobs.

(** ** What a step preserves *)

Definition rank (status : string) : nat :=
  if decide (status = "pending") then 0 else if decide (status = "running") then 1 else 2.

Definition advances (j j' : RotationJob) : Prop :=
  (j_team j', j_vault j', j_entity j', j_kind j', j_by j', j_created j') =
    (j_team j, j_vault j, j_entity j, j_kind j, j_by j, j_created j) /\
  (rank (j_status j) <= rank (j_status j'))%nat /\ (~ is_open j -> kept j j').

Lemma open_rank j : is_open j <-> (rank (j_status j) <= 1)%nat.
Proof.
  unfold is_open, rank. split.
  - intros [->|[->|H]%elem_of_cons]%elem_of_cons; [vm_compute; lia|vm_compute; lia|by apply elem_of_nil in H].
  - intros H. destruct (decide (j_status j = "pending")) as [E|_]; [rewrite E; by left|].
    destruct (decide (j_status j = "running")) as [E|_]; [rewrite E; right; by left|lia].
Qed.

Lemma kept_fields j j' : kept j j' -> j_entity j' = j_entity j /\ j_status j' = j_status j /\ j_finished j' = j_finished j /\
  (is_open j' <-> is_open j) /\ advances j j'.
Proof. intros [->| ->]; (split_and!; [done..|done|]); (split; [done|split; [done|]]); intros _; [by left|by right]. Qed.

Lemma kept_trans j1 j2 j3 : kept j1 j2 -> kept j2 j3 -> kept j1 j3.
Proof. intros [->| ->] [->| ->]; (by left) || (by right). Qed.

Lemma advances_refl j : advances j j.
Proof. split; [done|]. split; [done|]. intros _. by left. Qed.

Lemma advances_trans j1 j2 j3 : advances j1 j2 -> advances j2 j3 -> advances j1 j3.
Proof.
  intros (E1 & R1 & K1) (E2 & R2 & K2). split; [congruence|]. split; [lia|]. intros H1.
  specialize (K1 H1). apply kept_trans with j2; [done|]. apply K2. intros H2. apply H1.
  by apply (kept_fields _ _ K1).
Qed.

Section Steps.
Context (id_at : N -> uuid) (id_inj : forall n m, id_at n = id_at m -> n = m).

Abbreviation sound := (sound id_at).

(** What happens to the jobs that exist when ids are only drawn upwards. *)
Definition follows (tb tb' : Tables) : Prop :=
  (drawn tb <= drawn tb')%N /\ forall i j', (forall n, (drawn tb <= n)%N -> id_at n <> i) -> jobs tb' !! i = Some j' ->
    exists j, jobs tb !! i = Some j /\ advances j j'.

Lemma follows_refl tb : follows tb tb.
Proof. split; [lia|]. intros i j' _ H. exists j'. split; [done|apply advances_refl]. Qed.

Lemma follows_trans tb1 tb2 tb3 : follows tb1 tb2 -> follows tb2 tb3 -> follows tb1 tb3.
Proof.
  intros [H1 F1] [H2 F2]. split; [lia|]. intros i j3 Hi H3.
  destruct (F2 i j3) as (j2 & Hj2 & A2); [intros n Hn; apply Hi; lia|done|].
  destruct (F1 i j2 Hi Hj2) as (j1 & Hj1 & A1). exists j1. split; [done|by eapply advances_trans].
Qed.

Lemma open_job_none tb e : open_job tb e = None -> forall i j, jobs tb !! i = Some j -> is_open j -> j_entity j <> e.
Proof.
  unfold open_job. intros H%fmap_None i j Hi Ho He.
  apply (list_find_none _ _ H (i, j)); [by apply elem_of_map_to_list|by split].
Qed.

(** A pending job for an entity without an open one. *)
Lemma insert_job_sound tb e j : sound tb -> open_job tb e = None -> j_entity j = e -> j_status j = "pending" ->
  j_finished j = None -> let tb' := draw (with_jobs <[id_at (drawn tb) := j]> tb) in sound tb' /\ follows tb tb'.
Proof.
  intros [Hs Hf Ho Hfr] Hn He Hst Hfin tb'. pose proof (open_job_none tb e Hn) as Hnone.
  assert (is_open j) as Hopen by (unfold is_open; rewrite Hst; by left).
  assert (forall i k, jobs tb' !! i = Some k -> (i = id_at (drawn tb) /\ k = j) \/ jobs tb !! i = Some k) as Hl.
  { intros i k. cbn. rewrite lookup_insert_Some. naive_solver. }
  split; [split|split].
  - intros i k [[-> ->]|H]%Hl; [rewrite Hst; by left|by eapply Hs].
  - intros i k [[-> ->]|H]%Hl; [|by eapply Hf]. rewrite Hfin. split; [by intros [? ?]|by intros []].
  - intros i1 j1 i2 j2 [[-> ->]|H1]%Hl [[-> ->]|H2]%Hl O1 O2 E; [done| | |by eapply Ho].
    + by destruct (Hnone i2 j2 H2 O2); rewrite <- E.
    + by destruct (Hnone i1 j1 H1 O1); rewrite E.
  - intros n Hd. cbn in Hd |- *. rewrite lookup_insert_None. split; [apply Hfr; lia|]. intros E%id_inj. lia.
  - cbn. lia.
  - intros i k Hi [[-> ->]|H]%Hl; [by destruct (Hi (drawn tb) (N.le_refl _))|]. exists k. split; [done|apply advances_refl].
Qed.

Lemma draw_sound tb : sound tb -> sound (draw tb) /\ follows tb (draw tb).
Proof.
  intros [Hs Hf Ho Hfr]. split; [split; [done|done|done|]|split; [cbn; lia|]].
  - intros n Hn. cbn in *. apply Hfr. lia.
  - intros i j _ H. exists j. split; [done|apply advances_refl].
Qed.

Lemma insert_jobs_sound user team vault note ts : forall tb, sound tb ->
  let tb' := fst (insert_jobs id_at user team vault note ts tb) in sound tb' /\ follows tb tb'.
Proof.
  induction ts as [|[e k] ts IH]; intros tb Hs; [split; [done|apply follows_refl]|]. cbn [insert_jobs].
  destruct (open_job tb e) eqn:Ho.
  - destruct (draw_sound tb Hs) as [Hs1 F1]. destruct (IH _ Hs1) as [Hs2 F2]. split; [done|by eapply follows_trans].
  - destruct (insert_job_sound tb e (mkJob team vault e k "pending" note None user None (now tb) (now tb) None) Hs Ho
      eq_refl eq_refl eq_refl) as [Hs1 F1].
    destruct (IH _ Hs1) as [Hs2 F2]. destruct (insert_jobs _ _ _ _ _ _ _) as [tb' ids]. cbn [fst] in *.
    split; [done|by eapply follows_trans].
Qed.

Lemma create_sound user team req tb : sound tb ->
  sound (fst (create id_at user team req tb)) /\ follows tb (fst (create id_at user team req tb)).
Proof.
  intros Hs. unfold create. destruct (_ ≫= _) as [[note ts]|e]; [|split; [done|apply follows_refl]].
  pose proof (insert_jobs_sound user team (c_vault req) note ts tb Hs) as H.
  by destruct (insert_jobs _ _ _ _ _ _ _).
Qed.

(** ** Advancing a job *)

Lemma update_check_ok user i req tb cur : update_check user i req tb = Ok cur ->
  jobs tb !! i = Some cur /\ u_status req ∈ STATUSES /\ u_status req <> "pending" /\ terminal (j_status cur) = false /\
  (if decide (u_status req = "cancelled") then is_ok (manages tb (j_team cur) user) = true
   else is_ok (writes tb (j_vault cur) user) = true) /\
  (u_status req = "running" -> j_status cur = "running" -> j_claimed cur = Some user).
Proof.
  unfold update_check. intros (j & Hj%ok_or_ok & H)%bind_ok. apply bind_ok in H as (? & Hg1 & H).
  apply bind_ok in H as (? & Hg2 & H). apply bind_ok in H as (? & Hg3 & H). apply bind_ok in H as (? & Hg4 & [= <-]).
  unfold guard in *. destruct (bool_decide_reflect (u_status req ∈ STATUSES)) as [Hin|], (bool_decide_reflect (u_status req = "pending")) as [|Hp]; try done.
  destruct (terminal (j_status j)) eqn:Ht; [done|]. split_and!; try done.
  - case_decide; [by destruct (manages tb (j_team j) user)|by destruct (writes tb (j_vault j) user)].
  - intros E1 E2. rewrite !bool_decide_eq_true_2 in Hg4 by done. cbn [andb] in Hg4.
    by destruct (bool_decide_reflect (j_claimed j = Some user)).
Qed.

Lemma status_cases st : st ∈ STATUSES -> terminal st = true \/ st = "pending" \/ st = "running".
Proof.
  unfold STATUSES. intros H. repeat (apply elem_of_cons in H as [->|H]; [auto|]). by apply elem_of_nil in H.
Qed.

Lemma terminal_closed st : terminal st = true <-> st ∈ STATUSES /\ st ∉ ["pending"; "running"].
Proof.
  unfold terminal. rewrite bool_decide_eq_true. split.
  - intros H. split; [unfold STATUSES; set_solver|].
    repeat (apply elem_of_cons in H as [->|H]; [by rewrite !not_elem_of_cons; split_and!; try apply not_elem_of_nil|]).
    by apply elem_of_nil in H.
  - unfold STATUSES. set_solver.
Qed.

Lemma terminal_rank st : st ∈ STATUSES -> rank st = if terminal st then 2%nat else if decide (st = "running") then 1%nat else 0%nat.
Proof. unfold STATUSES. intros H. repeat (apply elem_of_cons in H as [->|H]; [done|]). by apply elem_of_nil in H. Qed.

(** A job that is still open is advanced, and the tables stay sound. *)
Lemma update_write_sound user i req cur j tb : sound tb -> jobs tb !! i = Some j -> is_open j ->
  u_status req ∈ STATUSES -> u_status req <> "pending" ->
  let '(tb', r) := update_write user i req cur tb in
  sound tb' /\ follows tb tb' /\ r = Ok (advanced user req (now tb) j) /\
  jobs tb' = <[i := advanced user req (now tb) j]> (jobs tb) /\
  secrets tb' = (if bool_decide (u_status req = "done") then alter (stamp (now tb)) (j_entity cur) (secrets tb) else secrets tb).
Proof.
  intros [Hs Hf Ho Hfr] Hj Hopen Hst Hnp. unfold update_write. rewrite Hj. set (j' := advanced user req (now tb) j).
  assert (index_allows tb i j') as Hidx.
  { right. apply Forall_forall. intros [i2 j2] H2%elem_of_map_to_list. cbn [fst snd].
    destruct (decide (i2 = i)) as [|Hne]; [by left|right]. destruct (decide (is_open j2)) as [O2|]; [left|by right].
    intros E. apply Hne. symmetry. eapply Ho; [exact Hj|exact H2|done|done|by rewrite E]. }
  rewrite decide_True by done.
  set (tb' := with_jobs <[i := j']> tb).
  set (st := if bool_decide (u_status req = "done") then with_secrets (alter (stamp (now tb')) (j_entity cur)) tb' else tb').
  assert (jobs st = <[i := j']> (jobs tb) /\ drawn st = drawn tb /\ secrets st =
    (if bool_decide (u_status req = "done") then alter (stamp (now tb)) (j_entity cur) (secrets tb) else secrets tb)) as (Ej & Ed & Es).
  { unfold st. by case_bool_decide. }
  clearbody st.
  assert (forall k x, jobs st !! k = Some x -> (k = i /\ x = j') \/ (k <> i /\ jobs tb !! k = Some x)) as Hl.
  { intros k x. rewrite Ej, lookup_insert_Some. naive_solver. }
  assert (is_open j' -> u_status req = "running") as Hrun.
  { intros [E|[E|E]%elem_of_cons]%elem_of_cons; [done|done|by apply elem_of_nil in E]. }
  split_and!; [split|split|done|done|done].
  - intros k x [[-> ->]|[_ H]]%Hl; [exact Hst|by eapply Hs].
  - intros k x [[-> ->]|[_ H]]%Hl; [|by eapply Hf]. cbn. destruct (bool_decide_reflect (u_status req = "running")) as [Hr|Hr].
    + split; [by intros [? ?]|]. intros Hc. exfalso. apply Hc. unfold is_open. cbn. rewrite Hr. right. by left.
    + split; [intros _ Hop; by apply Hr, Hrun|by eexists].
  - assert (forall k x, k <> i -> jobs tb !! k = Some x -> is_open x -> j_entity x <> j_entity j) as Hother.
    { intros k x Hk Hx Ox E. apply Hk. by eapply Ho. }
    intros i1 j1 i2 j2 [[-> ->]|[N1 H1]]%Hl [[-> ->]|[N2 H2]]%Hl O1 O2 E; [done| | |by eapply Ho].
    + by destruct (Hother i2 j2 N2 H2 O2).
    + by destruct (Hother i1 j1 N1 H1 O1).
  - intros n Hn. rewrite Ej, lookup_insert_None. split; [apply Hfr; lia|]. intros ->. rewrite Hfr in Hj; [done|lia].
  - lia.
  - intros k x _ [[-> ->]|[_ H]]%Hl; [exists j|exists x]; (split; [done|]); [|apply advances_refl].
    split; [done|]. split; [|done]. cbn [j_status j' advanced].
    rewrite (terminal_rank (u_status req)) by done. apply open_rank in Hopen.
    destruct (status_cases _ Hst) as [->|[|E]]; [lia|done|]. rewrite E. destruct (terminal "running"); [lia|].
    by rewrite decide_True.
Qed.

Lemma not_terminal_open tb i j : sound tb -> jobs tb !! i = Some j -> terminal (j_status j) = false -> is_open j.
Proof.
  intros Hs Hj Ht. destruct (status_cases (j_status j)) as [E|[E|E]]; [by eapply so_status|by rewrite E in Ht|..];
    unfold is_open; rewrite E; [by left|right; by left].
Qed.

Lemma step_sound tb tb' : step id_at tb tb' -> sound tb -> sound tb' /\ follows tb tb'.
Proof.
  intros [tb0 user team req|tb0 user i req|tb0 user i|tb0 tb1 Hd _ Hk] Hs.
  - by apply create_sound.
  - unfold update. destruct (update_check user i req tb0) as [cur|] eqn:Hc; [|by split; [|apply follows_refl]].
    apply update_check_ok in Hc as (Hj & Hst & Hnp & Ht & _).
    pose proof (update_write_sound user i req cur cur tb0 Hs Hj (not_terminal_open _ _ _ Hs Hj Ht) Hst Hnp) as Hw.
    destruct (update_write _ _ _ _ _) as [tb1 r]. by destruct Hw as (? & ? & _).
  - unfold delete_job. destruct (_ ≫= _) as [?|?]; [|by split; [|apply follows_refl]]. cbn [fst].
    assert (forall k x, jobs (with_jobs (delete i) tb0) !! k = Some x -> jobs tb0 !! k = Some x) as Hl
      by (intros k x; cbn [jobs with_jobs]; by intros [_ ?]%lookup_delete_Some).
    destruct Hs as [Hs Hf Ho Hfr]. split; [split|split; [cbn; lia|]].
    + intros k x H%Hl. by eapply Hs.
    + intros k x H%Hl. by eapply Hf.
    + intros i1 j1 i2 j2 H1%Hl H2%Hl. by eapply Ho.
    + intros n Hn. cbn. rewrite lookup_delete_None. right. by apply Hfr.
    + intros k x _ H%Hl. exists x. split; [done|apply advances_refl].
  - destruct Hs as [Hs Hf Ho Hfr]. split; [split|split; [done|]].
    + intros i j (j0 & Hj0 & K)%Hk. apply kept_fields in K as (_ & -> & _). by eapply Hs.
    + intros i j (j0 & Hj0 & K)%Hk. apply kept_fields in K as (_ & _ & -> & -> & _). by eapply Hf.
    + intros i1 j1 i2 j2 (k1 & H1 & K1)%Hk (k2 & H2 & K2)%Hk. apply kept_fields in K1 as (-> & _ & _ & -> & _).
      apply kept_fields in K2 as (-> & _ & _ & -> & _). by eapply Ho.
    + intros n Hn. destruct (jobs tb1 !! id_at n) eqn:E; [|done]. apply Hk in E as (j0 & Hj0 & _).
      rewrite Hfr in Hj0; [done|lia].
    + intros i j _ (j0 & Hj0 & K)%Hk. exists j0. split; [done|]. by apply (kept_fields _ _ K).
Qed.

(** Whatever requests for rotation jobs are served, one after the other,
    and whatever else the server does meanwhile: statuses stay known, a job
    has a finishing time exactly when it is finished, an entity has at most
    one open job, and no job of before changes its team, vault, entity, kind or requester,
    goes back to an earlier status, or changes at all once it is finished
    (except that its claim is forgotten with the account that had it). *)
Theorem jobs_only_advance tb tb' : sound tb -> rtc (step id_at) tb tb' ->
  sound tb' /\ forall i j j', jobs tb !! i = Some j -> jobs tb' !! i = Some j' -> advances j j'.
Proof.
  intros Hs H. assert (sound tb' /\ follows tb tb') as [Hs' [_ F]].
  { clear -H Hs id_inj. induction H as [tb|tb1 tb2 tb3 H1 _ IH]; [by split; [|apply follows_refl]|].
    destruct (step_sound _ _ H1 Hs) as [Hs2 F2]. destruct (IH Hs2) as [Hs3 F3].
    split; [done|by eapply follows_trans]. }
  split; [done|]. intros i j j' Hj Hj'. destruct (F i j') as (j0 & Hj0 & A); [|done|].
  - intros n Hn <-. by rewrite (so_fresh _ _ Hs) in Hj.
  - by simplify_eq.
Qed.

(** What a successful update does. It needs the right to manage rotations
    in the job's team to cancel it and write access to its vault with its key
    otherwise; the job was not finished and, to be claimed, not running for
    someone else; exactly its row changes, as asked, with its first claimer
    kept; and after [done] the secret is not overdue, whatever ages the team's
    policy allows, before that age has passed again. *)
Theorem update_is_exact user i req tb tb' j' : sound tb -> update user i req tb = (tb', Ok j') ->
  exists j, jobs tb !! i = Some j /\ is_open j /\ j' = advanced user req (now tb) j /\
    (if decide (u_status req = "cancelled") then is_ok (manages tb (j_team j) user) = true
     else is_ok (writes tb (j_vault j) user) = true) /\
    (u_status req = "running" -> j_status j = "pending" \/ j_claimed j = Some user) /\
    jobs tb' = <[i := j']> (jobs tb) /\
    (forall e, e <> j_entity j \/ u_status req <> "done" -> secrets tb' !! e = secrets tb !! e) /\
    (u_status req = "done" -> forall s tb2 team kd pd, secrets tb' !! j_entity j = Some s ->
       now tb2 <= now tb + kd * DAY -> now tb2 <= now tb + pd * DAY -> ~ is_due tb2 team kd pd s).
Proof.
  intros Hs. unfold update. destruct (update_check user i req tb) as [cur|] eqn:Hc; [|done].
  apply update_check_ok in Hc as (Hj & Hst & Hnp & Ht & Hr & Hcl).
  pose proof (not_terminal_open _ _ _ Hs Hj Ht) as Hopen.
  pose proof (update_write_sound user i req cur cur tb Hs Hj Hopen Hst Hnp) as Hw.
  destruct (update_write _ _ _ _ _) as [tb1 r]. destruct Hw as (_ & _ & -> & Ejobs & Esec). intros [= <- <-].
  exists cur. split_and!; try done.
  - intros E. destruct (decide (j_status cur = "running")) as [Er|]; [right; by apply Hcl|left].
    destruct (status_cases (j_status cur)) as [?|[?|?]]; [by eapply so_status|congruence|done|done].
  - intros e He. rewrite Esec. case_bool_decide; [|done]. destruct He as [He|He]; [|done].
    by rewrite lookup_alter_ne.
  - intros Ed s tb2 team kd pd. rewrite Esec, bool_decide_eq_true_2, lookup_alter_eq by done.
    intros (s0 & _ & ->)%fmap_Some Hk Hp (_ & _ & H). unfold older_than, since in H. cbn in H.
    destruct H as [(_ & _ & H)|(_ & _ & H)]; lia.
Qed.

(** Two updates that overlap undo each other. When two members read an
    open job before either writes, both are answered as if alone. If both claim it,
    both are told it is theirs to run, though the row names the first; and if one claims it while the
    other, who has rotated the secret, reports it done, the finished job runs
    again and has lost its finishing time. *)
Theorem overlapping_updates_undo_each_other u1 u2 i tb cur :
  sound tb -> update_check u1 i (mkUpdate "running" None) tb = Ok cur ->
  (update_check u2 i (mkUpdate "running" None) tb = Ok cur -> j_claimed cur = None ->
   let '(tb1, r1) := update_write u1 i (mkUpdate "running" None) cur tb in
   let '(tb2, r2) := update_write u2 i (mkUpdate "running" None) cur tb1 in
   exists j, r1 = Ok j /\ r2 = Ok j /\ jobs tb2 !! i = Some j /\ j_status j = "running" /\ j_claimed j = Some u1) /\
  (update_check u2 i (mkUpdate "done" None) tb = Ok cur ->
   (forall k j, jobs tb !! k = Some j -> is_open j -> k = i) ->
   let '(tb1, r1) := update_write u2 i (mkUpdate "done" None) cur tb in
   let '(tb2, r2) := update_write u1 i (mkUpdate "running" None) cur tb1 in
   exists j1 j2, r1 = Ok j1 /\ j_status j1 = "done" /\ r2 = Ok j2 /\ jobs tb2 !! i = Some j2 /\
     j_status j2 = "running" /\ j_finished j2 = None).
Proof.
  intros Hs (Hj & Hst & Hnp & Ht & _)%update_check_ok. pose proof (not_terminal_open _ _ _ Hs Hj Ht) as Hopen. split.
  - intros _ Hcl. pose proof (update_write_sound u1 i _ cur cur tb Hs Hj Hopen Hst Hnp) as Hw.
    assert (now (fst (update_write u1 i (mkUpdate "running" None) cur tb)) = now tb) as Hn
      by (unfold update_write; rewrite Hj; destruct (decide (index_allows _ _ _)); reflexivity).
    destruct (update_write u1 i _ cur tb) as [tb1 r1]. cbn [fst] in Hn. destruct Hw as (Hs1 & _ & -> & E1 & _).
    assert (jobs tb1 !! i = Some (advanced u1 (mkUpdate "running" None) (now tb) cur)) as Hj1
      by (rewrite E1; apply lookup_insert_eq).
    assert (is_open (advanced u1 (mkUpdate "running" None) (now tb) cur)) as Ho1 by (unfold is_open; cbn; right; by left).
    pose proof (update_write_sound u2 i _ cur _ tb1 Hs1 Hj1 Ho1 Hst Hnp) as Hw.
    destruct (update_write u2 i _ cur tb1) as [tb2 r2]. destruct Hw as (_ & _ & -> & E2 & _).
    exists (advanced u1 (mkUpdate "running" None) (now tb) cur). rewrite E2, lookup_insert_eq, Hn.
    unfold advanced. rewrite Hcl. by split_and!.
  - intros (_ & Hst2 & Hnp2 & _)%update_check_ok Hone.
    pose proof (update_write_sound u2 i _ cur cur tb Hs Hj Hopen Hst2 Hnp2) as Hw.
    destruct (update_write u2 i _ cur tb) as [tb1 r1]. destruct Hw as (Hs1 & _ & -> & E1 & _).
    assert (jobs tb1 !! i = Some (advanced u2 (mkUpdate "done" None) (now tb) cur)) as Hj1
      by (rewrite E1; apply lookup_insert_eq).
    unfold update_write. rewrite Hj1. rewrite decide_True.
    + eexists _, _. split; [done|]. split; [done|]. split; [done|].
      split; [exact (lookup_insert_eq (jobs tb1) i _)|by split].
    + right. apply Forall_forall. intros [k x] Hk%elem_of_map_to_list. cbn [fst snd].
      destruct (decide (k = i)) as [|Hne]; [by left|right; right]. intros Hx.
      rewrite E1, lookup_insert_ne in Hk by done. by apply Hne, (Hone k x).
Qed.
End Steps.

(** ** Examples

    Team 9 with a manager (1) and two editors (2 and 3) of its vault 7, which
    holds an ssh key (50) and an identity (51). *)
Definition ex_ids (n : N) : uuid := (100 + n)%N.
Definition ex_editor : AccessRow := VaultAccess.mkRow "team" (Some 9%N) 1 (Some "editor") (Some false) None None false false.
Definition ex_tables : Tables :=
  mkTables 1000000 0 ∅ {[50%N := mkSecret 7 "ssh_key" false None 0; 51%N := mkSecret 7 "identity" false (Some 900000) 0]}
    {[7%N := 9%N]}
    (mkDb [mkRole 20 9 "manager" "Manager" "" ["rotation.manage"] false 1] [mkMember 9 1 "member" 20 "manual"] ∅ [])
    (fun v u => if bool_decide (v = 7%N /\ u ∈ [2%N; 3%N]) then Some ex_editor else None) (fun _ => (10, 30)).

Lemma ex_ids_inj n m : ex_ids n = ex_ids m -> n = m.
Proof. unfold ex_ids. lia. Qed.

Lemma ex_sound : sound ex_ids ex_tables.
Proof. by split. Qed.

Definition ex_queued : Tables := fst (create ex_ids 1 9 (mkCreate 7 [50%N] "leaked") ex_tables).
Definition ex_done : Tables := fst (update 2 100 (mkUpdate "done" None) ex_queued).

Lemma ex_queued_sound : sound ex_ids ex_queued.
Proof. apply (create_sound ex_ids ex_ids_inj 1 9 (mkCreate 7 [50%N] "leaked") ex_tables ex_sound). Qed.

Example ex_due : map d_entity (due ex_tables 9 10 30) = [50%N] /\ due ex_done 9 10 30 = [] /\ length (mine 3 ex_queued) = 1%nat.
Proof. by vm_compute. Qed.

Lemma jobs_only_advance_witness :
  sound ex_ids ex_done /\ exists j j', jobs ex_queued !! 100%N = Some j /\ jobs ex_done !! 100%N = Some j' /\
    j_status j' = "done" /\ advances j j'.
Proof.
  destruct (jobs_only_advance ex_ids ex_ids_inj ex_queued ex_done ex_queued_sound) as [Hs Ha].
  - apply rtc_once, step_update.
  - split; [exact Hs|]. eexists _, _. split; [vm_compute; reflexivity|]. split; [vm_compute; reflexivity|].
    split; [done|]. by apply (Ha 100%N); vm_compute.
Defined.

Lemma update_is_exact_witness : exists j', snd (update 2 100 (mkUpdate "done" None) ex_queued) = Ok j' /\
  jobs ex_done = <[100%N := j']> (jobs ex_queued).
Proof.
  destruct (update 2 100 (mkUpdate "done" None) ex_queued) as [tb' r] eqn:Hu.
  destruct r as [j'|]; [|by vm_compute in Hu]. exists j'. split; [done|].
  destruct (update_is_exact ex_ids 2 100 (mkUpdate "done" None) ex_queued tb' j' ex_queued_sound Hu)
    as (j & _ & _ & _ & _ & _ & Hjobs & _).
  unfold ex_done. by rewrite Hu.
Defined.

Lemma overlapping_updates_undo_each_other_witness :
  let cur := mkJob 9 7 50 "ssh_key" "pending" "leaked" None 1 None 1000000 1000000 None in
  let '(tb1, r1) := update_write 3 100 (mkUpdate "done" None) cur ex_queued in
  let '(tb2, r2) := update_write 2 100 (mkUpdate "running" None) cur tb1 in
  exists j1 j2, r1 = Ok j1 /\ j_status j1 = "done" /\ r2 = Ok j2 /\ jobs tb2 !! 100%N = Some j2 /\
    j_status j2 = "running" /\ j_finished j2 = None.
Proof.
  apply (proj2 (overlapping_updates_undo_each_other ex_ids 2 3 100 ex_queued
    (mkJob 9 7 50 "ssh_key" "pending" "leaked" None 1 None 1000000 1000000 None) ex_queued_sound ltac:(by vm_compute))).
  - by vm_compute.
  - intros k j Hk _. destruct (decide (k = 100%N)) as [|Hne]; [done|].
    assert (jobs ex_queued = {[100%N := mkJob 9 7 50 "ssh_key" "pending" "leaked" None 1 None 1000000 1000000 None]}) as E
      by (by vm_compute).
    by rewrite E, lookup_singleton_ne in Hk.
Defined.
