(* ===== verification/History.v ===== *)
(** * Command and connection history

    Entries on the wire ([crates/termoso-proto/src/sync.rs]) and the device's
    table [history] ([crates/termoso-core/src/store/history.rs]), a table beside
    the [ClientStore], with the cursor the account keeps. Timestamps are stored
    as RFC 3339 text, whose order is that of the times; a new row whose id
    exists is a primary key refused ([Db]). Serde, the clock and random ids are
    parameters. [HistoryRoutes] models the server's side and [HistorySync] the
    exchange between the two. *)
From S2P Require Import Prelude Text Envelope SyncTypes.
From S2P Require ClientStore.
Import ClientStore (core, CoreError(..), Store, uuid).

#[local] Open Scope string_scope.
#[local] Open Scope list_scope.

(** ** The wire *)

Inductive HistoryKind : Type := Command | Connection.
#[export] Instance HistoryKind_eq_dec : EqDecision HistoryKind.
Proof. solve_decision. Defined.

Record HistoryEntry := mkEntry {
  id : uuid; kind : HistoryKind; data : string; key_version : Z; created_at : Z; seq : Z; deleted : bool
}.
#[export] Instance HistoryEntry_eq_dec : EqDecision HistoryEntry.
Proof. solve_decision. Defined.

Record HistoryPullResponse := mkPulled { p_entries : list HistoryEntry; p_since : Z; p_has_more : bool }.

Definition kind_str (k : HistoryKind) : string :=
  match k with Command => "command" | Connection => "connection" end.

(** ** The device *)

(** A row of [history]. *)
Record HistRow := mkHist {
  t_kind : string; t_vault : uuid; t_data : string; t_key_version : Z; t_created : Z; t_seq : Z;
  t_deleted : bool; t_dirty : bool
}.

(** The store, the table [history] and the account's [history_cursor], which
    is there while somebody is signed in. *)
Record Dev := mkDev { base : Store; hist : gmap uuid HistRow; account : option Z }.
Definition with_hist (d : Dev) (f : gmap uuid HistRow -> gmap uuid HistRow) : Dev :=
  mkDev (base d) (f (hist d)) (account d).

Record CommandHistory := mkCommand { c_host : option uuid; command : string }.
Record ConnectionHistory := mkConnection {
  n_host : option uuid; n_label : string; n_target : string; n_protocol : string;
  n_duration : option Z; n_error : option string
}.
Record HistoryItem (T : Type) := mkItem { i_id : uuid; i_created : Z; i_data : T }.
Arguments mkItem {T}. Arguments i_id {T}. Arguments i_created {T}. Arguments i_data {T}.

(** What serde derives for the payloads. *)
Class Serde (T : Type) := { to_json : T -> option string; from_json : string -> option T }.

Definition parse_kind (s : string) : core HistoryKind :=
  if decide (s = "command") then Ok Command
  else if decide (s = "connection") then Ok Connection
  else Err (Invalid ("history kind " +:+ s)).

Definition newest_first (a b : uuid * HistRow) : Prop := t_created (snd b) <= t_created (snd a).
#[export] Instance newest_first_dec a b : Decision (newest_first a b).
Proof. unfold newest_first. apply _. Defined.

(** [WHERE kind = ?1 AND deleted = 0 ORDER BY created_at DESC]. *)
Definition listed (k : HistoryKind) (d : Dev) : list (uuid * HistRow) :=
  merge_sort newest_first
    (filter (fun p => t_kind (snd p) = kind_str k /\ t_deleted (snd p) = false) (map_to_list (hist d))).

(** Deleting keeps a tombstone of what the server knows. *)
Definition bury (r : HistRow) : HistRow :=
  mkHist (t_kind r) (t_vault r) "" (t_key_version r) (t_created r) (t_seq r) true true.
Definition bury_where (P : uuid -> HistRow -> bool) (t : gmap uuid HistRow) : gmap uuid HistRow :=
  filter (fun p => (P (fst p) (snd p) && (t_seq (snd p) =? 0)%Z) = false)
    (map_imap (fun i r => Some (if P i r && (0 <? t_seq r)%Z then bury r else r)) t).

Definition delete_history (d : Dev) (i : uuid) : Dev :=
  with_hist d (bury_where (fun j _ => bool_decide (j = i))).
Definition clear_history (d : Dev) (k : option HistoryKind) : Dev :=
  with_hist d (bury_where (fun _ r => match k with Some k => bool_decide (t_kind r = kind_str k) | None => true end)).

(** [dirty_history]: the first kind that cannot be read is the error. *)
Fixpoint wire_entries (l : list (uuid * HistRow)) : core (list HistoryEntry) :=
  match l with
  | [] => Ok []
  | (i, r) :: l' =>
      k ← parse_kind (t_kind r);
      es ← wire_entries l';
      Ok (mkEntry i k (t_data r) (t_key_version r) (t_created r) (t_seq r) (t_deleted r) :: es)
  end.
Definition dirty_history (d : Dev) : core (list HistoryEntry) :=
  wire_entries (filter (fun p => t_dirty (snd p) = true) (map_to_list (hist d))).

Definition set_clean (s : Z) (r : HistRow) : HistRow :=
  mkHist (t_kind r) (t_vault r) (t_data r) (t_key_version r) (t_created r)
    (if (t_seq r =? 0)%Z then s else t_seq r) (t_deleted r) false.
Definition mark_history_pushed (d : Dev) (ids : list uuid) (s : Z) : Dev :=
  with_hist d (fun t => filter (fun p => (t_deleted (snd p) && negb (t_dirty (snd p))) = false)
    (fold_left (fun t i => alter (set_clean s) i t) ids t)).

(** The number of the row this device holds unchanged. *)
Definition known (t : gmap uuid HistRow) (i : uuid) : option Z :=
  match t !! i with Some r => if t_dirty r then None else Some (t_seq r) | None => None end.

(** One entry of [apply_remote_history]; [n] counts the rows changed. *)
Definition apply_entry (personal : uuid) (acc : gmap uuid HistRow * nat) (e : HistoryEntry) :
    gmap uuid HistRow * nat :=
  let '(t, n) := acc in
  if deleted e then (delete (id e) t, (n + if decide (is_Some (t !! id e)) then 1 else 0)%nat)
  else if decide (known t (id e) = Some (seq e)) then (t, n)
  else
    (<[id e :=
        match t !! id e with
        | None => mkHist (kind_str (kind e)) personal (data e) (key_version e) (created_at e) (seq e) false false
        | Some r => mkHist (t_kind r) (t_vault r) (data e) (key_version e) (t_created r) (seq e) false false
        end]> t, S n).

Definition apply_remote_history (d : Dev) (es : list HistoryEntry) : Dev * nat :=
  match ClientStore.personal_vault (base d) with
  | None => (d, 0%nat)
  | Some p =>
      let '(t, n) := fold_left (apply_entry (ClientStore.lv_id p)) es (hist d, 0%nat) in
      (mkDev (base d) t (account d), n)
  end.

Definition set_history_cursor (d : Dev) (c : Z) : Dev := mkDev (base d) (hist d) (const c <$> account d).

Section Payloads.
Context (seal unseal : bytes -> bytes -> bytes -> bytes -> option bytes).
Context (b64_encode : bytes -> string) (b64_decode : string -> option bytes).
Context (uuid_text : uuid -> string).
Context {serde_c : Serde CommandHistory} {serde_n : Serde ConnectionHistory}.

Definition aad (k : HistoryKind) (i : uuid) : string := label ["history"; kind_str k; uuid_text i].

Definition history_vault (d : Dev) : core uuid :=
  match ClientStore.personal_vault (base d) with
  | Some p =>
      if ClientStore.unlocked p then Ok (ClientStore.lv_id p)
      else ClientStore.lv_id <$> ClientStore.local_vault (base d)
  | None => ClientStore.lv_id <$> ClientStore.local_vault (base d)
  end.

(** [id] and [nonce] are random. *)
Definition record_history {T} `{Serde T} (d : Dev) (now : Z) (nonce : bytes) (i : uuid) (k : HistoryKind) (x : T) :
    core (Dev * uuid) :=
  v ← history_vault d;
  key ← ClientStore.vault_key (base d) v;
  lv ← ClientStore.vault (base d) v;
  json ← ok_or (to_json x) Json;
  ct ← ClientStore.crypto (encrypt_str seal b64_encode key (aad k i) nonce json);
  if decide (is_Some (hist d !! i)) then Err Db
  else Ok (with_hist d (<[i := mkHist (kind_str k) v ct (ClientStore.lv_key_version lv) now 0 false
             (ClientStore.is_synced (ClientStore.lv_kind lv))]>), i).

Definition record_command (d : Dev) (now : Z) (nonce : bytes) (i : uuid) (x : CommandHistory) : core (Dev * uuid) :=
  if decide (trim (command x) = "") then Err (Invalid "empty command") else record_history d now nonce i Command x.
Definition record_connection (d : Dev) (now : Z) (nonce : bytes) (i : uuid) (x : ConnectionHistory) :
    core (Dev * uuid) := record_history d now nonce i Connection x.

(** The loop of [list_history]: rows of locked vaults are passed over, any
    other error is the answer. *)
Fixpoint read_items {T} `{Serde T} (s : Store) (k : HistoryKind) (l : list (uuid * HistRow)) :
    core (list (HistoryItem T)) :=
  match l with
  | [] => Ok []
  | (i, r) :: l' =>
      match ClientStore.vault_key s (t_vault r) with
      | Err _ => read_items s k l'
      | Ok key =>
          pt ← ClientStore.crypto (decrypt_str unseal b64_decode key (aad k i) (t_data r));
          x ← ok_or (from_json pt) Json;
          xs ← read_items s k l';
          Ok (mkItem i (t_created r) x :: xs)
      end
  end.
Definition list_history {T} `{Serde T} (d : Dev) (k : HistoryKind) (limit : nat) : core (list (HistoryItem T)) :=
  read_items (base d) k (take limit (listed k d)).

Definition update_connection (d : Dev) (nonce : bytes) (i : uuid) (x : ConnectionHistory) : core Dev :=
  match hist d !! i with
  | Some r =>
      if bool_decide (t_kind r = "connection") && negb (t_deleted r) then
        key ← ClientStore.vault_key (base d) (t_vault r);
        json ← ok_or (to_json x) Json;
        ct ← ClientStore.crypto (encrypt_str seal b64_encode key (aad Connection i) nonce json);
        lv ← ClientStore.vault (base d) (t_vault r);
        Ok (with_hist d (<[i := mkHist (t_kind r) (t_vault r) ct (t_key_version r) (t_created r) (t_seq r)
              (t_deleted r) (ClientStore.is_synced (ClientStore.lv_kind lv))]>))
      else Err (NotFound "connection")
  | None => Err (NotFound "connection")
  end.

Definition commands (d : Dev) (limit : nat) : core (list (HistoryItem CommandHistory)) := list_history d Command limit.
Definition connections (d : Dev) (limit : nat) : core (list (HistoryItem ConnectionHistory)) :=
  list_history d Connection limit.

(** The vault of each saved host, from the rows, locked or not. *)
Definition host_vaults (s : Store) : gmap uuid uuid :=
  list_to_map (map (fun r => (ClientStore.id r, ClientStore.vault_id r))
    (rev (ClientStore.rows s (ClientStore.mkFilter None (Some "host") false)))).
Definition connections_by_vault (d : Dev) (limit : nat) :
    core (list (HistoryItem ConnectionHistory * option uuid)) :=
  let hv := host_vaults (base d) in
  items ← connections d limit;
  Ok (map (fun item => (item, n_host (i_data item) ≫= (fun h => hv !! h))) items).

(** The loop of [complete_command]. *)
Fixpoint complete (prefix : string) (limit : nat) (seen : gset string) (out l : list string) : list string :=
  match l with
  | [] => out
  | c :: l' =>
      if String.prefix prefix c && bool_decide (c ∉ seen) then
        let out := out ++ [c] in
        if (limit <=? length out)%nat then out else complete prefix limit ({[c]} ∪ seen) out l'
      else complete prefix limit seen out l'
  end.
Definition complete_command (d : Dev) (prefix : string) (limit : nat) : core (list string) :=
  items ← commands d 2000;
  Ok (complete prefix limit ∅ [] (map (fun it => command (i_data it)) items)).

(** The loop of [adopt_local_history], which stops at the first error; the
    rows before it stay moved. *)
Fixpoint adopt_rows (lk pk : bytes) (personal : uuid) (kv : Z) (nonces : nat -> bytes) (l : list (uuid * HistRow))
    (done : nat) (t : gmap uuid HistRow) : gmap uuid HistRow * core unit :=
  match l with
  | [] => (t, Ok tt)
  | (i, r) :: l' =>
      match
        k ← parse_kind (t_kind r);
        pt ← ClientStore.crypto (decrypt_str unseal b64_decode lk (aad k i) (t_data r));
        ClientStore.crypto (encrypt_str seal b64_encode pk (aad k i) (nonces done) pt)
      with
      | Err e => (t, Err e)
      | Ok ct =>
          adopt_rows lk pk personal kv nonces l' (S done)
            (alter (fun r => mkHist (t_kind r) personal ct kv (t_created r) (t_seq r) (t_deleted r) true) i t)
      end
  end.
Definition adopt_local_history (d : Dev) (nonces : nat -> bytes) : Dev * core nat :=
  match ClientStore.personal_vault (base d) with
  | None => (d, Ok 0%nat)
  | Some p =>
      match
        local ← ClientStore.local_vault (base d);
        lk ← ClientStore.vault_key (base d) (ClientStore.lv_id local);
        pk ← ClientStore.vault_key (base d) (ClientStore.lv_id p);
        Ok (local, lk, pk)
      with
      | Err e => (d, Err e)
      | Ok (local, lk, pk) =>
          let rows := filter (fun q => t_vault (snd q) = ClientStore.lv_id local /\ t_deleted (snd q) = false)
                        (map_to_list (hist d)) in
          let '(t, r) := adopt_rows lk pk (ClientStore.lv_id p) (ClientStore.lv_key_version p) nonces rows 0 (hist d) in
          (with_hist d (const t), (fun _ => length rows) <$> r)
      end
  end.
End Payloads.
