(* ===== verification/HistoryRoutes.v ===== *)
(** * The server's history of a user

    [crates/termoso-server/src/routes/history.rs]: push, pull and clear over the
    tables [history_entries] and [users] (its column [history_seq]). *)
From S2P Require Import Prelude SyncTypes.
From S2P Require ClientStore.
From S2P Require Import History.
Import ClientStore (uuid).

#[local] Open Scope string_scope.
#[local] Open Scope list_scope.

(** A row of [history_entries]; [history_seq] is a column of [users]. *)
Record HRow := mkHRow {
  h_user : uuid; h_kind : string; h_data : string; h_key_version : Z; h_created : Z; h_seq : Z; h_deleted : bool
}.
Record Db := mkDb { history_seq : gmap uuid Z; entries : gmap uuid HRow }.

Inductive Error : Type := RateLimited | TooLarge (msg : string) | Internal.

(** What a request meets: whether the user has used up the limit, the
    settings, base64, the clock (microseconds) and whether Redis takes the
    event. *)
Record Env := mkEnv {
  limited : bool; max_entity_bytes : nat; unb64 : string -> bool; now : Z; publishes : bool
}.

Definition parse_kind (s : string) : HistoryKind := if decide (s = "connection") then Connection else Command.

Definition next_seq (db : Db) (u : uuid) : result Error (Db * Z) :=
  match history_seq db !! u with
  | Some s => Ok (mkDb (<[u := s + 1]> (history_seq db)) (entries db), s + 1)
  | None => Err Internal
  end.

(** [INSERT ... ON CONFLICT (id) DO UPDATE ... WHERE user_id = EXCLUDED.user_id]. *)
Definition upsert_entry (u : uuid) (s : Z) (e : HistoryEntry) (t : gmap uuid HRow) : gmap uuid HRow :=
  let d := if deleted e then "" else data e in
  match t !! id e with
  | None => <[id e := mkHRow u (kind_str (kind e)) d (key_version e) (created_at e) s (deleted e)]> t
  | Some r =>
      if decide (h_user r = u) then
        <[id e := mkHRow (h_user r) (h_kind r) d (key_version e) (h_created r) s (deleted e)]> t
      else t
  end.

Definition with_seq (s : Z) (e : HistoryEntry) : HistoryEntry :=
  mkEntry (id e) (kind e) (data e) (key_version e) (created_at e) s (deleted e).

(** The loop of [push]: the entries answered and the last number given out. *)
Fixpoint push_entries (u : uuid) (db : Db) (out : list HistoryEntry) (last : Z) (l : list HistoryEntry) :
    result Error (Db * list HistoryEntry * Z) :=
  match l with
  | [] => Ok (db, out, last)
  | e :: l' =>
      '(db, s) ← next_seq db u;
      push_entries u (mkDb (history_seq db) (upsert_entry u s e (entries db))) (out ++ [with_seq s e]) s l'
  end.

Definition refused (env : Env) (e : HistoryEntry) : bool :=
  (max_entity_bytes env <? String.length (data e))%nat || (negb (deleted e) && negb (unb64 env (data e))).

(** A handler: the tables it leaves, the answer, and whether it announced a
    change; an event that fails fails the request after the commit. *)
Definition announce {A} (env : Env) (a : A) : result Error A := if publishes env then Ok a else Err Internal.

Definition push (env : Env) (u : uuid) (db : Db) (req : list HistoryEntry) : Db * result Error HistoryPullResponse :=
  if limited env then (db, Err RateLimited)
  else if (MAX_BATCH <? length req)%nat then (db, Err (TooLarge "At most 500 entries per push"))
  else if existsb (refused env) req then (db, Err (TooLarge "History entry too large"))
  else
    match push_entries u db [] 0 req with
    | Err e => (db, Err e)
    | Ok (db', out, last) =>
        let resp := mkPulled out last false in
        (db', if (0 <? last)%Z then announce env resp else Ok resp)
    end.

Definition clamp_limit (l : option Z) : nat :=
  Z.to_nat (clamp (default (Z.of_nat MAX_BATCH) l) 1 (Z.of_nat MAX_BATCH)).

Definition entry_of (i : uuid) (r : HRow) : HistoryEntry :=
  mkEntry i (parse_kind (h_kind r)) (h_data r) (h_key_version r) (h_created r) (h_seq r) (h_deleted r).
Definition seq_le (a b : uuid * HRow) : Prop := h_seq (snd a) <= h_seq (snd b).
#[export] Instance seq_le_dec a b : Decision (seq_le a b).
Proof. unfold seq_le. apply _. Defined.

(** [WHERE user_id = $1 AND seq > $2 ORDER BY seq]. *)
Definition newer (u : uuid) (db : Db) (since : Z) : list (uuid * HRow) :=
  merge_sort seq_le (filter (fun p => h_user (snd p) = u /\ since < h_seq (snd p)) (map_to_list (entries db))).

Definition pull (u : uuid) (db : Db) (since : Z) (limit : option Z) : HistoryPullResponse :=
  let limit := clamp_limit limit in
  let rows := take (limit + 1) (newer u db since) in
  let es := map (fun p => entry_of (fst p) (snd p)) (take limit rows) in
  mkPulled es (match last es with Some e => seq e | None => since end) (limit <? length rows)%nat.

(** [interval '30 days']. *)
Definition THIRTY_DAYS : Z := 30 * 24 * 60 * 60 * 1000000.

Definition clears (u : uuid) (k : option HistoryKind) (r : HRow) : bool :=
  bool_decide (h_user r = u) && negb (h_deleted r) &&
  match k with Some k => bool_decide (h_kind r = kind_str k) | None => true end.
Definition tombstone (s : Z) (r : HRow) : HRow :=
  mkHRow (h_user r) (h_kind r) "" (h_key_version r) (h_created r) s true.
Definition purged (env : Env) (u : uuid) (r : HRow) : bool :=
  bool_decide (h_user r = u) && h_deleted r && (h_created r <? now env - THIRTY_DAYS)%Z.

Definition clear (env : Env) (u : uuid) (db : Db) (k : option HistoryKind) : Db * result Error unit :=
  match next_seq db u with
  | Err e => (db, Err e)
  | Ok (db', s) =>
      let t := (fun r => if clears u k r then tombstone s r else r) <$> entries db' in
      (mkDb (history_seq db') (filter (fun p => purged env u (snd p) = false) t), announce env tt)
  end.
