(* ===== verification/HistorySync.v ===== *)
(** * Exchanging history with the server

    [sync_history_into] of [crates/termoso-core/src/sync.rs] over the device of
    [History], and the server's routes as what it talks to. As in
    [ClientSync], a call may find the device changed when it returns, since the
    user goes on working meanwhile. *)
From S2P Require Import Prelude Text Envelope SyncTypes.
From S2P Require ClientStore VaultAccess.
From S2P Require Import History.
From S2P Require HistoryRoutes.
Import ClientStore (core, CoreError(..), Store, uuid).
Import HistoryRoutes (HRow, mkHRow, h_user, h_kind, h_data, h_key_version, h_created, h_seq, h_deleted, history_seq,
  Db, mkDb, Env, entry_of, newer).

#[local] Open Scope string_scope.
#[local] Open Scope list_scope.
#[local] Open Scope Z_scope.

(** ** The engine *)

Class HRemote (R : Type) := {
  history_push : list HistoryEntry -> R -> Dev -> R * Dev * core HistoryPullResponse;
  history_pull : Z -> Z -> R -> Dev -> R * Dev * core HistoryPullResponse
}.

(** The remote, the device, [report.history] and whether [HistoryChanged] was
    emitted. *)
Record Sync (R : Type) := mkSync { remote : R; dev : Dev; report : nat * nat; emitted : bool }.
Arguments mkSync {R}. Arguments remote {R}. Arguments dev {R}. Arguments report {R}. Arguments emitted {R}.

Definition H (R A : Type) : Type := Sync R -> Sync R * core A.
#[export] Instance H_ret R : MRet (H R) := fun _ a st => (st, Ok a).
#[export] Instance H_bind R : MBind (H R) := fun _ _ k m st =>
  match m st with (st, Ok a) => k a st | (st, Err e) => (st, Err e) end.

Section Engine.
Context {R : Type} {api : HRemote R} (batch : nat).

Definition call {A} (f : R -> Dev -> R * Dev * core A) : H R A :=
  fun st => let '(r, d, a) := f (remote st) (dev st) in (mkSync r d (report st) (emitted st), a).
Definition with_dev (f : Dev -> Dev) : H R unit :=
  fun st => (mkSync (remote st) (f (dev st)) (report st) (emitted st), Ok tt).
Definition reads {A} (f : Dev -> core A) : H R A := fun st => (st, f (dev st)).
Definition count (f : nat * nat -> nat * nat) : H R unit :=
  fun st => (mkSync (remote st) (dev st) (f (report st)) (emitted st), Ok tt).
Definition emit : H R unit := fun st => (mkSync (remote st) (dev st) (report st) true, Ok tt).

Definition mark_all (es : list HistoryEntry) (d : Dev) : Dev :=
  fold_left (fun d e => mark_history_pushed d [id e] (seq e)) es d.

Fixpoint push_chunks (l : list (list HistoryEntry)) : H R unit :=
  match l with
  | [] => mret tt
  | chunk :: l' =>
      resp ← call (history_push chunk);
      _ ← with_dev (mark_all (p_entries resp));
      _ ← count (fun r => (fst r + length (p_entries resp), snd r)%nat);
      push_chunks l'
  end.

Definition next_cursor (since : Z) (resp : HistoryPullResponse) : Z :=
  Z.max (match map seq (p_entries resp) with [] => since | q :: qs => fold_left Z.max qs q end) (p_since resp).

Definition apply_page (resp : HistoryPullResponse) : H R bool :=
  fun st =>
    let '(d, n) := apply_remote_history (dev st) (p_entries resp) in
    (mkSync (remote st) d (fst (report st), snd (report st) + n)%nat (emitted st), Ok (0 <? n)%nat).

(** [None] is out of fuel. *)
Fixpoint pull_loop (fuel : nat) (since : Z) (changed : bool) : H R (option bool) :=
  match fuel with
  | O => mret None
  | S fuel' =>
      resp ← call (history_pull since (Z.of_nat batch));
      c ← apply_page resp;
      let next := next_cursor since resp in
      _ ← with_dev (fun d => if since <? next then set_history_cursor d next else d);
      let since := Z.max since next in
      if negb (p_has_more resp) || bool_decide (p_entries resp = []) then mret (Some (changed || c))
      else pull_loop fuel' since (changed || c)
  end.

Definition sync_history_into (fuel : nat) : H R (option unit) :=
  since ← reads (fun d => ok_or (account d) NotSignedIn);
  dirty ← reads dirty_history;
  _ ← push_chunks (chunks batch dirty);
  changed ← pull_loop fuel since false;
  match changed with
  | None => mret None
  | Some true => _ ← emit; mret (Some tt)
  | Some false => mret (Some tt)
  end.
End Engine.

(** The routes as a user's remote, the device not touched meanwhile. *)
Definition api_error (e : HistoryRoutes.Error) : CoreError :=
  match e with
  | HistoryRoutes.RateLimited => Api "rate_limited" | HistoryRoutes.TooLarge _ => Api "payload_too_large" | HistoryRoutes.Internal => Api "internal"
  end.
Definition server (env : Env) (u : uuid) : HRemote Db := {|
  history_push req db d :=
    match HistoryRoutes.push env u db req with
    | (db, Ok r) => (db, d, Ok r)
    | (db, Err e) => (db, d, Err (api_error e))
    end;
  history_pull since limit db d := (db, d, Ok (HistoryRoutes.pull u db since (Some limit)))
|}.

(** ** The server's tables *)

(** The tables of a user whose history was only pushed to: numbers are used
    once, and below the counter. *)
Definition last_seq (u : uuid) (db : Db) : Z := default 0 (history_seq db !! u).
Record db_ok (u : uuid) (db : Db) : Prop := {
  ok_counter : is_Some (history_seq db !! u) /\ 0 <= last_seq u db;
  ok_below : forall i r, HistoryRoutes.entries db !! i = Some r -> h_user r = u -> 0 < h_seq r <= last_seq u db;
  ok_once : forall i j r r', HistoryRoutes.entries db !! i = Some r -> HistoryRoutes.entries db !! j = Some r' ->
    h_user r = u -> h_user r' = u -> h_seq r = h_seq r' -> i = j;
  ok_kind : forall i r, HistoryRoutes.entries db !! i = Some r -> h_kind r = kind_str (HistoryRoutes.parse_kind (h_kind r))
}.

Definition same_row (r r' : HRow) : Prop :=
  h_user r' = h_user r /\ h_kind r' = h_kind r /\ h_created r' = h_created r.

(** What pushes, the user's or others', make of the tables. *)
Record grows (u : uuid) (db db' : Db) : Prop := {
  gr_seq : last_seq u db <= last_seq u db';
  gr_new : forall i r', HistoryRoutes.entries db' !! i = Some r' -> h_user r' = u ->
    HistoryRoutes.entries db !! i = Some r' \/ last_seq u db < h_seq r';
  gr_kept : forall i r, HistoryRoutes.entries db !! i = Some r -> exists r', HistoryRoutes.entries db' !! i = Some r' /\ same_row r r'
}.

Lemma same_row_refl r : same_row r r.
Proof. done. Qed.

Lemma table_grows_refl u db : grows u db db.
Proof. split; [lia|auto|]. intros i r Hr. exists r. by split. Qed.

Lemma table_grows_trans u db1 db2 db3 : grows u db1 db2 -> grows u db2 db3 -> grows u db1 db3.
Proof.
  intros [A1 B1 C1] [A2 B2 C2]. split; [lia| |].
  - intros i r Hr Hu. destruct (B2 i r Hr Hu) as [H2|H2]; [|right; lia]. by apply B1.
  - intros i r (r2 & H2 & S2)%C1. destruct (C2 i r2 H2) as (r3 & H3 & S3). exists r3. split; [done|].
    unfold same_row in *. intuition congruence.
Qed.

(** One entry of a push. *)
Definition put (v : uuid) (s : Z) (e : HistoryEntry) (db : Db) : Db :=
  mkDb (<[v := s]> (history_seq db)) (HistoryRoutes.upsert_entry v s e (HistoryRoutes.entries db)).
Definition new_row (v : uuid) (s : Z) (e : HistoryEntry) (old : option HRow) : HRow :=
  mkHRow v (match old with Some r => h_kind r | None => kind_str (kind e) end) (if deleted e then "" else data e)
    (key_version e) (match old with Some r => h_created r | None => created_at e end) s (deleted e).

(** The entry belongs to nobody else. *)
Definition free (v : uuid) (e : HistoryEntry) (db : Db) : Prop :=
  forall r, HistoryRoutes.entries db !! id e = Some r -> h_user r = v.

Lemma put_entries v s e db : free v e db ->
  HistoryRoutes.entries (put v s e db) = <[id e := new_row v s e (HistoryRoutes.entries db !! id e)]> (HistoryRoutes.entries db).
Proof.
  intros Hf. unfold put, HistoryRoutes.upsert_entry, new_row. cbn [HistoryRoutes.entries].
  destruct (HistoryRoutes.entries db !! id e) as [r|] eqn:E; [|done]. specialize (Hf r E).
  by destruct (decide (h_user r = v)) as [->|].
Qed.

Lemma put_taken v s e db r : HistoryRoutes.entries db !! id e = Some r -> h_user r <> v ->
  HistoryRoutes.entries (put v s e db) = HistoryRoutes.entries db.
Proof. intros E Hr. unfold put, HistoryRoutes.upsert_entry. cbn. rewrite E. by destruct (decide (h_user r = v)). Qed.

Lemma put_cases v e db : (free v e db) \/ exists r, HistoryRoutes.entries db !! id e = Some r /\ h_user r <> v.
Proof.
  unfold free. destruct (HistoryRoutes.entries db !! id e) as [r|] eqn:E; [|by left].
  destruct (decide (h_user r = v)); [left; congruence|right; eauto].
Qed.

Lemma last_seq_put u v s e db : last_seq u (put v s e db) = if decide (u = v) then s else last_seq u db.
Proof.
  unfold last_seq, put. cbn. destruct (decide (u = v)) as [->|]; [by rewrite lookup_insert_eq|by rewrite lookup_insert_ne].
Qed.

Lemma parse_kind_str k : HistoryRoutes.parse_kind (kind_str k) = k.
Proof. by destruct k. Qed.

Section Put.
Context (u v : uuid) (s : Z) (e : HistoryEntry) (db : Db).
Context (Hok : db_ok u db) (Hs : history_seq db !! v = Some s).

Lemma last_seq_next : last_seq u db <= last_seq u (put v (s + 1) e db).
Proof.
  rewrite last_seq_put. destruct (decide (u = v)) as [->|]; [|lia]. unfold last_seq. rewrite Hs. cbn. lia.
Qed.

(** The entries of [u] after the step: the old ones, and a new one with the
    number after the last. *)
Lemma put_lookup i r : HistoryRoutes.entries (put v (s + 1) e db) !! i = Some r ->
  HistoryRoutes.entries db !! i = Some r \/
  (i = id e /\ free v e db /\ r = new_row v (s + 1) e (HistoryRoutes.entries db !! i)).
Proof.
  destruct (put_cases v e db) as [Hf|(r0 & E & Hr)].
  - rewrite put_entries by done. destruct (decide (i = id e)) as [->|Hi].
    + rewrite lookup_insert_eq. intros [= <-]. auto.
    + rewrite lookup_insert_ne by congruence. auto.
  - rewrite (put_taken _ _ _ _ r0) by done. auto.
Qed.

Lemma put_grows : grows u db (put v (s + 1) e db).
Proof.
  split; [apply last_seq_next| |].
  - intros i r [Hr|(-> & _ & ->)]%put_lookup Hu; [by left|]. right. cbn in *. subst v. unfold last_seq. rewrite Hs. cbn. lia.
  - intros i r Hr. destruct (put_cases v e db) as [Hf|(r0 & E & Hr0)].
    + rewrite put_entries by done. destruct (decide (i = id e)) as [->|Hi].
      * rewrite lookup_insert_eq. eexists; split; [done|]. unfold same_row, new_row. rewrite Hr. cbn. by rewrite (Hf r Hr).
      * rewrite lookup_insert_ne by congruence. by exists r.
    + rewrite (put_taken _ _ _ _ r0) by done. by exists r.
Qed.

Lemma put_ok : db_ok u (put v (s + 1) e db).
Proof.
  destruct Hok as [[Hc H0] Hb Ho Hk]. pose proof last_seq_next as Hn. split.
  - split; [|lia]. cbn. destruct (decide (u = v)) as [->|]; [rewrite lookup_insert_eq; eauto|by rewrite lookup_insert_ne].
  - intros i r Hr Hu. apply put_lookup in Hr as [Hr|(-> & _ & ->)]; [specialize (Hb i r Hr Hu); lia|].
    cbn in *. subst v. rewrite last_seq_put. destruct (decide (u = u)); [|done]. unfold last_seq in H0. rewrite Hs in H0. cbn in H0. lia.
  - assert (u = v -> last_seq u db = s) as Hsv by (intros ->; unfold last_seq; by rewrite Hs).
    intros i j r r' [Hr|(-> & _ & ->)]%put_lookup [Hr'|(-> & _ & ->)]%put_lookup Hu Hu' E; [by eapply Ho|..|done].
    + cbn in *. specialize (Hb i r Hr Hu). rewrite Hsv in Hb by done. lia.
    + cbn in *. specialize (Hb j r' Hr' Hu'). rewrite Hsv in Hb by done. lia.
  - intros i r [Hr|(-> & _ & ->)]%put_lookup; [by eapply Hk|]. cbn.
    destruct (HistoryRoutes.entries db !! id e) as [r0|] eqn:E; [by eapply Hk|by rewrite parse_kind_str].
Qed.
End Put.

Lemma push_entries_cons v db out last e l : HistoryRoutes.push_entries v db out last (e :: l) =
  match history_seq db !! v with
  | Some s => HistoryRoutes.push_entries v (put v (s + 1) e db) (out ++ [HistoryRoutes.with_seq (s + 1) e]) (s + 1) l
  | None => Err HistoryRoutes.Internal
  end.
Proof. cbn [HistoryRoutes.push_entries]. unfold HistoryRoutes.next_seq. by destruct (history_seq db !! v). Qed.

Lemma push_entries_grows u v l : forall db out last db' out' last',
  db_ok u db -> HistoryRoutes.push_entries v db out last l = Ok (db', out', last') -> db_ok u db' /\ grows u db db'.
Proof.
  induction l as [|e l IH]; intros db out last db' out' last' Hok.
  - cbn. intros [= <- _ _]. split; [done|apply table_grows_refl].
  - rewrite push_entries_cons. destruct (history_seq db !! v) as [s|] eqn:Es; [|done]. intros E.
    destruct (IH _ _ _ _ _ _ (put_ok u v s e db Hok Es) E) as [Hok' Hg]. split; [done|].
    by eapply table_grows_trans; [apply put_grows|].
Qed.

(** Whatever anybody pushes, the user's table stays in order and grows. *)
Lemma push_grows u env v db req : db_ok u db ->
  db_ok u (fst (HistoryRoutes.push env v db req)) /\ grows u db (fst (HistoryRoutes.push env v db req)).
Proof.
  intros Hok. unfold HistoryRoutes.push. pose proof (table_grows_refl u db) as Hr.
  destruct (HistoryRoutes.limited env); [done|]. destruct (_ <? _)%nat; [done|]. destruct (existsb _ _); [done|].
  destruct (HistoryRoutes.push_entries v db [] 0 req) as [[[db' out] last]|] eqn:E; [|done].
  by apply (push_entries_grows u) in E.
Qed.

(** What happens to the tables between two visits of the device. *)
Inductive pushes : Db -> Db -> Prop :=
| pushes_none db : pushes db db
| pushes_more env v req db db' : pushes (fst (HistoryRoutes.push env v db req)) db' -> pushes db db'.

Lemma pushes_grow u db db' : db_ok u db -> pushes db db' -> db_ok u db' /\ grows u db db'.
Proof.
  intros Hok Hp. revert Hok. induction Hp as [db|env v req db db' _ IH]; intros Hok.
  - split; [done|apply table_grows_refl].
  - destruct (push_grows u env v db req Hok) as [Hok1 Hg1]. destruct (IH Hok1) as [Hok' Hg']. split; [done|].
    by eapply table_grows_trans.
Qed.

(** The user's own push: each entry is stored under the number answered. *)
Lemma push_entries_own u l : forall db out last, db_ok u db -> NoDup (map id l) -> (forall e, e ∈ l -> free u e db) ->
  exists db' es, HistoryRoutes.push_entries u db out last l = Ok (db', out ++ es, match l with [] => last | _ => last_seq u db' end) /\
    map id es = map id l /\
    (forall e', e' ∈ es -> exists e q, e ∈ l /\ e' = HistoryRoutes.with_seq q e /\ last_seq u db < q /\
       HistoryRoutes.entries db' !! id e = Some (new_row u q e (HistoryRoutes.entries db !! id e))) /\
    (forall i, i ∉ map id l -> HistoryRoutes.entries db' !! i = HistoryRoutes.entries db !! i) /\
    (size (HistoryRoutes.entries db') <= size (HistoryRoutes.entries db) + length l)%nat.
Proof.
  induction l as [|e l IH]; intros db out last Hok Hnd Hf.
  - exists db, []. cbn. rewrite app_nil_r. split_and!; auto; [|lia]. intros e' He. by apply elem_of_nil in He.
  - cbn [map] in Hnd. apply NoDup_cons in Hnd as [He Hnd]. destruct (ok_counter _ _ Hok) as [[s Es] Hz].
    assert (Hls : last_seq u db = s) by (unfold last_seq; by rewrite Es).
    pose proof (put_entries u (s + 1) e db (Hf e ltac:(by left))) as Hput.
    pose proof (put_ok u u s e db Hok Es) as Hok1. rewrite push_entries_cons, Es.
    destruct (IH (put u (s + 1) e db) (out ++ [HistoryRoutes.with_seq (s + 1) e]) (s + 1) Hok1 Hnd) as
      (db' & es & E & Hids & Hes & Hother & Hsize).
    { intros e0 He0 r. rewrite Hput. rewrite lookup_insert_ne; [by apply Hf; right|].
      intros E. apply He. rewrite E. by apply list_elem_of_fmap_2. }
    exists db', (HistoryRoutes.with_seq (s + 1) e :: es). rewrite E, <- app_assoc. cbn [app map]. split_and!.
    + do 2 f_equal. destruct l; [|done]. cbn in E. injection E as <- _.
      rewrite last_seq_put. by destruct (decide (u = u)).
    + cbn. by rewrite Hids.
    + intros e' [->|He']%elem_of_cons.
      * exists e, (s + 1). split_and!; [by left|done|lia|]. rewrite Hother by done. rewrite Hput. by rewrite lookup_insert_eq.
      * destruct (Hes e' He') as (e0 & q & He0 & -> & Hq & Hrow). exists e0, q. split_and!; [by right|done| |].
        { rewrite last_seq_put in Hq. destruct (decide (u = u)); [lia|done]. }
        rewrite Hrow, Hput, lookup_insert_ne; [done|]. intros E'. apply He. rewrite E'. by apply list_elem_of_fmap_2.
    + intros i [Hi Hil]%not_elem_of_cons. rewrite Hother by done. rewrite Hput. by rewrite lookup_insert_ne.
    + rewrite Hput, map_size_insert in Hsize. cbn [length]. unfold Datatypes.id in Hsize. destruct (HistoryRoutes.entries db !! id e) in Hsize; lia.
Qed.

(** ** A device that knows the server up to a cursor *)

Section Device.
Context (u : uuid) (synced : uuid -> Prop).
Implicit Types (db : Db) (t : gmap uuid HistRow).

Definition pending t (i : uuid) : Prop := exists r, t !! i = Some r /\ t_dirty r = true.

Definition copy_of (r : HistRow) (hr : HRow) : Prop :=
  t_kind r = h_kind hr /\ t_data r = h_data hr /\ t_key_version r = h_key_version hr /\ t_created r = h_created hr.

(** The device holds a clean copy of a live entry, and nothing of a deleted one. *)
Definition agreed t (i : uuid) (hr : HRow) : Prop :=
  if h_deleted hr then t !! i = None
  else exists r, t !! i = Some r /\ copy_of r hr /\ t_deleted r = false /\ t_dirty r = false /\ 0 < t_seq r.

(** A row against the server's entry of its id. A row not yet numbered is new
    to the device's cursor; a clean one is a copy, current or outdated; what is
    exchanged belongs to a synchronised vault. *)
Record row_ok db (c : Z) (i : uuid) (r : HistRow) : Prop := {
  ro_seq : 0 <= t_seq r <= last_seq u db;
  ro_kind : exists k, t_kind r = kind_str k;
  ro_home : t_dirty r = true \/ 0 < t_seq r -> synced (t_vault r);
  ro_meta : forall hr, HistoryRoutes.entries db !! i = Some hr ->
    h_user hr = u /\ t_kind r = h_kind hr /\ t_created r = h_created hr;
  ro_new : t_seq r = 0 -> forall hr, HistoryRoutes.entries db !! i = Some hr -> c < h_seq hr;
  ro_clean : t_dirty r = false -> t_deleted r = false /\ (t_seq r = 0 -> HistoryRoutes.entries db !! i = None) /\
    (0 < t_seq r -> exists hr, HistoryRoutes.entries db !! i = Some hr /\ t_seq r <= h_seq hr /\
       (t_seq r = h_seq hr -> h_deleted hr = false /\ copy_of r hr))
}.

Record behind db (c : Z) t : Prop := {
  be_cursor : 0 <= c <= last_seq u db;
  be_rows : forall i r, t !! i = Some r -> row_ok db c i r;
  be_seen : forall i hr, HistoryRoutes.entries db !! i = Some hr -> h_user hr = u -> h_seq hr <= c ->
    pending t i \/ agreed t i hr
}.

(** No id of a row of the device turned up on the server by itself. *)
Definition apart db db' t : Prop :=
  forall i, is_Some (t !! i) -> HistoryRoutes.entries db !! i = None -> HistoryRoutes.entries db' !! i = None.

Lemma row_ok_grows db db' c i r : grows u db db' ->
  (HistoryRoutes.entries db !! i = None -> HistoryRoutes.entries db' !! i = None) -> 0 <= c <= last_seq u db ->
  row_ok db c i r -> row_ok db' c i r.
Proof.
  intros [Gs Gn Gk] Ha Hc [Rs Rk Rh Rm Rn Rc].
  assert (Hold : forall hr', HistoryRoutes.entries db' !! i = Some hr' ->
    exists hr, HistoryRoutes.entries db !! i = Some hr /\ same_row hr hr').
  { intros hr' E'. destruct (HistoryRoutes.entries db !! i) as [hr|] eqn:E.
    - destruct (Gk i hr E) as (hr2 & E2 & Hs). exists hr. split; congruence.
    - by rewrite Ha in E'. }
  assert (Hmeta : forall hr', HistoryRoutes.entries db' !! i = Some hr' ->
    h_user hr' = u /\ t_kind r = h_kind hr' /\ t_created r = h_created hr').
  { intros hr' E'. destruct (Hold hr' E') as (hr & E & Hs). destruct (Rm hr E) as (? & ? & ?).
    unfold same_row in Hs. intuition congruence. }
  split; [lia|done|done|done| |].
  - intros H0 hr' E'. destruct (Hmeta hr' E') as (Hu & _). destruct (Gn i hr' E' Hu) as [E|]; [by apply Rn|lia].
  - intros Hd. destruct (Rc Hd) as (Hdel & Hz & Hp). split_and!; [done| |].
    + auto.
    + intros H0. destruct (Hp H0) as (hr & E & Hle & Heq). destruct (Gk i hr E) as (hr' & E' & _).
      destruct (Hmeta hr' E') as (Hu & _). exists hr'. destruct (Gn i hr' E' Hu) as [E2|Hlt].
      * assert (hr' = hr) as -> by congruence. done.
      * split_and!; [done|lia|lia].
Qed.

Lemma behind_grows db db' c t : behind db c t -> grows u db db' -> apart db db' t -> behind db' c t.
Proof.
  intros [Hc Hr Hs] Hg Ha. pose proof Hg as [Gs Gn _]. split; [lia| |].
  - intros i r Hi. apply (row_ok_grows db db'); eauto.
  - intros i hr E Hu Hle. destruct (Gn i hr E Hu) as [E'|]; [by apply Hs|lia].
Qed.

(** *** Pushed rows are marked *)

(** The server holds the device's row under the number it answered. *)
Definition confirmed db t (c : Z) (e : HistoryEntry) : Prop := exists r hr,
  t !! id e = Some r /\ t_dirty r = true /\ HistoryRoutes.entries db !! id e = Some hr /\ h_user hr = u /\ h_seq hr = seq e /\
  c < seq e /\ t_seq r < seq e /\ h_deleted hr = t_deleted r /\ h_key_version hr = t_key_version r /\
  (t_deleted r = false -> h_data hr = t_data r).

Definition marked (s : Z) (i : uuid) (r : HistRow) t : gmap uuid HistRow :=
  if t_deleted r then delete i t else <[i := set_clean s r]> t.

Lemma mark_one d s i r : hist d !! i = Some r ->
  (forall j r, hist d !! j = Some r -> t_dirty r = false -> t_deleted r = false) ->
  mark_history_pushed d [i] s = with_hist d (const (marked s i r (hist d))).
Proof.
  intros Hi Hcl. unfold mark_history_pushed, with_hist. f_equal. cbn [fold_left]. apply map_eq. intros j.
  unfold const, marked. rewrite map_lookup_filter. destruct (decide (j = i)) as [->|Hj].
  - rewrite lookup_alter_eq, Hi. cbn. destruct (t_deleted r) eqn:Ed; cbn.
    + rewrite lookup_delete_eq. unfold guard. by case_decide.
    + rewrite lookup_insert_eq. unfold guard. by case_decide.
  - rewrite lookup_alter_ne by done.
    assert (E : (if t_deleted r then delete i (hist d) else <[i:=set_clean s r]> (hist d)) !! j = hist d !! j).
    { destruct (t_deleted r); [by rewrite lookup_delete_ne|by rewrite lookup_insert_ne]. }
    rewrite E. destruct (hist d !! j) as [r'|] eqn:Ej; [|done]. cbn. unfold guard. case_decide as Hf; [done|].
    destruct Hf. destruct (t_deleted r') eqn:Ed, (t_dirty r') eqn:Ey; try done. by rewrite (Hcl j r' Ej Ey) in Ed.
Qed.

Lemma marked_ne s i r t j : j <> i -> marked s i r t !! j = t !! j.
Proof. intros. unfold marked. destruct (t_deleted r); [by rewrite lookup_delete_ne|by rewrite lookup_insert_ne]. Qed.

Lemma marked_not_pending s i r t : ~ pending (marked s i r t) i.
Proof.
  unfold marked. intros (r' & E & Hd). destruct (t_deleted r).
  - by rewrite lookup_delete_eq in E.
  - rewrite lookup_insert_eq in E. by injection E as <-.
Qed.

Lemma seen_ne t t' i hr : t' !! i = t !! i -> pending t i \/ agreed t i hr -> pending t' i \/ agreed t' i hr.
Proof. unfold pending, agreed. by intros ->. Qed.

Lemma marked_behind db c t e r : db_ok u db -> behind db c t -> confirmed db t c e -> t !! id e = Some r ->
  behind db c (marked (seq e) (id e) r t).
Proof.
  intros Hok [Hc Hr Hs] (r0 & hr & Er & Hd & E & Hu & Hq & Hcq & Hlt & Hdel & Hkv & Hdata) Er'.
  assert (r0 = r) as -> by congruence. pose proof (ok_below _ _ Hok _ _ E Hu) as Hb. split; [done| |].
  - intros i r' Hi. destruct (decide (i = id e)) as [->|Hne]; [|rewrite marked_ne in Hi by done; by apply Hr].
    unfold marked in Hi. destruct (t_deleted r) eqn:Ed; [by rewrite lookup_delete_eq in Hi|].
    rewrite lookup_insert_eq in Hi. injection Hi as <-. destruct (Hr _ _ Er) as [Rs Rk Rh Rm Rn Rc].
    destruct (Rm _ E) as (_ & Hk & Hcr). split; cbn; [destruct (_ =? _)%Z; lia|done|auto|done| |].
    + destruct (Z.eqb_spec (t_seq r) 0); lia.
    + intros _. split_and!; [done|destruct (Z.eqb_spec (t_seq r) 0); lia|]. intros _. exists hr.
      split_and!; [done|destruct (_ =? _)%Z; lia|]. intros _. split; [congruence|]. unfold copy_of. cbn.
      split_and!; [done|by rewrite Hdata|done|done].
  - intros i hr' E' Hu' Hle. destruct (decide (i = id e)) as [->|Hne].
    + assert (hr' = hr) as -> by congruence. lia.
    + eapply seen_ne; [by apply marked_ne|]. by apply Hs.
Qed.

Lemma mark_all_behind db c es : forall d, db_ok u db -> behind db c (hist d) -> NoDup (map id es) ->
  (forall e, e ∈ es -> confirmed db (hist d) c e) ->
  base (mark_all es d) = base d /\ account (mark_all es d) = account d /\ behind db c (hist (mark_all es d)) /\
  (forall j, j ∉ map id es -> hist (mark_all es d) !! j = hist d !! j) /\
  (forall j, j ∈ map id es -> ~ pending (hist (mark_all es d)) j).
Proof.
  induction es as [|e es IH]; intros d Hok Hb Hnd Hcf.
  - split_and!; try done. intros j Hj. by apply elem_of_nil in Hj.
  - cbn [map] in Hnd. apply NoDup_cons in Hnd as [He Hnd]. pose proof (Hcf e ltac:(by left)) as Hce.
    pose proof Hce as (r & _ & Er & _). unfold mark_all. cbn [fold_left].
    rewrite (mark_one d (seq e) (id e) r Er) by (intros j r' Hj Hd; by destruct (be_rows _ _ _ Hb j r' Hj) as [_ _ _ _ _ [? _]]).
    set (d1 := with_hist d (const (marked (seq e) (id e) r (hist d)))).
    assert (Hne : forall j, j <> id e -> hist d1 !! j = hist d !! j) by (intros; by apply marked_ne).
    destruct (IH d1 Hok) as (Hba & Hac & Hbe & Hot & Hpe); [by apply marked_behind|done| |].
    { intros e' He'. destruct (Hcf e' ltac:(by right)) as (r' & hr' & E' & Hrest). exists r', hr'. split; [|done].
      rewrite Hne; [done|]. intros E. apply He. rewrite <- E. by apply list_elem_of_fmap_2. }
    unfold mark_all in *. split_and!; [done|done|done| |].
    + intros j [Hj Hjs]%not_elem_of_cons. rewrite Hot by done. by apply Hne.
    + intros j Hj. destruct (decide (j ∈ map id es)) as [|Hn]; [by apply Hpe|].
      apply elem_of_cons in Hj as [->|]; [|done]. unfold pending. rewrite Hot by done. apply marked_not_pending.
Qed.

(** *** Pushing *)

(** A wire entry for a dirty row. *)
Definition wired t (e : HistoryEntry) : Prop := exists r, t !! id e = Some r /\ t_dirty r = true /\
  t_kind r = kind_str (kind e) /\ data e = t_data r /\ key_version e = t_key_version r /\
  created_at e = t_created r /\ deleted e = t_deleted r.

(** The server's entry is the one sent. *)
Definition saved db (e : HistoryEntry) : Prop := exists hr, HistoryRoutes.entries db !! id e = Some hr /\ h_user hr = u /\
  h_deleted hr = deleted e /\ (deleted e = false -> h_data hr = data e /\ h_key_version hr = key_version e).

Definition accepts (env : Env) (l : list HistoryEntry) : Prop :=
  HistoryRoutes.limited env = false /\ HistoryRoutes.publishes env = true /\ forall e, e ∈ l -> HistoryRoutes.refused env e = false.

Lemma wired_free db c t e : behind db c t -> wired t e -> free u e db.
Proof. intros [_ Hr _] (r & Er & _) hr E. by destruct (ro_meta _ _ _ _ (Hr _ _ Er) hr E). Qed.

Section Push.
Context (env : Env) (db db' : Db) (c : Z) (t : gmap uuid HistRow) (chunk es : list HistoryEntry).
Context (Hok : db_ok u db) (Hb : behind db c t) (Hw : forall e, e ∈ chunk -> wired t e).
Context (Hids : map id es = map id chunk).
Context (Hes : forall e', e' ∈ es -> exists e q, e ∈ chunk /\ e' = HistoryRoutes.with_seq q e /\ last_seq u db < q /\
  HistoryRoutes.entries db' !! id e = Some (new_row u q e (HistoryRoutes.entries db !! id e))).
Context (Hother : forall i, i ∉ map id chunk -> HistoryRoutes.entries db' !! i = HistoryRoutes.entries db !! i).
Context (Hok' : db_ok u db') (Hg : grows u db db').

Lemma pushed_row i : i ∈ map id chunk -> NoDup (map id chunk) -> exists e q, e ∈ chunk /\ id e = i /\ last_seq u db < q /\
  HistoryRoutes.entries db' !! i = Some (new_row u q e (HistoryRoutes.entries db !! i)).
Proof.
  rewrite <- Hids. intros (e' & -> & He')%list_elem_of_fmap _.
  destruct (Hes e' He') as (e & q & He & -> & Hq & E). by exists e, q.
Qed.

Lemma push_behind : NoDup (map id chunk) -> behind db' c t.
Proof.
  intros Hnd. destruct Hb as [Hc Hr Hs]. split; [destruct Hg; lia| |].
  - intros i r Hi. destruct (decide (i ∈ map id chunk)) as [Hin|Hn].
    + destruct (pushed_row i Hin Hnd) as (e & q & He & <- & Hq & E). destruct (Hr _ _ Hi) as [Rs Rk Rh Rm Rn Rc].
      destruct (Hw e He) as (r0 & E0 & Hd & Hk & _ & _ & Hcr & _). assert (r0 = r) as -> by congruence.
      assert (Hm : forall hr, HistoryRoutes.entries db' !! id e = Some hr ->
        h_user hr = u /\ t_kind r = h_kind hr /\ t_created r = h_created hr).
      { intros hr E1. rewrite E in E1. injection E1 as <-. cbn. destruct (HistoryRoutes.entries db !! id e) as [h0|]; [|done].
        by destruct (Rm h0 eq_refl) as (_ & ? & ?). }
      split; [destruct Hg; lia|done|done|done| |congruence].
      intros _ hr E1. rewrite E in E1. injection E1 as <-. cbn. lia.
    + apply (row_ok_grows db db'); try done; [|by apply Hr]. by rewrite Hother.
  - intros i hr E Hu Hle. destruct Hg as [Gs Gn _]. destruct (Gn i hr E Hu) as [E'|]; [by apply Hs|lia].
Qed.

Lemma push_confirmed e' : e' ∈ es -> confirmed db' t c e'.
Proof.
  intros (e & q & He & -> & Hq & E)%Hes. destruct (Hw e He) as (r & Er & Hd & Hk & Hda & Hkv & _ & Hdel).
  exists r, (new_row u q e (HistoryRoutes.entries db !! id e)). destruct Hb as [Hc Hr _]. destruct (Hr _ _ Er) as [Rs _ _ _ _ _].
  cbn. split_and!; try done; try lia. intros Hf. by rewrite Hdel, Hf.
Qed.

Lemma push_saved e : NoDup (map id chunk) -> e ∈ chunk -> saved db' e.
Proof.
  intros Hnd He. destruct (pushed_row (id e)) as (e1 & q & He1 & Hid & _ & E); [by apply list_elem_of_fmap_2|done|].
  assert (e1 = e) as -> by (by eapply (NoDup_map_inj id)).
  eexists. split; [exact E|]. cbn. split_and!; try done. by intros ->.
Qed.
End Push.

Lemma server_push env db c t chunk : db_ok u db -> behind db c t -> accepts env chunk -> (length chunk <= MAX_BATCH)%nat ->
  NoDup (map id chunk) -> (forall e, e ∈ chunk -> wired t e) ->
  exists db' es q, HistoryRoutes.push env u db chunk = (db', Ok (mkPulled es q false)) /\ map id es = map id chunk /\
    db_ok u db' /\ behind db' c t /\ (forall e, e ∈ es -> confirmed db' t c e) /\
    (forall i, i ∉ map id chunk -> HistoryRoutes.entries db' !! i = HistoryRoutes.entries db !! i) /\
    (forall e, e ∈ chunk -> saved db' e) /\
    (size (HistoryRoutes.entries db') <= size (HistoryRoutes.entries db) + length chunk)%nat.
Proof.
  intros Hok Hb (Hlim & Hpub & Hacc) Hlen Hnd Hw.
  destruct (push_entries_own u chunk db [] 0 Hok Hnd) as (db' & es & E & Hids & Hes & Hother & Hsize).
  { intros e He. eapply wired_free; eauto. }
  destruct (push_entries_grows u _ _ _ _ _ _ _ _ Hok E) as [Hok' Hg]. cbn [app] in E.
  exists db', es, (match chunk with [] => 0 | _ => last_seq u db' end). split_and!; try done.
  - unfold HistoryRoutes.push. rewrite Hlim. destruct (Nat.ltb_spec MAX_BATCH (length chunk)); [lia|].
    replace (existsb (HistoryRoutes.refused env) chunk) with false.
    + rewrite E. f_equal. unfold HistoryRoutes.announce. rewrite Hpub. by destruct (_ <? _).
    + symmetry. apply not_true_is_false. intros (e & He & Hr)%existsb_exists.
      rewrite Hacc in Hr; [done|]. by apply list_elem_of_In.
  - by eapply push_behind.
  - intros e He. by eapply push_confirmed.
  - intros e He. by eapply push_saved.
Qed.

Lemma saved_other db db' e : HistoryRoutes.entries db' !! id e = HistoryRoutes.entries db !! id e -> saved db e -> saved db' e.
Proof. unfold saved. by intros ->. Qed.

(** All the chunks: the server has every entry sent, the device no dirty row
    of theirs. *)
Lemma push_chunks_end env c l : forall st, db_ok u (remote st) -> behind (remote st) c (hist (dev st)) ->
  accepts env (concat l) -> Forall (fun p => (length p <= MAX_BATCH)%nat) l -> NoDup (map id (concat l)) ->
  (forall e, e ∈ concat l -> wired (hist (dev st)) e) ->
  exists st', @push_chunks Db (server env u) l st = (st', Ok tt) /\ db_ok u (remote st') /\
    behind (remote st') c (hist (dev st')) /\ base (dev st') = base (dev st) /\ account (dev st') = account (dev st) /\
    (forall i, i ∉ map id (concat l) -> hist (dev st') !! i = hist (dev st) !! i /\
       HistoryRoutes.entries (remote st') !! i = HistoryRoutes.entries (remote st) !! i) /\
    (forall i, i ∈ map id (concat l) -> ~ pending (hist (dev st')) i) /\
    (forall e, e ∈ concat l -> saved (remote st') e) /\
    (size (HistoryRoutes.entries (remote st')) <= size (HistoryRoutes.entries (remote st)) + length (concat l))%nat.
Proof.
  induction l as [|p l IH]; intros st Hok Hb Hacc Hlen Hnd Hw.
  - exists st. cbn. split_and!; try done; try lia; intros i Hi; by apply elem_of_nil in Hi.
  - cbn [concat] in *. rewrite map_app in Hnd. apply NoDup_app in Hnd as (Hndp & Hdis & Hndl).
    inversion_clear Hlen as [|? ? Hp Hl]. destruct Hacc as (Hlim & Hpub & Hacc).
    destruct (server_push env (remote st) c (hist (dev st)) p) as
      (db1 & es & q & Epush & Hids & Hok1 & Hb1 & Hcf & Hot & Hsv & Hsz); try done.
    { split_and!; try done. intros e He. apply Hacc. apply elem_of_app. by left. }
    { intros e He. apply Hw. apply elem_of_app. by left. }
    destruct (mark_all_behind db1 c es (dev st) Hok1 Hb1) as (Hba & Hac & Hb2 & Hot2 & Hpe); [by rewrite Hids|done|].
    rewrite Hids in Hot2, Hpe.
    set (st1 := mkSync db1 (mark_all es (dev st)) (fst (report st) + length es, snd (report st))%nat (emitted st)).
    assert (Hnew : forall i, i ∈ map id (concat l) -> hist (dev st1) !! i = hist (dev st) !! i).
    { intros i Hi. apply Hot2. intros Hi'. by apply (Hdis i). }
    destruct (IH st1) as (st' & Est & Hok' & Hb' & Hba' & Hac' & Hot' & Hpe' & Hsv' & Hsz'); try done.
    { split_and!; try done. intros e He. apply Hacc. apply elem_of_app. by right. }
    { intros e He. destruct (Hw e) as (r & Er & Hrest); [apply elem_of_app; by right|]. exists r. split; [|done].
      rewrite Hnew; [done|]. by apply list_elem_of_fmap_2. }
    exists st'. split; [|split_and!; try done].
    + cbn [push_chunks]. unfold mbind, H_bind, call, with_dev, count. cbn [history_push server]. rewrite Epush. exact Est.
    + rewrite Hba'. exact Hba.
    + rewrite Hac'. exact Hac.
    + intros i Hi. rewrite map_app in Hi. apply not_elem_of_app in Hi as [Hi1 Hi2].
      destruct (Hot' i Hi2) as [-> ->]. split; [by apply Hot2|by apply Hot].
    + intros i Hi. rewrite map_app in Hi. destruct (decide (i ∈ map id (concat l))) as [|Hn]; [by apply Hpe'|].
      apply elem_of_app in Hi as [Hi|]; [|done]. unfold pending. destruct (Hot' i Hn) as [-> _]. by apply Hpe.
    + intros e [He|He]%elem_of_app; [|by apply Hsv'].
      eapply saved_other; [|by apply Hsv]. apply Hot'. intros Hi. apply (Hdis (id e)); [|done]. by apply list_elem_of_fmap_2.
    + rewrite length_app. cbn in Hsz'. lia.
Qed.

(** *** Pulling *)

#[local] Instance seq_le_trans : Transitive HistoryRoutes.seq_le.
Proof. intros a b c. unfold HistoryRoutes.seq_le. lia. Qed.
#[local] Instance seq_le_total : Total HistoryRoutes.seq_le.
Proof. intros a b. unfold HistoryRoutes.seq_le. lia. Qed.

Section Pull.
Context (db : Db) (Hok : db_ok u db).


Lemma newer_elem since (p : uuid * HRow) : p ∈ newer u db since <->
  HistoryRoutes.entries db !! fst p = Some (snd p) /\ h_user (snd p) = u /\ since < h_seq (snd p).
Proof.
  unfold newer. rewrite merge_sort_Permutation, list_elem_of_filter. destruct p as [i r].
  rewrite elem_of_map_to_list. cbn. split; [intros [[? ?] ?]|intros (? & ? & ?)]; done.
Qed.

Lemma newer_nodup since : NoDup (newer u db since).
Proof. unfold newer. rewrite merge_sort_Permutation. apply NoDup_filter, NoDup_map_to_list. Qed.

Lemma newer_sorted since :
  StronglySorted (fun a b => h_seq (snd a) < h_seq (snd b)) (newer u db since).
Proof.
  apply (strict_sorted_by (fun p => h_seq (snd p))).
  - unfold newer. apply (StronglySorted_merge_sort HistoryRoutes.seq_le).
  - apply (NoDup_fmap_2_strong (fun p => h_seq (snd p))); [|apply newer_nodup].
    intros [i x] [j y] (Hx & Hux & _)%newer_elem (Hy & Huy & _)%newer_elem E. cbn in *.
    assert (i = j) as -> by by eapply (ok_once _ _ Hok). congruence.
Qed.

Lemma newer_shrinks since since' i hr : since <= since' -> HistoryRoutes.entries db !! i = Some hr -> h_user hr = u ->
  since < h_seq hr <= since' -> (length (newer u db since') < length (newer u db since))%nat.
Proof.
  intros Hle E Hu Hs. unfold newer. rewrite !merge_sort_Permutation.
  apply (filter_length_lt _ _ _ (i, hr)); [|by apply elem_of_map_to_list| |].
  - intros [j r] _ [? ?]. cbn in *. split; [done|lia].
  - cbn. split; [done|lia].
  - cbn. lia.
Qed.

Lemma newer_size since : (length (newer u db since) <= size (HistoryRoutes.entries db))%nat.
Proof. unfold newer. rewrite merge_sort_Permutation. etrans; [apply length_filter|]. by rewrite length_map_to_list. Qed.

(** One page: what lies between two cursors, in order. *)
Definition page_cursor (since : Z) (l : list (uuid * HRow)) : Z :=
  match last l with Some q => h_seq (snd q) | None => since end.

Lemma pull_page since limit : (1 <= limit)%nat ->
  let n := Nat.min limit MAX_BATCH in
  let l := take n (newer u db since) in
  HistoryRoutes.pull u db since (Some (Z.of_nat limit)) =
    mkPulled (map (fun p => entry_of (fst p) (snd p)) l) (page_cursor since l)
      (n <? length (newer u db since))%nat.
Proof.
  intros Hl n l. unfold HistoryRoutes.pull. replace (HistoryRoutes.clamp_limit (Some (Z.of_nat limit))) with n.
  - rewrite take_take, Nat.min_l by lia. fold l. f_equal.
    + unfold page_cursor. change (map ?f l) with (f <$> l). rewrite fmap_last. by destruct (last l).
    + rewrite length_take. destruct (Nat.ltb_spec n (length (newer u db since))), (Nat.ltb_spec n (Nat.min (n + 1) (length (newer u db since)))); lia.
  - unfold n, HistoryRoutes.clamp_limit, clamp. change (default _ (Some ?x)) with x.
    destruct (Z.ltb_spec (Z.of_nat limit) 1); [lia|]. destruct (Z.ltb_spec (Z.of_nat MAX_BATCH) (Z.of_nat limit)); lia.
Qed.

Lemma page_cursor_spec since n : let l := take n (newer u db since) in
  since <= page_cursor since l /\
  (forall i hr, (i, hr) ∈ l <-> HistoryRoutes.entries db !! i = Some hr /\ h_user hr = u /\ since < h_seq hr <= page_cursor since l) /\
  (l <> [] -> since < page_cursor since l).
Proof.
  intros l. pose proof (newer_sorted since) as Hs.
  assert (Hin : forall p, p ∈ l -> p ∈ newer u db since) by (intros p; apply sublist_elem, sublist_take).
  unfold page_cursor. destruct (last l) as [q|] eqn:El.
  - assert (Hq : q ∈ l) by (apply last_Some in El as [l' ->]; apply elem_of_app; right; by left).
    apply Hin, newer_elem in Hq as (_ & _ & Hq). split_and!; [lia| |lia]. intros i hr.
    unfold l. rewrite (take_cut_by (fun p => h_seq (snd p)) n _ (i, hr) Hs), newer_elem. fold l. rewrite El. cbn. split.
    + intros [(? & ? & ?) (x & [= ->] & ?)]. split_and!; try done; lia.
    + intros (? & ? & ? & ?). split; [split_and!; try done; lia|]. by exists q.
  - apply last_None in El. rewrite El. split_and!; [lia| |done]. intros i hr. split; [|lia]. intros Hi. by apply elem_of_nil in Hi.
Qed.

(** *** A page is applied *)

Definition settled t : Prop := forall i, ~ pending t i.

Lemma settled_row t i r : settled t -> t !! i = Some r -> t_dirty r = false.
Proof. intros Hs Hi. apply not_true_is_false. intros Hd. apply (Hs i). by exists r. Qed.

Section Apply.
Context (personal : uuid) (Hps : synced personal) (c : Z).

Lemma delete_behind t i hr : behind db c t -> HistoryRoutes.entries db !! i = Some hr -> h_deleted hr = true ->
  behind db c (delete i t).
Proof.
  intros [Hc Hr Hs] E Hd. split; [done| |].
  - intros j r [_ Hj]%lookup_delete_Some. by apply Hr.
  - intros j hr' E' Hu Hle. destruct (decide (j = i)) as [->|Hj].
    + right. assert (hr' = hr) as -> by congruence. unfold agreed. rewrite Hd. apply lookup_delete_eq.
    + eapply seen_ne; [by rewrite lookup_delete_ne|]. by apply Hs.
Qed.

Lemma insert_behind t i hr r : behind db c t -> HistoryRoutes.entries db !! i = Some hr -> h_user hr = u ->
  h_deleted hr = false -> copy_of r hr -> t_seq r = h_seq hr -> t_dirty r = false -> t_deleted r = false ->
  synced (t_vault r) ->
  behind db c (<[i := r]> t) /\ agreed (<[i := r]> t) i hr.
Proof.
  intros [Hc Hr Hs] E Hu Hd Hcp Hq Hy Hdl Hsy. pose proof (ok_below _ _ Hok _ _ E Hu) as Hb.
  assert (Hag : agreed (<[i := r]> t) i hr).
  { unfold agreed. rewrite Hd. exists r. rewrite lookup_insert_eq. split_and!; try done. lia. }
  pose proof Hcp as (Hk & _ & _ & Hcr). split; [|done]. split; [done| |].
  - intros j r' Hj. destruct (decide (j = i)) as [->|Hne]; [|rewrite lookup_insert_ne in Hj by done; by apply Hr].
    rewrite lookup_insert_eq in Hj. injection Hj as <-. split; [lia| |done| |lia|].
    + exists (HistoryRoutes.parse_kind (h_kind hr)). rewrite Hk. by apply (ok_kind _ _ Hok i).
    + intros hr' E'. assert (hr' = hr) as -> by congruence. done.
    + intros _. split_and!; [done|lia|]. intros _. exists hr. split_and!; [done|lia|done].
  - intros j hr' E' Hu' Hle. destruct (decide (j = i)) as [->|Hj].
    + right. by assert (hr' = hr) as -> by congruence.
    + eapply seen_ne; [by rewrite lookup_insert_ne|]. by apply Hs.
Qed.

Lemma apply_step t n i hr : behind db c t -> settled t -> HistoryRoutes.entries db !! i = Some hr -> h_user hr = u ->
  let t' := fst (apply_entry personal (t, n) (entry_of i hr)) in
  behind db c t' /\ settled t' /\ agreed t' i hr /\ forall j, j <> i -> t' !! j = t !! j.
Proof.
  intros Hb Hst E Hu. cbn [apply_entry entry_of deleted id]. destruct (h_deleted hr) eqn:Ed; cbn [fst].
  - split_and!; [by eapply delete_behind| | |intros; by rewrite lookup_delete_ne].
    + intros j (r & [_ Hj]%lookup_delete_Some & Hy). apply (Hst j). by exists r.
    + unfold agreed. rewrite Ed. apply lookup_delete_eq.
  - destruct (decide _) as [Hk|_]; cbn [fst].
    + split_and!; [done|done| |done]. unfold known in Hk. unfold agreed. rewrite Ed.
      destruct (t !! i) as [r|] eqn:Er; [|done]. destruct (t_dirty r) eqn:Ey; [done|]. injection Hk as Hk. cbn in Hk.
      pose proof (ok_below _ _ Hok _ _ E Hu) as Hbl.
      destruct (ro_clean _ _ _ _ (be_rows _ _ _ Hb _ _ Er) Ey) as (Hdl & _ & Hp).
      destruct (Hp ltac:(lia)) as (hr' & E' & _ & Heq). assert (hr' = hr) as -> by congruence.
      exists r. destruct (Heq Hk) as [_ Hcp]. split_and!; try done. lia.
    + set (r := match t !! i with Some _ => _ | None => _ end).
      assert (Hr : copy_of r hr /\ t_seq r = h_seq hr /\ t_dirty r = false /\ t_deleted r = false /\ synced (t_vault r)).
      { subst r. unfold copy_of. destruct (t !! i) as [r|] eqn:Er; cbn.
        - destruct (be_rows _ _ _ Hb _ _ Er) as [Rs _ Rh Rm _ Rc]. destruct (Rm _ E) as (_ & ? & ?).
          destruct (Rc (settled_row _ _ _ Hst Er)) as (_ & Hz & _). split_and!; try done. apply Rh. right.
          cut (t_seq r <> 0); [lia|]. intros Hq0. by rewrite Hz in E.
        - split_and!; try done. symmetry. by apply (ok_kind _ _ Hok i). }
      destruct Hr as (Hcp & Hq & Hy & Hdl & Hsy).
      destruct (insert_behind t i hr r Hb E Hu Ed Hcp Hq Hy Hdl Hsy) as [Hb' Hag].
      split_and!; [done| |done|intros; by rewrite lookup_insert_ne].
      intros j (r' & Hj & Hy'). destruct (decide (j = i)) as [->|Hne].
      * rewrite lookup_insert_eq in Hj. congruence.
      * rewrite lookup_insert_ne in Hj by done. apply (Hst j). by exists r'.
Qed.

Lemma apply_all l : forall t n, behind db c t -> settled t ->
  (forall i hr, (i, hr) ∈ l -> HistoryRoutes.entries db !! i = Some hr /\ h_user hr = u) ->
  let t' := fst (fold_left (apply_entry personal) (map (fun p => entry_of (fst p) (snd p)) l) (t, n)) in
  behind db c t' /\ settled t' /\ (forall i hr, (i, hr) ∈ l -> agreed t' i hr) /\
  forall j, (forall hr, (j, hr) ∉ l) -> t' !! j = t !! j.
Proof.
  induction l as [|[i hr] l IH]; intros t n Hb Hs Hl.
  - split_and!; try done. intros i hr Hi. by apply elem_of_nil in Hi.
  - destruct (Hl i hr ltac:(by left)) as [E Hu]. destruct (apply_step t n i hr Hb Hs E Hu) as (Hb1 & Hs1 & Ha1 & Ho1).
    cbn [map fold_left fst snd]. destruct (apply_entry personal (t, n) (entry_of i hr)) as [t1 n1]. cbn [fst] in *.
    destruct (IH t1 n1 Hb1 Hs1) as (Hb2 & Hs2 & Ha2 & Ho2); [intros; apply Hl; by right|].
    split_and!; [done|done| |].
    + intros j hr' [[= -> ->]|Hj]%elem_of_cons; [|by apply Ha2].
      destruct (decide (i ∈ map fst l)) as [([i' hr'] & -> & Hin)%list_elem_of_fmap|Hn].
      * cbn [fst] in *. destruct (Hl i' hr' ltac:(by right)) as [E' _]. assert (hr' = hr) as -> by congruence. by apply Ha2.
      * unfold agreed. rewrite Ho2; [exact Ha1|]. intros hr' Hin. apply Hn. by apply (list_elem_of_fmap_2 fst _ (i, hr')).
    + intros j Hj. rewrite Ho2; [apply Ho1|]; [intros ->; by apply (Hj hr); left|]. intros hr' Hin. apply (Hj hr'). by right.
Qed.
End Apply.

Lemma behind_to c c' t : behind db c t -> settled t -> c <= c' <= last_seq u db ->
  (forall i hr, HistoryRoutes.entries db !! i = Some hr -> h_user hr = u -> c < h_seq hr <= c' -> agreed t i hr) ->
  behind db c' t.
Proof.
  intros [Hc Hr Hs] Hst Hcc Hag. split; [lia| |].
  - intros i r Hi. destruct (Hr i r Hi) as [Rs Rk Rh Rm Rn Rc]. split; try done.
    intros H0 hr E. destruct (Rc (settled_row _ _ _ Hst Hi)) as (_ & Hn & _). by rewrite Hn in E.
  - intros i hr E Hu Hle. destruct (Z.le_gt_cases (h_seq hr) c); [by apply Hs|]. right. apply Hag; [done..|lia].
Qed.

(** *** The loop of pulls *)

Lemma fold_max_le b qs : forall q, q <= b -> (forall x, x ∈ qs -> x <= b) -> fold_left Z.max qs q <= b.
Proof.
  induction qs as [|x qs IH]; intros q Hq Hx; [done|]. cbn. apply IH; [|intros y Hy; apply Hx; by right].
  specialize (Hx x ltac:(by left)). lia.
Qed.

Lemma next_cursor_page since n more : let l := take n (newer u db since) in
  next_cursor since (mkPulled (map (fun p => entry_of (fst p) (snd p)) l) (page_cursor since l) more) =
    page_cursor since l.
Proof.
  intros l. destruct (page_cursor_spec since n) as (Hle & Hin & _). fold l in Hle, Hin. unfold next_cursor.
  cbn [p_entries p_since]. rewrite map_map. cbn. apply Z.max_r.
  assert (Hb : forall x, x ∈ map (fun p : uuid * HRow => h_seq (snd p)) l -> x <= page_cursor since l).
  { intros x ([i hr] & -> & Hi)%list_elem_of_fmap. apply Hin in Hi. cbn. lia. }
  destruct (map _ l) as [|q qs]; [done|]. apply fold_max_le; [apply Hb; by left|]. intros x Hx. apply Hb. by right.
Qed.

Lemma page_cursor_last since n : 0 <= since <= last_seq u db -> page_cursor since (take n (newer u db since)) <= last_seq u db.
Proof.
  intros Hs. unfold page_cursor. destruct (last _) as [[i hr]|] eqn:El; [|lia]. apply last_Some in El as [l' El].
  assert ((i, hr) ∈ newer u db since) as (E & Hu & _)%newer_elem.
  { eapply sublist_elem; [apply (sublist_take _ n)|]. rewrite El. apply elem_of_app. right. by left. }
  cbn in *. pose proof (ok_below _ _ Hok _ _ E Hu). lia.
Qed.

(** One round brings the device to the cursor of the page. *)
Record at_cursor (d0 d : Dev) (c : Z) : Prop := {
  at_base : base d = base d0;
  at_account : account d = Some c;
  at_behind : behind db c (hist d);
  at_settled : settled (hist d);
  at_other : forall i, HistoryRoutes.entries db !! i = None -> hist d !! i = hist d0 !! i
}.

Lemma round_ends batch p d0 c st : (1 <= batch)%nat -> ClientStore.personal_vault (base d0) = Some p ->
  synced (ClientStore.lv_id p) -> remote st = db ->
  at_cursor d0 (dev st) c -> let l := take (Nat.min batch MAX_BATCH) (newer u db c) in let c' := page_cursor c l in
  exists st' b, apply_page (R := Db) (HistoryRoutes.pull u db c (Some (Z.of_nat batch))) st = (st', Ok b) /\ remote st' = db /\
    at_cursor d0 (if c <? c' then set_history_cursor (dev st') c' else dev st') c'.
Proof.
  intros Hbt Hp Hps Hr [Hba Hac Hb Hs Ho] l c'. rewrite pull_page by done. fold l. fold c'.
  unfold apply_page, apply_remote_history. cbn [p_entries]. rewrite Hba, Hp.
  destruct (page_cursor_spec c (Nat.min batch MAX_BATCH)) as (Hle & Hin & _). fold l in Hle, Hin. fold c' in Hle, Hin.
  pose proof (be_cursor _ _ _ Hb) as Hcb. pose proof (page_cursor_last c (Nat.min batch MAX_BATCH) Hcb) as Hlast.
  fold l in Hlast. fold c' in Hlast.
  destruct (apply_all (ClientStore.lv_id p) Hps c l (hist (dev st)) 0 Hb Hs) as (Hb1 & Hs1 & Ha1 & Ho1).
  { intros i hr Hi. apply Hin in Hi. by destruct Hi as (? & ? & _). }
  destruct (fold_left _ _ _) as [t n]. cbn [fst] in *. eexists _, _. split; [done|]. split; [done|].
  assert (Hb2 : behind db c' t).
  { eapply behind_to; [done..|lia|]. intros i hr E Hu Hq. apply Ha1, Hin. done. }
  assert (Ho2 : forall i, HistoryRoutes.entries db !! i = None -> t !! i = hist d0 !! i).
  { intros i E. rewrite Ho1; [by apply Ho|]. intros hr Hi. apply Hin in Hi. destruct Hi as [E' _]. congruence. }
  cbn [dev]. destruct (Z.ltb_spec c c') as [Hlt|]; split; cbn; try done.
  - by rewrite Hac.
  - rewrite Hac. f_equal. lia.
Qed.

Lemma pull_loop_end env batch p d0 : (1 <= batch)%nat -> ClientStore.personal_vault (base d0) = Some p ->
  synced (ClientStore.lv_id p) ->
  forall fuel c st ch, (length (newer u db c) < fuel)%nat -> remote st = db -> at_cursor d0 (dev st) c ->
  exists st' b c', @pull_loop Db (server env u) batch fuel c ch st = (st', Ok (Some b)) /\ remote st' = db /\
    at_cursor d0 (dev st') c' /\ forall i hr, HistoryRoutes.entries db !! i = Some hr -> h_user hr = u -> h_seq hr <= c'.
Proof.
  intros Hbt Hp Hps fuel. induction fuel as [|fuel IH]; intros c st ch Hf Hr Hat; [lia|].
  set (n := Nat.min batch MAX_BATCH). set (l := take n (newer u db c)). set (c' := page_cursor c l).
  destruct (round_ends batch p d0 c st Hbt Hp Hps Hr Hat) as (st1 & b & Eap & Hr1 & Hat1). fold n in Hat1. fold l in Hat1.
  fold c' in Hat1. destruct (page_cursor_spec c n) as (Hle & Hin & Hlt). fold l in Hle, Hin, Hlt. fold c' in Hle, Hin, Hlt.
  cbn [pull_loop]. unfold mbind, H_bind, call. cbn [history_pull server]. rewrite Hr.
  replace (mkSync db (dev st) (report st) (emitted st)) with st by (destruct st; cbn in Hr; by subst).
  rewrite Eap. cbn [with_dev].
  assert (Enext : next_cursor c (HistoryRoutes.pull u db c (Some (Z.of_nat batch))) = c').
  { rewrite pull_page by done. apply next_cursor_page. }
  rewrite Enext, Z.max_r by done. rewrite pull_page by done. cbn [p_has_more p_entries]. fold n. fold l.
  set (st2 := mkSync (remote st1) (if c <? c' then set_history_cursor (dev st1) c' else dev st1) (report st1) (emitted st1)).
  destruct (Nat.ltb_spec n (length (newer u db c))) as [Hm|Hm]; cbn [negb orb].
  - destruct l as [|[i hr] l'] eqn:El.
    { apply (f_equal length) in El. unfold l in El. rewrite length_take in El. unfold n, MAX_BATCH in *. cbn in El. lia. }
    rewrite bool_decide_eq_false_2 by done. apply (IH c' st2); [|done|done].
    assert ((i, hr) ∈ (i, hr) :: l') as Hi by (by left). apply Hin in Hi as (E & Hu & Hq).
    pose proof (newer_shrinks c c' i hr Hle E Hu Hq). lia.
  - exists st2, (ch || b), c'. split_and!; [done|done|done|].
    intros i hr E Hu. destruct (Z.le_gt_cases (h_seq hr) c); [lia|]. assert ((i, hr) ∈ l) as Hi.
    { unfold l. rewrite take_ge by done. apply newer_elem. split_and!; [done|done|cbn; lia]. }
    apply Hin in Hi. lia.
Qed.
End Pull.

(** *** The dirty rows as wire entries *)

Lemma wire_entries_end db c t l : behind db c t -> NoDup (map fst l) ->
  (forall i r, (i, r) ∈ l -> t !! i = Some r /\ t_dirty r = true) ->
  exists es, wire_entries l = Ok es /\ map id es = map fst l /\ (forall e, e ∈ es -> wired t e).
Proof.
  intros Hb. induction l as [|[i r] l IH]; intros Hnd Hl.
  - exists []. split_and!; try done. intros e He. by apply elem_of_nil in He.
  - cbn [map] in Hnd. apply NoDup_cons in Hnd as [_ Hnd]. destruct (Hl i r ltac:(by left)) as [Ei Hd].
    destruct (IH Hnd) as (es & E & Hids & Hw); [intros; apply Hl; by right|].
    destruct (ro_kind _ _ _ _ (be_rows _ _ _ Hb _ _ Ei)) as [k Hk].
    eexists. cbn [wire_entries]. rewrite Hk, E. split; [destruct k; reflexivity|]. cbn. rewrite Hids. split; [done|].
    intros e [->|He]%elem_of_cons; [|by apply Hw]. by exists r.
Qed.

Lemma dirty_history_end db c d : behind db c (hist d) -> exists es, dirty_history d = Ok es /\ NoDup (map id es) /\
  (forall e, e ∈ es -> wired (hist d) e) /\ (forall i, i ∈ map id es <-> pending (hist d) i) /\
  (length es <= size (hist d))%nat.
Proof.
  intros Hb. set (l := filter (fun p : uuid * HistRow => t_dirty (snd p) = true) (map_to_list (hist d))).
  assert (Hl : forall i r, (i, r) ∈ l <-> hist d !! i = Some r /\ t_dirty r = true).
  { intros i r. unfold l. rewrite list_elem_of_filter, elem_of_map_to_list. cbn. intuition. }
  assert (Hnd : NoDup (map fst l)).
  { unfold l. eapply (sublist_NoDup _ (map fst (map_to_list (hist d)))); [apply NoDup_fst_map_to_list|].
    apply sublist_map, sublist_filter. }
  destruct (wire_entries_end db c (hist d) l Hb Hnd) as (es & E & Hids & Hw); [intros i r; apply Hl|].
  exists es. rewrite Hids. split_and!; try done.
  - intros i. rewrite list_elem_of_fmap. split.
    + intros ([j r] & -> & Hj%Hl). by exists r.
    + intros (r & Hr). exists (i, r). by rewrite Hl.
  - rewrite <- (length_map id es), Hids, length_map. unfold l. etrans; [apply length_filter|]. by rewrite length_map_to_list.
Qed.
End Device.
