(* ===== verification/HistorySafety.v ===== *)
(** * What the exchange of history promises

    The theorems about [History] and [HistorySync]: a device that has
    synchronised mirrors the server, what is recorded in the local vault stays
    there, completion, and the places where clearing, deleting and reading
    history fall short. *)
From S2P Require Import Prelude Text Envelope SyncTypes.
From S2P Require ClientStore VaultAccess.
From S2P Require Import History HistorySync.
From S2P Require HistoryRoutes.
Import ClientStore (core, CoreError(..), Store, uuid).
Import HistoryRoutes (HRow, mkHRow, h_user, h_kind, h_data, h_key_version, h_created, h_seq, h_deleted, history_seq,
  Db, mkDb, Env, mkEnv, entry_of, newer).

#[local] Open Scope string_scope.
#[local] Open Scope list_scope.
#[local] Open Scope Z_scope.

(** ** What the user does on the device *)

Definition home (s : Store) (v : uuid) : Prop :=
  exists lv, ClientStore.vault s v = Ok lv /\ ClientStore.is_synced (ClientStore.lv_kind lv) = true.

Lemma personal_home s p : ClientStore.personal_vault s = Some p -> home s (ClientStore.lv_id p).
Proof.
  unfold ClientStore.personal_vault. destruct (list_find _ _) as [[k v]|] eqn:E; [|done]. cbn. intros [= ->].
  apply list_find_Some in E as (E & Hk & _). apply list_elem_of_lookup_2 in E. unfold ClientStore.vaults in E.
  rewrite merge_sort_Permutation in E. apply list_elem_of_fmap in E as ([i r] & -> & Hi%elem_of_map_to_list). cbn in *.
  exists (ClientStore.view i r). unfold ClientStore.vault. rewrite Hi. split; [done|]. cbn. by rewrite Hk.
Qed.

Section Edits.
Context (seal unseal : bytes -> bytes -> bytes -> bytes -> option bytes).
Context (b64_encode : bytes -> string) (b64_decode : string -> option bytes) (uuid_text : uuid -> string).
Context {serde_c : Serde CommandHistory} {serde_n : Serde ConnectionHistory}.

(** The operations of the application, the ids drawn being [fresh]. *)
Inductive edits (fresh : uuid -> Prop) : Dev -> Dev -> Prop :=
| edits_none d : edits fresh d d
| edits_command now nonce i x d d1 j d' : record_command seal b64_encode uuid_text d now nonce i x = Ok (d1, j) ->
    fresh i -> edits fresh d1 d' -> edits fresh d d'
| edits_connection now nonce i x d d1 j d' : record_connection seal b64_encode uuid_text d now nonce i x = Ok (d1, j) ->
    fresh i -> edits fresh d1 d' -> edits fresh d d'
| edits_update nonce i x d d1 d' : update_connection seal b64_encode uuid_text d nonce i x = Ok d1 ->
    edits fresh d1 d' -> edits fresh d d'
| edits_delete i d d' : edits fresh (delete_history d i) d' -> edits fresh d d'
| edits_clear k d d' : edits fresh (clear_history d k) d' -> edits fresh d d'.

Lemma record_ok {T} `{Serde T} d now nonce i k (x : T) d' j :
  record_history seal b64_encode uuid_text d now nonce i k x = Ok (d', j) ->
  exists v lv ct, history_vault d = Ok v /\ ClientStore.vault (base d) v = Ok lv /\ hist d !! i = None /\ j = i /\
    d' = with_hist d (<[i := mkHist (kind_str k) v ct (ClientStore.lv_key_version lv) now 0 false
                          (ClientStore.is_synced (ClientStore.lv_kind lv))]>).
Proof.
  unfold record_history. intros (v & Hv & (key & _ & (lv & Hlv & (json & _ & (ct & _ & E)%bind_ok)%bind_ok)%bind_ok)%bind_ok)%bind_ok.
  destruct (decide _) as [|Hn]; [done|]. injection E as <- <-. exists v, lv, ct. split_and!; try done.
  by apply eq_None_not_Some.
Qed.

Lemma update_ok d nonce i x d' : update_connection seal b64_encode uuid_text d nonce i x = Ok d' ->
  exists r lv ct, hist d !! i = Some r /\ t_deleted r = false /\ ClientStore.vault (base d) (t_vault r) = Ok lv /\
    d' = with_hist d (<[i := mkHist (t_kind r) (t_vault r) ct (t_key_version r) (t_created r) (t_seq r) false
                          (ClientStore.is_synced (ClientStore.lv_kind lv))]>).
Proof.
  unfold update_connection. destruct (hist d !! i) as [r|] eqn:Er; [|done]. destruct (_ && _) eqn:Ek; [|done].
  apply andb_true_iff in Ek as [_ Hd%negb_true_iff].
  intros (key & _ & (json & _ & (ct & _ & (lv & Hlv & [= <-])%bind_ok)%bind_ok)%bind_ok)%bind_ok.
  exists r, lv, ct. by rewrite Hd.
Qed.

Lemma bury_lookup P t i : bury_where P t !! i = r ← t !! i;
  if P i r && (t_seq r =? 0)%Z then None else Some (if P i r && (0 <? t_seq r)%Z then bury r else r).
Proof.
  unfold bury_where. rewrite map_lookup_filter, map_lookup_imap. destruct (t !! i) as [r|]; [|done]. cbn.
  unfold guard. destruct (P i r) eqn:Ep; cbn; [|rewrite Ep; by destruct (decide _)].
  destruct (t_seq r =? 0) eqn:E0.
  - apply Z.eqb_eq in E0 as E1. rewrite E1. cbn. rewrite Ep, E0. by destruct (decide _).
  - destruct (0 <? t_seq r); cbn; rewrite E0, andb_false_r; by destruct (decide _).
Qed.

Lemma insert_row_behind u sy db c t i r : behind u sy db c t -> row_ok u sy db c i r ->
  (forall hr, HistoryRoutes.entries db !! i = Some hr -> h_user hr = u -> h_seq hr <= c -> t_dirty r = true) ->
  behind u sy db c (<[i := r]> t).
Proof.
  intros [Hc Hr Hs] Hi Hp. split; [done| |].
  - intros j r' Hj. destruct (decide (j = i)) as [->|Hne]; [rewrite lookup_insert_eq in Hj; by injection Hj as <-|].
    rewrite lookup_insert_ne in Hj by done. by apply Hr.
  - intros j hr E Hu Hle. destruct (decide (j = i)) as [->|Hne].
    + left. exists r. rewrite lookup_insert_eq. split; [done|by eapply Hp].
    + eapply seen_ne; [by rewrite lookup_insert_ne|]. by apply Hs.
Qed.

Lemma bury_behind u sy db c P t : behind u sy db c t -> behind u sy db c (bury_where P t).
Proof.
  intros [Hc Hr Hs]. split; [done| |].
  - intros i r'. rewrite bury_lookup. destruct (t !! i) as [r|] eqn:Ei; [|done]. cbn.
    pose proof (Hr _ _ Ei) as Hok. destruct (P i r && (t_seq r =? 0)); [done|]. intros [= <-].
    destruct (P i r && (0 <? t_seq r)) eqn:Eb; [|done]. apply andb_true_iff in Eb as [_ Hq%Z.ltb_lt].
    destruct Hok as [Rs Rk Rh Rm Rn _]. split; cbn; try done. auto.
  - intros i hr E Hu Hle. specialize (Hs i hr E Hu Hle). unfold pending, agreed in *. rewrite bury_lookup.
    destruct (t !! i) as [r|] eqn:Ei; cbn; [|done]. pose proof (ro_new _ _ _ _ _ _ (Hr _ _ Ei)) as Rn.
    destruct (P i r) eqn:Ep; cbn; [|done]. destruct (Z.eqb_spec (t_seq r) 0) as [H0|]; [specialize (Rn H0 hr E); lia|].
    destruct (0 <? t_seq r); [|done]. left. by exists (bury r).
Qed.

Lemma edits_base fresh d d' : edits fresh d d' -> base d' = base d /\ account d' = account d.
Proof.
  induction 1 as [d|now nonce i x d d1 j d' E|now nonce i x d d1 j d' E|nonce i x d d1 d' E| |]; try done.
  - unfold record_command in E. destruct (decide _); [done|]. apply record_ok in E as (v & lv & ct & _ & _ & _ & _ & ->). done.
  - apply record_ok in E as (v & lv & ct & _ & _ & _ & _ & ->). done.
  - apply update_ok in E as (r & lv & ct & _ & _ & _ & ->). done.
Qed.

(** Edits keep what the device knows of the server. *)
Lemma record_behind {T} `{Serde T} u db c d now nonce i k (x : T) d' j : behind u (home (base d)) db c (hist d) ->
  record_history seal b64_encode uuid_text d now nonce i k x = Ok (d', j) -> HistoryRoutes.entries db !! i = None ->
  behind u (home (base d)) db c (hist d') /\ base d' = base d.
Proof.
  intros Hb (v & lv & ct & _ & Hlv & Hi & _ & ->)%record_ok Hn. split; [|done]. cbn.
  pose proof (be_cursor _ _ _ _ _ Hb). apply insert_row_behind; [done| |congruence].
  split; cbn; try (intros; congruence); [lia|by exists k| |intros; split_and!; [done|done|lia]].
  intros [Hy|]; [|lia]. by exists lv.
Qed.

Lemma update_behind u db c d nonce i x d' : behind u (home (base d)) db c (hist d) ->
  update_connection seal b64_encode uuid_text d nonce i x = Ok d' ->
  behind u (home (base d)) db c (hist d') /\ base d' = base d.
Proof.
  intros Hb (r & lv & ct & Er & Hd & Hlv & ->)%update_ok. split; [|done]. cbn.
  destruct (be_rows _ _ _ _ _ Hb _ _ Er) as [Rs Rk Rh Rm Rn Rc].
  assert (Hl : ClientStore.is_synced (ClientStore.lv_kind lv) = false -> t_seq r = 0 /\ HistoryRoutes.entries db !! i = None).
  { intros Hs. assert (Hh : ~ home (base d) (t_vault r)) by (intros (lv' & E & Hs'); congruence).
    assert (t_seq r = 0) as H0. { cut (~ 0 < t_seq r); [lia|]. auto. }
    destruct (t_dirty r) eqn:Ey; [destruct Hh; auto|]. destruct (Rc eq_refl) as (_ & Hz & _). auto. }
  apply insert_row_behind; [done| |].
  - split; cbn; try done.
    + intros [Hy|Hq]; [by exists lv|auto].
    + intros [H0 Hn]%Hl. split_and!; [done|done|lia].
  - intros hr E _ _. cbn. apply not_false_is_true. intros [_ Hn]%Hl. congruence.
Qed.

Lemma edits_behind u db c d d' : edits (fun i => HistoryRoutes.entries db !! i = None) d d' ->
  behind u (home (base d)) db c (hist d) -> behind u (home (base d')) db c (hist d').
Proof.
  induction 1 as [d|now nonce i x d d1 j d' E Hf _ IH|now nonce i x d d1 j d' E Hf _ IH|nonce i x d d1 d' E _ IH|i d d' _ IH|k d d' _ IH];
    intros Hb; [done|..].
  - unfold record_command in E. destruct (decide _); [done|].
    destruct (record_behind _ _ _ _ _ _ _ _ _ _ _ Hb E Hf) as [Hb1 Eb]. apply IH. by rewrite Eb.
  - destruct (record_behind _ _ _ _ _ _ _ _ _ _ _ Hb E Hf) as [Hb1 Eb]. apply IH. by rewrite Eb.
  - destruct (update_behind _ _ _ _ _ _ _ _ Hb E) as [Hb1 Eb]. apply IH. by rewrite Eb.
  - apply IH. by apply bury_behind.
  - apply IH. by apply bury_behind.
Qed.
End Edits.

(** ** The mirror *)

(** The device holds a copy of every live entry and no deleted one, and its
    other rows are those of the local vault. *)
Record replica (u : uuid) (db : Db) (t : gmap uuid HistRow) : Prop := {
  rp_entries : forall i hr, HistoryRoutes.entries db !! i = Some hr -> h_user hr = u -> agreed t i hr;
  rp_rows : forall i r, t !! i = Some r -> t_dirty r = false /\ t_deleted r = false /\
    ((t_seq r = 0 /\ HistoryRoutes.entries db !! i = None) \/
     exists hr, HistoryRoutes.entries db !! i = Some hr /\ h_user hr = u /\ h_deleted hr = false /\ copy_of r hr)
}.

Lemma history_replica u sy db c t : behind u sy db c t -> settled t ->
  (forall i hr, HistoryRoutes.entries db !! i = Some hr -> h_user hr = u -> h_seq hr <= c) -> replica u db t.
Proof.
  intros [Hc Hr Hs] Hst Hall.
  assert (Hag : forall i hr, HistoryRoutes.entries db !! i = Some hr -> h_user hr = u -> agreed t i hr).
  { intros i hr E Hu. destruct (Hs i hr E Hu (Hall i hr E Hu)) as [Hp|]; [by destruct (Hst i)|done]. }
  split; [done|]. intros i r Hi. pose proof (settled_row _ _ _ Hst Hi) as Hy.
  destruct (Hr i r Hi) as [Rs _ _ Rm _ Rc]. destruct (Rc Hy) as (Hdl & Hz & Hp). split_and!; [done..|].
  destruct (decide (t_seq r = 0)) as [H0|]; [left; auto|]. right. destruct (Hp ltac:(lia)) as (hr & E & _).
  destruct (Rm hr E) as (Hu & _). exists hr. specialize (Hag i hr E Hu). unfold agreed in Hag.
  destruct (h_deleted hr); [congruence|]. destruct Hag as (r' & Hi' & Hcp & _). split_and!; try done. congruence.
Qed.

Section Mirror.
Context (seal : bytes -> bytes -> bytes -> bytes -> option bytes) (b64_encode : bytes -> string) (uuid_text : uuid -> string).
Context {serde_c : Serde CommandHistory} {serde_n : Serde ConnectionHistory}.

(** C25: A device that knows the server's history up to its cursor records,
    edits, deletes and clears history in any way, others push in any way, and
    then it synchronises: the exchange ends, and afterwards the device holds a
    copy of each live entry of its user, no deleted one and nothing pending;
    the server has every record the device had to push, deleted if it was; rows
    of the local vault are untouched; and the device again knows the server up
    to its new cursor, so this composes over visits. *)
Theorem history_follows_server u env batch fuel db db' c d0 d rep em p : db_ok u db ->
  behind u (home (base d0)) db c (hist d0) -> account d0 = Some c ->
  ClientStore.personal_vault (base d0) = Some p ->
  edits seal b64_encode uuid_text (fun i => HistoryRoutes.entries db !! i = None) d0 d ->
  pushes db db' -> apart db db' (hist d) ->
  (1 <= batch <= MAX_BATCH)%nat -> (forall es, dirty_history d = Ok es -> accepts env es) ->
  (size (HistoryRoutes.entries db') + size (hist d) < fuel)%nat ->
  exists st', @sync_history_into Db (server env u) batch fuel (mkSync db' d rep em) = (st', Ok (Some tt)) /\
    replica u (remote st') (hist (dev st')) /\
    (forall i r, hist d !! i = Some r -> t_dirty r = true -> exists hr,
       HistoryRoutes.entries (remote st') !! i = Some hr /\ h_user hr = u /\ h_deleted hr = t_deleted r /\
       (t_deleted r = false -> h_data hr = t_data r /\ h_key_version hr = t_key_version r)) /\
    (forall i r, hist d !! i = Some r -> t_dirty r = false -> t_seq r = 0 -> hist (dev st') !! i = Some r) /\
    exists c', account (dev st') = Some c' /\ db_ok u (remote st') /\
      behind u (home (base (dev st'))) (remote st') c' (hist (dev st')).
Proof.
  intros Hok Hb0 Hac0 Hpv0 He Hp Ha Hbt Hacc Hf. destruct (pushes_grow u _ _ Hok Hp) as [Hok' Hg].
  destruct (edits_base _ _ _ _ _ _ He) as [Eb Ea]. pose proof (edits_behind _ _ _ _ _ _ _ _ He Hb0) as Hb.
  rewrite <- Eb in Hpv0. rewrite <- Ea in Hac0. set (sy := home (base d)) in *.
  pose proof (behind_grows u sy _ _ _ _ Hb Hg Ha) as Hb'.
  destruct (dirty_history_end u sy db' c d Hb') as (es & Ed & Hnd & Hw & Hids & Hlen).
  destruct (push_chunks_end u sy env c (chunks batch es) (mkSync db' d rep em)) as
    (st1 & E1 & Hok1 & Hb1 & Hba1 & Hac1 & Hot1 & Hpe1 & Hsv1 & Hsz1); rewrite ?concat_chunks in *; try done; auto.
  { eapply List.Forall_impl; [|apply (chunks_le batch es); lia]. intros l Hl. cbn beta in Hl. lia. }
  cbn [remote dev] in *.
  assert (Hst1 : settled (hist (dev st1))).
  { intros i Hi. destruct (decide (i ∈ map id es)) as [Hin|Hn]; [by apply (Hpe1 i)|].
    apply Hn, Hids. unfold pending in *. by destruct (Hot1 i Hn) as [<- _]. }
  destruct (pull_loop_end u sy (remote st1) Hok1 env batch p (dev st1)) with (fuel := fuel) (c := c) (st := st1) (ch := false)
    as (st2 & ch & c' & E2 & Hr2 & [Hba2 Hac2 Hb2 Hst2 Hot2] & Hall); [lia|congruence|by apply personal_home| |done| |].
  { pose proof (newer_size u (remote st1) c). lia. }
  { split; try done. congruence. }
  exists (if ch then mkSync (remote st2) (dev st2) (report st2) true else st2). split.
  - unfold sync_history_into, mbind, H_bind, reads. cbn [dev]. rewrite Hac0. cbn [ok_or]. rewrite Ed, E1, E2.
    by destruct ch.
  - assert (Er : forall X, remote (if ch then mkSync (remote st2) (dev st2) X true else st2) = remote st1) by (by destruct ch).
    assert (Ev : forall X, dev (if ch then mkSync (remote st2) (dev st2) X true else st2) = dev st2) by (by destruct ch).
    rewrite Er, Ev. split_and!.
    + by eapply history_replica.
    + intros i r Hi Hd. assert (i ∈ map id es) as Hin by (apply Hids; by exists r).
      apply list_elem_of_fmap in Hin as (e & -> & Hine). destruct (Hw e Hine) as (r' & Er' & _ & _ & Hda & Hkv & _ & Hdl).
      assert (r' = r) as -> by congruence. destruct (Hsv1 e Hine) as (hr & E & Hu & Hdel & Hdat).
      exists hr. rewrite <- Hdl, <- Hda, <- Hkv. done.
    + intros i r Hi Hd H0. assert (Hn : i ∉ map id es). { intros Hin. apply Hids in Hin as (r' & Hr' & Hd'). congruence. }
      destruct (Hot1 i Hn) as [Eh Ee]. destruct (ro_clean _ _ _ _ _ _ (be_rows _ _ _ _ _ Hb' _ _ Hi) Hd) as (_ & Hz & _).
      rewrite Hot2; [congruence|]. rewrite Ee. auto.
    + exists c'. rewrite Hba2, Hba1. done.
Qed.
End Mirror.

(** ** The local vault's history *)

Section Private.
Context (seal : bytes -> bytes -> bytes -> bytes -> option bytes) (b64_encode : bytes -> string) (uuid_text : uuid -> string).
Context {serde_c : Serde CommandHistory} {serde_n : Serde ConnectionHistory}.

(** The life of a device, short of [adopt_local_history]: the user's operations
    and whatever the server answers, honest or not. *)
Inductive life : Dev -> Dev -> Prop :=
| life_none d : life d d
| life_edits d d1 d' : edits seal b64_encode uuid_text (fun _ => True) d d1 -> life d1 d' -> life d d'
| life_pushed ids s d d' : life (mark_history_pushed d ids s) d' -> life d d'
| life_pulled es d d' : life (fst (apply_remote_history d es)) d' -> life d d'
| life_cursor c d d' : life (set_history_cursor d c) d' -> life d d'.

(** A row of the local vault that is to be sent is an empty tombstone. *)
Definition row_private (s : Store) (r : HistRow) : Prop :=
  t_dirty r = true -> home s (t_vault r) \/ (t_deleted r = true /\ t_data r = "").
Definition private (d : Dev) : Prop := forall i r, hist d !! i = Some r -> row_private (base d) r.

Lemma private_insert d i r : private d -> row_private (base d) r -> private (with_hist d (<[i := r]>)).
Proof.
  intros Hp Hr j r' Hj. cbn in *. destruct (decide (j = i)) as [->|Hne].
  - rewrite lookup_insert_eq in Hj. by injection Hj as <-.
  - rewrite lookup_insert_ne in Hj by done. by eapply Hp.
Qed.

Lemma private_bury d P : private d -> private (with_hist d (bury_where P)).
Proof.
  intros Hp i r'. cbn. rewrite bury_lookup. destruct (hist d !! i) as [r|] eqn:Ei; [|done]. cbn.
  destruct (_ && _); [done|]. intros [= <-]. destruct (_ && _); [|by eapply Hp]. intros _. by right.
Qed.

Lemma private_edits fresh d d' : edits seal b64_encode uuid_text fresh d d' -> private d -> private d'.
Proof.
  assert (Hrec : forall T (ser : Serde T) d now nonce i k (x : T) d' j,
    record_history seal b64_encode uuid_text d now nonce i k x = Ok (d', j) -> private d -> private d').
  { intros T ser d0 now nonce i k x d1 j (v & lv & ct & _ & Hlv & _ & _ & ->)%record_ok Hp.
    apply private_insert; [done|]. intros Hy. left. by exists lv. }
  induction 1 as [d|now nonce i x d d1 j d' E _ _ IH|now nonce i x d d1 j d' E _ _ IH|nonce i x d d1 d' E _ IH|i d d' _ IH|k d d' _ IH];
    intros Hp; [done| | | |exact (IH (private_bury d _ Hp))..].
  - unfold record_command in E. destruct (decide _); [done|]. exact (IH (Hrec _ _ _ _ _ _ _ _ _ _ E Hp)).
  - exact (IH (Hrec _ _ _ _ _ _ _ _ _ _ E Hp)).
  - apply IH. apply update_ok in E as (r & lv & ct & Er & _ & Hlv & ->).
    apply private_insert; [done|]. intros Hy. left. by exists lv.
Qed.

Lemma private_marked d ids s : private d -> private (mark_history_pushed d ids s).
Proof.
  intros Hp i r. cbn. intros [Hi _]%map_lookup_filter_Some. revert r Hi.
  change (forall r, fold_left (fun t i => alter (set_clean s) i t) ids (hist d) !! i = Some r -> row_private (base d) r).
  generalize (fun r (Hr : hist d !! i = Some r) => Hp i r Hr). generalize (hist d).
  induction ids as [|j ids IH]; intros t Ht; [done|]. cbn [fold_left]. apply IH. intros r.
  destruct (decide (i = j)) as [->|Hne]; [|rewrite lookup_alter_ne by done; apply Ht].
  rewrite lookup_alter_eq. destruct (t !! j); [|done]. intros [= <-]. by intros Hy.
Qed.

Lemma private_pulled d es : private d -> private (fst (apply_remote_history d es)).
Proof.
  intros Hp. unfold apply_remote_history. destruct (ClientStore.personal_vault (base d)) as [p|]; [|done].
  assert (Hall : forall acc, (forall i r, fst acc !! i = Some r -> row_private (base d) r) ->
    forall i r, fst (fold_left (apply_entry (ClientStore.lv_id p)) es acc) !! i = Some r -> row_private (base d) r).
  { induction es as [|e es IH]; intros [t n] Ht; [done|]. cbn [fold_left]. apply IH. cbn [apply_entry].
    intros i r. destruct (deleted e); cbn [fst].
    - intros [_ Hi]%lookup_delete_Some. by eapply Ht.
    - destruct (decide _); cbn [fst]; [by apply Ht|]. destruct (decide (i = id e)) as [->|Hne].
      + rewrite lookup_insert_eq. intros [= <-]. intros Hy. by destruct (t !! id e).
      + rewrite lookup_insert_ne by done. by apply Ht. }
  specialize (Hall (hist d, 0%nat) Hp). by destruct (fold_left _ _ _) as [t n].
Qed.

Lemma life_private d d' : life d d' -> private d -> private d'.
Proof.
  induction 1 as [d|d d1 d' He _ IH|ids s d d' _ IH|es d d' _ IH|c d d' _ IH]; intros Hp; [done|..].
  - apply IH. by eapply private_edits.
  - apply IH. by apply private_marked.
  - apply IH. by apply private_pulled.
  - by apply IH.
Qed.

Lemma wire_entries_from l es e : wire_entries l = Ok es -> e ∈ es ->
  exists r, (id e, r) ∈ l /\ data e = t_data r /\ deleted e = t_deleted r.
Proof.
  revert es. induction l as [|[i r] l IH]; intros es; cbn.
  - intros [= <-] He. by apply elem_of_nil in He.
  - intros (k & _ & (es' & E & [= <-])%bind_ok)%bind_ok [->|He]%elem_of_cons.
    + exists r. split; [by left|done].
    + destruct (IH es' E He) as (r' & Hin & Hr). exists r'. split; [by right|done].
Qed.

(** What is recorded in the local vault stays on the device: whatever the
    user records, edits, deletes or clears and whatever the server answers, in
    any order, an entry the device sends comes from a row of a synchronised
    vault, or is a tombstone without data. *)
Theorem local_history_stays_local d d' es e : life d d' -> private d -> dirty_history d' = Ok es -> e ∈ es ->
  exists r, hist d' !! id e = Some r /\ data e = t_data r /\
    (home (base d') (t_vault r) \/ (deleted e = true /\ data e = "")).
Proof.
  intros Hl Hp%(life_private _ _ Hl) E He.
  destruct (wire_entries_from _ _ _ E He) as (r & [Hd Hin%elem_of_map_to_list]%list_elem_of_filter & Hda & Hdl).
  exists r. cbn in *. split_and!; [done..|]. rewrite Hda, Hdl. by apply (Hp _ _ Hin).
Qed.
End Private.

(** ** Clearing on the server *)

Lemma clear_entries u env db k s i : history_seq db !! u = Some s ->
  HistoryRoutes.entries (fst (HistoryRoutes.clear env u db k)) !! i = r ← HistoryRoutes.entries db !! i;
    let r' := if HistoryRoutes.clears u k r then HistoryRoutes.tombstone (s + 1) r else r in
    if HistoryRoutes.purged env u r' then None else Some r'.
Proof.
  intros Es. unfold HistoryRoutes.clear, HistoryRoutes.next_seq. rewrite Es. cbn [fst HistoryRoutes.entries].
  rewrite map_lookup_filter, lookup_fmap. destruct (HistoryRoutes.entries db !! i) as [r|]; [|done]. cbn. unfold guard.
  by destruct (HistoryRoutes.purged env u _); destruct (decide _).
Qed.

(** What a pull from the last number finds after a clear: tombstones of that
    clear, all with one number. *)
Lemma cleared_newer u env db k i hr : db_ok u db ->
  (i, hr) ∈ newer u (fst (HistoryRoutes.clear env u db k)) (last_seq u db) ->
  h_seq hr = last_seq u db + 1 /\ h_deleted hr = true /\ HistoryRoutes.entries (fst (HistoryRoutes.clear env u db k)) !! i = Some hr /\
  h_user hr = u /\ exists old, HistoryRoutes.entries db !! i = Some old /\ h_deleted old = false.
Proof.
  intros Hok (E & Hu & Hq)%newer_elem. cbn in *. destruct (ok_counter _ _ Hok) as [[s Es] _].
  assert (Hs : last_seq u db = s) by (unfold last_seq; by rewrite Es). rewrite Hs in *. pose proof E as E0.
  rewrite (clear_entries _ _ _ _ s) in E by done. destruct (HistoryRoutes.entries db !! i) as [r|] eqn:Er; [|done]. cbn in E.
  destruct (HistoryRoutes.clears u k r) eqn:Ec; destruct (HistoryRoutes.purged env u _); try done; injection E as <-.
  - cbn in *. split_and!; try done. exists r. split; [done|]. unfold HistoryRoutes.clears in Ec.
    apply andb_true_iff in Ec as [[_ Hd%negb_true_iff]%andb_true_iff _]. done.
  - pose proof (ok_below _ _ Hok _ _ Er Hu). lia.
Qed.

(** C40: A clear on the server gives every tombstone the same number, and a
    page that ends among them moves the cursor past all of them: a device that
    was up to date and asks for pages of [batch] entries gets the first ones,
    is told there is more, and then gets nothing, for ever, whatever limit it
    asks with; some entry that was live is deleted on the server and stays on
    the device. *)
Theorem clear_is_cut_short u env db k batch : db_ok u db ->
  let db' := fst (HistoryRoutes.clear env u db k) in
  let first := HistoryRoutes.pull u db' (last_seq u db) (Some (Z.of_nat batch)) in
  (1 <= batch)%nat -> (Nat.min batch MAX_BATCH < length (newer u db' (last_seq u db)))%nat ->
  p_has_more first = true /\ length (p_entries first) = Nat.min batch MAX_BATCH /\
  (forall limit, (1 <= limit)%nat ->
     HistoryRoutes.pull u db' (p_since first) (Some (Z.of_nat limit)) = mkPulled [] (p_since first) false) /\
  exists i old hr, HistoryRoutes.entries db !! i = Some old /\ h_deleted old = false /\
    HistoryRoutes.entries db' !! i = Some hr /\ h_user hr = u /\ h_deleted hr = true /\
    forall e, e ∈ p_entries first -> id e <> i.
Proof.
  intros Hok db' first Hb Hlen. subst first. rewrite pull_page by done. set (N := newer u db' (last_seq u db)) in *.
  set (n := Nat.min batch MAX_BATCH) in *. assert (Hn : (1 <= n)%nat) by (unfold n, MAX_BATCH; lia). cbn [p_has_more p_entries p_since].
  assert (Hall : forall p, p ∈ N -> h_seq (snd p) = last_seq u db + 1).
  { intros [i hr] Hi. by destruct (cleared_newer u env db k i hr Hok Hi). }
  assert (Hcur : page_cursor (last_seq u db) (take n N) = last_seq u db + 1).
  { unfold page_cursor. destruct (last (take n N)) as [q|] eqn:El.
    - apply Hall. apply last_Some in El as [l' El]. eapply sublist_elem; [apply (sublist_take _ n)|]. rewrite El.
      apply elem_of_app. right. by left.
    - apply last_None in El. apply (f_equal length) in El. rewrite length_take in El. cbn in El. lia. }
  rewrite Hcur. split_and!.
  - by apply Nat.ltb_lt.
  - rewrite length_map, length_take. lia.
  - intros limit Hl. rewrite pull_page by done.
    assert (newer u db' (last_seq u db + 1) = []) as ->.
    { destruct (newer u db' (last_seq u db + 1)) as [|[i hr] l] eqn:El; [done|].
      assert ((i, hr) ∈ newer u db' (last_seq u db + 1)) as (E & Hu & Hq)%newer_elem by (rewrite El; by left).
      cbn in *. assert ((i, hr) ∈ N) as Hi by (apply newer_elem; cbn; split_and!; [done|done|lia]).
      apply Hall in Hi. cbn in Hi. lia. }
    by rewrite take_nil.
  - pose proof (newer_nodup u db' (last_seq u db)) as Hnd. fold N in Hnd. rewrite <- (take_drop n N) in Hnd.
    apply NoDup_app in Hnd as (_ & Hdis & _). destruct (drop n N) as [|[i hr] l] eqn:Ed.
    { apply (f_equal length) in Ed. rewrite length_drop in Ed. cbn in Ed. lia. }
    assert (Hi : (i, hr) ∈ N).
    { rewrite <- (take_drop n N), Ed. apply elem_of_app. right. by left. }
    destruct (cleared_newer u env db k i hr Hok Hi) as (_ & Hd & E & Hu & old & Eo & Hdo).
    exists i, old, hr. split_and!; try done. intros e ([j hr'] & -> & Hj)%list_elem_of_fmap. cbn. intros ->.
    assert ((i, hr') ∈ N) as (E' & _)%newer_elem by (eapply sublist_elem; [apply sublist_take|done]). cbn in E'.
    assert (hr' = hr) as -> by (apply (inj Some); rewrite <- E'; done). apply (Hdis _ Hj). by left.
Qed.

(** A live entry older than 30 days leaves no tombstone at all. *)
Lemma clear_purges_what_it_clears u env db k s i hr : history_seq db !! u = Some s ->
  HistoryRoutes.entries db !! i = Some hr -> HistoryRoutes.clears u k hr = true -> h_created hr < HistoryRoutes.now env - HistoryRoutes.THIRTY_DAYS ->
  HistoryRoutes.entries (fst (HistoryRoutes.clear env u db k)) !! i = None.
Proof.
  intros Es E Hc Hold. rewrite (clear_entries _ _ _ _ s), E by done. cbn. rewrite Hc. unfold HistoryRoutes.purged. cbn.
  unfold HistoryRoutes.clears in Hc. apply andb_true_iff in Hc as [[Hu _]%andb_true_iff _]. rewrite Hu. cbn.
  by rewrite (proj2 (Z.ltb_lt _ _) Hold).
Qed.

(** ** A deletion while a page is under way *)

Lemma apply_others personal l i : forall t n, (forall hr, (i, hr) ∉ l) ->
  fst (fold_left (apply_entry personal) (map (fun p => entry_of (fst p) (snd p)) l) (t, n)) !! i = t !! i.
Proof.
  induction l as [|[j hr] l IH]; intros t n Hi; [done|]. cbn [map fold_left fst snd].
  assert (Hj : j <> i) by (intros ->; apply (Hi hr); by left).
  destruct (apply_entry personal (t, n) (entry_of j hr)) as [t1 n1] eqn:E.
  rewrite IH by (intros hr' Hin; apply (Hi hr'); by right). cbn [apply_entry entry_of deleted id] in E.
  destruct (h_deleted hr); [injection E as <- _; by rewrite lookup_delete_ne|].
  destruct (decide _); [by injection E as <- _|]. injection E as <- _. by rewrite lookup_insert_ne.
Qed.

(** A page a device asked for holds a live entry (the echo of its own push,
    say); the user deletes that record while the answer is under way. Applying
    the page puts the record back, clean: it is listed again, the server is
    never told of the deletion, and nothing is left to push for it. *)
Theorem deletion_during_pull_is_undone u db c batch d p i r hr : db_ok u db -> (1 <= batch)%nat ->
  ClientStore.personal_vault (base d) = Some p -> hist d !! i = Some r -> 0 < t_seq r ->
  HistoryRoutes.entries db !! i = Some hr -> h_deleted hr = false ->
  entry_of i hr ∈ p_entries (HistoryRoutes.pull u db c (Some (Z.of_nat batch))) ->
  let d1 := delete_history d i in
  let d2 := fst (apply_remote_history d1 (p_entries (HistoryRoutes.pull u db c (Some (Z.of_nat batch))))) in
  (exists r1, hist d1 !! i = Some r1 /\ t_deleted r1 = true /\ t_dirty r1 = true) /\
  (exists r2, hist d2 !! i = Some r2 /\ t_deleted r2 = false /\ t_data r2 = h_data hr /\ t_dirty r2 = false) /\
  forall es e, dirty_history d2 = Ok es -> e ∈ es -> id e <> i.
Proof.
  intros Hok Hb Hp Hi Hq E Hd Hin d1 d2.
  assert (Hd1 : hist d1 !! i = Some (bury r)).
  { unfold d1, delete_history. cbn. rewrite bury_lookup, Hi. cbn. rewrite bool_decide_eq_true_2 by done. cbn.
    rewrite (proj2 (Z.eqb_neq _ _)) by lia. by rewrite (proj2 (Z.ltb_lt _ _) Hq). }
  assert (Hd2 : exists r2, hist d2 !! i = Some r2 /\ t_deleted r2 = false /\ t_data r2 = h_data hr /\ t_dirty r2 = false).
  { unfold d2, apply_remote_history. replace (base d1) with (base d) by done. rewrite Hp.
    rewrite pull_page in * by done. cbn [p_entries] in *. set (l := take _ _) in *.
    apply list_elem_of_fmap in Hin as ([j hr'] & Ee & Hin).
    assert (Hj : j = i) by (apply (f_equal id) in Ee; done). subst j.
    assert (Hl : forall hr', (i, hr') ∈ l -> hr' = hr).
    { intros x Hx. eapply sublist_elem in Hx; [|apply sublist_take]. apply newer_elem in Hx as [E' _]. cbn in E'. congruence. }
    pose proof (Hl _ Hin) as ->. pose proof (newer_nodup u db c) as Hnd.
    assert (Hndl : NoDup l) by (eapply sublist_NoDup; [exact Hnd|apply sublist_take]).
    apply list_elem_of_split in Hin as (l1 & l2 & El). rewrite El in *. clear El l Hnd.
    apply NoDup_app in Hndl as (_ & Hdis & [Hn2 _]%NoDup_cons).
    rewrite map_app, fold_left_app. cbn [map fold_left fst snd].
    pose proof (apply_others (ClientStore.lv_id p) l1 i (hist d1) 0) as H1.
    destruct (fold_left (apply_entry _) (map _ l1) _) as [t1 n1]. cbn [fst] in H1.
    pose proof (apply_others (ClientStore.lv_id p) l2 i) as H2.
    destruct (apply_entry _ (t1, n1) (entry_of i hr)) as [t2 n2] eqn:Ea. specialize (H2 t2 n2).
    destruct (fold_left (apply_entry _) (map _ l2) _) as [t3 n3]. cbn [fst hist] in *. rewrite H2.
    - cbn [apply_entry entry_of deleted id] in Ea. rewrite Hd in Ea. unfold known in Ea.
      rewrite H1, Hd1 in Ea; [|intros x Hx; rewrite (Hl x) in Hx by (apply elem_of_app; by left); apply (Hdis _ Hx); by left].
      cbn in Ea. injection Ea as <- _. eexists. rewrite lookup_insert_eq. done.
    - intros x Hx. rewrite (Hl x) in Hx by (apply elem_of_app; right; by right). done. }
  split_and!; [by exists (bury r)|done|]. destruct Hd2 as (r2 & E2 & _ & _ & Hy).
  intros es e Ee He <-. destruct (wire_entries_from _ _ _ Ee He) as (r' & [Hd' Hin'%elem_of_map_to_list]%list_elem_of_filter & _).
  cbn in *. congruence.
Qed.

(** ** Reading *)

Section Reading.
Context (seal unseal : bytes -> bytes -> bytes -> bytes -> option bytes).
Context (b64_encode : bytes -> string) (b64_decode : string -> option bytes) (uuid_text : uuid -> string).
Context {serde_c : Serde CommandHistory} {serde_n : Serde ConnectionHistory}.

Lemma read_items_fails {T} `{Serde T} s k l i r key e : (i, r) ∈ l -> ClientStore.vault_key s (t_vault r) = Ok key ->
  decrypt_str unseal b64_decode key (aad uuid_text k i) (t_data r) = Err e ->
  exists err, read_items (T := T) unseal b64_decode uuid_text s k l = Err err.
Proof.
  intros Hin Hk Hd. induction l as [|[j r'] l IH]; [by apply elem_of_nil in Hin|]. cbn [read_items].
  apply elem_of_cons in Hin as [[= <- <-]|Hin].
  - rewrite Hk. unfold ClientStore.crypto. rewrite Hd. cbn. by eexists.
  - destruct (IH Hin) as [err E]. destruct (ClientStore.vault_key s (t_vault r')); [|by exists err].
    destruct (ClientStore.crypto _); cbn; [|by eexists]. destruct (ok_or _ _); cbn; [|by eexists]. rewrite E. by exists err.
Qed.

Lemma reencrypt_rows_keys old new kv nonces l : forall s n,
  ClientStore.keys (fst (ClientStore.reencrypt_rows seal unseal b64_encode b64_decode uuid_text s old new kv nonces n l)) =
  ClientStore.keys s.
Proof.
  induction l as [|r l IH]; intros s n; [done|]. cbn [ClientStore.reencrypt_rows].
  destruct (ClientStore.reencrypt_row _ _ _ _ _ _ _ _ _ _) as [[r'|]|]; [|apply IH|done]. by rewrite IH.
Qed.

Lemma reencrypt_keys s v old nonces :
  ClientStore.keys (fst (ClientStore.reencrypt_vault seal unseal b64_encode b64_decode uuid_text s v old nonces)) =
  ClientStore.keys s.
Proof.
  unfold ClientStore.reencrypt_vault. destruct (ClientStore.vault_key s v), (ClientStore.vault s v); try done.
  apply reencrypt_rows_keys.
Qed.

(** When a vault's key is rotated, the device installs the new key and
    encrypts the vault's entities anew, but not its history: one command
    recorded before, among those asked for, makes the whole list fail, other
    vaults' commands and later ones included, and with it every completion. *)
Theorem key_rotation_hides_history s k name team role v new kv nonce old nonces d s1 i r e limit :
  ClientStore.upsert_vault seal b64_encode uuid_text s v k name team role (Some new) kv nonce = Ok s1 ->
  (i, r) ∈ take limit (listed Command d) -> t_vault r = v ->
  decrypt_str unseal b64_decode new (aad uuid_text Command i) (t_data r) = Err e ->
  let s2 := fst (ClientStore.reencrypt_vault seal unseal b64_encode b64_decode uuid_text s1 v old nonces) in
  let d2 := mkDev s2 (hist d) (account d) in
  (exists err, commands unseal b64_decode uuid_text d2 limit = Err err) /\
  ((limit <= 2000)%nat -> forall prefix n, exists err,
     complete_command unseal b64_decode uuid_text d2 prefix n = Err err).
Proof.
  intros Hup Hin Hv Hd s2 d2.
  assert (Hk : ClientStore.vault_key s2 (t_vault r) = Ok new).
  { unfold ClientStore.vault_key, s2. rewrite reencrypt_keys, Hv. unfold ClientStore.upsert_vault in Hup.
    destruct (decide _); [done|]. apply bind_ok in Hup as (w & _ & [= <-]). cbn. by rewrite lookup_insert_eq. }
  assert (Hf : forall l, (i, r) ∈ l -> exists err, read_items (T := CommandHistory) unseal b64_decode uuid_text s2 Command l = Err err).
  { intros l Hl. eapply read_items_fails; eauto. }
  split; [by apply Hf|]. intros Hle prefix n.
  unfold complete_command, commands, list_history. change (base d2) with s2.
  destruct (Hf (take 2000 (listed Command d2))) as [err E]; [|rewrite E; by exists err].
  eapply sublist_elem; [|exact Hin]. change (listed Command d2) with (listed Command d).
  replace limit with (Nat.min limit 2000) by lia. rewrite <- take_take. apply sublist_take.
Qed.

(** *** Completion *)

Lemma complete_spec prefix limit l : forall seen out, (forall c, c ∈ seen <-> c ∈ out) -> NoDup out ->
  Forall (fun c => String.prefix prefix c = true) out -> (length out < Nat.max 1 limit)%nat ->
  let res := complete prefix limit seen out l in
  out `prefix_of` res /\ NoDup res /\ Forall (fun c => String.prefix prefix c = true) res /\
  (length res <= Nat.max 1 limit)%nat /\ (forall c, c ∈ res -> c ∈ out \/ c ∈ l) /\
  ((length res < limit)%nat -> forall c, c ∈ l -> String.prefix prefix c = true -> c ∈ res).
Proof.
  induction l as [|c l IH]; intros seen out Hs Hnd Hpre Hlen; cbn [complete].
  - split_and!; try done; [lia|auto|]. intros _ c Hc. by apply elem_of_nil in Hc.
  - destruct (String.prefix prefix c) eqn:Ep; cbn [andb].
    + destruct (bool_decide_reflect (c ∉ seen)) as [Hc|Hc].
      * rewrite Hs in Hc. assert (Hnd' : NoDup (out ++ [c])).
        { apply NoDup_app. split_and!; [done| |apply NoDup_singleton]. by intros x Hx ->%list_elem_of_singleton. }
        assert (Hpre' : Forall (fun c => String.prefix prefix c = true) (out ++ [c])) by (apply Forall_app; by repeat constructor).
        destruct (Nat.leb_spec limit (length (out ++ [c]))) as [Hl|Hl].
        -- rewrite length_app in Hl |- *. cbn in *. split_and!; try done; [by apply prefix_app_r|lia| |lia].
           intros x [Hx|Hx%list_elem_of_singleton]%elem_of_app; [by left|right; subst; by left].
        -- destruct (IH ({[c]} ∪ seen) (out ++ [c])) as (Hp & Hn & Hf & Hle & Hin & Hall); [|done|done|lia|].
           { intros x. rewrite elem_of_union, elem_of_singleton, elem_of_app, list_elem_of_singleton, Hs. tauto. }
           split_and!; try done.
           ++ etrans; [|exact Hp]. by apply prefix_app_r.
           ++ intros x Hx. destruct (Hin x Hx) as [[Ho|Ho%list_elem_of_singleton]%elem_of_app|Ho]; [by left|right; subst; by left|right; by right].
           ++ intros Hlt x [->|Hx]%elem_of_cons Hpx; [|by apply Hall]. eapply elem_of_prefix; [|exact Hp].
              apply elem_of_app. right. by left.
      * assert (Hc' : c ∈ out) by (apply Hs; destruct (decide (c ∈ seen)); done).
        destruct (IH seen out Hs Hnd Hpre Hlen) as (Hp & Hn & Hf & Hle & Hin & Hall). split_and!; try done.
        -- intros x Hx. destruct (Hin x Hx); [by left|right; by right].
        -- intros Hlt x [->|Hx]%elem_of_cons Hpx; [by eapply elem_of_prefix|by apply Hall].
    + destruct (IH seen out Hs Hnd Hpre Hlen) as (Hp & Hn & Hf & Hle & Hin & Hall). split_and!; try done.
      * intros x Hx. destruct (Hin x Hx); [by left|right; by right].
      * intros Hlt x [->|Hx]%elem_of_cons Hpx; [congruence|by apply Hall].
Qed.

Definition readable (s : Store) (i : uuid) (r : HistRow) : Prop :=
  (exists e, ClientStore.vault_key s (t_vault r) = Err e) \/
  exists key pt (x : CommandHistory), ClientStore.vault_key s (t_vault r) = Ok key /\
    decrypt_str unseal b64_decode key (aad uuid_text Command i) (t_data r) = Ok pt /\ from_json pt = Some x.

Lemma read_items_ok s l : (forall i r, (i, r) ∈ l -> readable s i r) ->
  exists xs, read_items (T := CommandHistory) unseal b64_decode uuid_text s Command l = Ok xs.
Proof.
  induction l as [|[i r] l IH]; intros Hl; [by eexists|]. destruct IH as [xs E]; [intros; apply Hl; by right|].
  cbn [read_items]. destruct (Hl i r ltac:(by left)) as [[e ->]|(key & pt & x & -> & Hd & Hx)]; [by exists xs|].
  unfold ClientStore.crypto. rewrite Hd. cbn. rewrite Hx. cbn. rewrite E. by eexists.
Qed.

Lemma newest_head l (x : uuid * HistRow) : StronglySorted newest_first l -> x ∈ l ->
  (forall y, y ∈ l -> y = x \/ t_created (snd y) < t_created (snd x)) -> exists l', l = x :: l'.
Proof.
  intros Hs Hx Hlt. destruct l as [|y l]; [by apply elem_of_nil in Hx|]. apply StronglySorted_cons in Hs as [Hy _].
  destruct (Hlt y ltac:(by left)) as [->|Hy']; [by exists l|]. apply elem_of_cons in Hx as [->|Hx]; [by exists l|].
  rewrite Forall_forall in Hy. specialize (Hy x Hx). unfold newest_first in Hy. lia.
Qed.

#[local] Instance newest_trans : Transitive newest_first.
Proof. intros a b c. unfold newest_first. lia. Qed.
#[local] Instance newest_total : Total newest_first.
Proof. intros a b. unfold newest_first. lia. Qed.

Lemma record_reads (laws : cipher_laws seal unseal b64_encode b64_decode)
    (json : forall x j, to_json x = Some j -> from_json (T := CommandHistory) j = Some x /\ valid_utf8 (as_bytes j) = true)
    d now nonce i x d' j : length nonce = NONCE_LEN -> all_bytes nonce ->
  record_history (T := CommandHistory) seal b64_encode uuid_text d now nonce i Command x = Ok (d', j) ->
  hist d !! i = None /\ exists r key pt, d' = with_hist d (<[i := r]>) /\ t_kind r = "command" /\ t_deleted r = false /\
    t_created r = now /\ ClientStore.vault_key (base d) (t_vault r) = Ok key /\
    decrypt_str unseal b64_decode key (aad uuid_text Command i) (t_data r) = Ok pt /\ from_json pt = Some x.
Proof.
  intros Hn Hnb. unfold record_history.
  intros (v & Hv & (key & Hkey & (lv & Hlv & (pt & Hpt%ok_or_ok & (ct & Hct & E)%bind_ok)%bind_ok)%bind_ok)%bind_ok)%bind_ok.
  destruct (decide _) as [|Hi]; [done|]. injection E as <- <-. split; [by apply eq_None_not_Some|].
  unfold ClientStore.crypto in Hct. destruct (encrypt_str _ _ _ _ _ _) as [c|] eqn:Ec; [|done]. injection Hct as ->.
  destruct (json x pt Hpt) as [Hj Hu]. eexists _, key, pt. split_and!; try done. cbn.
  exact (decrypt_str_encrypt_str _ _ _ _ laws key _ nonce pt _ Hn Hnb Hu Ec).
Qed.

(** The row just recorded is read first. *)
Lemma newest_read_first d i r x key pt : t_kind r = "command" -> t_deleted r = false ->
  ClientStore.vault_key (base d) (t_vault r) = Ok key ->
  decrypt_str unseal b64_decode key (aad uuid_text Command i) (t_data r) = Ok pt -> from_json pt = Some x ->
  (forall k q, hist d !! k = Some q -> t_created q < t_created r) ->
  (forall k q, hist d !! k = Some q -> t_kind q = "command" -> t_deleted q = false -> readable (base d) k q) ->
  exists xs, commands unseal b64_decode uuid_text (with_hist d (<[i := r]>)) 2000 = Ok (mkItem i (t_created r) x :: xs).
Proof.
  intros Hk Hd Hkey Hdec Hx Hnew Hread. set (d' := with_hist d _).
  assert (Hel : forall k q, (k, q) ∈ listed Command d' <-> (t_kind q = "command" /\ t_deleted q = false) /\ hist d' !! k = Some q).
  { intros k q. unfold listed. by rewrite merge_sort_Permutation, list_elem_of_filter, elem_of_map_to_list. }
  assert (Hrow : forall k q, hist d' !! k = Some q -> (k = i /\ q = r) \/ (k <> i /\ hist d !! k = Some q)).
  { intros k q. unfold d'. cbn. destruct (decide (k = i)) as [->|Hne]; [rewrite lookup_insert_eq; intros [= <-]; auto|].
    rewrite lookup_insert_ne by done. auto. }
  destruct (newest_head (listed Command d') (i, r)) as [l El].
  { apply StronglySorted_merge_sort; apply _. }
  { apply Hel. unfold d'. cbn. by rewrite lookup_insert_eq. }
  { intros [k q] [_ Hq]%Hel. destruct (Hrow k q Hq) as [[-> ->]|[_ Hq']]; [by left|right]. cbn. by eapply Hnew. }
  destruct (read_items_ok (base d) (take 1999 l)) as [xs Exs].
  { intros k q Hq. assert (Hin : (k, q) ∈ listed Command d').
    { rewrite El. right. eapply sublist_elem; [apply sublist_take|exact Hq]. }
    apply Hel in Hin as [[Hkq Hdq] Hq']. destruct (Hrow k q Hq') as [[-> ->]|[_ Hqd]]; [|by eapply Hread].
    right. by exists key, pt, x. }
  exists xs. unfold commands, list_history. rewrite El. change (base d') with (base d).
  change (take 2000 ((i, r) :: l)) with ((i, r) :: take 1999 l). cbn [read_items]. rewrite Hkey.
  unfold ClientStore.crypto. rewrite Hdec. cbn [mbind result_bind]. rewrite Hx. cbn [ok_or mbind result_bind].
  by rewrite Exs.
Qed.

Lemma complete_first prefix limit c l : String.prefix prefix c = true ->
  exists out, let res := c :: out in complete prefix limit ∅ [] (c :: l) = res /\
    NoDup res /\ Forall (fun c => String.prefix prefix c = true) res /\ (length res <= Nat.max 1 limit)%nat /\
    (forall x, x ∈ res -> x ∈ c :: l) /\
    ((length res < limit)%nat -> forall x, x ∈ c :: l -> String.prefix prefix x = true -> x ∈ res).
Proof.
  intros Hpre. destruct (complete_spec prefix limit (c :: l) ∅ []) as (_ & Hnd & Hf & Hle & Hin & Hall);
    [intros x; split; intros H0; by (apply not_elem_of_empty in H0 || apply elem_of_nil in H0)|constructor|constructor|cbn; lia|].
  assert (Ehead : exists out, complete prefix limit ∅ [] (c :: l) = c :: out).
  { cbn [complete]. rewrite Hpre. rewrite bool_decide_eq_true_2 by apply not_elem_of_empty. cbn [andb app length].
    destruct (Nat.leb_spec limit 1); [by eexists|].
    destruct (complete_spec prefix limit l ({[c]} ∪ ∅) [c]) as ([out E] & _).
    - intros x. rewrite elem_of_union, elem_of_singleton, list_elem_of_singleton. set_solver.
    - apply NoDup_singleton.
    - by repeat constructor.
    - cbn. lia.
    - exists out. exact E. }
  destruct Ehead as [out Eout]. rewrite Eout in *. exists out. cbn zeta. split_and!; try done.
  intros x Hx. destruct (Hin x Hx) as [H0|]; [by apply elem_of_nil in H0|done].
Qed.

(** The command just typed is the first completion of each of its
    beginnings, whatever was recorded before; the completions are distinct
    commands that start with what was typed, at most as many as asked for, all
    of them recorded, and when there are fewer than asked for, every recorded
    one (of the 2000 latest) is among them. *)
Theorem typed_command_completes_first (laws : cipher_laws seal unseal b64_encode b64_decode)
    (json : forall x j, to_json x = Some j -> from_json (T := CommandHistory) j = Some x /\ valid_utf8 (as_bytes j) = true)
    d now nonce i x d' j prefix limit : length nonce = NONCE_LEN -> all_bytes nonce ->
  (forall k r, hist d !! k = Some r -> t_created r < now) ->
  (forall k r, hist d !! k = Some r -> t_kind r = "command" -> t_deleted r = false -> readable (base d) k r) ->
  record_command seal b64_encode uuid_text d now nonce i x = Ok (d', j) -> String.prefix prefix (command x) = true ->
  exists items out, commands unseal b64_decode uuid_text d' 2000 = Ok items /\
    let res := command x :: out in
    complete_command unseal b64_decode uuid_text d' prefix limit = Ok res /\
    NoDup res /\ Forall (fun c => String.prefix prefix c = true) res /\ (length res <= Nat.max 1 limit)%nat /\
    (forall c, c ∈ res -> exists it, it ∈ items /\ command (i_data it) = c) /\
    ((length res < limit)%nat -> forall it, it ∈ items -> String.prefix prefix (command (i_data it)) = true ->
       command (i_data it) ∈ res).
Proof.
  intros Hn Hnb Hnew Hread Hrec Hpre. unfold record_command in Hrec. destruct (decide _); [done|].
  destruct (record_reads laws json _ _ _ _ _ _ _ Hn Hnb Hrec) as (Hi & r & key & pt & -> & Hk & Hd & Hc & Hkey & Hdec & Hx).
  destruct (newest_read_first d i r x key pt) as [xs Hcm]; try done; [by rewrite Hc|].
  set (name := fun it : HistoryItem CommandHistory => command (i_data it)).
  destruct (complete_first prefix limit (command x) (map name xs) Hpre) as (out & E & Hnd & Hf & Hle & Hin & Hall).
  change (command x :: map name xs) with (map name (mkItem i (t_created r) x :: xs)) in E, Hin, Hall.
  exists (mkItem i (t_created r) x :: xs), out. split; [done|]. cbn zeta. split_and!; try done.
  - unfold complete_command. rewrite Hcm. cbn [mbind result_bind]. f_equal. exact E.
  - intros c Hc'. apply Hin, list_elem_of_fmap in Hc' as (it & -> & Hit). by exists it.
  - intros Hlt it Hit Hp. apply Hall; [done| |done]. by apply (list_elem_of_fmap_2 name).
Qed.
End Reading.

(** ** A device and a server *)

Definition ex_base : Store :=
  ClientStore.mkStore [] {[1%N := ClientStore.mkVaultRow ClientStore.Local "Local" None VaultAccess.Manager None 1 0 false 0 true;
      7%N := ClientStore.mkVaultRow ClientStore.Personal "Me" None VaultAccess.Manager (Some "w") 1 0 false 0 false]}
    {[1%N := [1]; 7%N := [2]]} ∅.
Definition ex_dev : Dev := mkDev ex_base ∅ (Some 0).

#[local] Instance ex_command : Serde CommandHistory := {|
  to_json x := match c_host x with None => if valid_utf8 (as_bytes (command x)) then Some (command x) else None | Some _ => None end;
  from_json j := Some (mkCommand None j)
|}.
#[local] Instance ex_connection : Serde ConnectionHistory := {| to_json _ := None; from_json _ := None |}.

Lemma ex_command_json (x : CommandHistory) j : to_json x = Some j ->
  from_json (T := CommandHistory) j = Some x /\ valid_utf8 (as_bytes j) = true.
Proof.
  destruct x as [[h|] c]; [done|]. unfold to_json, from_json, ex_command, c_host, command.
  destruct (valid_utf8 (as_bytes c)) eqn:E; [|discriminate]. intros [= <-]. by rewrite E.
Qed.

Definition ex_nonce : bytes := replicate NONCE_LEN 9.
Definition ex_text (u : uuid) : string := "id".
Definition recorded (d : Dev) (now : Z) (i : uuid) (c : string) : Dev :=
  match record_command toy_seal0 toy_b64 ex_text d now ex_nonce i (mkCommand None c) with Ok (d, _) => d | Err _ => d end.

Definition ex_env : Env := mkEnv false 1000 (fun _ => true) 0 true.
Definition ex_db : Db := mkDb {[5%N := 0]} ∅.
Definition ex_peer : HistoryEntry := mkEntry 9 Command "from another device" 1 10 0 false.
Definition ex_db' : Db := fst (HistoryRoutes.push ex_env 5 ex_db [ex_peer]).
Definition ex_dev' : Dev := recorded ex_dev 20 42 "git push".

Lemma ex_db_ok : db_ok 5 ex_db.
Proof.
  split.
  - split; [by eexists|]. by vm_compute.
  - intros i r Hr. cbn in Hr. by rewrite lookup_empty in Hr.
  - intros i j r r' Hr. cbn in Hr. by rewrite lookup_empty in Hr.
  - intros i r Hr. cbn in Hr. by rewrite lookup_empty in Hr.
Qed.
Lemma ex_db'_ok : db_ok 5 ex_db'.
Proof. apply (push_grows 5 ex_env 5 ex_db [ex_peer] ex_db_ok). Qed.

Lemma ex_hist : hist ex_dev' = {[42%N := default (mkHist "" 0 "" 0 0 0 false false) (hist ex_dev' !! 42%N)]}.
Proof. vm_compute. reflexivity. Qed.

Lemma ex_behind : behind 5 (home ex_base) ex_db 0 (hist ex_dev).
Proof.
  split.
  - by vm_compute.
  - intros i r Hr. cbn in Hr. by rewrite lookup_empty in Hr.
  - intros i r Hr. cbn in Hr. by rewrite lookup_empty in Hr.
Qed.

Lemma ex_recorded : edits toy_seal0 toy_b64 ex_text (fun i => HistoryRoutes.entries ex_db !! i = None) ex_dev ex_dev'.
Proof.
  eapply (edits_command _ _ _ _ 20 ex_nonce 42 (mkCommand None "git push")); [vm_compute; reflexivity|done|].
  apply edits_none.
Qed.

Lemma history_follows_server_witness : exists st',
  @sync_history_into Db (server ex_env 5) 1 5 (mkSync ex_db' ex_dev' (0%nat, 0%nat) false) = (st', Ok (Some tt)) /\
  replica 5 (remote st') (hist (dev st')).
Proof.
  destruct (history_follows_server toy_seal0 toy_b64 ex_text 5 ex_env 1 5 ex_db ex_db' 0 ex_dev ex_dev' (0%nat, 0%nat) false
    (ClientStore.view 7 (ClientStore.mkVaultRow ClientStore.Personal "Me" None VaultAccess.Manager (Some "w") 1 0 false 0 false)))
    as (st' & E & Hr & _).
  - exact ex_db_ok.
  - exact ex_behind.
  - reflexivity.
  - vm_compute. reflexivity.
  - exact ex_recorded.
  - apply (pushes_more ex_env 5 [ex_peer]). apply pushes_none.
  - intros i Hi _. rewrite ex_hist in Hi. apply lookup_singleton_is_Some in Hi as <-. vm_compute. reflexivity.
  - vm_compute. split; lia.
  - intros es E. vm_compute in E. injection E as <-. split_and!; [done|done|].
    intros e ->%list_elem_of_singleton. vm_compute. reflexivity.
  - vm_compute. lia.
  - exists st'. split; assumption.
Defined.

Definition ex_sent : HistoryEntry := match dirty_history ex_dev' with Ok (e :: _) => e | _ => ex_peer end.

Lemma local_history_stays_local_witness : exists r, dirty_history ex_dev' = Ok [ex_sent] /\
  hist ex_dev' !! id ex_sent = Some r /\ (home (base ex_dev') (t_vault r) \/ (deleted ex_sent = true /\ data ex_sent = "")).
Proof.
  assert (Hl : life toy_seal0 toy_b64 ex_text ex_dev ex_dev').
  { eapply life_edits; [|apply life_none].
    eapply (edits_command _ _ _ _ 20 ex_nonce 42 (mkCommand None "git push")); [vm_compute; reflexivity|done|apply edits_none]. }
  assert (Hp : private ex_dev) by (intros i r Hi; cbn in Hi; by rewrite lookup_empty in Hi).
  assert (E : dirty_history ex_dev' = Ok [ex_sent]) by (vm_compute; reflexivity).
  destruct (local_history_stays_local toy_seal0 toy_b64 ex_text ex_dev ex_dev' [ex_sent] ex_sent Hl Hp E) as (r & Hr & _ & Hor).
  - by left.
  - exists r. by split_and!.
Defined.

(** Two live entries, and pages of one. *)
Definition ex_two : Db := fst (HistoryRoutes.push ex_env 5 ex_db' [mkEntry 8 Connection "c" 1 11 0 false]).

Lemma clear_is_cut_short_witness :
  let db' := fst (HistoryRoutes.clear ex_env 5 ex_two None) in
  p_has_more (HistoryRoutes.pull 5 db' 2 (Some 1)) = true /\
  HistoryRoutes.pull 5 db' (p_since (HistoryRoutes.pull 5 db' 2 (Some 1))) (Some 500) = mkPulled [] 3 false.
Proof.
  destruct (clear_is_cut_short 5 ex_env ex_two None 1) as (H1 & _ & H3 & _).
  - apply (push_grows 5 ex_env 5 ex_db' _ ex_db'_ok).
  - lia.
  - vm_compute. lia.
  - split; [exact H1|]. exact (H3 500%nat ltac:(lia)).
Defined.

(** The echo of the device's own push, deleted meanwhile. *)
Definition ex_pushed : Dev :=
  with_hist ex_dev (const {[9%N := mkHist "command" 7 "from another device" 1 10 1 false false]}).

Lemma deletion_during_pull_is_undone_witness :
  exists r2, hist (fst (apply_remote_history (delete_history ex_pushed 9) (p_entries (HistoryRoutes.pull 5 ex_db' 0 (Some 100))))) !! 9%N =
    Some r2 /\ t_deleted r2 = false /\ t_data r2 = "from another device".
Proof.
  destruct (deletion_during_pull_is_undone 5 ex_db' 0 100 ex_pushed
    (ClientStore.view 7 (ClientStore.mkVaultRow ClientStore.Personal "Me" None VaultAccess.Manager (Some "w") 1 0 false 0 false))
    9 (mkHist "command" 7 "from another device" 1 10 1 false false) (mkHRow 5 "command" "from another device" 1 10 1 false))
    as (_ & (r2 & E & Hd & Hda & _) & _).
  - exact ex_db'_ok.
  - lia.
  - vm_compute. reflexivity.
  - vm_compute. reflexivity.
  - vm_compute. reflexivity.
  - vm_compute. reflexivity.
  - vm_compute. reflexivity.
  - vm_compute. by left.
  - by exists r2.
Defined.

(** A cipher whose tag is the key. *)
Definition ex_seal (k n a m : bytes) : option bytes := Some (m ++ replicate TAG_LEN (hd 0 k)).
Definition ex_unseal (k n a c : bytes) : option bytes :=
  if decide (drop (length c - TAG_LEN) c = replicate TAG_LEN (hd 0 k)) then Some (take (length c - TAG_LEN) c) else None.
Definition ex_keyed : Dev :=
  match record_command ex_seal toy_b64 ex_text ex_dev 20 ex_nonce 42 (mkCommand None "ls") with Ok (d, _) => d | Err _ => ex_dev end.

Lemma key_rotation_hides_history_witness :
  (exists l, commands ex_unseal toy_unb64 ex_text ex_keyed 10 = Ok l) /\
  exists s1, ClientStore.upsert_vault ex_seal toy_b64 ex_text ex_base 7 ClientStore.Personal "Me" None
      VaultAccess.Manager (Some [3]) 2 ex_nonce = Ok s1 /\
    exists err, commands ex_unseal toy_unb64 ex_text
      (mkDev (fst (ClientStore.reencrypt_vault ex_seal ex_unseal toy_b64 toy_unb64 ex_text s1 7 [2] (fun _ => ex_nonce)))
         (hist ex_keyed) (account ex_keyed)) 10 = Err err.
Proof.
  split; [eexists; vm_compute; reflexivity|]. eexists. split; [vm_compute; reflexivity|].
  eapply (key_rotation_hides_history ex_seal ex_unseal toy_b64 toy_unb64 ex_text ex_base ClientStore.Personal "Me" None
    VaultAccess.Manager 7 [3] 2 ex_nonce [2] (fun _ => ex_nonce) ex_keyed _ 42
    (default (mkHist "" 0 "" 0 0 0 false false) (hist ex_keyed !! 42%N)) Decrypt 10).
  - vm_compute. reflexivity.
  - vm_compute. by left.
  - vm_compute. reflexivity.
  - vm_compute. reflexivity.
Defined.

Lemma typed_command_completes_first_witness : exists out,
  complete_command toy_unseal0 toy_unb64 ex_text (recorded ex_dev' 30 43 "git pull") "git" 5 = Ok ("git pull" :: out).
Proof.
  destruct (typed_command_completes_first toy_seal0 toy_unseal0 toy_b64 toy_unb64 ex_text toy_laws ex_command_json
    ex_dev' 30 ex_nonce 43 (mkCommand None "git pull") (recorded ex_dev' 30 43 "git pull") 43 "git" 5)
    as (items & out & _ & E & _).
  - reflexivity.
  - by repeat constructor.
  - intros k r Hk. rewrite ex_hist in Hk. apply lookup_singleton_Some in Hk as [_ <-]. vm_compute. reflexivity.
  - intros k r Hk _ _. rewrite ex_hist in Hk. apply lookup_singleton_Some in Hk as [<- <-]. right.
    exists [2], "git push", (mkCommand None "git push"). split_and!; vm_compute; reflexivity.
  - vm_compute. reflexivity.
  - reflexivity.
  - by exists out.
Defined.
