(* ===== verification/Vaults.v ===== *)
(** * Vaults, their members and keys on the server

    [crates/termoso-server/src/routes/vaults.rs] on tables of its own: vaults,
    the copies of their keys sealed to members and bridges, and the rows of
    [Authz] and of policies the rights are read from. [access_row] is the join
    behind [VaultAccess.access]. A handler that checks and then writes in
    statements of their own is two functions and their composition, so that
    others can come between them. Times are in seconds; base64 and random ids
    are parameters. Left out: audit and security entries, session logs. *)
From Stdlib Require Import Ascii.
From S2P Require Import Prelude Text VaultAccess Authz.

#[local] Open Scope string_scope.
#[local] Open Scope list_scope.
#[local] Open Scope Z_scope.

(** ** Tables *)

Record VaultRow := mkVault {
  v_kind : string; v_team : option uuid; v_owner : option uuid; v_name : string; v_created : Z;
  v_key_version : Z; v_logging : bool; v_default : bool; v_deleted : bool
}.
Record VaultMemberRow := mkVaultMember {
  k_role : string; k_sealed : option string; k_version : Z; k_by : option uuid; k_added : Z; k_expires : option Z
}.
Record BridgeRow := mkBridge { b_sealed : option string; b_version : Z }.
Record UserRow := mkUser { u_email : string; u_display : option string; u_avatar : option string; u_key : string }.

(** A row of [access_requests]; see [TempAccess]. *)
Record AccessRequest := mkRequest {
  q_team : uuid; q_vault : uuid; q_user : uuid; q_role : string; q_hours : Z; q_reason : string; q_status : string;
  q_by : option uuid; q_decided : option Z; q_note : option string; q_expires : option Z; q_created : Z
}.

(** [policies]: the columns [mfa] and [session_recording] of a team. Members
    are keyed by vault and user, bridges by bridge and vault. *)
Record Tables := mkTables {
  now : Z; authz : Db; policies : gmap uuid (string * string); totp : gset uuid; passkeys : gset uuid;
  users : gmap uuid UserRow; vaults : gmap uuid VaultRow; members : gmap (uuid * uuid) VaultMemberRow;
  bridges : gmap (uuid * uuid) BridgeRow; requests : gmap uuid AccessRequest; published : list (list uuid)
}.

Definition with_vaults (f : gmap uuid VaultRow -> gmap uuid VaultRow) (tb : Tables) : Tables :=
  mkTables (now tb) (authz tb) (policies tb) (totp tb) (passkeys tb) (users tb) (f (vaults tb)) (members tb)
    (bridges tb) (requests tb) (published tb).
Definition with_members (f : gmap (uuid * uuid) VaultMemberRow -> gmap (uuid * uuid) VaultMemberRow) (tb : Tables) : Tables :=
  mkTables (now tb) (authz tb) (policies tb) (totp tb) (passkeys tb) (users tb) (vaults tb) (f (members tb))
    (bridges tb) (requests tb) (published tb).
Definition with_bridges (f : gmap (uuid * uuid) BridgeRow -> gmap (uuid * uuid) BridgeRow) (tb : Tables) : Tables :=
  mkTables (now tb) (authz tb) (policies tb) (totp tb) (passkeys tb) (users tb) (vaults tb) (members tb)
    (f (bridges tb)) (requests tb) (published tb).
Definition with_requests (f : gmap uuid AccessRequest -> gmap uuid AccessRequest) (tb : Tables) : Tables :=
  mkTables (now tb) (authz tb) (policies tb) (totp tb) (passkeys tb) (users tb) (vaults tb) (members tb)
    (bridges tb) (f (requests tb)) (published tb).
(** [events::publish] of [VaultsUpdated]. *)
Definition publish (ids : list uuid) (tb : Tables) : Tables :=
  mkTables (now tb) (authz tb) (policies tb) (totp tb) (passkeys tb) (users tb) (vaults tb) (members tb)
    (bridges tb) (requests tb) (published tb ++ [ids]).

Inductive VaultError :=
| FromAuthz (e : Authz.Error) | FromAccess (e : VaultAccess.Error)
| Bad (msg : string) | TooLarge (msg : string) | Missing (what : string) | Conflicts (msg : string)
| Forbids (msg : string) | Internal.
Abbreviation vapi := (result VaultError).

Definition from_authz {A} (r : result Authz.Error A) : vapi A := match r with Ok a => Ok a | Err e => Err (FromAuthz e) end.
Definition from_access {A} (r : result VaultAccess.Error A) : vapi A := match r with Ok a => Ok a | Err e => Err (FromAccess e) end.
Definition guard (b : bool) (e : VaultError) : vapi unit := if b then Ok tt else Err e.

Lemma guard_ok b e u : guard b e = Ok u -> b = true.
Proof. by destruct b. Qed.

(** ** Rights *)

Definition is_row (team user : uuid) (m : MemberRow) : Prop := m_team m = team /\ m_user m = user.
#[export] Instance is_row_dec team user m : Decision (is_row team user m).
Proof. unfold is_row. apply _. Defined.
Definition team_member (tb : Tables) (team user : uuid) : option MemberRow :=
  snd <$> list_find (is_row team user) (team_members (authz tb)).

(** [teams::my_role]. *)
Definition my_role (tb : Tables) (team user : uuid) : vapi TeamRole :=
  match team_member tb team user with Some m => Ok (parse_team_role (m_role m)) | None => Err (Missing "Team") end.

(** The query of [access]. *)
Definition access_row (tb : Tables) (vault user : uuid) : option AccessRow :=
  match vaults tb !! vault with
  | Some v =>
      if v_deleted v then None
      else
        let vm := members tb !! (vault, user) in
        let tm := t ← v_team v; team_member tb t user in
        Some (mkRow (v_kind v) (v_team v) (v_key_version v) (k_role <$> vm) ((fun m => bool_decide (k_sealed m = None)) <$> vm)
          (m ← tm; r_permissions <$> find_role (authz tb) (m_role_id m))
          (t ← v_team v; fst <$> policies tb !! t)
          (bool_decide (user ∈ totp tb)) (bool_decide (user ∈ passkeys tb)))
  | None => None
  end.

Definition vault_access (tb : Tables) (vault user : uuid) : vapi Access := from_access (access vault (access_row tb vault user)).
Definition manages (tb : Tables) (vault user : uuid) : vapi Access := from_access (require_manage vault (access_row tb vault user)).
Definition writes (tb : Tables) (vault user : uuid) : vapi Access := from_access (require_write vault (access_row tb vault user)).

Definition member_ids (tb : Tables) (vault : uuid) : list uuid :=
  map (fun p => snd (fst p)) (filter (fun p => fst (fst p) = vault) (map_to_list (members tb))).

Definition validate_name (name : string) : vapi string :=
  let n := trim name in
  if bool_decide (n = "") || (100 <? length (chars (as_bytes n)))%nat then Err (Bad "Invalid vault name") else Ok n.

Definition vault_role_str (r : VaultRole) : string :=
  match r with Viewer => "viewer" | Editor => "editor" | Manager => "manager" end.

(** ** Reading *)

Record VaultView := mkView {
  w_id : uuid; w_kind : VaultKind; w_team : option uuid; w_name : string; w_created : Z; w_role : VaultRole;
  w_sealed : option string; w_version : Z; w_logging : bool; w_default : bool
}.

Definition by_kind (a b : VaultView) : Prop :=
  match w_kind a, w_kind b with
  | Personal, Team => True
  | Team, Personal => False
  | _, _ => w_created a <= w_created b
  end.
#[export] Instance by_kind_dec a b : Decision (by_kind a b).
Proof. unfold by_kind. destruct (w_kind a), (w_kind b); apply _. Defined.

Definition kind_of (v : VaultRow) : VaultKind := if decide (v_kind v = "team") then Team else Personal.

Definition my_view (tb : Tables) (p : uuid * uuid * VaultMemberRow) : option VaultView :=
  let '((i, _), m) := p in
  v ← vaults tb !! i;
  if v_deleted v then None
  else Some (mkView i (kind_of v) (v_team v) (v_name v) (v_created v) (parse_vault_role (k_role m)) (k_sealed m)
               (v_key_version v) (v_logging v) (v_default v)).

Definition list (user : uuid) (tb : Tables) : Datatypes.list VaultView :=
  merge_sort by_kind (omap (my_view tb) (filter (fun p => snd (fst p) = user) (map_to_list (members tb)))).

Definition get (user i : uuid) (tb : Tables) : vapi VaultView :=
  a ← vault_access tb i user;
  v ← ok_or (vaults tb !! i) Internal;
  Ok (mkView i (kind a) (VaultAccess.team_id a) (v_name v) (v_created v) (VaultAccess.role a)
        (m ← members tb !! (i, user); k_sealed m) (VaultAccess.key_version a) (v_logging v) (v_default v)).

Record VaultMember := mkMemberView {
  x_user : uuid; x_account : UserRow; x_vrole : VaultRole; x_version : Z; x_pending : bool; x_added : Z
}.
Definition by_added (a b : VaultMember) : Prop := x_added a <= x_added b.
#[export] Instance by_added_dec a b : Decision (by_added a b).
Proof. unfold by_added. apply _. Defined.

Definition vault_members (user i : uuid) (tb : Tables) : vapi (Datatypes.list VaultMember) :=
  _ ← vault_access tb i user;
  Ok (merge_sort by_added
        (omap (fun '((v, u), m) =>
                 a ← users tb !! u;
                 if decide (v = i) then
                   Some (mkMemberView u a (parse_vault_role (k_role m)) (k_version m) (bool_decide (k_sealed m = None)) (k_added m))
                 else None)
           (map_to_list (members tb)))).

Section Vaults.
Context (unb64 : string -> option bytes).

Definition validate_sealed (sealed : string) : vapi unit :=
  b ← ok_or (unb64 sealed) (Bad "sealed_key is not valid base64");
  guard (negb ((length b <? 48)%nat || (512 <? length b)%nat)) (Bad "sealed_key has an unexpected length").

(** ** Creating, changing and deleting a vault *)

Record VaultMemberUpsert := mkUpsert { p_user : uuid; p_role : VaultRole; p_sealed : string }.
Record CreateVaultRequest := mkCreate { c_name : string; c_members : Datatypes.list VaultMemberUpsert }.

(** The loop over the request's members. *)
Fixpoint check_members (tb : Tables) (team : uuid) (l : Datatypes.list VaultMemberUpsert) : vapi unit :=
  match l with
  | [] => Ok tt
  | m :: l' =>
      _ ← validate_sealed (p_sealed m);
      _ ← match my_role tb team (p_user m) with Ok _ => Ok tt | Err _ => Err (Bad "All members must belong to the team") end;
      check_members tb team l'
  end.

Definition create_check (user team : uuid) (req : CreateVaultRequest) (tb : Tables) : vapi (string * VaultMemberUpsert) :=
  _ ← from_authz (require (authz tb) team user "vaults.create");
  name ← validate_name (c_name req);
  me ← ok_or (snd <$> list_find (fun m => p_user m = user) (c_members req))
         (Bad "The creator must be included in members with a sealed key");
  _ ← guard (bool_decide (p_role me = Manager)) (Bad "The creator must be a manager");
  _ ← check_members tb team (c_members req);
  Ok (name, me).

(** The default vault of a team. *)
Definition defaults (team : uuid) (v : VaultRow) : Prop :=
  v_team v = Some team /\ v_kind v = "team" /\ v_default v = true /\ v_deleted v = false.
#[export] Instance defaults_dec team v : Decision (defaults team v).
Proof. unfold defaults. apply _. Defined.
Definition has_default (tb : Tables) (team : uuid) : bool :=
  existsb (fun p => bool_decide (defaults team (snd p))) (map_to_list (vaults tb)).

Definition new_member (user i : uuid) (t : Z) (m : VaultMemberUpsert) : (uuid * uuid) * VaultMemberRow :=
  ((i, p_user m), mkVaultMember (vault_role_str (p_role m)) (Some (p_sealed m)) 1 (Some user) t None).

(** The transaction; [i] is the random id. A member named twice is refused by
    the primary key. *)
Definition create_team_vault (i user team : uuid) (req : CreateVaultRequest) (tb : Tables) : Tables * vapi VaultView :=
  match create_check user team req tb with
  | Err e => (tb, Err e)
  | Ok (name, me) =>
      if decide (vaults tb !! i = None /\ NoDup (map p_user (c_members req))) then
        let d := negb (has_default tb team) in
        let v := mkVault "team" (Some team) None name (now tb) 1 false d false in
        (publish (map p_user (c_members req))
           (with_members (fun t => list_to_map (map (new_member user i (now tb)) (c_members req)) ∪ t)
              (with_vaults <[i := v]> tb)),
         Ok (mkView i Team (Some team) name (now tb) Manager (Some (p_sealed me)) 1 false d))
      else (tb, Err Internal)
  end.

Record UpdateVaultRequest := mkUpdate { u_name : option string; u_logging : option bool }.

Definition renamed (name : string) (v : VaultRow) : VaultRow :=
  mkVault (v_kind v) (v_team v) (v_owner v) name (v_created v) (v_key_version v) (v_logging v) (v_default v) (v_deleted v).
Definition logged (on : bool) (v : VaultRow) : VaultRow :=
  mkVault (v_kind v) (v_team v) (v_owner v) (v_name v) (v_created v) (v_key_version v) on (v_default v) (v_deleted v).

Definition recording_required (tb : Tables) (team : uuid) : bool :=
  bool_decide (snd <$> policies tb !! team = Some "required").

(** The second half of [update], after the rename; the flag says whether
    anything changed so far. *)
Definition update_logging (user i : uuid) (a : Access) (on : option bool) (changed : bool) (tb : Tables) : Tables * vapi VaultView :=
  let finish changed tb :=
    let tb := if changed : bool then publish (member_ids tb i) tb else tb in (tb, get user i tb) in
  match on with
  | None => finish changed tb
  | Some on =>
      match VaultAccess.team_id a with
      | None => (tb, Err (Forbids "Session logging is a team vault setting"))
      | Some team =>
          if negb on && recording_required tb team then (tb, Err (Forbids "Team policy makes session recording mandatory"))
          else
            let differs := match vaults tb !! i with Some v => negb (Bool.eqb (v_logging v) on) | None => false end in
            finish (changed || differs) (with_vaults (alter (logged on) i) tb)
      end
  end.

Definition update (user i : uuid) (req : UpdateVaultRequest) (tb : Tables) : Tables * vapi VaultView :=
  match manages tb i user with
  | Err e => (tb, Err e)
  | Ok a =>
      match u_name req with
      | None => update_logging user i a (u_logging req) false tb
      | Some name =>
          match validate_name name with
          | Err e => (tb, Err e)
          | Ok name => update_logging user i a (u_logging req) true (with_vaults (alter (renamed name) i) tb)
          end
      end
  end.

(** [DELETE FROM vaults] and what refers to it. *)
Definition drop_vault (i : uuid) (tb : Tables) : Tables :=
  with_requests (filter (fun p => q_vault (snd p) <> i))
    (with_bridges (filter (fun p => snd (fst p) <> i))
      (with_members (filter (fun p => fst (fst p) <> i)) (with_vaults (delete i) tb))).

Definition delete_check (user i : uuid) (tb : Tables) : vapi unit :=
  a ← manages tb i user;
  _ ← guard (negb (match kind a with Personal => true | Team => false end)) (Forbids "The personal vault cannot be deleted");
  v ← ok_or (vaults tb !! i) Internal;
  guard (negb (v_default v)) (Forbids "The team's default vault cannot be deleted; rename it instead").

Definition delete (user i : uuid) (tb : Tables) : Tables * vapi unit :=
  match delete_check user i tb with
  | Err e => (tb, Err e)
  | Ok _ => (publish (member_ids tb i) (drop_vault i tb), Ok tt)
  end.

(** ** Members *)

(** Managers of the vault other than [user], those who wait for a key too. *)
Definition other_managers (tb : Tables) (i user : uuid) (sealed : bool) : nat :=
  length (filter (fun p => fst (fst p) = i /\ k_role (snd p) = "manager" /\ snd (fst p) <> user /\
                    (sealed = true -> k_sealed (snd p) <> None)) (map_to_list (members tb))).

Definition upsert_check (user i target : uuid) (req : VaultMemberUpsert) (tb : Tables) : vapi Access :=
  a ← manages tb i user;
  _ ← guard (negb (match kind a with Personal => true | Team => false end)) (Forbids "The personal vault cannot be shared");
  _ ← guard (bool_decide (p_user req = target)) (Bad "user_id mismatch");
  _ ← validate_sealed (p_sealed req);
  team ← ok_or (VaultAccess.team_id a) Internal;
  _ ← match my_role tb team target with Ok _ => Ok tt | Err _ => Err (Bad "User is not a member of the team") end;
  _ ← guard (negb (bool_decide (target = user) && negb (bool_decide (p_role req = Manager)) &&
              (other_managers tb i target false =? 0)%nat)) (Conflicts "A vault needs at least one manager");
  Ok a.

(** [INSERT ... ON CONFLICT (vault_id, user_id) DO UPDATE]; the vault is gone
    when the foreign key refuses. *)
Definition upsert_write (user i target : uuid) (req : VaultMemberUpsert) (a : Access) (tb : Tables) : Tables * vapi unit :=
  match vaults tb !! i with
  | None => (tb, Err Internal)
  | Some _ =>
      let m :=
        match members tb !! (i, target) with
        | None => mkVaultMember (vault_role_str (p_role req)) (Some (p_sealed req)) (VaultAccess.key_version a) (Some user) (now tb) None
        | Some m => mkVaultMember (vault_role_str (p_role req)) (Some (p_sealed req)) (VaultAccess.key_version a) (k_by m) (k_added m) (k_expires m)
        end in
      (publish [target; user] (with_members <[(i, target) := m]> tb), Ok tt)
  end.

Definition upsert_member (user i target : uuid) (req : VaultMemberUpsert) (tb : Tables) : Tables * vapi unit :=
  match upsert_check user i target req tb with
  | Err e => (tb, Err e)
  | Ok a => upsert_write user i target req a tb
  end.

Definition other_admins (tb : Tables) (team user : uuid) : nat :=
  length (filter (fun m => m_team m = team /\ (m_role m = "owner" \/ m_role m = "admin") /\ m_user m <> user) (team_members (authz tb))).

Definition remove_check (user i target : uuid) (tb : Tables) : vapi Access :=
  a ← (if decide (target = user) then vault_access tb i user else manages tb i user);
  _ ← guard (negb (match kind a with Personal => true | Team => false end)) (Forbids "The personal vault has a fixed membership");
  _ ← guard (negb (other_managers tb i target true =? 0)%nat ||
             match VaultAccess.team_id a with Some t => (0 <? other_admins tb t target)%nat | None => false end)
        (Conflicts "A vault needs at least one manager");
  Ok a.

Definition remove_member (user i target : uuid) (tb : Tables) : Tables * vapi unit :=
  match remove_check user i target tb with
  | Err e => (tb, Err e)
  | Ok _ =>
      match members tb !! (i, target) with
      | None => (tb, Err (Missing "Member"))
      | Some _ => (publish [target; user] (with_members (base.delete (i, target)) tb), Ok tt)
      end
  end.

(** ** Keys *)

Definition reseal (sealed : string) (m : VaultMemberRow) : VaultMemberRow :=
  mkVaultMember (k_role m) (Some sealed) (k_version m) (k_by m) (k_added m) (k_expires m).

Definition reseal_my_key (user i : uuid) (version : Z) (sealed : string) (tb : Tables) : Tables * vapi unit :=
  match
    _ ← validate_sealed sealed;
    a ← vault_access tb i user;
    _ ← guard (negb (pending a)) (Forbids "You do not hold a key for this vault");
    guard (VaultAccess.key_version a =? version) (Conflicts "Vault key was rotated")
  with
  | Err e => (tb, Err e)
  | Ok _ =>
      match members tb !! (i, user) with
      | Some m =>
          if (k_version m =? version) && bool_decide (k_sealed m <> None) then
            (with_members <[(i, user) := reseal sealed m]> tb, Ok tt)
          else (tb, Err (Conflicts "Vault key was rotated"))
      | None => (tb, Err (Conflicts "Vault key was rotated"))
      end
  end.

Record SealedKeyFor := mkSealedFor { f_user : uuid; f_sealed : string }.
Record RotateVaultKeyRequest := mkRotate { r_base : Z; r_members : Datatypes.list SealedKeyFor }.

Fixpoint check_rotation (current : Datatypes.list uuid) (l : Datatypes.list SealedKeyFor) : vapi unit :=
  match l with
  | [] => Ok tt
  | m :: l' =>
      _ ← validate_sealed (f_sealed m);
      _ ← guard (bool_decide (f_user m ∈ current)) (Bad "Unknown member in rotation set");
      check_rotation current l'
  end.

Definition rotate_check (user i : uuid) (req : RotateVaultKeyRequest) (tb : Tables) : vapi Access :=
  a ← manages tb i user;
  _ ← guard (VaultAccess.key_version a =? r_base req) (Conflicts "Vault key was rotated by someone else");
  let current := member_ids tb i in
  _ ← check_rotation current (r_members req);
  _ ← guard (negb (negb (bool_decide (user ∈ map f_user (r_members req))) &&
              match kind a with Team => true | Personal => false end && bool_decide (user ∈ current)))
        (Bad "Include your own sealed key");
  Ok a.

Definition bumped (version : Z) (v : VaultRow) : VaultRow :=
  mkVault (v_kind v) (v_team v) (v_owner v) (v_name v) (v_created v) version (v_logging v) (v_default v) (v_deleted v).
Definition dropped (version : Z) (m : VaultMemberRow) : VaultMemberRow :=
  mkVaultMember (k_role m) None version (k_by m) (k_added m) (k_expires m).
Definition sealed_for (version : Z) (sealed : string) (m : VaultMemberRow) : VaultMemberRow :=
  mkVaultMember (k_role m) (Some sealed) version (k_by m) (k_added m) (k_expires m).

(** The keys of all members fall, then those sent are put in place. *)
Definition reset_members (i : uuid) (version : Z) (t : gmap (uuid * uuid) VaultMemberRow) : gmap (uuid * uuid) VaultMemberRow :=
  map_imap (fun p m => Some (if decide (fst p = i) then dropped version m else m)) t.
Definition reset_bridges (i : uuid) (version : Z) (t : gmap (uuid * uuid) BridgeRow) : gmap (uuid * uuid) BridgeRow :=
  map_imap (fun p b => Some (if decide (snd p = i) then mkBridge None version else b)) t.
Definition seal_members (i : uuid) (version : Z) (l : Datatypes.list SealedKeyFor) (t : gmap (uuid * uuid) VaultMemberRow) :
    gmap (uuid * uuid) VaultMemberRow :=
  fold_left (fun t m => alter (sealed_for version (f_sealed m)) (i, f_user m) t) l t.

(** The transaction. *)
Definition rotate_write (i : uuid) (req : RotateVaultKeyRequest) (a : Access) (tb : Tables) : vapi Tables :=
  v ← ok_or (vaults tb !! i) (Conflicts "Vault key was rotated by someone else");
  _ ← guard (v_key_version v =? r_base req) (Conflicts "Vault key was rotated by someone else");
  let n := VaultAccess.key_version a + 1 in
  Ok (with_members (seal_members i n (r_members req))
        (with_bridges (reset_bridges i n)
          (with_members (reset_members i n) (with_vaults <[i := bumped n v]> tb)))).

Definition rotate_key (user i : uuid) (req : RotateVaultKeyRequest) (tb : Tables) : Tables * vapi Z :=
  match rotate_check user i req tb with
  | Err e => (tb, Err e)
  | Ok a =>
      match rotate_write i req a tb with
      | Err e => (tb, Err e)
      | Ok tb' => (publish (member_ids tb i) tb', Ok (VaultAccess.key_version a + 1))
      end
  end.
End Vaults.

(** ** Written by other routes *)

(** [users::create_personal_vault]; a second one of the owner is refused by
    the index. *)
Definition owns_personal (tb : Tables) (user : uuid) : bool :=
  existsb (fun p => bool_decide (v_kind (snd p) = "personal" /\ v_owner (snd p) = Some user)) (map_to_list (vaults tb)).
Definition create_personal_vault (i user : uuid) (sealed : string) (tb : Tables) : vapi Tables :=
  if decide (vaults tb !! i = None /\ owns_personal tb user = false) then
    let v := mkVault "personal" None (Some user) "Personal" (now tb) 1 false false false in
    let m := mkVaultMember "manager" (Some sealed) 1 (Some user) (now tb) None in
    Ok (with_members <[(i, user) := m]> (with_vaults <[i := v]> tb))
  else Err Internal.

(** The statements of [start_over] on these tables: the personal vault falls,
    every other key of the account does, and a new personal vault comes. *)
Definition unsealed (user : uuid) (p : uuid * uuid) (m : VaultMemberRow) : VaultMemberRow :=
  if decide (snd p = user) then mkVaultMember (k_role m) None (k_version m) (k_by m) (k_added m) (k_expires m) else m.
Definition owned (user : uuid) (p : uuid * VaultRow) : Prop := v_owner (snd p) = Some user /\ v_kind (snd p) = "personal".
#[export] Instance owned_dec user p : Decision (owned user p).
Proof. unfold owned. apply _. Defined.
Definition start_over (i user : uuid) (sealed : string) (tb : Tables) : vapi Tables :=
  let tb := foldl (fun tb p => drop_vault (fst p) tb) tb (filter (owned user) (map_to_list (vaults tb))) in
  create_personal_vault i user sealed (with_members (map_imap (fun p m => Some (unsealed user p m))) tb).

Definition with_authz (db : Db) (tb : Tables) : Tables :=
  mkTables (now tb) db (policies tb) (totp tb) (passkeys tb) (users tb) (vaults tb) (members tb) (bridges tb) (requests tb)
    (published tb).

(** [teams::remove] on these tables. *)
Definition in_team_vault (tb : Tables) (team user : uuid) (p : (uuid * uuid) * VaultMemberRow) : Prop :=
  snd (fst p) = user /\ (v ← vaults tb !! fst (fst p); v_team v) = Some team.
#[export] Instance in_team_vault_dec tb team user p : Decision (in_team_vault tb team user p).
Proof. unfold in_team_vault. apply _. Defined.
Definition remove (team user : uuid) (tb : Tables) : Tables :=
  let db := authz tb in
  with_authz (mkDb (team_roles db) (filter (fun m => ~ is_row team user m) (team_members db)) (default_roles db) (role_mappings db))
    (with_members (filter (fun p => ~ in_team_vault tb team user p)) tb).

(** The vaults of an invitation, in [teams::apply_invite]. *)
Definition invite_to (team user i : uuid) (tb : Tables) : Tables :=
  match vaults tb !! i, members tb !! (i, user) with
  | Some v, None =>
      if decide (v_team v = Some team /\ v_deleted v = false) then
        with_members <[(i, user) := mkVaultMember "viewer" None (v_key_version v) None (now tb) None]> tb
      else tb
  | _, _ => tb
  end.
Definition apply_invite (team user : uuid) (ids : Datatypes.list uuid) (tb : Tables) : Tables :=
  foldl (fun tb i => invite_to team user i tb) tb ids.
