(* ===== verification/TempAccess.v ===== *)
(** * Temporary access to team vaults

    [crates/termoso-server/src/routes/access.rs] on the tables of [Vaults]: a
    member asks, a holder of [access.approve] grants a membership that ends by
    itself. Where a handler checks and then writes in statements of their own,
    each half is a function. One clock serves for the process and the
    database. Left out: mails and audit entries. *)
From Stdlib Require Import Ascii.
From S2P Require Import Prelude Text VaultAccess Authz Vaults.

#[local] Open Scope string_scope.
#[local] Open Scope list_scope.
#[local] Open Scope Z_scope.

Definition ROLES : Datatypes.list string := ["viewer"; "editor"].
Definition MAX_HOURS : Z := 720.
Definition PERM : string := "access.approve".

(** A row with the columns of [vaults] and [users] it is joined with. *)
Record RequestView := mkRequestView { o_id : uuid; o_row : AccessRequest; o_vault : string; o_email : string }.

Definition to_req (tb : Tables) (p : uuid * AccessRequest) : option RequestView :=
  let '(i, r) := p in
  v ← vaults tb !! q_vault r;
  u ← users tb !! q_user r;
  Some (mkRequestView i r (v_name v) (u_email u)).

Definition load (team i : uuid) (tb : Tables) : vapi RequestView :=
  ok_or (r ← requests tb !! i; if decide (q_team r = team) then to_req tb (i, r) else None) (Missing "Access request").

Definition clean (note : option string) (max : nat) : vapi (option string) :=
  match note with
  | None => Ok None
  | Some n =>
      let n := trim n in
      if (max <? length (chars (as_bytes n)))%nat then Err (TooLarge "Text is limited")
      else Ok (if decide (n = "") then None else Some n)
  end.

(** [membership(...).map_err(...)]. *)
Definition belongs (tb : Tables) (team user : uuid) : vapi Membership :=
  match membership (authz tb) team user with Ok m => Ok m | Err _ => Err (Missing "Team") end.
Definition approves (tb : Tables) (team user : uuid) : vapi Membership := from_authz (require (authz tb) team user PERM).
Definition valid_hours (hours : Z) : vapi unit := guard ((1 <=? hours) && (hours <=? MAX_HOURS)) (Bad "hours must be 1..=720").
Definition valid_role (role : string) : vapi unit := guard (bool_decide (role ∈ ROLES)) (Bad "role must be viewer or editor").

(** ** Asking *)

Record CreateAccessRequest := mkAsk { n_vault : uuid; n_role : string; n_hours : Z; n_reason : string }.

Definition team_vault (tb : Tables) (team i : uuid) : bool :=
  match vaults tb !! i with
  | Some v => bool_decide (v_team v = Some team) && bool_decide (v_kind v = "team") && negb (v_deleted v)
  | None => false
  end.

Definition create_check (user team : uuid) (req : CreateAccessRequest) (tb : Tables) : vapi string :=
  _ ← belongs tb team user;
  _ ← valid_role (n_role req);
  _ ← valid_hours (n_hours req);
  reason ← clean (Some (n_reason req)) 500;
  _ ← guard (team_vault tb team (n_vault req)) (Missing "Team vault");
  _ ← guard (bool_decide (members tb !! (n_vault req, user) = None)) (Conflicts "You already have access to this vault");
  Ok (default "" reason).

(** The partial unique index of open requests. *)
Definition is_open (vault user : uuid) (r : AccessRequest) : Prop := q_vault r = vault /\ q_user r = user /\ q_status r = "pending".
#[export] Instance is_open_dec vault user r : Decision (is_open vault user r).
Proof. unfold is_open. apply _. Defined.
Definition has_open (tb : Tables) (vault user : uuid) : bool :=
  existsb (fun p => bool_decide (is_open vault user (snd p))) (map_to_list (requests tb)).

(** [INSERT ... ON CONFLICT DO NOTHING]; [i] is the random id. A vault or
    user gone since is refused by the foreign keys. *)
Definition create_write (i user team : uuid) (req : CreateAccessRequest) (reason : string) (tb : Tables) : Tables * vapi RequestView :=
  match vaults tb !! n_vault req, users tb !! user with
  | Some _, Some _ =>
      if has_open tb (n_vault req) user || bool_decide (is_Some (requests tb !! i)) then
        (tb, Err (Conflicts "You already have a pending request for this vault"))
      else
        let r := mkRequest team (n_vault req) user (n_role req) (n_hours req) reason "pending" None None None None (now tb) in
        let tb := with_requests <[i := r]> tb in
        (tb, load team i tb)
  | _, _ => (tb, Err Internal)
  end.

Definition create (i user team : uuid) (req : CreateAccessRequest) (tb : Tables) : Tables * vapi RequestView :=
  match create_check user team req tb with
  | Err e => (tb, Err e)
  | Ok reason => create_write i user team req reason tb
  end.

(** ** Deciding *)

Record DecideAccessRequest := mkDecide { d_hours : option Z; d_role : option string; d_note : option string }.

(** What [approve] carries from its checks to its transaction. *)
Record Grant := mkGrant { g_row : AccessRequest; g_role : string; g_hours : Z; g_note : option string; g_until : Z }.

Definition approve_check (user team i : uuid) (req : DecideAccessRequest) (tb : Tables) : vapi Grant :=
  _ ← approves tb team user;
  o ← load team i tb;
  let cur := o_row o in
  _ ← guard (bool_decide (q_status cur = "pending")) (Conflicts "Request already decided");
  _ ← guard (negb (bool_decide (q_user cur = user))) (Forbids "You cannot approve your own request");
  let hours := default (q_hours cur) (d_hours req) in
  _ ← valid_hours hours;
  let role := default (q_role cur) (d_role req) in
  _ ← valid_role role;
  note ← clean (d_note req) 500;
  Ok (mkGrant cur role hours note (now tb + hours * 3600)).

Definition granted (user : uuid) (g : Grant) (t : Z) (r : AccessRequest) : AccessRequest :=
  mkRequest (q_team r) (q_vault r) (q_user r) (g_role g) (g_hours g) (q_reason r) "approved" (Some user) (Some t) (g_note g)
    (Some (g_until g)) (q_created r).

(** The transaction: the member's row and the request's. A requester who is
    gone is refused by the foreign key. *)
Definition approve_write (user team i : uuid) (g : Grant) (tb : Tables) : Tables * vapi RequestView :=
  let key := (q_vault (g_row g), q_user (g_row g)) in
  match vaults tb !! q_vault (g_row g), members tb !! key with
  | Some v, None =>
      let m := mkVaultMember (g_role g) None (v_key_version v) (Some user) (now tb) (Some (g_until g)) in
      let tb' := with_requests (alter (granted user g (now tb)) i) (with_members <[key := m]> tb) in
      match users tb !! q_user (g_row g) with
      | None => (tb, Err Internal)
      | Some _ =>
          match load team i tb' with
          | Ok o => (publish [q_user (g_row g); user] tb', Ok o)
          | Err e => (tb', Err e)
          end
      end
  | _, _ => (tb, Err (Conflicts "The member already has access to this vault"))
  end.

Definition approve (user team i : uuid) (req : DecideAccessRequest) (tb : Tables) : Tables * vapi RequestView :=
  match approve_check user team i req tb with
  | Err e => (tb, Err e)
  | Ok g => approve_write user team i g tb
  end.

Definition deny_check (user team i : uuid) (req : DecideAccessRequest) (tb : Tables) : vapi (option string) :=
  _ ← approves tb team user;
  o ← load team i tb;
  _ ← guard (bool_decide (q_status (o_row o) = "pending")) (Conflicts "Request already decided");
  clean (d_note req) 500.

Definition denied (user : uuid) (note : option string) (t : Z) (r : AccessRequest) : AccessRequest :=
  mkRequest (q_team r) (q_vault r) (q_user r) (q_role r) (q_hours r) (q_reason r) "denied" (Some user) (Some t) note
    (q_expires r) (q_created r).

Definition deny_write (user team i : uuid) (note : option string) (tb : Tables) : Tables * vapi RequestView :=
  let tb := with_requests (alter (denied user note (now tb)) i) tb in (tb, load team i tb).

Definition deny (user team i : uuid) (req : DecideAccessRequest) (tb : Tables) : Tables * vapi RequestView :=
  match deny_check user team i req tb with
  | Err e => (tb, Err e)
  | Ok note => deny_write user team i note tb
  end.

Definition revoke_check (user team i : uuid) (tb : Tables) : vapi AccessRequest :=
  _ ← approves tb team user;
  o ← load team i tb;
  _ ← guard (bool_decide (q_status (o_row o) = "approved")) (Conflicts "Only approved requests can be revoked");
  Ok (o_row o).

Definition revoked (user : uuid) (t : Z) (r : AccessRequest) : AccessRequest :=
  mkRequest (q_team r) (q_vault r) (q_user r) (q_role r) (q_hours r) (q_reason r) "revoked" (Some user) (Some t) (q_note r)
    (q_expires r) (q_created r).

(** Only a row with an end is deleted. *)
Definition drop_temporary (key : uuid * uuid) (t : gmap (uuid * uuid) VaultMemberRow) : gmap (uuid * uuid) VaultMemberRow :=
  match t !! key with
  | Some m => match k_expires m with Some _ => base.delete key t | None => t end
  | None => t
  end.

Definition revoke_write (user team i : uuid) (cur : AccessRequest) (tb : Tables) : Tables * vapi RequestView :=
  let tb := with_requests (alter (revoked user (now tb)) i) (with_members (drop_temporary (q_vault cur, q_user cur)) tb) in
  let tb := publish [q_user cur; user] tb in
  (tb, load team i tb).

Definition revoke (user team i : uuid) (tb : Tables) : Tables * vapi RequestView :=
  match revoke_check user team i tb with
  | Err e => (tb, Err e)
  | Ok cur => revoke_write user team i cur tb
  end.

Definition with_status (status : string) (r : AccessRequest) : AccessRequest :=
  mkRequest (q_team r) (q_vault r) (q_user r) (q_role r) (q_hours r) (q_reason r) status (q_by r) (q_decided r) (q_note r)
    (q_expires r) (q_created r).

Definition cancel_check (user team i : uuid) (tb : Tables) : vapi unit :=
  o ← load team i tb;
  _ ← guard (bool_decide (q_user (o_row o) = user)) (Forbids "Only the requester can withdraw a request");
  guard (bool_decide (q_status (o_row o) = "pending")) (Conflicts "Request already decided").

Definition cancel_write (i : uuid) (tb : Tables) : Tables := with_requests (alter (with_status "cancelled") i) tb.

Definition cancel (user team i : uuid) (tb : Tables) : Tables * vapi unit :=
  match cancel_check user team i tb with
  | Err e => (tb, Err e)
  | Ok _ => (cancel_write i tb, Ok tt)
  end.

(** ** Expiry *)

Definition over (t : Z) (m : VaultMemberRow) : Prop := match k_expires m with Some e => e < t | None => False end.
#[export] Instance over_dec t m : Decision (over t m).
Proof. unfold over. destruct (k_expires m); apply _. Defined.

Definition expire (t : Z) (r : AccessRequest) : AccessRequest :=
  match q_expires r with
  | Some e => if decide (q_status r = "approved" /\ e < t) then with_status "expired" r else r
  | None => r
  end.

(** The delete joins with the vaults; the answer is the number of rows. *)
Definition falls (tb : Tables) (p : (uuid * uuid) * VaultMemberRow) : Prop :=
  is_Some (vaults tb !! fst (fst p)) /\ over (now tb) (snd p).
#[export] Instance falls_dec tb p : Decision (falls tb p).
Proof. unfold falls. apply _. Defined.

Definition expiry_pass (tb : Tables) : Tables * nat :=
  let rows := filter (falls tb) (map_to_list (members tb)) in
  let tb := with_requests (fmap (expire (now tb))) (with_members (filter (fun p => ~ falls tb p)) tb) in
  (match rows with [] => tb | _ => publish (map (fun p => snd (fst p)) rows) tb end, length rows).

(** ** The list *)

Definition by_pending (a b : RequestView) : Prop :=
  let p := fun o => bool_decide (q_status (o_row o) = "pending") in
  if Bool.eqb (p a) (p b) then q_created (o_row b) <= q_created (o_row a) else p a = true.
#[export] Instance by_pending_dec a b : Decision (by_pending a b).
Proof. unfold by_pending. destruct (Bool.eqb _ _); apply _. Defined.

Definition list (user team : uuid) (tb : Tables) : Tables * vapi (bool * Datatypes.list RequestView) :=
  match belongs tb team user with
  | Err e => (tb, Err e)
  | Ok _ =>
      let all := match approves tb team user with Ok _ => true | Err _ => false end in
      let tb := fst (expiry_pass tb) in
      let rows := filter (fun p => q_team (snd p) = team /\ (all = true \/ q_user (snd p) = user)) (map_to_list (requests tb)) in
      (tb, Ok (all, take 500 (merge_sort by_pending (omap (to_req tb) rows))))
  end.
