(* ===== verification/VaultSteps.v ===== *)
(** * The tables of the vaults stay sound

    The invariant of [Vaults] and [TempAccess], and that every request, every
    write of the other routes and the expiry pass keep it. Two principles
    carry it: [sound_change] for what leaves the requests alone and
    [sound_decides] for what works on them. *)
From Stdlib Require Import Ascii.
From S2P Require Import Prelude Text VaultAccess Authz Vaults TempAccess.

#[local] Open Scope string_scope.
#[local] Open Scope list_scope.
#[local] Open Scope Z_scope.

(** ** The invariant *)

Definition personal (v : VaultRow) : Prop := v_kind v = "personal" /\ v_team v = None /\ exists u, v_owner v = Some u.
Definition of_team (v : VaultRow) : Prop := v_kind v = "team" /\ v_owner v = None /\ exists t, v_team v = Some t.

(** An approved request behind a membership of [user] in [vault] that ends at
    [until]: someone else decided, and not more than 720 hours before. *)
Definition granted_by (tb : Tables) (vault user : uuid) (until : Z) (r : AccessRequest) : Prop :=
  q_vault r = vault /\ q_user r = user /\ q_status r = "approved" /\ q_expires r = Some until
  /\ (exists by_, q_by r = Some by_ /\ by_ <> user)
  /\ (exists t, q_decided r = Some t /\ t <= now tb /\ until <= t + MAX_HOURS * 3600).

Record sound (tb : Tables) : Prop := mkSound {
  kinds : forall i v, vaults tb !! i = Some v -> (personal v \/ of_team v) /\ v_deleted v = false;
  one_default : forall t i j v w, vaults tb !! i = Some v -> vaults tb !! j = Some w -> defaults t v -> defaults t w -> i = j;
  some_default : forall t i v, vaults tb !! i = Some v -> v_team v = Some t -> exists j w, vaults tb !! j = Some w /\ defaults t w;
  keyed : forall i u m, members tb !! (i, u) = Some m -> exists v, vaults tb !! i = Some v /\ k_version m = v_key_version v;
  alone : forall i u m v, members tb !! (i, u) = Some m -> vaults tb !! i = Some v -> personal v ->
    v_owner v = Some u /\ k_role m = "manager" /\ k_expires m = None;
  temporary : forall i u m e, members tb !! (i, u) = Some m -> k_expires m = Some e ->
    exists a r, requests tb !! a = Some r /\ granted_by tb i u e r;
  asked : forall a r, requests tb !! a = Some r -> exists v, vaults tb !! q_vault r = Some v /\ v_kind v = "team" /\ v_team v = Some (q_team r);
  one_open : forall a b r s, requests tb !! a = Some r -> requests tb !! b = Some s ->
    q_vault r = q_vault s -> q_user r = q_user s -> q_status r = "pending" -> q_status s = "pending" -> a = b
}.

Lemma sound_empty t db p tt pk us b pu : sound (mkTables t db p tt pk us ∅ ∅ b ∅ pu).
Proof. split; cbn; intros *; rewrite ?lookup_empty; try done. Qed.

Lemma personal_not_team v : personal v -> of_team v -> False.
Proof. intros (E & _) (E' & _). congruence. Qed.

Lemma team_kind v : (personal v \/ of_team v) -> is_Some (v_team v) <-> v_kind v = "team".
Proof.
  intros [(E & H & _)|(E & _ & t & H)]; rewrite E, H; split; try done; by intros [].
Qed.

(** What a statement on a vault's row never touches. *)
Definition same_vault (v w : VaultRow) : Prop :=
  v_kind w = v_kind v /\ v_team w = v_team v /\ v_owner w = v_owner v /\ v_default w = v_default v /\ v_deleted w = v_deleted v.

Lemma same_vault_refl v : same_vault v v.
Proof. by unfold same_vault. Qed.
Lemma same_personal v w : same_vault v w -> personal w -> personal v.
Proof. unfold personal. intros (-> & -> & -> & _). done. Qed.
Lemma same_team v w : same_vault v w -> of_team v -> of_team w.
Proof. unfold of_team. intros (-> & -> & -> & _). done. Qed.
Lemma same_defaults t v w : same_vault v w -> defaults t w <-> defaults t v.
Proof. unfold defaults. intros (-> & -> & _ & -> & ->). done. Qed.
#[export] Hint Resolve same_vault_refl : core.

(** Where a membership comes from: the row of before, or a new one without an
    end in a team's vault. *)
Definition from_old (tb : Tables) (v' : VaultRow) (i u : uuid) (m' : VaultMemberRow) : Prop :=
  (exists m, members tb !! (i, u) = Some m /\ k_expires m' = k_expires m /\ (k_role m' = k_role m \/ of_team v'))
  \/ (k_expires m' = None /\ of_team v').

Lemma from_same tb v i u m : members tb !! (i, u) = Some m -> from_old tb v i u m.
Proof. intros H. left. exists m. auto. Qed.

(** The first principle. Vaults keep what they are, a default one may fall
    only with its team; requests fall only with their vault. *)
Lemma sound_change tb tb' : sound tb -> now tb <= now tb' ->
  (forall i v', vaults tb' !! i = Some v' -> exists v, vaults tb !! i = Some v /\ same_vault v v') ->
  (forall i v, vaults tb !! i = Some v -> is_Some (vaults tb' !! i) \/ (personal v \/ v_default v = false)) ->
  (forall i u m', members tb' !! (i, u) = Some m' ->
     exists v', vaults tb' !! i = Some v' /\ k_version m' = v_key_version v' /\ from_old tb v' i u m') ->
  (forall a r, requests tb' !! a = Some r -> requests tb !! a = Some r /\ is_Some (vaults tb' !! q_vault r)) ->
  (forall a r, requests tb !! a = Some r -> is_Some (vaults tb' !! q_vault r) -> requests tb' !! a = Some r) ->
  sound tb'.
Proof.
  intros S Ht HV HK HM HR HQ. split.
  - intros i w Hw. destruct (HV i w Hw) as (v & Hv & Sv). destruct (kinds tb S i v Hv) as [K D]. split.
    + destruct K as [K|K]; [left|right; by eapply same_team].
      destruct Sv as (E1 & E2 & E3 & _). unfold personal in *. by rewrite E1, E2, E3.
    + by destruct Sv as (_ & _ & _ & _ & ->).
  - intros t i j v' w' Hi Hj Dv Dw. destruct (HV _ _ Hi) as (v & Hv & Sv), (HV _ _ Hj) as (w & Hw & Sw).
    apply (one_default tb S t i j v w Hv Hw); [by apply (same_defaults t _ _ Sv)|by apply (same_defaults t _ _ Sw)].
  - intros t i v' Hi Et. destruct (HV _ _ Hi) as (v & Hv & Sv). pose proof Sv as (_ & E & _). rewrite E in Et.
    destruct (some_default tb S t i v Hv Et) as (j & w & Hw & D).
    destruct (HK j w Hw) as [[w' Hw']|Hf].
    + exists j, w'. split; [done|]. destruct (HV _ _ Hw') as (w0 & Hw0 & Sw).
      assert (w0 = w) as -> by congruence. by apply (same_defaults t _ _ Sw).
    + destruct D as (D1 & D2 & D3 & _). destruct Hf as [[Hf _]|Hf]; congruence.
  - intros i u m H. destruct (HM _ _ _ H) as (v & ? & ? & _). by exists v.
  - intros i u m' v' Hm Hv' P. destruct (HM _ _ _ Hm) as (w & Hw & _ & O). assert (w = v') as -> by congruence.
    destruct O as [(m & Hm0 & Ee & Er)|[_ O]]; [|by destruct (personal_not_team v')].
    destruct (HV _ _ Hv') as (v & Hv & Sv). destruct (alone tb S i u m v Hm0 Hv (same_personal _ _ Sv P)) as (A & B & C).
    destruct Er as [Er|O]; [|by destruct (personal_not_team v')]. destruct Sv as (_ & _ & Eo & _). by rewrite Ee, Er, Eo.
  - intros i u m' e Hm He. destruct (HM _ _ _ Hm) as (v' & Hv' & _ & [(m & Hm0 & Ee & _)|[Hn _]]); [|congruence].
    rewrite Ee in He. destruct (temporary tb S i u m e Hm0 He) as (a & r & Hr & G). exists a, r. split.
    + apply HQ; [done|]. destruct G as (-> & _). by exists v'.
    + destruct G as (? & ? & ? & ? & ? & t & ? & ? & ?). split_and!; try done. exists t. split_and!; try done. lia.
  - intros a r Hr. destruct (HR _ _ Hr) as [Hr0 [v' Hv']]. destruct (asked tb S a r Hr0) as (v & Hv & K & T).
    destruct (HV _ _ Hv') as (v0 & Hv0 & Sv). assert (v0 = v) as -> by congruence.
    destruct Sv as (E1 & E2 & _). exists v'. by rewrite E1, E2.
  - intros a b r s Ha Hb. destruct (HR _ _ Ha), (HR _ _ Hb). by apply (one_open tb S a b r s).
Qed.

(** Where only memberships change. *)
Lemma sound_members f tb : sound tb ->
  (forall i u m', f (members tb) !! (i, u) = Some m' ->
     members tb !! (i, u) = Some m' \/
     exists v, vaults tb !! i = Some v /\ k_version m' = v_key_version v /\ from_old tb v i u m') ->
  sound (with_members f tb).
Proof.
  intros S H. apply (sound_change tb); try done.
  - intros i v Hv. by exists v.
  - intros i v Hv. left. by exists v.
  - intros i u m' Hm. destruct (H i u m' Hm) as [Ho|?]; [|done].
    destruct (keyed tb S i u m' Ho) as (v & Hv & E). exists v. split_and!; [done..|by apply from_same].
  - intros a r Hr. split; [done|]. destruct (asked tb S a r Hr) as (v & Hv & _). by exists v.
Qed.

Lemma sound_same tb tb' : sound tb -> now tb <= now tb' -> vaults tb' = vaults tb -> members tb' = members tb ->
  requests tb' = requests tb -> sound tb'.
Proof.
  intros S Ht EV EM ER. apply (sound_change tb); try done; rewrite ?EV, ?EM, ?ER.
  - intros i v Hv. by exists v.
  - intros i v Hv. left. by exists v.
  - intros i u m Hm. destruct (keyed tb S i u m Hm) as (v & Hv & E). exists v. split_and!; [done..|by apply from_same].
  - intros a r Hr. split; [done|]. destruct (asked tb S a r Hr) as (v & Hv & _). by exists v.
  - done.
Qed.

Lemma sound_publish ids tb : sound tb -> sound (publish ids tb).
Proof. intros S. by apply (sound_same tb). Qed.
#[export] Hint Resolve sound_publish : core.

(** Where only vault rows change, in ways of no weight here. *)
Lemma sound_alter f i tb : sound tb -> (forall v, same_vault v (f v) /\ v_key_version (f v) = v_key_version v) ->
  sound (with_vaults (alter f i) tb).
Proof.
  intros S H.
  assert (forall j v', alter f i (vaults tb) !! j = Some v' -> exists v, vaults tb !! j = Some v /\ same_vault v v' /\ v_key_version v' = v_key_version v) as HV.
  { intros j v'. rewrite lookup_alter_Some. intros [(-> & v & Hv & ->)|[_ Hv]]; [|by exists v'].
    destruct (H v) as [? ?]. by exists v. }
  assert (forall j, is_Some (vaults tb !! j) -> is_Some (alter f i (vaults tb) !! j)) as HS.
  { intros j. by rewrite lookup_alter_is_Some. }
  apply (sound_change tb); try done; cbn.
  - intros j v' Hj. destruct (HV _ _ Hj) as (v & ? & ? & _). by exists v.
  - intros j v Hv. left. apply HS. by exists v.
  - intros j u m Hm. destruct (keyed tb S j u m Hm) as (v & Hv & E). destruct (HS j) as [v' Hv']; [by exists v|].
    exists v'. destruct (HV _ _ Hv') as (v0 & Hv0 & _ & E0). assert (v0 = v) as -> by congruence.
    split_and!; [done|congruence|by apply from_same].
  - intros a r Hr. split; [done|]. destruct (asked tb S a r Hr) as (v & Hv & _). apply HS. by exists v.
Qed.

(** The second principle, for what decides on requests: they keep their
    subject and are not opened again. *)
Definition same_request (r r' : AccessRequest) : Prop :=
  q_team r' = q_team r /\ q_vault r' = q_vault r /\ q_user r' = q_user r /\ (q_status r' = "pending" -> q_status r = "pending").

Lemma sound_decides tb tb' : sound tb -> now tb' = now tb -> vaults tb' = vaults tb ->
  (forall i u m, members tb' !! (i, u) = Some m -> members tb !! (i, u) = Some m \/
     exists v, vaults tb !! i = Some v /\ of_team v /\ k_version m = v_key_version v) ->
  (forall i u m e, members tb' !! (i, u) = Some m -> k_expires m = Some e ->
     exists a r, requests tb' !! a = Some r /\ granted_by tb' i u e r) ->
  (forall a r', requests tb' !! a = Some r' -> exists r, requests tb !! a = Some r /\ same_request r r') ->
  sound tb'.
Proof.
  intros S En EV HM HG HQ. split; rewrite ?EV; try apply S; try done.
  - intros i u m Hm. destruct (HM _ _ _ Hm) as [?|(v & ? & _ & ?)]; [by apply (keyed tb S i u)|by exists v].
  - intros i u m v Hm Hv P. destruct (HM _ _ _ Hm) as [?|(w & Hw & T & _)]; [by apply (alone tb S i u)|].
    assert (w = v) as -> by congruence. by destruct (personal_not_team v).
  - intros a r' Hr. destruct (HQ _ _ Hr) as (r & Hr0 & -> & -> & _). by apply (asked tb S a).
  - intros a b r' s' Ha Hb. destruct (HQ _ _ Ha) as (r & Hr & _ & -> & -> & Pr), (HQ _ _ Hb) as (s & Hs & _ & -> & -> & Ps).
    intros. by apply (one_open tb S a b r s); auto.
Qed.

Lemma granted_now tb tb' i u e r : now tb' = now tb -> granted_by tb i u e r -> granted_by tb' i u e r.
Proof. unfold granted_by. intros ->. done. Qed.

(** One pending request is decided otherwise than by approval: no membership
    rests on it. *)
Lemma sound_settles f i tb cur : sound tb -> requests tb !! i = Some cur -> q_status cur = "pending" ->
  same_request cur (f cur) -> sound (with_requests (alter f i) tb).
Proof.
  intros S Hc Pc Hf. apply (sound_decides tb); try done; cbn.
  - by left.
  - intros j u m e Hm He. destruct (temporary tb S j u m e Hm He) as (a & r & Hr & G). exists a, r.
    assert (a <> i) by (intros ->; destruct G as (_ & _ & ? & _); congruence).
    split; [by rewrite lookup_alter_ne|done].
  - intros a r'. rewrite lookup_alter_Some. intros [(-> & r & Hr & ->)|[_ Hr]]; [|by exists r'].
    exists r. split; [done|]. by assert (r = cur) as -> by congruence.
Qed.

(** ** Rights give the vault's row *)

Lemma vault_access_row tb i u a : vault_access tb i u = Ok a ->
  exists v, vaults tb !! i = Some v /\ v_deleted v = false /\ VaultAccess.key_version a = v_key_version v
    /\ VaultAccess.team_id a = v_team v /\ kind a = kind_of v.
Proof.
  unfold vault_access, access_row. destruct (vaults tb !! i) as [v|]; [|done]. destruct (v_deleted v) eqn:Ed; [done|].
  unfold access. cbn. intros H. exists v. split_and!; try done;
    repeat case_match; simplify_eq/=; unfold kind_of; try done;
    unfold from_access in *; repeat case_match; simplify_eq/=; done.
Qed.

Lemma manages_access tb i u a : manages tb i u = Ok a -> vault_access tb i u = Ok a /\ VaultAccess.role a = Manager.
Proof.
  unfold manages, require_manage, vault_access, from_access. destruct (access i (access_row tb i u)) as [b|e]; cbn; [|done].
  destruct (VaultAccess.role b) eqn:E; cbn; [done..|]. by intros [= ->].
Qed.

Lemma manages_row tb i u a : manages tb i u = Ok a ->
  exists v, vaults tb !! i = Some v /\ v_deleted v = false /\ VaultAccess.key_version a = v_key_version v
    /\ VaultAccess.team_id a = v_team v /\ kind a = kind_of v.
Proof. intros [H _]%manages_access. by apply vault_access_row in H. Qed.

Lemma team_of_access tb i a v : sound tb -> vaults tb !! i = Some v -> kind a = kind_of v -> kind a <> Personal -> of_team v.
Proof.
  intros S Hv E K. destruct (kinds tb S i v Hv) as [[[P _]|T] _]; [|done]. unfold kind_of in E.
  rewrite decide_False in E by (rewrite P; done). congruence.
Qed.

Lemma drop_vault_lookups i tb :
  (forall j, vaults (drop_vault i tb) !! j = if decide (j = i) then None else vaults tb !! j)
  /\ (forall j u, members (drop_vault i tb) !! (j, u) = if decide (j = i) then None else members tb !! (j, u))
  /\ (forall a r, requests (drop_vault i tb) !! a = Some r <-> requests tb !! a = Some r /\ q_vault r <> i).
Proof.
  split_and!; cbn.
  - intros j. case_decide as E; [subst; apply lookup_delete_eq|by apply lookup_delete_ne].
  - intros j u. case_decide as E.
    + subst. apply map_lookup_filter_None. right. intros m _. cbn. tauto.
    + destruct (members tb !! (j, u)) as [m|] eqn:Em.
      * by apply map_lookup_filter_Some.
      * apply map_lookup_filter_None. by left.
  - intros a r. by rewrite map_lookup_filter_Some.
Qed.

Lemma sound_drop i tb : sound tb -> (forall v, vaults tb !! i = Some v -> personal v \/ v_default v = false) -> sound (drop_vault i tb).
Proof.
  intros S H. destruct (drop_vault_lookups i tb) as (EV & EM & ER). apply (sound_change tb); try done.
  - intros j v. rewrite EV. case_decide; [done|]. intros. by exists v.
  - intros j v Hv. rewrite EV. case_decide; [subst; right; by apply H|]. left. by exists v.
  - intros j u m. rewrite EM, EV. case_decide; [done|]. intros Hm. destruct (keyed tb S j u m Hm) as (v & Hv & E).
    exists v. split_and!; [done..|by apply from_same].
  - intros a r. rewrite ER, EV. intros [Hr Hn]. rewrite decide_False by done. split; [done|].
    destruct (asked tb S a r Hr) as (v & Hv & _). by exists v.
  - intros a r Hr. rewrite EV, ER. case_decide; [by intros []|done].
Qed.

(** ** The requests of [Vaults] *)

Section Requests.
Context (unb64 : string -> option bytes).

Lemma new_members_lookup user i t l j u m : NoDup (map p_user l) ->
  (list_to_map (map (new_member user i t) l) : gmap (uuid * uuid) VaultMemberRow) !! (j, u) = Some m ->
  j = i /\ exists p, p ∈ l /\ p_user p = u /\ m = snd (new_member user i t p).
Proof.
  intros _ H. apply elem_of_list_to_map_2 in H. apply list_elem_of_fmap in H as (p & [= -> -> ->] & Hp).
  split; [done|]. by exists p.
Qed.

Lemma has_default_spec tb t : has_default tb t = true <-> exists i v, vaults tb !! i = Some v /\ defaults t v.
Proof.
  unfold has_default. rewrite existsb_exists. split.
  - intros ([i v] & Hin & D%bool_decide_eq_true). exists i, v. split; [|done].
    by apply elem_of_map_to_list, list_elem_of_In.
  - intros (i & v & Hv & D). exists (i, v). split; [|by apply bool_decide_eq_true].
    by apply list_elem_of_In, elem_of_map_to_list.
Qed.

(** A new vault next to the others, with members that have no end. *)
Lemma sound_new i v ms tb : sound tb -> vaults tb !! i = None -> (personal v \/ of_team v) -> v_deleted v = false ->
  (forall t, v_team v = Some t -> v_default v = negb (has_default tb t)) ->
  (forall j u m, ms !! (j, u) = Some m -> j = i /\ k_version m = v_key_version v /\ k_expires m = None
     /\ (personal v -> v_owner v = Some u /\ k_role m = "manager")) ->
  sound (with_members (fun t => ms ∪ t) (with_vaults <[i := v]> tb)).
Proof.
  intros S Hi K D Hd Hms.
  assert (forall j w, vaults tb !! j = Some w -> <[i := v]> (vaults tb) !! j = Some w) as Hold.
  { intros j w Hw. rewrite lookup_insert_ne; [done|]. intros <-. congruence. }
  assert (forall j u m, (ms ∪ members tb) !! (j, u) = Some m -> ms !! (j, u) = Some m \/ members tb !! (j, u) = Some m) as HM.
  { intros j u m. rewrite lookup_union_Some_raw. intros [|[]]; auto. }
  assert (forall t j w, <[i := v]> (vaults tb) !! j = Some w -> defaults t w -> j = i /\ w = v /\ has_default tb t = false \/
    vaults tb !! j = Some w) as HD.
  { intros t j w. rewrite lookup_insert_Some. intros [[<- <-]|[_ Hw]]; [|by right]. intros (T & _ & Df & _). left.
    split_and!; [done..|]. rewrite (Hd _ T) in Df. by apply negb_true_iff in Df. }
  split; cbn.
  - intros j w. rewrite lookup_insert_Some. intros [[<- <-]|[_ Hw]]; [done|by apply (kinds tb S j)].
  - intros t j k w x Hj Hk Dw Dx. destruct (HD t j w Hj Dw) as [(-> & -> & N)|Hw], (HD t k x Hk Dx) as [(-> & -> & N')|Hx].
    + done.
    + assert (has_default tb t = true) by (apply has_default_spec; eauto). congruence.
    + assert (has_default tb t = true) by (apply has_default_spec; eauto). congruence.
    + by apply (one_default tb S t j k w x).
  - intros t j w Hj Et.
    assert ((exists j w, vaults tb !! j = Some w /\ defaults t w) -> exists j w, <[i:=v]> (vaults tb) !! j = Some w /\ defaults t w) as Hlift.
    { intros (k & x & Hx & Dx). exists k, x. split; [by apply Hold|done]. }
    apply lookup_insert_Some in Hj as [[<- <-]|[_ Hw]]; [|by apply Hlift, (some_default tb S t j w)].
    destruct (has_default tb t) eqn:Eh; [by apply Hlift, has_default_spec|]. exists i, v. split; [apply lookup_insert_eq|].
    specialize (Hd t Et). rewrite Eh in Hd. destruct K as [(_ & N & _)|(K & _)]; [congruence|done].
  - intros j u m [H|H]%HM.
    + destruct (Hms _ _ _ H) as (-> & E & _). exists v. by rewrite lookup_insert_eq.
    + destruct (keyed tb S j u m H) as (w & Hw & E). exists w. split; [by apply Hold|done].
  - intros j u m w [H|H]%HM.
    + destruct (Hms _ _ _ H) as (-> & E & Ex & P). rewrite lookup_insert_eq. intros [= <-] Pv. by destruct (P Pv).
    + destruct (keyed tb S j u m H) as (x & Hx & _). rewrite (Hold _ _ Hx). intros [= <-]. by apply (alone tb S j u).
  - intros j u m e [H|H]%HM He.
    + destruct (Hms _ _ _ H) as (_ & _ & Ex & _). congruence.
    + by apply (temporary tb S j u m e).
  - intros a r Hr. destruct (asked tb S a r Hr) as (w & Hw & ?). exists w. split; [by apply Hold|done].
  - by apply (one_open tb S).
Qed.

Lemma create_team_vault_sound i user team req tb : sound tb -> sound (fst (create_team_vault unb64 i user team req tb)).
Proof.
  intros S. unfold create_team_vault. destruct (Vaults.create_check _ _ _ _ _) as [[name me]|e]; [|done].
  case_decide as E; [|done]. destruct E as [Hi Hn]. cbn. apply sound_publish, sound_new; try done.
  - right. unfold of_team. eauto.
  - by intros t [= <-].
  - intros j u m H. destruct (new_members_lookup _ _ _ _ _ _ _ Hn H) as (-> & p & _ & _ & ->). split_and!; try done.
    by intros (? & _).
Qed.


Lemma update_logging_sound user i a on changed tb : sound tb -> sound (fst (update_logging user i a on changed tb)).
Proof.
  intros S. unfold update_logging. destruct on as [on|]; [|destruct changed; cbn; auto].
  destruct (VaultAccess.team_id a); [|done]. destruct (_ && _); [done|].
  assert (sound (with_vaults (alter (logged on) i) tb)) by by apply sound_alter. destruct (_ || _); cbn; auto.
Qed.

Lemma update_sound user i req tb : sound tb -> sound (fst (update user i req tb)).
Proof.
  intros S. unfold update. destruct (manages tb i user); [|done]. destruct (u_name req); [|by apply update_logging_sound].
  destruct (validate_name _); [|done]. by apply update_logging_sound, sound_alter.
Qed.

Lemma delete_sound user i tb : sound tb -> sound (fst (delete user i tb)).
Proof.
  intros S. unfold delete, delete_check. destruct (manages tb i user) as [a|]; [|done]. cbn.
  destruct (guard _ _) as [u|]; [|done]. cbn. destruct (vaults tb !! i) as [v|] eqn:Ev; [|done]. cbn.
  destruct (v_default v) eqn:Ed; [done|]. cbn. apply sound_publish, sound_drop; [done|]. intros w Hw. right. congruence.
Qed.

Lemma upsert_check_ok user i target req tb a : upsert_check unb64 user i target req tb = Ok a ->
  manages tb i user = Ok a /\ kind a <> Personal /\ p_user req = target /\ is_Some (unb64 (p_sealed req))
  /\ exists team, VaultAccess.team_id a = Some team /\ is_Some (team_member tb team target).
Proof.
  unfold upsert_check. intros (b & Hb & H)%bind_ok. apply bind_ok in H as (? & Hk%guard_ok & H).
  apply bind_ok in H as (? & Eu%guard_ok%bool_decide_eq_true & H). apply bind_ok in H as (? & Hs & H).
  apply bind_ok in Hs as (s & Hs%ok_or_ok & _). apply bind_ok in H as (team & Ht%ok_or_ok & H).
  apply bind_ok in H as (? & Hr & H). apply bind_ok in H as (? & _ & [= <-]). split_and!; try done.
  - by destruct (kind b).
  - exists team. split; [done|]. unfold my_role in Hr. by destruct (team_member tb team target).
Qed.

(** A write with the version of the vault's row at the time. *)
Lemma upsert_write_sound user i target req a tb v : sound tb -> vaults tb !! i = Some v -> of_team v ->
  VaultAccess.key_version a = v_key_version v -> sound (fst (upsert_write user i target req a tb)).
Proof.
  intros S Hv T E. unfold upsert_write. rewrite Hv. cbn. apply sound_publish, sound_members; [done|].
  intros j u m. rewrite lookup_insert_Some. intros [[[= <- <-] <-]|[_ H]]; [right|by left].
  exists v. destruct (members tb !! (i, target)) as [m0|] eqn:Em; cbn; split_and!; try done; [left|by right].
  exists m0. split_and!; try done. by right.
Qed.

Lemma upsert_member_sound user i target req tb : sound tb -> sound (fst (upsert_member unb64 user i target req tb)).
Proof.
  intros S. unfold upsert_member. destruct (upsert_check _ _ _ _ _ _) as [a|] eqn:E; [|done].
  apply upsert_check_ok in E as (Hm & K & _). destruct (manages_row _ _ _ _ Hm) as (v & Hv & _ & Ek & _ & Ekind).
  apply (upsert_write_sound _ _ _ _ _ _ v); try done. by apply (team_of_access tb i a v).
Qed.

Lemma remove_member_sound user i target tb : sound tb -> sound (fst (remove_member user i target tb)).
Proof.
  intros S. unfold remove_member. destruct (remove_check _ _ _ _); [|done]. destruct (members tb !! (i, target)); [|done].
  cbn. apply sound_publish, sound_members; [done|]. intros j u m. rewrite lookup_delete_Some. intros [_ ?]. by left.
Qed.

Lemma reseal_my_key_sound user i version sealed tb : sound tb -> sound (fst (reseal_my_key unb64 user i version sealed tb)).
Proof.
  intros S. unfold reseal_my_key. destruct (_ ≫= _); [|done].
  destruct (members tb !! (i, user)) as [m0|] eqn:Em; [|done]. destruct (_ && _); [|done]. cbn. apply sound_members; [done|].
  intros j u m. rewrite lookup_insert_Some. intros [[[= <- <-] <-]|[_ H]]; [right|by left].
  destruct (keyed tb S i user m0 Em) as (v & Hv & E). exists v. split_and!; [done..|]. left. exists m0. auto.
Qed.

(** ** Rotation *)

(** The last key sent for a member. *)
Definition key_sent (l : Datatypes.list SealedKeyFor) (u : uuid) : option string :=
  f_sealed <$> last (filter (fun m => f_user m = u) l).

Lemma seal_members_lookup i n l t j u :
  seal_members i n l t !! (j, u) =
    match t !! (j, u) with
    | Some m =>
        match key_sent l u with
        | Some s => Some (if decide (j = i) then sealed_for n s m else m)
        | None => Some m
        end
    | None => None
    end.
Proof.
  unfold seal_members, key_sent. revert t. induction l as [|x l IH] using rev_ind; intros t; [cbn; by destruct (t !! _)|].
  rewrite fold_left_app, filter_app. cbn [fold_left]. destruct (decide (j = i /\ f_user x = u)) as [[-> <-]|N].
  - rewrite lookup_alter_eq, IH. rewrite filter_cons_True by done. rewrite filter_nil, last_snoc. cbn.
    destruct (t !! _) as [m|]; cbn; [|done]. rewrite decide_True by done. destruct (last _); cbn; [|done].
    by rewrite decide_True.
  - rewrite lookup_alter_ne by (intros [= -> <-]; tauto). rewrite IH. destruct (t !! _) as [m|]; [|done].
    destruct (decide (f_user x = u)) as [Eu|Eu].
    + assert (j <> i) by tauto. rewrite filter_cons_True by done. rewrite filter_nil, last_snoc. cbn.
      destruct (decide (j = i)); [done|]. by destruct (last _).
    + rewrite (filter_cons_False _ x) by done. by rewrite filter_nil, app_nil_r.
Qed.

Lemma reset_members_lookup i n t j u :
  reset_members i n t !! (j, u) = (fun m => if decide (j = i) then dropped n m else m) <$> t !! (j, u).
Proof. unfold reset_members. rewrite map_lookup_imap. by destruct (t !! (j, u)). Qed.

(** Each row after a rotation: the new version, and the key sent or none. *)
Lemma rotated_lookup i n l t j u :
  seal_members i n l (reset_members i n t) !! (j, u) =
    (fun m => if decide (j = i) then mkVaultMember (k_role m) (key_sent l u) n (k_by m) (k_added m) (k_expires m) else m) <$> t !! (j, u).
Proof.
  rewrite seal_members_lookup, reset_members_lookup. destruct (t !! (j, u)) as [m|]; cbn; [|done].
  case_decide; by destruct (key_sent l u).
Qed.

Lemma rotate_write_ok i req a tb tb' : rotate_write i req a tb = Ok tb' ->
  exists v, vaults tb !! i = Some v /\ v_key_version v = r_base req
    /\ tb' = with_members (seal_members i (VaultAccess.key_version a + 1) (r_members req))
        (with_bridges (reset_bridges i (VaultAccess.key_version a + 1))
          (with_members (reset_members i (VaultAccess.key_version a + 1))
            (with_vaults <[i := bumped (VaultAccess.key_version a + 1) v]> tb))).
Proof.
  unfold rotate_write. destruct (vaults tb !! i) as [v|] eqn:Ev; cbn; [|done].
  destruct (v_key_version v =? r_base req) eqn:E; cbn; [|done]. intros [= <-]. exists v. split_and!; try done. lia.
Qed.

Lemma rotate_write_sound i req a tb tb' : sound tb -> rotate_write i req a tb = Ok tb' -> sound tb'.
Proof.
  intros S (v & Hv & _ & ->)%rotate_write_ok. set (n := VaultAccess.key_version a + 1).
  apply (sound_change tb); try done; cbn.
  - intros j w. rewrite lookup_insert_Some. intros [[<- <-]|[_ Hw]]; [exists v; by split|by exists w].
  - intros j w Hw. left. destruct (decide (i = j)) as [<-|]; [rewrite lookup_insert_eq|rewrite lookup_insert_ne by done]; eauto.
  - intros j u m. rewrite rotated_lookup. destruct (members tb !! (j, u)) as [m0|] eqn:Em; cbn; [|done]. intros [= <-].
    destruct (keyed tb S j u m0 Em) as (w & Hw & E). case_decide as D.
    + subst j. exists (bumped n v). rewrite lookup_insert_eq. split_and!; try done. left. exists m0. auto.
    + exists w. rewrite lookup_insert_ne by done. split_and!; try done. by apply from_same.
  - intros b r Hr. split; [done|]. destruct (asked tb S b r Hr) as (w & Hw & _).
    destruct (decide (i = q_vault r)) as [<-|]; [rewrite lookup_insert_eq|rewrite lookup_insert_ne by done]; eauto.
Qed.

Lemma rotate_key_sound user i req tb : sound tb -> sound (fst (rotate_key unb64 user i req tb)).
Proof.
  intros S. unfold rotate_key. destruct (rotate_check _ _ _ _ _) as [a|]; [|done].
  destruct (rotate_write i req a tb) as [tb'|] eqn:E; [|done]. cbn. by apply sound_publish, (rotate_write_sound i req a tb).
Qed.
End Requests.

(** ** The other routes *)

Lemma owns_personal_spec tb u : owns_personal tb u = true <->
  exists i v, vaults tb !! i = Some v /\ v_kind v = "personal" /\ v_owner v = Some u.
Proof.
  unfold owns_personal. rewrite existsb_exists. split.
  - intros ([i v] & Hin & D%bool_decide_eq_true). exists i, v. split; [|done]. by apply elem_of_map_to_list, list_elem_of_In.
  - intros (i & v & Hv & D). exists (i, v). split; [|by apply bool_decide_eq_true].
    by apply list_elem_of_In, elem_of_map_to_list.
Qed.

Lemma create_personal_vault_sound i user sealed tb tb' : sound tb -> create_personal_vault i user sealed tb = Ok tb' -> sound tb'.
Proof.
  intros S. unfold create_personal_vault. case_decide as E; [|done]. destruct E as [Hi _]. intros [= <-].
  set (v := mkVault _ _ _ _ _ _ _ _ _). set (m := mkVaultMember _ _ _ _ _ _).
  pose proof (sound_new i v {[(i, user) := m]} tb S Hi) as H.
  assert (forall t, ({[(i, user) := m]} : gmap (uuid * uuid) VaultMemberRow) ∪ t = <[(i, user) := m]> t) as Eu.
  { intros t. by rewrite <- insert_union_singleton_l. }
  unfold with_members in *. cbn in *. rewrite Eu in H. apply H; try done.
  - left. unfold personal. cbn. eauto.
  - intros j u k. rewrite lookup_singleton_Some. intros [[= <- <-] <-]. done.
Qed.

Lemma unseal_sound user tb : sound tb -> sound (with_members (map_imap (fun p m => Some (unsealed user p m))) tb).
Proof.
  intros S. apply sound_members; [done|]. intros j u m'. rewrite map_lookup_imap.
  destruct (members tb !! (j, u)) as [m|] eqn:Em; cbn; [|done]. intros [= <-]. right.
  destruct (keyed tb S j u m Em) as (v & Hv & E). exists v. split; [done|]. unfold unsealed. case_decide; cbn.
  - split; [done|]. left. exists m. auto.
  - split; [done|]. by apply from_same.
Qed.

Lemma drop_all_sound (l : Datatypes.list (uuid * VaultRow)) tb : sound tb ->
  (forall j w v, (j, w) ∈ l -> vaults tb !! j = Some v -> personal v) ->
  sound (foldl (fun tb p => drop_vault (fst p) tb) tb l).
Proof.
  revert tb. induction l as [|[j w] l IH]; intros tb S H; cbn; [done|]. apply IH.
  - apply sound_drop; [done|]. intros v Hv. left. apply (H j w v); [by left|done].
  - intros k x v Hin. destruct (drop_vault_lookups j tb) as (-> & _). case_decide; [done|].
    apply (H k x). by right.
Qed.

Lemma start_over_sound i user sealed tb tb' : sound tb -> start_over i user sealed tb = Ok tb' -> sound tb'.
Proof.
  intros S. unfold start_over. apply create_personal_vault_sound, unseal_sound, drop_all_sound; [done|].
  intros j w v [[Ho Hk] Hin%elem_of_map_to_list]%list_elem_of_filter Hv. cbn in *. assert (w = v) as -> by congruence.
  destruct (kinds tb S j v Hv) as [[P|(T & _)] _]; [done|congruence].
Qed.

Lemma remove_sound team user tb : sound tb -> sound (remove team user tb).
Proof.
  intros S. eapply (sound_same (with_members _ tb)); [|done..]. apply sound_members; [done|].
  intros j u m. rewrite map_lookup_filter_Some. intros [? _]. by left.
Qed.

Lemma invite_to_sound team user i tb : sound tb -> sound (invite_to team user i tb).
Proof.
  intros S. unfold invite_to. destruct (vaults tb !! i) as [v|] eqn:Ev; [|done]. destruct (members tb !! (i, user)); [done|].
  case_decide as E; [|done]. destruct E as [Et _]. apply sound_members; [done|]. intros j u m.
  rewrite lookup_insert_Some. intros [[[= <- <-] <-]|[_ H]]; [right|by left]. exists v. split_and!; try done. right.
  split; [done|]. destruct (kinds tb S i v Ev) as [[(_ & N & _)|T] _]; [congruence|done].
Qed.

Lemma apply_invite_sound team user ids tb : sound tb -> sound (apply_invite team user ids tb).
Proof. unfold apply_invite. revert tb. induction ids; intros tb S; cbn; [done|]. by apply IHids, invite_to_sound. Qed.

(** ** The requests of [TempAccess] *)

Lemma load_ok team i tb o : load team i tb = Ok o ->
  requests tb !! i = Some (o_row o) /\ q_team (o_row o) = team /\ o_id o = i
  /\ is_Some (vaults tb !! q_vault (o_row o)) /\ is_Some (users tb !! q_user (o_row o)).
Proof.
  unfold load. rewrite ok_or_ok. destruct (requests tb !! i) as [r|]; cbn; [|done]. case_decide as E; [|done].
  destruct (vaults tb !! q_vault r) as [v|] eqn:Ev; cbn; [|done]. destruct (users tb !! q_user r) as [x|] eqn:Ex; cbn; [|done].
  intros [= <-]. cbn. rewrite Ev, Ex. split_and!; eauto.
Qed.

Lemma has_open_spec tb i u : has_open tb i u = true <-> exists a r, requests tb !! a = Some r /\ is_open i u r.
Proof.
  unfold has_open. rewrite existsb_exists. split.
  - intros ([a r] & Hin & D%bool_decide_eq_true). exists a, r. split; [|done]. by apply elem_of_map_to_list, list_elem_of_In.
  - intros (a & r & Hr & D). exists (a, r). split; [|by apply bool_decide_eq_true].
    by apply list_elem_of_In, elem_of_map_to_list.
Qed.

Lemma create_write_sound i user team req reason tb v : sound tb -> vaults tb !! n_vault req = Some v ->
  v_team v = Some team -> v_kind v = "team" -> sound (fst (create_write i user team req reason tb)).
Proof.
  intros S Hv Et Ek. unfold create_write. rewrite Hv. destruct (users tb !! user) as [acc|]; [|done].
  destruct (_ || _) eqn:E; [done|]. apply orb_false_iff in E as [Ho Hi%bool_decide_eq_false].
  rewrite <- eq_None_not_Some in Hi. cbn.
  assert (~ exists a r, requests tb !! a = Some r /\ is_open (n_vault req) user r) as Hno.
  { rewrite <- has_open_spec, Ho. done. }
  split; cbn; [exact (kinds tb S)|exact (one_default tb S)|exact (some_default tb S)|exact (keyed tb S)|exact (alone tb S)|..].
  - intros j u m e Hm He. destruct (temporary tb S j u m e Hm He) as (a & r & Hr & G). exists a, r. split; [|done].
    rewrite lookup_insert_ne; [done|]. intros <-. congruence.
  - intros a r. rewrite lookup_insert_Some. intros [[<- <-]|[_ H]]; [by exists v|by apply (asked tb S a)].
  - intros a b r s. rewrite !lookup_insert_Some. intros [[<- <-]|[Na H]] [[<- <-]|[Nb H']]; [done|..]; cbn.
    + intros E1 E2 _ P. destruct Hno. exists b, s. unfold is_open. auto.
    + intros E1 E2 P _. destruct Hno. exists a, r. unfold is_open. auto.
    + by apply (one_open tb S).
Qed.

Lemma create_check_ok user team req tb reason : create_check user team req tb = Ok reason ->
  is_ok (membership (authz tb) team user) = true /\ n_role req ∈ ROLES /\ 1 <= n_hours req <= MAX_HOURS
  /\ team_vault tb team (n_vault req) = true /\ members tb !! (n_vault req, user) = None.
Proof.
  unfold create_check. intros (m & Hm & E)%bind_ok. apply bind_ok in E as (? & Hr%guard_ok%bool_decide_eq_true & E).
  apply bind_ok in E as (? & Hh%guard_ok & E). apply bind_ok in E as (? & _ & E). apply bind_ok in E as (? & Hv%guard_ok & E).
  apply bind_ok in E as (? & Hn%guard_ok%bool_decide_eq_true & _). split_and!; try done; try lia.
  unfold belongs in Hm. by destruct (membership _ _ _).
Qed.

Lemma ask_sound i user team req tb : sound tb -> sound (fst (create i user team req tb)).
Proof.
  intros S. unfold create. destruct (create_check user team req tb) as [reason|] eqn:E; [|done].
  apply create_check_ok in E as (_ & _ & _ & Hv & _). unfold team_vault in Hv.
  destruct (vaults tb !! n_vault req) as [v|] eqn:Ev; [|done]. rewrite !andb_true_iff, !bool_decide_eq_true in Hv.
  destruct Hv as [[? ?] _]. by apply (create_write_sound _ _ _ _ _ _ v).
Qed.

Lemma approve_check_ok user team i req tb g : approve_check user team i req tb = Ok g ->
  is_ok (approves tb team user) = true /\ requests tb !! i = Some (g_row g) /\ q_team (g_row g) = team
  /\ is_Some (users tb !! q_user (g_row g)) /\ q_status (g_row g) = "pending" /\ q_user (g_row g) <> user
  /\ 1 <= g_hours g <= MAX_HOURS /\ g_role g ∈ ROLES /\ g_until g = now tb + g_hours g * 3600
  /\ g_hours g = default (q_hours (g_row g)) (d_hours req) /\ g_role g = default (q_role (g_row g)) (d_role req).
Proof.
  unfold approve_check. intros (m & Hm & E)%bind_ok. apply bind_ok in E as (o & Ho & E).
  destruct (load_ok _ _ _ _ Ho) as (Hr & Et & _ & _ & Hu).
  apply bind_ok in E as (? & Hp%guard_ok%bool_decide_eq_true & E). apply bind_ok in E as (? & Hn%guard_ok & E).
  apply negb_true_iff, bool_decide_eq_false in Hn. apply bind_ok in E as (? & Hh%guard_ok & E).
  apply bind_ok in E as (? & Hrole%guard_ok%bool_decide_eq_true & E). apply bind_ok in E as (? & _ & [= <-]). cbn.
  split_and!; try done; try lia. by rewrite Hm.
Qed.

(** The transaction of [approve] on the request it was checked for. *)
Lemma approve_write_sound user team i g tb : sound tb -> requests tb !! i = Some (g_row g) -> q_status (g_row g) = "pending" ->
  q_user (g_row g) <> user -> g_until g <= now tb + MAX_HOURS * 3600 -> sound (fst (approve_write user team i g tb)).
Proof.
  intros S Hr Hp Hn Hu. unfold approve_write. destruct (vaults tb !! _) as [v|] eqn:Ev; [|done].
  destruct (members tb !! _) eqn:Em; [done|]. set (tb' := with_requests _ _).
  enough (sound tb') as S' by (destruct (users tb !! _); [destruct (load team i tb'); cbn; auto|done]).
  destruct (asked tb S i _ Hr) as (w & Hw & Kw & Tw). assert (w = v) as -> by congruence.
  apply (sound_decides tb); try done; cbn.
  - intros j u m. rewrite lookup_insert_Some. intros [[[= <- <-] <-]|[_ H]]; [right|by left]. exists v. split_and!; try done.
    destruct (kinds tb S _ v Ev) as [[(P & _)|T] _]; [congruence|done].
  - intros j u m e. rewrite lookup_insert_Some. intros [[[= <- <-] <-]|[_ H]] He; cbn in He.
    + injection He as <-. exists i, (granted user g (now tb) (g_row g)). rewrite lookup_alter_eq, Hr. split; [done|].
      unfold granted_by, granted. cbn. split_and!; try done; [by exists user|]. exists (now tb). split_and!; try done; lia.
    + destruct (temporary tb S j u m e H He) as (a & r & Hr' & G). exists a, r.
      assert (a <> i) by (intros ->; destruct G as (_ & _ & ? & _); congruence).
      split; [by rewrite lookup_alter_ne|done].
  - intros a r'. rewrite lookup_alter_Some. intros [(-> & r & Hr' & ->)|[_ Hr']]; [|by exists r'].
    by exists r.
Qed.

Lemma approve_sound user team i req tb : sound tb -> sound (fst (approve user team i req tb)).
Proof.
  intros S. unfold approve. destruct (approve_check user team i req tb) as [g|] eqn:E; [|done].
  apply approve_check_ok in E as (_ & Hr & _ & _ & Hp & Hn & Hh & _ & Eu & _). apply approve_write_sound; try done. lia.
Qed.

Lemma deny_check_ok user team i req tb note : deny_check user team i req tb = Ok note ->
  is_ok (approves tb team user) = true /\ exists r, requests tb !! i = Some r /\ q_team r = team /\ q_status r = "pending".
Proof.
  unfold deny_check. intros (m & Hm & E)%bind_ok. apply bind_ok in E as (o & Ho & E).
  destruct (load_ok _ _ _ _ Ho) as (Hr & Et & _). apply bind_ok in E as (? & Hp%guard_ok%bool_decide_eq_true & _).
  split; [by rewrite Hm|]. by exists (o_row o).
Qed.

Lemma deny_sound user team i req tb : sound tb -> sound (fst (deny user team i req tb)).
Proof.
  intros S. unfold deny. destruct (deny_check user team i req tb) as [note|] eqn:E; [|done].
  apply deny_check_ok in E as (_ & r & Hr & _ & Hp). by apply (sound_settles _ _ _ r).
Qed.

Lemma cancel_sound user team i tb : sound tb -> sound (fst (cancel user team i tb)).
Proof.
  intros S. unfold cancel. destruct (cancel_check user team i tb) as [u|] eqn:E; [|done]. unfold cancel_check in E.
  apply bind_ok in E as (o & Ho & E). destruct (load_ok _ _ _ _ Ho) as (Hr & _). apply bind_ok in E as (? & _ & Hp).
  apply guard_ok, bool_decide_eq_true in Hp. by apply (sound_settles _ _ _ (o_row o)).
Qed.

Lemma revoke_check_ok user team i tb cur : revoke_check user team i tb = Ok cur ->
  is_ok (approves tb team user) = true /\ requests tb !! i = Some cur /\ q_team cur = team /\ q_status cur = "approved".
Proof.
  unfold revoke_check. intros (m & Hm & E)%bind_ok. apply bind_ok in E as (o & Ho & E).
  destruct (load_ok _ _ _ _ Ho) as (Hr & Et & _). apply bind_ok in E as (? & Hp%guard_ok%bool_decide_eq_true & [= <-]).
  split; [by rewrite Hm|done].
Qed.

Lemma drop_temporary_lookup key t k m : drop_temporary key t !! k = Some m <->
  t !! k = Some m /\ (k <> key \/ k_expires m = None).
Proof.
  unfold drop_temporary. destruct (t !! key) as [m0|] eqn:E0.
  - destruct (k_expires m0) eqn:Ee.
    + rewrite lookup_delete_Some. split; [intros [? ?]; auto|]. intros [? [?|?]]; [done|]. split; [|done]. intros ->. congruence.
    + split; [|tauto]. intros H. split; [done|]. destruct (decide (k = key)) as [->|]; [right; congruence|by left].
  - split; [|tauto]. intros H. split; [done|]. left. intros ->. congruence.
Qed.

Lemma revoke_sound user team i tb : sound tb -> sound (fst (revoke user team i tb)).
Proof.
  intros S. unfold revoke. destruct (revoke_check user team i tb) as [cur|] eqn:E; [|done].
  apply revoke_check_ok in E as (_ & Hr & _ & Hp). unfold revoke_write. cbn. apply sound_publish.
  apply (sound_decides tb); try done; cbn.
  - intros j u m. rewrite drop_temporary_lookup. intros [? _]. by left.
  - intros j u m e. rewrite drop_temporary_lookup. intros [Hm [Hk|Hk]] He; [|congruence].
    destruct (temporary tb S j u m e Hm He) as (a & r & Hr' & G). exists a, r. split; [|done].
    rewrite lookup_alter_ne; [done|]. intros <-. destruct G as (<- & <- & _). congruence.
  - intros a r'. rewrite lookup_alter_Some. intros [(-> & r & Hr' & ->)|[_ Hr']]; [|by exists r'].
    by exists r.
Qed.

(** The rows the pass leaves are those that are not over. *)
Lemma expiry_members tb k m : sound tb ->
  members (fst (expiry_pass tb)) !! k = Some m <-> members tb !! k = Some m /\ ~ over (now tb) m.
Proof.
  intros S. unfold expiry_pass. set (tb' := with_requests _ _).
  assert (members (fst (match filter (falls tb) (map_to_list (members tb)) with
    | [] => tb' | _ => publish (map (fun p => snd (fst p)) (filter (falls tb) (map_to_list (members tb)))) tb' end,
    length (filter (falls tb) (map_to_list (members tb))))) = members tb') as -> by by destruct (filter _ (map_to_list _)).
  unfold tb'. cbn. rewrite map_lookup_filter_Some. unfold falls. cbn. split.
  - intros [Hm Hn]. split; [done|]. intros Ho. destruct Hn. split; [|done]. destruct k as [j u].
    destruct (keyed tb S j u m Hm) as (v & Hv & _). by exists v.
  - intros [Hm Hn]. tauto.
Qed.

Lemma expiry_rest tb : vaults (fst (expiry_pass tb)) = vaults tb /\ now (fst (expiry_pass tb)) = now tb
  /\ authz (fst (expiry_pass tb)) = authz tb
  /\ requests (fst (expiry_pass tb)) = expire (now tb) <$> requests tb.
Proof. unfold expiry_pass. cbn. by destruct (filter _ (map_to_list _)). Qed.

Lemma expiry_sound tb : sound tb -> sound (fst (expiry_pass tb)).
Proof.
  intros S. destruct (expiry_rest tb) as (EV & EN & _ & ER). apply (sound_decides tb); try done.
  - intros j u m [H _]%expiry_members; [by left|done].
  - intros j u m e [H Ho]%expiry_members He; [|done]. destruct (temporary tb S j u m e H He) as (a & r & Hr & G).
    exists a, r. rewrite ER, lookup_fmap, Hr. cbn. split; [|by apply (granted_now tb)].
    unfold over in Ho. rewrite He in Ho. pose proof G as (_ & _ & _ & Ge & _). unfold expire. rewrite Ge.
    by rewrite decide_False by tauto.
  - intros a r'. rewrite ER, lookup_fmap. destruct (requests tb !! a) as [r|] eqn:Er; cbn; [|done]. intros [= <-].
    exists r. split; [done|]. unfold expire, same_request. destruct (q_expires r) as [e|]; [|done]. by case_decide.
Qed.

Lemma list_sound user team tb : sound tb -> sound (fst (list user team tb)).
Proof. intros S. unfold list. destruct (belongs tb team user); [|done]. cbn. by apply expiry_sound. Qed.
