(* ===== verification/VaultSafety.v ===== *)
(** * Who comes to hold the keys of vaults

    The theorems on the requests of [Vaults] and [TempAccess], by the steps of
    [VaultSteps]: the tables stay sound, keys come from managers, a rotation is
    exact, temporary access ends; and the interleavings and the stale request
    that go wrong. *)
From Stdlib Require Import Ascii.
From S2P Require Import Prelude Text VaultAccess Authz Vaults TempAccess VaultSteps.

#[local] Open Scope string_scope.
#[local] Open Scope list_scope.
#[local] Open Scope Z_scope.

Section Safety.
Context (unb64 : string -> option bytes).

(** ** Histories *)

(** A request by a user, a write of another route, the expiry job, or
    something elsewhere on the server. The first number of a creation is its
    random id. *)
Inductive Happening : Type :=
| CreatesVault (i user team : uuid) (req : CreateVaultRequest)
| Updates (user i : uuid) (req : UpdateVaultRequest)
| Deletes (user i : uuid)
| Upserts (user i target : uuid) (req : VaultMemberUpsert)
| Removes (user i target : uuid)
| Reseals (user i : uuid) (version : Z) (sealed : string)
| Rotates (user i : uuid) (req : RotateVaultKeyRequest)
| Asks (i user team : uuid) (req : CreateAccessRequest)
| Approves (user team i : uuid) (req : DecideAccessRequest)
| Denies (user team i : uuid) (req : DecideAccessRequest)
| Revokes (user team i : uuid)
| Cancels (user team i : uuid)
| Lists (user team : uuid)
| Expires
| Registers (i user : uuid) (sealed : string)
| StartsOver (i user : uuid) (sealed : string)
| Leaves (team user : uuid)
| Joins (team user : uuid) (ids : Datatypes.list uuid)
| Elsewhere (f : Tables -> Tables).

Definition committed (r : vapi Tables) (tb : Tables) : Tables := match r with Ok tb' => tb' | Err _ => tb end.

Definition happen (tb : Tables) (h : Happening) : Tables :=
  match h with
  | CreatesVault i user team req => fst (create_team_vault unb64 i user team req tb)
  | Updates user i req => fst (update user i req tb)
  | Deletes user i => fst (Vaults.delete user i tb)
  | Upserts user i target req => fst (upsert_member unb64 user i target req tb)
  | Removes user i target => fst (remove_member user i target tb)
  | Reseals user i version sealed => fst (reseal_my_key unb64 user i version sealed tb)
  | Rotates user i req => fst (rotate_key unb64 user i req tb)
  | Asks i user team req => fst (create i user team req tb)
  | Approves user team i req => fst (approve user team i req tb)
  | Denies user team i req => fst (deny user team i req tb)
  | Revokes user team i => fst (revoke user team i tb)
  | Cancels user team i => fst (cancel user team i tb)
  | Lists user team => fst (list user team tb)
  | Expires => fst (expiry_pass tb)
  | Registers i user sealed => committed (create_personal_vault i user sealed tb) tb
  | StartsOver i user sealed => committed (start_over i user sealed tb) tb
  | Leaves team user => remove team user tb
  | Joins team user ids => apply_invite team user ids tb
  | Elsewhere f => f tb
  end.

(** Roles, policies, accounts and bridges may change and time pass. *)
Definition spares_vaults (h : Happening) : Prop :=
  match h with
  | Elsewhere f => forall tb, vaults (f tb) = vaults tb /\ members (f tb) = members tb /\ requests (f tb) = requests tb /\ now tb <= now (f tb)
  | _ => True
  end.

Definition play (l : Datatypes.list Happening) (tb : Tables) : Tables := foldl happen tb l.

Lemma happen_sound h tb : sound tb -> spares_vaults h -> sound (happen tb h).
Proof.
  intros S H. destruct h; cbn [happen spares_vaults] in *;
    eauto using create_team_vault_sound, update_sound, delete_sound, upsert_member_sound, remove_member_sound,
      reseal_my_key_sound, rotate_key_sound, ask_sound, approve_sound, deny_sound, revoke_sound, cancel_sound,
      list_sound, expiry_sound, remove_sound, apply_invite_sound.
  - destruct (create_personal_vault i user sealed tb) eqn:E; cbn; [by eapply create_personal_vault_sound|done].
  - destruct (start_over i user sealed tb) eqn:E; cbn; [by eapply start_over_sound|done].
  - destruct (H tb) as (? & ? & ? & ?). by apply (sound_same tb).
Qed.

Lemma play_stays_sound l tb : sound tb -> Forall spares_vaults l -> sound (play l tb).
Proof.
  unfold play. revert tb. induction l as [|h l IH]; intros tb S; cbn; [done|]. intros [H Hl]%Forall_cons.
  by apply IH; [apply happen_sound|].
Qed.

(** C16: the tables of the vaults stay sound. Whatever requests arrive, from
    anyone and in any order, with members who join, leave, register and start
    over between them: a team that has a vault has exactly one default vault;
    every membership carries the key version of its vault; a personal vault has
    its owner as its only member; and a membership with an end rests on an
    approved request that somebody else decided, at most 720 hours before that
    end. *)
Theorem vaults_stay_sound l tb : sound tb -> Forall spares_vaults l ->
  let tb' := play l tb in
  sound tb'
  /\ (forall i v t, vaults tb' !! i = Some v -> v_team v = Some t -> exists! j, exists w, vaults tb' !! j = Some w /\ defaults t w)
  /\ (forall i u m, members tb' !! (i, u) = Some m -> exists v, vaults tb' !! i = Some v /\ k_version m = v_key_version v
        /\ (v_kind v = "personal" -> v_owner v = Some u))
  /\ (forall i u m e, members tb' !! (i, u) = Some m -> k_expires m = Some e ->
        exists a r, requests tb' !! a = Some r /\ granted_by tb' i u e r).
Proof.
  intros S Hl tb'. pose proof (play_stays_sound l tb S Hl) as S'. fold tb' in S'. split_and!; [done|..].
  - intros i v t Hv Ht. destruct (some_default _ S' t i v Hv Ht) as (j & w & Hw & D). exists j. split; [by exists w|].
    intros k (x & Hx & Dx). by apply (one_default _ S' t j k w x).
  - intros i u m Hm. destruct (keyed _ S' i u m Hm) as (v & Hv & E). exists v. split_and!; try done. intros K.
    destruct (kinds _ S' i v Hv) as [[P|(T & _)] _]; [|congruence]. by destruct (alone _ S' i u m v Hm Hv P).
  - apply (temporary _ S').
Qed.

(** ** Keys *)

Definition sealed_key (tb : Tables) (i u : uuid) : option string := m ← members tb !! (i, u); k_sealed m.

(** How a key comes to be sealed to [u]. *)
Definition sealed_by (h : Happening) (tb : Tables) (i u : uuid) (s : string) : Prop :=
  match h with
  | CreatesVault j user team req =>
      i = j /\ vaults tb !! i = None /\ is_ok (require (authz tb) team user "vaults.create") = true
      /\ is_Some (team_member tb team u) /\ exists p, p ∈ c_members req /\ p_user p = u /\ p_sealed p = s
  | Upserts user j target req =>
      i = j /\ u = target /\ p_sealed req = s /\ (exists a, manages tb i user = Ok a)
      /\ exists v team, vaults tb !! i = Some v /\ v_team v = Some team /\ is_Some (team_member tb team u)
  | Rotates user j req =>
      i = j /\ (exists a, manages tb i user = Ok a) /\ is_Some (members tb !! (i, u)) /\ key_sent (r_members req) u = Some s
  | Reseals user j version sealed => i = j /\ u = user /\ sealed = s /\ is_Some (sealed_key tb i u)
  | Registers j user sealed => i = j /\ u = user /\ sealed = s /\ vaults tb !! i = None
  | StartsOver j user sealed => i = j /\ u = user /\ sealed = s
  | _ => False
  end.

Lemma check_members_ok tb team l u : check_members unb64 tb team l = Ok u ->
  forall p, p ∈ l -> is_Some (team_member tb team (p_user p)) /\ is_Some (unb64 (p_sealed p)).
Proof.
  induction l as [|m l IH]; intros H p; [by intros []%elem_of_nil|]. cbn in H.
  apply bind_ok in H as (? & Hs & H). apply bind_ok in H as (? & Hr & H). unfold my_role in Hr.
  intros [->|Hp]%elem_of_cons; [|by apply IH]. unfold validate_sealed in Hs. apply bind_ok in Hs as (b & Hb%ok_or_ok & _).
  rewrite Hb. split; [|done]. by destruct (team_member tb team (p_user m)).
Qed.

(** Keys where no row has a new one. *)
Lemma no_new_key tb tb' i u s : (forall m', members tb' !! (i, u) = Some m' -> k_sealed m' = Some s ->
    exists m, members tb !! (i, u) = Some m /\ k_sealed m = Some s) ->
  sealed_key tb' i u = Some s -> sealed_key tb i u = Some s.
Proof.
  unfold sealed_key. intros H. destruct (members tb' !! (i, u)) as [m'|]; cbn; [|done]. intros E.
  by destruct (H m' eq_refl E) as (m & -> & E').
Qed.

Lemma fewer_keys tb tb' i u s : (forall m', members tb' !! (i, u) = Some m' -> members tb !! (i, u) = Some m') ->
  sealed_key tb' i u = Some s -> sealed_key tb i u = Some s.
Proof. intros H. apply no_new_key. intros m' Hm E. exists m'. auto. Qed.

Lemma created_keys j user team req tb i u s : sealed_key (happen tb (CreatesVault j user team req)) i u = Some s ->
  sealed_key tb i u = Some s \/ sealed_by (CreatesVault j user team req) tb i u s.
Proof.
  cbn [happen sealed_by]. unfold create_team_vault.
  destruct (Vaults.create_check unb64 user team req tb) as [[name me]|e] eqn:E; [|by left].
  case_decide as D; [|by left]. destruct D as [Hi Hn]. unfold sealed_key. cbn.
  destruct ((list_to_map _ ∪ members tb) !! (i, u)) as [m|] eqn:Em; cbn; [|done]. intros Es.
  apply lookup_union_Some_raw in Em as [Hm|[_ Hm]]; [right|left; by rewrite Hm].
  destruct (new_members_lookup _ _ _ _ _ _ _ Hn Hm) as (-> & p & Hp & <- & ->). unfold Vaults.create_check in E.
  apply bind_ok in E as (me' & Hr & E). apply bind_ok in E as (? & _ & E). apply bind_ok in E as (? & _ & E).
  apply bind_ok in E as (? & _ & E). apply bind_ok in E as (? & Hc & _).
  destruct (check_members_ok _ _ _ _ Hc p Hp) as [Ht _]. split_and!; try done.
  - unfold from_authz in Hr. by destruct (require _ _ _ _).
  - exists p. split_and!; try done. by injection Es.
Qed.

Lemma upserted_keys user j target req tb i u s : sealed_key (happen tb (Upserts user j target req)) i u = Some s ->
  sealed_key tb i u = Some s \/ sealed_by (Upserts user j target req) tb i u s.
Proof.
  cbn [happen sealed_by]. unfold upsert_member. destruct (upsert_check _ _ _ _ _ _) as [a|] eqn:E; [|by left].
  apply upsert_check_ok in E as (Hm & _ & _ & _ & team & Et & Hmem). destruct (manages_row _ _ _ _ Hm) as (v & Hv & _ & _ & Ev & _).
  unfold upsert_write, sealed_key. rewrite Hv. cbn. destruct (decide ((i, u) = (j, target))) as [[= -> ->]|N].
  - rewrite lookup_insert_eq. cbn. intros E. right. split_and!; try done; [|by exists a|].
    + destruct (members tb !! _); cbn in E; by injection E.
    + exists v, team. split_and!; try done. congruence.
  - rewrite lookup_insert_ne by done. by left.
Qed.

Lemma rotated_keys user j req tb i u s : sealed_key (happen tb (Rotates user j req)) i u = Some s ->
  sealed_key tb i u = Some s \/ sealed_by (Rotates user j req) tb i u s.
Proof.
  cbn [happen sealed_by]. unfold rotate_key. destruct (rotate_check _ _ _ _ _) as [a|] eqn:E; [|by left].
  destruct (rotate_write j req a tb) as [tb'|] eqn:Ew; [|by left].
  apply rotate_write_ok in Ew as (v & _ & _ & ->). unfold sealed_key. cbn. rewrite rotated_lookup.
  destruct (members tb !! (i, u)) as [m|] eqn:Em; cbn; [|done]. case_decide as D; [|by left]. cbn. subst j.
  intros Hk. right. split_and!; try done. unfold rotate_check in E. apply bind_ok in E as (b & Hb & _). by exists b.
Qed.

Lemma resealed_keys user j version sealed tb i u s : sealed_key (happen tb (Reseals user j version sealed)) i u = Some s ->
  sealed_key tb i u = Some s \/ sealed_by (Reseals user j version sealed) tb i u s.
Proof.
  cbn [happen sealed_by]. unfold reseal_my_key. destruct (_ ≫= _); [|by left].
  destruct (members tb !! (j, user)) as [m0|] eqn:Em; [|by left]. destruct (_ && _) eqn:G; [|by left]. unfold sealed_key. cbn.
  destruct (decide ((i, u) = (j, user))) as [[= -> ->]|N].
  - rewrite lookup_insert_eq. cbn. intros [= <-]. right. split_and!; try done. rewrite Em. cbn.
    apply andb_true_iff in G as [_ G%bool_decide_eq_true]. by apply not_eq_None_Some.
  - rewrite lookup_insert_ne by done. by left.
Qed.

Lemma personal_keys j user sealed tb tb' i u s : create_personal_vault j user sealed tb = Ok tb' ->
  sealed_key tb' i u = Some s ->
  sealed_key tb i u = Some s \/ (i = j /\ u = user /\ sealed = s /\ vaults tb !! i = None).
Proof.
  unfold create_personal_vault. case_decide as D; [|done]. destruct D as [Hi _]. intros [= <-]. unfold sealed_key. cbn.
  destruct (decide ((i, u) = (j, user))) as [[= -> ->]|N].
  - rewrite lookup_insert_eq. cbn. intros [= <-]. by right.
  - rewrite lookup_insert_ne by done. by left.
Qed.

Lemma dropped_keys (l : Datatypes.list (uuid * VaultRow)) tb i u s :
  sealed_key (foldl (fun tb p => drop_vault (fst p) tb) tb l) i u = Some s -> sealed_key tb i u = Some s.
Proof.
  revert tb. induction l as [|[j w] l IH]; intros tb; cbn; [done|]. intros H%IH. revert H. apply fewer_keys.
  intros m'. destruct (drop_vault_lookups j tb) as (_ & -> & _). by case_decide.
Qed.

Lemma started_over_keys j user sealed tb tb' i u s : start_over j user sealed tb = Ok tb' ->
  sealed_key tb' i u = Some s -> sealed_key tb i u = Some s \/ (i = j /\ u = user /\ sealed = s).
Proof.
  intros H Hs. destruct (personal_keys _ _ _ _ _ _ _ _ H Hs) as [Hk|(? & ? & ? & _)]; [left|by right].
  apply (dropped_keys (filter (owned user) (map_to_list (vaults tb)))). revert Hk. apply no_new_key. intros m'. cbn. rewrite map_lookup_imap.
  destruct (members _ !! (i, u)) as [m|]; cbn; [|done]. intros [= <-]. unfold unsealed. case_decide; cbn; [done|].
  intros E. by exists m.
Qed.

(** The other requests leave rows as they are, or add some without a key. *)
Definition no_key_added (tb tb' : Tables) : Prop :=
  forall k m', members tb' !! k = Some m' -> k_sealed m' = None \/ members tb !! k = Some m'.

Lemma no_key_same tb tb' : members tb' = members tb -> no_key_added tb tb'.
Proof. intros E k m'. rewrite E. by right. Qed.
Lemma no_key_trans tb tb' tb'' : no_key_added tb tb' -> no_key_added tb' tb'' -> no_key_added tb tb''.
Proof. intros H H' k m Hm. destruct (H' k m Hm) as [|Ho]; [by left|by apply H]. Qed.
Hint Resolve no_key_same : core.

Lemma update_members user i req tb : members (fst (update user i req tb)) = members tb.
Proof.
  assert (forall a on changed tb, members (fst (update_logging user i a on changed tb)) = members tb) as H.
  { intros a on changed tb'. unfold update_logging. destruct on as [on|]; [|by destruct changed].
    destruct (VaultAccess.team_id a); [|done]. destruct (_ && _); [done|]. cbn. by destruct (_ || _). }
  unfold update. destruct (manages tb i user); [|done]. destruct (u_name req); [|by apply H].
  destruct (validate_name _); [|done]. by rewrite H.
Qed.

Lemma approve_no_key user team i req tb : no_key_added tb (fst (approve user team i req tb)).
Proof.
  unfold approve. destruct (approve_check _ _ _ _ _) as [g|]; [|auto]. unfold approve_write.
  destruct (vaults tb !! _) as [v|]; [|auto]. destruct (members tb !! _); [auto|]. destruct (users tb !! _); [|auto].
  set (tb' := with_requests _ _). assert (no_key_added tb tb') as H.
  { intros k m'. cbn. rewrite lookup_insert_Some. intros [[_ <-]|[_ ?]]; auto. }
  destruct (load team i tb'); exact H.
Qed.

Lemma joins_no_key team user ids tb : no_key_added tb (apply_invite team user ids tb).
Proof.
  unfold apply_invite. revert tb. induction ids as [|j ids IH]; intros tb; cbn; [auto|].
  apply (no_key_trans _ (invite_to team user j tb)); [|apply IH]. unfold invite_to. destruct (vaults tb !! j) as [v|]; [|auto].
  destruct (members tb !! _); [auto|]. case_decide; [|auto]. intros k m'. cbn. rewrite lookup_insert_Some.
  intros [[_ <-]|[_ ?]]; auto.
Qed.

Definition seals (h : Happening) : Prop :=
  match h with CreatesVault _ _ _ _ | Upserts _ _ _ _ | Rotates _ _ _ | Reseals _ _ _ _ | Registers _ _ _ | StartsOver _ _ _ => True | _ => False end.

#[local] Instance seals_dec h : Decision (seals h).
Proof. destruct h; cbn; apply _. Defined.

Lemma others_add_no_key h tb : sound tb -> spares_vaults h -> ~ seals h -> no_key_added tb (happen tb h).
Proof.
  intros S Hs Hn. destruct h; cbn [happen spares_vaults seals] in *; try done.
  - apply no_key_same, update_members.
  - unfold Vaults.delete. destruct (delete_check _ _ _); [|auto]. intros [j u] m. cbn. rewrite map_lookup_filter_Some. tauto.
  - unfold remove_member. destruct (remove_check _ _ _ _); [|auto]. destruct (members tb !! _); [|auto].
    intros k m. cbn. rewrite lookup_delete_Some. tauto.
  - unfold create. destruct (create_check _ _ _ _); [|auto]. unfold create_write.
    destruct (vaults tb !! n_vault req), (users tb !! user); auto. destruct (_ || _); auto.
  - apply approve_no_key.
  - unfold deny. destruct (deny_check _ _ _ _ _); auto.
  - unfold revoke. destruct (revoke_check _ _ _ _); [|auto]. intros k m. cbn. rewrite drop_temporary_lookup. tauto.
  - unfold cancel. destruct (cancel_check _ _ _ _); auto.
  - unfold list. destruct (belongs _ _ _); [|auto]. intros k m [H _]%expiry_members; auto.
  - intros k m [H _]%expiry_members; auto.
  - intros k m. unfold remove. cbn. rewrite map_lookup_filter_Some. tauto.
  - apply joins_no_key.
  - destruct (Hs tb) as (_ & ? & _). auto.
Qed.

(** C20: keys come from managers. Whatever happens in one step, a key sealed
    to a user that was not there before was sent with the creation of the vault
    by someone who may create vaults, by a manager of the vault for a member of
    its team, in a rotation by a manager for someone who is already a member,
    by the user in place of the key they already hold, or with their own new
    personal vault. Approved requests, invitations and every other request give
    a membership without a key. *)
Theorem keys_come_from_managers h tb i u s : sound tb -> spares_vaults h ->
  sealed_key (happen tb h) i u = Some s -> sealed_key tb i u = Some s \/ sealed_by h tb i u s.
Proof.
  intros S Hs H. destruct (decide (seals h)) as [K|K].
  - destruct h; cbn [seals] in K; try done; [by apply created_keys|by apply upserted_keys|by apply resealed_keys|by apply rotated_keys|..];
      cbn [happen] in H.
    + destruct (create_personal_vault i0 user sealed tb) as [tb'|] eqn:E; [|by left]. by apply (personal_keys _ _ _ _ tb').
    + destruct (start_over i0 user sealed tb) as [tb'|] eqn:E; [|by left]. by apply (started_over_keys _ _ _ _ tb').
  - left. revert H. apply no_new_key. intros m' Hm E. destruct (others_add_no_key h tb S Hs K _ _ Hm) as [N|Ho]; [congruence|].
    by exists m'.
Qed.

(** ** Rotation *)

Lemma rotate_key_ok user i req tb tb' n : rotate_key unb64 user i req tb = (tb', Ok n) ->
  exists a v, rotate_check unb64 user i req tb = Ok a /\ manages tb i user = Ok a /\ vaults tb !! i = Some v
    /\ n = v_key_version v + 1 /\ r_base req = v_key_version v /\ VaultAccess.key_version a = v_key_version v /\ kind a = kind_of v
    /\ tb' = publish (member_ids tb i)
        (with_members (seal_members i n (r_members req))
          (with_bridges (reset_bridges i n) (with_members (reset_members i n) (with_vaults <[i := bumped n v]> tb)))).
Proof.
  unfold rotate_key. destruct (rotate_check unb64 user i req tb) as [a|] eqn:E; [|done].
  destruct (rotate_write i req a tb) as [tb0|] eqn:Ew; [|done]. intros [= <- <-].
  apply rotate_write_ok in Ew as (v & Hv & Eb & ->). pose proof E as E'. unfold rotate_check in E'.
  apply bind_ok in E' as (b & Hb & E'). assert (b = a) as ->.
  { apply bind_ok in E' as (? & _ & E'). apply bind_ok in E' as (? & _ & E'). by apply bind_ok in E' as (? & _ & [= ->]). }
  destruct (manages_row _ _ _ _ Hb) as (w & Hw & _ & Ek & _ & Ekind). assert (w = v) as -> by congruence.
  exists a, v. rewrite Ek. done.
Qed.

Lemma rotate_check_base user i req tb a : rotate_check unb64 user i req tb = Ok a -> VaultAccess.key_version a = r_base req.
Proof.
  unfold rotate_check. intros (b & Hb & E)%bind_ok. apply bind_ok in E as (? & Eb%guard_ok & E).
  apply bind_ok in E as (? & _ & E). apply bind_ok in E as (? & _ & [= <-]). lia.
Qed.

(** The rotating member of a team's vault keeps a key. *)
Lemma rotate_check_self user i req tb a m : rotate_check unb64 user i req tb = Ok a -> kind a = Team ->
  members tb !! (i, user) = Some m -> is_Some (key_sent (r_members req) user).
Proof.
  unfold rotate_check. intros (b & Hb & E)%bind_ok K Hm. apply bind_ok in E as (? & _ & E).
  apply bind_ok in E as (? & _ & E). apply bind_ok in E as (? & G%guard_ok & [= <-]). rewrite K in G.
  assert (user ∈ member_ids tb i) as Hin.
  { unfold member_ids. apply list_elem_of_In, in_map_iff. exists (i, user, m). split; [done|].
    apply list_elem_of_In, list_elem_of_filter. split; [done|]. by apply elem_of_map_to_list. }
  rewrite (bool_decide_eq_true_2 _ Hin) in G. rewrite !andb_true_r in G.
  rewrite Bool.negb_involutive, bool_decide_eq_true in G.
  unfold key_sent. apply list_elem_of_In, in_map_iff in G as (k & <- & Hk%list_elem_of_In).
  apply fmap_is_Some, last_is_Some. intros N. assert (k ∈ filter (fun m => f_user m = f_user k) (r_members req)) as Hf.
  { by apply list_elem_of_filter. }
  rewrite N in Hf. by apply elem_of_nil in Hf.
Qed.

(** C32: a rotation is exact. When it succeeds the vault has the next version
    and nothing else of it changes; every member's row has that version and the
    last key sent for them, or none; the rotating member of a team's vault has
    one; every bridge loses its key; other vaults keep their rows; and of all
    rotations that were checked against the old version no other is written. *)
Theorem rotation_is_exact user i req tb tb' n : rotate_key unb64 user i req tb = (tb', Ok n) ->
  exists v, vaults tb !! i = Some v /\ n = v_key_version v + 1 /\ r_base req = v_key_version v
    /\ vaults tb' = <[i := bumped n v]> (vaults tb)
    /\ (forall j u, members tb' !! (j, u) = (fun m => if decide (j = i)
           then mkVaultMember (k_role m) (key_sent (r_members req) u) n (k_by m) (k_added m) (k_expires m) else m) <$> members tb !! (j, u))
    /\ (v_kind v = "team" -> is_Some (members tb !! (i, user)) -> is_Some (sealed_key tb' i user))
    /\ (forall b j, bridges tb' !! (b, j) = (fun x => if decide (j = i) then mkBridge None n else x) <$> bridges tb !! (b, j))
    /\ (forall user2 req2 a2, rotate_check unb64 user2 i req2 tb = Ok a2 ->
          rotate_write i req2 a2 tb' = Err (Conflicts "Vault key was rotated by someone else")).
Proof.
  intros (a & v & Hc & Hm & Hv & En & Eb & Ek & Ekind & ->)%rotate_key_ok. exists v. split_and!; try done; cbn.
  - intros j u. apply rotated_lookup.
  - intros K [m Hu]. unfold sealed_key. cbn. rewrite rotated_lookup, Hu. cbn. rewrite decide_True by done. cbn.
    apply (rotate_check_self _ _ _ _ _ m Hc); [|done]. unfold kind_of in Ekind. by rewrite decide_True in Ekind.
  - intros b j. unfold reset_bridges. rewrite map_lookup_imap. by destruct (bridges tb !! (b, j)).
  - intros user2 req2 a2 Hc2. pose proof (rotate_check_base _ _ _ _ _ Hc2) as E2. unfold rotate_write. cbn.
    rewrite lookup_insert_eq. cbn. unfold rotate_check in Hc2. apply bind_ok in Hc2 as (b & Hb & Hc2).
    assert (b = a2) as ->.
    { apply bind_ok in Hc2 as (? & _ & E'). apply bind_ok in E' as (? & _ & E'). by apply bind_ok in E' as (? & _ & [= ->]). }
    destruct (manages_row _ _ _ _ Hb) as (w & Hw & _ & Ek2 & _). assert (w = v) as -> by congruence.
    by replace (n =? r_base req2) with false by lia.
Qed.

Lemma access_of_row tb i u m v a : vaults tb !! i = Some v -> members tb !! (i, u) = Some m -> vault_access tb i u = Ok a ->
  VaultAccess.key_version a = v_key_version v /\ pending a = bool_decide (k_sealed m = None).
Proof.
  intros Hv Hm H. unfold vault_access, access_row in H. rewrite Hv, Hm in H. destruct (v_deleted v); [done|].
  unfold access in H. cbn in H. unfold from_access in H. repeat case_match; simplify_eq/=; done.
Qed.

(** C38: a key sealed across a rotation stays stale. A manager's upsert is
    checked, somebody rotates the key, and then the upsert is written: its
    sealed copy of the old key stands next to the new version. The server takes
    the member as one who holds the key, since nothing compares the row's
    version, and the member cannot replace the copy; the tables are no longer
    sound. *)
Theorem key_sealed_across_rotation user i target req a other rreq tb tb1 n :
  sound tb -> upsert_check unb64 user i target req tb = Ok a -> rotate_key unb64 other i rreq tb = (tb1, Ok n) ->
  let tb2 := fst (upsert_write user i target req a tb1) in
  snd (upsert_write user i target req a tb1) = Ok tt
  /\ sealed_key tb2 i target = Some (p_sealed req)
  /\ (exists m v, members tb2 !! (i, target) = Some m /\ vaults tb2 !! i = Some v /\ k_version m = n - 1 /\ v_key_version v = n)
  /\ (forall b, vault_access tb2 i target = Ok b -> pending b = false /\ VaultAccess.key_version b = n)
  /\ (forall version s, snd (reseal_my_key unb64 target i version s tb2) <> Ok tt)
  /\ ~ sound tb2.
Proof.
  intros S Hu (a' & v & _ & _ & Hv & En & _ & _ & _ & ->)%rotate_key_ok tb2. apply upsert_check_ok in Hu as (Hm & _).
  destruct (manages_row _ _ _ _ Hm) as (w & Hw & _ & Ek & _). assert (w = v) as -> by congruence.
  set (tb1 := publish _ _) in *.
  assert (vaults tb1 !! i = Some (bumped n v)) as Hv1 by (cbn; by rewrite lookup_insert_eq).
  assert (exists m, members tb2 !! (i, target) = Some m /\ k_sealed m = Some (p_sealed req) /\ k_version m = n - 1) as (m & H2 & Es & Ev).
  { unfold tb2, upsert_write. rewrite Hv1. cbn [fst publish members with_members]. rewrite lookup_insert_eq. eexists.
    split; [done|]. destruct (members tb1 !! (i, target)); cbn; split; try done; lia. }
  assert (vaults tb2 !! i = Some (bumped n v)) as Hv2 by (unfold tb2, upsert_write; by rewrite Hv1).
  assert (forall b, vault_access tb2 i target = Ok b -> pending b = false /\ VaultAccess.key_version b = n) as Ha.
  { intros b Hb. destruct (access_of_row tb2 i target m _ b Hv2 H2 Hb) as [-> ->]. by rewrite Es. }
  split_and!; try done.
  - unfold upsert_write. by rewrite Hv1.
  - unfold sealed_key. by rewrite H2.
  - by exists m, (bumped n v).
  - intros version s H. unfold reseal_my_key in H. destruct (_ ≫= _) as [?|e] eqn:E; [|done].
    apply bind_ok in E as (? & _ & E). apply bind_ok in E as (b & Hb & E). apply bind_ok in E as (? & _ & E%guard_ok).
    destruct (Ha b Hb) as [_ Eb]. rewrite H2 in H. replace (k_version m =? version) with false in H by lia. done.
  - intros S2. destruct (keyed _ S2 i target m H2) as (x & Hx & E). assert (x = bumped n v) as -> by congruence. cbn in E. lia.
Qed.

(** ** Temporary access *)

(** C33: temporary access ends. The expiry pass removes exactly the
    memberships whose end has passed and keeps the others and the tables sound;
    what has an end and remains was granted at most 720 hours ago, by someone
    else; a second pass finds nothing. *)
Theorem temporary_access_ends tb : sound tb ->
  let tb' := fst (expiry_pass tb) in
  sound tb'
  /\ (forall k m, members tb' !! k = Some m <-> members tb !! k = Some m /\ ~ over (now tb) m)
  /\ (forall i u m e, members tb' !! (i, u) = Some m -> k_expires m = Some e ->
        now tb <= e /\ exists a r t by_, requests tb' !! a = Some r /\ q_status r = "approved" /\ q_user r = u /\ q_vault r = i
          /\ q_by r = Some by_ /\ by_ <> u /\ q_decided r = Some t /\ now tb <= t + MAX_HOURS * 3600)
  /\ snd (expiry_pass tb') = 0%nat.
Proof.
  intros S tb'. pose proof (expiry_sound tb S) as S'. pose proof (fun k m => expiry_members tb k m S) as HM.
  destruct (expiry_rest tb) as (_ & EN & _). fold tb' in S', HM, EN. split_and!; try done.
  - intros i u m e Hm He. destruct (HM (i, u) m) as [Hk _]. destruct (Hk Hm) as [_ Ho]. unfold over in Ho. rewrite He in Ho.
    split; [lia|]. destruct (temporary tb' S' i u m e Hm He) as (a & r & Hr & <- & <- & Hp & _ & (by_ & Hb & Hn) & (t & Ht & _ & Hl)).
    exists a, r, t, by_. split_and!; try done. lia.
  - change (length (filter (falls tb') (map_to_list (members tb'))) = 0%nat).
    destruct (filter (falls tb') (map_to_list (members tb'))) as [|[k m] l] eqn:E; [done|].
    assert ((k, m) ∈ filter (falls tb') (map_to_list (members tb'))) as [[_ Hf] Hin]%list_elem_of_filter by (rewrite E; by left).
    apply elem_of_map_to_list in Hin. apply HM in Hin as [_ Hn]. by rewrite EN in Hf.
Qed.

Lemma filter_finds {A} (P Q : A -> Prop) `{forall x, Decision (P x), forall x, Decision (Q x)} l x :
  (forall y, P y -> ~ Q y) -> snd <$> list_find P (filter Q l) = Some x -> False.
Proof.
  intros HPQ H1. apply fmap_Some in H1 as ([n y] & Hy & _). apply list_find_Some in Hy as (Hl & Py & _).
  apply list_elem_of_lookup_2, list_elem_of_filter in Hl as [Qy _]. by apply (HPQ y).
Qed.

Lemma removed_not_member team user tb : team_member (remove team user tb) team user = None.
Proof.
  destruct (team_member _ _ _) as [m|] eqn:E; [|done]. exfalso. revert E. unfold team_member, remove. cbn.
  apply filter_finds. tauto.
Qed.

(** C37: a stale request readmits a former member. A member asks for access and
    is removed from the team before anyone decides. The request survives, and
    when it is approved the former member has a membership of the team's vault
    again: they have access in the role approved, without a key, and may list
    the vault and its members. *)
Theorem stale_request_readmits user team q i r req tb0 tb' o :
  let tb := remove team q tb0 in
  sound tb0 -> requests tb0 !! i = Some r -> q_user r = q -> q_team r = team ->
  satisfies (default "off" (fst <$> policies tb0 !! team)) (bool_decide (q ∈ totp tb0)) (bool_decide (q ∈ passkeys tb0)) = true ->
  approve user team i req tb = (tb', Ok o) ->
  team_member tb' team q = None
  /\ exists a, vault_access tb' (q_vault r) q = Ok a /\ VaultAccess.role a = parse_vault_role (default (q_role r) (d_role req)) /\ pending a = true
  /\ is_ok (vault_members q (q_vault r) tb') = true /\ is_ok (get q (q_vault r) tb') = true.
Proof.
  intros tb S Hr Eq Et Hs H. unfold approve in H. destruct (approve_check user team i req tb) as [g|] eqn:Ec; [|done].
  apply approve_check_ok in Ec as (_ & Hg & _ & _ & _ & _ & _ & _ & _ & _ & Erole).
  assert (g_row g = r) as E by (cbn in Hg; congruence). rewrite E in Erole.
  destruct (asked tb0 S i r Hr) as (v & Hv & Kv & Tv). unfold approve_write in H. rewrite E, Eq in H. cbn in H. rewrite Hv in H.
  destruct (filter _ (members tb0) !! (q_vault r, q)) eqn:Em; [done|]. destruct (users tb0 !! q) eqn:Eu; [|done].
  destruct (load _ _ _) as [o'|]; [|done]. injection H as <- _. cbn. split; [by apply (removed_not_member team q tb0)|].
  assert (v_deleted v = false) as Ed by by destruct (kinds tb0 S _ v Hv).
  pose proof (removed_not_member team q tb0) as Hn. unfold team_member, remove in Hn. cbn in Hn.
  assert (forall tb2, vaults tb2 = vaults tb0 -> authz tb2 = authz tb -> policies tb2 = policies tb0 -> totp tb2 = totp tb0 ->
    passkeys tb2 = passkeys tb0 -> members tb2 !! (q_vault r, q) = Some (mkVaultMember (g_role g) None (v_key_version v) (Some user) (now tb0) (Some (g_until g))) ->
    exists a, vault_access tb2 (q_vault r) q = Ok a /\ VaultAccess.role a = parse_vault_role (g_role g) /\ pending a = true) as HA.
  { intros tb2 EV EA EP ET EK EM. unfold vault_access, access_row, team_member. rewrite EV, EA, EP, ET, EK, EM, Hv, Ed, Tv, Et. cbn.
    rewrite Hn. unfold access. cbn. rewrite Hs. cbn. eexists. split_and!; done. }
  match goal with |- exists a, vault_access ?t _ _ = _ /\ _ => destruct (HA t) as (a & Ha & Er & Ep); try done end.
  { cbn. by rewrite lookup_insert_eq. }
  exists a. rewrite <- Erole. split_and!; try done.
  - unfold vault_members. by rewrite Ha.
  - unfold get. rewrite Ha. cbn. by rewrite Hv.
Qed.

(** A denial overtaken by an approval leaves the grant in place. When two
    approvers decide at once, both find the request pending; the approval is
    written and then the denial. Both report success, the request says denied,
    the requester is a member until the end the approval set, and the route
    that ends grants early refuses to. *)
Theorem denied_but_granted p1 p2 team i req1 req2 g note tb :
  sound tb -> approve_check p1 team i req1 tb = Ok g -> deny_check p2 team i req2 tb = Ok note ->
  snd (approve_write p1 team i g tb) <> Err (Conflicts "The member already has access to this vault") ->
  let tb1 := fst (approve_write p1 team i g tb) in
  let tb2 := fst (deny_write p2 team i note tb1) in
  is_ok (snd (approve_write p1 team i g tb)) = true /\ is_ok (snd (deny_write p2 team i note tb1)) = true
  /\ (exists r, requests tb2 !! i = Some r /\ q_status r = "denied")
  /\ (exists m, members tb2 !! (q_vault (g_row g), q_user (g_row g)) = Some m /\ k_role m = g_role g /\ k_expires m = Some (g_until g))
  /\ (forall p, is_ok (snd (revoke p team i tb2)) = false).
Proof.
  intros S Ha _ Hc tb1 tb2. apply approve_check_ok in Ha as (_ & Hg & Et & [acc Hu] & _).
  destruct (asked tb S i _ Hg) as (v & Hv & _). unfold tb2, tb1. clear tb2 tb1. unfold approve_write in *. rewrite Hv in *.
  destruct (members tb !! _); [done|]. clear Hc. rewrite Hu. set (tb1 := with_requests _ _).
  assert (requests tb1 !! i = Some (granted p1 g (now tb) (g_row g))) as H1 by (cbn; by rewrite lookup_alter_eq, Hg).
  assert (forall tb' r, requests tb' !! i = Some r -> q_team r = team -> q_vault r = q_vault (g_row g) -> q_user r = q_user (g_row g) ->
    vaults tb' = vaults tb -> users tb' = users tb -> exists o, load team i tb' = Ok o /\ o_row o = r) as HL.
  { intros tb' r H E1 E2 E3 E4 E5. unfold load. rewrite H. cbn. rewrite decide_True by done. rewrite E2, E3, E4, E5, Hv, Hu. cbn. eauto. }
  destruct (HL tb1 _ H1) as (o & Ho & _); try done. rewrite Ho. cbn [fst snd]. set (tb2 := fst _).
  assert (requests tb2 !! i = Some (denied p2 note (now tb) (granted p1 g (now tb) (g_row g)))) as H2.
  { cbn. by rewrite !lookup_alter_eq, Hg. }
  destruct (HL tb2 _ H2) as (o2 & Ho2 & Er); try done. split_and!; try done.
  - unfold deny_write. cbn [snd]. by change (with_requests _ _) with tb2; rewrite Ho2.
  - eexists. by split.
  - eexists. cbn. by rewrite lookup_insert_eq.
  - intros p. unfold revoke. destruct (revoke_check p team i tb2) as [cur|] eqn:Er2; [|done].
    apply revoke_check_ok in Er2 as (_ & H3 & _ & H4). rewrite H2 in H3. injection H3 as <-. done.
Qed.
End Safety.

(** ** Witnesses *)

Definition demo_unb64 (s : string) : option bytes := if decide (s = "") then None else Some (repeat 120 48).
Definition demo_authz : Db :=
  mkDb [mkRole 10 1 "owner" "Owner" "" ["*"] true 0; mkRole 11 1 "admin" "Admin" "" ["access.approve"; "vaults.members"] true 1;
        mkRole 12 1 "member" "Member" "" [] true 2]
    [mkMember 1 1 "owner" 10 "manual"; mkMember 1 2 "member" 12 "manual"; mkMember 1 3 "admin" 11 "manual";
     mkMember 1 4 "member" 12 "manual"] ∅ [].
Definition demo_user (email : string) : UserRow := mkUser email None None "pk".
Definition demo_empty : Tables :=
  mkTables 1000 demo_authz ∅ ∅ ∅
    (list_to_map [(1%N, demo_user "a"); (2%N, demo_user "b"); (3%N, demo_user "c"); (4%N, demo_user "d")]) ∅ ∅ ∅ ∅ [].

(** The owner makes a vault for themselves and user 2; user 4 asks for it. *)
Definition demo_start : Datatypes.list Happening :=
  [Registers 90 1 "mine"; CreatesVault 100 1 1 (mkCreate "Servers" [mkUpsert 1 Manager "k1"; mkUpsert 2 Editor "k2"]);
   Asks 50 4 1 (mkAsk 100 "viewer" 8 "on call")].
Definition demo_tables : Tables := play demo_unb64 demo_start demo_empty.
Definition demo_decision : DecideAccessRequest := mkDecide None None None.

Lemma demo_sound : sound demo_tables.
Proof. apply play_stays_sound; [apply sound_empty|]. by repeat constructor. Qed.

(** The same, decided, with everyone moving and a month passing. *)
Definition later (tb : Tables) : Tables :=
  mkTables (now tb + 2592000) (authz tb) (policies tb) (totp tb) (passkeys tb) (users tb) (vaults tb) (members tb) (bridges tb)
    (requests tb) (published tb).
Definition demo_rotation : RotateVaultKeyRequest := mkRotate 1 [mkSealedFor 1 "n1"; mkSealedFor 2 "n2"].
Definition demo_history : Datatypes.list Happening :=
  demo_start ++ [Approves 3 1 50 demo_decision; Upserts 1 100 4 (mkUpsert 4 Viewer "k4"); Rotates 1 100 demo_rotation; Leaves 1 2;
                 Deletes 1 100; Elsewhere later; Expires].

Example demo_history_ends :
  let tb := play demo_unb64 demo_history demo_empty in
  (length (map_to_list (vaults tb)), length (map_to_list (members tb)), q_status <$> requests tb !! 50%N,
   k_version <$> members tb !! (100%N, 1%N), sealed_key tb 100 1) = (2%nat, 2%nat, Some "expired", Some 2, Some "n1").
Proof. by vm_compute. Qed.

Lemma vaults_stay_sound_witness : let tb' := play demo_unb64 demo_history demo_empty in
  sound tb' /\ exists! j, exists w, vaults tb' !! j = Some w /\ defaults 1 w.
Proof.
  destruct (vaults_stay_sound demo_unb64 demo_history demo_empty) as (S & D & _).
  - apply sound_empty.
  - unfold demo_history, demo_start. cbn [app]. repeat (apply Forall_cons; split); try apply Forall_nil; try exact I.
    intros x. unfold later. cbn. repeat split. lia.
  - split; [exact S|]. destruct (vaults (play demo_unb64 demo_history demo_empty) !! 100%N) as [v|] eqn:E; [|by vm_compute in E].
    apply (D 100%N v 1%N E). revert E. vm_compute. by intros [= <-].
Defined.

Lemma keys_come_from_managers_witness :
  let h := Upserts 1 100 4 (mkUpsert 4 Viewer "k4") in
  sealed_key (happen demo_unb64 demo_tables h) 100 4 = Some "k4" /\ sealed_by h demo_tables 100 4 "k4".
Proof.
  assert (sealed_key (happen demo_unb64 demo_tables (Upserts 1 100 4 (mkUpsert 4 Viewer "k4"))) 100 4 = Some "k4") as E
    by by vm_compute.
  split; [exact E|].
  destruct (keys_come_from_managers demo_unb64 (Upserts 1 100 4 (mkUpsert 4 Viewer "k4")) demo_tables 100 4 "k4" demo_sound I E)
    as [H|H]; [by vm_compute in H|exact H].
Defined.

Lemma rotation_is_exact_witness :
  let tb' := fst (rotate_key demo_unb64 1 100 demo_rotation demo_tables) in
  snd (rotate_key demo_unb64 1 100 demo_rotation demo_tables) = Ok 2
  /\ exists v, vaults demo_tables !! 100%N = Some v /\ vaults tb' = <[100%N := bumped 2 v]> (vaults demo_tables).
Proof.
  split; [by vm_compute|].
  destruct (rotation_is_exact demo_unb64 1 100 demo_rotation demo_tables (fst (rotate_key demo_unb64 1 100 demo_rotation demo_tables)) 2)
    as (v & H1 & _ & _ & H2 & _); [|exists v; split; assumption].
  assert (snd (rotate_key demo_unb64 1 100 demo_rotation demo_tables) = Ok 2) as E by by vm_compute.
  rewrite <- E. by destruct (rotate_key _ _ _ _ _).
Defined.

Definition demo_upsert : VaultMemberUpsert := mkUpsert 4 Viewer "k4".
Definition demo_access : Access := mkAccess 100 Team (Some 1%N) Manager 1 false.

Lemma key_sealed_across_rotation_witness :
  let tb1 := fst (rotate_key demo_unb64 1 100 demo_rotation demo_tables) in
  let tb2 := fst (upsert_write 1 100 4 demo_upsert demo_access tb1) in
  upsert_check demo_unb64 1 100 4 demo_upsert demo_tables = Ok demo_access /\ sealed_key tb2 100 4 = Some "k4" /\ ~ sound tb2.
Proof.
  split; [by vm_compute|].
  destruct (key_sealed_across_rotation demo_unb64 1 100 4 demo_upsert demo_access 1 demo_rotation demo_tables
    (fst (rotate_key demo_unb64 1 100 demo_rotation demo_tables)) 2 demo_sound) as (_ & H1 & _ & _ & _ & H2).
  - by vm_compute.
  - assert (snd (rotate_key demo_unb64 1 100 demo_rotation demo_tables) = Ok 2) as E by by vm_compute.
    rewrite <- E. by destruct (rotate_key _ _ _ _ _).
  - split; assumption.
Defined.

Definition demo_granted : Tables := later (fst (approve 3 1 50 demo_decision demo_tables)).

Lemma later_sound tb : sound tb -> sound (later tb).
Proof. intros S. apply (sound_same tb); [exact S|cbn; lia|done..]. Qed.
Lemma demo_granted_sound : sound demo_granted.
Proof. apply later_sound, approve_sound, demo_sound. Qed.

Lemma demo_grant_over : match members demo_granted !! (100%N, 4%N) with Some m => over (now demo_granted) m | None => False end.
Proof. by vm_compute. Qed.

Lemma temporary_access_ends_witness :
  members demo_granted !! (100%N, 4%N) <> None /\ members (fst (expiry_pass demo_granted)) !! (100%N, 4%N) = None.
Proof.
  destruct (temporary_access_ends demo_granted demo_granted_sound) as (_ & H & _ & _).
  pose proof demo_grant_over as O. split.
  - intros E. rewrite E in O. exact O.
  - apply eq_None_not_Some. intros [m Hm]. apply (H (100%N, 4%N) m) in Hm. destruct Hm as [Hm N]. rewrite Hm in O. exact (N O).
Defined.

Definition demo_request : AccessRequest :=
  mkRequest 1 100 4 "viewer" 8 "on call" "pending" None None None None 1000.

Lemma stale_request_readmits_witness :
  let tb' := fst (approve 3 1 50 demo_decision (remove 1 4 demo_tables)) in
  requests demo_tables !! 50%N = Some demo_request /\ team_member tb' 1 4 = None
  /\ exists a, vault_access tb' 100 4 = Ok a.
Proof.
  assert (requests demo_tables !! 50%N = Some demo_request) as Hr by by vm_compute.
  split; [exact Hr|].
  destruct (snd (approve 3 1 50 demo_decision (remove 1 4 demo_tables))) as [o|e] eqn:E; [|by vm_compute in E].
  destruct (stale_request_readmits 3 1 4 50 demo_request demo_decision demo_tables
    (fst (approve 3 1 50 demo_decision (remove 1 4 demo_tables))) o demo_sound Hr eq_refl eq_refl) as (H1 & a & H2 & _).
  - by vm_compute.
  - rewrite <- E. by destruct (approve _ _ _ _ _).
  - split; [exact H1|]. exists a. exact H2.
Defined.

Definition demo_grant : Grant := mkGrant demo_request "viewer" 8 None 29800.

Lemma denied_but_granted_witness :
  let tb2 := fst (deny_write 1 1 50 None (fst (approve_write 3 1 50 demo_grant demo_tables))) in
  approve_check 3 1 50 demo_decision demo_tables = Ok demo_grant /\ deny_check 1 1 50 demo_decision demo_tables = Ok None
  /\ (exists r, requests tb2 !! 50%N = Some r /\ q_status r = "denied") /\ is_Some (members tb2 !! (100%N, 4%N)).
Proof.
  assert (approve_check 3 1 50 demo_decision demo_tables = Ok demo_grant) as Ha by by vm_compute.
  assert (deny_check 1 1 50 demo_decision demo_tables = Ok None) as Hd by by vm_compute.
  split; [exact Ha|]. split; [exact Hd|].
  destruct (denied_but_granted 3 1 1 50 demo_decision demo_decision demo_grant None demo_tables demo_sound Ha Hd)
    as (_ & _ & H1 & (m & H2 & _) & _).
  - by vm_compute.
  - split; [exact H1|]. exists m. exact H2.
Defined.

(** ** Further facts *)

(** An update that renames and is refused the change of its log setting has
    renamed. *)
Lemma refused_update_renames user i a name n on team tb : manages tb i user = Ok a -> VaultAccess.team_id a = Some team ->
  validate_name name = Ok n -> on = false -> recording_required tb team = true ->
  update user i (mkUpdate (Some name) (Some on)) tb =
    (with_vaults (alter (renamed n) i) tb, Err (Forbids "Team policy makes session recording mandatory")).
Proof. intros Hm Ht Hn -> Hr. unfold update. rewrite Hm. cbn. rewrite Hn. unfold update_logging. rewrite Ht. cbn. unfold recording_required in *. cbn. by rewrite Hr. Qed.

(** An approver sets any window and role, not only smaller ones. *)
Example approval_widens : exists tb o, approve 3 1 50 (mkDecide (Some 720) (Some "editor") None) demo_tables = (tb, Ok o) /\
  q_hours demo_request = 8 /\ q_hours (o_row o) = 720 /\ q_role (o_row o) = "editor".
Proof. eexists _, _. split; [by vm_compute|]. by vm_compute. Qed.
